(* ===== verification/_CoqProject ===== *)
-Q . S2P
Prelude.v
Wire.v
Proto.v
FlowControl.v
ChunkSender.v
Multiplexer.v
Queue.v
Transport.v
SshTransport.v
Delta.v
Compress.v
FramePayload.v
Floats.v
Casts.v
Scaling.v
Downscale.v
ServerPipeline.v
Interpolate.v
FpsOverlay.v
Display.v
DisplayThread.v
DisplaySafety.v
DisplayRun.v
DisplayScreen.v
CursorOverlay.v
Presentation.v
Encoder.v
EncoderRun.v
Codecs.v
DesktopDetect.v
Worker.v
Vulkan.v
VulkanLogic.v
VulkanContext.v
VulkanSafety.v
VulkanRuns.v
Fsr2Native.v
Fsr2Safety.v
Fsr2Runs.v
Fsr2.v
Fsr2Logic.v
Fsr2Life.v
Fsr2Motion.v
Fsr2Mixes.v
EncoderObjects.v
EncoderBackends.v
EncoderSafety.v
EncoderCalls.v
EncoderSteps.v
EncoderLife.v
ClientPipeline.v
ClientTyping.v
Session.v
BufferPool.v
Meters.v
CaptureThread.v
CaptureSelect.v
CaptureIo.v
CaptureLogic.v
CaptureMem.v
Screencopy.v
ScreencopySafety.v
ScreencopyFrames.v
ExtCapture.v
ExtPixels.v
ExtFrames.v
ExtSetup.v
Outputs.v
Portal.v
InputPipeline.v
Keymap.v
InputThreads.v
EiInput.v
Launch.v
ClientRun.v
ServerRun.v
