(* ===== verification/Prelude.v ===== *)
(** * RemoteWay: a verification development

    RemoteWay shows a Wayland output or window of one machine on another over an
    ssh connection.  The server captures frames, delta-encodes and compresses the
    damaged regions and writes them to a multiplexed byte stream; the client reads
    the stream, decodes, scales and displays the frames, and sends the input of its
    user back, which the server replays on virtual devices.  The sources are the
    crates of [crates/]; this library models the parts that decide what the user
    sees and what the remote applications receive.

    ** Conventions

    A machine integer is a [Z]; [fits w] is its range, [wrap w] the arithmetic of a
    release build, [sat_sub] and [sat_add] the saturating operations.  Bytes are
    [Z]s with [bytes_ok].  A panic (index out of range, failed [unwrap]) is [None];
    [Result] is a sum, and where a function can panic and fail, [run] of this file
    ([Ret], [Fail], [Panic]).  Floats are [SpecFloat] numbers at the width of the
    source, rounded as IEEE 754 says.  Threads, channels and clocks are explicit: an
    operation sequence is a list of events, a clock reading an argument.

    ** The files, bottom up

    - [Prelude]: this file: integers, byte lists, panicking slices, loops.
    - [Wire]: the zerocopy codec: a packed struct is a list of little-endian
      fields ([Packed]), [as_bytes] and [ref_from_bytes].
    - [Proto]: [remoteway-proto], each message struct, tag enum and constructor.
    - [FlowControl], [ChunkSender], [Multiplexer], [Transport], [SshTransport]:
      [remoteway-transport].  A message is cut into chunks under headers
      ([split_into_chunks]), the peer's [StreamParser] reassembles them per stream;
      [Transport] is [ssh_transport.rs]: the three channels and the write loop that
      prefers input to anchors to frames, as scheduler steps on a [Link], and the
      read loop as a function; [SshTransport] the task that runs both, its owner and
      the bounded channel between them, as steps in any order.  [Queue] is the interface of the channels and rings (a bounded
      FIFO) with its laws, which clients are proved against.
    - [Delta], [Compress], [FramePayload]: [remoteway-compress] and the payload
      layout of the two [pipeline.rs].  lz4 and zstd are parameters, the class [Codecs], with
      the round-trip laws of [CodecLaws].
    - [Floats], [Casts]: rounding, truncation and casts between widths.
    - [Scaling], [Downscale], [ServerPipeline]: the server's [pipeline.rs]: stripes,
      the two downscale filters and the images they compute, and one turn of the
      compress-send loop as a function on [ServerState].
    - [Interpolate]: [remoteway-interpolate] without its GPU backends; the class
      [FrameInterpolator] is the trait, the CPU blend an instance.
    - [FpsOverlay], [ClientPipeline]: the client's [fps_overlay.rs] and
      [pipeline.rs], one received message after another on [ClientState].
      [ClientTyping] follows the types of its values from the wire to the display.
    - [Display]: [remoteway-display]'s [surface.rs] and [shm.rs]: surfaces, the pair
      of shared-memory buffers behind each, the event handlers, and every call of
      [WaylandDisplay] as a computation that sends requests and may fail or panic.
      [DisplayThread] is one pass of the loop of [thread.rs]; [DisplaySafety] the
      compositor's side (what it holds, what it shows) as a monitor of the requests,
      with the invariant of every call; [DisplayRun] a whole run; [DisplayScreen]
      the pixels.  [CursorOverlay] is [cursor.rs] and [Presentation] is
      [presentation.rs].
    - [Encoder]: [encoder.rs], and the frame loop the three backends of
      [remoteway-encode] share ([encode_m]: reference slots, key frames, recorded
      commands, errors) over the class [Backend]; [EncoderRun] runs of it, with the
      invariant on the picture buffer; [Codecs] the instances for [h264.rs],
      [h265.rs] and [av1.rs]: parameter sets, picture numbers, reference records.
    - [Vulkan]: what the Vulkan specification says of the calls the code makes: a device
      is a map from handles to objects and a [driver] that answers; a call that is not
      valid on the objects there are is [None]; command buffers run when they are
      submitted, and what they name is in use until the wait.  [VulkanLogic] is a linear
      separation logic over it (an assertion owns objects, none can be forgotten).
      [VulkanContext] is [remoteway-vulkan], [VulkanSafety] its triples and [VulkanRuns]
      its theorems.
    - [Fsr2Native]: [fsr2_native.rs] of [remoteway-interpolate], the upscaler over the
      vendor's library: its context, its images and buffers kept from call to call;
      [Fsr2Safety] its triples and [Fsr2Runs] its life.  [Fsr2] is [fsr2.rs], the
      compute shaders: the passes, the fallback of [upscale] and the interpolation;
      [Fsr2Logic] and [Fsr2Motion] its triples, [Fsr2Life] and [Fsr2Mixes] its runs.
    - [EncoderObjects]: [new], [encode] and [drop] of the encoders over their Vulkan
      objects; [EncoderBackends] the three backends; [EncoderSafety], [EncoderCalls]
      and [EncoderSteps] their triples, which tie [encode] to [Encoder]'s, and
      [EncoderLife] the theorem on a whole life.
    - [Session]: the compress loop, the write loop of [Transport] and the client's
      receive loop, joined: a run is a list of their steps in any order.
    - [BufferPool], [Meters]: [remoteway-core]: the lock-free slot bitmap under
      interleaving, and the latency and bandwidth meters.
    - [CaptureThread], [DesktopDetect], [CaptureSelect]: [thread.rs],
      [desktop_detect.rs], [detect.rs] of [remoteway-capture] and the retry and mode
      logic of the server's [main.rs].  The capture loop is cut at every access to what
      it shares with its consumer.
    - [CaptureIo]: [shm.rs] and [wayland_io.rs] of [remoteway-capture]: the pair of shared
      buffers and waiting with a deadline, in a monad over the backend's state, the mapped
      memory and the answers still to come, which logs what both sides do.
      [CaptureLogic] and [CaptureMem] are its program logic: a judge reads the log against
      the protocol and the memory ([Protocol]), triples say what an operation keeps, and
      runs compute it.  [Screencopy] is [screencopy.rs], [ScreencopySafety] and
      [ScreencopyFrames] its theorems; [ExtCapture] is [ext_capture.rs], with [ExtPixels]
      (the transforms), [ExtFrames] and [ExtSetup]; [Outputs] the listings of [output.rs]
      and [toplevel.rs].  [Portal] is [portal.rs]: the stored token, the handshake, the
      set-up in a thread of its own, and the samples it converts.
    - [InputPipeline]: [remoteway-input]: from a seat event on the client to a
      request on a virtual device of the server, and what the request does there.
      [Worker] is a thread with a stop flag, its handle and the calls of [ThreadConfig]
      that start it; [InputThreads] the connections of the capture and the injection and
      the two threads over them, as [Worker]s.  [Keymap] is [keymap.rs], [EiInput] the
      backend over libei.
    - [Launch]: the two command lines and the ssh command the client runs; [ClientRun]
      and [ServerRun] the two [main.rs], from the options to the end of the process.

    ** What the theorems show

    - The product's promise ([Session.session_end_to_end]): for a plain client, one
      geometry and captures with accurate damage, under any frame skipping, backpressure,
      schedule of the write loop and segmentation, nothing panics and the client shows
      exactly the pictures the transport took, in order, as long as no anchor is taken
      while a frame waits; [overtaken_session_wrong] is what happens then, after 300
      passes at the earliest.  [CaptureThread.capture_meets_contract] discharges the
      hypothesis on the captures from the capture thread, when no frame was lost there;
      the examples [rate_limit_breaks_contract] and [ring_drop_breaks_contract] show that
      the losses the code flags too late, or not at all, break it.
    - Input ([InputPipeline.input_end_to_end]): the requests the remote compositor
      gets are the replays of the user's events, in order, and what they do is what the
      user did except that the pointer falls short of the user's pixel
      ([pointer_lands_short]).  The inject thread serves its ring, whatever its
      connection and its owner do ([InputThreads.inject_thread_serves]).
    - Transport: segmentation independence, demultiplexing as a refinement of
      per-stream reassembly, conservation and priority of the channels, delivery
      by the read loop alone and, however it interleaves with the write loop and the
      owner, by the transport ([SshTransport.transport_serves]), and what errors leave
      behind.
    - Codec: the delta, the region codecs and the frame payload round-trip; the
      vectorised and the per-region encoders equal the scalar one; the parser of
      received payloads is total.
    - Protocol: where each field of each struct lies on the wire
      ([Proto.protocol_layout]).
    - Display: no buffer the compositor holds is written, whatever the order of events
      ([DisplayRun.display_spares_held]); once it releases and calls back, the newest
      frame is shown ([display_shows_newest]), and never an older one after a newer
      ([display_in_order]); what a compositor that follows the requests reads in the
      buffer attached is the frame, when rows are tight and nothing was skipped
      ([DisplayScreen.display_screen_exact]; its examples show what happens otherwise).
    - Capture backends: from its construction up to the first call that fails, after which
      the capture thread asks for nothing more, the screencopy backend never breaks the
      protocol, reads a buffer the compositor may be writing, or panics
      ([ScreencopySafety.screencopy_safe]) and its frames fit their geometry
      ([screencopy_frames]; [call_after_failure_unsound] is a caller that goes on); and a
      capture that is answered succeeds ([screencopy_delivers]).  The
      ext-image-copy-capture backend hands out the picture however long it had to wait,
      upright under the transforms the source supports ([ExtFrames.ext_delivers];
      [turned_frame_not_upright]), captures what was asked for among what the compositor
      announced ([ExtSetup.ext_opens]) and lists the windows that are open
      ([windows_listed]).
    - Encoders: every inter frame is predicted from the picture of the last frame
      that was encoded, through a slot that holds it; key frames come first and on
      request, unless the attempt that was to make one fails ([keyframe_request_lost]);
      each codec's description of the reference is that of the frame it names
      ([Codecs.references_described]).
    - Vulkan objects: an encoder makes only valid calls from [new] to [drop], whatever
      fails, touches no object of others, leaves nothing if [new] succeeded, and what it
      returns is a run of [Encoder] ([EncoderLife.encoder_life]); likewise the context
      ([VulkanRuns.context_life]), and the upscaler keeps its objects from call to call,
      renews them when a size changes and returns what the library computes of the three
      pictures it was given ([Fsr2Runs.native_life], [Fsr2Life.fsr2_life]); without the
      library it gives no frame ([fallback_gives_no_frame]), and its interpolation, which
      nothing calls, would be right ([Fsr2Mixes.mixes_right]); examples show what is left
      where the code returns early.
    - Types ([ClientTyping.client_typed]): no bytes a peer may send take a value of
      the client out of its type.
    - Pool, meters, flow control, stripes, scaling, interpolation, overlay: their
      invariants and bounds.
    - The cursor is shown as one that never goes out of date would be, in the byte order
      of its buffer's format ([CursorOverlay.cursor_refines]); the portal's samples reach the consumer
      ([Portal.portal_delivers]).
    - Start-up: the retry loop stops, backend choice and session discovery do what
      their contracts say; the server's own option and variant names read back
      what the client was asked for ([Launch.ssh_command_read]), and the server ends as its stages say, with its child
      ([ServerRun.server_lifecycle]).

    ** Fuel and bounds

    [split_into_chunks] takes fuel; [ChunkSender.split_writes_chunks] shows the payload's
    length suffices.  [push] runs its loop with the buffer's length as fuel, enough
    since a turn consumes a header.  [stripe_loop] runs once per stripe.
    A wait of a capture backend takes its number of answers, plus one.
    Loops over [zrange] are structural.  Hypotheses such as [zlen l < 2 ^ 63] say
    that a list is one a [Vec] can hold.

    ** What is not modelled

    The kernel's and the drivers' side of Wayland, PipeWire, Vulkan and the vendor
    SDKs: their answers are arguments.  Of Vulkan, [Vulkan] has the validity of the
    calls the code makes, on objects, their states and their use by the device; the
    assumptions are the sizes of what the driver answers ([DriverLaws]), that a
    failed submission executes nothing and that a lost device uses nothing, and two
    that the specification does not grant and the theorems name: that a fence wait
    fails only when the device is lost ([WaitsEnd]) and that a device finishes a
    command before the next, whatever the barriers say ([InOrder]); alignment,
    formats, queue family ownership and the contents of the structures are left out.  Not modelled
    are the GPU backends other than these: bindings to vendor SDKs
    ([fsr3_frame_gen.rs], [ffx_fg.rs], [rife.rs]); what the kernel makes of core pinning and thread priorities
    ([Worker] has the calls); argument parsing, of which [Launch] has the names and the
    order of words; logging. *)

From Stdlib Require Export ZArith Lia.
From stdpp Require Export base option list gmap numbers.

#[global] Open Scope Z_scope.
Declare Scope rw_scope.
Delimit Scope rw_scope with rw.

(** ** Machine integers *)

(** A [w]-bit unsigned integer is a [Z] in range; arithmetic of a release
    build wraps around. *)
Definition fits (w z : Z) : Prop := 0 <= z < 2 ^ w.

#[export] Instance fits_dec w z : Decision (fits w z).
Proof. unfold fits. apply _. Defined.

Definition wrap (w z : Z) : Z := z mod 2 ^ w.

(** The two's complement reading of the low [w] bits. *)
Definition to_signed (w z : Z) : Z :=
  if wrap w z <? 2 ^ (w - 1) then wrap w z else wrap w z - 2 ^ w.

(** Saturating subtraction and checked-or-saturated addition of [usize]. *)
Definition sat_sub (a b : Z) : Z := Z.max 0 (a - b).
Definition sat_add (w a b : Z) : Z := Z.min (2 ^ w - 1) (a + b).

Lemma wrap_small w z : fits w z -> wrap w z = z.
Proof. intros H. unfold wrap, fits in *. by apply Z.mod_small. Qed.

Lemma wrap_fits w z : 0 <= w -> fits w (wrap w z).
Proof.
  intros Hw. unfold wrap, fits. apply Z.mod_pos_bound. by apply Z.pow_pos_nonneg.
Qed.

Lemma wrap_wrap w z : 0 <= w -> wrap w (wrap w z) = wrap w z.
Proof. intros Hw. apply wrap_small. by apply wrap_fits. Qed.

Lemma fits_weaken v w z : v <= w -> fits v z -> fits w z.
Proof.
  unfold fits. intros Hle [H1 H2]. split; [done|].
  eapply Z.lt_le_trans; [exact H2|]. apply Z.pow_le_mono_r; lia.
Qed.

(** [to_signed] is inverse to taking the low bits, on the signed range. *)
Lemma to_signed_wrap w z :
  0 < w -> - 2 ^ (w - 1) <= z < 2 ^ (w - 1) -> to_signed w (wrap w z) = z.
Proof.
  intros Hw Hz. unfold to_signed. rewrite wrap_wrap by lia. unfold wrap.
  assert (E : 2 ^ w = 2 * 2 ^ (w - 1)).
  { rewrite <- Z.pow_succ_r by lia. f_equal; lia. }
  assert (P : 0 < 2 ^ (w - 1)) by (apply Z.pow_pos_nonneg; lia).
  destruct (Z_lt_le_dec z 0) as [Hneg|Hpos].
  - replace (z mod 2 ^ w) with (z + 2 ^ w).
    + destruct (Z.ltb_spec (z + 2 ^ w) (2 ^ (w - 1))); lia.
    + rewrite <- (Z.mod_small (z + 2 ^ w) (2 ^ w)) by lia.
      rewrite <- (Z.mul_1_l (2 ^ w)) at 1. by rewrite Z_mod_plus_full.
  - rewrite Z.mod_small by lia. destruct (Z.ltb_spec z (2 ^ (w - 1))); lia.
Qed.

Lemma wrap_to_signed w z : 0 < w -> fits w z -> wrap w (to_signed w z) = z.
Proof.
  intros Hw Hz. unfold to_signed. rewrite (wrap_small w z) by done.
  destruct (Z.ltb_spec z (2 ^ (w - 1))); [by apply wrap_small|].
  unfold wrap, fits in *. rewrite <- (Z.mod_small z (2 ^ w)) at 2 by lia.
  replace (z - 2 ^ w) with (z + (-1) * 2 ^ w) by lia. apply Z_mod_plus_full.
Qed.

Lemma to_signed_range w z :
  0 < w -> - 2 ^ (w - 1) <= to_signed w z < 2 ^ (w - 1).
Proof.
  intros Hw. unfold to_signed. pose proof (wrap_fits w z ltac:(lia)) as [H1 H2].
  assert (E : 2 ^ w = 2 * 2 ^ (w - 1)).
  { rewrite <- Z.pow_succ_r by lia. f_equal; lia. }
  destruct (Z.ltb_spec (wrap w z) (2 ^ (w - 1))); lia.
Qed.

(** [simpl_pow] replaces the powers of two of the machine widths by literals
    so that [lia] can use them. *)
Ltac simpl_pow :=
  change (2 ^ 8) with 256 in *; change (2 ^ 16) with 65536 in *;
  change (2 ^ 32) with 4294967296 in *;
  change (2 ^ 64) with 18446744073709551616 in *;
  change (2 ^ 31) with 2147483648 in *;
  change (2 ^ 63) with 9223372036854775808 in *.

Ltac width_lia := unfold fits, sat_sub, sat_add in *; simpl_pow; lia.

(** ** Byte strings and slices *)

Definition zlen {A} (l : list A) : Z := Z.of_nat (length l).

(** [l[a..b]]: [None] is the panic of an out-of-range or reversed range. *)
Definition slice {A} (l : list A) (a b : Z) : option (list A) :=
  if decide (0 <= a <= b /\ b <= zlen l)
  then Some (take (Z.to_nat (b - a)) (drop (Z.to_nat a) l))
  else None.

(** [l[i]]: [None] is the panic of an out-of-range index. *)
Definition get {A} (l : list A) (i : Z) : option A :=
  if decide (0 <= i) then l !! Z.to_nat i else None.

(** [l[i] = x]: [None] is the panic of an out-of-range index. *)
Definition set {A} (l : list A) (i : Z) (x : A) : option (list A) :=
  if decide (0 <= i < zlen l) then Some (<[Z.to_nat i := x]> l) else None.

(** [l[a..a + s.len()].copy_from_slice(s)]. *)
Definition splice {A} (l : list A) (a : Z) (s : list A) : option (list A) :=
  if decide (0 <= a /\ a + zlen s <= zlen l)
  then Some (take (Z.to_nat a) l ++ s ++ drop (Z.to_nat a + length s) l)
  else None.

(** [l.chunks(n)]: pieces of [n], the last one possibly shorter. *)
Fixpoint chunk_list {A} (fuel n : nat) (l : list A) : list (list A) :=
  match fuel, l with
  | S fuel, _ :: _ => take n l :: chunk_list fuel n (drop n l)
  | _, _ => []
  end.

(** [None] is the panic of a zero chunk size. *)
Definition chunks_exact_or_last {A} (n : Z) (l : list A) : option (list (list A)) :=
  if decide (0 < n) then Some (chunk_list (length l) (Z.to_nat n) l) else None.

(** [Vec::resize]. *)
Definition resize_vec {A} (n : Z) (x : A) (l : list A) : list A :=
  take (Z.to_nat n) l ++ replicate (Z.to_nat n - length l) x.

Definition bytes_ok (bs : list Z) : Prop := Forall (fits 8) bs.

Definition xor_bytes (a b : list Z) : list Z := zip_with Z.lxor a b.

Lemma zlen_nonneg {A} (l : list A) : 0 <= zlen l.
Proof. unfold zlen. lia. Qed.

Lemma zlen_nil {A} : zlen (@nil A) = 0.
Proof. done. Qed.

Lemma zlen_cons {A} (x : A) l : zlen (x :: l) = 1 + zlen l.
Proof. unfold zlen. simpl. lia. Qed.

Lemma zlen_app {A} (l k : list A) : zlen (l ++ k) = zlen l + zlen k.
Proof. unfold zlen. rewrite length_app. lia. Qed.

Lemma zlen_pos {A} (l : list A) : l <> [] -> 0 < zlen l.
Proof. destruct l; [done|]. intros _. rewrite zlen_cons. pose proof (zlen_nonneg l). lia. Qed.

Lemma zlen_zero {A} (l : list A) : zlen l = 0 -> l = [].
Proof. destruct l; [done|]. rewrite zlen_cons. pose proof (zlen_nonneg l). lia. Qed.

Lemma zlen_take {A} (l : list A) n : Z.of_nat n <= zlen l -> zlen (take n l) = Z.of_nat n.
Proof. unfold zlen. rewrite length_take. lia. Qed.

Lemma zlen_drop {A} (l : list A) n : Z.of_nat n <= zlen l -> zlen (drop n l) = zlen l - Z.of_nat n.
Proof. unfold zlen. rewrite length_drop. lia. Qed.

Lemma zlen_resize {A} n (x : A) l : 0 <= n -> zlen (resize_vec n x l) = n.
Proof.
  intros Hn. unfold zlen, resize_vec.
  rewrite length_app, length_take, length_replicate. lia.
Qed.

Lemma length_resize {A} n (x : A) l : length (resize_vec n x l) = Z.to_nat n.
Proof. unfold resize_vec. rewrite length_app, length_take, length_replicate. lia. Qed.

Lemma resize_same {A} (x : A) l : resize_vec (zlen l) x l = l.
Proof.
  unfold resize_vec, zlen. rewrite Nat2Z.id, firstn_all, Nat.sub_diag. apply app_nil_r.
Qed.

Lemma slice_ok {A} (l : list A) a b :
  0 <= a -> a <= b -> b <= zlen l ->
  slice l a b = Some (take (Z.to_nat (b - a)) (drop (Z.to_nat a) l)).
Proof. intros. unfold slice. by rewrite decide_True. Qed.

Lemma slice_inv {A} (l : list A) a b s :
  slice l a b = Some s ->
  0 <= a /\ a <= b /\ b <= zlen l /\
  s = take (Z.to_nat (b - a)) (drop (Z.to_nat a) l) /\ zlen s = b - a.
Proof.
  unfold slice. case_decide as H; [|done]. intros [= <-].
  repeat split; try lia. unfold zlen in *. rewrite length_take, length_drop. lia.
Qed.

Lemma slice_lookup {A} (l : list A) a b s i :
  slice l a b = Some s -> (Z.of_nat i < b - a) -> s !! i = l !! (Z.to_nat a + i)%nat.
Proof.
  intros Hs Hi. apply slice_inv in Hs as (?&?&?&->&?).
  rewrite lookup_take_lt by lia. by rewrite lookup_drop.
Qed.

Lemma slice_app_mid {A} (p m s : list A) :
  slice (p ++ m ++ s) (zlen p) (zlen p + zlen m) = Some m.
Proof.
  rewrite slice_ok by (rewrite ?zlen_app; pose proof (zlen_nonneg p);
    pose proof (zlen_nonneg m); pose proof (zlen_nonneg s); lia).
  unfold zlen. rewrite Nat2Z.id, drop_app_length.
  replace (Z.to_nat _) with (length m) by lia. by rewrite take_app_length.
Qed.

Lemma slice_app_prefix {A} (l k : list A) a b :
  b <= zlen l -> slice (l ++ k) a b = slice l a b.
Proof.
  intros H. unfold slice. rewrite zlen_app. pose proof (zlen_nonneg k).
  repeat case_decide; try done; try lia. f_equal. unfold zlen in *.
  rewrite drop_app_le by lia. rewrite take_app_le; [done|]. rewrite length_drop. lia.
Qed.

Lemma slice_full {A} (l : list A) : slice l 0 (zlen l) = Some l.
Proof.
  pose proof (slice_app_mid [] l []) as H. rewrite app_nil_r in H. exact H.
Qed.

Lemma get_lookup {A} (l : list A) (i : nat) : get l (Z.of_nat i) = l !! i.
Proof. unfold get. rewrite decide_True by lia. by rewrite Nat2Z.id. Qed.

Lemma get_Some {A} (l : list A) i : 0 <= i < zlen l -> is_Some (get l i).
Proof.
  intros H. unfold get. rewrite decide_True by lia.
  apply lookup_lt_is_Some_2. unfold zlen in H. lia.
Qed.

Lemma set_ok {A} (l : list A) i x :
  0 <= i < zlen l -> set l i x = Some (<[Z.to_nat i := x]> l).
Proof. intros H. unfold set. by rewrite decide_True. Qed.

Lemma set_zlen {A} (l k : list A) i x : set l i x = Some k -> zlen k = zlen l.
Proof.
  unfold set. case_decide; [|done]. intros [= <-]. unfold zlen. by rewrite length_insert.
Qed.

Lemma xor_bytes_length a b : length a = length b -> length (xor_bytes a b) = length a.
Proof. intros H. unfold xor_bytes. rewrite length_zip_with. lia. Qed.

Lemma xor_bytes_app a1 a2 b1 b2 :
  length a1 = length b1 ->
  xor_bytes (a1 ++ a2) (b1 ++ b2) = xor_bytes a1 b1 ++ xor_bytes a2 b2.
Proof. intros H. unfold xor_bytes. by apply zip_with_app. Qed.

Lemma slice_length {A} (l : list A) a b s :
  slice l a b = Some s -> Z.of_nat (length s) = b - a.
Proof. intros E. apply slice_inv in E as (_&_&_&_&E). exact E. Qed.

Lemma slice_same_length {A B} (l : list A) (k : list B) a b s t :
  slice l a b = Some s -> slice k a b = Some t -> length s = length t.
Proof. intros E1%slice_length E2%slice_length. lia. Qed.

Lemma xor_bytes_lookup a b i x y :
  a !! i = Some x -> b !! i = Some y -> xor_bytes a b !! i = Some (Z.lxor x y).
Proof. intros Ea Eb. unfold xor_bytes. rewrite lookup_zip_with, Ea. cbn. by rewrite Eb. Qed.

Lemma fits_lxor w a b : 0 < w -> fits w a -> fits w b -> fits w (Z.lxor a b).
Proof.
  unfold fits. intros Hw [Ha1 Ha2] [Hb1 Hb2].
  assert (0 <= Z.lxor a b) by (apply Z.lxor_nonneg; lia).
  split; [done|]. destruct (decide (Z.lxor a b = 0)) as [->|Hne]; [lia|].
  apply Z.log2_lt_pow2; [lia|]. pose proof (Z.log2_lxor a b Ha1 Hb1).
  assert (L : forall c, 0 <= c < 2 ^ w -> Z.log2 c < w).
  { intros c Hc. destruct (decide (c = 0)) as [->|]; [done|]. apply Z.log2_lt_pow2; lia. }
  pose proof (L a ltac:(lia)). pose proof (L b ltac:(lia)). lia.
Qed.

Lemma xor_bytes_ok a b : bytes_ok a -> bytes_ok b -> bytes_ok (xor_bytes a b).
Proof.
  unfold bytes_ok, xor_bytes. intros Ha. revert b.
  induction Ha as [|x a Hx _ IH]; intros b Hb; [constructor|].
  inversion Hb; subst; cbn; constructor; [by apply fits_lxor|by apply IH].
Qed.

Lemma lxor_cancel a b : Z.lxor b (Z.lxor a b) = a.
Proof. by rewrite (Z.lxor_comm a b), <- Z.lxor_assoc, Z.lxor_nilpotent, Z.lxor_0_l. Qed.

(** ** Little-endian integers *)

Fixpoint le_enc (n : nat) (z : Z) : list Z :=
  match n with
  | O => []
  | S n => z mod 256 :: le_enc n (z / 256)
  end.

Fixpoint le_dec (bs : list Z) : Z :=
  match bs with
  | [] => 0
  | b :: bs => b + 256 * le_dec bs
  end.

Lemma le_enc_length n z : length (le_enc n z) = n.
Proof. revert z. induction n as [|n IH]; intros z; simpl; [done|]. by rewrite IH. Qed.

Lemma le_enc_bytes n z : bytes_ok (le_enc n z).
Proof.
  revert z. induction n as [|n IH]; intros z; simpl; constructor; [|by apply IH].
  unfold fits. change (2 ^ 8) with 256. by apply Z.mod_pos_bound.
Qed.

Lemma pow8_succ n : 2 ^ (8 * Z.of_nat (S n)) = 256 * 2 ^ (8 * Z.of_nat n).
Proof.
  rewrite Nat2Z.inj_succ. replace (8 * Z.succ _) with (8 + 8 * Z.of_nat n) by lia.
  by rewrite Z.pow_add_r by lia.
Qed.

Lemma le_dec_enc n z : le_dec (le_enc n z) = z mod 2 ^ (8 * Z.of_nat n).
Proof.
  revert z. induction n as [|n IH]; intros z; [by rewrite Z.mod_1_r|].
  cbn [le_enc le_dec]. rewrite IH, pow8_succ.
  assert (0 < 2 ^ (8 * Z.of_nat n)) by (apply Z.pow_pos_nonneg; lia).
  rewrite Z.rem_mul_r by lia. lia.
Qed.

Lemma le_dec_enc_fits n z : fits (8 * Z.of_nat n) z -> le_dec (le_enc n z) = z.
Proof. intros H. rewrite le_dec_enc. by apply Z.mod_small. Qed.

Lemma le_dec_fits bs : bytes_ok bs -> fits (8 * Z.of_nat (length bs)) (le_dec bs).
Proof.
  unfold bytes_ok. induction 1 as [|b bs Hb _ IH]; [done|].
  cbn [le_dec length]. unfold fits in *. rewrite pow8_succ.
  change (2 ^ 8) with 256 in Hb. lia.
Qed.

Lemma le_enc_dec bs : bytes_ok bs -> le_enc (length bs) (le_dec bs) = bs.
Proof.
  unfold bytes_ok. induction 1 as [|b bs Hb _ IH]; [done|].
  cbn [length le_enc le_dec]. unfold fits in Hb. change (2 ^ 8) with 256 in Hb.
  rewrite (Z.mul_comm 256), Z_mod_plus_full, Z.mod_small by lia.
  rewrite Z.div_add, Z.div_small, Z.add_0_l by lia. by rewrite IH.
Qed.

(** ** Fallible code *)

(** A call either returns, fails with an error value ([Err] of the source) or
    panics (index out of range, slice length mismatch, division by zero). *)
Inductive run (E A : Type) : Type :=
  | Ret (a : A)
  | Fail (e : E)
  | Panic.
Arguments Ret {E A} a.
Arguments Fail {E A} e.
Arguments Panic {E A}.

#[export] Instance run_ret E : MRet (run E) := fun A a => Ret a.
#[export] Instance run_bind E : MBind (run E) := fun A B f m =>
  match m with Ret a => f a | Fail e => Fail e | Panic => Panic end.

(** A computation that can only panic, inside one that can also fail. *)
Definition or_panic {E A} (o : option A) : run E A :=
  match o with Some a => Ret a | None => Panic end.

(** [ensure!(cond, e)]. *)
Definition ensure {E} (b : bool) (e : E) : run E unit := if b then Ret tt else Fail e.

Definition is_panic {E A} (m : run E A) : bool :=
  match m with Panic => true | _ => false end.

(** A [for] loop whose body can fail or panic. *)
Fixpoint foldR {E S A} (f : S -> A -> run E S) (s : S) (l : list A) : run E S :=
  match l with
  | [] => Ret s
  | a :: l => s' ← f s a; foldR f s' l
  end.

Lemma foldR_app {E S A} (f : S -> A -> run E S) s l k :
  foldR f s (l ++ k) = (s' ← foldR f s l; foldR f s' k).
Proof.
  revert s. induction l as [|a l IH]; intros s; [done|].
  simpl. destruct (f s a) as [s'|e|]; simpl; [apply IH|done|done].
Qed.

(** ** Folding a step that can panic over a list (a [for] loop) *)

Fixpoint foldM {S A} (f : S -> A -> option S) (s : S) (l : list A) : option S :=
  match l with
  | [] => Some s
  | a :: l => s' ← f s a; foldM f s' l
  end.

Lemma foldM_app {S A} (f : S -> A -> option S) s l k :
  foldM f s (l ++ k) = (s' ← foldM f s l; foldM f s' k).
Proof.
  revert s. induction l as [|a l IH]; intros s; [done|].
  simpl. destruct (f s a) as [s'|]; simpl; [apply IH|done].
Qed.

Lemma foldM_ext {S A} (f g : S -> A -> option S) s l :
  (forall s a, a ∈ l -> f s a = g s a) -> foldM f s l = foldM g s l.
Proof.
  revert s. induction l as [|a l IH]; intros s Hfg; [done|].
  cbn. rewrite Hfg by constructor. destruct (g s a); cbn; [|done].
  apply IH. intros. apply Hfg. by constructor.
Qed.

Lemma foldM_fmap {S A B} (h : A -> B) (f : S -> B -> option S) s l :
  foldM f s (h <$> l) = foldM (fun s a => f s (h a)) s l.
Proof.
  revert s. induction l as [|a l IH]; intros s; [done|].
  cbn. destruct (f s (h a)); cbn; [apply IH|done].
Qed.

(** The loop rule: an invariant indexed by the processed prefix. *)
Lemma foldM_ind {S A} (P : list A -> S -> Prop) (f : S -> A -> option S) s l :
  P [] s ->
  (forall done a rest s, l = done ++ a :: rest -> P done s ->
     exists s', f s a = Some s' /\ P (done ++ [a]) s') ->
  exists s', foldM f s l = Some s' /\ P l s'.
Proof.
  intros H0 Hstep.
  enough (G : forall done rest s, l = done ++ rest -> P done s ->
              exists s', foldM f s rest = Some s' /\ P l s').
  { by apply (G [] l s). }
  clear s H0. intros done rest. revert done.
  induction rest as [|a rest IH]; intros done s E HP.
  - exists s. rewrite E, app_nil_r. by split.
  - destruct (Hstep done a rest s E HP) as (s' & Hf & HP').
    simpl. rewrite Hf. simpl. apply (IH (done ++ [a])); [|done].
    by rewrite <- app_assoc.
Qed.

Lemma foldM_bind {S A B} (f : S -> B -> option S) (g : A -> list B) s l :
  foldM f s (l ≫= g) = foldM (fun s a => foldM f s (g a)) s l.
Proof.
  revert s. induction l as [|a l IH]; intros s; [done|]. cbn. rewrite foldM_app.
  destruct (foldM f s (g a)); cbn; [apply IH|done].
Qed.

(** [for i in 0..n]. *)
Definition zrange (n : Z) : list Z := Z.of_nat <$> seq 0 (Z.to_nat n).

Lemma zrange_length n : length (zrange n) = Z.to_nat n.
Proof. unfold zrange. by rewrite length_fmap, length_seq. Qed.

Lemma zrange_lookup n i : (i < Z.to_nat n)%nat -> zrange n !! i = Some (Z.of_nat i).
Proof.
  intros H. unfold zrange. rewrite list_lookup_fmap, lookup_seq_lt by done. done.
Qed.

Lemma elem_of_zrange n i : i ∈ zrange n <-> 0 <= i < n.
Proof.
  unfold zrange. rewrite list_elem_of_fmap. setoid_rewrite elem_of_seq. split.
  - intros (k & -> & Hk). lia.
  - intros H. exists (Z.to_nat i). lia.
Qed.

Lemma zrange_succ n : 0 <= n -> zrange (n + 1) = zrange n ++ [n].
Proof.
  intros Hn. unfold zrange. replace (Z.to_nat (n + 1)) with (S (Z.to_nat n)) by lia.
  rewrite seq_S, fmap_app. cbn. by rewrite Z2Nat.id by lia.
Qed.

(** ** Automation *)

Create HintDb rw discriminated.
Create Rewrite HintDb rw.
#[export] Hint Resolve zlen_nonneg wrap_fits le_enc_bytes : rw.
#[export] Hint Rewrite @zlen_app @zlen_cons @zlen_nil le_enc_length : rw.

Ltac zlen_lia := autorewrite with rw in *; unfold zlen in *;
  repeat rewrite ?length_take, ?length_drop, ?length_app in *; lia.
