(* ===== verification/Wire.v ===== *)
(** Packed little-endian structs.

    Every wire message of [crates/remoteway-proto] is a [#[repr(C, packed)]]
    struct that derives [IntoBytes]/[FromBytes]/[Unaligned]: its bytes are its
    fields in declaration order, each little-endian, with no padding but the
    one the struct names.  [Packed] states that layout for one struct and
    [PackedLaws] the facts an instance owes; the generic codec and its
    round-trip theorems are proved here once, against the class. *)

From S2P Require Import Prelude.

(** The field codec: a layout is the list of field sizes in bytes. *)
Fixpoint enc_fields (ws : list nat) (vs : list Z) : list Z :=
  match ws, vs with
  | w :: ws, v :: vs => le_enc w v ++ enc_fields ws vs
  | _, _ => []
  end.

Fixpoint dec_fields (ws : list nat) (bs : list Z) : list Z :=
  match ws with
  | [] => []
  | w :: ws => le_dec (take w bs) :: dec_fields ws (drop w bs)
  end.

Definition layout_size (ws : list nat) : nat := sum_list ws.

Definition field_fits (w : nat) (v : Z) : Prop := fits (8 * Z.of_nat w) v.

Lemma enc_fields_length ws vs :
  length vs = length ws -> length (enc_fields ws vs) = layout_size ws.
Proof.
  revert vs. induction ws as [|w ws IH]; intros [|v vs] H; try done.
  cbn. rewrite length_app, le_enc_length, IH by (simpl in H; lia). done.
Qed.

Lemma enc_fields_bytes ws vs : bytes_ok (enc_fields ws vs).
Proof.
  revert vs. induction ws as [|w ws IH]; intros [|v vs]; try constructor.
  cbn. apply Forall_app. split; [apply le_enc_bytes|apply IH].
Qed.

Lemma dec_enc_fields ws vs rest :
  Forall2 field_fits ws vs -> dec_fields ws (enc_fields ws vs ++ rest) = vs.
Proof.
  induction 1 as [|w v ws vs Hv _ IH]; [done|].
  cbn. rewrite <- app_assoc. f_equal.
  - rewrite take_app_length' by (by rewrite le_enc_length). by apply le_dec_enc_fits.
  - rewrite drop_app_length' by (by rewrite le_enc_length). apply IH.
Qed.

Lemma dec_fields_fits ws bs :
  bytes_ok bs -> length bs = layout_size ws -> Forall2 field_fits ws (dec_fields ws bs).
Proof.
  revert bs. induction ws as [|w ws IH]; intros bs Hb Hl; [constructor|].
  cbn in *. constructor.
  - assert (E : length (take w bs) = w) by (rewrite length_take; lia).
    unfold field_fits. rewrite <- E at 1. apply le_dec_fits. by apply Forall_take.
  - apply IH; [by apply Forall_drop|]. rewrite length_drop. unfold layout_size. lia.
Qed.

Lemma enc_dec_fields ws bs :
  bytes_ok bs -> length bs = layout_size ws -> enc_fields ws (dec_fields ws bs) = bs.
Proof.
  revert bs. induction ws as [|w ws IH]; intros bs Hb Hl; cbn in *.
  - symmetry. apply nil_length_inv. done.
  - assert (E : length (take w bs) = w) by (rewrite length_take; lia).
    rewrite <- E at 1. rewrite le_enc_dec by (by apply Forall_take).
    rewrite IH; [apply take_drop|by apply Forall_drop|].
    rewrite length_drop. unfold layout_size. lia.
Qed.

(** ** The struct interface *)

Class Packed (A : Type) := {
  layout : list nat;
  to_fields : A -> list Z;
  of_fields : list Z -> A;
  (** every field is a value of its declared type *)
  wf : A -> Prop
}.
Arguments layout A {_}.

Class PackedLaws (A : Type) `{Packed A} := {
  to_fields_length a : length (to_fields a) = length (layout A);
  to_fields_fits (a : A) : wf a -> Forall2 field_fits (layout A) (to_fields a);
  of_to_fields (a : A) : wf a -> of_fields (to_fields a) = a;
  of_fields_wf (vs : list Z) : Forall2 field_fits (layout A) vs -> wf (of_fields vs : A);
  to_of_fields (vs : list Z) :
    Forall2 field_fits (layout A) vs -> to_fields (of_fields vs : A) = vs
}.

Definition size_of (A : Type) `{Packed A} : Z := Z.of_nat (layout_size (layout A)).

(** [IntoBytes::as_bytes]: the memory of the struct. *)
Definition as_bytes {A} `{Packed A} (a : A) : list Z := enc_fields (layout A) (to_fields a).

(** [FromBytes::ref_from_bytes]: a view of a slice of exactly the struct's
    size; the structs are [Unaligned], so the size is the only condition. *)
Definition ref_from_bytes {A} `{Packed A} (bs : list Z) : option A :=
  if decide (zlen bs = size_of A) then Some (of_fields (dec_fields (layout A) bs)) else None.

Arguments as_bytes : simpl never.
Arguments ref_from_bytes : simpl never.

Section Packed.
Context {A : Type} `{PackedLaws A}.

Lemma as_bytes_length (a : A) : length (as_bytes a) = layout_size (layout A).
Proof. unfold as_bytes. apply enc_fields_length, to_fields_length. Qed.

Lemma as_bytes_zlen (a : A) : zlen (as_bytes a) = size_of A.
Proof. unfold zlen, size_of. by rewrite as_bytes_length. Qed.

Lemma as_bytes_ok (a : A) : bytes_ok (as_bytes a).
Proof. apply enc_fields_bytes. Qed.

(** Value to bytes to value. *)
Lemma ref_from_as_bytes (a : A) : wf a -> ref_from_bytes (as_bytes a) = Some a.
Proof.
  intros Hwf. unfold ref_from_bytes.
  rewrite decide_True by apply as_bytes_zlen.
  unfold as_bytes. rewrite <- (app_nil_r (enc_fields _ _)).
  rewrite dec_enc_fields by (by apply to_fields_fits). by rewrite of_to_fields.
Qed.

(** Bytes to value to bytes: every byte string of the right size is the
    encoding of exactly one well-formed value. *)
Lemma ref_from_bytes_total bs :
  bytes_ok bs -> zlen bs = size_of A ->
  exists a : A, ref_from_bytes bs = Some a /\ wf a /\ as_bytes a = bs.
Proof.
  intros Hb Hl. exists (of_fields (dec_fields (layout A) bs)).
  assert (Hl' : length bs = layout_size (layout A)) by (unfold zlen, size_of in Hl; lia).
  pose proof (dec_fields_fits _ _ Hb Hl') as Hf. split_and!.
  - unfold ref_from_bytes. by rewrite decide_True.
  - by apply of_fields_wf.
  - unfold as_bytes. rewrite to_of_fields by done. by apply enc_dec_fields.
Qed.

Lemma ref_from_bytes_size bs (a : A) : ref_from_bytes bs = Some a -> zlen bs = size_of A.
Proof. unfold ref_from_bytes. by case_decide. Qed.

Lemma as_bytes_inj (a b : A) : wf a -> wf b -> as_bytes a = as_bytes b -> a = b.
Proof.
  intros Ha Hb E. apply ref_from_as_bytes in Ha, Hb. rewrite E in Ha. congruence.
Qed.
End Packed.

#[export] Hint Resolve as_bytes_ok : rw.

(** [struct_laws] discharges the laws of a struct whose fields are all
    unsigned integers: the field list of a value is literally its fields. *)
Ltac inv_fields :=
  repeat match goal with
  | H : Forall2 _ (_ :: _) _ |- _ => inversion H; clear H; subst
  | H : Forall2 _ [] _ |- _ => inversion H; clear H; subst
  end.

Ltac struct_laws :=
  constructor;
  [ intros []; reflexivity
  | intros [] Hwf; cbn in *; unfold field_fits; cbn;
    repeat match goal with H : _ /\ _ |- _ => destruct H end;
    repeat (constructor 2; [assumption|]); constructor 1
  | intros [] Hwf; reflexivity
  | intros vs Hvs; cbn in *; inv_fields; cbn; unfold field_fits in *; cbn in *;
    repeat match goal with |- _ /\ _ => split end; assumption
  | intros vs Hvs; cbn in *; inv_fields; reflexivity ].
