(* ===== verification/Proto.v ===== *)
(** The wire protocol ([crates/remoteway-proto/src]).

    One [Module] per source file: the enums with their discriminants and
    [TryFrom<u8>], the [repr(C, packed)] structs with their constructors, and a
    [Packed] instance per struct.  Integers are [Z]; an [f32] field is its 32
    bits; an [i16] field is a signed [Z]. *)

From S2P Require Import Prelude Wire.

(** ** [header.rs] *)
Module Header.

(** [ProtoError::UnknownMsgType(u8)] of [error.rs]. *)
Inductive ProtoError := UnknownMsgType (v : Z).

Inductive MsgType :=
  | FrameUpdate | AnchorFrame | InputEvent_ | CursorMove_ | Handshake | Ack
  | Resize | Clipboard | TargetResolution.

#[export] Instance MsgType_eq_dec : EqDecision MsgType.
Proof. solve_decision. Defined.

(** [msg_type as u8]. *)
Definition MsgType_u8 (m : MsgType) : Z :=
  match m with
  | FrameUpdate => 0 | AnchorFrame => 1 | InputEvent_ => 2 | CursorMove_ => 3
  | Handshake => 4 | Ack => 5 | Resize => 6 | Clipboard => 7 | TargetResolution => 8
  end.

Definition MsgType_try_from (v : Z) : MsgType + ProtoError :=
  match v with
  | 0 => inl FrameUpdate | 1 => inl AnchorFrame | 2 => inl InputEvent_
  | 3 => inl CursorMove_ | 4 => inl Handshake | 5 => inl Ack | 6 => inl Resize
  | 7 => inl Clipboard | 8 => inl TargetResolution
  | other => inr (UnknownMsgType other)
  end.

Definition COMPRESSED : Z := Z.shiftl 1 0.
Definition LAST_CHUNK : Z := Z.shiftl 1 1.
Definition KEY_FRAME : Z := Z.shiftl 1 2.

Record FrameHeader := mkFrameHeader {
  stream_id : Z;
  msg_type : Z;
  flags : Z;
  payload_len : Z;
  timestamp_ns : Z
}.

#[export] Instance FrameHeader_packed : Packed FrameHeader := {
  layout := [2; 1; 1; 4; 8]%nat;
  to_fields h := [stream_id h; msg_type h; flags h; payload_len h; timestamp_ns h];
  of_fields vs := match vs with
    | [s; m; f; p; t] => mkFrameHeader s m f p t
    | _ => mkFrameHeader 0 0 0 0 0 end;
  wf h := fits 16 (stream_id h) /\ fits 8 (msg_type h) /\ fits 8 (flags h) /\
          fits 32 (payload_len h) /\ fits 64 (timestamp_ns h)
}.
#[export] Instance FrameHeader_laws : PackedLaws FrameHeader.
Proof. struct_laws. Qed.

(** [FrameHeader::SIZE]. *)
Definition FrameHeader_SIZE : Z := 16.

Definition FrameHeader_new (sid : Z) (m : MsgType) (fl plen ts : Z) : FrameHeader :=
  mkFrameHeader sid (MsgType_u8 m) fl plen ts.

(** [FrameHeader::msg_type(&self)]. *)
Definition FrameHeader_msg_type (h : FrameHeader) : MsgType + ProtoError :=
  MsgType_try_from (msg_type h).

Lemma MsgType_try_from_u8 m : MsgType_try_from (MsgType_u8 m) = inl m.
Proof. by destruct m. Qed.

Lemma MsgType_u8_fits m : fits 8 (MsgType_u8 m).
Proof. by destruct m. Qed.

(** The decoder accepts exactly the discriminants 0 to 8. *)
Lemma MsgType_try_from_spec v :
  fits 8 v ->
  match MsgType_try_from v with
  | inl m => MsgType_u8 m = v /\ v <= 8
  | inr e => e = UnknownMsgType v /\ 8 < v
  end.
Proof.
  intros Hv. unfold fits in Hv. change (2 ^ 8) with 256 in Hv.
  destruct v as [|p|p]; [done| |lia].
  do 4 (destruct p as [p|p|]; try (cbn; split; [done|lia])).
Qed.

Lemma FrameHeader_new_wf sid m fl plen ts :
  fits 16 sid -> fits 8 fl -> fits 32 plen -> fits 64 ts ->
  wf (FrameHeader_new sid m fl plen ts).
Proof. intros. cbn. pose proof (MsgType_u8_fits m). tauto. Qed.

Lemma FrameHeader_new_msg_type sid m fl plen ts :
  FrameHeader_msg_type (FrameHeader_new sid m fl plen ts) = inl m.
Proof. apply MsgType_try_from_u8. Qed.
End Header.

(** ** [frame.rs] *)
Module Frame.
Record FrameMeta := mkFrameMeta {
  width : Z; height : Z; stride : Z; num_regions : Z }.

#[export] Instance FrameMeta_packed : Packed FrameMeta := {
  layout := [4; 4; 4; 4]%nat;
  to_fields m := [width m; height m; stride m; num_regions m];
  of_fields vs := match vs with
    | [w; h; s; n] => mkFrameMeta w h s n | _ => mkFrameMeta 0 0 0 0 end;
  wf m := fits 32 (width m) /\ fits 32 (height m) /\ fits 32 (stride m) /\
          fits 32 (num_regions m)
}.
#[export] Instance FrameMeta_laws : PackedLaws FrameMeta.
Proof. struct_laws. Qed.

Definition FrameMeta_SIZE : Z := size_of FrameMeta.
Definition FrameMeta_new (w h s n : Z) : FrameMeta := mkFrameMeta w h s n.

Record WireRegion := mkWireRegion {
  wr_x : Z; wr_y : Z; wr_w : Z; wr_h : Z; compressed_size : Z }.

#[export] Instance WireRegion_packed : Packed WireRegion := {
  layout := [4; 4; 4; 4; 4]%nat;
  to_fields r := [wr_x r; wr_y r; wr_w r; wr_h r; compressed_size r];
  of_fields vs := match vs with
    | [x; y; w; h; c] => mkWireRegion x y w h c | _ => mkWireRegion 0 0 0 0 0 end;
  wf r := fits 32 (wr_x r) /\ fits 32 (wr_y r) /\ fits 32 (wr_w r) /\
          fits 32 (wr_h r) /\ fits 32 (compressed_size r)
}.
#[export] Instance WireRegion_laws : PackedLaws WireRegion.
Proof. struct_laws. Qed.

Definition WireRegion_SIZE : Z := size_of WireRegion.
Definition WireRegion_new (x y w h c : Z) : WireRegion := mkWireRegion x y w h c.
End Frame.

(** ** [resize.rs] and [target_resolution.rs] *)
Module Geometry.
Record ResizePayload := mkResizePayload {
  rs_surface_id : Z; rs_pad : Z; rs_width : Z; rs_height : Z }.

#[export] Instance ResizePayload_packed : Packed ResizePayload := {
  layout := [2; 2; 4; 4]%nat;
  to_fields r := [rs_surface_id r; rs_pad r; rs_width r; rs_height r];
  of_fields vs := match vs with
    | [s; p; w; h] => mkResizePayload s p w h | _ => mkResizePayload 0 0 0 0 end;
  wf r := fits 16 (rs_surface_id r) /\ fits 16 (rs_pad r) /\
          fits 32 (rs_width r) /\ fits 32 (rs_height r)
}.
#[export] Instance ResizePayload_laws : PackedLaws ResizePayload.
Proof. struct_laws. Qed.

Definition ResizePayload_SIZE : Z := size_of ResizePayload.
Definition ResizePayload_new (sid w h : Z) : ResizePayload := mkResizePayload sid 0 w h.

Record TargetResolutionPayload := mkTargetResolutionPayload {
  tr_width : Z; tr_height : Z }.

#[export] Instance TargetResolutionPayload_packed : Packed TargetResolutionPayload := {
  layout := [4; 4]%nat;
  to_fields r := [tr_width r; tr_height r];
  of_fields vs := match vs with
    | [w; h] => mkTargetResolutionPayload w h | _ => mkTargetResolutionPayload 0 0 end;
  wf r := fits 32 (tr_width r) /\ fits 32 (tr_height r)
}.
#[export] Instance TargetResolutionPayload_laws : PackedLaws TargetResolutionPayload.
Proof. struct_laws. Qed.

Definition TargetResolutionPayload_SIZE : Z := 8.
Definition TargetResolutionPayload_new (w h : Z) : TargetResolutionPayload :=
  mkTargetResolutionPayload w h.
End Geometry.

(** ** [input.rs] *)
Module Input.
Record PointerMotion := mkPointerMotion {
  pm_surface_id : Z; pm_pad : Z; pm_x : Z; pm_y : Z }.
#[export] Instance PointerMotion_packed : Packed PointerMotion := {
  layout := [2; 2; 4; 4]%nat;
  to_fields r := [pm_surface_id r; pm_pad r; pm_x r; pm_y r];
  of_fields vs := match vs with
    | [s; p; x; y] => mkPointerMotion s p x y | _ => mkPointerMotion 0 0 0 0 end;
  wf r := fits 16 (pm_surface_id r) /\ fits 16 (pm_pad r) /\
          fits 32 (pm_x r) /\ fits 32 (pm_y r)
}.
#[export] Instance PointerMotion_laws : PackedLaws PointerMotion.
Proof. struct_laws. Qed.

Record PointerButton := mkPointerButton { pb_button : Z; pb_state : Z }.
#[export] Instance PointerButton_packed : Packed PointerButton := {
  layout := [4; 4]%nat;
  to_fields r := [pb_button r; pb_state r];
  of_fields vs := match vs with [b; s] => mkPointerButton b s | _ => mkPointerButton 0 0 end;
  wf r := fits 32 (pb_button r) /\ fits 32 (pb_state r)
}.
#[export] Instance PointerButton_laws : PackedLaws PointerButton.
Proof. struct_laws. Qed.

(** [_pad] is a [[u8; 3]]. *)
Record PointerAxis := mkPointerAxis {
  pa_axis : Z; pa_pad0 : Z; pa_pad1 : Z; pa_pad2 : Z; pa_value : Z }.
#[export] Instance PointerAxis_packed : Packed PointerAxis := {
  layout := [1; 1; 1; 1; 4]%nat;
  to_fields r := [pa_axis r; pa_pad0 r; pa_pad1 r; pa_pad2 r; pa_value r];
  of_fields vs := match vs with
    | [a; p; q; r; v] => mkPointerAxis a p q r v | _ => mkPointerAxis 0 0 0 0 0 end;
  wf r := fits 8 (pa_axis r) /\ fits 8 (pa_pad0 r) /\ fits 8 (pa_pad1 r) /\
          fits 8 (pa_pad2 r) /\ fits 32 (pa_value r)
}.
#[export] Instance PointerAxis_laws : PackedLaws PointerAxis.
Proof. struct_laws. Qed.

Record KeyEvent := mkKeyEvent { ke_key : Z; ke_state : Z }.
#[export] Instance KeyEvent_packed : Packed KeyEvent := {
  layout := [4; 4]%nat;
  to_fields r := [ke_key r; ke_state r];
  of_fields vs := match vs with [b; s] => mkKeyEvent b s | _ => mkKeyEvent 0 0 end;
  wf r := fits 32 (ke_key r) /\ fits 32 (ke_state r)
}.
#[export] Instance KeyEvent_laws : PackedLaws KeyEvent.
Proof. struct_laws. Qed.

Inductive InputKind := KPointerMotion | KPointerButton | KPointerAxis | KKey.
#[export] Instance InputKind_eq_dec : EqDecision InputKind.
Proof. solve_decision. Defined.

Definition InputKind_u8 (k : InputKind) : Z :=
  match k with KPointerMotion => 0 | KPointerButton => 1 | KPointerAxis => 2 | KKey => 3 end.

Definition InputKind_try_from (v : Z) : InputKind + Z :=
  match v with
  | 0 => inl KPointerMotion | 1 => inl KPointerButton | 2 => inl KPointerAxis
  | 3 => inl KKey | other => inr other
  end.

(** [kind: u8], [_pad: [u8; 3]], [payload: [u8; 12]]. *)
Record InputEvent := mkInputEvent {
  ie_kind : Z; ie_pad : list Z; ie_payload : list Z }.

#[export] Instance InputEvent_packed : Packed InputEvent := {
  layout := replicate 16 1%nat;
  to_fields e := ie_kind e :: resize_vec 3 0 (ie_pad e) ++ resize_vec 12 0 (ie_payload e);
  of_fields vs := mkInputEvent (default 0 (head vs)) (take 3 (drop 1 vs)) (drop 4 vs);
  wf e := fits 8 (ie_kind e) /\ bytes_ok (ie_pad e) /\ bytes_ok (ie_payload e) /\
          zlen (ie_pad e) = 3 /\ zlen (ie_payload e) = 12
}.

Lemma field_fits_bytes bs :
  Forall2 field_fits (replicate (length bs) 1%nat) bs <-> bytes_ok bs.
Proof.
  unfold bytes_ok. induction bs as [|b bs IH]; cbn; [by split; constructor|].
  split; intros H; inversion H; subst; constructor; try done; by apply IH.
Qed.

#[export] Instance InputEvent_laws : PackedLaws InputEvent.
Proof.
  assert (R : forall n (l : list Z), zlen l = n -> resize_vec n 0 l = l).
  { intros n l <-. apply resize_same. }
  constructor.
  - intros [k p d]. cbn [to_fields InputEvent_packed ie_kind ie_pad ie_payload length].
    rewrite length_app, !length_resize. done.
  - intros [k p d] (Hk & Hp & Hd & Lp & Ld). cbn [to_fields InputEvent_packed ie_kind ie_pad ie_payload] in *.
    rewrite !R by done.
    assert (E : length (k :: p ++ d) = 16%nat) by (unfold zlen in *; cbn; rewrite length_app; lia).
    unfold layout. cbn [InputEvent_packed]. rewrite <- E.
    apply field_fits_bytes. constructor; [done|]. apply Forall_app; by split.
  - intros [k p d] (Hk & Hp & Hd & Lp & Ld). cbn [to_fields of_fields InputEvent_packed ie_kind ie_pad ie_payload] in *.
    rewrite !R by done. unfold zlen in *.
    destruct p as [|a [|b [|c [|]]]]; try (cbn in Lp; lia). done.
  - intros vs Hvs. pose proof (Forall2_length Hvs) as E. cbn in E.
    assert (B : bytes_ok vs).
    { apply field_fits_bytes. rewrite <- E. exact Hvs. }
    cbn [wf of_fields InputEvent_packed ie_kind ie_pad ie_payload]. unfold bytes_ok in *.
    unfold zlen. rewrite length_take, !length_drop, <- E. split_and!; try done.
    + destruct vs; [done|]. by inversion B.
    + by apply Forall_take, Forall_drop.
    + by apply Forall_drop.
  - intros vs Hvs. pose proof (Forall2_length Hvs) as E. cbn in E.
    repeat (destruct vs as [|? vs]; try (cbn in E; lia)). done.
Qed.

(** [InputEvent::from_bytes_padded]: [payload[..src.len()]] panics when
    [src] is longer than the payload. *)
Definition from_bytes_padded (k : InputKind) (src : list Z) : option InputEvent :=
  if decide (zlen src <= 12)
  then Some (mkInputEvent (InputKind_u8 k) [0; 0; 0] (src ++ replicate (12 - length src) 0))
  else None.

Definition InputEvent_pointer_motion (m : PointerMotion) : option InputEvent :=
  from_bytes_padded KPointerMotion (as_bytes m).
Definition InputEvent_pointer_button (b : PointerButton) : option InputEvent :=
  from_bytes_padded KPointerButton (as_bytes b).
Definition InputEvent_pointer_axis (a : PointerAxis) : option InputEvent :=
  from_bytes_padded KPointerAxis (as_bytes a).
Definition InputEvent_key (k : KeyEvent) : option InputEvent :=
  from_bytes_padded KKey (as_bytes k).

(** [InputEvent::kind(&self)]. *)
Definition InputEvent_kind (e : InputEvent) : InputKind + Z := InputKind_try_from (ie_kind e).

Lemma InputKind_try_from_u8 k : InputKind_try_from (InputKind_u8 k) = inl k.
Proof. by destruct k. Qed.

Lemma InputKind_try_from_other v : 3 < v -> InputKind_try_from v = inr v.
Proof.
  intros H. destruct v as [|p|p]; [lia| |done].
  do 2 (destruct p as [p|p|]; try (cbn; done || lia)).
Qed.

(** A packed sub-event of at most 12 bytes is carried unharmed: the kind is
    the constructor's and the payload's prefix decodes to the sub-event. *)
Lemma from_bytes_padded_carries {A} `{PackedLaws A} k (a : A) :
  wf a -> size_of A <= 12 ->
  exists e, from_bytes_padded k (as_bytes a) = Some e /\ wf e /\
    InputEvent_kind e = inl k /\
    (slice (ie_payload e) 0 (size_of A) ≫= ref_from_bytes) = Some a.
Proof.
  intros Hwf Hsz. pose proof (as_bytes_zlen a) as L.
  unfold from_bytes_padded. rewrite decide_True by lia.
  eexists; split_and!; [done| | |]; cbn [wf InputEvent_packed ie_kind ie_pad ie_payload].
  - split_and!; [by destruct k|by repeat constructor| |done|].
    + apply Forall_app; split; [apply as_bytes_ok|].
      apply Forall_replicate. done.
    + unfold zlen in *. rewrite length_app, length_replicate. lia.
  - unfold InputEvent_kind. cbn. apply InputKind_try_from_u8.
  - pose proof (slice_app_mid [] (as_bytes a) (replicate (12 - length (as_bytes a)) 0)) as S.
    rewrite L in S. cbn [app] in S. change (zlen []) with 0 in S.
    rewrite Z.add_0_l in S. rewrite S. cbn. by apply ref_from_as_bytes.
Qed.
End Input.

(** ** [cursor.rs] *)
Module Cursor.
Record CursorMove := mkCursorMove { cm_surface_id : Z; cm_pad : Z; cm_x : Z; cm_y : Z }.
#[export] Instance CursorMove_packed : Packed CursorMove := {
  layout := [2; 2; 4; 4]%nat;
  to_fields r := [cm_surface_id r; cm_pad r; cm_x r; cm_y r];
  of_fields vs := match vs with
    | [s; p; x; y] => mkCursorMove s p x y | _ => mkCursorMove 0 0 0 0 end;
  wf r := fits 16 (cm_surface_id r) /\ fits 16 (cm_pad r) /\
          fits 32 (cm_x r) /\ fits 32 (cm_y r)
}.
#[export] Instance CursorMove_laws : PackedLaws CursorMove.
Proof. struct_laws. Qed.

(** The hotspot fields are [i16]. *)
Record CursorUpdate := mkCursorUpdate {
  cu_surface_id : Z; hotspot_x : Z; hotspot_y : Z; has_bitmap : Z; cu_pad : Z;
  bitmap_width : Z; bitmap_height : Z; cu_x : Z; cu_y : Z }.

#[export] Instance CursorUpdate_packed : Packed CursorUpdate := {
  layout := [2; 2; 2; 1; 1; 2; 2; 4; 4]%nat;
  to_fields r := [cu_surface_id r; wrap 16 (hotspot_x r); wrap 16 (hotspot_y r);
                  has_bitmap r; cu_pad r; bitmap_width r; bitmap_height r; cu_x r; cu_y r];
  of_fields vs := match vs with
    | [s; hx; hy; b; p; w; h; x; y] =>
        mkCursorUpdate s (to_signed 16 hx) (to_signed 16 hy) b p w h x y
    | _ => mkCursorUpdate 0 0 0 0 0 0 0 0 0 end;
  wf r := (fits 16 (cu_surface_id r) /\ fits 8 (has_bitmap r) /\ fits 8 (cu_pad r) /\
          fits 16 (bitmap_width r) /\ fits 16 (bitmap_height r) /\
          fits 32 (cu_x r) /\ fits 32 (cu_y r)) /\
          - 2 ^ 15 <= hotspot_x r < 2 ^ 15 /\ - 2 ^ 15 <= hotspot_y r < 2 ^ 15
}.

#[export] Instance CursorUpdate_laws : PackedLaws CursorUpdate.
Proof.
  constructor.
  - intros []; reflexivity.
  - intros [] [(?&?&?&?&?&?&?) [??]]; cbn in *.
    repeat (constructor 2; [by (assumption || (apply wrap_fits; lia))|]). constructor 1.
  - intros [] [_ [??]]; cbn in *. by rewrite !to_signed_wrap by done.
  - intros vs Hvs; cbn in *; inv_fields; cbn; unfold field_fits in *; cbn in *.
    split; [tauto|]. split; by apply (to_signed_range 16).
  - intros vs Hvs; cbn in *; inv_fields; cbn; unfold field_fits in *.
    by rewrite !wrap_to_signed by done.
Qed.
End Cursor.

(** ** [clipboard.rs] *)
Module ClipboardProto.
Record ClipboardHeader := mkClipboardHeader {
  mime_type : Z; direction : Z; cb_pad : Z; data_len : Z }.
#[export] Instance ClipboardHeader_packed : Packed ClipboardHeader := {
  layout := [1; 1; 2; 4]%nat;
  to_fields r := [mime_type r; direction r; cb_pad r; data_len r];
  of_fields vs := match vs with
    | [m; d; p; l] => mkClipboardHeader m d p l | _ => mkClipboardHeader 0 0 0 0 end;
  wf r := fits 8 (mime_type r) /\ fits 8 (direction r) /\ fits 16 (cb_pad r) /\
          fits 32 (data_len r)
}.
#[export] Instance ClipboardHeader_laws : PackedLaws ClipboardHeader.
Proof. struct_laws. Qed.

Inductive ClipboardMime := TextPlain | TextHtml | ImagePng.

Definition ClipboardMime_u8 (m : ClipboardMime) : Z :=
  match m with TextPlain => 0 | TextHtml => 1 | ImagePng => 2 end.

Definition ClipboardMime_try_from (v : Z) : ClipboardMime + Z :=
  match v with
  | 0 => inl TextPlain | 1 => inl TextHtml | 2 => inl ImagePng | other => inr other
  end.

Definition ClipboardHeader_SIZE : Z := size_of ClipboardHeader.
Definition ClipboardHeader_new (m : ClipboardMime) (dir len : Z) : ClipboardHeader :=
  mkClipboardHeader (ClipboardMime_u8 m) dir 0 len.
Definition ClipboardHeader_mime (h : ClipboardHeader) : ClipboardMime + Z :=
  ClipboardMime_try_from (mime_type h).
End ClipboardProto.

(** ** [handshake.rs] *)
Module HandshakeProto.
Definition WLR_SCREENCOPY : Z := Z.shiftl 1 0.
Definition EXT_IMAGE_CAPTURE : Z := Z.shiftl 1 1.
Definition PORTAL : Z := Z.shiftl 1 2.
Definition LZ4 : Z := Z.shiftl 1 0.
Definition ZSTD : Z := Z.shiftl 1 1.
Definition NONE : Z := Z.shiftl 1 2.

Record HandshakePayload := mkHandshakePayload {
  version : Z; capture_flags : Z; compress_flags : Z;
  hs_reserved0 : Z; hs_reserved1 : Z; hs_reserved2 : Z; hs_reserved3 : Z }.
#[export] Instance HandshakePayload_packed : Packed HandshakePayload := {
  layout := [2; 1; 1; 1; 1; 1; 1]%nat;
  to_fields r := [version r; capture_flags r; compress_flags r; hs_reserved0 r;
                  hs_reserved1 r; hs_reserved2 r; hs_reserved3 r];
  of_fields vs := match vs with
    | [v; c; d; r0; r1; r2; r3] => mkHandshakePayload v c d r0 r1 r2 r3
    | _ => mkHandshakePayload 0 0 0 0 0 0 0 end;
  wf r := fits 16 (version r) /\ fits 8 (capture_flags r) /\ fits 8 (compress_flags r) /\
          fits 8 (hs_reserved0 r) /\ fits 8 (hs_reserved1 r) /\
          fits 8 (hs_reserved2 r) /\ fits 8 (hs_reserved3 r)
}.
#[export] Instance HandshakePayload_laws : PackedLaws HandshakePayload.
Proof. struct_laws. Qed.

Definition PROTOCOL_VERSION : Z := 1.
Definition HandshakePayload_new (cap comp : Z) : HandshakePayload :=
  mkHandshakePayload PROTOCOL_VERSION cap comp 0 0 0 0.
End HandshakeProto.

(** ** [monitor.rs] *)
Module Monitor.
(** [x] and [y] are [i16]. *)
Record MonitorInfo := mkMonitorInfo {
  mi_stream_id : Z; mi_x : Z; mi_y : Z; mi_pad : Z;
  mi_width : Z; mi_height : Z; refresh_mhz : Z; scale : Z }.
#[export] Instance MonitorInfo_packed : Packed MonitorInfo := {
  layout := [2; 2; 2; 2; 4; 4; 4; 4]%nat;
  to_fields r := [mi_stream_id r; wrap 16 (mi_x r); wrap 16 (mi_y r); mi_pad r;
                  mi_width r; mi_height r; refresh_mhz r; scale r];
  of_fields vs := match vs with
    | [s; x; y; p; w; h; r; c] =>
        mkMonitorInfo s (to_signed 16 x) (to_signed 16 y) p w h r c
    | _ => mkMonitorInfo 0 0 0 0 0 0 0 0 end;
  wf r := (fits 16 (mi_stream_id r) /\ fits 16 (mi_pad r) /\ fits 32 (mi_width r) /\
          fits 32 (mi_height r) /\ fits 32 (refresh_mhz r) /\ fits 32 (scale r)) /\
          - 2 ^ 15 <= mi_x r < 2 ^ 15 /\ - 2 ^ 15 <= mi_y r < 2 ^ 15
}.
#[export] Instance MonitorInfo_laws : PackedLaws MonitorInfo.
Proof.
  constructor.
  - intros []; reflexivity.
  - intros [] [(?&?&?&?&?&?) [??]]; cbn in *.
    repeat (constructor 2; [by (assumption || (apply wrap_fits; lia))|]). constructor 1.
  - intros [] [_ [??]]; cbn in *. by rewrite !to_signed_wrap by done.
  - intros vs Hvs; cbn in *; inv_fields; cbn; unfold field_fits in *; cbn in *.
    split; [tauto|]. split; by apply (to_signed_range 16).
  - intros vs Hvs; cbn in *; inv_fields; cbn; unfold field_fits in *.
    by rewrite !wrap_to_signed by done.
Qed.

Definition MonitorInfo_SIZE : Z := size_of MonitorInfo.
Definition MonitorInfo_new (sid x y w h r s : Z) : MonitorInfo :=
  mkMonitorInfo sid x y 0 w h r s.

Record FractionalScale := mkFractionalScale { fs_stream_id : Z; scale_120 : Z }.
#[export] Instance FractionalScale_packed : Packed FractionalScale := {
  layout := [2; 2]%nat;
  to_fields r := [fs_stream_id r; scale_120 r];
  of_fields vs := match vs with [s; c] => mkFractionalScale s c | _ => mkFractionalScale 0 0 end;
  wf r := fits 16 (fs_stream_id r) /\ fits 16 (scale_120 r)
}.
#[export] Instance FractionalScale_laws : PackedLaws FractionalScale.
Proof. struct_laws. Qed.

Definition FractionalScale_SIZE : Z := size_of FractionalScale.
Definition FractionalScale_new (sid s : Z) : FractionalScale := mkFractionalScale sid s.
End Monitor.

(** ** The wire contract of the whole protocol *)

Import Header Frame Geometry Input Cursor ClipboardProto HandshakeProto Monitor.

(** A struct of [size] bytes whose fields, read off a value, are little-endian
    numbers of so many bytes at these offsets: any bytes of that size, and no
    others, are read; each field of what is read is the number at its offset; and
    the value is written back as the bytes it was read from. *)
Definition wire_layout (A : Type) `{Packed A} (size : Z) (fields : A -> list (Z * nat * Z)) : Prop :=
  (forall bs, bytes_ok bs ->
     match ref_from_bytes bs with
     | Some a => zlen bs = size /\ wf a /\ as_bytes a = bs /\
         Forall (fun '(off, n, v) => slice bs off (off + Z.of_nat n) = Some (le_enc n v)) (fields a)
     | None => zlen bs <> size
     end) /\
  (forall a : A, wf a -> ref_from_bytes (as_bytes a) = Some a).

Lemma packed_layout (A : Type) `{PackedLaws A} fields :
  (forall a : A, wf a -> Forall (fun '(off, n, v) => slice (as_bytes a) off (off + Z.of_nat n) = Some (le_enc n v)) (fields a)) ->
  wire_layout A (size_of A) fields.
Proof.
  intros Hf. split; [|by apply ref_from_as_bytes]. intros bs Hb.
  destruct (decide (zlen bs = size_of A)) as [Hl|Hl].
  - destruct (ref_from_bytes_total bs Hb Hl) as (a & -> & Hw & <-). split_and!; [done..|by apply Hf].
  - unfold ref_from_bytes. by rewrite decide_False.
Qed.

(** The fields of a struct of numbers, one after the other. *)
Ltac fields_lie := repeat (apply List.Forall_cons; [reflexivity|]); apply List.Forall_nil.

Lemma input_event_fields e : wf e ->
  slice (as_bytes e) 0 1 = Some (le_enc 1 (ie_kind e)) /\
  slice (as_bytes e) 1 4 = Some (ie_pad e) /\ slice (as_bytes e) 4 16 = Some (ie_payload e).
Proof.
  intros (_ & Hp & Hd & Lp & Ld). destruct e as [k p d]. cbn [ie_kind ie_pad ie_payload] in *.
  apply (f_equal Z.to_nat) in Lp, Ld. unfold zlen in Lp, Ld. rewrite Nat2Z.id in Lp, Ld. cbn in Lp, Ld.
  assert (B : forall l, bytes_ok l -> (fun b => b mod 256) <$> l = l).
  { intros l Hl. induction Hl as [|b l Hb _ IH]; [done|]. cbn [fmap list_fmap]. rewrite IH, Z.mod_small; [done|exact Hb]. }
  split_and!; [|rewrite <- (B p Hp) at 2|rewrite <- (B d Hd) at 2];
    do 4 (destruct p as [|? p]; try done); do 13 (destruct d as [|? d]; try done); reflexivity.
Qed.

(** C21. Where every field of every message struct of the protocol lies on the
    wire: its offset and width, little-endian, signed fields in two's complement,
    the byte arrays of an input event as they are.  Bytes are a message exactly
    when they have the struct's size; what is read from them has in each field the
    number at the field's offset; and reading and writing are inverse. *)
Theorem protocol_layout :
  wire_layout FrameHeader 16 (fun h =>
    [(0, 2%nat, stream_id h); (2, 1%nat, msg_type h); (3, 1%nat, flags h);
     (4, 4%nat, payload_len h); (8, 8%nat, timestamp_ns h)]) /\
  wire_layout FrameMeta 16 (fun h =>
    [(0, 4%nat, width h); (4, 4%nat, height h); (8, 4%nat, stride h);
     (12, 4%nat, num_regions h)]) /\
  wire_layout WireRegion 20 (fun h =>
    [(0, 4%nat, wr_x h); (4, 4%nat, wr_y h); (8, 4%nat, wr_w h); (12, 4%nat, wr_h h);
     (16, 4%nat, compressed_size h)]) /\
  wire_layout ResizePayload 12 (fun h =>
    [(0, 2%nat, rs_surface_id h); (2, 2%nat, rs_pad h); (4, 4%nat, rs_width h);
     (8, 4%nat, rs_height h)]) /\
  wire_layout TargetResolutionPayload 8 (fun h =>
    [(0, 4%nat, tr_width h); (4, 4%nat, tr_height h)]) /\
  wire_layout PointerMotion 12 (fun h =>
    [(0, 2%nat, pm_surface_id h); (2, 2%nat, pm_pad h); (4, 4%nat, pm_x h);
     (8, 4%nat, pm_y h)]) /\
  wire_layout PointerButton 8 (fun h =>
    [(0, 4%nat, pb_button h); (4, 4%nat, pb_state h)]) /\
  wire_layout PointerAxis 8 (fun h =>
    [(0, 1%nat, pa_axis h); (1, 1%nat, pa_pad0 h); (2, 1%nat, pa_pad1 h);
     (3, 1%nat, pa_pad2 h); (4, 4%nat, pa_value h)]) /\
  wire_layout KeyEvent 8 (fun h =>
    [(0, 4%nat, ke_key h); (4, 4%nat, ke_state h)]) /\
  wire_layout CursorMove 12 (fun h =>
    [(0, 2%nat, cm_surface_id h); (2, 2%nat, cm_pad h); (4, 4%nat, cm_x h);
     (8, 4%nat, cm_y h)]) /\
  wire_layout CursorUpdate 20 (fun h =>
    [(0, 2%nat, cu_surface_id h); (2, 2%nat, wrap 16 (hotspot_x h));
     (4, 2%nat, wrap 16 (hotspot_y h)); (6, 1%nat, has_bitmap h); (7, 1%nat, cu_pad h);
     (8, 2%nat, bitmap_width h); (10, 2%nat, bitmap_height h); (12, 4%nat, cu_x h);
     (16, 4%nat, cu_y h)]) /\
  wire_layout ClipboardHeader 8 (fun h =>
    [(0, 1%nat, mime_type h); (1, 1%nat, direction h); (2, 2%nat, cb_pad h);
     (4, 4%nat, data_len h)]) /\
  wire_layout HandshakePayload 8 (fun h =>
    [(0, 2%nat, version h); (2, 1%nat, capture_flags h); (3, 1%nat, compress_flags h);
     (4, 1%nat, hs_reserved0 h); (5, 1%nat, hs_reserved1 h); (6, 1%nat, hs_reserved2 h);
     (7, 1%nat, hs_reserved3 h)]) /\
  wire_layout MonitorInfo 24 (fun h =>
    [(0, 2%nat, mi_stream_id h); (2, 2%nat, wrap 16 (mi_x h));
     (4, 2%nat, wrap 16 (mi_y h)); (6, 2%nat, mi_pad h); (8, 4%nat, mi_width h);
     (12, 4%nat, mi_height h); (16, 4%nat, refresh_mhz h); (20, 4%nat, scale h)]) /\
  wire_layout FractionalScale 4 (fun h =>
    [(0, 2%nat, fs_stream_id h); (2, 2%nat, scale_120 h)]) /\
  wire_layout InputEvent 16 (fun h => [(0, 1%nat, ie_kind h)]) /\
  (forall bs e, bytes_ok bs -> ref_from_bytes bs = Some e ->
     slice bs 1 4 = Some (ie_pad e) /\ slice bs 4 16 = Some (ie_payload e)).
Proof.
  repeat match goal with |- wire_layout _ _ _ /\ _ => split end;
    try match goal with |- wire_layout ?A ?n ?f => refine (packed_layout A f _); intros [] _; fields_lie end.
  { refine (packed_layout InputEvent _ _). intros e He. apply List.Forall_cons; [|apply List.Forall_nil].
    by apply input_event_fields. }
  intros bs e Hb He. pose proof (ref_from_bytes_size _ _ He) as Hl.
  destruct (ref_from_bytes_total bs Hb Hl) as (e' & E & Hw & <-). rewrite He in E. injection E as <-.
  by apply input_event_fields.
Qed.

(** The four input sub-events survive packing into the 16-byte event: the
    constructor does not panic, the event decodes to the sub-event's kind and
    the prefix of its payload decodes to the sub-event, bit for bit. *)
Theorem input_event_carries_payload :
  (forall m, wf m -> exists e, InputEvent_pointer_motion m = Some e /\ wf e /\
     InputEvent_kind e = inl KPointerMotion /\
     (slice (ie_payload e) 0 (size_of PointerMotion) ≫= ref_from_bytes) = Some m) /\
  (forall b, wf b -> exists e, InputEvent_pointer_button b = Some e /\ wf e /\
     InputEvent_kind e = inl KPointerButton /\
     (slice (ie_payload e) 0 (size_of PointerButton) ≫= ref_from_bytes) = Some b) /\
  (forall a, wf a -> exists e, InputEvent_pointer_axis a = Some e /\ wf e /\
     InputEvent_kind e = inl KPointerAxis /\
     (slice (ie_payload e) 0 (size_of PointerAxis) ≫= ref_from_bytes) = Some a) /\
  (forall k, wf k -> exists e, InputEvent_key k = Some e /\ wf e /\
     InputEvent_kind e = inl KKey /\
     (slice (ie_payload e) 0 (size_of KeyEvent) ≫= ref_from_bytes) = Some k).
Proof.
  split_and!; intros x Hwf; by apply from_bytes_padded_carries.
Qed.
