(* ===== verification/FlowControl.v ===== *)
(** Application-level backpressure
    ([crates/remoteway-transport/src/flow_control.rs]).

    [usize] is 64 bits; [+=] wraps in a release build. *)

From S2P Require Import Prelude.

Record FlowController := mkFlowController { high_watermark : Z; pending : Z }.

Definition FlowController_new (hw : Z) : FlowController := mkFlowController hw 0.

Definition should_send (fc : FlowController) (bytes : Z) (is_anchor : bool)
    : FlowController * bool :=
  if is_anchor
  then (mkFlowController (high_watermark fc) (wrap 64 (pending fc + bytes)), true)
  else if high_watermark fc <? sat_add 64 (pending fc) bytes
  then (fc, false)
  else (mkFlowController (high_watermark fc) (wrap 64 (pending fc + bytes)), true).

Definition on_sent (fc : FlowController) (bytes : Z) : FlowController :=
  mkFlowController (high_watermark fc) (sat_sub (pending fc) bytes).

Definition pending_bytes (fc : FlowController) : Z := pending fc.

Definition is_congested (fc : FlowController) : bool := high_watermark fc <=? pending fc.

(** One call a client of the controller can make. *)
Inductive fc_call := CallSend (bytes : Z) (is_anchor : bool) | CallSent (bytes : Z).

Definition fc_step (fc : FlowController) (c : fc_call) : FlowController :=
  match c with
  | CallSend b a => (should_send fc b a).1
  | CallSent b => on_sent fc b
  end.

Definition fc_run (fc : FlowController) (cs : list fc_call) : FlowController := foldl fc_step fc cs.

(** Bytes admitted as anchor frames by a sequence of calls. *)
Fixpoint anchor_bytes (cs : list fc_call) : Z :=
  match cs with
  | [] => 0
  | CallSend b true :: cs => b + anchor_bytes cs
  | _ :: cs => anchor_bytes cs
  end.

Definition call_ok (c : fc_call) : Prop :=
  match c with CallSend b _ => fits 64 b | CallSent b => fits 64 b end.

Lemma fc_watermark_const fc cs : high_watermark (fc_run fc cs) = high_watermark fc.
Proof.
  revert fc. induction cs as [|c cs IH]; intros fc; [done|].
  unfold fc_run in *. cbn. rewrite IH. destruct c as [b a|b]; cbn; [|done].
  unfold should_send. destruct a; [done|]. by destruct (_ <? _).
Qed.

Lemma anchor_bytes_nonneg cs : Forall call_ok cs -> 0 <= anchor_bytes cs.
Proof.
  induction 1 as [|c cs Hc _ IH]; [done|].
  destruct c as [b []|b]; cbn in *; unfold fits in *; lia.
Qed.

(** One call keeps the pending count within the watermark plus the anchors. *)
Lemma fc_step_bound fc c a :
  call_ok c -> 0 <= high_watermark fc -> 0 <= pending fc <= high_watermark fc + a ->
  0 <= a -> fits 64 (1 + high_watermark fc + a + anchor_bytes [c]) ->
  0 <= pending (fc_step fc c) <= high_watermark fc + a + anchor_bytes [c].
Proof.
  intros Hc Hw Hp Ha Hf. destruct c as [b an|b]; cbn in *.
  - unfold should_send. destruct an; cbn in *.
    + rewrite wrap_small; width_lia.
    + destruct (Z.ltb_spec (high_watermark fc) (sat_add 64 (pending fc) b)); cbn; [lia|].
      rewrite wrap_small; width_lia.
  - width_lia.
Qed.

Lemma anchor_bytes_cons c cs : anchor_bytes (c :: cs) = anchor_bytes [c] + anchor_bytes cs.
Proof. destruct c as [b []|b]; cbn; lia. Qed.

Lemma fc_run_bound cs fc a :
  Forall call_ok cs -> 0 <= high_watermark fc -> 0 <= pending fc <= high_watermark fc + a ->
  0 <= a -> fits 64 (1 + high_watermark fc + a + anchor_bytes cs) ->
  0 <= pending (fc_run fc cs) <= high_watermark fc + a + anchor_bytes cs.
Proof.
  revert fc a. induction cs as [|c cs IH]; intros fc a Hok Hw Hp Ha Hf; [cbn in *; lia|].
  inversion Hok as [|? ? Hc Hcs]; subst. rewrite anchor_bytes_cons in *.
  pose proof (anchor_bytes_nonneg cs Hcs).
  pose proof (anchor_bytes_nonneg [c] ltac:(by constructor)).
  assert (Hf' : fits 64 (1 + high_watermark fc + a + anchor_bytes [c])) by (unfold fits in *; lia).
  pose proof (fc_step_bound fc c a Hc Hw Hp Ha Hf') as Hs.
  pose proof (fc_watermark_const fc [c]) as Hwc. unfold fc_run in Hwc. cbn in Hwc.
  specialize (IH (fc_step fc c) (a + anchor_bytes [c]) Hcs). rewrite !Hwc in IH.
  unfold fc_run in *. cbn [foldl].
  replace (high_watermark fc + a + (anchor_bytes [c] + anchor_bytes cs))
    with (high_watermark fc + (a + anchor_bytes [c]) + anchor_bytes cs) by lia.
  apply IH; try lia. unfold fits in *. lia.
Qed.

(** C19. Starting from a fresh controller, whatever is sent
    and acknowledged, the pending count never exceeds the high watermark by more
    than the bytes of the anchor frames, which are the only ones allowed past it
    (the watermark being below [usize::MAX]),
    and acknowledging more than is pending does not underflow; a non-anchor chunk
    is admitted exactly when it fits under the watermark. *)
Theorem flow_pending_bounded hw cs :
  0 <= hw -> Forall call_ok cs -> fits 64 (1 + hw + anchor_bytes cs) ->
  let fc := fc_run (FlowController_new hw) cs in
  0 <= pending_bytes fc <= hw + anchor_bytes cs /\
  (forall b, fits 64 (pending_bytes fc + b) ->
     (should_send fc b false).2 = true <-> pending_bytes fc + b <= hw) /\
  (forall b, (should_send fc b true).2 = true).
Proof.
  intros Hw Hok Hf fc.
  assert (B : 0 <= pending fc <= hw + anchor_bytes cs).
  { pose proof (fc_run_bound cs (FlowController_new hw) 0 Hok) as H. cbn in H.
    rewrite !Z.add_0_r in H. apply H; try lia. unfold fits in *. lia. }
  assert (W : high_watermark fc = hw) by apply fc_watermark_const.
  split_and!; [unfold pending_bytes; lia|unfold pending_bytes; lia| |done].
  intros b Hb. unfold should_send, pending_bytes in *. rewrite W.
  destruct (Z.ltb_spec hw (sat_add 64 (pending fc) b)); cbn; width_lia.
Qed.

Lemma flow_pending_bounded_witness :
  let fc := fc_run (FlowController_new 100)
              [CallSend 100 false; CallSend 200 true; CallSent 50; CallSend 1 false] in
  0 <= pending_bytes fc <= 100 + 200 /\
  (forall b, fits 64 (pending_bytes fc + b) ->
     (should_send fc b false).2 = true <-> pending_bytes fc + b <= 100) /\
  (forall b, (should_send fc b true).2 = true).
Proof.
  apply (flow_pending_bounded 100
           [CallSend 100 false; CallSend 200 true; CallSent 50; CallSend 1 false]);
    [lia| repeat (constructor; [by vm_compute|]); constructor |by vm_compute].
Defined.
