(* ===== verification/ChunkSender.v ===== *)
(** Splitting a payload into framed chunks
    ([crates/remoteway-transport/src/chunk_sender.rs]). *)

From S2P Require Import Prelude Wire Proto.
Import Header.

(** The [while offset < payload.len()] loop.  [Fail tt] is running out of fuel;
    [Panic] a slice out of range. *)
Fixpoint split_loop (fuel : nat) (sid : Z) (m : MsgType) (extra_flags : Z)
    (payload : list Z) (ts chunk_size offset : Z) (dst : list Z) : run unit (list Z) :=
  if offset <? zlen payload then
    match fuel with
    | O => Fail tt
    | S fuel =>
        let end_ := Z.min (wrap 64 (offset + chunk_size)) (zlen payload) in
        chunk ← or_panic (slice payload offset end_);
        let is_last := end_ =? zlen payload in
        let chunk_flags := if is_last then Z.lor extra_flags LAST_CHUNK else extra_flags in
        let hdr := FrameHeader_new sid m chunk_flags (wrap 32 (zlen chunk)) ts in
        split_loop fuel sid m extra_flags payload ts chunk_size end_
          ((dst ++ as_bytes hdr) ++ chunk)
    end
  else Ret dst.

Definition split_into_chunks (fuel : nat) (sid : Z) (m : MsgType) (extra_flags : Z)
    (payload : list Z) (ts chunk_size : Z) (dst : list Z) : run unit (list Z) :=
  if decide (payload = []) then
    Ret (dst ++ as_bytes (FrameHeader_new sid m (Z.lor extra_flags LAST_CHUNK) 0 ts))
  else split_loop fuel sid m extra_flags payload ts chunk_size 0 dst.

(** [chunk_count]: [usize::div_ceil]. *)
Definition div_ceil (a b : Z) : Z := if a mod b =? 0 then a / b else a / b + 1.

Definition chunk_count (payload_len chunk_size : Z) : Z :=
  if (payload_len =? 0) || (chunk_size =? 0) then 1 else div_ceil payload_len chunk_size.

(** ** Specification *)

Definition frame : Type := FrameHeader * list Z.

(** The wire image of a sequence of frames. *)
Definition encode_frames (fs : list frame) : list Z :=
  mjoin ((fun f => as_bytes f.1 ++ f.2) <$> fs).

(** [fs] are the chunks of a message: full-size chunks but the last, which is
    the only one flagged, and whose size is between 1 and the chunk size (or 0
    for the empty message). *)
Inductive chunks_of (sid : Z) (m : MsgType) (fl ts n : Z) : list Z -> list frame -> Prop :=
  | chunks_last p :
      zlen p <= n ->
      chunks_of sid m fl ts n p
        [(FrameHeader_new sid m (Z.lor fl LAST_CHUNK) (zlen p) ts, p)]
  | chunks_more c p fs :
      zlen c = n -> p <> [] -> chunks_of sid m fl ts n p fs ->
      chunks_of sid m fl ts n (c ++ p)
        ((FrameHeader_new sid m fl n ts, c) :: fs).

Lemma encode_frames_cons f fs : encode_frames (f :: fs) = (as_bytes f.1 ++ f.2) ++ encode_frames fs.
Proof. done. Qed.

Lemma encode_frames_app fs gs : encode_frames (fs ++ gs) = encode_frames fs ++ encode_frames gs.
Proof. unfold encode_frames. by rewrite fmap_app, join_app. Qed.

Lemma chunks_of_payload sid m fl ts n p fs :
  chunks_of sid m fl ts n p fs -> mjoin (snd <$> fs) = p.
Proof.
  induction 1 as [p H|c p fs Hc Hp _ IH]; cbn; [by rewrite app_nil_r|].
  f_equal. exact IH.
Qed.

(** The loop writes the chunks of the rest of the payload. *)
Lemma split_loop_spec fuel sid m fl done_ rest ts n dst :
  0 < n < 2 ^ 32 -> zlen (done_ ++ rest) < 2 ^ 63 -> rest <> [] -> zlen rest <= Z.of_nat fuel ->
  exists fs, split_loop fuel sid m fl (done_ ++ rest) ts n (zlen done_) dst
             = Ret (dst ++ encode_frames fs) /\ chunks_of sid m fl ts n rest fs.
Proof.
  revert done_ rest dst.
  induction fuel as [|fuel IH]; intros done_ rest dst Hn Hlen Hne Hfuel.
  { pose proof (zlen_pos rest Hne). lia. }
  pose proof (zlen_pos rest Hne) as Hpos. pose proof (zlen_nonneg done_) as Hd.
  cbn [split_loop]. rewrite zlen_app in *.
  destruct (Z.ltb_spec (zlen done_) (zlen done_ + zlen rest)); [|lia].
  rewrite (wrap_small 64) by width_lia.
  destruct (decide (zlen rest <= n)) as [Hlast|Hmore].
  - rewrite Z.min_r by lia.
    pose proof (slice_app_mid done_ rest []) as S. rewrite app_nil_r in S. rewrite S. cbn.
    rewrite Z.eqb_refl, (wrap_small 32) by width_lia.
    exists [(FrameHeader_new sid m (Z.lor fl LAST_CHUNK) (zlen rest) ts, rest)]. split.
    + rewrite encode_frames_cons. change (encode_frames []) with (@nil Z).
      rewrite app_nil_r, <- zlen_app.
      destruct fuel; cbn [split_loop]; rewrite zlen_app, Z.ltb_irrefl; by rewrite app_assoc.
    + by constructor.
  - rewrite Z.min_l by lia.
    set (c := take (Z.to_nat n) rest). set (r := drop (Z.to_nat n) rest).
    assert (Er : rest = c ++ r) by (symmetry; apply take_drop).
    assert (Lc : zlen c = n) by (unfold c; rewrite zlen_take; lia).
    assert (Lr : zlen r = zlen rest - n) by (unfold r; rewrite zlen_drop; lia).
    pose proof (slice_app_mid done_ c r) as S. rewrite Lc, <- Er in S. rewrite S. cbn.
    destruct (Z.eqb_spec (zlen done_ + n) (zlen done_ + zlen rest)); [lia|].
    rewrite Lc, (wrap_small 32) by width_lia.
    assert (Hr : r <> []) by (intros E; rewrite E, zlen_nil in Lr; lia).
    destruct (IH (done_ ++ c) r ((dst ++ as_bytes (FrameHeader_new sid m fl n ts)) ++ c))
      as (fs & Hrun & Hfs); rewrite ?zlen_app, ?Lc, ?Lr; try lia; try done.
    exists ((FrameHeader_new sid m fl n ts, c) :: fs). split.
    + rewrite zlen_app, Lc, <- app_assoc, <- Er in Hrun. rewrite Hrun.
      by rewrite encode_frames_cons, !app_assoc.
    + rewrite Er. by constructor.
Qed.

Lemma split_into_chunks_spec fuel sid m fl p ts n dst :
  0 < n < 2 ^ 32 -> zlen p < 2 ^ 63 -> zlen p <= Z.of_nat fuel ->
  exists fs, split_into_chunks fuel sid m fl p ts n dst = Ret (dst ++ encode_frames fs) /\
             chunks_of sid m fl ts n p fs.
Proof.
  intros Hn Hp Hf. unfold split_into_chunks. case_decide as E.
  - subst p. exists [(FrameHeader_new sid m (Z.lor fl LAST_CHUNK) 0 ts, [])]. split.
    + rewrite encode_frames_cons. change (encode_frames []) with (@nil Z).
      cbn [fst snd]. by rewrite !app_nil_r.
    + apply (chunks_last sid m fl ts n []). rewrite zlen_nil. lia.
  - destruct (split_loop_spec fuel sid m fl [] p ts n dst) as (fs & ? & ?);
      cbn; try lia; eauto.
Qed.

(** The number of chunks, by the shape of the chunk list. *)
Lemma div_ceil_small a b : 0 < a <= b -> div_ceil a b = 1.
Proof.
  intros H. unfold div_ceil. destruct (decide (a = b)) as [->|Hne].
  - rewrite Z_mod_same_full, Z.div_same by lia. done.
  - rewrite Z.mod_small, Z.div_small by lia. destruct (Z.eqb_spec a 0); lia.
Qed.

Lemma div_ceil_add a b : 0 < b -> div_ceil (b + a) b = 1 + div_ceil a b.
Proof.
  intros H. unfold div_ceil. replace (b + a) with (a + 1 * b) by lia.
  rewrite Z_mod_plus_full, Z.div_add by lia. destruct (a mod b =? 0); lia.
Qed.

Lemma chunks_of_count sid m fl ts n p fs :
  0 < n -> chunks_of sid m fl ts n p fs -> zlen fs = chunk_count (zlen p) n.
Proof.
  intros Hn. induction 1 as [p Hp|c p fs Hc Hp _ IH].
  - rewrite zlen_cons, zlen_nil. unfold chunk_count. pose proof (zlen_nonneg p).
    destruct (Z.eqb_spec (zlen p) 0); [done|]. destruct (Z.eqb_spec n 0); [lia|].
    cbn. rewrite div_ceil_small by lia. done.
  - rewrite zlen_cons, IH, zlen_app. pose proof (zlen_pos p Hp). pose proof (zlen_nonneg c).
    unfold chunk_count. rewrite Hc.
    destruct (Z.eqb_spec (zlen p) 0); [lia|]. destruct (Z.eqb_spec n 0); [lia|].
    destruct (Z.eqb_spec (n + zlen p) 0); [lia|]. cbn. by rewrite div_ceil_add.
Qed.

(** C20. With a chunk size between 1 and [u32::MAX] the
    splitting loop terminates (as many turns as payload bytes suffice), never
    panics, appends to [dst], and what it appends is the wire image of the
    message's chunks: contiguous pieces that concatenate to the payload, each
    under a header with the given stream, type, timestamp and its own length,
    the LAST_CHUNK flag on the final one only, [chunk_count] of them in all. *)
Theorem split_writes_chunks sid m fl p ts n dst :
  0 < n < 2 ^ 32 -> zlen p < 2 ^ 63 ->
  exists fs,
    split_into_chunks (length p) sid m fl p ts n dst = Ret (dst ++ encode_frames fs) /\
    chunks_of sid m fl ts n p fs /\ mjoin (snd <$> fs) = p /\
    zlen fs = chunk_count (zlen p) n.
Proof.
  intros Hn Hp.
  destruct (split_into_chunks_spec (length p) sid m fl p ts n dst Hn Hp) as (fs & E & H);
    [unfold zlen; lia|].
  exists fs. split_and!; [done..| |].
  - by eapply chunks_of_payload.
  - apply (chunks_of_count sid m fl ts n p fs); [lia|done].
Qed.

Lemma split_writes_chunks_witness :
  exists fs,
    split_into_chunks 5 1 FrameUpdate COMPRESSED [10; 11; 12; 13; 14] 7 2 [99]
      = Ret ([99] ++ encode_frames fs) /\
    chunks_of 1 FrameUpdate COMPRESSED 7 2 [10; 11; 12; 13; 14] fs /\
    mjoin (snd <$> fs) = [10; 11; 12; 13; 14] /\
    zlen fs = chunk_count (zlen [10; 11; 12; 13; 14]) 2.
Proof.
  apply (split_writes_chunks 1 FrameUpdate COMPRESSED [10; 11; 12; 13; 14] 7 2 [99]);
    [lia|by vm_compute].
Defined.

Lemma split_loop_zero fuel sid m fl p ts dst :
  p <> [] -> split_loop fuel sid m fl p ts 0 0 dst = Fail tt.
Proof.
  intros Hp. pose proof (zlen_pos p Hp) as Hpos. revert dst.
  induction fuel as [|fuel IH]; intros dst; cbn [split_loop];
    destruct (Z.ltb_spec 0 (zlen p)); try lia; [done|].
  rewrite (wrap_small 64) by done. rewrite Z.add_0_r, Z.min_l by lia.
  rewrite slice_ok by lia. cbn.
  destruct (Z.eqb_spec 0 (zlen p)); [lia|]. apply IH.
Qed.
