(* ===== verification/Multiplexer.v ===== *)
(** Stream parsing and chunk reassembly
    ([crates/remoteway-transport/src/multiplexer.rs]).

    [BytesMut]/[Bytes] are byte strings: [extend_from_slice] appends,
    [split_to(n)] returns the first [n] bytes and leaves the rest, [freeze] is
    the identity on contents.  The [HashMap] of partial payloads is a [gmap]. *)

From S2P Require Import Prelude Wire Proto ChunkSender.
Import Header.

Inductive MultiplexerError :=
  | MuxUnknownMsgType (e : ProtoError)
  | PayloadTooLarge (n : Z).

Definition MAX_PAYLOAD_LEN : Z := 4 * 1024 * 1024.

Record IncomingMessage := mkIncomingMessage { im_header : FrameHeader; im_payload : list Z }.

Definition encode_frame (h : FrameHeader) (payload dst : list Z) : list Z :=
  (dst ++ as_bytes h) ++ payload.

Record StreamParser := mkStreamParser { buf : list Z; chunks : gmap Z (list Z) }.

Definition StreamParser_new : StreamParser := mkStreamParser [] ∅.

(** [StreamParser::reassemble], on the map of partial payloads. *)
Definition reassemble (ch : gmap Z (list Z)) (hdr : FrameHeader) (payload : list Z)
    : gmap Z (list Z) * option IncomingMessage :=
  let sid := stream_id hdr in
  let is_last := negb (Z.land (flags hdr) LAST_CHUNK =? 0) in
  if is_last && negb (bool_decide (is_Some (ch !! sid))) && (zlen payload =? payload_len hdr)
  then (ch, Some (mkIncomingMessage hdr payload))
  else
    let b := default [] (ch !! sid) ++ payload in
    let ch := <[sid := b]> ch in
    if is_last
    then (delete sid ch, Some (mkIncomingMessage hdr (default [] (ch !! sid))))
    else (ch, None).

(** One turn of the [loop] of [StreamParser::push]: the two [break]s, the
    error returns, or a frame consumed. *)
Inductive turn :=
  | NeedMore
  | BadFrame (e : MultiplexerError)
  | Consumed (p : StreamParser) (m : option IncomingMessage).

Definition parse_turn (p : StreamParser) : turn :=
  if zlen (buf p) <? FrameHeader_SIZE then NeedMore
  else match slice (buf p) 0 FrameHeader_SIZE ≫= ref_from_bytes with
  | None => BadFrame (MuxUnknownMsgType (UnknownMsgType 0))
  | Some hdr =>
      if MAX_PAYLOAD_LEN <? payload_len hdr then BadFrame (PayloadTooLarge (payload_len hdr))
      else
        let total := FrameHeader_SIZE + payload_len hdr in
        if zlen (buf p) <? total then NeedMore
        else match FrameHeader_msg_type hdr with
        | inr e => BadFrame (MuxUnknownMsgType e)
        | inl _ =>
            let frame_bytes := take (Z.to_nat total) (buf p) in
            let rest := drop (Z.to_nat total) (buf p) in
            let payload := drop (Z.to_nat FrameHeader_SIZE) frame_bytes in
            let '(ch, m) := reassemble (chunks p) hdr payload in
            Consumed (mkStreamParser rest ch) m
        end
  end.

(** The loop.  [None] is running out of fuel. *)
Fixpoint push_loop (fuel : nat) (p : StreamParser) (out : list IncomingMessage)
    : option (StreamParser * (list IncomingMessage + MultiplexerError)) :=
  match parse_turn p with
  | NeedMore => Some (p, inl out)
  | BadFrame e => Some (p, inr e)
  | Consumed p' m =>
      match fuel with
      | O => None
      | S fuel => push_loop fuel p' (out ++ option_list m)
      end
  end.

(** [StreamParser::push]: the state left behind and the result.  On an error
    the messages already decoded by the call are dropped with [out]. *)
Definition push (p : StreamParser) (data : list Z)
    : option (StreamParser * (list IncomingMessage + MultiplexerError)) :=
  let p := mkStreamParser (buf p ++ data) (chunks p) in
  push_loop (length (buf p)) p [].

Arguments push : simpl never.

Definition in_progress_streams (p : StreamParser) : Z := Z.of_nat (size (chunks p)).

(** ** The loop consumes bytes, so its fuel is enough *)

(** Everything a turn that consumes a frame tells. *)
Lemma parse_turn_inv p p' m :
  parse_turn p = Consumed p' m ->
  exists hdr ty,
    slice (buf p) 0 FrameHeader_SIZE ≫= ref_from_bytes = Some hdr /\
    payload_len hdr <= MAX_PAYLOAD_LEN /\
    FrameHeader_SIZE + payload_len hdr <= zlen (buf p) /\
    FrameHeader_msg_type hdr = inl ty /\
    buf p' = drop (Z.to_nat (FrameHeader_SIZE + payload_len hdr)) (buf p) /\
    reassemble (chunks p) hdr
      (drop (Z.to_nat FrameHeader_SIZE)
         (take (Z.to_nat (FrameHeader_SIZE + payload_len hdr)) (buf p))) = (chunks p', m).
Proof.
  unfold parse_turn. destruct (Z.ltb_spec (zlen (buf p)) FrameHeader_SIZE); [done|].
  destruct (_ ≫= _) as [hdr|] eqn:Eh; [|done].
  destruct (Z.ltb_spec MAX_PAYLOAD_LEN (payload_len hdr)); [done|].
  destruct (Z.ltb_spec (zlen (buf p)) (FrameHeader_SIZE + payload_len hdr)); [done|].
  destruct (FrameHeader_msg_type hdr) as [ty|] eqn:Et; [|done].
  destruct (reassemble _ _ _) as [ch m'] eqn:Er. intros [= <- <-].
  exists hdr, ty. by split_and!.
Qed.

(** A decoded header of real bytes has fields in range. *)
Lemma header_slice_wf bs hdr :
  bytes_ok bs -> slice bs 0 FrameHeader_SIZE ≫= ref_from_bytes = Some hdr -> wf hdr.
Proof.
  intros Hb H. destruct (slice bs 0 FrameHeader_SIZE) as [s|] eqn:Es; [|done]. cbn in H.
  apply slice_inv in Es as (_&_&_&->&_).
  set (s := take _ _) in H.
  assert (Hs : bytes_ok s) by (by apply Forall_take, Forall_drop).
  destruct (ref_from_bytes_total (A:=FrameHeader) s Hs) as (h & E & W & _).
  - by apply (ref_from_bytes_size _ hdr).
  - congruence.
Qed.

Lemma parse_turn_consumes p p' m :
  bytes_ok (buf p) -> parse_turn p = Consumed p' m ->
  (length (buf p') < length (buf p))%nat /\ bytes_ok (buf p').
Proof.
  intros Hb H. apply parse_turn_inv in H as (hdr & ty & Eh & _ & Hl & _ & -> & _).
  apply header_slice_wf in Eh as (_&_&_&Hp&_); [|done].
  unfold FrameHeader_SIZE, zlen, fits in *.
  split; [rewrite length_drop; lia|by apply Forall_drop].
Qed.

(** ** The loop as a relation *)

Inductive drains : StreamParser -> list IncomingMessage -> StreamParser ->
    option MultiplexerError -> Prop :=
  | drains_stop p : parse_turn p = NeedMore -> drains p [] p None
  | drains_bad p e : parse_turn p = BadFrame e -> drains p [] p (Some e)
  | drains_frame p p' m ms q r :
      parse_turn p = Consumed p' m -> drains p' ms q r ->
      drains p (option_list m ++ ms) q r.

Definition push_result (out : list IncomingMessage) (r : option MultiplexerError)
    : list IncomingMessage + MultiplexerError :=
  match r with None => inl out | Some e => inr e end.

Lemma push_loop_drains fuel p out :
  bytes_ok (buf p) -> (length (buf p) <= fuel)%nat ->
  exists ms q r, drains p ms q r /\ push_loop fuel p out = Some (q, push_result (out ++ ms) r).
Proof.
  revert p out. induction fuel as [|fuel IH]; intros p out Hb Hf; cbn [push_loop];
    destruct (parse_turn p) as [|e|p' m] eqn:Et.
  1, 4: exists [], p, None; rewrite app_nil_r; split; [by constructor|done].
  1, 3: exists [], p, (Some e); rewrite app_nil_r; split; [by constructor|done].
  - apply parse_turn_consumes in Et as [? _]; [lia|done].
  - pose proof (parse_turn_consumes p p' m Hb Et) as [Hl Hb'].
    destruct (IH p' (out ++ option_list m) Hb' ltac:(lia)) as (ms & q & r & Hd & E).
    exists (option_list m ++ ms), q, r. rewrite app_assoc. split; [by econstructor|done].
Qed.

Lemma drains_det p ms q r ms' q' r' :
  drains p ms q r -> drains p ms' q' r' -> ms = ms' /\ q = q' /\ r = r'.
Proof.
  intros H. revert ms' q' r'.
  induction H as [p Ht|p e Ht|p p1 m ms q r Ht Hd IH]; intros ms' q' r' H';
    inversion H'; subst; try congruence; try (split_and!; congruence).
  match goal with H : parse_turn p = Consumed _ _ |- _ => rewrite Ht in H; injection H as <- <- end.
  edestruct IH as (-> & -> & ->); [eassumption|]. done.
Qed.

(** The parser with more bytes behind its buffer. *)
Definition ext (p : StreamParser) (d : list Z) : StreamParser :=
  mkStreamParser (buf p ++ d) (chunks p).

Lemma push_drains p d :
  bytes_ok (buf p) -> bytes_ok d ->
  exists ms q r, drains (ext p d) ms q r /\ push p d = Some (q, push_result ms r).
Proof.
  intros Hp Hd. unfold push. apply (push_loop_drains _ (ext p d) []); [|done].
  by apply Forall_app.
Qed.

Lemma push_of_drains p d ms q r :
  bytes_ok (buf p) -> bytes_ok d -> drains (ext p d) ms q r ->
  push p d = Some (q, push_result ms r).
Proof.
  intros Hp Hd H. destruct (push_drains p d Hp Hd) as (ms' & q' & r' & H' & ->).
  destruct (drains_det _ _ _ _ _ _ _ H H') as (-> & -> & ->). done.
Qed.

Lemma drains_bytes_ok p ms q r : drains p ms q r -> bytes_ok (buf p) -> bytes_ok (buf q).
Proof.
  induction 1 as [| |p p1 m ms q r Ht _ IH]; [done..|].
  intros Hb. apply IH. by eapply parse_turn_consumes.
Qed.

(** ** Segmentation: only the concatenation of the received bytes matters *)

Lemma ext_nil p : ext p [] = p.
Proof. destruct p. unfold ext. cbn. by rewrite app_nil_r. Qed.

Lemma ext_app p d d' : ext p (d ++ d') = ext (ext p d) d'.
Proof. unfold ext. cbn. by rewrite app_assoc. Qed.

Lemma parse_turn_ext p p' m d :
  bytes_ok (buf p) -> parse_turn p = Consumed p' m -> parse_turn (ext p d) = Consumed (ext p' d) m.
Proof.
  intros Hb H. apply parse_turn_inv in H as (hdr & ty & Eh & Hm & Hl & Ety & Eb & Er).
  pose proof (header_slice_wf _ _ Hb Eh) as (_&_&_&Hp&_).
  unfold parse_turn, ext; cbn [buf chunks]. rewrite zlen_app.
  pose proof (zlen_nonneg d). unfold FrameHeader_SIZE, fits in *.
  rewrite slice_app_prefix by lia. rewrite Eh.
  destruct (Z.ltb_spec (zlen (buf p) + zlen d) 16); [lia|].
  destruct (Z.ltb_spec MAX_PAYLOAD_LEN (payload_len hdr)); [lia|].
  destruct (Z.ltb_spec (zlen (buf p) + zlen d) (16 + payload_len hdr)); [lia|].
  rewrite Ety. unfold zlen in *.
  rewrite take_app_le, drop_app_le by lia. rewrite Er, Eb. done.
Qed.

Lemma parse_turn_ext_bad p e d :
  parse_turn p = BadFrame e -> parse_turn (ext p d) = BadFrame e.
Proof.
  unfold parse_turn, ext; cbn [buf chunks]. rewrite zlen_app. pose proof (zlen_nonneg d).
  destruct (Z.ltb_spec (zlen (buf p)) FrameHeader_SIZE); [done|].
  destruct (Z.ltb_spec (zlen (buf p) + zlen d) FrameHeader_SIZE); [lia|].
  rewrite slice_app_prefix by lia. destruct (_ ≫= _) as [hdr|]; [|done].
  destruct (_ <? _); [done|].
  destruct (Z.ltb_spec (zlen (buf p)) (FrameHeader_SIZE + payload_len hdr)); [done|].
  destruct (Z.ltb_spec (zlen (buf p) + zlen d) (FrameHeader_SIZE + payload_len hdr)); [lia|].
  destruct (FrameHeader_msg_type hdr); [|done]. by destruct (reassemble _ _ _).
Qed.

(** Draining is incremental: bytes that arrive later are parsed from the state
    the earlier ones left. *)
Lemma drains_ext p ms q r d ms' q' r' :
  bytes_ok (buf p) -> drains p ms q r -> drains (ext q d) ms' q' r' ->
  drains (ext p d) (ms ++ ms') q' r'.
Proof.
  intros Hb H H'. revert Hb.
  induction H as [p Ht|p e Ht|p p1 m ms q r Ht Hd IH]; intros Hb; cbn; [done..|].
  rewrite <- app_assoc. econstructor; [by apply parse_turn_ext|].
  apply IH; [done|]. by eapply parse_turn_consumes.
Qed.

Lemma drains_bad_result p ms q e : drains p ms q (Some e) -> parse_turn q = BadFrame e.
Proof.
  remember (Some e) as r eqn:Er. induction 1; try done; [congruence|auto].
Qed.

(** A receive loop: every read is pushed in turn until an error, as
    [read_loop] does; the messages of the pushes are delivered in order. *)
Fixpoint push_all (p : StreamParser) (reads : list (list Z)) (out : list IncomingMessage)
    : option (StreamParser * list IncomingMessage * option MultiplexerError) :=
  match reads with
  | [] => Some (p, out, None)
  | d :: reads =>
      match push p d with
      | None => None
      | Some (p', inr e) => Some (p', out, Some e)
      | Some (p', inl ms) => push_all p' reads (out ++ ms)
      end
  end.

Lemma push_all_drains reads p out :
  bytes_ok (buf p) -> Forall bytes_ok reads -> parse_turn p = NeedMore ->
  exists ms q r q' out', drains (ext p (mjoin reads)) ms q r /\
    push_all p reads out = Some (q', out', r) /\
    match r with
    | None => out' = out ++ ms /\ q' = q
    | Some _ => out' `prefix_of` out ++ ms
    end.
Proof.
  revert p out. induction reads as [|d reads IH]; intros p out Hp Hr Hn.
  { exists [], p, None, p, out. rewrite app_nil_r. cbn. rewrite ext_nil.
    split_and!; [by constructor|done..]. }
  inversion Hr as [|? ? Hd Hds]; subst. cbn [push_all].
  destruct (push_drains p d Hp Hd) as (ms & q & r & Hdr & ->).
  assert (Hq : bytes_ok (buf q)).
  { eapply drains_bytes_ok; [exact Hdr|]. by apply Forall_app. }
  assert (Hpd : bytes_ok (buf (ext p d))) by (by apply Forall_app).
  change (mjoin (d :: reads)) with (d ++ mjoin reads). rewrite ext_app.
  destruct r as [e|]; cbn [push_result].
  - exists ms, (ext q (mjoin reads)), (Some e), q, out. split_and!; [|done|].
    + rewrite <- (app_nil_r ms). eapply drains_ext; [done|exact Hdr|].
      constructor. apply parse_turn_ext_bad. by eapply drains_bad_result.
    + by apply prefix_app_r.
  - assert (Hnq : parse_turn q = NeedMore).
    { clear -Hdr. remember None as r eqn:Er. induction Hdr; [done|done|auto]. }
    destruct (IH q (out ++ ms) Hq Hds Hnq) as (ms2 & q2 & r2 & q2' & out2 & Hd2 & E2 & H2).
    exists (ms ++ ms2), q2, r2, q2', out2. rewrite app_assoc.
    split_and!; [by eapply drains_ext|done|done].
Qed.

Lemma mjoin_bytes_ok reads : Forall bytes_ok reads -> bytes_ok (mjoin reads).
Proof.
  induction 1 as [|d reads Hd _ IH]; [constructor|].
  change (mjoin (d :: reads)) with (d ++ mjoin reads). by apply Forall_app.
Qed.

(** C6. However the network fragments a byte stream, the
    parser delivers the same thing: pushing the reads one after another never
    panics or diverges, ends with the same error or absence of error as one
    push of all the bytes, and without an error with the same messages in the
    same order and the same parser state; with one, what was delivered before
    it is a prefix of what precedes the bad frame. *)
Theorem push_segmentation p reads :
  bytes_ok (buf p) -> Forall bytes_ok reads -> parse_turn p = NeedMore ->
  exists ms q r q' out',
    drains (ext p (mjoin reads)) ms q r /\
    push p (mjoin reads) = Some (q, push_result ms r) /\
    push_all p reads [] = Some (q', out', r) /\
    match r with
    | None => out' = ms /\ q' = q
    | Some _ => out' `prefix_of` ms
    end.
Proof.
  intros Hp Hr Hn.
  destruct (push_all_drains reads p [] Hp Hr Hn) as (ms & q & r & q' & out' & Hd & E & H).
  exists ms, q, r, q', out'. split_and!; [done| |done|done].
  apply push_of_drains; [done|by apply mjoin_bytes_ok|done].
Qed.

Lemma push_segmentation_witness :
  exists ms q r q' out',
    drains (ext StreamParser_new (mjoin [[1; 0; 0; 2; 1]; [0; 0; 0; 0; 0; 0; 0; 0; 0; 0; 0; 42; 7]])) ms q r /\
    push StreamParser_new (mjoin [[1; 0; 0; 2; 1]; [0; 0; 0; 0; 0; 0; 0; 0; 0; 0; 0; 42; 7]])
      = Some (q, push_result ms r) /\
    push_all StreamParser_new [[1; 0; 0; 2; 1]; [0; 0; 0; 0; 0; 0; 0; 0; 0; 0; 0; 42; 7]] []
      = Some (q', out', r) /\
    match r with None => out' = ms /\ q' = q | Some _ => out' `prefix_of` ms end.
Proof.
  apply (push_segmentation StreamParser_new); [constructor| |reflexivity].
  repeat constructor; by vm_compute.
Defined.

Lemma push_bad p ms q e d :
  bytes_ok (buf p) -> bytes_ok d -> drains p ms q (Some e) ->
  push q d = Some (ext q d, inr e).
Proof.
  intros Hb Hd H. pose proof (drains_bytes_ok _ _ _ _ H Hb) as Hq.
  apply (push_of_drains q d [] (ext q d) (Some e) Hq Hd).
  constructor. apply parse_turn_ext_bad. by eapply drains_bad_result.
Qed.

(** A protocol error is permanent: once a push has
    returned [Err], every later push returns the same error, whatever bytes
    arrive, and the partial payloads stay as they were. *)
Theorem push_error_sticky p d q e d' :
  bytes_ok (buf p) -> bytes_ok d -> bytes_ok d' ->
  push p d = Some (q, inr e) ->
  exists q', push q d' = Some (q', inr e) /\ chunks q' = chunks q.
Proof.
  intros Hp Hd Hd' E. destruct (push_drains p d Hp Hd) as (ms & q1 & r & Hdr & E').
  rewrite E in E'. injection E' as -> Er. destruct r as [e'|]; [|done].
  injection Er as ->. exists (ext q1 d'). split; [|done].
  eapply push_bad; [|done|exact Hdr]. by apply Forall_app.
Qed.

Lemma push_error_sticky_witness :
  exists q', push (mkStreamParser [0; 0; 9; 0; 0; 0; 0; 0; 0; 0; 0; 0; 0; 0; 0; 0] ∅) [1; 2; 3]
    = Some (q', inr (MuxUnknownMsgType (UnknownMsgType 9))) /\ chunks q' = ∅.
Proof.
  apply (push_error_sticky StreamParser_new [0; 0; 9; 0; 0; 0; 0; 0; 0; 0; 0; 0; 0; 0; 0; 0]);
    [constructor|repeat constructor; by vm_compute|repeat constructor; by vm_compute|
     vm_compute; reflexivity].
Defined.

(** ** Demultiplexing: each stream is reassembled from its own frames *)

Definition is_last (h : FrameHeader) : bool := negb (Z.land (flags h) LAST_CHUNK =? 0).

(** A frame a correct peer writes. *)
Definition frame_ok (f : frame) : Prop :=
  wf f.1 /\ bytes_ok f.2 /\ payload_len f.1 = zlen f.2 /\ zlen f.2 <= MAX_PAYLOAD_LEN /\
  exists ty, FrameHeader_msg_type f.1 = inl ty.

(** Reference: the messages of one stream, from its frames in order and the
    partial payload already received. *)
Fixpoint messages_of (acc : list Z) (fs : list frame) : list IncomingMessage :=
  match fs with
  | [] => []
  | (h, p) :: fs =>
      if is_last h then mkIncomingMessage h (acc ++ p) :: messages_of [] fs
      else messages_of (acc ++ p) fs
  end.

(** The partial payload left after them. *)
Fixpoint partial_of (acc : option (list Z)) (fs : list frame) : option (list Z) :=
  match fs with
  | [] => acc
  | (h, p) :: fs =>
      partial_of (if is_last h then None else Some (default [] acc ++ p)) fs
  end.

Definition of_stream (s : Z) (fs : list frame) : list frame :=
  filter (fun f => stream_id f.1 = s) fs.
Definition delivered_to (s : Z) (ms : list IncomingMessage) : list IncomingMessage :=
  filter (fun m => stream_id (im_header m) = s) ms.

(** The zero-copy path and the accumulating path agree with the reference. *)
Lemma reassemble_spec ch h p :
  reassemble ch h p =
    (if is_last h then delete (stream_id h) ch
     else <[stream_id h := default [] (ch !! stream_id h) ++ p]> ch,
     if is_last h then Some (mkIncomingMessage h (default [] (ch !! stream_id h) ++ p)) else None).
Proof.
  unfold reassemble. fold (is_last h). destruct (is_last h); [|done].
  destruct (ch !! stream_id h) as [b|] eqn:E; cbn.
  - rewrite lookup_insert_eq. cbn.
    by rewrite delete_insert_eq.
  - destruct (_ =? _); [by rewrite delete_id|].
    rewrite lookup_insert_eq. cbn. by rewrite delete_insert_eq.
Qed.

Lemma take_drop_app3 {A} (a b c : list A) n m :
  length a = n -> (length a + length b = m)%nat -> drop n (take m (a ++ b ++ c)) = b.
Proof.
  intros <- <-. rewrite <- length_app, app_assoc, take_app_length. apply drop_app_length.
Qed.

Lemma parse_turn_frame f rest ch :
  frame_ok f ->
  parse_turn (mkStreamParser ((as_bytes f.1 ++ f.2) ++ rest) ch) =
    let '(ch', m) := reassemble ch f.1 f.2 in Consumed (mkStreamParser rest ch') m.
Proof.
  intros (Hwf & Hb & Hl & Hm & ty & Ety). destruct f as [h p]. cbn [fst snd] in *.
  pose proof (as_bytes_zlen h) as L. change (size_of FrameHeader) with 16 in L.
  pose proof (zlen_nonneg p). pose proof (zlen_nonneg rest).
  unfold parse_turn, FrameHeader_SIZE. cbn [buf chunks]. rewrite !zlen_app, L.
  destruct (Z.ltb_spec (16 + zlen p + zlen rest) 16); [lia|].
  rewrite <- app_assoc.
  pose proof (slice_app_mid [] (as_bytes h) (p ++ rest)) as S.
  rewrite L in S. change (zlen []) with 0 in S. cbn [app] in S.
  rewrite Z.add_0_l in S. rewrite S. cbn [mbind option_bind].
  rewrite ref_from_as_bytes by done. rewrite Hl.
  destruct (Z.ltb_spec MAX_PAYLOAD_LEN (zlen p)); [lia|].
  destruct (Z.ltb_spec (16 + zlen p + zlen rest) (16 + zlen p)); [lia|]. rewrite Ety.
  unfold zlen in *. rewrite take_drop_app3 by lia.
  rewrite app_assoc, drop_app_length' by (rewrite length_app; lia). done.
Qed.

Lemma drains_frames fs ch :
  Forall frame_ok fs ->
  exists ms ch',
    drains (mkStreamParser (encode_frames fs) ch) ms (mkStreamParser [] ch') None /\
    forall s, delivered_to s ms = messages_of (default [] (ch !! s)) (of_stream s fs) /\
              ch' !! s = partial_of (ch !! s) (of_stream s fs).
Proof.
  intros Hok. revert ch. induction Hok as [|f fs Hf _ IH]; intros ch.
  { exists [], ch. split; [by constructor|]. done. }
  rewrite encode_frames_cons.
  pose proof (parse_turn_frame f (encode_frames fs) ch Hf) as Ht.
  rewrite reassemble_spec in Ht.
  match type of Ht with _ = Consumed (mkStreamParser _ ?c) ?o => set (ch1 := c) in *; set (m := o) in * end.
  destruct (IH ch1) as (ms & ch' & Hd & Hs).
  exists (option_list m ++ ms), ch'. split; [by econstructor|]. intros s.
  destruct (Hs s) as [E1 E2]. unfold delivered_to, of_stream in *. rewrite (list.filter_app _ (option_list m)), E1, E2.
  rewrite filter_cons. destruct f as [h p]. cbn [fst snd] in *. subst ch1 m. cbn [fst snd].
  destruct (decide (stream_id h = s)) as [<-|Hne]; destruct (is_last h) eqn:El;
    unfold option_list, option_rect.
  - rewrite lookup_delete_eq, filter_cons, decide_True by done. cbn. by rewrite El.
  - rewrite lookup_insert_eq. cbn. by rewrite El.
  - rewrite lookup_delete_ne, filter_cons, decide_False by done. done.
  - rewrite lookup_insert_ne by done. done.
Qed.

Lemma encode_frames_bytes_ok fs : Forall frame_ok fs -> bytes_ok (encode_frames fs).
Proof.
  induction 1 as [|f fs Hf _ IH]; [constructor|].
  rewrite encode_frames_cons. unfold bytes_ok. rewrite !Forall_app. split; [|done].
  split; [apply as_bytes_ok|apply Hf].
Qed.

(** C5. Refinement of the reference demultiplexer: on the
    wire image of any well-formed frames, of any streams interleaved in any
    order, [push] succeeds, consumes everything, and delivers to each stream
    exactly the messages the reference reassembly makes of that stream's own
    frames, in order; no stream's frames affect another's. *)
Theorem push_demultiplexes ch fs :
  Forall frame_ok fs ->
  exists ms ch',
    push (mkStreamParser [] ch) (encode_frames fs) = Some (mkStreamParser [] ch', inl ms) /\
    forall s, delivered_to s ms = messages_of (default [] (ch !! s)) (of_stream s fs) /\
              ch' !! s = partial_of (ch !! s) (of_stream s fs).
Proof.
  intros Hok. destruct (drains_frames fs ch Hok) as (ms & ch' & Hd & Hs).
  exists ms, ch'. split; [|done].
  exact (push_of_drains (mkStreamParser [] ch) _ _ _ _ ltac:(constructor)
           (encode_frames_bytes_ok fs Hok) Hd).
Qed.

Lemma push_demultiplexes_witness :
  exists ms ch',
    push (mkStreamParser [] ∅)
      (encode_frames [(mkFrameHeader 1 0 0 2 9, [7; 8]); (mkFrameHeader 2 1 2 1 9, [5]);
                      (mkFrameHeader 1 0 2 1 9, [9])])
    = Some (mkStreamParser [] ch', inl ms) /\
    forall s, delivered_to s ms =
      messages_of (default [] ((∅ : gmap Z (list Z)) !! s))
        (of_stream s [(mkFrameHeader 1 0 0 2 9, [7; 8]); (mkFrameHeader 2 1 2 1 9, [5]);
                      (mkFrameHeader 1 0 2 1 9, [9])]) /\
      ch' !! s = partial_of ((∅ : gmap Z (list Z)) !! s)
        (of_stream s [(mkFrameHeader 1 0 0 2 9, [7; 8]); (mkFrameHeader 2 1 2 1 9, [5]);
                      (mkFrameHeader 1 0 2 1 9, [9])]).
Proof.
  apply (push_demultiplexes ∅). repeat constructor; cbn; try (by vm_compute);
    try (by eexists; reflexivity).
Defined.

(** ** Chunked messages *)

(** A message as the sender cuts it. *)
Record out_message := mkOutMessage {
  om_type : MsgType; om_flags : Z; om_ts : Z; om_chunk : Z; om_payload : list Z }.

Definition out_message_ok (o : out_message) : Prop :=
  fits 8 (om_flags o) /\ Z.land (om_flags o) LAST_CHUNK = 0 /\ fits 64 (om_ts o) /\
  0 < om_chunk o <= MAX_PAYLOAD_LEN /\ bytes_ok (om_payload o).

(** The bytes in the last chunk. *)
Definition last_chunk_len (len n : Z) : Z :=
  if len =? 0 then 0 else (len - 1) mod n + 1.

(** What the receiver is given: the whole payload, under the header of the
    last chunk. *)
Definition as_received (sid : Z) (o : out_message) : IncomingMessage :=
  mkIncomingMessage
    (FrameHeader_new sid (om_type o) (Z.lor (om_flags o) LAST_CHUNK)
       (last_chunk_len (zlen (om_payload o)) (om_chunk o)) (om_ts o))
    (om_payload o).

Definition cut_as (sid : Z) (o : out_message) (fs : list frame) : Prop :=
  chunks_of sid (om_type o) (om_flags o) (om_ts o) (om_chunk o) (om_payload o) fs.

Lemma fits_lor_last fl : fits 8 fl -> fits 8 (Z.lor fl LAST_CHUNK).
Proof.
  unfold fits. change (2 ^ 8) with 256. intros [H0 H1]. split; [by apply Z.lor_nonneg|].
  destruct (decide (Z.lor fl LAST_CHUNK = 0)) as [->|Hne]; [lia|].
  assert (Hp : 0 < Z.lor fl LAST_CHUNK).
  { assert (0 <= Z.lor fl LAST_CHUNK) by (by apply Z.lor_nonneg). lia. }
  apply (Z.log2_lt_pow2 _ 8); [done|]. rewrite Z.log2_lor by done.
  apply Z.max_lub_lt; [|by vm_compute].
  destruct (decide (fl = 0)) as [->|]; [by vm_compute|]. apply Z.log2_lt_pow2; lia.
Qed.

Lemma is_last_lor sid m fl n ts :
  is_last (FrameHeader_new sid m (Z.lor fl LAST_CHUNK) n ts) = true.
Proof.
  unfold is_last. cbn. rewrite Z.land_lor_distr_l.
  destruct (Z.eqb_spec (Z.lor (Z.land fl LAST_CHUNK) (Z.land LAST_CHUNK LAST_CHUNK)) 0) as [E|];
    [|done].
  apply Z.lor_eq_0_iff in E as [_ E]. done.
Qed.

Lemma last_chunk_len_more n (p c : list Z) :
  0 < n -> zlen c = n -> p <> [] -> last_chunk_len (zlen (c ++ p)) n = last_chunk_len (zlen p) n.
Proof.
  intros Hn Hc Hp. unfold last_chunk_len. rewrite zlen_app, Hc. pose proof (zlen_pos p Hp).
  destruct (Z.eqb_spec (zlen p) 0); [lia|]. destruct (Z.eqb_spec (n + zlen p) 0); [lia|].
  replace (n + zlen p - 1) with (zlen p - 1 + 1 * n) by lia. by rewrite Z_mod_plus_full.
Qed.

Lemma cut_messages_gen sid ty fl ts n p fs acc rest :
  0 < n -> Z.land fl LAST_CHUNK = 0 -> chunks_of sid ty fl ts n p fs ->
  messages_of acc (fs ++ rest) =
    mkIncomingMessage (FrameHeader_new sid ty (Z.lor fl LAST_CHUNK) (last_chunk_len (zlen p) n) ts)
      (acc ++ p) :: messages_of [] rest.
Proof.
  intros Hn Hfl H. revert acc. induction H as [p Hp|c p fs Hc Hp _ IH]; intros acc; cbn [app messages_of].
  - rewrite is_last_lor. f_equal. f_equal. f_equal. unfold last_chunk_len.
    pose proof (zlen_nonneg p). destruct (Z.eqb_spec (zlen p) 0); [done|].
    rewrite Z.mod_small; lia.
  - unfold is_last. cbn [FrameHeader_new flags]. rewrite Hfl. cbn. rewrite IH.
    by rewrite last_chunk_len_more, app_assoc.
Qed.

Lemma chunk_frame_ok sid ty fl n ts p :
  fits 16 sid -> fits 8 fl -> fits 64 ts -> zlen p = n -> n <= MAX_PAYLOAD_LEN -> bytes_ok p ->
  frame_ok (FrameHeader_new sid ty fl n ts, p).
Proof.
  intros Hs Hfl Hts <- Hn Hb. pose proof (zlen_nonneg p).
  split_and!; [|done|done|done|eexists; apply FrameHeader_new_msg_type].
  apply FrameHeader_new_wf; try done. unfold MAX_PAYLOAD_LEN in *. width_lia.
Qed.

Lemma cut_frames_ok sid o fs :
  fits 16 sid -> out_message_ok o -> cut_as sid o fs -> Forall frame_ok fs.
Proof.
  intros Hs (Hfl & _ & Hts & Hn & Hb) H. unfold cut_as in H. revert Hb.
  induction H as [p Hp|c p fs Hc Hp _ IH]; intros Hb.
  - constructor; [|constructor]. apply chunk_frame_ok; try done; [by apply fits_lor_last|lia].
  - apply Forall_app in Hb as [Hb1 Hb2]. constructor; [|by apply IH].
    apply chunk_frame_ok; try done; lia.
Qed.

(** A stream's frames are its messages, cut one after the other. *)
Definition cuts (sid : Z) (os : list out_message) (fs : list frame) : Prop :=
  exists fss, Forall2 (cut_as sid) os fss /\ fs = mjoin fss.

Lemma cuts_messages sid os fs :
  Forall out_message_ok os -> cuts sid os fs -> messages_of [] fs = as_received sid <$> os.
Proof.
  intros Hok (fss & H2 & ->). revert Hok.
  induction H2 as [|o gs os fss Ho _ IH]; intros Hok; [done|].
  inversion Hok as [|? ? (?&?&?&?&?) Hos]; subst.
  change (mjoin (gs :: fss)) with (gs ++ mjoin fss).
  rewrite (cut_messages_gen sid (om_type o) (om_flags o) (om_ts o) (om_chunk o) (om_payload o))
    by (lia || done). cbn. by rewrite IH.
Qed.

Lemma cuts_frames_ok sid os fs :
  fits 16 sid -> Forall out_message_ok os -> cuts sid os fs -> Forall frame_ok fs.
Proof.
  intros Hs Hok (fss & H2 & ->). revert Hok.
  induction H2 as [|o gs os fss Ho _ IH]; intros Hok; [constructor|].
  inversion Hok; subst. change (mjoin (gs :: fss)) with (gs ++ mjoin fss).
  apply Forall_app. split; [by eapply cut_frames_ok|by apply IH].
Qed.

Lemma frames_ok_by_stream fs (P : frame -> Prop) :
  (forall s, Forall P (of_stream s fs)) -> Forall P fs.
Proof.
  intros H. rewrite list.Forall_forall. intros f Hf. specialize (H (stream_id f.1)).
  rewrite list.Forall_forall in H. apply H. unfold of_stream. by apply list_elem_of_filter.
Qed.

(** C3. End to end: any number of senders cut their messages
    into chunks and their frames are interleaved on the wire in any order; the
    receiver reads the bytes in pieces of any size.  Every stream is delivered
    exactly its messages, whole, in order, once, and nothing is left over. *)
Theorem transport_roundtrip (sent : Z -> list out_message) fs reads :
  (forall s, Forall out_message_ok (sent s) /\ cuts s (sent s) (of_stream s fs)) ->
  (forall s, of_stream s fs <> [] -> fits 16 s) ->
  Forall bytes_ok reads -> mjoin reads = encode_frames fs ->
  exists ms q, push_all StreamParser_new reads [] = Some (q, ms, None) /\ buf q = [] /\
    forall s, delivered_to s ms = as_received s <$> sent s.
Proof.
  intros Hsent Hfit Hr Hreads.
  assert (Hok : Forall frame_ok fs).
  { apply frames_ok_by_stream. intros s. destruct (Hsent s) as [Ho Hc].
    destruct (decide (of_stream s fs = [])) as [->|Hne]; [constructor|].
    eapply cuts_frames_ok; eauto. }
  destruct (push_all_drains reads StreamParser_new [] ltac:(constructor) Hr eq_refl)
    as (ms & q & r & q' & out' & Hd & E & H).
  destruct (drains_frames fs ∅ Hok) as (ms2 & ch2 & Hd2 & Hs2).
  change (ext StreamParser_new (mjoin reads)) with (mkStreamParser (mjoin reads) ∅) in Hd.
  rewrite Hreads in Hd. destruct (drains_det _ _ _ _ _ _ _ Hd Hd2) as (-> & -> & ->).
  destruct H as [-> ->]. exists ms2, (mkStreamParser [] ch2). split_and!; [done|done|].
  intros s. destruct (Hs2 s) as [-> _]. rewrite lookup_empty.
  by apply cuts_messages; apply Hsent.
Qed.

(** Two messages on two streams, the first in two chunks around the second,
    read in three pieces. *)
Definition demo_frames : list frame :=
  [(FrameHeader_new 1 FrameUpdate COMPRESSED 2 9, [7; 8]);
   (FrameHeader_new 2 InputEvent_ LAST_CHUNK 1 4, [5]);
   (FrameHeader_new 1 FrameUpdate (Z.lor COMPRESSED LAST_CHUNK) 1 9, [9])].

Definition demo_sent (s : Z) : list out_message :=
  if s =? 1 then [mkOutMessage FrameUpdate COMPRESSED 9 2 [7; 8; 9]]
  else if s =? 2 then [mkOutMessage InputEvent_ 0 4 8 [5]] else [].

Definition demo_reads : list (list Z) :=
  let bs := encode_frames demo_frames in [take 3 bs; take 30 (drop 3 bs); drop 33 bs].

Ltac demo_ok := split_and!; try (by vm_compute); repeat constructor; by vm_compute.

Lemma transport_roundtrip_witness :
  exists ms q, push_all StreamParser_new demo_reads [] = Some (q, ms, None) /\ buf q = [] /\
    forall s, delivered_to s ms = as_received s <$> demo_sent s.
Proof.
  apply (transport_roundtrip demo_sent demo_frames demo_reads).
  - intros s. unfold demo_sent.
    destruct (Z.eqb_spec s 1) as [->|H1]; [|destruct (Z.eqb_spec s 2) as [->|H2]].
    + split; [constructor; [by demo_ok|constructor]|].
      exists [of_stream 1 demo_frames].
      split; [|reflexivity]. constructor; [|constructor].
      apply (chunks_more 1 FrameUpdate COMPRESSED 9 2 [7; 8] [9]); [done|done|].
      by apply (chunks_last 1 FrameUpdate COMPRESSED 9 2 [9]).
    + split; [constructor; [by demo_ok|constructor]|].
      exists [of_stream 2 demo_frames].
      split; [|reflexivity]. constructor; [|constructor].
      by apply (chunks_last 2 InputEvent_ 0 4 8 [5]).
    + split; [constructor|]. exists []. split; [constructor|].
      unfold of_stream, demo_frames. rewrite !filter_cons_False by (cbn; congruence). done.
  - intros s. unfold of_stream, demo_frames.
    destruct (decide (s = 1)) as [->|H1]; [by vm_compute|].
    destruct (decide (s = 2)) as [->|H2]; [by vm_compute|].
    rewrite !filter_cons_False by (cbn; congruence). done.
  - vm_compute. repeat constructor; discriminate.
  - reflexivity.
Defined.
