(* ===== verification/Queue.v ===== *)
(** The FIFO channels between the threads and tasks.

    The channels are third-party code (tokio's [mpsc], rtrb's ring buffer,
    [std::sync::mpsc] behind the presenter): the development assumes of them
    only what their documentation promises, a first-in first-out buffer, as a
    class; everything about the program is proved against the class.  The
    bounded operations are those promises spelled with a capacity.  A list is
    one implementation, used by the witnesses. *)

From S2P Require Import Prelude.

Class Fifo (Q : Type -> Type) := {
  fifo_new {A} : Q A;
  fifo_items {A} : Q A -> list A;
  fifo_push {A} : Q A -> A -> Q A;
  fifo_pop {A} : Q A -> option (A * Q A)
}.

Class FifoLaws (Q : Type -> Type) `{Fifo Q} := {
  fifo_items_new {A} : fifo_items (fifo_new : Q A) = [];
  fifo_items_push {A} (q : Q A) a : fifo_items (fifo_push q a) = fifo_items q ++ [a];
  fifo_pop_spec {A} (q : Q A) :
    match fifo_pop q with
    | None => fifo_items q = []
    | Some (a, q') => fifo_items q = a :: fifo_items q'
    end
}.

Section Bounded.
Context {Q : Type -> Type} `{FifoLaws Q} {A : Type}.

Definition fifo_len (q : Q A) : Z := zlen (fifo_items q).

(** [try_send] / [push] of a channel of capacity [n]: refused when full. *)
Definition try_send (n : Z) (q : Q A) (a : A) : Q A * bool :=
  if fifo_len q <? n then (fifo_push q a, true) else (q, false).

Lemma fifo_len_nonneg (q : Q A) : 0 <= fifo_len q.
Proof. apply zlen_nonneg. Qed.

Lemma fifo_len_push (q : Q A) a : fifo_len (fifo_push q a) = fifo_len q + 1.
Proof. unfold fifo_len. rewrite fifo_items_push. zlen_lia. Qed.

Lemma fifo_len_new : fifo_len (fifo_new : Q A) = 0.
Proof. unfold fifo_len. by rewrite fifo_items_new. Qed.

Lemma fifo_pop_Some (q q' : Q A) a : fifo_pop q = Some (a, q') -> fifo_items q = a :: fifo_items q'.
Proof. intros E. pose proof (fifo_pop_spec q) as S. by rewrite E in S. Qed.

Lemma fifo_pop_None (q : Q A) : fifo_pop q = None <-> fifo_items q = [].
Proof.
  pose proof (fifo_pop_spec q) as S. destruct (fifo_pop q) as [[a q']|]; [|done].
  rewrite S. done.
Qed.

Lemma fifo_len_pop (q q' : Q A) a : fifo_pop q = Some (a, q') -> fifo_len q = fifo_len q' + 1.
Proof. intros E. unfold fifo_len. rewrite (fifo_pop_Some _ _ _ E). zlen_lia. Qed.

Lemma try_send_len n (q : Q A) a : fifo_len q <= n -> fifo_len (try_send n q a).1 <= n.
Proof.
  intros Hq. unfold try_send. destruct (Z.ltb_spec (fifo_len q) n); cbn; [|done].
  rewrite fifo_len_push. lia.
Qed.

Lemma try_send_items n (q : Q A) a :
  fifo_items (try_send n q a).1 =
    if (try_send n q a).2 then fifo_items q ++ [a] else fifo_items q.
Proof. unfold try_send. destruct (_ <? _); cbn; [apply fifo_items_push|done]. Qed.
End Bounded.

#[export] Hint Resolve fifo_len_nonneg : rw.

(** ** The list implementation *)

#[export] Instance list_fifo : Fifo list := {
  fifo_new A := [];
  fifo_items A q := q;
  fifo_push A q a := q ++ [a];
  fifo_pop A q := match q with [] => None | a :: q => Some (a, q) end
}.

#[export] Instance list_fifo_laws : FifoLaws list.
Proof. constructor; [done..|]. intros A [|a q]; done. Qed.
