(* ===== verification/Transport.v ===== *)
(** The SSH transport ([crates/remoteway-transport/src/ssh_transport.rs]).

    The sending half is a state machine: three FIFO queues, the buffer the
    write loop is writing, and what has been written; each call of a
    [TransportSender] and each step of [write_loop] is an action.  The tokio
    scheduler may run the calls and the loop in any order, so a schedule is an
    arbitrary list of actions.  The receiving half, [read_loop], is a function
    of the results of the reads. *)

From S2P Require Import Prelude Wire Proto ChunkSender Multiplexer Queue.
Import Header.

Definition READ_BUF_SIZE : Z := 64 * 1024.
Definition FRAME_QUEUE_DEPTH : Z := 2.
Definition INCOMING_QUEUE_DEPTH : Z := 2.

(** ** Sending *)

(** The three classes of [TransportSender], in priority order. *)
Inductive prio := PInput | PAnchor | PFrame.

#[export] Instance prio_eq_dec : EqDecision prio.
Proof. solve_decision. Defined.

(** Where [write_loop] is: at its [select!], in [write_all]/[flush] with a
    buffer, or returned (its receivers dropped). *)
Inductive wstate := WSelect | WWriting (c : prio) (d : list Z) | WDone.

Section Sender.
Context {Q : Type -> Type} `{FifoLaws Q}.

Record Link := mkLink {
  input_q : Q (list Z);
  anchor_q : Q (list Z);
  frame_q : Q (list Z);
  writer : wstate;
  written : list (prio * list Z);
  disconnected : bool;
  handles : bool   (** some [TransportSender] is still alive *)
}.

Definition Link_new : Link := mkLink fifo_new fifo_new fifo_new WSelect [] false true.

Definition is_done (l : Link) : bool := match writer l with WDone => true | _ => false end.

(** A send fails once the receiving end is gone. *)
Definition send_input (l : Link) (d : list Z) : Link * bool :=
  if is_done l then (l, false)
  else (mkLink (fifo_push (input_q l) d) (anchor_q l) (frame_q l) (writer l) (written l)
          (disconnected l) (handles l), true).

Definition send_anchor (l : Link) (d : list Z) : Link * bool :=
  if is_done l then (l, false)
  else (mkLink (input_q l) (fifo_push (anchor_q l) d) (frame_q l) (writer l) (written l)
          (disconnected l) (handles l), true).

Definition try_send_frame (l : Link) (d : list Z) : Link * bool :=
  if is_done l then (l, false)
  else let '(q, ok) := try_send FRAME_QUEUE_DEPTH (frame_q l) d in
    (mkLink (input_q l) (anchor_q l) q (writer l) (written l)
       (disconnected l) (handles l), ok).

(** [max_capacity() - capacity()]. *)
Definition frame_queue_len (l : Link) : Z :=
  FRAME_QUEUE_DEPTH - (FRAME_QUEUE_DEPTH - fifo_len (frame_q l)).

(** The biased [select!]: the first queue that has a buffer; [else] when all
    are empty and closed; otherwise the loop waits ([None]). *)
Definition select (l : Link) : option Link :=
  let go i a f w := mkLink i a f w (written l) (disconnected l) (handles l) in
  match writer l with
  | WSelect =>
      match fifo_pop (input_q l) with
      | Some (d, i) => Some (go i (anchor_q l) (frame_q l) (WWriting PInput d))
      | None =>
      match fifo_pop (anchor_q l) with
      | Some (d, a) => Some (go (input_q l) a (frame_q l) (WWriting PAnchor d))
      | None =>
      match fifo_pop (frame_q l) with
      | Some (d, f) => Some (go (input_q l) (anchor_q l) f (WWriting PFrame d))
      | None =>
          if handles l then None
          else Some (mkLink (input_q l) (anchor_q l) (frame_q l) WDone (written l) true (handles l))
      end end end
  | _ => None
  end.

(** [write_all] and [flush] of the buffer in hand: both succeed, or one
    fails and the loop ends. *)
Definition write_result (l : Link) (ok : bool) : option Link :=
  match writer l with
  | WWriting c d => Some
      (if ok then mkLink (input_q l) (anchor_q l) (frame_q l) WSelect (written l ++ [(c, d)])
                    (disconnected l) (handles l)
       else mkLink (input_q l) (anchor_q l) (frame_q l) WDone (written l) true (handles l))
  | _ => None
  end.

Definition drop_handles (l : Link) : Link :=
  mkLink (input_q l) (anchor_q l) (frame_q l) (writer l) (written l) (disconnected l) false.

(** [read_loop] returned first: the outer [select!] of [SshTransport::new]
    drops the write loop wherever it is; [signal] is whether the read loop
    sent the disconnect notice. *)
Definition read_loop_ends (l : Link) (signal : bool) : Link :=
  if is_done l then l
  else mkLink (input_q l) (anchor_q l) (frame_q l) WDone (written l)
         (signal || disconnected l) (handles l).

Inductive action :=
  | SendInput (d : list Z) | SendAnchor (d : list Z) | TrySendFrame (d : list Z)
  | Select | WriteResult (ok : bool) | DropHandles | ReadLoopEnds (signal : bool).

(** [None]: the action is not enabled. The senders need a live handle. *)
Definition link_step (l : Link) (a : action) : option (Link * bool) :=
  match a with
  | SendInput d => if handles l then Some (send_input l d) else None
  | SendAnchor d => if handles l then Some (send_anchor l d) else None
  | TrySendFrame d => if handles l then Some (try_send_frame l d) else None
  | Select => (fun l => (l, true)) <$> select l
  | WriteResult ok => (fun l => (l, true)) <$> write_result l ok
  | DropHandles => Some (drop_handles l, true)
  | ReadLoopEnds signal => Some (read_loop_ends l signal, true)
  end.

(** A schedule, and the buffers each call accepted, in order. *)
Definition accepted_by (a : action) (ok : bool) : list (prio * list Z) :=
  match a with
  | SendInput d => if ok then [(PInput, d)] else []
  | SendAnchor d => if ok then [(PAnchor, d)] else []
  | TrySendFrame d => if ok then [(PFrame, d)] else []
  | _ => []
  end.

Fixpoint link_run (l : Link) (acts : list action) (acc : list (prio * list Z))
    : option (Link * list (prio * list Z)) :=
  match acts with
  | [] => Some (l, acc)
  | a :: acts => '(l, ok) ← link_step l a; link_run l acts (acc ++ accepted_by a ok)
  end.

Definition of_class (c : prio) (bs : list (prio * list Z)) : list (list Z) :=
  snd <$> filter (fun b => b.1 = c) bs.

Definition queue_of (l : Link) (c : prio) : list (list Z) :=
  match c with
  | PInput => fifo_items (input_q l)
  | PAnchor => fifo_items (anchor_q l)
  | PFrame => fifo_items (frame_q l)
  end.

Definition in_hand (l : Link) (c : prio) : list (list Z) :=
  match writer l with
  | WWriting c' d => if decide (c' = c) then [d] else []
  | _ => []
  end.

Lemma of_class_app c a b : of_class c (a ++ b) = of_class c a ++ of_class c b.
Proof. unfold of_class. by rewrite list.filter_app, fmap_app. Qed.

(** Nothing is lost, duplicated or reordered within a class while the loop
    runs; a buffer in hand when a write fails is lost. *)
Definition conserved (l : Link) (acc : list (prio * list Z)) : Prop :=
  fifo_len (frame_q l) <= FRAME_QUEUE_DEPTH /\
  (disconnected l = true -> is_done l = true) /\
  forall c, exists lost,
    of_class c acc = of_class c (written l) ++ lost ++ in_hand l c ++ queue_of l c /\
    (is_done l = false -> lost = []) /\ zlen lost <= 1.

Lemma conserved_new : conserved Link_new [].
Proof.
  split_and!; cbn; [rewrite fifo_len_new; done|done|].
  intros []; exists []; cbn; by rewrite fifo_items_new.
Qed.

Lemma conserved_push l acc c d iq aq fq :
  conserved l acc -> is_done l = false -> fifo_len fq <= FRAME_QUEUE_DEPTH ->
  let l' := mkLink iq aq fq (writer l) (written l) (disconnected l) (handles l) in
  (forall c', queue_of l' c' = queue_of l c' ++ if decide (c' = c) then [d] else []) ->
  conserved l' (acc ++ [(c, d)]).
Proof.
  intros (Hf & Hd & Hc) Hnd Hfq l' Hq. split_and!; [done|done|].
  intros c'. destruct (Hc c') as (lost & E & Hl & Hn). exists lost. split_and!; [|done|done].
  rewrite of_class_app, E, Hq, <- !app_assoc. repeat f_equal.
  unfold of_class. rewrite filter_cons. cbn.
  destruct (decide (c = c')) as [->|Hne]; [by rewrite decide_True|].
  by rewrite decide_False by congruence.
Qed.

(** A step that only moves buffers between the queues and the writer. *)
Lemma conserved_move l l' acc :
  conserved l acc -> fifo_len (frame_q l') <= fifo_len (frame_q l) ->
  (disconnected l' = true -> is_done l' = true) -> is_done l = false ->
  (forall c, exists lost,
     of_class c (written l) ++ in_hand l c ++ queue_of l c =
     of_class c (written l') ++ lost ++ in_hand l' c ++ queue_of l' c /\
     (is_done l' = false -> lost = []) /\ zlen lost <= 1) ->
  conserved l' acc.
Proof.
  intros (Hf & _ & Hc) Hq Hd Hnd Hm. split_and!; [lia|done|].
  intros c. destruct (Hc c) as (lost & E & Hl & _). rewrite (Hl Hnd) in E.
  destruct (Hm c) as (lost' & E' & ?). exists lost'. by rewrite E, <- E'.
Qed.

Lemma in_hand_idle l c : writer l = WSelect -> in_hand l c = [].
Proof. unfold in_hand. by intros ->. Qed.

Lemma conserved_select l l' acc : conserved l acc -> select l = Some l' -> conserved l' acc.
Proof.
  intros Hc. pose proof Hc as (_ & Hd & _). unfold select. destruct (writer l) eqn:Ew; try done.
  assert (Hnd : is_done l = false) by (unfold is_done; by rewrite Ew).
  destruct (fifo_pop (input_q l)) as [[d i]|] eqn:Ei.
  { intros [= <-]. apply (conserved_move l); [done|cbn; lia|by intros D%Hd; congruence|done|].
    intros c. exists []. rewrite (in_hand_idle l) by done.
    destruct c; cbn; rewrite ?(fifo_pop_Some _ _ _ Ei); done. }
  destruct (fifo_pop (anchor_q l)) as [[d i]|] eqn:Ea.
  { intros [= <-]. apply (conserved_move l); [done|cbn; lia|by intros D%Hd; congruence|done|].
    intros c. exists []. rewrite (in_hand_idle l) by done.
    destruct c; cbn; rewrite ?(fifo_pop_Some _ _ _ Ea); done. }
  destruct (fifo_pop (frame_q l)) as [[d i]|] eqn:Ef.
  { intros [= <-]. pose proof (fifo_len_pop _ _ _ Ef).
    apply (conserved_move l); [done|cbn; lia|by intros D%Hd; congruence|done|].
    intros c. exists []. rewrite (in_hand_idle l) by done.
    destruct c; cbn; rewrite ?(fifo_pop_Some _ _ _ Ef); done. }
  destruct (handles l); [done|]. intros [= <-].
  apply (conserved_move l); [done|cbn; lia|done|done|].
  intros c. exists []. rewrite (in_hand_idle l) by done. by destruct c.
Qed.

Lemma conserved_write l l' acc ok :
  conserved l acc -> write_result l ok = Some l' -> conserved l' acc.
Proof.
  intros Hc. pose proof Hc as (_ & Hd & _). unfold write_result.
  destruct (writer l) as [|c d|] eqn:Ew; try done.
  assert (Hnd : is_done l = false) by (unfold is_done; by rewrite Ew).
  intros [= <-]. destruct ok.
  - apply (conserved_move l); [done|cbn; lia|by intros D%Hd; congruence|done|].
    intros c'. exists []. unfold in_hand at 1. rewrite Ew.
    cbn [written writer app]. rewrite of_class_app, <- app_assoc. split; [|done].
    f_equal. unfold in_hand. cbn [writer app].
    unfold of_class. rewrite filter_cons. cbn. destruct (decide (c = c')); by destruct c'.
  - apply (conserved_move l); [done|cbn; lia|done|done|].
    intros c'. exists (in_hand l c'). split_and!; [|done|].
    + by destruct c'.
    + unfold in_hand. rewrite Ew. destruct (decide _); cbn; unfold zlen; cbn; lia.
Qed.

Lemma conserved_ends l acc sg : conserved l acc -> conserved (read_loop_ends l sg) acc.
Proof.
  intros Hc. unfold read_loop_ends. destruct (is_done l) eqn:Ed; [done|].
  apply (conserved_move l); [done|cbn; lia|done|done|].
  intros c. exists (in_hand l c). split_and!; [|done|].
  - by destruct c.
  - unfold in_hand. destruct (writer l); [|destruct (decide _)|]; unfold zlen; cbn; lia.
Qed.

Lemma conserved_step l a l' ok acc :
  conserved l acc -> link_step l a = Some (l', ok) -> conserved l' (acc ++ accepted_by a ok).
Proof.
  intros Hc Hs. pose proof Hc as (Hf & Hd & _).
  assert (Sel : forall (o : option Link), (fun l => (l, true)) <$> o = Some (l', ok) -> o = Some l').
  { intros [x|]; [|done]. by intros [= -> _]. }
  destruct a as [d|d|d| |r| |sg]; cbn [link_step accepted_by] in *; rewrite ?app_nil_r.
  - destruct (handles l); [|done]. injection Hs as Hs. unfold send_input in Hs.
    destruct (is_done l) eqn:Ed; injection Hs as <- <-; cbn; [by rewrite app_nil_r|].
    apply conserved_push; [done..|]. intros []; cbn; rewrite ?fifo_items_push, ?app_nil_r; done.
  - destruct (handles l); [|done]. injection Hs as Hs. unfold send_anchor in Hs.
    destruct (is_done l) eqn:Ed; injection Hs as <- <-; cbn; [by rewrite app_nil_r|].
    apply conserved_push; [done..|]. intros []; cbn; rewrite ?fifo_items_push, ?app_nil_r; done.
  - destruct (handles l); [|done]. injection Hs as Hs. unfold try_send_frame in Hs.
    destruct (is_done l) eqn:Ed; [injection Hs as <- <-; cbn; by rewrite app_nil_r|].
    pose proof (try_send_len FRAME_QUEUE_DEPTH (frame_q l) d Hf) as Hl.
    pose proof (try_send_items FRAME_QUEUE_DEPTH (frame_q l) d) as Hi.
    destruct (try_send _ _ _) as [q o]. injection Hs as <- <-. cbn [fst snd] in *.
    destruct o; cbn.
    + apply conserved_push; [done..|]. intros []; cbn; rewrite ?app_nil_r; done.
    + rewrite app_nil_r. destruct Hc as (_ & _ & Hc). split_and!;
        [exact Hl|by intros D%Hd|].
      intros c. destruct (Hc c) as (lost & E & H'). exists lost. split.
      * rewrite E. destruct c; cbn; by rewrite ?Hi.
      * destruct H' as [Hl1 Hl2]. split; [by intros _; apply Hl1|done].
  - apply Sel in Hs. by eapply conserved_select.
  - apply Sel in Hs. by eapply conserved_write.
  - injection Hs as <- <-. exact Hc.
  - injection Hs as <- <-. by apply conserved_ends.
Qed.

Lemma conserved_run acts l acc l' acc' :
  conserved l acc -> link_run l acts acc = Some (l', acc') -> conserved l' acc'.
Proof.
  revert l acc. induction acts as [|a acts IH]; intros l acc Hc Hr; cbn in Hr.
  - by injection Hr as <- <-.
  - destruct (link_step l a) as [[l1 ok]|] eqn:Es; [|done]. cbn in Hr.
    eapply IH; [|exact Hr]. by eapply conserved_step.
Qed.

(** C7. Whatever the calls and however the scheduler
    interleaves them with the write loop: at most [FRAME_QUEUE_DEPTH] frames
    are ever queued, and in each class what was accepted is exactly what was
    written, followed by the buffer in hand and the queue, in the order of the
    calls; only a failed or cancelled write loses anything, and then one
    buffer at most. *)
Theorem transport_conserves acts l acc :
  link_run Link_new acts [] = Some (l, acc) ->
  0 <= frame_queue_len l <= FRAME_QUEUE_DEPTH /\
  (disconnected l = true -> is_done l = true) /\
  forall c, exists lost,
    of_class c acc = of_class c (written l) ++ lost ++ in_hand l c ++ queue_of l c /\
    (is_done l = false -> lost = []) /\ zlen lost <= 1.
Proof.
  intros Hr. destruct (conserved_run _ _ _ _ _ conserved_new Hr) as (Hf & Hd & Hc).
  unfold frame_queue_len. pose proof (fifo_len_nonneg (frame_q l)).
  split_and!; [lia|lia|done|done].
Qed.

(** The write loop never starts a buffer while
    one of a more urgent class waits, it takes the oldest of its class, and
    a [select!] that finds any queue non-empty does not wait: input is never
    blocked behind video. *)
Theorem select_respects_priority l :
  writer l = WSelect ->
  match select l with
  | Some l' =>
      match writer l' with
      | WWriting c d => (exists rest, queue_of l c = d :: rest /\ queue_of l' c = rest) /\
          (c = PAnchor -> queue_of l PInput = []) /\
          (c = PFrame -> queue_of l PInput = [] /\ queue_of l PAnchor = [])
      | WDone => handles l = false /\ forall c, queue_of l c = []
      | WSelect => False
      end
  | None => handles l = true /\ forall c, queue_of l c = []
  end.
Proof.
  intros Ew. unfold select. rewrite Ew.
  destruct (fifo_pop (input_q l)) as [[d i]|] eqn:Ei; cbn.
  { split_and!; [|done..]. rewrite (fifo_pop_Some _ _ _ Ei). eauto. }
  apply fifo_pop_None in Ei.
  destruct (fifo_pop (anchor_q l)) as [[d i]|] eqn:Ea; cbn.
  { split_and!; [|done..]. rewrite (fifo_pop_Some _ _ _ Ea). eauto. }
  apply fifo_pop_None in Ea.
  destruct (fifo_pop (frame_q l)) as [[d i]|] eqn:Ef; cbn.
  { split_and!; [|done..]. rewrite (fifo_pop_Some _ _ _ Ef). eauto. }
  apply fifo_pop_None in Ef.
  destruct (handles l) eqn:Eh; cbn; (split; [done|by intros []]).
Qed.
End Sender.
Arguments Link : clear implicits.

Lemma transport_conserves_witness :
  exists l acc,
    link_run (Link_new : Link list)
      [TrySendFrame [1]; TrySendFrame [2]; TrySendFrame [3]; SendInput [4]; Select;
       WriteResult true; Select; TrySendFrame [5]; SendAnchor [6]] [] = Some (l, acc) /\
    0 <= frame_queue_len l <= FRAME_QUEUE_DEPTH /\
    (disconnected l = true -> is_done l = true) /\
    forall c, exists lost,
      of_class c acc = of_class c (written l) ++ lost ++ in_hand l c ++ queue_of l c /\
      (is_done l = false -> lost = []) /\ zlen lost <= 1.
Proof.
  eexists _, _. split; [vm_compute; reflexivity|].
  apply (transport_conserves
    [TrySendFrame [1]; TrySendFrame [2]; TrySendFrame [3]; SendInput [4]; Select;
       WriteResult true; Select; TrySendFrame [5]; SendAnchor [6]]).
  vm_compute. reflexivity.
Defined.

Lemma select_respects_priority_witness :
  let l := mkLink (Q:=list) [[4]] [[6]] [[1]; [2]] WSelect [] false true in
  match select l with
  | Some l' =>
      match writer l' with
      | WWriting c d => (exists rest, queue_of l c = d :: rest /\ queue_of l' c = rest) /\
          (c = PAnchor -> queue_of l PInput = []) /\
          (c = PFrame -> queue_of l PInput = [] /\ queue_of l PAnchor = [])
      | WDone => handles l = false /\ forall c, queue_of l c = []
      | WSelect => False
      end
  | None => handles l = true /\ forall c, queue_of l c = []
  end.
Proof.
  apply (select_respects_priority (mkLink (Q:=list) [[4]] [[6]] [[1]; [2]] WSelect [] false true)).
  reflexivity.
Defined.

(** An anchor sent after a frame reaches the wire before it. *)
Example anchor_overtakes_frame :
  exists l acc,
    link_run (Link_new : Link list)
      [TrySendFrame [1]; SendAnchor [2]; Select; WriteResult true; Select; WriteResult true] []
    = Some (l, acc) /\
    acc = [(PFrame, [1]); (PAnchor, [2])] /\ written l = [(PAnchor, [2]); (PFrame, [1])].
Proof. eexists _, _. split; [vm_compute; reflexivity|]. by split. Qed.

(** ** Receiving *)

(** A [read] returns at most [READ_BUF_SIZE] bytes, none at end of file. *)
Inductive read_result := ReadOk (bs : list Z) | ReadErr.

(** How the loop is left: still waiting for a read, returned after sending the
    disconnect notice, or returned without it because nobody receives. *)
Inductive read_status := Reading | Signalled | ReceiverGone.

(** [msg_tx.send(msg).await] of each message: it waits for room in the bounded
    channel and fails once the receiver is dropped; [room] is how many more
    messages the receiver takes before that, [None] if it never goes. *)
Fixpoint deliver (room : option nat) (msgs out : list IncomingMessage)
    : option nat * list IncomingMessage * bool :=
  match msgs with
  | [] => (room, out, true)
  | m :: msgs =>
      match room with
      | Some O => (room, out, false)
      | Some (S k) => deliver (Some k) msgs (out ++ [m])
      | None => deliver None msgs (out ++ [m])
      end
  end.

Fixpoint read_loop (p : StreamParser) (room : option nat) (results : list read_result)
    (out : list IncomingMessage) : option (list IncomingMessage * read_status) :=
  match results with
  | [] => Some (out, Reading)
  | ReadErr :: _ => Some (out, Signalled)
  | ReadOk bs :: results =>
      if decide (bs = []) then Some (out, Signalled)
      else
        '(p', r) ← push p bs;
        match r with
        | inr _ => Some (out, Signalled)
        | inl msgs =>
            let '(room', out', ok) := deliver room msgs out in
            if ok : bool then read_loop p' room' results out' else Some (out', ReceiverGone)
        end
  end.

Lemma deliver_None msgs out : deliver None msgs out = (None, out ++ msgs, true).
Proof.
  revert out. induction msgs as [|m msgs IH]; intros out; cbn; [by rewrite app_nil_r|].
  rewrite IH. by rewrite <- app_assoc.
Qed.

(** With a receiver that stays, the loop is [push_all] on what was read. *)
Lemma read_loop_push_all reads p out rest :
  Forall (fun d => d <> []) reads ->
  match push_all p reads out with
  | None => True
  | Some (q, out', None) =>
      read_loop p None (fmap ReadOk reads ++ rest) out = read_loop q None rest out'
  | Some (q, out', Some _) =>
      read_loop p None (fmap ReadOk reads ++ rest) out = Some (out', Signalled)
  end.
Proof.
  revert p out. induction reads as [|d reads IH]; intros p out Hne; [done|].
  inversion Hne as [|? ? Hd Hds]; subst. cbn. rewrite decide_False by done.
  destruct (push p d) as [[p' [ms|e]]|]; cbn; [|done|done].
  rewrite deliver_None. by apply IH.
Qed.

(** *** Whole messages, in order *)

(** [fs] is the wire image of the messages [os], each on its own stream and in
    one piece (every sender of the program writes all the chunks of a message
    in one buffer). *)
Definition in_pieces (os : list (Z * out_message)) (fss : list (list frame)) : Prop :=
  Forall2 (fun o fs => cut_as o.1 o.2 fs) os fss.

Lemma chunks_of_stream sid ty fl ts n p fs :
  chunks_of sid ty fl ts n p fs -> of_stream sid fs = fs.
Proof.
  unfold of_stream. induction 1 as [p Hp|c p fs Hc Hp _ IH]; rewrite filter_cons, decide_True by done.
  - done.
  - f_equal. exact IH.
Qed.

Lemma chunks_of_other sid ty fl ts n p fs s :
  s <> sid -> chunks_of sid ty fl ts n p fs -> of_stream s fs = [].
Proof.
  intros Hs. unfold of_stream. induction 1 as [p Hp|c p fs Hc Hp _ IH].
  - rewrite filter_cons_False by (cbn; congruence). done.
  - rewrite filter_cons_False by (cbn; congruence). done.
Qed.

Lemma chunks_of_partial sid ty fl ts n p fs acc :
  chunks_of sid ty fl ts n p fs -> partial_of acc fs = None.
Proof.
  intros H. revert acc. induction H as [p Hp|c p fs Hc Hp _ IH]; intros acc; cbn [partial_of].
  - by rewrite is_last_lor.
  - apply IH.
Qed.

Lemma delivered_one s0 ms m :
  (forall s, delivered_to s ms = if decide (s = s0) then [m] else []) -> ms = [m].
Proof.
  intros H. unfold delivered_to in H.
  destruct ms as [|a ms]; [specialize (H s0); by rewrite decide_True in H|].
  assert (Ha : stream_id (im_header a) = s0).
  { specialize (H (stream_id (im_header a))). rewrite filter_cons_True in H by done.
    destruct (decide _); [done|]. done. }
  destruct ms as [|b ms].
  { specialize (H s0). rewrite decide_True, filter_cons_True in H by done. by injection H as ->. }
  assert (Hb : stream_id (im_header b) = s0).
  { specialize (H (stream_id (im_header b))). rewrite filter_cons in H.
    rewrite filter_cons_True in H by done.
    destruct (decide (_ = s0)); [done|]. by destruct (decide _). }
  specialize (H s0). rewrite decide_True, !filter_cons_True in H by done. done.
Qed.

Lemma drains_message sid o fs rest ch :
  fits 16 sid -> out_message_ok o -> cut_as sid o fs ->
  (forall s, ch !! s = None) ->
  exists ch', (forall s, ch' !! s = None) /\
    forall ms q r, drains (mkStreamParser rest ch') ms q r ->
      drains (mkStreamParser (encode_frames fs ++ rest) ch) (as_received sid o :: ms) q r.
Proof.
  intros Hs Ho Hc Hch. pose proof (cut_frames_ok sid o fs Hs Ho Hc) as Hok.
  destruct (drains_frames fs ch Hok) as (ms & ch' & Hd & Hsp).
  assert (Hcuts : cuts sid [o] fs).
  { exists [fs]. split; [constructor; [done|constructor]|]. cbn. by rewrite app_nil_r. }
  assert (Ems : ms = [as_received sid o]).
  { apply (delivered_one sid). intros s. destruct (Hsp s) as [-> _]. rewrite Hch. cbn.
    case_decide as Es.
    - subst s. rewrite (chunks_of_stream _ _ _ _ _ _ _ Hc).
      by rewrite (cuts_messages sid [o] fs) by (done || (constructor; [done|constructor])).
    - by rewrite (chunks_of_other _ _ _ _ _ _ _ s Es Hc). }
  subst ms. exists ch'. split.
  - intros s. destruct (Hsp s) as [_ ->]. rewrite Hch.
    destruct (decide (s = sid)) as [->|Es]; [|by rewrite (chunks_of_other _ _ _ _ _ _ _ s Es Hc)].
    rewrite (chunks_of_stream _ _ _ _ _ _ _ Hc). by eapply chunks_of_partial.
  - intros ms q r Hr. change (as_received sid o :: ms) with ([as_received sid o] ++ ms).
    change (mkStreamParser (encode_frames fs ++ rest) ch)
      with (ext (mkStreamParser (encode_frames fs) ch) rest).
    eapply drains_ext; [by apply encode_frames_bytes_ok|exact Hd|exact Hr].
Qed.

Lemma drains_messages os fss ch :
  Forall (fun o => fits 16 o.1 /\ out_message_ok o.2) os -> in_pieces os fss ->
  (forall s, ch !! s = None) ->
  exists q, drains (mkStreamParser (encode_frames (mjoin fss)) ch)
              ((fun o => as_received o.1 o.2) <$> os) q None.
Proof.
  intros Hok Hp. revert ch. induction Hp as [|[sid o] fs os fss Ho _ IH]; intros ch Hch.
  { exists (mkStreamParser [] ch). by constructor. }
  inversion Hok as [|? ? [Hs Hoo] Hos]; subst. cbn [fst snd] in *.
  destruct (drains_message sid o fs (encode_frames (mjoin fss)) ch) as (ch' & Hch' & Hd); try done.
  destruct (IH Hos ch' Hch') as (q & Hq). exists q.
  change (mjoin (fs :: fss)) with (fs ++ mjoin fss). rewrite encode_frames_app.
  cbn [fmap list_fmap fst snd]. by apply Hd.
Qed.

Lemma in_pieces_bytes os fss :
  Forall (fun o => fits 16 o.1 /\ out_message_ok o.2) os -> in_pieces os fss ->
  bytes_ok (encode_frames (mjoin fss)).
Proof.
  intros Hok Hp. apply encode_frames_bytes_ok. induction Hp as [|[sid o] fs os fss Hc _ IH]; [constructor|].
  inversion Hok as [|? ? [Hs Ho] Hos]; subst. change (mjoin (fs :: fss)) with (fs ++ mjoin fss).
  apply Forall_app. split; [by apply (cut_frames_ok sid o)|by apply IH].
Qed.

Lemma mjoin_bytes_inv (ds : list (list Z)) : bytes_ok (mjoin ds) -> Forall bytes_ok ds.
Proof.
  induction ds as [|d ds IH]; intros Hb; [constructor|].
  change (mjoin (d :: ds)) with (d ++ mjoin ds) in Hb. apply Forall_app in Hb as [? ?].
  constructor; [done|by apply IH].
Qed.

Lemma drains_waits p ms q : drains p ms q None -> parse_turn q = NeedMore.
Proof. intros Hd. remember None as r eqn:Er. by induction Hd; auto. Qed.

(** The loop on the beginning of the wire of some messages: it hands over the
    first of them, and all of them once it has read all of the wire; an end of
    file then ends it. *)
Lemma read_loop_prefix os fss reads (ended : bool) :
  Forall (fun o => fits 16 o.1 /\ out_message_ok o.2) os -> in_pieces os fss ->
  Forall (fun d => d <> []) reads -> mjoin reads `prefix_of` encode_frames (mjoin fss) ->
  exists ms more, (fun o => as_received o.1 o.2) <$> os = ms ++ more /\
    (mjoin reads = encode_frames (mjoin fss) -> more = []) /\
    read_loop StreamParser_new None (fmap ReadOk reads ++ (if ended then [ReadOk []] else [])) []
      = Some (ms, if ended then Signalled else Reading).
Proof.
  intros Hos Hp Hne [rest Hw]. pose proof (in_pieces_bytes _ _ Hos Hp) as Hb. rewrite Hw in Hb.
  apply Forall_app in Hb as [Hb1 Hb2]. pose proof (mjoin_bytes_inv _ Hb1) as Hds.
  destruct (drains_messages os fss ∅ Hos Hp (fun s => lookup_empty s)) as (qe & Hsent).
  destruct (push_all_drains reads StreamParser_new [] ltac:(constructor) Hds eq_refl)
    as (ms & q & r & q' & out' & Hd & E & Hr).
  destruct (push_drains q rest) as (more & q2 & r2 & Hd2 & _);
    [by eapply drains_bytes_ok; [exact Hd|]|done|].
  pose proof (drains_ext (ext StreamParser_new (mjoin reads)) _ _ _ _ _ _ _ Hb1 Hd Hd2) as Hall.
  rewrite <- ext_app, <- Hw in Hall. destruct (drains_det _ _ _ _ _ _ _ Hsent Hall) as (-> & _ & <-).
  assert (r = None) as ->.
  { destruct r as [e|]; [|done]. apply drains_bad_result, (parse_turn_ext_bad _ _ rest) in Hd.
    exfalso. inversion Hd2; congruence. }
  destruct Hr as [-> ->]. exists ms, more. split_and!; [done| |].
  - intros Heq. rewrite <- Heq, <- (app_nil_r (mjoin reads)) in Hw at 1.
    apply app_inv_head in Hw as <-. rewrite ext_nil in Hd2. apply drains_waits in Hd.
    inversion Hd2; [done|congruence].
  - pose proof (read_loop_push_all reads StreamParser_new [] (if ended then [ReadOk []] else []) Hne) as R.
    rewrite E in R. rewrite R. by destruct ended.
Qed.

Lemma read_loop_delivers_gen os fss reads last :
  Forall (fun o => fits 16 o.1 /\ out_message_ok o.2) os -> in_pieces os fss ->
  Forall bytes_ok reads -> Forall (fun d => d <> []) reads ->
  mjoin reads = encode_frames (mjoin fss) ->
  last = ReadOk [] \/ last = ReadErr ->
  read_loop StreamParser_new None (fmap ReadOk reads ++ [last]) [] =
    Some ((fun o => as_received o.1 o.2) <$> os, Signalled).
Proof.
  intros Hos Hp Hb Hne Hj Hlast.
  destruct (drains_messages os fss ∅ Hos Hp (fun s => lookup_empty s)) as (q & Hq).
  destruct (push_all_drains reads StreamParser_new [] ltac:(constructor) Hb eq_refl)
    as (ms & q1 & r & q' & out' & Hd & E & H).
  change (ext StreamParser_new (mjoin reads)) with (mkStreamParser (mjoin reads) ∅) in Hd.
  rewrite Hj in Hd. destruct (drains_det _ _ _ _ _ _ _ Hd Hq) as (-> & -> & ->).
  destruct H as [-> ->]. pose proof (read_loop_push_all reads StreamParser_new [] [last] Hne) as R.
  rewrite E in R. rewrite R. by destruct Hlast as [-> | ->].
Qed.

(** The receiving task, fed the bytes of whole messages
    cut by any reads and then an end of file or a read error, hands over exactly
    those messages, in the order they were written, and then signals the
    disconnect. *)
Theorem read_loop_delivers os fss reads last :
  Forall (fun o => fits 16 o.1 /\ out_message_ok o.2) os -> in_pieces os fss ->
  Forall bytes_ok reads -> Forall (fun d => d <> []) reads ->
  mjoin reads = encode_frames (mjoin fss) ->
  last = ReadOk [] \/ last = ReadErr ->
  read_loop StreamParser_new None (fmap ReadOk reads ++ [last]) [] =
    Some ((fun o => as_received o.1 o.2) <$> os, Signalled).
Proof. apply read_loop_delivers_gen. Qed.

Lemma read_loop_delivers_witness :
  read_loop StreamParser_new None
    (fmap ReadOk [[3; 0; 2; 2; 1; 0; 0; 0; 6; 0]; [0; 0; 0; 0; 0; 0; 77]] ++ [ReadErr]) []
  = Some ((fun o => as_received o.1 o.2) <$>
           [(3, mkOutMessage InputEvent_ 0 6 8 [77])], Signalled).
Proof.
  apply (read_loop_delivers _ [[(FrameHeader_new 3 InputEvent_ LAST_CHUNK 1 6, [77])]]).
  - constructor; [|constructor]. split; [by vm_compute|]. demo_ok.
  - constructor; [|constructor]. by apply (chunks_last 3 InputEvent_ 0 6 8 [77]).
  - repeat constructor; by vm_compute.
  - repeat constructor; done.
  - reflexivity.
  - by right.
Defined.
