(* ===== verification/SshTransport.v ===== *)
(** The transport as a whole ([crates/remoteway-transport/src/ssh_transport.rs]):
    what [SshTransport::new] starts and what its owner does with it.

    One tokio task runs both loops in a [select!]: the loop that returns first
    ends the other where it is.  [Transport] has the loops one at a time, the
    write loop as the [Link] machine and the read loop as a function of the
    results of the reads whose messages somebody takes at once.  Here they run
    together, step by step: the messages of a read wait for room in the bounded
    channel, the owner takes them when it likes, handles are cloned and
    dropped, and anything may end first.  A schedule is an arbitrary list of
    such steps. *)

From S2P Require Import Prelude Wire Proto ChunkSender Multiplexer Queue Transport.
Import Header.

(** [TransportError]; no operation of the transport returns it. *)
Inductive TransportError := TrIo | TrMultiplexer (e : MultiplexerError) | TrDisconnected.

(** Where [read_loop] is: at its [read], or in the [send(msg).await] of the
    messages of a read. *)
Inductive reader_state := RReading (p : StreamParser) | RSending (p : StreamParser) (msgs : list IncomingMessage).

(** Which way the task ended. *)
Inductive task_end := ReadEnded | NobodyReceives | WriteEnded.

Section Ssh.
Context {Q : Type -> Type} `{FifoLaws Q}.

(** The task, its channels and the owner's [SshTransport]: the sending half,
    the reader, [incoming_tx]'s channel, whether the owner still has its
    receiver, and how the task ended.  The watch channel is the link's
    [disconnected]. *)
Record SshTransport := mkSsh {
  sh_link : Link Q;
  sh_reader : reader_state;
  sh_incoming : Q IncomingMessage;
  sh_open : bool;
  sh_end : option task_end
}.

Definition SshTransport_new : SshTransport :=
  mkSsh Link_new (RReading StreamParser_new) fifo_new true None.

(** After the messages of a read come the next read. *)
Definition reading_on (p : StreamParser) (msgs : list IncomingMessage) : reader_state :=
  match msgs with [] => RReading p | _ => RSending p msgs end.

(** [read_loop] returns: the [select!] drops the write loop. *)
Definition reader_returns (st : SshTransport) (signal : bool) (why : task_end) : SshTransport :=
  mkSsh (read_loop_ends (sh_link st) signal) (sh_reader st) (sh_incoming st) (sh_open st) (Some why).

(** The result of a read; [None]: the reader is not at a read. *)
Definition read_step (st : SshTransport) (r : read_result) : option SshTransport :=
  match sh_end st, sh_reader st with
  | None, RReading p =>
      match r with
      | ReadErr => Some (reader_returns st true ReadEnded)
      | ReadOk bs =>
          if decide (bs = []) then Some (reader_returns st true ReadEnded)
          else
            '(p, res) ← push p bs;
            match res with
            | inr _ => Some (reader_returns st true ReadEnded)
            | inl msgs => Some (mkSsh (sh_link st) (reading_on p msgs) (sh_incoming st) (sh_open st) None)
            end
      end
  | _, _ => None
  end.

(** [msg_tx.send(msg).await]: it waits for room, and fails without a receiver. *)
Definition deliver_step (st : SshTransport) : option SshTransport :=
  match sh_end st, sh_reader st with
  | None, RSending p (m :: ms) =>
      if sh_open st then
        let '(q, ok) := try_send INCOMING_QUEUE_DEPTH (sh_incoming st) m in
        if ok : bool then Some (mkSsh (sh_link st) (reading_on p ms) q true None) else None
      else Some (reader_returns st false NobodyReceives)
  | _, _ => None
  end.

(** A call of a [TransportSender], or a step of the write loop. *)
Definition link_act (st : SshTransport) (a : action) : option (SshTransport * bool) :=
  '(l, ok) ← link_step (sh_link st) a;
  let why := match sh_end st with Some e => Some e | None => if is_done l then Some WriteEnded else None end in
  Some (mkSsh l (sh_reader st) (sh_incoming st) (sh_open st) why, ok).

(** [SshTransport::recv]: a message, [None] once the task is gone and the
    channel empty; otherwise it waits. *)
Definition recv (st : SshTransport) : option (SshTransport * option IncomingMessage) :=
  if sh_open st then
    match fifo_pop (sh_incoming st) with
    | Some (m, q) => Some (mkSsh (sh_link st) (sh_reader st) q true (sh_end st), Some m)
    | None => if sh_end st then Some (st, None) else None
    end
  else None.

(** Dropping the [SshTransport]: its receiver goes, and what it held. *)
Definition drop_transport (st : SshTransport) : SshTransport :=
  mkSsh (sh_link st) (sh_reader st) fifo_new false (sh_end st).

(** [disconnect_watch]: the value a receiver of it sees. *)
Definition disconnect_watch (st : SshTransport) : bool := disconnected (sh_link st).

Inductive ssh_act :=
  | OnLink (a : action)
  | ReadReturns (r : read_result)
  | Deliver
  | Recv
  | DropTransport.

Inductive ssh_obs := Called (a : action) (ok : bool) | Received (m : option IncomingMessage) | Silent.

(** The last [TransportSender] goes after the transport, which has one; that
    the reader returned is not for the schedule to say. *)
Definition may_act (st : SshTransport) (a : action) : bool :=
  match a with DropHandles => negb (sh_open st) | ReadLoopEnds _ => false | _ => true end.

Definition ssh_step (st : SshTransport) (a : ssh_act) : option (SshTransport * ssh_obs) :=
  match a with
  | OnLink a => if may_act st a then '(st, ok) ← link_act st a; Some (st, Called a ok) else None
  | ReadReturns r => st ← read_step st r; Some (st, Silent)
  | Deliver => st ← deliver_step st; Some (st, Silent)
  | Recv => '(st, m) ← recv st; Some (st, Received m)
  | DropTransport => if sh_open st then Some (drop_transport st, Silent) else None
  end.

Fixpoint ssh_run (st : SshTransport) (acts : list ssh_act) (os : list ssh_obs)
    : option (SshTransport * list ssh_obs) :=
  match acts with
  | [] => Some (st, os)
  | a :: acts => '(st, o) ← ssh_step st a; ssh_run st acts (os ++ [o])
  end.

(** ** What a run shows *)

(** The messages [recv] gave. *)
Definition got (o : ssh_obs) : list IncomingMessage := match o with Received (Some m) => [m] | _ => [] end.
Definition received (os : list ssh_obs) : list IncomingMessage := os ≫= got.

(** The buffers the senders had accepted. *)
Definition took (o : ssh_obs) : list (prio * list Z) := match o with Called a ok => accepted_by a ok | _ => [] end.
Definition accepted (os : list ssh_obs) : list (prio * list Z) := os ≫= took.

(** The reads of a schedule. *)
Definition read_of (a : ssh_act) : list read_result := match a with ReadReturns r => [r] | _ => [] end.
Definition reads (acts : list ssh_act) : list read_result := acts ≫= read_of.
Definition bytes_of (r : read_result) : list Z := match r with ReadOk bs => bs | ReadErr => [] end.

(** Decoded messages the reader has still to hand over. *)
Definition waiting (st : SshTransport) : list IncomingMessage :=
  match sh_end st, sh_reader st with None, RSending _ ms => ms | _, _ => [] end.

Definition parser (st : SshTransport) : StreamParser :=
  match sh_reader st with RReading p | RSending p _ => p end.

Definition coming (st : SshTransport) : list IncomingMessage := fifo_items (sh_incoming st) ++ waiting st.

(** The reads so far leave the parser [p] and gave [out]. *)
Definition parsed (rs : list read_result) (p : StreamParser) (out : list IncomingMessage) : Prop :=
  exists ds, rs = ReadOk <$> ds /\ Forall (fun d => d <> []) ds /\ push_all StreamParser_new ds [] = Some (p, out, None).

(** A result that ends the loop: nothing read, or bytes the parser refuses. *)
Definition stops (p : StreamParser) (r : read_result) : Prop :=
  bytes_of r = [] \/ exists p' e, push p (bytes_of r) = Some (p', inr e).

(** The reads gave [out], the last one perhaps ending the loop. *)
Definition looped (rs : list read_result) (out : list IncomingMessage) : Prop :=
  exists rs0 p tail, rs = rs0 ++ tail /\ parsed rs0 p out /\ (tail = [] \/ exists r, tail = [r] /\ stops p r).

Definition reads_ok (rs : list read_result) : Prop := Forall (fun r => bytes_ok (bytes_of r)) rs.

(** The state between two steps. *)
Record ssh_inv (st : SshTransport) (rs : list read_result) (os : list ssh_obs) : Prop := {
  inv_link : exists acts, link_run Link_new acts [] = Some (sh_link st, accepted os);
  inv_end : is_done (sh_link st) = bool_decide (is_Some (sh_end st));
  inv_room : fifo_len (sh_incoming st) <= INCOMING_QUEUE_DEPTH;
  inv_watch : disconnected (sh_link st) = true \/ sh_end st = None \/ sh_end st = Some NobodyReceives;
  inv_gone : sh_end st = Some NobodyReceives -> sh_open st = false;
  inv_buf : bytes_ok (buf (parser st));
  inv_msgs : forall p, sh_reader st <> RSending p [];
  inv_out : exists out,
    looped rs out /\
    received os `prefix_of` out /\
    (sh_open st = true -> exists lost, out = received os ++ coming st ++ lost /\
       (sh_end st <> Some WriteEnded -> lost = [])) /\
    (sh_end st = None -> parsed rs (parser st) out)
}.

(** *** Lists of steps *)

Lemma accepted_snoc os o : accepted (os ++ [o]) = accepted os ++ took o.
Proof. unfold accepted. by rewrite bind_app, bind_singleton. Qed.

Lemma received_snoc os o : received (os ++ [o]) = received os ++ got o.
Proof. unfold received. by rewrite bind_app, bind_singleton. Qed.

Lemma reads_snoc acts a : reads (acts ++ [a]) = reads acts ++ read_of a.
Proof. unfold reads. by rewrite bind_app, bind_singleton. Qed.

Lemma link_run_snoc acts a l acc l1 acc1 l2 ok :
  link_run l acts acc = Some (l1, acc1) -> link_step l1 a = Some (l2, ok) ->
  link_run l (acts ++ [a]) acc = Some (l2, acc1 ++ accepted_by a ok).
Proof.
  revert l acc. induction acts as [|b acts IH]; intros l acc Hr Hs; cbn in *.
  - injection Hr as -> ->. by rewrite Hs.
  - destruct (link_step l b) as [[l' ok']|]; [|done]. cbn in *. by apply IH.
Qed.

Lemma push_all_snoc ds d p out p1 out1 :
  push_all p ds out = Some (p1, out1, None) ->
  push_all p (ds ++ [d]) out = push_all p1 [d] out1.
Proof.
  revert p out. induction ds as [|e ds IH]; intros p out Hp; cbn [push_all app] in *.
  - by injection Hp as -> ->.
  - destruct (push p e) as [[p' [ms|e']]|]; [|done..]. by apply IH.
Qed.

(** *** The reader *)

Lemma parsed_read_loop rs p out rest :
  parsed rs p out -> read_loop StreamParser_new None (rs ++ rest) [] = read_loop p None rest out.
Proof.
  intros (ds & -> & Hne & Hp). pose proof (read_loop_push_all ds StreamParser_new [] rest Hne) as R.
  by rewrite Hp in R.
Qed.

Lemma parsed_more rs p out bs p' msgs :
  parsed rs p out -> bs <> [] -> push p bs = Some (p', inl msgs) ->
  parsed (rs ++ [ReadOk bs]) p' (out ++ msgs).
Proof.
  intros (ds & -> & Hne & Hp) Hb E. exists (ds ++ [bs]). split_and!.
  - by rewrite fmap_app.
  - apply Forall_app. split; [done|by constructor].
  - rewrite (push_all_snoc _ _ _ _ _ _ Hp). cbn [push_all]. by rewrite E.
Qed.

Lemma parsed_looped rs p out : parsed rs p out -> looped rs out.
Proof. intros Hp. exists rs, p, []. rewrite app_nil_r. auto. Qed.

Lemma stopped_looped rs p out r : parsed rs p out -> stops p r -> looped (rs ++ [r]) out.
Proof. intros Hp Hs. exists rs, p, [r]. split_and!; [done..|]. right. by exists r. Qed.

(** The loop alone, its messages taken at once, reads the same. *)
Lemma looped_read_loop rs out : looped rs out ->
  exists status, read_loop StreamParser_new None rs [] = Some (out, status).
Proof.
  intros (rs0 & p & tail & -> & Hp & Ht). rewrite (parsed_read_loop _ _ _ _ Hp).
  destruct Ht as [->|(r & -> & Hs)]; [by exists Reading|]. exists Signalled.
  destruct r as [bs|]; cbn; [|done]. destruct Hs as [Hs|(p' & e & Hs)]; cbn in Hs.
  - by rewrite decide_True.
  - destruct (decide (bs = [])); [done|]. by rewrite Hs.
Qed.

(** *** The sending half *)

Lemma link_step_done l a l' ok :
  link_step l a = Some (l', ok) -> (forall sg, a <> ReadLoopEnds sg) ->
  (is_done l = true -> is_done l' = true) /\
  (disconnected l = true -> disconnected l' = true) /\
  (is_done l = false -> is_done l' = true -> disconnected l' = true).
Proof.
  intros Hs Ha.
  assert (Sel : forall (o : option (Link Q)), (fun l => (l, true)) <$> o = Some (l', ok) -> o = Some l').
  { intros [x|]; [|done]. by intros [= -> _]. }
  destruct a as [d|d|d| |r| |sg]; cbn [link_step] in Hs.
  - destruct (handles l); [|done]. unfold send_input in Hs.
    destruct (is_done l) eqn:Ed; injection Hs as <- <-; unfold is_done in *; cbn; split_and!; congruence.
  - destruct (handles l); [|done]. unfold send_anchor in Hs.
    destruct (is_done l) eqn:Ed; injection Hs as <- <-; unfold is_done in *; cbn; split_and!; congruence.
  - destruct (handles l); [|done]. unfold try_send_frame in Hs.
    destruct (is_done l) eqn:Ed; [injection Hs as <- <-; split_and!; congruence|].
    destruct (try_send _ _ _) as [q o]. injection Hs as <- <-. unfold is_done in *; cbn; split_and!; congruence.
  - apply Sel in Hs. unfold select in Hs. unfold is_done. destruct (writer l); [|done..].
    destruct (fifo_pop (input_q l)) as [[? ?]|]; [by injection Hs as <-|].
    destruct (fifo_pop (anchor_q l)) as [[? ?]|]; [by injection Hs as <-|].
    destruct (fifo_pop (frame_q l)) as [[? ?]|]; [by injection Hs as <-|].
    destruct (handles l); [done|]. by injection Hs as <-.
  - apply Sel in Hs. unfold write_result in Hs. unfold is_done. destruct (writer l); [done| |done].
    destruct r; by injection Hs as <-.
  - injection Hs as <- <-. unfold is_done; cbn. split_and!; congruence.
  - by destruct (Ha sg).
Qed.

(** *** The invariant *)

Lemma reading_on_some p msgs p' : reading_on p msgs <> RSending p' [].
Proof. by destruct msgs. Qed.

Lemma ssh_inv_new : ssh_inv SshTransport_new [] [].
Proof.
  split; cbn; [by exists []|done|by rewrite fifo_len_new|auto|done|constructor|done|].
  assert (Hp : parsed [] StreamParser_new []) by (by exists []).
  exists []. split_and!; [by eapply parsed_looped|done| |done].
  - intros _. exists []. unfold coming. cbn. by rewrite fifo_items_new.
Qed.

(** Steps that leave the reads alone. *)
Lemma keep_out st st' rs os os' :
  ssh_inv st rs os ->
  sh_reader st' = sh_reader st -> sh_incoming st' = sh_incoming st ->
  sh_open st' = sh_open st -> received os' = received os ->
  (sh_end st' = sh_end st \/ sh_end st = None /\ sh_end st' = Some WriteEnded) ->
  exists out,
    looped rs out /\
    received os' `prefix_of` out /\
    (sh_open st' = true -> exists lost, out = received os' ++ coming st' ++ lost /\
       (sh_end st' <> Some WriteEnded -> lost = [])) /\
    (sh_end st' = None -> parsed rs (parser st') out).
Proof.
  intros [_ _ _ _ _ _ _ (out & E & Hp & Hl & Hd)] Er Ei Eo Eos He.
  exists out. rewrite Eo, Eos. unfold coming, waiting, parser in *. rewrite Er, Ei.
  split_and!; [done|done| |].
  - intros Ho. destruct (Hl Ho) as (lost & -> & Hlost). destruct He as [->|[E1 ->]]; [by exists lost|].
    rewrite E1 in *. destruct (sh_reader st) as [p|p ms].
    + exists lost. by split.
    + exists (ms ++ lost). rewrite app_nil_r, <- !app_assoc. by split.
  - intros En. destruct He as [He|[_ He]]; [|congruence]. apply Hd. congruence.
Qed.

Lemma inv_link_act st rs os a st' ok :
  ssh_inv st rs os -> may_act st a = true -> link_act st a = Some (st', ok) ->
  ssh_inv st' rs (os ++ [Called a ok]).
Proof.
  intros Hi Ha. unfold link_act. destruct (link_step (sh_link st) a) as [[l ok']|] eqn:Es; [|done].
  cbn. intros [= <- <-]. pose proof Hi as [(acts & Hr) Hend Hroom Hw Hg Hb Hms _].
  destruct (link_step_done _ _ _ _ Es) as (D1 & D2 & D3); [by intros sg ->|].
  assert (Er : received (os ++ [Called a ok']) = received os) by (rewrite received_snoc; apply app_nil_r).
  set (why := match sh_end st with Some e => Some e | None => if is_done l then Some WriteEnded else None end).
  split; [| |exact Hroom| | |exact Hb|exact Hms|].
  - exists (acts ++ [a]). rewrite accepted_snoc. by eapply link_run_snoc.
  - subst why. cbn. destruct (sh_end st) eqn:Ee; cbn in *; [by rewrite D1|]. by destruct (is_done l).
  - subst why. cbn. destruct (sh_end st) eqn:Ee; cbn in *.
    + destruct Hw as [Hw|[Hw|Hw]]; auto.
    + destruct (is_done l) eqn:Ed; auto.
  - subst why. cbn. destruct (sh_end st) eqn:Ee; [exact Hg|]. by destruct (is_done l).
  - apply (keep_out st _ rs os); [done..|exact Er|]. subst why. cbn.
    destruct (sh_end st); [by left|]. destruct (is_done l); auto.
Qed.

(** [read_loop] returns. *)
Lemma inv_returns st rs os sg :
  ssh_inv st rs os -> sh_end st = None ->
  (exists acts, link_run Link_new acts [] = Some (read_loop_ends (sh_link st) sg, accepted (os ++ [Silent]))) /\
  is_done (read_loop_ends (sh_link st) sg) = true /\
  (sg = true -> disconnected (read_loop_ends (sh_link st) sg) = true) /\
  received (os ++ [Silent]) = received os.
Proof.
  intros [(acts & Hr) Hend _ _ _ _ _ _] He. rewrite He in Hend. cbn in Hend. split_and!.
  - exists (acts ++ [ReadLoopEnds sg]). rewrite accepted_snoc.
    by apply (link_run_snoc acts (ReadLoopEnds sg) _ _ (sh_link st) _ _ true).
  - unfold read_loop_ends. by rewrite Hend.
  - intros ->. unfold read_loop_ends. by rewrite Hend.
  - rewrite received_snoc. apply app_nil_r.
Qed.

(** What the step of a returning reader leaves, whatever it had read. *)
Lemma inv_returned st rs rs' os sg why :
  ssh_inv st rs os -> sh_end st = None -> why <> WriteEnded ->
  (why = NobodyReceives -> sh_open st = false) -> (why = ReadEnded -> sg = true /\ waiting st = []) ->
  (forall out, parsed rs (parser st) out -> looped rs' out) ->
  ssh_inv (reader_returns st sg why) rs' (os ++ [Silent]).
Proof.
  intros Hi He Hwe Hno Hre Hloop. destruct (inv_returns _ _ _ sg Hi He) as (Hlr & Hdn & Hsg & Er).
  pose proof Hi as [_ _ Hroom _ _ Hb Hms (out & E & Hp & Hl & Hd)].
  split; cbn [reader_returns sh_link sh_end sh_incoming sh_open]; [done|by rewrite Hdn|done| |by intros [= ->]; auto|done|done|].
  - destruct why; [left; by apply Hsg, Hre|by right; right|done].
  - exists out. rewrite Er. split_and!; [by apply Hloop, Hd|done| |done]. intros Ho.
    destruct (Hl Ho) as (lost & -> & Hlost). rewrite He in Hlost. rewrite (Hlost ltac:(done)).
    destruct why; [|by rewrite Hno in Ho|done]. destruct (Hre eq_refl) as [_ Ew].
    exists []. unfold coming. rewrite Ew. split; [|done]. unfold waiting. cbn. by rewrite !app_nil_r.
Qed.

Lemma inv_read st rs os r st' :
  ssh_inv st rs os -> bytes_ok (bytes_of r) -> read_step st r = Some st' ->
  ssh_inv st' (rs ++ [r]) (os ++ [Silent]).
Proof.
  intros Hi Hr. unfold read_step. destruct (sh_end st) eqn:He; [done|].
  destruct (sh_reader st) as [p|] eqn:Erd; [|done].
  pose proof Hi as [Hlr Hend Hroom Hw Hg Hb Hms (out & E & Hp & Hl & Hd)].
  specialize (Hd He). assert (Epar : parser st = p) by (unfold parser; by rewrite Erd).
  assert (Ew : waiting st = []) by (unfold waiting; by rewrite He, Erd). rewrite Epar in *.
  assert (Ret : stops p r -> ssh_inv (reader_returns st true ReadEnded) (rs ++ [r]) (os ++ [Silent])).
  { intros Hs. apply (inv_returned st rs _ os true ReadEnded); [done..|].
    rewrite Epar. intros out' Hp'. by apply (stopped_looped rs p out'). }
  destruct r as [bs|]; [|intros [= <-]; apply Ret; by left].
  destruct (decide (bs = [])) as [->|Hne]; [intros [= <-]; apply Ret; by left|].
  destruct (push p bs) as [[p' [msgs|e]]|] eqn:Ep; [| |done].
  2: { intros [= <-]. apply Ret. right. by exists p', e. }
  intros [= <-]. pose proof (parsed_more _ _ _ _ _ _ Hd Hne Ep) as Hd'.
  destruct (push_drains p bs Hb Hr) as (ms & q & res & Hdr & Ep2). rewrite Ep in Ep2.
  injection Ep2 as <- _.
  assert (Epar' : parser (mkSsh (sh_link st) (reading_on p' msgs) (sh_incoming st) (sh_open st) None) = p').
  { unfold parser, reading_on. cbn. by destruct msgs. }
  assert (Er : received (os ++ [Silent]) = received os) by (rewrite received_snoc; apply app_nil_r).
  split; cbn [sh_link sh_end sh_incoming sh_open]; [|by rewrite He in Hend|done|auto|done| |by intros p1; apply reading_on_some|].
  - destruct Hlr as (acts & Hlr). exists acts. by rewrite accepted_snoc, app_nil_r.
  - rewrite Epar'. apply drains_bytes_ok in Hdr; [done|]. by apply Forall_app.
  - exists (out ++ msgs). rewrite Er, Epar'. split_and!; [by eapply parsed_looped| | |done].
    + by apply prefix_app_r.
    + intros Ho. destruct (Hl Ho) as (lost & -> & Hlost). rewrite (Hlost ltac:(congruence)).
      exists []. unfold coming. rewrite Ew. split; [|done].
      assert (W : waiting (mkSsh (sh_link st) (reading_on p' msgs) (sh_incoming st) (sh_open st) None) = msgs)
        by (unfold waiting, reading_on; cbn; by destruct msgs).
      rewrite W, !app_nil_r, <- app_assoc. done.
Qed.

Lemma inv_deliver st rs os st' :
  ssh_inv st rs os -> deliver_step st = Some st' -> ssh_inv st' rs (os ++ [Silent]).
Proof.
  intros Hi. unfold deliver_step. destruct (sh_end st) eqn:He; [done|].
  destruct (sh_reader st) as [|p [|m ms]] eqn:Erd; [done..|].
  pose proof Hi as [Hlr Hend Hroom Hw Hg Hb Hms (out & E & Hp & Hl & Hd)].
  specialize (Hd He). assert (Epar : parser st = p) by (unfold parser; by rewrite Erd).
  destruct (sh_open st) eqn:Ho.
  - pose proof (try_send_len INCOMING_QUEUE_DEPTH (sh_incoming st) m Hroom) as Hlen.
    pose proof (try_send_items INCOMING_QUEUE_DEPTH (sh_incoming st) m) as Hit.
    destruct (try_send _ _ _) as [q []]; [|done]. cbn [fst snd] in *. intros [= <-].
    assert (Er : received (os ++ [Silent]) = received os) by (rewrite received_snoc; apply app_nil_r).
    assert (Ep' : parser (mkSsh (sh_link st) (reading_on p ms) q true None) = p) by (by destruct ms).
    split; cbn [sh_link sh_end sh_incoming sh_open]; [|by rewrite He in Hend|done|auto|done| |by intros p1; apply reading_on_some|].
    + destruct Hlr as (acts & Hlr). exists acts. by rewrite accepted_snoc, app_nil_r.
    + by rewrite Ep', <- Epar.
    + exists out. rewrite Er, Ep'. rewrite Epar in Hd. split_and!; [done|done| |done].
      intros _. destruct (Hl eq_refl) as (lost & -> & Hlost). exists lost. split; [|intros _; apply Hlost; congruence].
      unfold coming. cbn [sh_incoming]. rewrite Hit.
      assert (W : waiting (mkSsh (sh_link st) (reading_on p ms) q true None) = ms) by (by destruct ms).
      rewrite W. unfold waiting. rewrite He, Erd, <- !app_assoc. done.
  - intros [= <-]. apply (inv_returned st rs rs os false NobodyReceives); try done.
    intros out'. apply parsed_looped.
Qed.

Lemma inv_recv st rs os st' m :
  ssh_inv st rs os -> recv st = Some (st', m) -> ssh_inv st' rs (os ++ [Received m]).
Proof.
  intros Hi. unfold recv. destruct (sh_open st) eqn:Ho; [|done].
  pose proof Hi as [Hlr Hend Hroom Hw Hg Hb Hms (out & E & Hp & Hl & Hd)].
  destruct (Hl Ho) as (lost & Eout & Hlost).
  assert (Ea : accepted (os ++ [Received m]) = accepted os) by (rewrite accepted_snoc; apply app_nil_r).
  destruct (fifo_pop (sh_incoming st)) as [[m' q]|] eqn:Ep.
  - intros [= <- <-]. pose proof (fifo_len_pop _ _ _ Ep). pose proof (fifo_pop_Some _ _ _ Ep) as Ei.
    split; cbn [sh_link sh_end sh_incoming sh_open]; [by rewrite Ea|done|lia|done|by intros Eg%Hg; congruence|done|done|].
    exists out. rewrite received_snoc. cbn [got].
    assert (Eo : out = (received os ++ [m']) ++ coming (mkSsh (sh_link st) (sh_reader st) q true (sh_end st)) ++ lost).
    { rewrite Eout. unfold coming. rewrite Ei, <- !app_assoc. done. }
    split_and!; [done|rewrite Eo; by apply prefix_app_r|by intros _; exists lost|done].
  - destruct (sh_end st) eqn:Ee; [|done]. intros [= <- <-].
    assert (Er : received (os ++ [Received None]) = received os) by (rewrite received_snoc; apply app_nil_r).
    split; rewrite ?Ea, ?Er, ?Ee; try done. exists out. by split_and!.
Qed.

Lemma inv_drop st rs os : ssh_inv st rs os -> ssh_inv (drop_transport st) rs (os ++ [Silent]).
Proof.
  intros [Hlr Hend Hroom Hw Hg Hb Hms (out & E & Hp & Hl & Hd)].
  assert (Er : received (os ++ [Silent]) = received os) by (rewrite received_snoc; apply app_nil_r).
  assert (Ea : accepted (os ++ [Silent]) = accepted os) by (rewrite accepted_snoc; apply app_nil_r).
  split; cbn; [by rewrite Ea|done|by rewrite fifo_len_new|done|done|done|done|].
  exists out. rewrite Er. by split_and!.
Qed.

Lemma inv_step st rs os a st' o :
  ssh_inv st rs os -> reads_ok (read_of a) -> ssh_step st a = Some (st', o) ->
  ssh_inv st' (rs ++ read_of a) (os ++ [o]).
Proof.
  intros Hi Hr. destruct a as [a|r| | |]; cbn [ssh_step read_of]; rewrite ?app_nil_r.
  - destruct (may_act st a) eqn:Em; [|done]. destruct (link_act st a) as [[st1 ok]|] eqn:El; [|done].
    intros [= <- <-]. by eapply inv_link_act.
  - destruct (read_step st r) as [st1|] eqn:E; [|done]. intros [= <- <-]. eapply inv_read; [done| |done].
    by inversion Hr.
  - destruct (deliver_step st) as [st1|] eqn:E; [|done]. intros [= <- <-]. by eapply inv_deliver.
  - destruct (recv st) as [[st1 m]|] eqn:E; [|done]. intros [= <- <-]. by eapply inv_recv.
  - destruct (sh_open st); [|done]. intros [= <- <-]. by apply inv_drop.
Qed.

Lemma inv_run acts st rs os st' os' :
  ssh_inv st rs os -> reads_ok (reads acts) -> ssh_run st acts os = Some (st', os') ->
  ssh_inv st' (rs ++ reads acts) os'.
Proof.
  revert st rs os. induction acts as [|a acts IH]; intros st rs os Hi Hr E; cbn [ssh_run] in E.
  - injection E as <- <-. by rewrite app_nil_r.
  - destruct (ssh_step st a) as [[st1 o]|] eqn:Es; [|done]. cbn in E.
    change (reads (a :: acts)) with (read_of a ++ reads acts) in *. apply Forall_app in Hr as [Ha Hr].
    rewrite app_assoc. eapply IH; [by eapply inv_step|done|done].
Qed.

(** *** Whole messages *)

Lemma bytes_of_reads (ds : list (list Z)) : bytes_of <$> (ReadOk <$> ds) = ds.
Proof. rewrite <- list_fmap_compose. apply list_fmap_id. Qed.

(** Reads that bring the beginning of the wire of some messages give the first
    of them, and all of the wire all of them. *)
Lemma looped_messages os fss rs out :
  Forall (fun o => fits 16 o.1 /\ out_message_ok o.2) os -> in_pieces os fss -> looped rs out ->
  mjoin (bytes_of <$> rs) `prefix_of` encode_frames (mjoin fss) ->
  exists more, (fun o => as_received o.1 o.2) <$> os = out ++ more /\
    (mjoin (bytes_of <$> rs) = encode_frames (mjoin fss) -> more = []).
Proof.
  intros Hos Hp (rs0 & p & tail & -> & (ds & -> & Hne & Hpush) & Htail).
  rewrite fmap_app, bytes_of_reads, join_app. intros [rest Hw].
  pose proof (in_pieces_bytes _ _ Hos Hp) as Hb. rewrite Hw, <- app_assoc in Hb.
  apply Forall_app in Hb as [Hb1 Hb2]. pose proof (mjoin_bytes_inv _ Hb1) as Hds.
  destruct (drains_messages os fss ∅ Hos Hp (fun s => lookup_empty s)) as (qe & Hsent).
  destruct (push_all_drains ds StreamParser_new [] ltac:(constructor) Hds eq_refl)
    as (ms & q & r & q' & out' & Hd & E & Hr).
  rewrite E in Hpush. injection Hpush as -> -> ->. destruct Hr as [-> <-]. cbn [app] in *.
  assert (Hq : bytes_ok (buf p)) by (eapply drains_bytes_ok; [exact Hd|by apply Forall_app]).
  set (tl := mjoin (bytes_of <$> tail)) in *.
  destruct (push_drains p (tl ++ rest) Hq Hb2) as (more & q2 & r2 & Hd2 & E2).
  pose proof (drains_ext (ext StreamParser_new (mjoin ds)) _ _ _ _ _ _ _ Hb1 Hd Hd2) as Hall.
  rewrite <- ext_app, app_assoc, <- Hw in Hall. destruct (drains_det _ _ _ _ _ _ _ Hsent Hall) as (-> & _ & <-).
  exists more. split; [done|]. intros Heq. rewrite <- Heq, <- (app_nil_r (_ ++ tl)) in Hw at 1.
  apply app_inv_head in Hw as <-. rewrite app_nil_r in *. subst tl.
  assert (Hnil : forall d, d = [] -> drains (ext p d) more q2 None -> more = []).
  { intros d -> Hd'. rewrite ext_nil in Hd'. apply drains_waits in Hd.
    inversion Hd'; [done|congruence]. }
  destruct Htail as [->|(r' & -> & Hs)]; [by apply (Hnil [])|].
  change (mjoin (bytes_of <$> [r'])) with (bytes_of r' ++ []) in *. rewrite app_nil_r in *.
  destruct Hs as [Hs|(p' & e & Hs)]; [by apply (Hnil (bytes_of r'))|]. by rewrite Hs in E2.
Qed.

(** *** Running on *)

(** Nothing the task or its owner waits for is there: at a read, any result is
    dealt with; a message that waits goes into the channel as soon as there is
    room, or the loop ends if nobody receives; [recv] gives the oldest message,
    and once the task has ended and the channel is empty it says so. *)
Definition awake (st : SshTransport) : Prop :=
  match sh_end st, sh_reader st with
  | None, RReading _ => forall r, bytes_ok (bytes_of r) -> is_Some (ssh_step st (ReadReturns r))
  | None, RSending _ _ =>
      sh_open st = false \/ fifo_len (sh_incoming st) < INCOMING_QUEUE_DEPTH -> is_Some (ssh_step st Deliver)
  | Some _, _ => sh_open st = true -> coming st = [] -> ssh_step st Recv = Some (st, Received None)
  end /\
  forall m ms, sh_open st = true -> fifo_items (sh_incoming st) = m :: ms ->
    exists st', ssh_step st Recv = Some (st', Received (Some m)) /\ fifo_items (sh_incoming st') = ms.

Lemma inv_awake st rs os : ssh_inv st rs os -> awake st.
Proof.
  intros [_ _ _ _ _ Hb Hms _]. split.
  - destruct (sh_end st) eqn:He.
    { intros Ho Hc. cbn. unfold recv. rewrite Ho. unfold coming in Hc. apply app_nil in Hc as [Hc _].
      rewrite (proj2 (fifo_pop_None _) Hc), He. done. }
    destruct (sh_reader st) as [p|p ms] eqn:Er.
    + intros r Hr. cbn. unfold read_step. rewrite He, Er. destruct r as [bs|]; [|by eexists].
      destruct (decide _); [by eexists|]. unfold parser in Hb. rewrite Er in Hb.
      destruct (push_drains p bs Hb Hr) as (ms & q & res & _ & ->). destruct res; by eexists.
    + intros Hroom. cbn. unfold deliver_step. rewrite He, Er. destruct ms as [|m ms]; [by destruct (Hms p)|].
      destruct (sh_open st); [|by eexists]. destruct Hroom as [|Hroom]; [done|].
      unfold try_send. rewrite (proj2 (Z.ltb_lt _ _) Hroom). by eexists.
  - intros m ms Ho Hi. cbn. unfold recv. rewrite Ho.
    pose proof (fifo_pop_spec (sh_incoming st)) as Hp. destruct (fifo_pop _) as [[m' q]|]; [|congruence].
    rewrite Hi in Hp. injection Hp as -> ->. by eexists.
Qed.

(** C4. A transport, whatever its owner does with it, however
    the two loops and the owner's calls interleave, and whatever ends it.  If
    what was read is a beginning of the wire of some messages: [recv] has
    given the first of them, in order; at most [INCOMING_QUEUE_DEPTH] wait;
    while the receiver is there, the messages are those given, those waiting
    and the rest, of which only a failed write takes any that were read, and
    there is no rest once all was read; the disconnect notice is up exactly
    when the task has ended; the sending half has run as the [Link] of
    [transport_conserves] under some schedule; and nothing waits for what is
    already there. *)
Theorem transport_serves os fss acts st obs :
  Forall (fun o => fits 16 o.1 /\ out_message_ok o.2) os -> in_pieces os fss ->
  mjoin (bytes_of <$> reads acts) `prefix_of` encode_frames (mjoin fss) ->
  ssh_run SshTransport_new acts [] = Some (st, obs) ->
  let sent := (fun o => as_received o.1 o.2) <$> os in
  received obs `prefix_of` sent /\
  fifo_len (sh_incoming st) <= INCOMING_QUEUE_DEPTH /\
  (sh_open st = true ->
     (disconnect_watch st = true <-> is_Some (sh_end st)) /\
     exists lost rest, sent = received obs ++ coming st ++ lost ++ rest /\
       (sh_end st <> Some WriteEnded -> lost = []) /\
       (mjoin (bytes_of <$> reads acts) = encode_frames (mjoin fss) -> rest = [])) /\
  (exists calls, link_run Link_new calls [] = Some (sh_link st, accepted obs)) /\
  awake st.
Proof.
  intros Hos Hp Hpre Hrun sent.
  assert (Hr : reads_ok (reads acts)).
  { destruct Hpre as [rest Hw]. pose proof (in_pieces_bytes _ _ Hos Hp) as Hb. rewrite Hw in Hb.
    apply Forall_app in Hb as [Hb _]. apply mjoin_bytes_inv in Hb. by rewrite Forall_fmap in Hb. }
  pose proof (inv_run acts _ _ _ _ _ ssh_inv_new Hr Hrun) as Hi. cbn [app] in Hi.
  pose proof (inv_awake _ _ _ Hi) as Haw.
  destruct Hi as [Hl Hend Hroom Hw Hg _ _ (out & Hloop & Hpo & Hopen & _)].
  destruct (looped_messages os fss _ _ Hos Hp Hloop Hpre) as (more & Esent & Hmore).
  split_and!; [|done| |done|done].
  - subst sent. rewrite Esent. by apply prefix_app_r.
  - intros Ho. split.
    + unfold disconnect_watch. destruct Hl as (calls & Hl).
      pose proof (conserved_run _ _ _ _ _ conserved_new Hl) as (_ & Hd & _).
      split; [intros D%Hd; rewrite Hend in D; by apply bool_decide_eq_true in D|].
      intros [e He]. destruct Hw as [Hw|[Hw|Hw%Hg]]; [done|congruence|congruence].
    + destruct (Hopen Ho) as (lost & Eo & Hlost). exists lost, more. split_and!; [|done|done].
      subst sent. by rewrite Esent, Eo, <- !app_assoc.
Qed.
End Ssh.
Arguments SshTransport : clear implicits.

(** *** A short session *)

(** One message in two reads, taken before the end of the file. *)
Definition demo_acts : list ssh_act :=
  [OnLink (SendInput [9]); ReadReturns (ReadOk [3; 0; 2; 2; 1; 0; 0; 0; 6; 0]); OnLink Select;
   ReadReturns (ReadOk [0; 0; 0; 0; 0; 0; 77]); Deliver; OnLink (WriteResult true); Recv;
   ReadReturns (ReadOk []); Recv].

Definition demo_sent : list (Z * out_message) := [(3, mkOutMessage InputEvent_ 0 6 8 [77])].

Lemma transport_serves_witness :
  exists st obs,
    ssh_run (SshTransport_new : SshTransport list) demo_acts [] = Some (st, obs) /\
    let sent := (fun o => as_received o.1 o.2) <$> demo_sent in
    received obs `prefix_of` sent /\
    fifo_len (sh_incoming st) <= INCOMING_QUEUE_DEPTH /\
    (sh_open st = true ->
       (disconnect_watch st = true <-> is_Some (sh_end st)) /\
       exists lost rest, sent = received obs ++ coming st ++ lost ++ rest /\
         (sh_end st <> Some WriteEnded -> lost = []) /\
         (mjoin (bytes_of <$> reads demo_acts) =
            encode_frames (mjoin [[(FrameHeader_new 3 InputEvent_ LAST_CHUNK 1 6, [77])]]) -> rest = [])) /\
    (exists calls, link_run Link_new calls [] = Some (sh_link st, accepted obs)) /\
    awake st.
Proof.
  eexists _, _. split; [vm_compute; reflexivity|].
  apply (transport_serves demo_sent [[(FrameHeader_new 3 InputEvent_ LAST_CHUNK 1 6, [77])]] demo_acts).
  - constructor; [|constructor]. split; [by vm_compute|]. demo_ok.
  - constructor; [|constructor]. by apply (chunks_last 3 InputEvent_ 0 6 8 [77]).
  - by exists [].
  - vm_compute. reflexivity.
Defined.

(** The owner gets the message, and then the end. *)
Example demo_received :
  exists st obs,
    ssh_run (SshTransport_new : SshTransport list) demo_acts [] = Some (st, obs) /\
    obs = [Called (SendInput [9]) true; Silent; Called Select true; Silent; Silent; Called (WriteResult true) true;
           Received (Some (as_received 3 (mkOutMessage InputEvent_ 0 6 8 [77]))); Silent; Received None] /\
    sh_end st = Some ReadEnded /\ written (sh_link st) = [(PInput, [9])].
Proof. eexists _, _. split; [vm_compute; reflexivity|]. by vm_compute. Qed.

(** A write that fails takes a message with it that had arrived whole. *)
Example failed_write_drops_message :
  exists st obs,
    ssh_run (SshTransport_new : SshTransport list)
      [OnLink (SendInput [9]); OnLink Select;
       ReadReturns (ReadOk [3; 0; 2; 2; 1; 0; 0; 0; 6; 0; 0; 0; 0; 0; 0; 0; 77]);
       OnLink (WriteResult false); Recv] [] = Some (st, obs) /\
    received obs = [] /\ coming st = [] /\ sh_end st = Some WriteEnded.
Proof. eexists _, _. split; [vm_compute; reflexivity|]. by vm_compute. Qed.
