(* ===== verification/Delta.v ===== *)
(** XOR delta coding of damage rectangles
    ([crates/remoteway-compress/src/delta.rs]).

    [usize] is 64 bits and wraps; an index or slice out of range is [None].
    The 32-lane vector type of the [wide] crate is a class with the one fact its
    documentation gives about [^]. *)

From S2P Require Import Prelude.

Record DamageRect := mkDamageRect { dr_x : Z; dr_y : Z; dr_width : Z; dr_height : Z }.

#[export] Instance DamageRect_eq_dec : EqDecision DamageRect.
Proof. solve_decision. Defined.

Definition DamageRect_new (x y w h : Z) : DamageRect := mkDamageRect x y w h.

Definition pixel_count (r : DamageRect) : Z := wrap 64 (dr_width r * dr_height r).

(** The row arithmetic every loop of the file repeats: [row_start, row_end]. *)
Definition row_range (stride : Z) (r : DamageRect) (row : Z) : Z * Z :=
  let y := wrap 64 (dr_y r + row) in
  let x_start := wrap 64 (dr_x r * 4) in
  let x_end := wrap 64 (x_start + wrap 64 (dr_width r * 4)) in
  (wrap 64 (wrap 64 (y * stride) + x_start), wrap 64 (wrap 64 (y * stride) + x_end)).

(** [output.extend(cur.iter().zip(prev).map(^))] for each row of each rect; the
    result is the output and the number of bytes written. *)
Definition delta_encode_scalar (current previous : list Z) (stride : Z)
    (regions : list DamageRect) (output : list Z) : option (list Z * Z) :=
  out ← foldM (fun out rect =>
    foldM (fun out row =>
      let '(row_start, row_end) := row_range stride rect row in
      cur ← slice current row_start row_end;
      prev ← slice previous row_start row_end;
      Some (out ++ xor_bytes cur prev)) out (zrange (dr_height rect))) output regions;
  Some (out, zlen out - zlen output).

(** The XOR of two 32-byte vectors. *)
Class U8x32 := {
  u8x32_xor : list Z -> list Z -> list Z;
  u8x32_xor_lanes a b :
    length a = 32%nat -> length b = 32%nat -> u8x32_xor a b = xor_bytes a b
}.

(** [xor_into_vec_simd]; [array_ref!] slices, so it checks its bounds. *)
Definition xor_into_vec_simd `{U8x32} (a b dst : list Z) : option (list Z) :=
  let len := zlen a in
  let chunks := len / 32 in
  let tail := len mod 32 in
  dst ← foldM (fun dst i =>
    let off := i * 32 in
    va ← slice a off (off + 32);
    vb ← slice b off (off + 32);
    Some (dst ++ u8x32_xor va vb)) dst (zrange chunks);
  let tail_off := chunks * 32 in
  foldM (fun dst i =>
    x ← get a (tail_off + i);
    y ← get b (tail_off + i);
    Some (dst ++ [Z.lxor x y])) dst (zrange tail).

Definition delta_encode_simd `{U8x32} (current previous : list Z) (stride : Z)
    (regions : list DamageRect) (output : list Z) : option (list Z * Z) :=
  out ← foldM (fun out rect =>
    foldM (fun out row =>
      let '(row_start, row_end) := row_range stride rect row in
      cur ← slice current row_start row_end;
      prev ← slice previous row_start row_end;
      xor_into_vec_simd cur prev out) out (zrange (dr_height rect))) output regions;
  Some (out, zlen out - zlen output).

(** [delta_decode]: the output buffer and the offset into the delta are the
    loop's state; [copy_from_slice] panics when the lengths differ. *)
Definition delta_decode (delta previous : list Z) (stride : Z)
    (regions : list DamageRect) (output : list Z) : option (list Z) :=
  if decide (zlen output = zlen previous) then
    '(out, _) ← foldM (fun st rect =>
      foldM (fun (st : list Z * Z) row =>
        let '(out, offset) := st in
        let y := wrap 64 (dr_y rect + row) in
        let x_start := wrap 64 (dr_x rect * 4) in
        let x_end := wrap 64 (x_start + wrap 64 (dr_width rect * 4)) in
        let row_start := wrap 64 (wrap 64 (y * stride) + x_start) in
        let row_len := wrap 64 (x_end - x_start) in
        out ← foldM (fun out i =>
          p ← get previous (wrap 64 (row_start + i));
          d ← get delta (wrap 64 (offset + i));
          set out (wrap 64 (row_start + i)) (Z.lxor p d)) out (zrange row_len);
        Some (out, wrap 64 (offset + row_len))) st (zrange (dr_height rect)))
      (previous, 0) regions;
    Some out
  else None.

(** ** Loops over rects and rows as loops over row spans *)

(** A rect whose rows all lie inside a buffer of [n] bytes. *)
Definition rect_ok (stride n : Z) (r : DamageRect) : Prop :=
  0 <= stride /\ n < 2 ^ 63 /\
  fits 32 (dr_x r) /\ fits 32 (dr_y r) /\ fits 32 (dr_width r) /\ fits 32 (dr_height r) /\
  (dr_height r = 0 \/
   (dr_y r + dr_height r - 1) * stride + (dr_x r + dr_width r) * 4 <= n).

#[export] Instance rect_ok_dec stride n r : Decision (rect_ok stride n r).
Proof. unfold rect_ok. apply _. Defined.

(** The span of a row: start and length. *)
Definition row_span (stride : Z) (r : DamageRect) (row : Z) : Z * Z :=
  ((dr_y r + row) * stride + dr_x r * 4, dr_width r * 4).

Definition rect_spans (stride : Z) (r : DamageRect) : list (Z * Z) :=
  row_span stride r <$> zrange (dr_height r).

Definition spans (stride : Z) (rs : list DamageRect) : list (Z * Z) :=
  mjoin (rect_spans stride <$> rs).

Definition span_ok (n : Z) (s : Z * Z) : Prop :=
  0 <= s.1 /\ 0 <= s.2 /\ s.1 + s.2 <= n.

Lemma row_span_ok stride n r row :
  rect_ok stride n r -> 0 <= row < dr_height r ->
  span_ok n (row_span stride r row) /\ (dr_y r + row) * stride <= n.
Proof.
  intros (Hs & Hn & Hx & Hy & Hw & Hh & Hin) Hrow. unfold span_ok, row_span, fits in *. cbn.
  assert ((dr_y r + row) * stride <= (dr_y r + dr_height r - 1) * stride)
    by (apply Z.mul_le_mono_nonneg_r; lia).
  assert (0 <= (dr_y r + row) * stride) by (apply Z.mul_nonneg_nonneg; lia).
  lia.
Qed.

(** Inside the buffer nothing wraps. *)
Lemma row_range_ok stride n r row :
  rect_ok stride n r -> 0 <= row < dr_height r ->
  row_range stride r row =
    ((row_span stride r row).1, (row_span stride r row).1 + (row_span stride r row).2).
Proof.
  intros Hr Hrow. pose proof (row_span_ok _ _ _ _ Hr Hrow) as [(H1 & H2 & H3) H4].
  destruct Hr as (Hs & Hn & Hx & Hy & Hw & Hh & _). unfold row_range, row_span in *. cbn in *.
  assert (0 <= (dr_y r + row) * stride) by (apply Z.mul_nonneg_nonneg; unfold fits in *; lia).
  rewrite (wrap_small 64 (dr_y r + row)) by width_lia.
  rewrite (wrap_small 64 (dr_x r * 4)), (wrap_small 64 (dr_width r * 4)) by width_lia.
  rewrite (wrap_small 64 (dr_x r * 4 + dr_width r * 4)) by width_lia.
  rewrite (wrap_small 64 (_ * stride)) by width_lia.
  rewrite !wrap_small by width_lia. f_equal; lia.
Qed.

Lemma rect_spans_ok stride n r : rect_ok stride n r -> Forall (span_ok n) (rect_spans stride r).
Proof.
  intros Hr. apply list.Forall_forall. intros s Hs.
  apply list_elem_of_fmap in Hs as (row & -> & Hrow). apply elem_of_zrange in Hrow.
  by eapply row_span_ok.
Qed.

Lemma spans_ok stride n rs :
  Forall (rect_ok stride n) rs -> Forall (span_ok n) (spans stride rs).
Proof.
  induction 1 as [|r rs Hr _ IH]; [constructor|].
  change (spans stride (r :: rs)) with (rect_spans stride r ++ spans stride rs).
  apply Forall_app. split; [by apply rect_spans_ok|done].
Qed.

(** A loop over the rows of in-range rects is a loop over their spans. *)
Lemma rows_spans {S} (g : DamageRect -> S -> Z -> option S) (k : S -> Z * Z -> option S)
    stride n rs s :
  Forall (rect_ok stride n) rs ->
  (forall s r row, rect_ok stride n r -> 0 <= row < dr_height r ->
     g r s row = k s (row_span stride r row)) ->
  foldM (fun s r => foldM (g r) s (zrange (dr_height r))) s rs = foldM k s (spans stride rs).
Proof.
  intros Hok Hg. revert s. induction Hok as [|r rs Hr _ IH]; intros s; [done|].
  change (spans stride (r :: rs)) with (rect_spans stride r ++ spans stride rs).
  rewrite foldM_app. cbn [foldM]. unfold rect_spans. rewrite foldM_fmap.
  rewrite (foldM_ext (g r) (fun s row => k s (row_span stride r row))).
  - destruct (foldM _ s _); cbn; [apply IH|done].
  - intros s' row Hrow. apply Hg; [done|]. by apply elem_of_zrange.
Qed.

(** ** Encoding *)

(** The delta of a span, and of all spans in order. *)
Definition span_delta (cur prev : list Z) (s : Z * Z) : list Z :=
  let seg (l : list Z) := take (Z.to_nat s.2) (drop (Z.to_nat s.1) l) in
  xor_bytes (seg cur) (seg prev).

Definition spans_delta (cur prev : list Z) (ss : list (Z * Z)) : list Z :=
  mjoin (span_delta cur prev <$> ss).

Lemma spans_delta_cons cur prev s ss :
  spans_delta cur prev (s :: ss) = span_delta cur prev s ++ spans_delta cur prev ss.
Proof. done. Qed.

Lemma span_delta_zlen cur prev s :
  span_ok (zlen cur) s -> zlen prev = zlen cur -> zlen (span_delta cur prev s) = s.2.
Proof.
  intros (H1 & H2 & H3) E. unfold span_delta, zlen in *.
  rewrite xor_bytes_length; rewrite !length_take, !length_drop; lia.
Qed.

Lemma slice_span {A} (l : list A) s :
  span_ok (zlen l) s ->
  slice l s.1 (s.1 + s.2) = Some (take (Z.to_nat s.2) (drop (Z.to_nat s.1) l)).
Proof.
  intros (H1 & H2 & H3). rewrite slice_ok by lia. by rewrite Z.add_simpl_l.
Qed.

Lemma emit_spans cur prev ss out :
  Forall (span_ok (zlen cur)) ss -> zlen prev = zlen cur ->
  foldM (fun out s =>
    c ← slice cur s.1 (s.1 + s.2); p ← slice prev s.1 (s.1 + s.2);
    Some (out ++ xor_bytes c p)) out ss = Some (out ++ spans_delta cur prev ss).
Proof.
  intros Hok E. revert out. induction Hok as [|s ss Hs _ IH]; intros out.
  { cbn. by rewrite app_nil_r. }
  cbn [foldM]. rewrite !slice_span by (rewrite ?E; done). cbn [mbind option_bind].
  rewrite IH, spans_delta_cons. by rewrite <- app_assoc.
Qed.

(** On rects inside the frame the encoder appends the delta of their spans. *)
Lemma delta_encode_scalar_ok cur prev stride rs out :
  Forall (rect_ok stride (zlen cur)) rs -> zlen prev = zlen cur ->
  delta_encode_scalar cur prev stride rs out =
    Some (out ++ spans_delta cur prev (spans stride rs),
          zlen (spans_delta cur prev (spans stride rs))).
Proof.
  intros Hok E. unfold delta_encode_scalar.
  rewrite (rows_spans _ (fun out s =>
    c ← slice cur s.1 (s.1 + s.2); p ← slice prev s.1 (s.1 + s.2);
    Some (out ++ xor_bytes c p)) stride (zlen cur)); [|done|].
  - rewrite emit_spans by (done || by apply spans_ok). cbn. rewrite zlen_app. do 2 f_equal. lia.
  - intros s r row Hr Hrow. by rewrite (row_range_ok _ (zlen cur)).
Qed.

Lemma spans_delta_zlen cur prev ss :
  Forall (span_ok (zlen cur)) ss -> zlen prev = zlen cur ->
  zlen (spans_delta cur prev ss) = foldr Z.add 0 (snd <$> ss).
Proof.
  intros Hok E. induction Hok as [|s ss Hs _ IH]; [done|].
  rewrite spans_delta_cons, zlen_app, IH, span_delta_zlen by done. done.
Qed.

(** ** The vectorised encoder *)

Lemma slice_take {A} (l : list A) n : 0 <= n <= zlen l -> slice l 0 n = Some (take (Z.to_nat n) l).
Proof. intros H. rewrite slice_ok by lia. by rewrite Z.sub_0_r. Qed.

Lemma take_grow {A} (l : list A) a b s :
  slice l a b = Some s -> take (Z.to_nat b) l = take (Z.to_nat a) l ++ s.
Proof.
  intros E. apply slice_inv in E as (?&?&?&->&_).
  replace (Z.to_nat b) with (Z.to_nat a + Z.to_nat (b - a))%nat by lia.
  by rewrite take_take_drop.
Qed.

Lemma xor_take a b n :
  xor_bytes (take n a) (take n b) = take n (xor_bytes a b).
Proof. unfold xor_bytes. by rewrite zip_with_take. Qed.

Section Simd.
Context `{U8x32}.

(** 32 lanes at a time and then the tail: the same bytes. *)
Lemma xor_into_vec_simd_spec a b dst :
  length a = length b -> xor_into_vec_simd a b dst = Some (dst ++ xor_bytes a b).
Proof.
  intros Hab. unfold xor_into_vec_simd.
  set (q := zlen a / 32). set (r := zlen a mod 32).
  assert (Hqr : zlen a = 32 * q + r /\ 0 <= r < 32 /\ 0 <= q).
  { unfold q, r. pose proof (zlen_nonneg a). pose proof (Z_div_mod_eq_full (zlen a) 32).
    pose proof (Z.mod_pos_bound (zlen a) 32 ltac:(lia)).
    pose proof (Z.div_pos (zlen a) 32 ltac:(lia) ltac:(lia)). lia. }
  clearbody q r. destruct Hqr as (E & Hr & Hq).
  assert (L : zlen b = zlen a) by (unfold zlen; lia).
  assert (Chunks : forall k, 0 <= k <= q ->
    foldM (fun dst i => va ← slice a (i * 32) (i * 32 + 32); vb ← slice b (i * 32) (i * 32 + 32);
                        Some (dst ++ u8x32_xor va vb)) dst (zrange k)
    = Some (dst ++ take (Z.to_nat (k * 32)) (xor_bytes a b))).
  { intros k Hk. replace k with (Z.of_nat (Z.to_nat k)) in * by lia.
    induction (Z.to_nat k) as [|j IH]; [by rewrite app_nil_r|].
    rewrite Nat2Z.inj_succ, <- Z.add_1_r, zrange_succ by lia.
    rewrite foldM_app, IH by lia. cbn [foldM mbind option_bind].
    destruct (slice a (Z.of_nat j * 32) _) as [va|] eqn:Ea;
      [|rewrite slice_ok in Ea by lia; done].
    destruct (slice b (Z.of_nat j * 32) _) as [vb|] eqn:Eb;
      [|rewrite slice_ok in Eb by lia; done].
    cbn. pose proof (slice_length _ _ _ _ Ea). pose proof (slice_length _ _ _ _ Eb).
    rewrite u8x32_xor_lanes by lia. rewrite <- app_assoc. do 2 f_equal.
    replace ((Z.of_nat j + 1) * 32) with (Z.of_nat j * 32 + 32) by lia.
    rewrite <- !xor_take.
    rewrite (take_grow a _ _ _ Ea), (take_grow b _ _ _ Eb).
    rewrite xor_bytes_app; [done|]. rewrite !length_take. lia. }
  rewrite Chunks by lia. cbn [mbind option_bind].
  assert (Tail : forall k, 0 <= k <= r ->
    foldM (fun dst i => x ← get a (q * 32 + i); y ← get b (q * 32 + i);
                        Some (dst ++ [Z.lxor x y]))
      (dst ++ take (Z.to_nat (q * 32)) (xor_bytes a b)) (zrange k)
    = Some (dst ++ take (Z.to_nat (q * 32 + k)) (xor_bytes a b))).
  { intros k Hk. replace k with (Z.of_nat (Z.to_nat k)) in * by lia.
    induction (Z.to_nat k) as [|j IH]; [by rewrite Z.add_0_r|].
    rewrite Nat2Z.inj_succ, <- Z.add_1_r, zrange_succ by lia.
    rewrite foldM_app, IH by lia. cbn [foldM mbind option_bind].
    destruct (get_Some a (q * 32 + Z.of_nat j)) as [x Ex]; [lia|].
    destruct (get_Some b (q * 32 + Z.of_nat j)) as [y Ey]; [lia|].
    rewrite Ex, Ey. cbn. rewrite <- app_assoc. do 2 f_equal.
    unfold get in Ex, Ey. rewrite decide_True in Ex, Ey by lia.
    replace (Z.to_nat (q * 32 + (Z.of_nat j + 1)))
      with (S (Z.to_nat (q * 32 + Z.of_nat j))) by lia.
    symmetry. apply take_S_r. by apply xor_bytes_lookup. }
  rewrite Tail by lia. do 2 f_equal. apply firstn_all2.
  rewrite xor_bytes_length by done. unfold zlen in E. lia.
Qed.

Lemma delta_simd_eq current previous stride regions output :
  delta_encode_simd current previous stride regions output =
  delta_encode_scalar current previous stride regions output.
Proof.
  unfold delta_encode_simd, delta_encode_scalar. f_equal.
  apply foldM_ext. intros out r _. apply foldM_ext. intros out' row _.
  destruct (row_range stride r row) as [a b].
  destruct (slice current a b) as [c|] eqn:Ec; [|done].
  destruct (slice previous a b) as [p|] eqn:Ep; [|done]. cbn.
  apply xor_into_vec_simd_spec. by eapply slice_same_length.
Qed.

(** C16. The vectorised encoder is the scalar encoder, on
    every input: the same bytes and count where the scalar one returns, a panic
    exactly where it panics. *)
Theorem delta_simd_scalar current previous stride regions output :
  delta_encode_simd current previous stride regions output =
  delta_encode_scalar current previous stride regions output.
Proof. apply delta_simd_eq. Qed.
End Simd.

(** ** Decoding *)

(** Byte [k] lies in one of the spans. *)
Definition covered (ss : list (Z * Z)) (k : Z) : bool :=
  existsb (fun s => (s.1 <=? k) && (k <? s.1 + s.2)) ss.

(** What a decoded frame must be: the current frame inside the damage, the
    previous frame elsewhere. *)
Definition reconstructs (cur prev : list Z) (ss : list (Z * Z)) (out : list Z) : Prop :=
  length out = length prev /\
  forall k : nat, out !! k = if covered ss (Z.of_nat k) then cur !! k else prev !! k.

(** The inner loop on one span. *)
Definition decode_span (delta previous : list Z) (st : list Z * Z) (s : Z * Z)
    : option (list Z * Z) :=
  out ← foldM (fun out i =>
    p ← get previous (wrap 64 (s.1 + i));
    d ← get delta (wrap 64 (st.2 + i));
    set out (wrap 64 (s.1 + i)) (Z.lxor p d)) st.1 (zrange s.2);
  Some (out, wrap 64 (st.2 + s.2)).

Lemma delta_decode_spans delta previous stride rs output :
  Forall (rect_ok stride (zlen previous)) rs -> zlen output = zlen previous ->
  delta_decode delta previous stride rs output =
    fst <$> foldM (decode_span delta previous) (previous, 0) (spans stride rs).
Proof.
  intros Hok E. unfold delta_decode. rewrite decide_True by done.
  rewrite (rows_spans _ (decode_span delta previous) stride (zlen previous)); [|done|].
  - by destruct (foldM _ _ _) as [[? ?]|].
  - intros [out off] r row Hr Hrow. unfold decode_span. cbn [fst snd].
    pose proof (row_range_ok _ _ _ _ Hr Hrow) as E2. unfold row_range in E2.
    pose proof Hr as (_ & _ & Hx & _ & Hw & _).
    injection E2 as E2 _. rewrite E2.
    assert (E3 : wrap 64 (wrap 64 (wrap 64 (dr_x r * 4) + wrap 64 (dr_width r * 4))
                  - wrap 64 (dr_x r * 4)) = (row_span stride r row).2).
    { cbn. rewrite (wrap_small 64 (dr_x r * 4)), (wrap_small 64 (dr_width r * 4)) by width_lia.
      rewrite (wrap_small 64 (dr_x r * 4 + _)) by width_lia.
      rewrite wrap_small by width_lia. lia. }
    rewrite E3. done.
Qed.

Lemma lookup_get {A} (l : list A) i : 0 <= i -> get l i = l !! Z.to_nat i.
Proof. intros H. unfold get. by rewrite decide_True. Qed.

(** One span: in range, it writes the bytes of the span and no others. *)
Lemma decode_span_spec delta prev out off s :
  span_ok (zlen prev) s -> zlen out = zlen prev -> zlen prev < 2 ^ 63 ->
  0 <= off -> off + s.2 <= zlen delta -> zlen delta < 2 ^ 63 ->
  exists out', decode_span delta prev (out, off) s = Some (out', off + s.2) /\
    zlen out' = zlen prev /\
    forall k : nat, out' !! k =
      if (s.1 <=? Z.of_nat k) && (Z.of_nat k <? s.1 + s.2)
      then p ← prev !! k; d ← delta !! Z.to_nat (off + Z.of_nat k - s.1); Some (Z.lxor p d)
      else out !! k.
Proof.
  intros (H1 & H2 & H3) Ho Hp Hoff Hd Hdl. unfold decode_span. cbn [fst snd].
  assert (G : forall n, 0 <= n <= s.2 -> exists out',
    foldM (fun out i => p ← get prev (wrap 64 (s.1 + i)); d ← get delta (wrap 64 (off + i));
                        set out (wrap 64 (s.1 + i)) (Z.lxor p d)) out (zrange n) = Some out' /\
    zlen out' = zlen prev /\
    forall k : nat, out' !! k =
      if (s.1 <=? Z.of_nat k) && (Z.of_nat k <? s.1 + n)
      then p ← prev !! k; d ← delta !! Z.to_nat (off + Z.of_nat k - s.1); Some (Z.lxor p d)
      else out !! k).
  { intros n Hn. replace n with (Z.of_nat (Z.to_nat n)) in * by lia.
    induction (Z.to_nat n) as [|j IH].
    { exists out. split_and!; [done|done|]. intros k.
      destruct (Z.leb_spec s.1 (Z.of_nat k)), (Z.ltb_spec (Z.of_nat k) (s.1 + Z.of_nat 0)); try done; lia. }
    destruct IH as (o & Ef & Lo & Hk); [lia|].
    rewrite Nat2Z.inj_succ, <- Z.add_1_r, zrange_succ by lia.
    rewrite foldM_app, Ef. cbn [foldM mbind option_bind].
    rewrite !wrap_small by width_lia.
    destruct (get_Some prev (s.1 + Z.of_nat j)) as [p Ep]; [lia|].
    destruct (get_Some delta (off + Z.of_nat j)) as [d Ed]; [lia|].
    rewrite Ep, Ed. cbn. rewrite set_ok by lia. cbn. eexists. split; [done|]. split.
    { unfold zlen in *. by rewrite length_insert. }
    intros k. rewrite lookup_get in Ep, Ed by lia.
    destruct (decide (k = Z.to_nat (s.1 + Z.of_nat j))) as [->|Hne].
    - rewrite list_lookup_insert_eq by (unfold zlen in *; lia).
      rewrite Z2Nat.id by lia.
      destruct (Z.leb_spec s.1 (s.1 + Z.of_nat j)), (Z.ltb_spec (s.1 + Z.of_nat j) (s.1 + (Z.of_nat j + 1)));
        try lia. cbn. rewrite Ep. cbn.
      replace (off + (s.1 + Z.of_nat j) - s.1) with (off + Z.of_nat j) by lia. by rewrite Ed.
    - rewrite list_lookup_insert_ne, Hk by done.
      destruct (Z.leb_spec s.1 (Z.of_nat k)), (Z.ltb_spec (Z.of_nat k) (s.1 + Z.of_nat j)),
        (Z.ltb_spec (Z.of_nat k) (s.1 + (Z.of_nat j + 1))); try done; lia. }
  destruct (G s.2) as (out' & Ef & Lo & Hk); [lia|].
  exists out'. rewrite Ef. cbn. rewrite wrap_small by width_lia. done.
Qed.

Lemma span_delta_lookup cur prev s (i : nat) c p :
  Z.of_nat i < s.2 -> 0 <= s.1 ->
  cur !! (Z.to_nat s.1 + i)%nat = Some c -> prev !! (Z.to_nat s.1 + i)%nat = Some p ->
  span_delta cur prev s !! i = Some (Z.lxor c p).
Proof.
  intros Hi Hs Hc Hp. unfold span_delta. apply xor_bytes_lookup;
    by rewrite lookup_take_lt, lookup_drop by lia.
Qed.

Lemma spans_delta_app cur prev s1 s2 :
  spans_delta cur prev (s1 ++ s2) = spans_delta cur prev s1 ++ spans_delta cur prev s2.
Proof. unfold spans_delta. by rewrite fmap_app, join_app. Qed.

(** Decoding the spans of the encoder's output, extra bytes allowed. *)
Lemma decode_spans_spec cur prev ss extra :
  Forall (span_ok (zlen prev)) ss -> zlen cur = zlen prev -> zlen prev < 2 ^ 63 ->
  zlen (spans_delta cur prev ss ++ extra) < 2 ^ 63 ->
  exists out off,
    foldM (decode_span (spans_delta cur prev ss ++ extra) prev) (prev, 0) ss = Some (out, off) /\
    reconstructs cur prev ss out.
Proof.
  intros Hok E Hp Hd.
  destruct (foldM_ind (fun done_ (st : list Z * Z) =>
     reconstructs cur prev done_ st.1 /\ st.2 = zlen (spans_delta cur prev done_))
     (decode_span (spans_delta cur prev ss ++ extra) prev) (prev, 0) ss) as ([out off] & Ef & Hr & _).
  - by split.
  - intros done_ s rest [out off] -> [(Lo & Hk) Eo]. cbn [fst snd] in *.
    apply Forall_app in Hok as [_ Hs]. inversion Hs as [|? ? Hspan _]; subst.
    rewrite spans_delta_app, spans_delta_cons in *.
    pose proof (span_delta_zlen cur prev s ltac:(by rewrite E) ltac:(done)) as Ls.
    destruct (decode_span_spec
      ((spans_delta cur prev done_ ++ span_delta cur prev s ++ spans_delta cur prev rest) ++ extra)
      prev out (zlen (spans_delta cur prev done_)) s) as (out' & Ed & Lo' & Hk'); try done.
    + unfold zlen. lia.
    + apply zlen_nonneg.
    + rewrite !zlen_app, Ls. pose proof (zlen_nonneg (spans_delta cur prev rest)).
      pose proof (zlen_nonneg extra). lia.
    + exists (out', zlen (spans_delta cur prev done_) + s.2). split; [done|].
      split; [|cbn [snd]; rewrite spans_delta_app, spans_delta_cons, !zlen_app, Ls;
        change (spans_delta cur prev []) with (@nil Z); rewrite zlen_nil; lia].
      split; [cbn; unfold zlen in Lo'; lia|]. cbn [fst]. intros k. rewrite Hk'.
      unfold covered in *. rewrite existsb_app. cbn [existsb]. rewrite orb_false_r.
      destruct (Z.leb_spec s.1 (Z.of_nat k)), (Z.ltb_spec (Z.of_nat k) (s.1 + s.2));
        cbn [andb]; rewrite ?orb_false_r; try apply Hk. rewrite orb_true_r.
      destruct Hspan as (? & ? & ?).
      destruct (lookup_lt_is_Some_2 prev k) as [p Ep]; [unfold zlen in *; lia|].
      destruct (lookup_lt_is_Some_2 cur k) as [c Ec]; [unfold zlen in *; lia|].
      rewrite Ep. cbn [mbind option_bind].
      replace (Z.to_nat (zlen (spans_delta cur prev done_) + Z.of_nat k - s.1))
        with (length (spans_delta cur prev done_) + (k - Z.to_nat s.1))%nat by (unfold zlen; lia).
      rewrite <- app_assoc, lookup_app_r by lia. rewrite Nat.add_comm, Nat.add_sub.
      rewrite <- app_assoc, lookup_app_l by (unfold zlen in *; lia).
      rewrite (span_delta_lookup cur prev s _ c p);
        [by cbn; rewrite lxor_cancel|lia|lia| |];
        by replace (Z.to_nat s.1 + (k - Z.to_nat s.1))%nat with k by lia.
  - by exists out, off.
Qed.

Lemma delta_roundtrip_gen cur prev stride rs output :
  Forall (rect_ok stride (zlen cur)) rs -> zlen prev = zlen cur -> zlen output = zlen prev ->
  zlen cur < 2 ^ 63 -> zlen (spans_delta cur prev (spans stride rs)) < 2 ^ 63 ->
  exists out,
    delta_decode (spans_delta cur prev (spans stride rs)) prev stride rs output = Some out /\
    reconstructs cur prev (spans stride rs) out.
Proof.
  intros Hok E Eo Hn Hd. rewrite delta_decode_spans by (done || by rewrite E).
  destruct (decode_spans_spec cur prev (spans stride rs) []) as (out & off & Ef & Hr);
    rewrite ?app_nil_r in *; try done.
  - apply spans_ok. by rewrite E.
  - by rewrite E.
  - exists out. rewrite Ef. done.
Qed.

(** C15. Decoding what the encoder produced restores the frame:
    for rects inside the frame, overlapping or not, neither side panics, and the
    decoded frame is the current frame on every damaged byte and the previous one
    everywhere else, whatever the output buffer held. *)
Theorem delta_roundtrip cur prev stride rs scratch output :
  Forall (rect_ok stride (zlen cur)) rs -> zlen prev = zlen cur -> zlen output = zlen prev ->
  zlen cur < 2 ^ 63 -> zlen (spans_delta cur prev (spans stride rs)) < 2 ^ 63 ->
  exists delta n out,
    delta_encode_scalar cur prev stride rs scratch = Some (scratch ++ delta, n) /\
    n = zlen delta /\
    delta_decode delta prev stride rs output = Some out /\
    reconstructs cur prev (spans stride rs) out.
Proof.
  intros Hok E Eo Hn Hd. rewrite delta_encode_scalar_ok by done.
  destruct (delta_roundtrip_gen cur prev stride rs output) as (out & Ed & Hr); try done.
  exists (spans_delta cur prev (spans stride rs)), (zlen (spans_delta cur prev (spans stride rs))).
  by exists out.
Qed.

Lemma delta_roundtrip_witness :
  exists delta n out,
    delta_encode_scalar (zrange 32) (replicate 32 7) 16
      [mkDamageRect 1 0 2 2; mkDamageRect 2 1 2 1] [200] = Some ([200] ++ delta, n) /\
    n = zlen delta /\
    delta_decode delta (replicate 32 7) 16
      [mkDamageRect 1 0 2 2; mkDamageRect 2 1 2 1] (replicate 32 0) = Some out /\
    reconstructs (zrange 32) (replicate 32 7)
      (spans 16 [mkDamageRect 1 0 2 2; mkDamageRect 2 1 2 1]) out.
Proof.
  apply (delta_roundtrip (zrange 32) (replicate 32 7) 16
    [mkDamageRect 1 0 2 2; mkDamageRect 2 1 2 1] [200] (replicate 32 0)).
  - apply (bool_decide_unpack _). vm_compute. exact I.
  - reflexivity.
  - reflexivity.
  - reflexivity.
  - vm_compute. reflexivity.
Defined.
