(* ===== verification/Compress.v ===== *)
(** The compression pipeline
    ([crates/remoteway-compress/src/{compressor,lz4,pipeline,stats}.rs]).

    The LZ4 and zstd codecs are third-party: [Codecs] names their four entry
    points and [CodecLaws] the documented fact the program relies on, that what
    one side compresses the other restores.  [par_iter().map().collect()] is a
    map: rayon keeps the order.  Durations are nanoseconds; the readings of the
    stage timers are arguments. *)

From S2P Require Import Prelude Delta.

Class Codecs := {
  Lz4Error : Type;
  IoError : Type;
  compress_prepend_size : list Z -> list Z;
  decompress_size_prepended : list Z -> list Z + Lz4Error;
  zstd_encode_all : list Z -> list Z + IoError;
  zstd_decode_all : list Z -> list Z + IoError
}.

(** LZ4 prepends the size as a [u32].  The size bounds are looser than either
    codec's documented worst case. *)
Class CodecLaws `{Codecs} := {
  lz4_roundtrip d :
    bytes_ok d -> zlen d < 2 ^ 32 -> decompress_size_prepended (compress_prepend_size d) = inl d;
  lz4_bytes d : bytes_ok (compress_prepend_size d);
  lz4_size d : zlen (compress_prepend_size d) <= 512 + 2 * zlen d;
  zstd_roundtrip d c :
    bytes_ok d -> zstd_encode_all d = inl c -> zstd_decode_all c = inl d /\ bytes_ok c;
  zstd_size d c : zstd_encode_all d = inl c -> zlen c <= 512 + 2 * zlen d
}.

(** ** [stats.rs] *)

Record FrameStats := mkFrameStats {
  original_bytes : Z; compressed_bytes : Z; encode_time : Z; compress_time : Z }.

Definition FrameStats_default : FrameStats := mkFrameStats 0 0 0 0.

(** [Duration + Duration] panics past [u64::MAX] seconds. *)
Definition duration_add (a b : Z) : option Z :=
  if decide (a + b < 2 ^ 64 * 10 ^ 9) then Some (a + b) else None.

Definition total_time (s : FrameStats) : option Z := duration_add (encode_time s) (compress_time s).

Record CompressionStats := mkCompressionStats {
  frame_count : Z; total_original : Z; total_compressed : Z;
  total_encode_time : Z; total_compress_time : Z }.

Definition CompressionStats_default : CompressionStats := mkCompressionStats 0 0 0 0 0.

Definition record (s : CompressionStats) (f : FrameStats) : option CompressionStats :=
  e ← duration_add (total_encode_time s) (encode_time f);
  c ← duration_add (total_compress_time s) (compress_time f);
  Some (mkCompressionStats (wrap 64 (frame_count s + 1))
          (wrap 64 (total_original s + original_bytes f))
          (wrap 64 (total_compressed s + compressed_bytes f)) e c).

(** ** [compressor.rs] and [lz4.rs] *)

Inductive CompressorKind := KNone | KLz4 | KZstd.

#[export] Instance CompressorKind_eq_dec : EqDecision CompressorKind.
Proof. solve_decision. Defined.

Definition CompressorKind_default : CompressorKind := KLz4.

Section Codec.
Context `{Codecs}.

Inductive CompressorError := ELz4 (e : Lz4Error) | EZstd (e : IoError).

Definition compress_region (d : list Z) : list Z := compress_prepend_size d.
Definition decompress_region (d : list Z) : list Z + Lz4Error := decompress_size_prepended d.

Definition compress (k : CompressorKind) (d : list Z) : list Z + CompressorError :=
  match k with
  | KNone => inl d
  | KLz4 => inl (compress_region d)
  | KZstd => match zstd_encode_all d with inl c => inl c | inr e => inr (EZstd e) end
  end.

Definition decompress (k : CompressorKind) (d : list Z) : list Z + CompressorError :=
  match k with
  | KNone => inl d
  | KLz4 => match decompress_region d with inl b => inl b | inr e => inr (ELz4 e) end
  | KZstd => match zstd_decode_all d with inl b => inl b | inr e => inr (EZstd e) end
  end.

(** [delta_encode_region]: one rect, with its own row arithmetic. *)
Definition delta_encode_region (current previous : list Z) (rect : DamageRect) (stride : Z)
    : option (list Z) :=
  let row_bytes := wrap 64 (dr_width rect * 4) in
  foldM (fun out row =>
    let y := wrap 64 (dr_y rect + row) in
    let x_start := wrap 64 (dr_x rect * 4) in
    let row_start := wrap 64 (wrap 64 (y * stride) + x_start) in
    let row_end := wrap 64 (row_start + row_bytes) in
    c ← slice current row_start row_end;
    p ← slice previous row_start row_end;
    Some (out ++ xor_bytes c p)) [] (zrange (dr_height rect)).

Definition compress_regions_parallel (current previous : list Z) (regions : list DamageRect)
    (stride : Z) : option (list (list Z)) :=
  deltas ← mapM (fun rect => delta_encode_region current previous rect stride) regions;
  Some (compress_region <$> deltas).

(** ** [pipeline.rs] *)

Record CompressedFrame := mkCompressedFrame {
  cf_data : list Z; region_offsets : list Z; region_sizes : list Z; cf_stats : FrameStats }.

Definition CompressedFrame_default : CompressedFrame :=
  mkCompressedFrame [] [] [] FrameStats_default.

(** [CompressedFrame::reset]. *)
Definition reset (_ : CompressedFrame) : CompressedFrame := CompressedFrame_default.

Definition region_len (rect : DamageRect) : Z :=
  wrap 64 (wrap 64 (dr_width rect * 4) * dr_height rect).

(** The slices of the delta, one per region. *)
Definition region_slices (delta : list Z) (regions : list DamageRect)
    : option (list (list Z) * Z) :=
  foldM (fun '(slices, off) rect =>
    s ← slice delta off (wrap 64 (off + region_len rect));
    Some (slices ++ [s], wrap 64 (off + region_len rect))) ([], 0) regions.

(** [unwrap_or_default]. *)
Definition compress_or_empty (k : CompressorKind) (d : list Z) : list Z :=
  match compress k d with inl b => b | inr _ => [] end.

Definition stitch (out : CompressedFrame) (blobs : list (list Z)) : CompressedFrame :=
  foldl (fun out blob =>
    mkCompressedFrame (cf_data out ++ blob) (region_offsets out ++ [zlen (cf_data out)])
      (region_sizes out ++ [zlen blob]) (cf_stats out)) out blobs.

(** [compress_frame_into]: the scratch and output buffers after the call. *)
Definition compress_frame_into `{U8x32} (current previous : list Z) (stride : Z)
    (regions : list DamageRect) (delta_scratch : list Z) (out : CompressedFrame)
    (kind : CompressorKind) (encode_t compress_t : Z) : option (list Z * CompressedFrame) :=
  let out := reset out in
  let delta_scratch := [] in
  '(delta_scratch, original) ← delta_encode_simd current previous stride regions delta_scratch;
  '(slices, _) ← region_slices delta_scratch regions;
  let blobs := compress_or_empty kind <$> slices in
  let out := stitch out blobs in
  Some (delta_scratch,
        mkCompressedFrame (cf_data out) (region_offsets out) (region_sizes out)
          (mkFrameStats original (zlen (cf_data out)) encode_t compress_t)).

Definition compress_frame `{U8x32} (current previous : list Z) (stride : Z)
    (regions : list DamageRect) (encode_t compress_t : Z) : option CompressedFrame :=
  snd <$> compress_frame_into current previous stride regions [] CompressedFrame_default
            CompressorKind_default encode_t compress_t.

(** The blob of each region: indexed and sliced, so it may panic. *)
Definition region_blobs (c : CompressedFrame) (regions : list DamageRect)
    : option (list (list Z)) :=
  mapM (fun i =>
    start ← get (region_offsets c) i;
    size ← get (region_sizes c) i;
    slice (cf_data c) start (wrap 64 (start + size))) (zrange (zlen regions)).

Fixpoint flatten_decoded (rs : list (list Z + CompressorError)) (scratch : list Z)
    : run CompressorError (list Z) :=
  match rs with
  | [] => Ret scratch
  | inl b :: rs => flatten_decoded rs (scratch ++ b)
  | inr e :: _ => Fail e
  end.

(** [decompress_frame_into]: the scratch and output buffers after [Ok]. *)
Definition decompress_frame_into (c : CompressedFrame) (previous : list Z) (stride : Z)
    (regions : list DamageRect) (delta_scratch output : list Z) (kind : CompressorKind)
    : run CompressorError (list Z * list Z) :=
  let output := resize_vec (zlen previous) 0 output in
  blobs ← or_panic (region_blobs c regions);
  delta_scratch ← flatten_decoded (decompress kind <$> blobs) [];
  output ← or_panic (delta_decode delta_scratch previous stride regions output);
  Ret (delta_scratch, output).

Definition decompress_frame (c : CompressedFrame) (previous : list Z) (stride : Z)
    (regions : list DamageRect) (output : list Z) : run CompressorError (list Z) :=
  '(_, out) ← decompress_frame_into c previous stride regions [] output CompressorKind_default;
  Ret out.
End Codec.

(** ** The layout of a compressed frame *)

Fixpoint offsets_from (off : Z) (sizes : list Z) : list Z :=
  match sizes with [] => [] | s :: sizes => off :: offsets_from (off + s) sizes end.

Lemma offsets_from_length off sizes : length (offsets_from off sizes) = length sizes.
Proof. revert off. induction sizes as [|s sizes IH]; intros off; cbn; [done|]. by rewrite IH. Qed.

Lemma zlen_mjoin_cons {A} (b : list A) bs : zlen (mjoin (b :: bs)) = zlen b + zlen (mjoin bs).
Proof. change (mjoin (b :: bs)) with (b ++ mjoin bs). apply zlen_app. Qed.

Lemma offsets_from_lookup {A} off (bs : list (list A)) i :
  (i < length bs)%nat ->
  offsets_from off (zlen <$> bs) !! i = Some (off + zlen (mjoin (take i bs))).
Proof.
  revert off i. induction bs as [|b bs IH]; intros off i Hi; cbn in Hi; [lia|].
  destruct i as [|i]; [cbn; by rewrite Z.add_0_r|].
  cbn [fmap list_fmap offsets_from lookup list_lookup take]. rewrite IH by lia.
  rewrite zlen_mjoin_cons. f_equal. lia.
Qed.

Section Layout.
Context `{Codecs}.

(** A frame whose regions are the given blobs, stored end to end. *)
Definition holds_blobs (c : CompressedFrame) (blobs : list (list Z)) : Prop :=
  region_sizes c = zlen <$> blobs /\
  region_offsets c = offsets_from 0 (zlen <$> blobs) /\
  exists extra, cf_data c = mjoin blobs ++ extra.

Lemma stitch_spec c blobs :
  stitch c blobs =
    mkCompressedFrame (cf_data c ++ mjoin blobs)
      (region_offsets c ++ offsets_from (zlen (cf_data c)) (zlen <$> blobs))
      (region_sizes c ++ (zlen <$> blobs)) (cf_stats c).
Proof.
  revert c. induction blobs as [|b blobs IH]; intros c.
  { destruct c. cbn. by rewrite !app_nil_r. }
  cbn [stitch foldl]. unfold stitch in IH. rewrite IH. cbn.
  by rewrite zlen_app, <- !app_assoc.
Qed.

Lemma mapM_zrange {A} (f : Z -> option A) l :
  (forall i : nat, (i < length l)%nat -> f (Z.of_nat i) = l !! i) ->
  mapM f (zrange (zlen l)) = Some l.
Proof.
  intros Hf. apply mapM_Some. apply Forall2_same_length_lookup_2.
  { rewrite zrange_length. unfold zlen. lia. }
  intros i x y Hx Hy. pose proof (lookup_lt_Some _ _ _ Hy) as Hi.
  rewrite zrange_lookup in Hx by (unfold zlen; lia). injection Hx as <-.
  by rewrite Hf.
Qed.

Lemma region_blobs_spec c blobs (regions : list DamageRect) :
  holds_blobs c blobs -> length regions = length blobs -> zlen (mjoin blobs) < 2 ^ 63 ->
  region_blobs c regions = Some blobs.
Proof.
  intros (Es & Eo & extra & Ed) Hlen Hn. unfold region_blobs.
  replace (zlen regions) with (zlen blobs) by (unfold zlen; lia).
  apply mapM_zrange. intros i Hi. destruct (lookup_lt_is_Some_2 _ _ Hi) as [b Eb].
  rewrite !get_lookup, Eo, Es, offsets_from_lookup, list_lookup_fmap, Eb by done.
  cbn [fmap option_fmap option_map mbind option_bind]. rewrite Z.add_0_l.
  assert (Ej : mjoin blobs = mjoin (take i blobs) ++ b ++ mjoin (drop (S i) blobs)).
  { rewrite <- (take_drop_middle blobs i b Eb) at 1. rewrite join_app. done. }
  rewrite wrap_small.
  - rewrite Ed, Ej, <- !app_assoc. apply slice_app_mid.
  - rewrite Ej, !zlen_app in Hn. pose proof (zlen_nonneg (mjoin (take i blobs))).
    pose proof (zlen_nonneg b). pose proof (zlen_nonneg (mjoin (drop (S i) blobs))). width_lia.
Qed.

(** *** The delta cut at the region boundaries *)

Definition rect_bytes (r : DamageRect) : Z := dr_width r * 4 * dr_height r.

Definition region_deltas (cur prev : list Z) (stride : Z) (rs : list DamageRect)
    : list (list Z) :=
  (fun r => spans_delta cur prev (rect_spans stride r)) <$> rs.

Lemma region_deltas_join cur prev stride rs :
  mjoin (region_deltas cur prev stride rs) = spans_delta cur prev (spans stride rs).
Proof.
  induction rs as [|r rs IH]; [done|].
  change (spans stride (r :: rs)) with (rect_spans stride r ++ spans stride rs).
  rewrite spans_delta_app, <- IH. done.
Qed.

Lemma sum_const (l : list Z) (c : Z) (n : nat) :
  length l = n -> Forall (eq c) l -> foldr Z.add 0 l = c * Z.of_nat n.
Proof.
  intros <-. induction 1 as [|x l <- _ IH]; [cbn; lia|]. cbn [foldr length]. lia.
Qed.

Lemma region_delta_zlen cur prev stride r :
  rect_ok stride (zlen cur) r -> zlen prev = zlen cur ->
  zlen (spans_delta cur prev (rect_spans stride r)) = rect_bytes r.
Proof.
  intros Hr E. pose proof Hr as (_ & _ & _ & _ & Hw & Hh & _).
  rewrite spans_delta_zlen; [|by apply rect_spans_ok|done].
  - rewrite (sum_const _ (dr_width r * 4) (Z.to_nat (dr_height r))).
    + unfold rect_bytes. unfold fits in *. rewrite Z2Nat.id by lia. done.
    + unfold rect_spans. by rewrite !length_fmap, zrange_length.
    + unfold rect_spans. rewrite <- list_fmap_compose. apply list.Forall_forall.
      intros x Hx. apply list_elem_of_fmap in Hx as (row & -> & _). done.
Qed.

Lemma region_len_ok r : fits 32 (dr_width r) -> fits 32 (dr_height r) ->
  rect_bytes r < 2 ^ 32 -> region_len r = rect_bytes r.
Proof.
  intros Hw Hh Hb. unfold region_len, rect_bytes in *.
  rewrite (wrap_small 64 (dr_width r * 4)) by width_lia.
  apply wrap_small. unfold fits in *. split; [apply Z.mul_nonneg_nonneg; lia|].
  simpl_pow. lia.
Qed.

Lemma region_slices_spec (regions : list DamageRect) segs :
  Forall2 (fun r s => region_len r = zlen s) regions segs -> zlen (mjoin segs) < 2 ^ 63 ->
  fst <$> region_slices (mjoin segs) regions = Some segs.
Proof.
  intros H2 Hn. unfold region_slices.
  assert (G : forall done_ rs rest, Forall2 (fun r s => region_len r = zlen s) rs rest ->
    segs = done_ ++ rest ->
    foldM (fun '(slices, off) rect =>
      s ← slice (mjoin segs) off (wrap 64 (off + region_len rect));
      Some (slices ++ [s], wrap 64 (off + region_len rect))) (done_, zlen (mjoin done_)) rs
    = Some (segs, zlen (mjoin segs))).
  { intros done_ rs rest HF. revert done_.
    induction HF as [|r s rs rest Hr _ IH]; intros done_ ->.
    { cbn. by rewrite !app_nil_r. }
    cbn [foldM]. rewrite Hr.
    assert (Ej : mjoin (done_ ++ s :: rest) = mjoin done_ ++ s ++ mjoin rest).
    { by rewrite join_app. }
    rewrite Ej, !zlen_app in Hn. pose proof (zlen_nonneg (mjoin done_)).
    pose proof (zlen_nonneg s). pose proof (zlen_nonneg (mjoin rest)).
    rewrite wrap_small by width_lia.
    rewrite Ej, slice_app_mid. cbn [mbind option_bind]. rewrite <- Ej.
    specialize (IH (done_ ++ [s])). rewrite <- app_assoc in IH.
    assert (Es : zlen (mjoin (done_ ++ [s])) = zlen (mjoin done_) + zlen s).
    { rewrite join_app, zlen_app. f_equal. change (mjoin [s]) with (s ++ []). by rewrite app_nil_r. }
    rewrite Es in IH. by apply IH. }
  pose proof (G [] regions segs H2 eq_refl) as G0.
  change (zlen (mjoin [])) with 0 in G0. by rewrite G0.
Qed.
End Layout.

Section Pipeline.
Context `{CodecLaws} `{U8x32}.

(** A codec that fails on nothing it is given here; LZ4 and [KNone] never
    fail. *)
Definition kind_ok (k : CompressorKind) (ds : list (list Z)) : Prop :=
  Forall (fun d => exists c, compress k d = inl c) ds.

Lemma kind_ok_infallible k ds : k <> KZstd -> kind_ok k ds.
Proof. intros Hk. apply list.Forall_forall. intros d _. destruct k; cbn; eauto. done. Qed.

Lemma compress_decompress k d c :
  bytes_ok d -> zlen d < 2 ^ 32 -> compress k d = inl c -> decompress k c = inl d /\ bytes_ok c.
Proof.
  intros Hb Hl. destruct k; cbn.
  - by intros [= <-].
  - intros [= <-]. unfold compress_region, decompress_region.
    rewrite lz4_roundtrip by done. split; [done|apply lz4_bytes].
  - destruct (zstd_encode_all d) as [c'|] eqn:E; [|done]. intros [= <-].
    destruct (zstd_roundtrip d c' Hb E) as [-> ?]. done.
Qed.

Lemma decompress_blobs k ds :
  kind_ok k ds -> Forall bytes_ok ds -> Forall (fun d => zlen d < 2 ^ 32) ds ->
  (decompress k <$> (compress_or_empty k <$> ds)) = (inl <$> ds).
Proof.
  intros Hk Hb Hl. induction Hk as [|d ds [c Ec] _ IH]; [done|].
  inversion Hb; inversion Hl; subst. cbn. rewrite IH by done. f_equal.
  unfold compress_or_empty. rewrite Ec. by apply compress_decompress.
Qed.

Lemma flatten_ok ds scratch :
  flatten_decoded (inl <$> ds) scratch = Ret (scratch ++ mjoin ds).
Proof.
  revert scratch. induction ds as [|d ds IH]; intros scratch; cbn; [by rewrite app_nil_r|].
  rewrite IH. by rewrite <- app_assoc.
Qed.

Lemma region_deltas_bytes cur prev stride rs :
  bytes_ok cur -> bytes_ok prev -> Forall bytes_ok (region_deltas cur prev stride rs).
Proof.
  intros Hc Hp. apply list.Forall_forall. intros d Hd.
  apply list_elem_of_fmap in Hd as (r & -> & _). unfold spans_delta.
  induction (rect_spans stride r) as [|s ss IH]; [constructor|].
  change (mjoin _) with (span_delta cur prev s ++ mjoin (span_delta cur prev <$> ss)).
  apply Forall_app. split; [|done].
  apply xor_bytes_ok; by apply Forall_take, Forall_drop.
Qed.

(** The blobs the encoder writes for the regions. *)
Definition region_blobs_of (k : CompressorKind) (cur prev : list Z) (stride : Z)
    (rs : list DamageRect) : list (list Z) :=
  compress_or_empty k <$> region_deltas cur prev stride rs.

Lemma compress_frame_into_spec cur prev stride rs scratch out k te tc :
  Forall (rect_ok stride (zlen cur)) rs -> zlen prev = zlen cur ->
  Forall (fun r => rect_bytes r < 2 ^ 32) rs ->
  zlen (spans_delta cur prev (spans stride rs)) < 2 ^ 63 ->
  let blobs := region_blobs_of k cur prev stride rs in
  compress_frame_into cur prev stride rs scratch out k te tc =
    Some (spans_delta cur prev (spans stride rs),
          mkCompressedFrame (mjoin blobs) (offsets_from 0 (zlen <$> blobs)) (zlen <$> blobs)
            (mkFrameStats (zlen (spans_delta cur prev (spans stride rs)))
               (zlen (mjoin blobs)) te tc)).
Proof.
  intros Hok E Hsz Hn blobs. unfold compress_frame_into.
  assert (Es : delta_encode_simd cur prev stride rs [] = delta_encode_scalar cur prev stride rs []).
  { apply delta_simd_eq. }
  rewrite Es, delta_encode_scalar_ok by done. cbn [app mbind option_bind].
  assert (F : Forall2 (fun r s => region_len r = zlen s) rs (region_deltas cur prev stride rs)).
  { clear -Hok E Hsz. induction Hok as [|r rs Hr _ IH]; [constructor|].
    inversion Hsz; subst. constructor; [|by apply IH]. rewrite region_delta_zlen by done.
    destruct Hr as (_ & _ & _ & _ & Hw & Hh & _). by apply region_len_ok. }
  rewrite <- region_deltas_join in *.
  pose proof (region_slices_spec rs _ F Hn) as R.
  destruct (region_slices _ rs) as [[segs off]|]; [|done]. cbn in R. injection R as ->.
  cbn [mbind option_bind]. rewrite stitch_spec. cbn. done.
Qed.

(** Decoding a frame that holds the encoder's blobs. *)
Lemma decompress_frame_into_spec cur prev stride rs k scratch' out1 cf :
  bytes_ok cur -> bytes_ok prev -> zlen prev = zlen cur -> zlen cur < 2 ^ 63 ->
  Forall (rect_ok stride (zlen cur)) rs -> Forall (fun r => rect_bytes r < 2 ^ 32) rs ->
  zlen (spans_delta cur prev (spans stride rs)) < 2 ^ 63 ->
  kind_ok k (region_deltas cur prev stride rs) ->
  zlen (mjoin (region_blobs_of k cur prev stride rs)) < 2 ^ 63 ->
  holds_blobs cf (region_blobs_of k cur prev stride rs) ->
  exists img,
    decompress_frame_into cf prev stride rs scratch' out1 k =
      Ret (spans_delta cur prev (spans stride rs), img) /\
    reconstructs cur prev (spans stride rs) img.
Proof.
  intros Hbc Hbp E Hn Hok Hsz Hd Hk Hbl Hh.
  destruct (delta_roundtrip_gen cur prev stride rs (resize_vec (zlen prev) 0 out1))
    as (img & Edec & Hr); try done.
  { apply zlen_resize, zlen_nonneg. }
  exists img. split; [|done]. unfold decompress_frame_into.
  rewrite (region_blobs_spec cf _ rs Hh);
    [|unfold region_blobs_of, region_deltas; by rewrite !length_fmap|done].
  cbn [or_panic mbind run_bind]. unfold region_blobs_of.
  rewrite (decompress_blobs k (region_deltas cur prev stride rs)); [|done|..].
  - rewrite flatten_ok. cbn [app]. rewrite region_deltas_join. cbn [mbind run_bind].
    rewrite Edec. done.
  - by apply region_deltas_bytes.
  - clear -Hok E Hsz. unfold region_deltas. induction Hok as [|r rs Hr _ IH]; [constructor|].
    inversion Hsz; subst. constructor; [|by apply IH]. by rewrite region_delta_zlen.
Qed.

(** C8. One frame through the codec: with damage inside
    the frame and a compressor that succeeds on its regions (of less than 2^32
    bytes each, and less than 2^63 bytes in all), neither side
    panics or fails; the offsets and sizes it records are those of blobs stored
    end to end, one per region; and decompressing against the same previous
    frame restores the current frame on the damage and keeps the previous one
    elsewhere. *)
Theorem frame_codec_roundtrip cur prev stride rs k scratch out0 scratch' out1 te tc :
  bytes_ok cur -> bytes_ok prev -> zlen prev = zlen cur -> zlen cur < 2 ^ 63 ->
  Forall (rect_ok stride (zlen cur)) rs -> Forall (fun r => rect_bytes r < 2 ^ 32) rs ->
  zlen (spans_delta cur prev (spans stride rs)) < 2 ^ 63 ->
  kind_ok k (region_deltas cur prev stride rs) ->
  zlen (mjoin (region_blobs_of k cur prev stride rs)) < 2 ^ 63 ->
  exists delta cf img,
    compress_frame_into cur prev stride rs scratch out0 k te tc = Some (delta, cf) /\
    holds_blobs cf (region_blobs_of k cur prev stride rs) /\
    compressed_bytes (cf_stats cf) = zlen (cf_data cf) /\
    original_bytes (cf_stats cf) = zlen delta /\
    decompress_frame_into cf prev stride rs scratch' out1 k = Ret (delta, img) /\
    reconstructs cur prev (spans stride rs) img.
Proof.
  intros Hbc Hbp E Hn Hok Hsz Hd Hk Hbl. rewrite compress_frame_into_spec by done.
  set (blobs := region_blobs_of k cur prev stride rs) in *.
  set (cf := mkCompressedFrame _ _ _ _).
  assert (Hh : holds_blobs cf blobs).
  { split_and!; [done|done|]. exists []. by rewrite app_nil_r. }
  destruct (decompress_frame_into_spec cur prev stride rs k scratch' out1 cf)
    as (img & Ed & Hr); try done.
  exists (spans_delta cur prev (spans stride rs)), cf, img. by split_and!.
Qed.

Lemma foldM_app_out {A} (f : A -> option (list Z)) out l :
  foldM (fun out a => x ← f a; Some (out ++ x)) out l =
    (app out) <$> foldM (fun out a => x ← f a; Some (out ++ x)) [] l.
Proof.
  revert out. induction l as [|a l IH]; intros out; cbn; [by rewrite app_nil_r|].
  destruct (f a) as [x|]; cbn; [|done]. rewrite (IH (out ++ x)), (IH x).
  destruct (foldM _ [] l); cbn; [|done]. by rewrite app_assoc.
Qed.

(** The per-region encoder of [lz4.rs], which does its
    own row arithmetic, computes what the frame encoder computes for that one
    region, on every input, panics included. *)
Theorem region_encoder_agrees current previous rect stride :
  delta_encode_region current previous rect stride =
    fst <$> delta_encode_simd current previous stride [rect] [].
Proof.
  rewrite delta_simd_eq. unfold delta_encode_region, delta_encode_scalar. cbn [foldM].
  match goal with |- _ = fst <$> (o ← (s ← ?m; Some s); _) => transitivity m end.
  - apply foldM_ext. intros out row _. unfold row_range.
    set (y := wrap 64 (wrap 64 (dr_y rect + row) * stride)).
    set (x := wrap 64 (dr_x rect * 4)). set (w := wrap 64 (dr_width rect * 4)).
    replace (wrap 64 (wrap 64 (y + x) + w)) with (wrap 64 (y + wrap 64 (x + w))); [done|].
    unfold wrap. rewrite Zplus_mod_idemp_l, Zplus_mod_idemp_r. f_equal. lia.
  - by destruct (foldM _ _ _).
Qed.

(** A frame decodes entirely or not at all: one
    region whose blob the codec refuses fails the whole frame, whatever the
    other regions hold. *)
Theorem decode_error_is_whole_frame c previous stride regions scratch output k blobs b :
  region_blobs c regions = Some blobs -> b ∈ blobs -> (exists e, decompress k b = inr e) ->
  exists e, decompress_frame_into c previous stride regions scratch output k = Fail e.
Proof.
  intros Eb Hin [e He]. unfold decompress_frame_into. rewrite Eb. cbn [or_panic mbind run_bind].
  enough (G : exists e, flatten_decoded (decompress k <$> blobs) [] = Fail e).
  { destruct G as [e' ->]. by exists e'. }
  clear Eb. generalize (@nil Z) as acc. induction Hin as [b bs|b a bs Hin IH]; intros acc; cbn.
  - rewrite He. by exists e.
  - destruct (decompress k a) as [x|e']; cbn; [by apply IH|by exists e'].
Qed.
End Pipeline.

(** ** Concrete codecs for the witnesses *)

(** A codec that stores, tagged with a leading 1, and refuses anything else. *)
Definition store_decode (c : list Z) : list Z + unit :=
  match c with 1 :: d => inl d | _ => inr tt end.

#[local] Instance store_codecs : Codecs := {
  Lz4Error := unit; IoError := unit;
  compress_prepend_size d := 1 :: map (fun b => b mod 256) d;
  decompress_size_prepended := store_decode;
  zstd_encode_all d := inl (1 :: map (fun b => b mod 256) d);
  zstd_decode_all := store_decode }.

Lemma map_mod_bytes d : bytes_ok d -> map (fun b => b mod 256) d = d.
Proof.
  induction 1 as [|b d Hb _ IH]; [done|]. cbn. rewrite IH. f_equal. by apply Z.mod_small.
Qed.

Lemma map_mod_ok d : bytes_ok (1 :: map (fun b => b mod 256) d).
Proof.
  constructor; [done|]. apply Forall_map, Forall_true. intros b.
  unfold fits. apply (Z.mod_pos_bound b 256). lia.
Qed.

#[local] Instance store_codecs_laws : CodecLaws.
Proof.
  constructor; cbn.
  - intros d Hb _. by rewrite map_mod_bytes.
  - intros d. apply map_mod_ok.
  - intros d. rewrite zlen_cons. unfold zlen. rewrite length_map. lia.
  - intros d c Hb [= <-]. cbn. rewrite map_mod_bytes by done. split; [done|].
    constructor; done.
  - intros d c [= <-]. rewrite zlen_cons. unfold zlen. rewrite length_map. lia.
Qed.

#[local] Instance scalar_lanes : U8x32 := {
  u8x32_xor := xor_bytes; u8x32_xor_lanes a b _ _ := eq_refl }.

Lemma frame_codec_roundtrip_witness :
  exists delta cf img,
    compress_frame_into (zrange 32) (replicate 32 7) 16 [mkDamageRect 1 0 2 2] []
      CompressedFrame_default KLz4 0 0 = Some (delta, cf) /\
    holds_blobs cf (region_blobs_of KLz4 (zrange 32) (replicate 32 7) 16 [mkDamageRect 1 0 2 2]) /\
    compressed_bytes (cf_stats cf) = zlen (cf_data cf) /\
    original_bytes (cf_stats cf) = zlen delta /\
    decompress_frame_into cf (replicate 32 7) 16 [mkDamageRect 1 0 2 2] [] [] KLz4 = Ret (delta, img) /\
    reconstructs (zrange 32) (replicate 32 7) (spans 16 [mkDamageRect 1 0 2 2]) img.
Proof.
  apply (frame_codec_roundtrip (zrange 32) (replicate 32 7) 16 [mkDamageRect 1 0 2 2] KLz4).
  1-2: apply (bool_decide_unpack _); vm_compute; exact I.
  1-2: reflexivity.
  1-2: apply (bool_decide_unpack _); vm_compute; exact I.
  - vm_compute. reflexivity.
  - by apply kind_ok_infallible.
  - vm_compute. reflexivity.
Defined.

Lemma decode_error_is_whole_frame_witness :
  exists e, decompress_frame_into (mkCompressedFrame [1; 5; 9] [0; 2] [2; 1] FrameStats_default)
    (replicate 8 0) 4 [mkDamageRect 0 0 1 1; mkDamageRect 0 1 1 1] [] [] KLz4 = Fail e.
Proof.
  eapply (decode_error_is_whole_frame _ _ _ _ _ _ _ [[1; 5]; [9]] [9]).
  - reflexivity.
  - do 2 constructor.
  - eexists. reflexivity.
Defined.
