(* ===== verification/FramePayload.v ===== *)
(** The frame payload on the wire: [serialize_frame_payload] of
    [crates/remoteway-server/src/pipeline.rs] and [deserialize_frame_payload] of
    [crates/remoteway-client/src/pipeline.rs].

    A payload is a [FrameMeta], one [WireRegion] per damage rect, and the
    concatenated compressed blobs. *)

From S2P Require Import Prelude Wire Proto Delta Compress.
Import Frame.

(** ** The server side *)

Section Payload.
Context `{Codecs}.

(** The body of the loop over [regions.iter().enumerate()]; [region_sizes[i]]
    panics when there are fewer sizes than regions. *)
Definition serialize_region (compressed : CompressedFrame) (payload : list Z)
    (ir : Z * DamageRect) : option (list Z) :=
  let '(i, rect) := ir in
  size ← get (region_sizes compressed) i;
  let wr := WireRegion_new (dr_x rect) (dr_y rect) (dr_width rect) (dr_height rect)
              (wrap 32 size) in
  Some (payload ++ as_bytes wr).

Definition serialize_frame_payload (width height stride : Z) (regions : list DamageRect)
    (compressed : CompressedFrame) : option (list Z) :=
  let meta := FrameMeta_new width height stride (wrap 32 (zlen regions)) in
  let payload := as_bytes meta in
  payload ← foldM (serialize_region compressed) payload (zip (zrange (zlen regions)) regions);
  Some (payload ++ cf_data compressed).

(** ** The client side *)

Inductive DeserializeError :=
  | TooShortForMeta | BadMeta | TooShortForRegions | BadRegion | TooShortForData.

(** The body of the loop over the region descriptors. *)
Definition region_step (payload : list Z)
    (st : list DamageRect * list Z * list Z * Z) (i : Z)
    : run DeserializeError (list DamageRect * list Z * list Z * Z) :=
  let '(regions, offsets, sizes, data_offset) := st in
  let off := wrap 64 (FrameMeta_SIZE + wrap 64 (i * WireRegion_SIZE)) in
  s ← or_panic (slice payload off (wrap 64 (off + WireRegion_SIZE)));
  wr ← match ref_from_bytes s with Some w => Ret w | None => Fail BadRegion end;
  Ret (regions ++ [DamageRect_new (wr_x wr) (wr_y wr) (wr_w wr) (wr_h wr)],
       offsets ++ [data_offset], sizes ++ [compressed_size wr],
       wrap 64 (data_offset + compressed_size wr)).

Definition deserialize_frame_payload (payload : list Z)
    : run DeserializeError (Z * Z * Z * list DamageRect * CompressedFrame) :=
  _ ← ensure (FrameMeta_SIZE <=? zlen payload) TooShortForMeta;
  s ← or_panic (slice payload 0 FrameMeta_SIZE);
  meta ← match ref_from_bytes s with Some m => Ret m | None => Fail BadMeta end;
  let n := num_regions meta in
  let regions_end := wrap 64 (FrameMeta_SIZE + wrap 64 (WireRegion_SIZE * n)) in
  _ ← ensure (regions_end <=? zlen payload) TooShortForRegions;
  '(regions, offsets, sizes, data_offset) ←
    foldR (region_step payload) ([], [], [], 0) (zrange n);
  data ← or_panic (slice payload regions_end (zlen payload));
  _ ← ensure (data_offset <=? zlen data) TooShortForData;
  Ret (width meta, height meta, stride meta, regions,
       mkCompressedFrame data offsets sizes FrameStats_default).

(** ** The layout of a payload *)

Definition payload_bytes (meta : FrameMeta) (wrs : list WireRegion) (data : list Z) : list Z :=
  as_bytes meta ++ mjoin (as_bytes <$> wrs) ++ data.

Definition rect_of (w : WireRegion) : DamageRect := mkDamageRect (wr_x w) (wr_y w) (wr_w w) (wr_h w).

Definition sizes_total (wrs : list WireRegion) : Z := foldr Z.add 0 (compressed_size <$> wrs).

Lemma wire_regions_zlen (wrs : list WireRegion) : zlen (mjoin (as_bytes <$> wrs)) = 20 * zlen wrs.
Proof.
  induction wrs as [|w wrs IH]; [done|].
  cbn [fmap list_fmap]. rewrite zlen_mjoin_cons, IH, as_bytes_zlen, zlen_cons.
  change (size_of WireRegion) with 20. lia.
Qed.

(** Any bytes of the right length are region descriptors. *)
Lemma bytes_are_regions n bs :
  bytes_ok bs -> zlen bs = 20 * Z.of_nat n ->
  exists wrs, length wrs = n /\ Forall wf wrs /\ bs = mjoin (as_bytes <$> wrs).
Proof.
  revert bs. induction n as [|n IH]; intros bs Hb Hl.
  { exists []. split_and!; [done|constructor|]. apply zlen_zero. lia. }
  destruct (ref_from_bytes_total (A:=WireRegion) (take 20 bs)) as (w & _ & Hw & Ew).
  { by apply Forall_take. }
  { rewrite zlen_take; [done|]. lia. }
  destruct (IH (drop 20 bs)) as (wrs & Hlen & Hwf & E).
  { by apply Forall_drop. }
  { rewrite zlen_drop; lia. }
  exists (w :: wrs). split_and!; [cbn; lia|by constructor|].
  rewrite <- (take_drop 20 bs), E, <- Ew. done.
Qed.

Lemma bytes_split n (bs : list Z) : 0 <= n <= zlen bs -> exists a b, bs = a ++ b /\ zlen a = n.
Proof.
  intros Hn. exists (take (Z.to_nat n) bs), (drop (Z.to_nat n) bs).
  rewrite take_drop. split; [done|]. rewrite zlen_take; lia.
Qed.

Lemma region_step_at pre done_ w wrs data regions offsets sizes total :
  wf w -> zlen pre = 16 -> zlen done_ < 2 ^ 32 -> fits 64 (total + compressed_size w) ->
  region_step (pre ++ mjoin (as_bytes <$> (done_ ++ w :: wrs)) ++ data)
    (regions, offsets, sizes, total) (Z.of_nat (length done_))
  = Ret (regions ++ [rect_of w], offsets ++ [total], sizes ++ [compressed_size w],
         total + compressed_size w).
Proof.
  intros Hw Hpre Hn Ht. pose proof (zlen_nonneg done_). unfold region_step.
  assert (S : slice (pre ++ mjoin (as_bytes <$> (done_ ++ w :: wrs)) ++ data)
                (16 + 20 * zlen done_) (16 + 20 * zlen done_ + 20) = Some (as_bytes w)).
  { rewrite fmap_app, join_app. cbn [fmap list_fmap].
    change (mjoin (as_bytes w :: ?l)) with (as_bytes w ++ mjoin l).
    pose proof (slice_app_mid (pre ++ mjoin (as_bytes <$> done_)) (as_bytes w)
                  (mjoin (as_bytes <$> wrs) ++ data)) as S.
    rewrite zlen_app, Hpre, wire_regions_zlen, as_bytes_zlen in S.
    change (size_of WireRegion) with 20 in S. rewrite <- !app_assoc in *. exact S. }
  change FrameMeta_SIZE with 16. change WireRegion_SIZE with 20.
  fold (zlen done_). rewrite (wrap_small 64 (zlen done_ * 20)) by width_lia.
  rewrite (wrap_small 64 (16 + _)) by width_lia. rewrite (wrap_small 64 (_ + 20)) by width_lia.
  replace (16 + zlen done_ * 20) with (16 + 20 * zlen done_) by lia.
  rewrite S. cbn [or_panic mbind run_bind]. rewrite ref_from_as_bytes by done.
  cbn [mbind run_bind].
  assert (Hc : fits 32 (compressed_size w)) by apply Hw.
  rewrite (wrap_small 64 (total + _)) by width_lia. done.
Qed.

(** The descriptor loop, from any point. *)
Lemma region_loop_spec pre done_ wrs data regions offsets sizes :
  Forall wf wrs -> zlen done_ + zlen wrs < 2 ^ 32 -> zlen pre = 16 ->
  0 <= sizes_total done_ <= zlen done_ * (2 ^ 32 - 1) ->
  foldR (region_step (pre ++ mjoin (as_bytes <$> (done_ ++ wrs)) ++ data))
    (regions, offsets, sizes, sizes_total done_)
    ((fun k => Z.of_nat k) <$> seq (length done_) (length wrs))
  = Ret (regions ++ (rect_of <$> wrs), offsets ++ offsets_from (sizes_total done_) (compressed_size <$> wrs),
         sizes ++ (compressed_size <$> wrs), sizes_total (done_ ++ wrs)).
Proof.
  intros Hwf. revert done_ regions offsets sizes.
  induction Hwf as [|w wrs Hw _ IH]; intros done_ regions offsets sizes Hn Hpre Hs.
  { cbn. by rewrite !app_nil_r. }
  cbn [length seq fmap list_fmap foldR]. rewrite zlen_cons in Hn.
  pose proof (zlen_nonneg done_). pose proof (zlen_nonneg wrs).
  assert (Hc : fits 32 (compressed_size w)) by apply Hw.
  assert (Et : sizes_total (done_ ++ [w]) = sizes_total done_ + compressed_size w).
  { unfold sizes_total. rewrite fmap_app, foldr_app. cbn [fmap list_fmap foldr].
    clear. induction done_ as [|x l IHl]; cbn [fmap list_fmap foldr]; [lia|]. rewrite IHl. lia. }
  rewrite region_step_at by (done || width_lia). cbn [mbind run_bind].
  specialize (IH (done_ ++ [w]) (regions ++ [rect_of w]) (offsets ++ [sizes_total done_])
    (sizes ++ [compressed_size w])).
  rewrite <- Et. rewrite length_app, Nat.add_1_r, <- !app_assoc in IH. cbn [app] in IH.
  rewrite IH; [|rewrite zlen_app, zlen_cons, zlen_nil; lia|done|].
  - cbn [app fmap list_fmap offsets_from]. by rewrite Et.
  - rewrite Et, zlen_app. change (zlen [w]) with 1. width_lia.
Qed.

Lemma sizes_total_bounds wrs :
  Forall wf wrs -> 0 <= sizes_total wrs <= zlen wrs * (2 ^ 32 - 1).
Proof.
  induction 1 as [|w wrs Hw _ IH]; [done|].
  assert (Hc : fits 32 (compressed_size w)) by apply Hw.
  unfold sizes_total in *. cbn [fmap list_fmap foldr]. rewrite zlen_cons. width_lia.
Qed.

Lemma seq_zrange n : ((fun k => Z.of_nat k) <$> seq 0 n) = zrange (Z.of_nat n).
Proof. unfold zrange. by rewrite Nat2Z.id. Qed.

(** What the decoder makes of a payload laid out as a meta, descriptors and
    data. *)
Lemma deserialize_laid_out meta wrs data :
  wf meta -> Forall wf wrs -> num_regions meta = zlen wrs ->
  zlen (payload_bytes meta wrs data) < 2 ^ 63 ->
  deserialize_frame_payload (payload_bytes meta wrs data) =
    if sizes_total wrs <=? zlen data
    then Ret (width meta, height meta, stride meta, rect_of <$> wrs,
              mkCompressedFrame data (offsets_from 0 (compressed_size <$> wrs))
                (compressed_size <$> wrs) FrameStats_default)
    else Fail TooShortForData.
Proof.
  intros Hm Hw Hn Hlen. unfold deserialize_frame_payload. unfold payload_bytes in *.
  pose proof (as_bytes_zlen meta) as Lm. change (size_of FrameMeta) with 16 in Lm.
  pose proof (wire_regions_zlen wrs) as Lw. rewrite !zlen_app, Lm, Lw in *.
  pose proof (zlen_nonneg wrs). pose proof (zlen_nonneg data).
  assert (Hn32 : fits 32 (zlen wrs)) by (rewrite <- Hn; apply Hm).
  change FrameMeta_SIZE with 16. change WireRegion_SIZE with 20.
  destruct (Z.leb_spec 16 (16 + (20 * zlen wrs + zlen data))); [|lia].
  cbn [ensure mbind run_bind].
  pose proof (slice_app_mid [] (as_bytes meta) (mjoin (as_bytes <$> wrs) ++ data)) as S.
  rewrite Lm in S. change (zlen []) with 0 in S. rewrite Z.add_0_l in S. cbn [app] in S.
  rewrite S. cbn [or_panic mbind run_bind]. rewrite ref_from_as_bytes by done.
  cbn [mbind run_bind]. rewrite Hn.
  rewrite (wrap_small 64 (20 * zlen wrs)) by width_lia. rewrite (wrap_small 64 (16 + _)) by width_lia.
  destruct (Z.leb_spec (16 + 20 * zlen wrs) (16 + (20 * zlen wrs + zlen data))); [|lia].
  cbn [ensure mbind run_bind].
  pose proof (region_loop_spec (as_bytes meta) [] wrs data [] [] [] Hw) as R.
  change (sizes_total []) with 0 in R. change (length []) with 0%nat in R. rewrite seq_zrange in R.
  cbn [app] in R. fold (zlen wrs) in R. rewrite R; [|change (zlen []) with 0; width_lia|done|done].
  cbn [mbind run_bind].
  pose proof (slice_app_mid (as_bytes meta ++ mjoin (as_bytes <$> wrs)) data []) as D.
  rewrite app_nil_r, <- app_assoc, zlen_app, Lm, Lw in D.
  rewrite Z.add_assoc, D. cbn [or_panic mbind run_bind].
  by destruct (_ <=? _).
Qed.

(** Sizes that add up to no more than the data cut it into blobs. *)
Lemma cut_blobs sizes (data : list Z) :
  Forall (Z.le 0) sizes -> foldr Z.add 0 sizes <= zlen data ->
  exists (blobs : list (list Z)) extra, (zlen <$> blobs) = sizes /\ data = mjoin blobs ++ extra.
Proof.
  intros Hs. revert data. induction Hs as [|n sizes Hn Hs IH]; intros data Hl.
  { by exists [], data. }
  cbn [foldr] in Hl.
  assert (0 <= foldr Z.add 0 sizes).
  { clear -Hs. induction Hs; cbn [foldr]; lia. }
  destruct (bytes_split n data) as (b & rest & -> & Lb); [lia|].
  rewrite zlen_app in Hl. destruct (IH rest) as (blobs & extra & E & ->); [lia|].
  exists (b :: blobs), extra. cbn [fmap list_fmap]. rewrite E, Lb. split; [done|].
  change (mjoin (b :: blobs)) with (b ++ mjoin blobs). by rewrite app_assoc.
Qed.

(** The frame a parser of these bytes has to give. *)
Definition frame_of (wrs : list WireRegion) (data : list Z) : CompressedFrame :=
  mkCompressedFrame data (offsets_from 0 (compressed_size <$> wrs)) (compressed_size <$> wrs) FrameStats_default.

Lemma announced_blobs wrs data :
  Forall wf wrs -> sizes_total wrs <= zlen data -> zlen data < 2 ^ 63 ->
  exists blobs extra, data = mjoin blobs ++ extra /\ zlen <$> blobs = (compressed_size <$> wrs) /\
    region_blobs (frame_of wrs data) (rect_of <$> wrs) = Some blobs.
Proof.
  intros Hw Hs Hd. destruct (cut_blobs (compressed_size <$> wrs) data) as (blobs & extra & E & Ed).
  { apply Forall_fmap. apply (list.Forall_impl wf); [exact Hw|]. intros w (_&_&_&_&Hc). cbn. apply Hc. }
  { exact Hs. }
  exists blobs, extra. split_and!; [done|done|]. apply region_blobs_spec.
  - split_and!; cbn; [by rewrite E|by rewrite E|]. by exists extra.
  - rewrite length_fmap. apply (f_equal length) in E. by rewrite !length_fmap in E.
  - subst data. rewrite zlen_app in Hd. pose proof (zlen_nonneg extra). lia.
Qed.

(** C14. The client's parser on arbitrary bytes: it never
    panics; it fails exactly when the bytes end before the descriptors or blobs
    they announce; otherwise the bytes are a meta, as many descriptors as it
    counts, and the rest, in the layout of [Proto.protocol_layout], and it returns
    exactly them: the meta's dimensions, the descriptors' rects and sizes in
    order, the rest of the bytes as data, and the offsets at which blobs of those
    sizes lie end to end in it.  The blobs that decompression then slices out are
    those consecutive pieces of the data, so it never slices out of range. *)
Theorem deserialize_total payload :
  bytes_ok payload -> zlen payload < 2 ^ 63 ->
  (zlen payload < 16 /\ deserialize_frame_payload payload = Fail TooShortForMeta) \/
  (exists meta rest, payload = as_bytes meta ++ rest /\ wf meta /\
     zlen rest < 20 * num_regions meta /\
     deserialize_frame_payload payload = Fail TooShortForRegions) \/
  (exists meta wrs data, payload = payload_bytes meta wrs data /\ wf meta /\ Forall wf wrs /\
     num_regions meta = zlen wrs /\
     ((zlen data < sizes_total wrs /\ deserialize_frame_payload payload = Fail TooShortForData) \/
      (sizes_total wrs <= zlen data /\
         deserialize_frame_payload payload =
           Ret (width meta, height meta, stride meta, rect_of <$> wrs, frame_of wrs data) /\
         exists blobs extra, data = mjoin blobs ++ extra /\ zlen <$> blobs = (compressed_size <$> wrs) /\
           region_blobs (frame_of wrs data) (rect_of <$> wrs) = Some blobs))).
Proof.
  intros Hb Hlen. destruct (decide (zlen payload < 16)) as [Hs|Hs].
  { left. split; [done|]. unfold deserialize_frame_payload. change FrameMeta_SIZE with 16.
    by destruct (Z.leb_spec 16 (zlen payload)); [lia|]. }
  right. destruct (bytes_split 16 payload) as (mb & rest & -> & Lm); [lia|].
  apply Forall_app in Hb as [Hmb Hrest].
  destruct (ref_from_bytes_total (A:=FrameMeta) mb Hmb) as (meta & _ & Hm & <-);
    [by rewrite Lm|].
  rewrite zlen_app, Lm in Hlen. assert (Hn : fits 32 (num_regions meta)) by apply Hm.
  destruct (decide (zlen rest < 20 * num_regions meta)) as [Hr|Hr].
  { left. exists meta, rest. split_and!; [done..|]. unfold deserialize_frame_payload.
    rewrite zlen_app, Lm. change FrameMeta_SIZE with 16. change WireRegion_SIZE with 20.
    pose proof (zlen_nonneg rest).
    destruct (Z.leb_spec 16 (16 + zlen rest)); [|lia]. cbn [ensure mbind run_bind].
    pose proof (slice_app_mid [] (as_bytes meta) rest) as S. rewrite Lm in S.
    change (zlen []) with 0 in S. rewrite Z.add_0_l in S. cbn [app] in S. rewrite S.
    cbn [or_panic mbind run_bind]. rewrite ref_from_as_bytes by done. cbn [mbind run_bind].
    rewrite (wrap_small 64 (20 * _)) by width_lia. rewrite (wrap_small 64 (16 + _)) by width_lia.
    by destruct (Z.leb_spec (16 + 20 * num_regions meta) (16 + zlen rest)); [lia|]. }
  right. destruct (bytes_split (20 * num_regions meta) rest) as (wb & data & -> & Lw);
    [unfold fits in Hn; lia|].
  apply Forall_app in Hrest as [Hwb _].
  destruct (bytes_are_regions (Z.to_nat (num_regions meta)) wb Hwb) as (wrs & Hwn & Hwf & ->);
    [rewrite Lw; unfold fits in Hn; lia|].
  assert (En : num_regions meta = zlen wrs) by (unfold zlen, fits in *; lia).
  exists meta, wrs, data. split_and!; [done..|].
  change (as_bytes meta ++ mjoin (as_bytes <$> wrs) ++ data) with (payload_bytes meta wrs data).
  assert (Hl : zlen (payload_bytes meta wrs data) < 2 ^ 63).
  { unfold payload_bytes. rewrite zlen_app, Lm. exact Hlen. }
  rewrite deserialize_laid_out by done.
  destruct (Z.leb_spec (sizes_total wrs) (zlen data)); [right|by left].
  split_and!; [done..|].
  apply (announced_blobs wrs data); [done|done|]. rewrite !zlen_app in Hlen.
  pose proof (zlen_nonneg (mjoin (as_bytes <$> wrs))). lia.
Qed.

(** One region of two bytes, and a byte nobody announced. *)
Definition demo_payload : list Z :=
  payload_bytes (FrameMeta_new 640 480 2560 1) [WireRegion_new 0 0 4 2 2] [7; 8; 9].

Lemma deserialize_total_witness :
  (zlen demo_payload < 16 /\ deserialize_frame_payload demo_payload = Fail TooShortForMeta) \/
  (exists meta rest, demo_payload = as_bytes meta ++ rest /\ wf meta /\
     zlen rest < 20 * num_regions meta /\
     deserialize_frame_payload demo_payload = Fail TooShortForRegions) \/
  (exists meta wrs data, demo_payload = payload_bytes meta wrs data /\ wf meta /\ Forall wf wrs /\
     num_regions meta = zlen wrs /\
     ((zlen data < sizes_total wrs /\ deserialize_frame_payload demo_payload = Fail TooShortForData) \/
      (sizes_total wrs <= zlen data /\
         deserialize_frame_payload demo_payload =
           Ret (width meta, height meta, stride meta, rect_of <$> wrs, frame_of wrs data) /\
         exists blobs extra, data = mjoin blobs ++ extra /\ zlen <$> blobs = (compressed_size <$> wrs) /\
           region_blobs (frame_of wrs data) (rect_of <$> wrs) = Some blobs))).
Proof.
  apply (deserialize_total demo_payload); [|by vm_compute].
  apply (bool_decide_unpack _). vm_compute. exact I.
Defined.

(** The descriptors the server writes. *)
Definition wire_region (r : DamageRect) (b : list Z) : WireRegion :=
  WireRegion_new (dr_x r) (dr_y r) (dr_width r) (dr_height r) (zlen b).

Definition rect_fits (r : DamageRect) : Prop :=
  fits 32 (dr_x r) /\ fits 32 (dr_y r) /\ fits 32 (dr_width r) /\ fits 32 (dr_height r).

Lemma serialize_loop regions blobs cf pre pb acc :
  region_sizes cf = zlen <$> (pre ++ blobs) -> length regions = length blobs ->
  Forall (fun b => zlen b < 2 ^ 32) blobs -> pb = length pre ->
  foldM (serialize_region cf) acc
    (zip ((fun k => Z.of_nat k) <$> seq pb (length regions)) regions)
  = Some (acc ++ mjoin (as_bytes <$> zip_with wire_region regions blobs)).
Proof.
  revert blobs pre pb acc. induction regions as [|r regions IH];
    intros [|b blobs] pre pb acc Es Hl Hb Hp; try done.
  { cbn. by rewrite app_nil_r. }
  inversion Hb as [|? ? Hb1 Hb2]; subst.
  change (zip _ _) with ((Z.of_nat (length pre), r) ::
    zip ((fun k => Z.of_nat k) <$> seq (S (length pre)) (length regions)) regions).
  cbn [foldM].
  assert (E : serialize_region cf acc (Z.of_nat (length pre), r)
              = Some (acc ++ as_bytes (wire_region r b))).
  { unfold serialize_region.
    rewrite get_lookup, Es, list_lookup_fmap, lookup_app_r, Nat.sub_diag by lia.
    cbn [lookup list_lookup fmap option_fmap option_map mbind option_bind].
    by rewrite wrap_small by (pose proof (zlen_nonneg b); width_lia). }
  rewrite E. cbn [mbind option_bind].
  rewrite (IH blobs (pre ++ [b])).
  - cbn [zip_with fmap list_fmap]. change (mjoin (?x :: ?l)) with (x ++ mjoin l).
    by rewrite app_assoc.
  - by rewrite <- app_assoc.
  - cbn in Hl. lia.
  - done.
  - rewrite length_app. cbn. lia.
Qed.

Lemma serialize_spec w h st regions cf blobs :
  region_sizes cf = zlen <$> blobs -> length regions = length blobs ->
  Forall (fun b => zlen b < 2 ^ 32) blobs -> zlen regions < 2 ^ 32 ->
  serialize_frame_payload w h st regions cf =
    Some (payload_bytes (FrameMeta_new w h st (zlen regions))
            (zip_with wire_region regions blobs) (cf_data cf)).
Proof.
  intros Es Hl Hb Hn. unfold serialize_frame_payload.
  rewrite (wrap_small 32) by (pose proof (zlen_nonneg regions); width_lia).
  pose proof (serialize_loop regions blobs cf [] 0%nat
    (as_bytes (FrameMeta_new w h st (zlen regions))) Es Hl Hb eq_refl) as R.
  rewrite seq_zrange in R. fold (zlen regions) in R. rewrite R. cbn [mbind option_bind].
  unfold payload_bytes. by rewrite <- app_assoc.
Qed.

Lemma wire_regions_of regions blobs :
  length regions = length blobs ->
  rect_of <$> zip_with wire_region regions blobs = regions /\
  (compressed_size <$> zip_with wire_region regions blobs) = (zlen <$> blobs) /\
  zlen (zip_with wire_region regions blobs) = zlen regions.
Proof.
  revert blobs. induction regions as [|r regions IH]; intros [|b blobs] Hl; try done.
  destruct (IH blobs) as (E1 & E2 & E3); [cbn in Hl; lia|].
  cbn [zip_with fmap list_fmap]. rewrite E1, E2, !zlen_cons, E3. by destruct r.
Qed.

Lemma wire_regions_wf regions blobs :
  Forall rect_fits regions -> Forall (fun b => zlen b < 2 ^ 32) blobs ->
  Forall wf (zip_with wire_region regions blobs).
Proof.
  intros Hr. revert blobs. induction Hr as [|r regions (?&?&?&?) _ IH]; intros [|b blobs] Hb;
    try constructor.
  - inversion Hb; subst. pose proof (zlen_nonneg b). cbn. split_and!; try done; width_lia.
  - inversion Hb; subst. by apply IH.
Qed.

Lemma sum_zlen_mjoin (blobs : list (list Z)) : foldr Z.add 0 (zlen <$> blobs) = zlen (mjoin blobs).
Proof.
  induction blobs as [|b blobs IH]; [done|]. cbn [fmap list_fmap foldr].
  by rewrite zlen_mjoin_cons, IH.
Qed.

Lemma payload_roundtrip_gen w h st regions cf blobs :
  fits 32 w -> fits 32 h -> fits 32 st -> Forall rect_fits regions -> zlen regions < 2 ^ 32 ->
  holds_blobs cf blobs -> length regions = length blobs ->
  Forall (fun b => zlen b < 2 ^ 32) blobs ->
  36 * zlen regions + zlen (cf_data cf) < 2 ^ 62 ->
  exists payload,
    serialize_frame_payload w h st regions cf = Some payload /\
    deserialize_frame_payload payload =
      Ret (w, h, st, regions,
           mkCompressedFrame (cf_data cf) (region_offsets cf) (region_sizes cf) FrameStats_default).
Proof.
  intros Hw Hh Hst Hr Hn (Es & Eo & extra & Ed) Hl Hb Hlen.
  rewrite (serialize_spec _ _ _ _ _ blobs) by done. eexists. split; [done|].
  destruct (wire_regions_of regions blobs Hl) as (E1 & E2 & E3).
  pose proof (zlen_nonneg regions).
  rewrite deserialize_laid_out.
  - unfold sizes_total. rewrite E1, E2, sum_zlen_mjoin, Es, Eo.
    destruct (Z.leb_spec (zlen (mjoin blobs)) (zlen (cf_data cf))) as [|Hgt]; [done|].
    rewrite Ed, zlen_app in Hgt. pose proof (zlen_nonneg extra). lia.
  - cbn. split_and!; try done; width_lia.
  - by apply wire_regions_wf.
  - cbn. by rewrite E3.
  - unfold payload_bytes. rewrite !zlen_app, as_bytes_zlen, wire_regions_zlen, E3.
    change (size_of FrameMeta) with 16. change (2 ^ 62) with 4611686018427387904 in Hlen. width_lia.
Qed.

(** C13. The server's payload is read back by the client
    exactly: dimensions, damage rects, blob offsets and sizes, and the compressed
    bytes; only the timing statistics are not sent. *)
Theorem payload_roundtrip w h st regions cf blobs :
  fits 32 w -> fits 32 h -> fits 32 st -> Forall rect_fits regions -> zlen regions < 2 ^ 32 ->
  holds_blobs cf blobs -> length regions = length blobs ->
  Forall (fun b => zlen b < 2 ^ 32) blobs ->
  36 * zlen regions + zlen (cf_data cf) < 2 ^ 62 ->
  exists payload,
    serialize_frame_payload w h st regions cf = Some payload /\
    deserialize_frame_payload payload =
      Ret (w, h, st, regions,
           mkCompressedFrame (cf_data cf) (region_offsets cf) (region_sizes cf) FrameStats_default).
Proof. apply payload_roundtrip_gen. Qed.

Lemma payload_roundtrip_witness :
  let cf := mkCompressedFrame [7; 8; 9] [0; 2] [2; 1] (mkFrameStats 10 3 5 6) in
  exists payload,
    serialize_frame_payload 640 480 2560 [mkDamageRect 0 0 4 2; mkDamageRect 3 1 1 1] cf = Some payload /\
    deserialize_frame_payload payload =
      Ret (640, 480, 2560, [mkDamageRect 0 0 4 2; mkDamageRect 3 1 1 1],
           mkCompressedFrame [7; 8; 9] [0; 2] [2; 1] FrameStats_default).
Proof.
  intros cf. apply (payload_roundtrip 640 480 2560 _ cf [[7; 8]; [9]]).
  1-3: by vm_compute.
  - constructor; [split_and!; by vm_compute|]. constructor; [split_and!; by vm_compute|]. constructor.
  - reflexivity.
  - split_and!; [reflexivity|reflexivity|]. by exists [].
  - reflexivity.
  - constructor; [reflexivity|]. constructor; [reflexivity|]. constructor.
  - reflexivity.
Defined.
End Payload.

#[local] Existing Instance store_codecs.

(** A payload the parser accepts whose rect lies outside the frame: decoding it
    panics, so a peer can stop the client with one message. *)
Example hostile_rect_panics :
  let bytes := payload_bytes (FrameMeta_new 1 1 4 1) [WireRegion_new 5 0 1 1 5] [1; 0; 0; 0; 0] in
  let cf := mkCompressedFrame [1; 0; 0; 0; 0] [0] [5] FrameStats_default in
  deserialize_frame_payload bytes = Ret (1, 1, 4, [mkDamageRect 5 0 1 1], cf) /\
  decompress_frame_into cf (replicate 4 0) 4 [mkDamageRect 5 0 1 1] [] [] KLz4 = Panic.
Proof. intros bytes cf. split; vm_compute; reflexivity. Qed.
