(* ===== verification/Floats.v ===== *)
(** IEEE 754 arithmetic of the source's [f32] and [f64].

    The Standard Library's [SpecFloat] is an executable, axiom-free model of the
    binary formats: [f64] has 53 bits of precision and [f32] 24.  Here are the
    operations the source uses on them, the conversions from and to integers, and
    the rounding of [f64::round] (half away from zero). *)

From Stdlib Require Import SpecFloat.
From S2P Require Import Prelude.

Definition f64 : Type := spec_float.
Definition f32 : Type := spec_float.

Section Format.
Context (prec emax : Z).

(** [n as f64]: the nearest float. *)
Definition of_int (n : Z) : spec_float := binary_normalize prec emax n 0 false.

(** [a / b] as a literal: the float nearest to the quotient. *)
Definition of_frac (a b : Z) : spec_float := SFdiv prec emax (of_int a) (of_int b).
End Format.

Definition f64_of_int := of_int 53 1024.
Definition f64_mul := SFmul 53 1024.
Definition f64_add := SFadd 53 1024.
Definition f64_sub := SFsub 53 1024.
Definition f64_div := SFdiv 53 1024.
Definition f64_frac := of_frac 53 1024.
Definition f32_of_int := of_int 24 128.
Definition f32_mul := SFmul 24 128.
Definition f32_add := SFadd 24 128.
Definition f32_sub := SFsub 24 128.
Definition f32_div := SFdiv 24 128.
Definition f32_frac := of_frac 24 128.

(** [f64::EPSILON] is [2^-52]. *)
Definition f64_epsilon : f64 := binary_normalize 53 1024 1 (-52) false.

(** The magnitude [m * 2^e] rounded down. *)
Definition shift_floor (m : positive) (e : Z) : Z := Z.shiftl (Zpos m) e.

(** [x.round()] as an integer: halves go away from zero; [None] for a value that
    is not finite. *)
Definition round_int (x : spec_float) : option Z :=
  match x with
  | S754_zero _ => Some 0
  | S754_finite s m e =>
      let n := if 0 <=? e then shift_floor m e
               else Z.shiftr (Zpos m + Z.shiftl 1 (- e - 1)) (- e) in
      Some (if s then - n else n)
  | _ => None
  end.

(** [x.floor()] as an integer. *)
Definition floor_int (x : spec_float) : option Z :=
  match x with
  | S754_zero _ => Some 0
  | S754_finite s m e => Some (Z.shiftl (if s then Zneg m else Zpos m) e)
  | _ => None
  end.

(** [as u32], [as i32] and the like: truncated, saturating, NaN is 0. *)
Definition saturate (lo hi : Z) (x : spec_float) (n : option Z) : Z :=
  match n with
  | Some n => Z.max lo (Z.min hi n)
  | None => match x with S754_infinity s => if s then lo else hi | _ => 0 end
  end.

Definition trunc_int (x : spec_float) : option Z :=
  match x with
  | S754_zero _ => Some 0
  | S754_finite s m e => Some (if s then - shift_floor m e else shift_floor m e)
  | _ => None
  end.

(** [x.round() as u32]. *)
Definition round_as_u32 (x : f64) : Z := saturate 0 (2 ^ 32 - 1) x (round_int x).

(** [(n as f64 * scale).round() as u32]. *)
Definition scale_round (n : Z) (scale : f64) : Z := round_as_u32 (f64_mul (f64_of_int n) scale).

(** [(x - 1.0).abs() > f64::EPSILON]. *)
Definition differs_from_one (x : f64) : bool :=
  SFltb f64_epsilon (SFabs (f64_sub x (f64_of_int 1))).

(** [SFcompare] unfolds to [Pos.compare_cont]. *)
Lemma compare_cont_eq m n : PosDef.Pos.compare_cont Eq m n = (m ?= n)%positive.
Proof. reflexivity. Qed.

Lemma saturate_range lo hi x n : lo <= hi -> lo <= 0 <= hi -> lo <= saturate lo hi x n <= hi.
Proof. intros H0 H1. unfold saturate. destruct n; [lia|]. destruct x as [|[]| |]; lia. Qed.

Lemma scale_round_fits n scale : fits 32 (scale_round n scale).
Proof.
  unfold scale_round, round_as_u32, fits.
  pose proof (saturate_range 0 (2 ^ 32 - 1) (f64_mul (f64_of_int n) scale)
    (round_int (f64_mul (f64_of_int n) scale))). simpl_pow. lia.
Qed.

Example scale_half : scale_round 1921 (f64_frac 1 2) = 961.
Proof. vm_compute. reflexivity. Qed.

Example no_scale : differs_from_one (f64_of_int 1) = false.
Proof. vm_compute. reflexivity. Qed.
