(* ===== verification/Casts.v ===== *)
(** Casts between the source's float types, and their bits on the wire.

    [as f32] rounds to nearest, ties to even, as [SpecFloat]'s normalisation does;
    the bits of the result decode back to it. *)

From Stdlib Require Import SpecFloat.
From S2P Require Import Prelude Floats.

(** ** Float casts *)

(** [x as f32] of an [f64], and the widening cast. *)
Definition cast_float (prec emax : Z) (x : spec_float) : spec_float :=
  match x with
  | S754_finite s m e => binary_normalize prec emax (if s then Zneg m else Zpos m) e s
  | _ => x
  end.

Definition f32_of_f64 (x : f64) : f32 := cast_float 24 128 x.
Definition f64_of_f32 (x : f32) : f64 := cast_float 53 1024 x.

(** [f32::to_bits] and [from_bits]; all NaNs are the quiet one. *)
Definition f32_to_bits (x : f32) : Z :=
  match x with
  | S754_zero s => if s then 2 ^ 31 else 0
  | S754_infinity s => (if s then 2 ^ 31 else 0) + 255 * 2 ^ 23
  | S754_nan => 255 * 2 ^ 23 + 2 ^ 22
  | S754_finite s m e =>
      (if s then 2 ^ 31 else 0) +
      (if Zpos m <? 2 ^ 23 then Zpos m else (e + 150) * 2 ^ 23 + (Zpos m - 2 ^ 23))
  end.

Definition f32_from_bits (b : Z) : f32 :=
  let s := Z.testbit b 31 in
  let e := (b / 2 ^ 23) mod 256 in
  let m := b mod 2 ^ 23 in
  if e =? 255 then (if m =? 0 then S754_infinity s else S754_nan)
  else match (if e =? 0 then m else m + 2 ^ 23) with
  | Zpos p => S754_finite s p (if e =? 0 then -149 else e - 150)
  | _ => S754_zero s
  end.

(** [x as u32]. *)
Definition f32_as_u32 (x : f32) : Z := saturate 0 (2 ^ 32 - 1) x (trunc_int x).


(** ** The result of a cast is a canonical float *)

Definition canonical32 (m e : Z) : Prop :=
  0 < m < 2 ^ 24 /\ -149 <= e /\ (2 ^ 23 <= m \/ e = -149).

(** A float the bits can hold: zero, infinity, NaN, or canonical and in range. *)
Definition valid32 (x : f32) : Prop :=
  match x with S754_finite _ m e => canonical32 (Zpos m) e /\ e <= 104 | _ => True end.

Lemma digits2_bounds p :
  2 ^ (Zpos (digits2_pos p) - 1) <= Zpos p < 2 ^ Zpos (digits2_pos p).
Proof.
  induction p as [p IH|p IH|]; cbn [digits2_pos]; [| |by vm_compute].
  - rewrite Pos2Z.inj_succ. replace (Z.succ (Zpos (digits2_pos p)) - 1) with (Zpos (digits2_pos p) - 1 + 1) by lia.
    rewrite Z.pow_succ_r by lia. rewrite Z.pow_add_r by lia. lia.
  - rewrite Pos2Z.inj_succ. replace (Z.succ (Zpos (digits2_pos p)) - 1) with (Zpos (digits2_pos p) - 1 + 1) by lia.
    rewrite Z.pow_succ_r by lia. rewrite Z.pow_add_r by lia. lia.
Qed.

Lemma Zdigits2_bounds m : 0 < m -> 2 ^ (Zdigits2 m - 1) <= m < 2 ^ Zdigits2 m /\ 0 < Zdigits2 m.
Proof. destruct m as [|p|p]; [done| |done]. intros _. split; [apply digits2_bounds|cbn; lia]. Qed.

Lemma shr_1_m mrs : 0 <= shr_m mrs -> shr_m (shr_1 mrs) = shr_m mrs / 2.
Proof.
  destruct mrs as [[|p|p] r s]; [done| |done]. intros _. cbn [shr_m].
  destruct p as [p|p|]; [| |done]; cbn [shr_1 shr_m].
  - apply (Z.div_unique _ _ _ 1); lia.
  - apply (Z.div_unique _ _ _ 0); lia.
Qed.

Lemma iter_shr_m n mrs : 0 <= shr_m mrs -> shr_m (SpecFloat.iter_pos shr_1 n mrs) = shr_m mrs / 2 ^ Zpos n.
Proof.
  revert mrs. induction n as [n IH|n IH|]; intros mrs Hm; cbn [SpecFloat.iter_pos].
  - pose proof (shr_1_m mrs Hm) as E1. assert (0 <= shr_m (shr_1 mrs)) by (rewrite E1; apply Z.div_pos; lia).
    pose proof (IH _ H) as E2. assert (0 <= shr_m (SpecFloat.iter_pos shr_1 n (shr_1 mrs))) by (rewrite E2; apply Z.div_pos; lia).
    rewrite IH, E2, E1, !Z.div_div by lia. f_equal.
    rewrite (Pos2Z.inj_xI n), Z.pow_add_r, Z.pow_mul_r, Z.pow_2_r, Z.pow_1_r, Z.pow_mul_l by lia. lia.
  - pose proof (IH _ Hm) as E2. assert (0 <= shr_m (SpecFloat.iter_pos shr_1 n mrs)) by (rewrite E2; apply Z.div_pos; lia).
    rewrite IH, E2, !Z.div_div by lia. f_equal.
    rewrite (Pos2Z.inj_xO n), Z.pow_mul_r, Z.pow_2_r, Z.pow_mul_l by lia. lia.
  - by apply shr_1_m.
Qed.

Lemma shr_m_of_loc m l : shr_m (shr_record_of_loc m l) = m.
Proof. destruct l as [|[]]; done. Qed.

(** Aligning to the format's exponent shifts right or does nothing. *)
Lemma shr_fexp_spec m e l mrs e' : 0 <= m -> shr_fexp 24 128 m e l = (mrs, e') ->
  let n := Z.max 0 (Z.max (Zdigits2 m + e - 24) (-149) - e) in
  shr_m mrs = m / 2 ^ n /\ e' = e + n.
Proof.
  intros Hm. unfold shr_fexp, fexp, emin.
  change (3 - 128 - 24) with (-149).
  destruct (Z.max (Zdigits2 m + e - 24) (-149) - e) as [|n|n] eqn:E; cbn [shr]; intros [= <- <-].
  - rewrite shr_m_of_loc. rewrite Z.div_1_r. split; [done|]. cbn. lia.
  - rewrite iter_shr_m by (by rewrite shr_m_of_loc). rewrite shr_m_of_loc. split; [done|]. lia.
  - rewrite shr_m_of_loc. cbn. rewrite Z.div_1_r. split; [done|]. lia.
Qed.

Lemma round_nearest_even_spec m l : m <= round_nearest_even m l <= m + 1.
Proof. destruct l as [|[]]; cbn; [lia| |lia|lia]. destruct (Z.even m); lia. Qed.

(** The second half of rounding renormalises a mantissa that rounded up to the
    next power of two, and changes nothing else. *)
Lemma renormalise_shape m e mrs e' :
  0 < m <= 2 ^ 24 -> -149 <= e -> (2 ^ 23 <= m \/ e = -149) ->
  shr_fexp 24 128 m e loc_Exact = (mrs, e') ->
  (shr_m mrs = m /\ e' = e /\ m < 2 ^ 24) \/ (m = 2 ^ 24 /\ shr_m mrs = 2 ^ 23 /\ e' = e + 1).
Proof.
  intros Hm He Hc E. apply shr_fexp_spec in E as [E1 E2]; [|lia].
  destruct (Zdigits2_bounds m) as [[D1 D2] D3]; [lia|]. set (d := Zdigits2 m) in *. clearbody d.
  assert (Hd : d <= 25).
  { assert (d - 1 < 25); [|lia]. apply (Z.pow_lt_mono_r_iff 2); [lia..|].
    change (2 ^ 25) with (2 * 2 ^ 24). lia. }
  assert (En : Z.max 0 (Z.max (d + e - 24) (-149) - e) = Z.max 0 (d - 24)) by lia.
  rewrite En in *. destruct (decide (d = 25)) as [->|].
  - right. change (Z.max 0 (25 - 24)) with 1 in *. change (2 ^ (25 - 1)) with (2 ^ 24) in D1.
    assert (m = 2 ^ 24) as -> by lia. by rewrite E1, E2.
  - left. rewrite (Z.max_l 0) in * by lia. rewrite Z.div_1_r in E1. rewrite E1, E2.
    split_and!; [done|lia|]. eapply Z.lt_le_trans; [exact D2|]. apply Z.pow_le_mono_r; lia.
Qed.

Lemma renormalise m e mrs e' :
  0 < m <= 2 ^ 24 -> -149 <= e -> (2 ^ 23 <= m \/ e = -149) ->
  shr_fexp 24 128 m e loc_Exact = (mrs, e') -> canonical32 (shr_m mrs) e'.
Proof.
  intros Hm He Hc E. unfold canonical32. change (2 ^ 24) with 16777216 in *.
  apply renormalise_shape in E as [(-> & -> & ?)|(-> & -> & ->)]; try done;
    change (2 ^ 24) with 16777216 in *; [lia|]. change (2 ^ 23) with 8388608. lia.
Qed.

(** Rounding an aligned mantissa: what the first half leaves. *)
Lemma aligned_mantissa m e mrs e' :
  0 < m -> e <= Z.max (Zdigits2 m + e - 24) (-149) -> shr_fexp 24 128 m e loc_Exact = (mrs, e') ->
  e' = Z.max (Zdigits2 m + e - 24) (-149) /\ shr_m mrs = m / 2 ^ (e' - e) /\
  0 <= shr_m mrs < 2 ^ 24 /\ (2 ^ 23 <= shr_m mrs \/ e' = -149).
Proof.
  intros Hm He E. apply shr_fexp_spec in E as [M1 X1]; [|lia].
  destruct (Zdigits2_bounds m Hm) as [[D1 D2] D3]. set (d := Zdigits2 m) in *. clearbody d.
  rewrite (Z.max_r 0) in * by lia. set (f := Z.max (d + e - 24) (-149)) in *.
  assert (e' = f) as -> by lia. split_and!; [done|done| | |].
  - rewrite M1. apply Z.div_pos; [lia|apply Z.pow_pos_nonneg; lia].
  - rewrite M1. apply Z.div_lt_upper_bound; [apply Z.pow_pos_nonneg; lia|].
    rewrite <- Z.pow_add_r by lia. eapply Z.lt_le_trans; [exact D2|]. apply Z.pow_le_mono_r; lia.
  - destruct (decide (f = -149)) as [|Hf]; [right; lia|left]. rewrite M1.
    apply Z.div_le_lower_bound; [apply Z.pow_pos_nonneg; lia|].
    rewrite <- Z.pow_add_r by lia. by replace (f - e + 23) with (d - 1) by lia.
Qed.

Lemma binary_round_aux_valid s m e :
  0 < m -> e <= Z.max (Zdigits2 m + e - 24) (-149) ->
  valid32 (binary_round_aux 24 128 s m e loc_Exact).
Proof.
  intros Hm He. unfold binary_round_aux.
  destruct (shr_fexp 24 128 m e loc_Exact) as [mrs1 e1] eqn:E1.
  destruct (aligned_mantissa _ _ _ _ Hm He E1) as (X1 & _ & H0 & Hge).
  pose proof (round_nearest_even_spec (shr_m mrs1) (loc_of_shr_record mrs1)) as Hr.
  set (m2 := round_nearest_even _ _) in *. clearbody m2.
  destruct (shr_fexp 24 128 m2 e1 loc_Exact) as [mrs3 e3] eqn:E3.
  destruct (decide (m2 = 0)) as [->|].
  - apply shr_fexp_spec in E3 as [M3 _]; [|lia]. rewrite M3.
    rewrite Z.div_0_l; [done|]. pose proof (Z.pow_pos_nonneg 2 (Z.max 0 (Z.max (Zdigits2 0 + e1 - 24) (-149) - e1))). lia.
  - apply renormalise in E3; [|lia..]. destruct E3 as (Hp & Hq & Hs).
    destruct (shr_m mrs3) as [|p|p]; [done| |done].
    destruct (Z.leb_spec e3 (128 - 24)); [|done]. split; [done|lia].
Qed.

(** Truncation of a rounded value does not pass a power of two it stays below:
    [m * 2^e <= 2^k] and exponents below one. *)
Lemma round_trunc_le s m e k :
  0 < m -> 0 <= k -> e <= Z.max (Zdigits2 m + e - 24) (-149) < 0 -> m <= 2 ^ (k - e) ->
  exists n, trunc_int (binary_round_aux 24 128 s m e loc_Exact) = Some (if s then - n else n) /\
    0 <= n <= 2 ^ k.
Proof.
  intros Hm Hk [He Hneg] Hle. unfold binary_round_aux.
  destruct (shr_fexp 24 128 m e loc_Exact) as [mrs1 e1] eqn:E1.
  destruct (aligned_mantissa _ _ _ _ Hm He E1) as (X1 & M1 & H0 & Hge). rewrite <- X1 in *.
  assert (Hm1 : shr_m mrs1 <= 2 ^ (k - e1)).
  { rewrite M1. apply Z.div_le_upper_bound; [apply Z.pow_pos_nonneg; lia|].
    rewrite <- Z.pow_add_r by lia. by replace (e1 - e + (k - e1)) with (k - e) by lia. }
  pose proof (round_nearest_even_spec (shr_m mrs1) (loc_of_shr_record mrs1)) as Hr.
  set (m2 := round_nearest_even _ _) in *. clearbody m2.
  assert (Hk0 : 0 < 2 ^ k) by (apply Z.pow_pos_nonneg; lia).
  destruct (shr_fexp 24 128 m2 e1 loc_Exact) as [mrs3 e3] eqn:E3.
  destruct (decide (m2 = 0)) as [->|].
  { apply shr_fexp_spec in E3 as [M3 _]; [|lia]. rewrite M3. rewrite Z.div_0_l.
    - exists 0. cbn. split; [by destruct s|lia].
    - pose proof (Z.pow_pos_nonneg 2 (Z.max 0 (Z.max (Zdigits2 0 + e1 - 24) (-149) - e1))). lia. }
  assert (Hsh : exists p, shr_m mrs3 = Zpos p /\ e3 <= 0 /\ Zpos p / 2 ^ (- e3) <= 2 ^ k).
  { apply renormalise_shape in E3 as [(-> & -> & _)|(-> & -> & ->)]; [| |lia..].
    - destruct m2 as [|p|p]; [lia| |lia]. exists p. split_and!; [done|lia|].
      enough (Zpos p / 2 ^ (- e1) < 2 ^ k + 1) by lia.
      apply Z.div_lt_upper_bound; [apply Z.pow_pos_nonneg; lia|].
      rewrite Z.mul_add_distr_l, <- Z.pow_add_r by lia. replace (- e1 + k) with (k - e1) by lia.
      assert (2 ^ 1 <= 2 ^ (- e1)) by (apply Z.pow_le_mono_r; lia). change (2 ^ 1) with 2 in *. lia.
    - exists (2 ^ 23)%positive. split_and!; [done|lia|]. change (Zpos (2 ^ 23)) with (2 ^ 23).
      assert (Hkl : 24 <= k - e1).
      { destruct (Z_le_gt_dec 24 (k - e1)) as [|Hlt]; [done|].
        assert (2 ^ (k - e1) <= 2 ^ 23) by (apply Z.pow_le_mono_r; lia).
        change (2 ^ 24) with 16777216 in *. change (2 ^ 23) with 8388608 in *. lia. }
      apply Z.div_le_upper_bound; [apply Z.pow_pos_nonneg; lia|].
      rewrite <- Z.pow_add_r by lia. apply Z.pow_le_mono_r; lia. }
  destruct Hsh as (p & -> & He3 & Hle3). rewrite (proj2 (Z.leb_le e3 (128 - 24))) by lia.
  exists (Zpos p / 2 ^ (- e3)). cbn [trunc_int]. unfold shift_floor.
  rewrite Z.shiftl_div_pow2 by lia. split; [by destruct s|]. split; [|done].
  apply Z.div_pos; [lia|apply Z.pow_pos_nonneg; lia].
Qed.

Lemma iter_xO_spec p n : Zpos (Pos.iter xO p n) = Zpos p * 2 ^ Zpos n /\
  Zpos (digits2_pos (Pos.iter xO p n)) = Zpos (digits2_pos p) + Zpos n.
Proof.
  revert n. apply Pos.peano_ind.
  - cbn. lia.
  - intros n [IH1 IH2]. rewrite Pos.iter_succ. cbn [digits2_pos].
    rewrite !Pos2Z.inj_succ, Z.pow_succ_r by lia. lia.
Qed.

Lemma binary_round_valid s p e : valid32 (binary_round 24 128 s p e).
Proof.
  unfold binary_round, shl_align, fexp, emin. change (3 - 128 - 24) with (-149).
  set (f := Z.max _ _). destruct (f - e) as [|n|n] eqn:E.
  1, 2: apply binary_round_aux_valid; [lia|cbn [Zdigits2]; lia].
  destruct (iter_xO_spec p n) as [_ D].
  apply binary_round_aux_valid; [lia|]. cbn [Zdigits2]. rewrite D. lia.
Qed.

Lemma f32_of_f64_valid s m e : valid32 (f32_of_f64 (S754_finite s m e)).
Proof. cbn. destruct s; apply binary_round_valid. Qed.

(** ** Bits *)

Lemma bits_parts (s : bool) E M : 0 <= E < 256 -> 0 <= M < 2 ^ 23 ->
  let b := (if s then 2 ^ 31 else 0) + (E * 2 ^ 23 + M) in
  Z.testbit b 31 = s /\ (b / 2 ^ 23) mod 256 = E /\ b mod 2 ^ 23 = M /\ fits 32 b.
Proof.
  intros HE HM b. assert (Hb : b = M + ((if s then 256 else 0) + E) * 2 ^ 23).
  { unfold b. change (2 ^ 31) with (256 * 2 ^ 23). destruct s; lia. }
  change (2 ^ 23) with 8388608 in *. split_and!.
  -
    assert (Q : b / 2 ^ 31 = if s then 1 else 0).
    { symmetry. change (2 ^ 31) with 2147483648. apply (Z.div_unique _ _ _ (E * 8388608 + M)); [lia|].
      rewrite Hb. destruct s; lia. }
    pose proof (Z.testbit_spec' b 31 ltac:(lia)) as S. rewrite Q in S.
    destruct (Z.testbit b 31), s; cbn in S; lia || done.
  - rewrite Hb, Z.div_add, (Z.div_small M) by lia. rewrite Z.add_0_l.
    destruct s; [|by apply Z.mod_small]. rewrite Z.add_comm.
    change 256 with (1 * 256) at 1. rewrite Z_mod_plus_full. by apply Z.mod_small.
  - rewrite Hb, Z_mod_plus_full. by apply Z.mod_small.
  - rewrite Hb. unfold fits. change (2 ^ 32) with 4294967296. destruct s; lia.
Qed.

Lemma f32_bits_finite s m e : valid32 (S754_finite s m e) ->
  fits 32 (f32_to_bits (S754_finite s m e)) /\
  f32_from_bits (f32_to_bits (S754_finite s m e)) = S754_finite s m e.
Proof.
  intros ((Hm & He & Hc) & Hx). cbn [f32_to_bits].
  change (2 ^ 24) with (2 * 2 ^ 23) in Hm. pose proof (bits_parts s) as P.
  destruct (Z.ltb_spec (Zpos m) (2 ^ 23)) as [Hlt|Hge].
  - destruct (P 0 (Zpos m)) as (B1 & B2 & B3 & B4); [lia..|]. cbn [Z.mul] in *.
    rewrite Z.add_0_l in *. split; [done|]. unfold f32_from_bits. rewrite B1, B2, B3.
    cbn. f_equal. lia.
  - destruct (P (e + 150) (Zpos m - 2 ^ 23)) as (B1 & B2 & B3 & B4); [lia..|].
    split; [done|]. unfold f32_from_bits. rewrite B1, B2, B3.
    rewrite (proj2 (Z.eqb_neq (e + 150) 255)), (proj2 (Z.eqb_neq (e + 150) 0)) by lia.
    replace (Zpos m - 2 ^ 23 + 2 ^ 23) with (Zpos m) by lia. f_equal. lia.
Qed.

Lemma cast_bits_ok (x : f64) :
  fits 32 (f32_to_bits (f32_of_f64 x)) /\
  f32_from_bits (f32_to_bits (f32_of_f64 x)) = f32_of_f64 x.
Proof.
  destruct x as [s|s| |s m e]; [destruct s; done..|by vm_compute|].
  pose proof (f32_of_f64_valid s m e) as Hv.
  destruct (f32_of_f64 (S754_finite s m e)) as [t|t| |t n k]; [destruct t; done..|by vm_compute|].
  by apply f32_bits_finite.
Qed.
