(* ===== verification/Scaling.v ===== *)
(** Raster operations of the server's pipeline
    ([crates/remoteway-server/src/pipeline.rs]): cutting a frame into stripes
    and the two downscalers.

    The source computes in [u32]; every sum and product below wraps at 32 bits
    where the source's does. *)

From S2P Require Import Prelude Delta.

(** ** [stripe_full_frame] *)

(** The loop from stripe [i], [k] stripes to go, at row [y]. *)
Fixpoint stripe_loop (k : nat) (i y width base rem : Z) : list DamageRect :=
  match k with
  | O => []
  | S k =>
      let h := wrap 32 (base + (if i <? rem then 1 else 0)) in
      DamageRect_new 0 y width h :: stripe_loop k (i + 1) (wrap 32 (y + h)) width base rem
  end.

Definition stripe_full_frame (width height n : Z) : list DamageRect :=
  let n := Z.max (Z.min (wrap 32 n) height) 1 in
  if n =? 1 then [DamageRect_new 0 0 width height]
  else stripe_loop (Z.to_nat n) 0 0 width (height / n) (height mod n).

(** ** [downscale_nearest] *)

Definition downscale_nearest (src : list Z) (src_w src_h src_stride dst_w dst_h : Z)
    : option (list Z * Z) :=
  let dst_stride := wrap 32 (dst_w * 4) in
  let total := wrap 32 (dst_stride * dst_h) in
  let dst := replicate (Z.to_nat total) 0 in
  dst ← foldM (fun dst dy =>
    let sy := wrap 32 (dy * src_h / dst_h) in
    let src_row := wrap 32 (sy * src_stride) in
    let dst_row := wrap 32 (dy * dst_stride) in
    foldM (fun dst dx =>
      let sx := wrap 32 (dx * src_w / dst_w) in
      let si := src_row + wrap 32 (sx * 4) in
      let di := dst_row + wrap 32 (dx * 4) in
      px ← slice src si (si + 4);
      splice dst di px) dst (zrange dst_w)) dst (zrange dst_h);
  Some (dst, dst_stride).

(** ** [downscale_box] *)

(** The half-open source range of a destination index, for either axis. *)
Definition box_range (d src dst : Z) : Z * Z :=
  let s0 := wrap 32 (d * src / dst) in
  let s1_raw := wrap 32 (wrap 32 (d + 1) * src / dst) in
  (s0, Z.min (Z.max s1_raw (wrap 32 (s0 + 1))) src).

(** [for s in a..b]. *)
Definition range (a b : Z) : list Z := (fun i => a + i) <$> zrange (b - a).

Record Acc := mkAcc { acc_r : Z; acc_g : Z; acc_b : Z; acc_a : Z; acc_n : Z }.

Definition box_pixel (src : list Z) (src_stride sx0 sx1 sy0 sy1 : Z) : option Acc :=
  foldM (fun acc sy =>
    let row_off := wrap 32 (sy * src_stride) in
    foldM (fun acc sx =>
      let off := row_off + wrap 32 (sx * 4) in
      r ← get src off; g ← get src (off + 1);
      b ← get src (off + 2); a ← get src (off + 3);
      Some (mkAcc (wrap 32 (acc_r acc + r)) (wrap 32 (acc_g acc + g))
              (wrap 32 (acc_b acc + b)) (wrap 32 (acc_a acc + a))
              (wrap 32 (acc_n acc + 1)))) acc (range sx0 sx1))
    (mkAcc 0 0 0 0 0) (range sy0 sy1).

(** Division by zero panics; [as u8] truncates. *)
Definition box_div (a n : Z) : option Z := if n =? 0 then None else Some (wrap 8 (a / n)).

Definition box_row (src : list Z) (src_w src_h src_stride dst_w dst_h : Z)
    (dy : Z) (row_buf : list Z) : option (list Z) :=
  let '(sy0, sy1) := box_range dy src_h dst_h in
  foldM (fun row_buf dx =>
    let '(sx0, sx1) := box_range dx src_w dst_w in
    acc ← box_pixel src src_stride sx0 sx1 sy0 sy1;
    let di := wrap 32 (dx * 4) in
    r ← box_div (acc_r acc) (acc_n acc); g ← box_div (acc_g acc) (acc_n acc);
    b ← box_div (acc_b acc) (acc_n acc); a ← box_div (acc_a acc) (acc_n acc);
    row_buf ← set row_buf di r; row_buf ← set row_buf (di + 1) g;
    row_buf ← set row_buf (di + 2) b; set row_buf (di + 3) a) row_buf (zrange dst_w).

(** [dst.par_chunks_mut(dst_stride).enumerate().for_each(..)]: the rows are
    disjoint, so the workers' order does not matter. *)
Definition downscale_box (src : list Z) (src_w src_h src_stride dst_w dst_h : Z)
    : option (list Z * Z) :=
  let dst_stride := wrap 32 (dst_w * 4) in
  let total := wrap 32 (dst_stride * dst_h) in
  let dst := replicate (Z.to_nat total) 0 in
  if (dst_w =? 0) || (dst_h =? 0) then Some (dst, dst_stride)
  else if (src_w <=? dst_w) && (src_h <=? dst_h) then Some (dst, dst_stride)
  else
    rows ← chunks_exact_or_last dst_stride dst;
    rows ← mapM (fun dr => box_row src src_w src_h src_stride dst_w dst_h (wrap 32 dr.1) dr.2)
             (zip (zrange (zlen rows)) rows);
    Some (mjoin rows, dst_stride).

(** ** Stripes partition the frame *)

(** Consecutive stripes of full width from row [y] to row [bottom]. *)
Inductive stacked (width : Z) : Z -> Z -> list DamageRect -> Prop :=
  | stacked_nil y : stacked width y y []
  | stacked_cons y h bottom rs :
      0 < h -> stacked width (y + h) bottom rs ->
      stacked width y bottom (mkDamageRect 0 y width h :: rs).

Lemma stripe_loop_stacked k i y width base rem :
  0 < base -> 0 <= i -> 0 <= y -> 0 <= rem ->
  y + base * Z.of_nat k + Z.max 0 (Z.min (rem - i) (Z.of_nat k)) < 2 ^ 32 ->
  stacked width y (y + base * Z.of_nat k + Z.max 0 (Z.min (rem - i) (Z.of_nat k)))
    (stripe_loop k i y width base rem).
Proof.
  revert i y. induction k as [|k IH]; intros i y Hb Hi Hy Hr Hn; cbn [stripe_loop].
  { replace (_ + _) with y by lia. constructor. }
  rewrite Nat2Z.inj_succ in *.
  assert (0 <= base * Z.of_nat k) by (apply Z.mul_nonneg_nonneg; lia).
  replace (base * Z.succ (Z.of_nat k)) with (base * Z.of_nat k + base) in * by lia.
  destruct (Z.ltb_spec i rem).
  - rewrite (wrap_small 32 (base + 1)), (wrap_small 32 (y + _)) by width_lia.
    constructor; [lia|].
    specialize (IH (i + 1) (y + (base + 1))).
    replace (y + (base * Z.of_nat k + base) + Z.max 0 (Z.min (rem - i) (Z.succ (Z.of_nat k))))
      with (y + (base + 1) + base * Z.of_nat k + Z.max 0 (Z.min (rem - (i + 1)) (Z.of_nat k))) in *
      by lia. apply IH; lia.
  - rewrite (wrap_small 32 (base + 0)), (wrap_small 32 (y + _)) by width_lia.
    constructor; [lia|].
    specialize (IH (i + 1) (y + (base + 0))).
    replace (y + (base * Z.of_nat k + base) + Z.max 0 (Z.min (rem - i) (Z.succ (Z.of_nat k))))
      with (y + (base + 0) + base * Z.of_nat k + Z.max 0 (Z.min (rem - (i + 1)) (Z.of_nat k))) in *
      by lia. apply IH; lia.
Qed.

Lemma stripe_full_frame_stacked width height n :
  0 < height < 2 ^ 32 -> stacked width 0 height (stripe_full_frame width height n).
Proof.
  intros Hh. unfold stripe_full_frame.
  set (m := Z.max (Z.min (wrap 32 n) height) 1).
  assert (Hm : 1 <= m <= height).
  { unfold m. lia. }
  destruct (Z.eqb_spec m 1) as [_|Hne].
  - replace height with (0 + height) at 1 by lia. constructor; [lia|]. constructor.
  - pose proof (Z_div_mod_eq_full height m) as E. pose proof (Z.mod_pos_bound height m ltac:(lia)).
    assert (0 < height / m) by (apply Z.div_str_pos; lia).
    pose proof (stripe_loop_stacked (Z.to_nat m) 0 0 width (height / m) (height mod m)) as S.
    rewrite Z2Nat.id in S by lia.
    replace (0 + height / m * m + Z.max 0 (Z.min (height mod m - 0) m)) with height in S by lia.
    apply S; lia.
Qed.

(** Row [y] of the frame lies in the rect. *)
Definition has_row (y : Z) (r : DamageRect) : bool := (dr_y r <=? y) && (y <? dr_y r + dr_height r).

Lemma stacked_le width y bottom rs : stacked width y bottom rs -> y <= bottom.
Proof. induction 1; lia. Qed.

Lemma stacked_rows width y bottom rs row :
  stacked width y bottom rs ->
  length (filter (fun r => has_row row r = true) rs) =
    if (y <=? row) && (row <? bottom) then 1%nat else 0%nat.
Proof.
  induction 1 as [y|y h bottom rs Hh Hs IH].
  { cbn. destruct (Z.leb_spec y row), (Z.ltb_spec row y); cbn; lia || done. }
  pose proof (stacked_le _ _ _ _ Hs). rewrite filter_cons.
  destruct (decide _) as [E|E]; unfold has_row in E; cbn [dr_y dr_height] in E;
    cbn [length]; rewrite IH; clear IH;
    destruct (Z.leb_spec y row), (Z.ltb_spec row (y + h)), (Z.ltb_spec row bottom),
      (Z.leb_spec (y + h) row); cbn [andb] in *; try done; lia.
Qed.

Lemma stacked_rect_ok width y bottom rs stride n :
  stacked width y bottom rs -> 0 <= y -> bottom < 2 ^ 32 -> fits 32 width -> 0 <= stride ->
  n < 2 ^ 63 -> (y < bottom -> (bottom - 1) * stride + width * 4 <= n) ->
  Forall (rect_ok stride n) rs.
Proof.
  intros Hs. induction Hs as [y|y h bottom rs Hh Hs IH]; intros Hy Hb Hw Hst Hn Hin; [constructor|].
  pose proof (stacked_le _ _ _ _ Hs). constructor.
  - split_and!; cbn; try done; [width_lia|width_lia|]. right.
    assert ((y + h - 1) * stride <= (bottom - 1) * stride) by (apply Z.mul_le_mono_nonneg_r; lia).
    specialize (Hin ltac:(lia)). lia.
  - apply IH; try done; [lia|]. intros _. apply Hin. lia.
Qed.

(** The bytes of the pixels of a frame; the row padding is not among them. *)
Definition visible (width height stride k : Z) : Prop :=
  exists row, 0 <= row < height /\ row * stride <= k < row * stride + width * 4.

Lemma covered_spec ss k : covered ss k = true <-> exists s, s ∈ ss /\ s.1 <= k < s.1 + s.2.
Proof.
  unfold covered. rewrite existsb_exists. setoid_rewrite <- list_elem_of_In.
  split; intros (s & Hs & Hk); exists s; (split; [done|]).
  - apply andb_true_iff in Hk as [?%Z.leb_le ?%Z.ltb_lt]. done.
  - apply andb_true_iff. by rewrite Z.leb_le, Z.ltb_lt.
Qed.

Lemma spans_elem stride rs s :
  s ∈ spans stride rs <->
  exists r row, r ∈ rs /\ 0 <= row < dr_height r /\ s = row_span stride r row.
Proof.
  unfold spans. rewrite list_elem_of_join. split.
  - intros (l & Hs & Hl). apply list_elem_of_fmap in Hl as (r & -> & Hr).
    apply list_elem_of_fmap in Hs as (row & -> & Hrow). apply elem_of_zrange in Hrow. by exists r, row.
  - intros (r & row & Hr & Hrow & ->). exists (rect_spans stride r).
    split; apply list_elem_of_fmap; [exists row; split; [done|by apply elem_of_zrange]|by exists r].
Qed.

Lemma stacked_elem width y bottom rs row :
  stacked width y bottom rs -> y <= row < bottom ->
  exists y0 h, mkDamageRect 0 y0 width h ∈ rs /\ y0 <= row < y0 + h.
Proof.
  induction 1 as [y|y h bottom rs Hh Hs IH]; intros Hrow; [lia|].
  destruct (decide (row < y + h)).
  - exists y, h. split; [constructor|lia].
  - destruct IH as (y0 & h0 & Hin & ?); [lia|]. exists y0, h0. split; [by constructor|done].
Qed.

Lemma stacked_covers width height stride rs k :
  stacked width 0 height rs -> visible width height stride k -> covered (spans stride rs) k = true.
Proof.
  intros Hs (row & Hrow & Hk). apply covered_spec.
  destruct (stacked_elem _ _ _ _ row Hs Hrow) as (y0 & h & Hin & Hy).
  exists (row_span stride (mkDamageRect 0 y0 width h) (row - y0)). split.
  - apply spans_elem. exists (mkDamageRect 0 y0 width h), (row - y0).
    split_and!; [exact Hin|cbn; lia|cbn; lia|done].
  - unfold row_span. cbn. replace (y0 + (row - y0)) with row by lia. lia.
Qed.

(** Cutting a frame into stripes for the worker pool loses
    and repeats nothing: for any worker count the stripes are full-width rects
    stacked from the first row to the last, so every row lies in exactly one of
    them and every pixel byte is covered. *)
Theorem stripes_partition width height stride n :
  0 < height < 2 ^ 32 ->
  let rs := stripe_full_frame width height n in
  stacked width 0 height rs /\
  (forall row, 0 <= row < height -> length (filter (fun r => has_row row r = true) rs) = 1%nat) /\
  (forall k, visible width height stride k -> covered (spans stride rs) k = true).
Proof.
  intros Hh rs. pose proof (stripe_full_frame_stacked width height n Hh) as Hs.
  split_and!; [done| |].
  - intros row Hrow. unfold rs. rewrite (stacked_rows _ _ _ _ _ Hs).
    destruct (Z.leb_spec 0 row), (Z.ltb_spec row height); try lia. done.
  - intros k. by apply stacked_covers.
Qed.

Lemma stripes_partition_witness :
  let rs := stripe_full_frame 640 481 16 in
  stacked 640 0 481 rs /\
  (forall row, 0 <= row < 481 -> length (filter (fun r => has_row row r = true) rs) = 1%nat) /\
  (forall k, visible 640 481 2560 k -> covered (spans 2560 rs) k = true).
Proof. apply (stripes_partition 640 481 2560 16). lia. Defined.
