(* ===== verification/Downscale.v ===== *)
(** What the two downscalers of the server compute
    ([downscale_nearest] and [downscale_box] of
    [crates/remoteway-server/src/pipeline.rs], defined in [Scaling]): the loops
    over a mutable buffer produce the image a one-line description gives, without
    panicking or wrapping for any frame a [u32] can address. *)

From S2P Require Import Prelude Delta Scaling.

(** ** Images row by row *)

(** The pixels [p x y], four bytes each, row after row. *)
Definition raster_row (w : Z) (p : Z -> list Z) : list Z := mjoin (p <$> zrange w).
Definition raster (w h : Z) (p : Z -> Z -> list Z) : list Z :=
  mjoin ((fun y => raster_row w (p y)) <$> zrange h).

Lemma mjoin_succ {A} (p : Z -> list A) n : 0 <= n ->
  mjoin (p <$> zrange (n + 1)) = mjoin (p <$> zrange n) ++ p n.
Proof. intros Hn. rewrite zrange_succ, fmap_app, join_app by done. cbn. by rewrite app_nil_r. Qed.

Lemma zlen_mjoin_same {A} (p : Z -> list A) n k :
  0 <= n -> (forall i, 0 <= i < n -> zlen (p i) = k) -> zlen (mjoin (p <$> zrange n)) = n * k.
Proof.
  intros Hn. revert n Hn. apply (natlike_ind (fun n => _ -> _)); [done|].
  intros n Hn IH Hp. unfold Z.succ in *. rewrite mjoin_succ, zlen_app, IH, Hp by (intros; try apply Hp; lia). lia.
Qed.

Lemma raster_zlen w h p :
  0 <= w -> 0 <= h -> (forall x y, 0 <= x < w -> 0 <= y < h -> zlen (p y x) = 4) ->
  zlen (raster w h p) = h * (w * 4).
Proof.
  intros Hw Hh Hp. apply zlen_mjoin_same; [done|]. intros y Hy.
  apply zlen_mjoin_same; [done|]. auto.
Qed.

Lemma get_mjoin {A} (p : Z -> list A) n k i j :
  (forall i, 0 <= i < n -> zlen (p i) = k) -> 0 <= i < n -> 0 <= j < k ->
  get (mjoin (p <$> zrange n)) (i * k + j) = get (p i) j.
Proof.
  intros Hp Hi Hj. unfold get.
  assert (0 <= i * k) by (apply Z.mul_nonneg_nonneg; lia).
  rewrite !decide_True by lia.
  replace (Z.to_nat (i * k + j)) with (Z.to_nat i * Z.to_nat k + Z.to_nat j)%nat by lia.
  apply option_eq. intros v.
  rewrite (join_lookup_Some_same_length' (Z.to_nat k)); [|apply list.Forall_fmap, list.Forall_forall|lia].
  - rewrite list_lookup_fmap, zrange_lookup by lia. cbn. rewrite Z2Nat.id by lia.
    split; [by intros (l & [= <-] & ?)|by eauto].
  - intros m Hm%elem_of_zrange. specialize (Hp m Hm). unfold zlen in Hp. cbn. lia.
Qed.

Lemma get_raster w h p x y c :
  (forall x y, 0 <= x < w -> 0 <= y < h -> zlen (p y x) = 4) ->
  0 <= x < w -> 0 <= y < h -> 0 <= c < 4 ->
  get (raster w h p) (y * (w * 4) + (x * 4 + c)) = get (p y x) c.
Proof.
  intros Hp Hx Hy Hc. unfold raster. rewrite get_mjoin; [|intros; apply zlen_mjoin_same; auto with lia|lia..].
  apply get_mjoin; [auto|lia..].
Qed.

(** ** Filling a zeroed buffer from the left *)

Lemma foldM_zrange {S} (P : Z -> S -> Prop) (f : S -> Z -> option S) s n :
  0 <= n -> P 0 s ->
  (forall i s, 0 <= i < n -> P i s -> exists s', f s i = Some s' /\ P (i + 1) s') ->
  exists s', foldM f s (zrange n) = Some s' /\ P n s'.
Proof.
  intros Hn H0 Hstep. revert n Hn Hstep.
  apply (natlike_ind (fun n => _ -> exists s', foldM f s (zrange n) = Some s' /\ P n s')).
  - intros _. by exists s.
  - intros n Hn IH Hstep. unfold Z.succ in *. destruct IH as (s1 & E1 & P1); [intros; apply Hstep; lia || done|].
    destruct (Hstep n s1) as (s2 & E2 & P2); [lia|done|].
    exists s2. rewrite zrange_succ, foldM_app, E1 by done. cbn. by rewrite E2.
Qed.

Lemma splice_fill done px (r : nat) (x : Z) a :
  a = zlen done -> (length px <= r)%nat ->
  splice (done ++ replicate r x) a px = Some ((done ++ px) ++ replicate (r - length px) x).
Proof.
  intros -> Hr. unfold splice. rewrite decide_True.
  - f_equal. unfold zlen. rewrite Nat2Z.id, take_app_length, <- app_assoc. do 2 f_equal.
    rewrite drop_app_add. by rewrite drop_replicate.
  - rewrite zlen_app. unfold zlen. rewrite length_replicate. lia.
Qed.

(** The state after filling [done]: what is left is zero. *)
Definition filled (n : Z) (done dst : list Z) : Prop :=
  dst = done ++ replicate (Z.to_nat (n - zlen done)) 0.

Lemma filled_start n : filled n [] (replicate (Z.to_nat n) 0).
Proof. unfold filled. change (zlen []) with 0. by rewrite Z.sub_0_r. Qed.

Lemma filled_splice n done dst px a :
  filled n done dst -> a = zlen done -> zlen done + zlen px <= n ->
  exists dst', splice dst a px = Some dst' /\ filled n (done ++ px) dst'.
Proof.
  intros -> Ha Hn. eexists. split; [apply splice_fill; [done|unfold zlen in *; lia]|].
  unfold filled. rewrite zlen_app. do 2 f_equal. unfold zlen in *. lia.
Qed.

Lemma filled_end n done dst : filled n done dst -> zlen done = n -> dst = done.
Proof. intros -> <-. rewrite Z.sub_diag. apply app_nil_r. Qed.

(** ** Nearest neighbour *)

(** A frame the loops can address. *)
Definition addressable (src : list Z) (w h stride : Z) : Prop :=
  0 < w /\ 0 < h /\ w * 4 <= stride /\ stride * h < 2 ^ 32 /\ (h - 1) * stride + w * 4 <= zlen src.

Definition small (w h : Z) : Prop := 0 < w /\ 0 < h /\ w * 4 * h < 2 ^ 32.

Lemma addressable_at src w h stride x y :
  addressable src w h stride -> 0 <= x < w -> 0 <= y < h ->
  0 <= y * stride /\ y * stride < 2 ^ 32 /\ 0 <= x * 4 /\ x * 4 < 2 ^ 32 /\
  y * stride + x * 4 + 4 <= zlen src.
Proof.
  intros (Hw & Hh & Hs & Hn & Hl) Hx Hy.
  assert (y * stride <= (h - 1) * stride) by (apply Z.mul_le_mono_nonneg_r; lia).
  assert (0 <= y * stride) by (apply Z.mul_nonneg_nonneg; lia).
  assert (stride * h = (h - 1) * stride + stride) by lia. lia.
Qed.

Lemma small_at w h x y : small w h -> 0 <= x < w -> 0 <= y < h ->
  0 <= y * (w * 4) /\ y * (w * 4) < 2 ^ 32 /\ x * 4 < 2 ^ 32 /\ w * 4 < 2 ^ 32 /\ w < 2 ^ 32 /\ h < 2 ^ 32 /\
  y * (w * 4) + x * 4 + 4 <= h * (w * 4).
Proof.
  intros (Hw & Hh & Hn) Hx Hy.
  assert (y * (w * 4) <= (h - 1) * (w * 4)) by (apply Z.mul_le_mono_nonneg_r; lia).
  assert (0 <= y * (w * 4)) by (apply Z.mul_nonneg_nonneg; lia).
  assert (0 <= (h - 1) * (w * 4)) by (apply Z.mul_nonneg_nonneg; lia).
  assert (w * 4 * h = (h - 1) * (w * 4) + w * 4) by lia.
  assert (h <= w * 4 * h) by nia. lia.
Qed.

(** The sample index of a destination index: floor of the ratio. *)
Lemma sample_bound d src dst : 0 <= d < dst -> 0 < src -> 0 <= d * src / dst < src.
Proof.
  intros Hd Hs. split; [apply Z.div_pos; nia|]. apply Z.div_lt_upper_bound; nia.
Qed.

(** The four bytes of pixel [x], [y]. *)
Definition px_at (src : list Z) (stride x y : Z) : list Z :=
  take 4 (drop (Z.to_nat (y * stride + x * 4)) src).

Lemma px_at_zlen src w h stride x y :
  addressable src w h stride -> 0 <= x < w -> 0 <= y < h -> zlen (px_at src stride x y) = 4.
Proof.
  intros Ha Hx Hy. destruct (addressable_at _ _ _ _ x y Ha Hx Hy) as (?&?&?&?&?).
  unfold px_at, zlen in *. rewrite length_take, length_drop. lia.
Qed.

Definition nearest_px (src : list Z) (w h stride dw dh y x : Z) : list Z :=
  px_at src stride (x * w / dw) (y * h / dh).

Lemma nearest_px_zlen src w h stride dw dh x y :
  addressable src w h stride -> 0 <= x < dw -> 0 <= y < dh ->
  zlen (nearest_px src w h stride dw dh y x) = 4.
Proof.
  intros Ha Hx Hy. pose proof Ha as (Hw & Hh & _).
  eapply px_at_zlen; [exact Ha|by apply sample_bound..].
Qed.

Lemma downscale_nearest_raster src w h stride dw dh :
  addressable src w h stride -> small dw dh ->
  downscale_nearest src w h stride dw dh =
    Some (raster dw dh (nearest_px src w h stride dw dh), dw * 4).
Proof.
  intros Ha Hs. unfold downscale_nearest. pose proof Ha as (Hw & Hh & _ & Hn & _). pose proof Hs as (Hdw & Hdh & _).
  destruct (small_at dw dh 0 0 Hs) as (_&_&_&?&?&?&_); [lia..|].
  assert (h <= stride * h) by (destruct Ha as (?&?&?&_); nia).
  assert (w <= stride * h) by (destruct Ha as (?&?&?&_); nia).
  rewrite (wrap_small 32 (dw * 4)) by width_lia. rewrite (wrap_small 32 (dw * 4 * dh)) by (destruct Hs as (_&_&?); width_lia).
  set (px := nearest_px src w h stride dw dh).
  assert (Hpx : forall x y, 0 <= x < dw -> 0 <= y < dh -> zlen (px y x) = 4) by (intros; by apply nearest_px_zlen).
  set (n := dw * 4 * dh).
  match goal with |- context [foldM ?f ?s (zrange dh)] =>
    destruct (foldM_zrange (fun y dst => filled n (raster dw y px) dst) f s dh) as (dst & E & Hf) end.
  - lia.
  - apply filled_start.
  - intros y dst Hy Hf. cbn beta zeta.
    destruct (sample_bound y h dh) as [Y0 Y1]; [lia..|].
    rewrite (wrap_small 32 (y * h / dh)) by width_lia.
    match goal with |- context [foldM ?f ?s (zrange dw)] =>
      destruct (foldM_zrange (fun x dst => filled n (raster dw y px ++ raster_row x (px y)) dst) f s dw)
        as (dst' & E & Hf') end.
    + lia.
    + unfold raster_row. cbn. by rewrite app_nil_r.
    + intros x d Hx Hd. destruct (sample_bound x w dw) as [X0 X1]; [lia..|].
      destruct (addressable_at src w h stride _ _ Ha (conj X0 X1) (conj Y0 Y1)) as (?&?&?&?&?).
      destruct (small_at dw dh x y Hs Hx Hy) as (?&?&?&_&_&_&?).
      rewrite (wrap_small 32 (x * w / dw)) by width_lia. rewrite !wrap_small by width_lia. rewrite slice_ok by lia. cbn [mbind option_bind].
      replace (Z.to_nat (_ - _)) with 4%nat by lia. fold (px_at src stride (x * w / dw) (y * h / dh)).
      change (px_at src stride (x * w / dw) (y * h / dh)) with (px y x).
      assert (Hrow : zlen (raster_row x (px y)) = x * 4) by (apply zlen_mjoin_same; intros; [lia|apply Hpx; lia]).
      assert (Hras : zlen (raster dw y px) = y * (dw * 4)) by (apply raster_zlen; intros; [lia..|apply Hpx; lia]).
      destruct (filled_splice n _ d (px y x) (y * (dw * 4) + x * 4) Hd) as (d' & -> & Hd').
      * rewrite zlen_app. lia.
      * rewrite zlen_app, Hpx by lia. unfold n. lia.
      * exists d'. split; [done|]. unfold raster_row at 1. rewrite mjoin_succ, app_assoc by lia. done.
    + exists dst'. split; [exact E|]. unfold raster. rewrite mjoin_succ by lia. exact Hf'.
  - rewrite E. cbn. apply filled_end in Hf as ->; [done|].
    rewrite raster_zlen by (auto; lia). unfold n. lia.
Qed.

Lemma get_px_at src w h stride x y c :
  addressable src w h stride -> 0 <= x < w -> 0 <= y < h -> 0 <= c < 4 ->
  get (px_at src stride x y) c = get src (y * stride + x * 4 + c).
Proof.
  intros Ha Hx Hy Hc. destruct (addressable_at _ _ _ _ x y Ha Hx Hy) as (?&?&?&?&?).
  unfold get, px_at. rewrite !decide_True by lia. rewrite lookup_take_lt, lookup_drop by lia.
  f_equal. lia.
Qed.

(** The nearest-neighbour filter never panics or
    wraps on a frame [u32]s can address, returns a packed image of the size asked
    for, and each of its pixels is the source pixel at the floor of the scaled
    coordinates, which lies inside the frame. *)
Theorem downscale_nearest_samples src w h stride dw dh :
  addressable src w h stride -> small dw dh ->
  exists out, downscale_nearest src w h stride dw dh = Some (out, dw * 4) /\
    zlen out = dh * (dw * 4) /\
    forall x y c, 0 <= x < dw -> 0 <= y < dh -> 0 <= c < 4 ->
      0 <= x * w / dw < w /\ 0 <= y * h / dh < h /\
      get out (y * (dw * 4) + (x * 4 + c)) =
        get src (y * h / dh * stride + x * w / dw * 4 + c).
Proof.
  intros Ha Hs. eexists. split; [by apply downscale_nearest_raster|].
  pose proof Ha as (Hw & Hh & _). pose proof Hs as (Hdw & Hdh & _).
  split; [apply raster_zlen; intros; [lia..|by apply nearest_px_zlen]|].
  intros x y c Hx Hy Hc.
  destruct (sample_bound x w dw Hx Hw) as [X0 X1]. destruct (sample_bound y h dh Hy Hh) as [Y0 Y1].
  split; [done|]. split; [done|].
  rewrite get_raster; [|intros; by apply nearest_px_zlen|done..]. by eapply get_px_at.
Qed.

Lemma downscale_nearest_samples_witness :
  exists out, downscale_nearest (zrange 36) 3 3 12 2 2 = Some (out, 8) /\
    get out (1 * 8 + (1 * 4 + 2)) = get (zrange 36) (1 * 12 + 1 * 4 + 2).
Proof.
  destruct (downscale_nearest_samples (zrange 36) 3 3 12 2 2) as (out & E & _ & H).
  - unfold addressable. repeat split; by vm_compute.
  - unfold small. repeat split; by vm_compute.
  - exists out. split; [exact E|]. apply (H 1 1 2); lia.
Defined.

(** ** Box filter *)

(** The source offsets of a block's pixels, row after row, and what the filter
    makes of a list of channel values. *)
Definition block_offsets (stride x0 x1 y0 y1 : Z) : list Z :=
  range y0 y1 ≫= fun y => (fun x => y * stride + x * 4) <$> range x0 x1.
Definition byte_at (src : list Z) (k : Z) : Z := default 0 (get src k).
Definition channel (src : list Z) (c : Z) (offs : list Z) : list Z :=
  (fun o => byte_at src (o + c)) <$> offs.
Definition sum (l : list Z) : Z := foldr Z.add 0 l.
Definition mean (l : list Z) : Z := sum l / zlen l.

Lemma sum_snoc l v : sum (l ++ [v]) = sum l + v.
Proof. unfold sum. rewrite foldr_app. cbn. rewrite Z.add_0_r. induction l as [|a l IH]; cbn; lia. Qed.

Lemma sum_bounds lo hi l : Forall (fun v => lo <= v <= hi) l -> lo * zlen l <= sum l <= hi * zlen l.
Proof.
  induction 1 as [|v l Hv _ IH]; [change (zlen []) with 0; cbn; lia|]. rewrite zlen_cons.
  change (sum (v :: l)) with (v + sum l). lia.
Qed.

(** A mean lies between the bounds of its values. *)
Lemma mean_between lo hi l : l <> [] -> Forall (fun v => lo <= v <= hi) l -> lo <= mean l <= hi.
Proof.
  intros Hl Hf. apply zlen_pos in Hl. apply sum_bounds in Hf. unfold mean. split.
  - apply Z.div_le_lower_bound; lia.
  - apply Z.div_le_upper_bound; lia.
Qed.

Lemma elem_of_range a b i : i ∈ range a b <-> a <= i < b.
Proof.
  unfold range. rewrite list_elem_of_fmap. setoid_rewrite elem_of_zrange. split.
  - intros (k & -> & ?). lia.
  - intros ?. exists (i - a). lia.
Qed.

Definition acc_of (src offs : list Z) : Acc :=
  mkAcc (sum (channel src 0 offs)) (sum (channel src 1 offs)) (sum (channel src 2 offs))
    (sum (channel src 3 offs)) (zlen offs).

(** The body of the innermost loop, at a byte offset. *)
Definition add_pixel (src : list Z) (acc : Acc) (off : Z) : option Acc :=
  r ← get src off; g ← get src (off + 1); b ← get src (off + 2); a ← get src (off + 3);
  Some (mkAcc (wrap 32 (acc_r acc + r)) (wrap 32 (acc_g acc + g))
          (wrap 32 (acc_b acc + b)) (wrap 32 (acc_a acc + a)) (wrap 32 (acc_n acc + 1))).

Lemma byte_at_get src k : bytes_ok src -> 0 <= k < zlen src ->
  get src k = Some (byte_at src k) /\ 0 <= byte_at src k <= 255.
Proof.
  intros Hb Hk. unfold byte_at. destruct (get_Some src k Hk) as [v E]. rewrite E. split; [done|].
  unfold get in E. rewrite decide_True in E by lia.
  pose proof (proj1 (list.Forall_lookup _ _) Hb _ _ E) as Hf. cbn. cbv beta in Hf. width_lia.
Qed.

Definition offs_ok (src offs : list Z) : Prop := Forall (fun o => 0 <= o /\ o + 4 <= zlen src) offs.

Lemma channel_bytes src c offs : bytes_ok src -> offs_ok src offs -> 0 <= c < 4 ->
  Forall (fun v => 0 <= v <= 255) (channel src c offs).
Proof.
  intros Hb Ho Hc. apply list.Forall_fmap. eapply list.Forall_impl; [exact Ho|].
  intros o [? ?]. cbn. apply byte_at_get; [done|lia].
Qed.

Lemma channel_zlen src c offs : zlen (channel src c offs) = zlen offs.
Proof. unfold zlen, channel. by rewrite length_fmap. Qed.

Lemma add_pixels src offs :
  bytes_ok src -> offs_ok src offs -> 255 * zlen offs < 2 ^ 32 ->
  foldM (add_pixel src) (mkAcc 0 0 0 0 0) offs = Some (acc_of src offs).
Proof.
  intros Hb Ho Hn.
  destruct (foldM_ind (fun done acc => acc = acc_of src done) (add_pixel src) (mkAcc 0 0 0 0 0) offs)
    as (acc & E & ->); [done| |exact E].
  intros done o rest acc -> ->. apply list.Forall_app in Ho as [Hd Hr].
  apply list.Forall_cons in Hr as [[Ho1 Ho2] _].
  eexists. split; [|reflexivity]. unfold add_pixel.
  assert (Hg : forall c, 0 <= c < 4 -> get src (o + c) = Some (byte_at src (o + c)) /\
    0 <= byte_at src (o + c) <= 255) by (intros; apply byte_at_get; [done|lia]).
  rewrite <- (Z.add_0_r o) at 1. rewrite !(fun c H => proj1 (Hg c H)) by lia. cbn [mbind option_bind].
  unfold acc_of. cbn [acc_r acc_g acc_b acc_a acc_n]. unfold channel. rewrite !fmap_app. cbn [fmap list_fmap].
  rewrite !sum_snoc. rewrite zlen_app, zlen_cons in *. cbn in Hn. pose proof (zlen_nonneg rest).
  assert (Hs : forall c, 0 <= c < 4 -> 0 <= sum ((fun o => byte_at src (o + c)) <$> done) <= 255 * zlen done).
  { intros c Hc. pose proof (sum_bounds 0 255 _ (channel_bytes src c done Hb Hd Hc)) as S.
    rewrite channel_zlen in S. unfold channel in S. lia. }
  pose proof (zlen_nonneg done).
  destruct (Hs 0), (Hs 1), (Hs 2), (Hs 3); [lia..|].
  destruct (Hg 0) as [_ ?], (Hg 1) as [_ ?], (Hg 2) as [_ ?], (Hg 3) as [_ ?]; [lia..|].
  f_equal. f_equal; apply wrap_small; unfold fits; change (zlen []) with 0 in *; lia.
Qed.

(** *** The blocks *)

(** The half-open range of source indices of a destination index. *)
Definition block (d src dst : Z) : Z * Z :=
  (d * src / dst, Z.max ((d + 1) * src / dst) (d * src / dst + 1)).

Lemma block_next d src dst : 0 <= d < dst -> 0 < src -> 0 <= (d + 1) * src / dst <= src.
Proof.
  intros Hd Hs. split; [apply Z.div_pos; nia|]. apply Z.div_le_upper_bound; nia.
Qed.

Lemma block_bounds d src dst : 0 <= d < dst -> 0 < src ->
  0 <= (block d src dst).1 /\ (block d src dst).1 < (block d src dst).2 /\ (block d src dst).2 <= src.
Proof.
  intros Hd Hs. unfold block. cbn [fst snd].
  pose proof (sample_bound d src dst Hd Hs). pose proof (block_next d src dst Hd Hs). lia.
Qed.

Lemma box_range_block d src dst : 0 <= d < dst -> dst < 2 ^ 32 -> 0 < src < 2 ^ 32 ->
  box_range d src dst = block d src dst.
Proof.
  intros Hd Hdst Hs. unfold box_range, block.
  pose proof (sample_bound d src dst Hd (proj1 Hs)). pose proof (block_next d src dst Hd (proj1 Hs)).
  rewrite (wrap_small 32 (d * src / dst)), (wrap_small 32 (d + 1)) by width_lia.
  rewrite !wrap_small by width_lia. f_equal. lia.
Qed.

(** Downscaling, the blocks tile the axis: each starts where the last ended. *)
Lemma blocks_tile d src dst : 0 <= d < dst -> dst <= src ->
  (block d src dst).2 = (block (d + 1) src dst).1.
Proof.
  intros Hd Hs. unfold block. cbn [fst snd]. apply Z.max_l.
  rewrite <- Z.div_add by lia. apply Z.div_le_mono; lia.
Qed.

Definition pixel_block (stride w h dw dh x y : Z) : list Z :=
  let '(x0, x1) := block x w dw in
  let '(y0, y1) := block y h dh in
  block_offsets stride x0 x1 y0 y1.

Lemma elem_of_block_offsets stride x0 x1 y0 y1 o :
  o ∈ block_offsets stride x0 x1 y0 y1 <->
  exists x y, x0 <= x < x1 /\ y0 <= y < y1 /\ o = y * stride + x * 4.
Proof.
  unfold block_offsets. rewrite list_elem_of_bind. split.
  - intros (y & (x & -> & Hx%elem_of_range)%list_elem_of_fmap & Hy%elem_of_range). by exists x, y.
  - intros (x & y & Hx & Hy & ->). exists y. rewrite list_elem_of_fmap, elem_of_range.
    split; [|done]. exists x. by rewrite elem_of_range.
Qed.

Lemma pixel_block_ok src w h stride dw dh x y :
  addressable src w h stride -> 0 <= x < dw -> 0 <= y < dh ->
  offs_ok src (pixel_block stride w h dw dh x y) /\ pixel_block stride w h dw dh x y <> [].
Proof.
  intros Ha Hx Hy. pose proof Ha as (Hw & Hh & _).
  pose proof (block_bounds x w dw Hx Hw) as Bx. pose proof (block_bounds y h dh Hy Hh) as By.
  unfold pixel_block. destruct (block x w dw) as [x0 x1], (block y h dh) as [y0 y1]. cbn [fst snd] in *.
  split.
  - apply list.Forall_forall. intros o (sx & sy & ? & ? & ->)%elem_of_block_offsets.
    destruct (addressable_at src w h stride sx sy Ha) as (?&?&?&?&?); lia.
  - intros E. assert (y0 * stride + x0 * 4 ∈ block_offsets stride x0 x1 y0 y1) as Hin.
    { apply elem_of_block_offsets. exists x0, y0. lia. }
    rewrite E in Hin. by apply elem_of_nil in Hin.
Qed.

Lemma box_pixel_acc src w h stride x0 x1 y0 y1 :
  addressable src w h stride -> 0 <= x0 -> x1 <= w -> 0 <= y0 -> y1 <= h ->
  box_pixel src stride x0 x1 y0 y1 =
    foldM (add_pixel src) (mkAcc 0 0 0 0 0) (block_offsets stride x0 x1 y0 y1).
Proof.
  intros Ha ????. unfold box_pixel, block_offsets. rewrite foldM_bind.
  apply foldM_ext. intros acc sy Hsy%elem_of_range. cbn beta zeta.
  rewrite foldM_fmap. apply foldM_ext. intros acc' sx Hsx%elem_of_range.
  destruct (addressable_at src w h stride sx sy Ha) as (?&?&?&?&?); [lia..|].
  rewrite (wrap_small 32 (sy * stride)), (wrap_small 32 (sx * 4)) by width_lia. done.
Qed.

(** The output pixel: the mean of each channel over the block. *)
Definition box_px (src : list Z) (w h stride dw dh y x : Z) : list Z :=
  (fun c => mean (channel src c (pixel_block stride w h dw dh x y))) <$> [0; 1; 2; 3].

(** No block sums past 32 bits: a block has at most [2^24] pixels. *)
Definition block_size (d src dst : Z) : Z := (block d src dst).2 - (block d src dst).1.
Definition blocks_small (w h dw dh : Z) : Prop :=
  forall x y, 0 <= x < dw -> 0 <= y < dh -> 255 * (block_size x w dw * block_size y h dh) < 2 ^ 32.

Lemma zlen_bind_same {A B} (f : A -> list B) l k :
  (forall a, a ∈ l -> zlen (f a) = k) -> zlen (l ≫= f) = zlen l * k.
Proof.
  induction l as [|a l IH]; intros Hf; [done|].
  change ((a :: l) ≫= f) with (f a ++ (l ≫= f)).
  rewrite zlen_app, zlen_cons, Hf by left. rewrite IH; [lia|].
  intros; apply Hf. by right.
Qed.

Lemma range_zlen a b : a <= b -> zlen (range a b) = b - a.
Proof. intros H. unfold zlen, range. rewrite length_fmap, zrange_length. lia. Qed.

Lemma pixel_block_zlen stride w h dw dh x y :
  0 <= x < dw -> 0 <= y < dh -> 0 < w -> 0 < h ->
  zlen (pixel_block stride w h dw dh x y) = block_size x w dw * block_size y h dh.
Proof.
  intros Hx Hy Hw Hh. unfold pixel_block, block_size.
  pose proof (block_bounds x w dw Hx Hw) as Bx. pose proof (block_bounds y h dh Hy Hh) as By.
  destruct (block x w dw) as [x0 x1], (block y h dh) as [y0 y1]. cbn [fst snd] in *.
  unfold block_offsets. rewrite (zlen_bind_same _ _ (x1 - x0)).
  - rewrite range_zlen by lia. lia.
  - intros a _. unfold zlen. rewrite length_fmap. fold (zlen (range x0 x1)). apply range_zlen. lia.
Qed.

(** *** The loops *)

Lemma filled_set n done dst v a :
  filled n done dst -> a = zlen done -> zlen done + 1 <= n ->
  exists dst', set dst a v = Some dst' /\ filled n (done ++ [v]) dst'.
Proof.
  intros -> -> Hn. pose proof (zlen_nonneg done).
  assert (Hr : Z.to_nat (n - zlen done) = S (Z.to_nat (n - zlen (done ++ [v]))))
    by (rewrite zlen_app, zlen_cons; change (zlen []) with 0; lia).
  rewrite Hr. eexists. split; [apply set_ok|].
  - rewrite zlen_app. cbn [replicate]. rewrite zlen_cons.
    pose proof (zlen_nonneg (replicate (Z.to_nat (n - zlen (done ++ [v]))) 0)). lia.
  - unfold filled. unfold zlen at 1. rewrite Nat2Z.id.
    rewrite <- (Nat.add_0_r (length done)), insert_app_r. cbn. by rewrite <- app_assoc.
Qed.

Lemma filled_set4 n done dst a v0 v1 v2 v3 :
  filled n done dst -> a = zlen done -> zlen done + 4 <= n ->
  exists dst',
    (d ← set dst a v0; d ← set d (a + 1) v1; d ← set d (a + 2) v2; set d (a + 3) v3) = Some dst' /\
    filled n (done ++ [v0; v1; v2; v3]) dst'.
Proof.
  intros F0 -> Hn. assert (One : forall v : Z, zlen [v] = 1) by done.
  destruct (filled_set _ _ _ v0 (zlen done) F0) as (d1 & -> & F1); [done|lia|].
  destruct (filled_set _ _ _ v1 (zlen done + 1) F1) as (d2 & E2 & F2); [rewrite ?zlen_app, ?One; lia..|].
  destruct (filled_set _ _ _ v2 (zlen done + 2) F2) as (d3 & E3 & F3); [rewrite ?zlen_app, ?One; lia..|].
  destruct (filled_set _ _ _ v3 (zlen done + 3) F3) as (d4 & E4 & F4); [rewrite ?zlen_app, ?One; lia..|].
  exists d4. cbn [mbind option_bind]. rewrite E2. cbn [mbind option_bind]. rewrite E3.
  cbn [mbind option_bind]. rewrite E4. split; [done|]. by rewrite <- !app_assoc in F4.
Qed.

Lemma box_div_mean src c offs :
  bytes_ok src -> offs_ok src offs -> offs <> [] -> 0 <= c < 4 ->
  box_div (sum (channel src c offs)) (zlen offs) = Some (mean (channel src c offs)).
Proof.
  intros Hb Ho Hne Hc. unfold box_div. pose proof (zlen_pos _ Hne).
  rewrite (proj2 (Z.eqb_neq _ _)) by lia. f_equal.
  assert (Hm : 0 <= mean (channel src c offs) <= 255).
  { apply mean_between; [|by apply channel_bytes]. intros E%fmap_nil_inv. done. }
  unfold mean in *. rewrite channel_zlen in *. apply wrap_small. width_lia.
Qed.

Lemma box_row_spec src w h stride dw dh y :
  bytes_ok src -> addressable src w h stride -> small dw dh -> blocks_small w h dw dh ->
  0 <= y < dh ->
  box_row src w h stride dw dh y (replicate (Z.to_nat (dw * 4)) 0) =
    Some (raster_row dw (box_px src w h stride dw dh y)).
Proof.
  intros Hb Ha Hs Hbs Hy. pose proof Ha as (Hw & Hh & _). pose proof Hs as (Hdw & Hdh & _).
  destruct (small_at dw dh 0 y Hs) as (_&_&_&?&?&?&_); [lia..|].
  destruct (addressable_at src w h stride (w - 1) (h - 1) Ha) as (?&?&?&?&?); [lia..|].
  assert (Hw32 : w < 2 ^ 32) by (destruct Ha as (_&_&?&?&_); nia).
  assert (Hh32 : h < 2 ^ 32) by (destruct Ha as (_&_&?&?&_); nia).
  unfold box_row. rewrite box_range_block by lia.
  destruct (block y h dh) as [y0 y1] eqn:Ey.
  pose proof (block_bounds y h dh Hy Hh) as By. rewrite Ey in By. cbn [fst snd] in By.
  match goal with |- foldM ?f ?s (zrange dw) = _ =>
    destruct (foldM_zrange (fun x dst => filled (dw * 4) (raster_row x (box_px src w h stride dw dh y)) dst) f s dw)
      as (dst & E & Hf) end; [lia|apply filled_start| |].
  - intros x dst Hx Hf. cbn beta. rewrite box_range_block by lia.
    pose proof (block_bounds x w dw Hx Hw) as Bx.
    destruct (pixel_block_ok src w h stride dw dh x y Ha Hx Hy) as [Ho Hne].
    pose proof (pixel_block_zlen stride w h dw dh x y Hx Hy Hw Hh) as Hz.
    specialize (Hbs x y Hx Hy). rewrite <- Hz in Hbs.
    assert (Hpx : box_px src w h stride dw dh y x =
      (fun c => mean (channel src c (pixel_block stride w h dw dh x y))) <$> [0; 1; 2; 3]) by done.
    set (offs := pixel_block stride w h dw dh x y) in *.
    assert (Hoffs : offs = let '(x0, x1) := block x w dw in block_offsets stride x0 x1 y0 y1).
    { unfold offs, pixel_block. rewrite Ey. by destruct (block x w dw). }
    clearbody offs. destruct (block x w dw) as [x0 x1]. cbn [fst snd] in Bx.
    rewrite (box_pixel_acc src w h) by (done || lia). rewrite <- Hoffs, add_pixels by done.
    cbn [mbind option_bind acc_of acc_r acc_g acc_b acc_a acc_n].
    rewrite !box_div_mean by (done || lia). cbn [mbind option_bind].
    destruct (small_at dw dh x y Hs Hx Hy) as (?&?&?&_&_&_&?).
    rewrite (wrap_small 32 (x * 4)) by width_lia.
    assert (Hlen : zlen (raster_row x (box_px src w h stride dw dh y)) = x * 4)
      by (apply zlen_mjoin_same; [lia|done]).
    destruct (filled_set4 _ _ _ (x * 4) (mean (channel src 0 offs)) (mean (channel src 1 offs))
      (mean (channel src 2 offs)) (mean (channel src 3 offs)) Hf) as (d4 & E & F4); [done|lia|].
    exists d4. split; [exact E|]. unfold raster_row. rewrite mjoin_succ, Hpx by lia. exact F4.
  - rewrite E. f_equal. apply (filled_end _ _ _ Hf). apply zlen_mjoin_same; [lia|done].
Qed.

Lemma chunk_list_replicate {A} (x : A) n k fuel : (0 < n)%nat -> (k * n <= fuel)%nat ->
  chunk_list fuel n (replicate (k * n) x) = replicate k (replicate n x).
Proof.
  intros Hn. revert fuel. induction k as [|k IH]; intros fuel Hf; [by destruct fuel|].
  destruct fuel as [|fuel]; [cbn in Hf; lia|]. destruct n as [|n]; [lia|].
  cbn [replicate chunk_list Nat.mul Nat.add].
  change (x :: replicate (n + k * S n) x) with (replicate (S n + k * S n) x).
  rewrite replicate_add, take_app_length', drop_app_length' by (by rewrite length_replicate).
  rewrite IH by (cbn in Hf; lia). done.
Qed.

Lemma mapM_fmap_Some {A B C} (f : B -> option C) (g : A -> B) (k : A -> C) l :
  (forall a, a ∈ l -> f (g a) = Some (k a)) -> mapM f (g <$> l) = Some (k <$> l).
Proof.
  intros H. apply mapM_Some. induction l as [|a l IH]; cbn; constructor.
  - apply H. by left.
  - apply IH. intros. apply H. by right.
Qed.

Lemma zip_replicate {A} (l : list Z) (x : A) : zip l (replicate (length l) x) = (fun i => (i, x)) <$> l.
Proof. induction l as [|a l IH]; [done|]. cbn. f_equal. exact IH. Qed.

Lemma downscale_box_raster src w h stride dw dh :
  bytes_ok src -> addressable src w h stride -> small dw dh -> blocks_small w h dw dh ->
  dw < w \/ dh < h ->
  downscale_box src w h stride dw dh = Some (raster dw dh (box_px src w h stride dw dh), dw * 4).
Proof.
  intros Hb Ha Hs Hbs Hlt. pose proof Hs as (Hdw & Hdh & Hn).
  destruct (small_at dw dh 0 0 Hs) as (_&_&_&?&?&?&_); [lia..|].
  unfold downscale_box. rewrite (wrap_small 32 (dw * 4)), (wrap_small 32 (dw * 4 * dh)) by width_lia.
  rewrite !(proj2 (Z.eqb_neq _ _)) by lia. cbn [orb].
  replace ((w <=? dw) && (h <=? dh)) with false
    by (symmetry; apply andb_false_iff; rewrite !Z.leb_gt; lia).
  unfold chunks_exact_or_last. rewrite decide_True by lia. cbn [mbind option_bind].
  replace (Z.to_nat (dw * 4 * dh)) with (Z.to_nat dh * Z.to_nat (dw * 4))%nat by lia.
  rewrite length_replicate, chunk_list_replicate by lia.
  set (row := replicate (Z.to_nat (dw * 4)) 0).
  replace (zrange (zlen (replicate (Z.to_nat dh) row))) with (zrange dh)
    by (f_equal; unfold zlen; rewrite length_replicate; lia).
  rewrite <- (zrange_length dh), zip_replicate.
  rewrite (mapM_fmap_Some _ _ (fun y => raster_row dw (box_px src w h stride dw dh y))); [done|].
  intros y Hy%elem_of_zrange. cbn [fst snd]. rewrite wrap_small by width_lia. by apply box_row_spec.
Qed.

(** C34. The box filter never panics or wraps when it has
    something to shrink, no block passes [2^24] pixels, the source is made of bytes
    and holds the frame it is said to (rows of at least its width, less than 2^32
    bytes in all: [addressable]) and the output is not empty and of less than 2^32
    bytes; each channel of an
    output pixel is the mean over the pixel's block of source pixels, so it stays
    between the block's extremes; the blocks are non-empty, lie inside the frame,
    and along an axis that shrinks tile it: every source pixel counts, once. *)
Theorem downscale_box_averages src w h stride dw dh :
  bytes_ok src -> addressable src w h stride -> small dw dh -> blocks_small w h dw dh ->
  dw < w \/ dh < h ->
  exists out, downscale_box src w h stride dw dh = Some (out, dw * 4) /\
    zlen out = dh * (dw * 4) /\
    forall x y c, 0 <= x < dw -> 0 <= y < dh -> 0 <= c < 4 ->
      let vs := channel src c (pixel_block stride w h dw dh x y) in
      get out (y * (dw * 4) + (x * 4 + c)) = Some (mean vs) /\
      (forall lo hi, Forall (fun v => lo <= v <= hi) vs -> lo <= mean vs <= hi) /\
      (let '(x0, x1) := block x w dw in 0 <= x0 < x1 /\ x1 <= w /\ (dw <= w -> x1 = (block (x + 1) w dw).1)) /\
      (let '(y0, y1) := block y h dh in 0 <= y0 < y1 /\ y1 <= h /\ (dh <= h -> y1 = (block (y + 1) h dh).1)).
Proof.
  intros Hb Ha Hs Hbs Hlt. eexists. split; [by apply downscale_box_raster|].
  pose proof Ha as (Hw & Hh & _). pose proof Hs as (Hdw & Hdh & _).
  split; [apply raster_zlen; intros; lia || done|].
  intros x y c Hx Hy Hc vs. split; [|split; [|split]].
  - rewrite get_raster by (intros; done || lia). unfold box_px, get. rewrite decide_True by lia.
    rewrite list_lookup_fmap.
    assert (c = 0 \/ c = 1 \/ c = 2 \/ c = 3) as [->|[->|[->| ->]]] by lia; done.
  - intros lo hi Hf. apply mean_between; [|done]. intros E%fmap_nil_inv.
    by apply (pixel_block_ok src w h stride dw dh x y Ha Hx Hy).
  - pose proof (block_bounds x w dw Hx Hw). pose proof (blocks_tile x w dw Hx).
    destruct (block x w dw). cbn [fst snd] in *. lia.
  - pose proof (block_bounds y h dh Hy Hh). pose proof (blocks_tile y h dh Hy).
    destruct (block y h dh). cbn [fst snd] in *. lia.
Qed.

Lemma downscale_box_averages_witness :
  exists out, downscale_box (zrange 48) 4 3 16 2 2 = Some (out, 8) /\
    get out (1 * 8 + (0 * 4 + 2)) = Some (mean [18; 22; 34; 38]).
Proof.
  destruct (downscale_box_averages (zrange 48) 4 3 16 2 2) as (out & E & _ & H).
  - apply (bool_decide_unpack _). vm_compute. exact I.
  - unfold addressable. repeat split; by vm_compute.
  - unfold small. repeat split; by vm_compute.
  - intros x y Hx Hy. assert (x = 0 \/ x = 1) as [->| ->] by lia; assert (y = 0 \/ y = 1) as [->| ->] by lia; by vm_compute.
  - by left.
  - exists out. split; [exact E|]. apply (H 0 1 2); lia.
Defined.
