(* ===== verification/ServerPipeline.v ===== *)
(** The server's frame pipeline
    ([crates/remoteway-server/src/{pipeline,cli}.rs],
    [crates/remoteway-capture/src/backend.rs]): the body of
    [compress_send_loop] as one function of the loop's state, what the capture
    ring yields and whether the transport takes the frame; the handshake; and
    the dispatch of incoming messages. *)

From S2P Require Import Prelude Wire Proto ChunkSender Multiplexer Queue Transport.
From S2P Require Import Delta Compress FramePayload Floats Scaling.
Import Header HandshakeProto Input.

(** ** Captured frames *)

Inductive PixelFormat := Argb8888 | Xrgb8888 | Abgr8888 | Xbgr8888.

#[export] Instance PixelFormat_eq_dec : EqDecision PixelFormat.
Proof. solve_decision. Defined.

Definition bytes_per_pixel (_ : PixelFormat) : Z := 4.

(** [PixelFormat::from_wl_shm]; the last two are DRM fourcc codes. *)
Definition from_wl_shm (format : Z) : option PixelFormat :=
  if format =? 0 then Some Argb8888
  else if format =? 1 then Some Xrgb8888
  else if format =? 0x34324241 then Some Abgr8888
  else if format =? 0x34324258 then Some Xbgr8888
  else None.

Record CapturedFrame := mkCapturedFrame {
  fr_data : list Z; fr_damage : list DamageRect; fr_format : PixelFormat;
  fr_width : Z; fr_height : Z; fr_stride : Z; fr_timestamp_ns : Z }.

(** ** Command line *)

Inductive CaptureBackendArg := CapAuto | CapWlrScreencopy | CapExtImageCapture | CapPortal.
Inductive CompressArg := CompNone | CompLz4 | CompZstd.
Inductive DownscaleFilterArg := FilterBox | FilterNearest.

Definition to_kind (a : CompressArg) : CompressorKind :=
  match a with CompNone => KNone | CompLz4 => KLz4 | CompZstd => KZstd end.

(** ** The handshake *)

Definition build_handshake (cap : CaptureBackendArg) (comp : CompressArg) : list Z :=
  let c := match cap with
    | CapAuto => Z.lor (Z.lor WLR_SCREENCOPY EXT_IMAGE_CAPTURE)
                   PORTAL
    | CapWlrScreencopy => WLR_SCREENCOPY
    | CapExtImageCapture => EXT_IMAGE_CAPTURE
    | CapPortal => PORTAL
    end in
  let f := match comp with
    | CompNone => NONE
    | CompLz4 => LZ4
    | CompZstd => Z.lor LZ4 ZSTD
    end in
  let hs := HandshakePayload_new c f in
  let hdr := FrameHeader_new 0 Handshake LAST_CHUNK 8 0 in
  as_bytes hdr ++ as_bytes hs.

(** ** The compress and send loop *)

Definition CHUNK_SIZE : Z := 64 * 1024.
Definition ANCHOR_INTERVAL : Z := 300.

Section Loop.
Context `{Codecs} `{U8x32}.

Record ServerConfig := mkServerConfig {
  sc_compress : CompressArg; sc_scale : f64; sc_filter : DownscaleFilterArg;
  sc_threads : Z   (** [rayon::current_num_threads()] *) }.

Definition do_downscale (cfg : ServerConfig) : bool := differs_from_one (sc_scale cfg).

Record ServerState := mkServerState {
  previous_frame : list Z; is_first : bool; sv_frame_count : Z; need_full_damage : bool;
  scaled_buf : list Z; sv_scratch : list Z; sv_compressed : CompressedFrame }.

Definition ServerState_new : ServerState :=
  mkServerState [] true 0 false [] [] CompressedFrame_default.

(** What one pass over the capture ring finds: nothing (and whether the capture
    thread has exited), or a frame, the newer ones behind it, and the dropped
    flag as [take_dropped_flag] reads and clears it. *)
Inductive poll :=
  | PollEmpty (finished : bool)
  | PollFrames (first : CapturedFrame) (newer : list CapturedFrame) (dropped : bool).

(** The pixels to send, their geometry, and the scaled buffer afterwards. *)
Definition prepare_frame (cfg : ServerConfig) (scaled : list Z) (frame : CapturedFrame)
    : option (list Z * Z * Z * Z * list Z) :=
  if do_downscale cfg then
    let tw := scale_round (fr_width frame) (sc_scale cfg) in
    let th := scale_round (fr_height frame) (sc_scale cfg) in
    '(buf, _) ← match sc_filter cfg with
      | FilterBox => downscale_box (fr_data frame) (fr_width frame) (fr_height frame)
                       (fr_stride frame) tw th
      | FilterNearest => downscale_nearest (fr_data frame) (fr_width frame) (fr_height frame)
                           (fr_stride frame) tw th
      end;
    Some (buf, tw, th, wrap 32 (tw * 4), buf)
  else Some (fr_data frame, fr_width frame, fr_height frame, fr_stride frame, scaled).

Definition force_anchor (st : ServerState) : bool :=
  is_first st || ((0 <? sv_frame_count st) && (sv_frame_count st mod ANCHOR_INTERVAL =? 0)).

(** The damage to encode. *)
Definition choose_regions (cfg : ServerConfig) (anchor need_full : bool) (frame : CapturedFrame)
    (w h : Z) : list DamageRect :=
  let use_full := anchor || bool_decide (fr_damage frame = []) || need_full in
  if use_full || do_downscale cfg
  then stripe_full_frame w h (Z.max (sc_threads cfg) 1)
  else (fun d => DamageRect_new (dr_x d) (dr_y d) (dr_width d) (dr_height d)) <$> fr_damage frame.

(** The message a pass builds: its type, timestamp and payload, and its wire
    image. *)
Record Outgoing := mkOutgoing {
  og_type : MsgType; og_ts : Z; og_payload : list Z; og_wire : list Z }.

Definition of_run {E A} (r : run E A) : option A := match r with Ret a => Some a | _ => None end.

(** One pass of the loop with a frame.  [send] is the transport's answer:
    [send_anchor] or [try_send_frame].  [None] is a panic. *)
Definition send_frame_turn (cfg : ServerConfig) (st : ServerState) (first : CapturedFrame)
    (newer : list CapturedFrame) (dropped : bool) (send : MsgType -> list Z -> bool) (te tc : Z)
    : option (ServerState * Outgoing * bool) :=
  let frame := List.last newer first in
  let need_full := need_full_damage st || (0 <? zlen newer) || dropped in
  '(frame_data, w, h, stride, scaled) ← prepare_frame cfg (scaled_buf st) frame;
  let anchor := force_anchor st in
  let regions := choose_regions cfg anchor need_full frame w h in
  let ty := if anchor then AnchorFrame else FrameUpdate in
  let prev := if anchor then resize_vec (zlen frame_data) 0 (previous_frame st)
              else previous_frame st in
  '(scratch, compressed) ← compress_frame_into frame_data prev stride regions
     (sv_scratch st) (sv_compressed st) (to_kind (sc_compress cfg)) te tc;
  payload ← serialize_frame_payload w h stride regions compressed;
  wire ← of_run (split_into_chunks (length payload) 1 ty COMPRESSED payload
                   (fr_timestamp_ns frame) CHUNK_SIZE []);
  let sent := send ty wire in
  let prev := if sent then frame_data else prev in
  Some (mkServerState prev false (wrap 64 (sv_frame_count st + 1)) (negb sent) scaled scratch
          compressed,
        mkOutgoing ty (fr_timestamp_ns frame) payload wire, sent).

(** One pass of the loop: [inl] goes on, [inr] stops it (and sets the shutdown
    flag). *)
Definition compress_send_step (cfg : ServerConfig) (st : ServerState) (p : poll)
    (send : MsgType -> list Z -> bool) (te tc : Z)
    : option (ServerState * option (Outgoing * bool) + ServerState) :=
  match p with
  | PollEmpty true => Some (inr st)
  | PollEmpty false => Some (inl (st, None))
  | PollFrames first newer dropped =>
      '(st, og, sent) ← send_frame_turn cfg st first newer dropped send te tc;
      Some (inl (st, Some (og, sent)))
  end.

(** The transport's answer at a given state of the link. *)
Definition link_send {Q} `{FifoLaws Q} (l : Link Q) (ty : MsgType) (wire : list Z) : Link Q * bool :=
  if decide (ty = AnchorFrame) then send_anchor l wire else try_send_frame l wire.
End Loop.

(** ** Incoming messages *)

(** [recv_dispatch_loop], one message: input events that fit go to the inject
    ring, which refuses them when full; everything else is ignored.  The result
    is the ring and whether an event was dropped. *)
Definition dispatch_message {Q} `{FifoLaws Q} (capacity : Z) (ring : Q InputEvent)
    (m : IncomingMessage) : Q InputEvent * bool :=
  match FrameHeader_msg_type (im_header m) with
  | inl InputEvent_ =>
      if size_of InputEvent <=? zlen (im_payload m) then
        match slice (im_payload m) 0 (size_of InputEvent) ≫= ref_from_bytes with
        | Some ev => let '(ring, ok) := try_send capacity ring ev in (ring, negb ok)
        | None => (ring, false)
        end
      else (ring, false)
  | _ => (ring, false)
  end.
