(* ===== verification/Interpolate.v ===== *)
(** Frame interpolation on the client
    ([crates/remoteway-interpolate/src/{interpolator,manager,backend,error}.rs]):
    the frames, the backend interface with its CPU fallback, the sliding window
    of the manager, and backend selection.  The GPU backends are instances of the
    interface in other crates and are not modelled. *)

From Stdlib Require Import SpecFloat String.
From S2P Require Import Prelude Floats Casts.

(** ** Frames and errors *)

Record GpuFrame := mkGpuFrame {
  gf_data : list Z; gf_width : Z; gf_height : Z; gf_stride : Z; gf_timestamp_ns : Z }.

Definition GpuFrame_new (w h stride ts : Z) : GpuFrame :=
  mkGpuFrame (replicate (Z.to_nat (wrap 32 (stride * h))) 0) w h stride ts.

Definition GpuFrame_from_data (data : list Z) (w h stride ts : Z) : GpuFrame :=
  mkGpuFrame data w h stride ts.

Definition gf_pixel_count (f : GpuFrame) : Z := gf_width f * gf_height f.

Definition same_dimensions (a b : GpuFrame) : bool :=
  (gf_width a =? gf_width b) && (gf_height a =? gf_height b) && (gf_stride a =? gf_stride b).

Inductive InterpolateError :=
  | NoBackend | DeviceLost
  | DimensionMismatch (aw ah bw bh : Z)
  | InvalidFactor (t : f32)
  | InitFailed (s : string)
  | InterpolateFailed (s : string).

(** ** Catmull-Rom resampling *)

Definition cubic_weight (t : f64) : list f64 :=
  let c := f64_of_int in
  let half := f64_frac 1 2 in
  let t2 := f64_mul t t in
  let t3 := f64_mul t2 t in
  [ f64_mul half (f64_sub (f64_add (SFopp t3) (f64_mul (c 2) t2)) t);
    f64_mul half (f64_add (f64_sub (f64_mul (c 3) t3) (f64_mul (c 5) t2)) (c 2));
    f64_mul half (f64_add (f64_add (f64_mul (c (-3)) t3) (f64_mul (c 4) t2)) t);
    f64_mul half (f64_sub t3 t2) ].

(** [(d as f64 + 0.5) * src as f64 / dst as f64 - 0.5]. *)
Definition sample_pos (d src dst : Z) : f64 :=
  f64_sub (f64_div (f64_mul (f64_add (f64_of_int d) (f64_frac 1 2)) (f64_of_int src))
             (f64_of_int dst)) (f64_frac 1 2).

(** [x.floor() as i32] and [x - x.floor()]. *)
Definition floor_i32 (x : f64) : Z := saturate (- 2 ^ 31) (2 ^ 31 - 1) x (floor_int x).
Definition fract (x : f64) : f64 :=
  f64_sub x (match floor_int x with Some n => f64_of_int n | None => x end).

(** [n as i32] of a [u32]. *)
Definition as_i32 (n : Z) : Z := to_signed 32 n.

(** The four sample indices of [cpu_bicubic_upscale]: the anchor is clamped
    before the offsets are added. *)
Definition taps_anchor_clamped (sfloor size : Z) : option (list Z) :=
  let hi := to_signed 32 (as_i32 size - 1) in
  let s := Z.min (Z.max sfloor 0) hi in
  Some [wrap 32 (Z.max (s - 1) 0); wrap 32 s;
        wrap 32 (Z.min (to_signed 32 (s + 1)) hi); wrap 32 (Z.min (to_signed 32 (s + 2)) hi)].

(** [acc.round().clamp(0.0, 255.0) as u8]. *)
Definition to_byte (acc : f64) : Z :=
  match acc with
  | S754_nan => 0
  | _ => saturate 0 255 acc (round_int acc)
  end.

(** The 4 by 4 convolution of one channel. *)
Definition convolve (src : list Z) (stride : Z) (rows cols : list Z) (wx wy : list f64) (c : Z)
    : option f64 :=
  foldM (fun acc '(row_idx, wyk) =>
    let row := wrap 32 (row_idx * stride) in
    foldM (fun acc '(col_idx, wxk) =>
      v ← get src (row + wrap 32 (col_idx * 4) + c);
      Some (f64_add acc (f64_mul (f64_mul (f64_of_int v) wxk) wyk))) acc (zip cols wx))
    (S754_zero false) (zip rows wy).

(** The loops over the destination, with the rule for the tap indices, which may
    panic, as an argument. *)
Definition resample (taps : Z -> Z -> option (list Z)) (src : list Z) (sw sh sstride dst_w dst_h : Z)
    (dst : list Z) : option (list Z) :=
  let dst_stride := wrap 32 (dst_w * 4) in
  foldM (fun dst dy =>
    let sy := sample_pos dy sh dst_h in
    rows ← taps (floor_i32 sy) sh;
    let wy := cubic_weight (fract sy) in
    let dst_row := wrap 32 (dy * dst_stride) in
    foldM (fun dst dx =>
      let sx := sample_pos dx sw dst_w in
      cols ← taps (floor_i32 sx) sw;
      let wx := cubic_weight (fract sx) in
      let di := dst_row + wrap 32 (dx * 4) in
      foldM (fun dst c =>
        acc ← convolve src sstride rows cols wx wy c;
        set dst (di + c) (to_byte acc)) dst (zrange 4)) dst (zrange dst_w)) dst (zrange dst_h).

(** [cpu_bicubic_upscale]: always [Ok], unless an index panics. *)
Definition cpu_bicubic_upscale (src : GpuFrame) (dst_w dst_h : Z)
    : option (GpuFrame + InterpolateError) :=
  let dst_stride := wrap 32 (dst_w * 4) in
  data ← resample taps_anchor_clamped (gf_data src) (gf_width src) (gf_height src) (gf_stride src)
           dst_w dst_h (replicate (Z.to_nat (wrap 32 (dst_stride * dst_h))) 0);
  Some (inl (mkGpuFrame data dst_w dst_h dst_stride (gf_timestamp_ns src))).

(** ** The backend interface *)

(** [trait FrameInterpolator]; [interpolate] takes [&mut self]. *)
Class FrameInterpolator (B : Type) := {
  fi_interpolate : B -> GpuFrame -> GpuFrame -> f32 -> (GpuFrame + InterpolateError) * B;
  fi_upscale : B -> GpuFrame -> Z -> Z -> option (GpuFrame + InterpolateError);
  fi_name : B -> string
}.

(** *** [LinearBlendInterpolator] *)

(** [(t * 256.0) as u16]. *)
Definition t_fixed (t : f32) : Z :=
  let x := f32_mul t (f32_of_int 256) in saturate 0 (2 ^ 16 - 1) x (trunc_int x).

(** One byte, in [u16] arithmetic. *)
Definition blend_byte (tf va vb : Z) : Z :=
  let inv_t := wrap 16 (256 - tf) in
  wrap 8 (Z.shiftr (wrap 16 (wrap 16 (va * inv_t) + wrap 16 (vb * tf))) 8).

Definition in_unit (t : f32) : bool := SFleb (f32_of_int 0) t && SFleb t (f32_of_int 1).

(** [(delta as f64 * f64::from(t)) as u64]. *)
Definition scaled_delta (delta : Z) (t : f32) : Z :=
  let x := f64_mul (f64_of_int delta) t in saturate 0 (2 ^ 64 - 1) x (trunc_int x).

Definition linear_blend (a b : GpuFrame) (t : f32) : GpuFrame + InterpolateError :=
  if negb (in_unit t) then inr (InvalidFactor t)
  else if negb (same_dimensions a b)
  then inr (DimensionMismatch (gf_width a) (gf_height a) (gf_width b) (gf_height b))
  else
    let result := zip_with (blend_byte (t_fixed t)) (gf_data a) (gf_data b) in
    let ts := if gf_timestamp_ns a <=? gf_timestamp_ns b
      then wrap 64 (gf_timestamp_ns a + scaled_delta (gf_timestamp_ns b - gf_timestamp_ns a) t)
      else gf_timestamp_ns a in
    inl (mkGpuFrame result (gf_width a) (gf_height a) (gf_stride a) ts).

Inductive LinearBlendInterpolator := LinearBlend_.

#[export] Instance linear_blend_interpolator : FrameInterpolator LinearBlendInterpolator := {
  fi_interpolate s a b t := (linear_blend a b t, s);
  fi_upscale _ := cpu_bicubic_upscale;
  fi_name _ := "linear-blend"%string
}.

(** ** The manager *)

Section Manager.
Context {B : Type} `{FrameInterpolator B}.

Record InterpolationManager := mkManager {
  im_backend : B; im_anchor : option GpuFrame; im_target : option GpuFrame;
  im_frame_count : Z; im_interpolated_count : Z; im_force_reset : bool }.

Definition Manager_new (b : B) : InterpolationManager := mkManager b None None 0 0 false.

(** With [force_reset] the old target stays nowhere: both are replaced. *)
Definition push_frame (m : InterpolationManager) (f : GpuFrame) : InterpolationManager :=
  mkManager (im_backend m) (if im_force_reset m then None else im_target m) (Some f)
    (wrap 64 (im_frame_count m + 1)) (im_interpolated_count m) false.

Definition interpolate (m : InterpolationManager) (t : f32)
    : (option GpuFrame + InterpolateError) * InterpolationManager :=
  match im_anchor m, im_target m with
  | Some a, Some b =>
      let '(r, be) := fi_interpolate (im_backend m) a b t in
      match r with
      | inl f => (inl (Some f), mkManager be (im_anchor m) (im_target m) (im_frame_count m)
                                  (wrap 64 (im_interpolated_count m + 1)) (im_force_reset m))
      | inr e => (inr e, mkManager be (im_anchor m) (im_target m) (im_frame_count m)
                           (im_interpolated_count m) (im_force_reset m))
      end
  | _, _ => (inl None, m)
  end.

Definition can_interpolate (m : InterpolationManager) : bool :=
  bool_decide (is_Some (im_anchor m)) && bool_decide (is_Some (im_target m)).

Definition reset_anchor (m : InterpolationManager) : InterpolationManager :=
  mkManager (im_backend m) (im_anchor m) (im_target m) (im_frame_count m)
    (im_interpolated_count m) true.

Definition clear (m : InterpolationManager) : InterpolationManager :=
  mkManager (im_backend m) None None 0 0 false.

Definition anchor_timestamp_ns (m : InterpolationManager) : option Z :=
  gf_timestamp_ns <$> im_anchor m.
Definition target_timestamp_ns (m : InterpolationManager) : option Z :=
  gf_timestamp_ns <$> im_target m.
End Manager.
Arguments InterpolationManager : clear implicits.

(** ** Backend selection *)

Inductive BackendKind := LinearBlend | Fsr2 | Fsr3 | Fsr2Rife.

#[export] Instance BackendKind_eq_dec : EqDecision BackendKind.
Proof. solve_decision. Defined.

Definition BackendKind_name (k : BackendKind) : string :=
  match k with
  | LinearBlend => "linear-blend" | Fsr2 => "fsr2" | Fsr3 => "fsr3" | Fsr2Rife => "fsr2-rife"
  end%string.

Definition BackendKind_from_str (s : string) : BackendKind + string :=
  if String.eqb s "linear-blend" then inl LinearBlend
  else if String.eqb s "fsr2" then inl Fsr2
  else if String.eqb s "fsr3" then inl Fsr3
  else if String.eqb s "fsr2-rife" then inl Fsr2Rife
  else inr s.

(** [detect_available]; the arguments are whether each feature is compiled in
    and a Vulkan driver is present. *)
Definition detect_available (fsr3 fsr2 : bool) : list BackendKind :=
  (if fsr3 then [Fsr3] else []) ++ (if fsr2 then [Fsr2] else []) ++ [LinearBlend].

(** The kind [select_best] creates. *)
Definition select_best (fsr3 fsr2 : bool) : BackendKind :=
  default LinearBlend (head (detect_available fsr3 fsr2)).

(** ** The blend stays between its inputs *)

Lemma blend_byte_eq tf va vb :
  0 <= tf <= 256 -> fits 8 va -> fits 8 vb ->
  blend_byte tf va vb = (va * (256 - tf) + vb * tf) / 256.
Proof.
  intros Ht Ha Hb. unfold blend_byte.
  assert (0 <= va * (256 - tf) <= 255 * (256 - tf)) by (unfold fits in *; simpl_pow; nia).
  assert (0 <= vb * tf <= 255 * tf) by (unfold fits in *; simpl_pow; nia).
  rewrite (wrap_small 16 (256 - tf)) by width_lia.
  rewrite (wrap_small 16 (va * _)), (wrap_small 16 (vb * _)), (wrap_small 16 (_ + _)) by width_lia.
  rewrite Z.shiftr_div_pow2 by lia. change (2 ^ 8) with 256.
  apply wrap_small. unfold fits. change (2 ^ 8) with 256. split.
  - apply Z.div_pos; lia.
  - apply Z.div_lt_upper_bound; lia.
Qed.

Lemma blend_byte_between tf va vb :
  0 <= tf <= 256 -> fits 8 va -> fits 8 vb ->
  Z.min va vb <= blend_byte tf va vb <= Z.max va vb /\
  (tf = 0 -> blend_byte tf va vb = va) /\ (tf = 256 -> blend_byte tf va vb = vb).
Proof.
  intros Ht Ha Hb. rewrite blend_byte_eq by done. split_and!.
  - apply Z.div_le_lower_bound; [lia|]. nia.
  - apply Z.div_le_upper_bound; [lia|]. nia.
  - intros ->. replace (va * (256 - 0) + vb * 0) with (va * 256) by lia. by apply Z.div_mul.
  - intros ->. replace (va * (256 - 256) + vb * 256) with (vb * 256) by lia. by apply Z.div_mul.
Qed.

(** A factor in the unit interval scales to a weight that fits: rounding the
    product with 256 does not pass 256. *)
Lemma t_fixed_range t : in_unit t = true -> valid32 t -> 0 <= t_fixed t <= 256.
Proof.
  unfold in_unit, t_fixed. intros [H0 H1]%andb_prop Hv.
  destruct t as [s|s| |s m e]; [by destruct s; vm_compute|by destruct s|done|].
  destruct s; [done|]. destruct Hv as [Hc _]. unfold canonical32 in Hc.
  destruct (Zdigits2_bounds (Zpos m)) as [[D1 D2] D3]; [lia|].
  assert (Hd : Zdigits2 (Zpos m) <= 24).
  { assert (Zdigits2 (Zpos m) - 1 < 24); [|lia]. apply (Z.pow_lt_mono_r_iff 2); [lia..|]. lia. }
  assert (Hd' : 2 ^ 23 <= Zpos m -> 23 < Zdigits2 (Zpos m)).
  { intros. apply (Z.pow_lt_mono_r_iff 2); [lia..|]. lia. }
  assert (Hs : e < -23 \/ (e = -23 /\ Zpos m <= 2 ^ 23)).
  { revert H1. unfold SFleb, SFcompare. change (f32_of_int 1) with (S754_finite false 8388608 (-23)).
    cbn beta iota. destruct (Z.compare_spec e (-23)); [|lia|done]. intros Hm. right. split; [done|].
    change (2 ^ 23) with 8388608. rewrite compare_cont_eq in Hm.
    apply (Pos2Z.pos_le_pos m 8388608). unfold Pos.le. intros Hgt. rewrite Hgt in Hm. discriminate Hm. }
  change (f32_of_int 256) with (S754_finite false 8388608 (-15)). cbn [f32_mul SFmul xorb].
  assert (Dm : Zdigits2 (Zpos (m * 8388608)) = Zdigits2 (Zpos m) + 23).
  { rewrite Pos.mul_comm. change (8388608 * m)%positive with (Pos.iter xO m 23).
    cbn [Pos.iter Zdigits2 digits2_pos]. lia. }
  destruct (round_trunc_le false (Zpos (m * 8388608)) (e + -15) 8) as (n & -> & Hn);
    [lia|lia|rewrite Dm; lia| |].
  - replace (8 - (e + -15)) with (- e + 23) by lia. rewrite Z.pow_add_r by lia.
    rewrite Pos2Z.inj_mul. change (2 ^ 23) with 8388608 in *. apply Z.mul_le_mono_nonneg_r; [lia|].
    destruct Hs as [Hs|[-> Hm]]; [|done].
    etransitivity; [apply Z.lt_le_incl, (proj2 (proj1 Hc))|]. apply Z.pow_le_mono_r; lia.
  - cbn [saturate]. change (2 ^ 8) with 256 in *. lia.
Qed.

(** The CPU interpolator invents no colours: for frames
    of equal geometry and a factor in range the call succeeds, the [u16]
    arithmetic never wraps, every output byte lies between the two input bytes,
    the ends of the range give the input frames exactly, and the geometry is
    kept. *)
Theorem linear_blend_between a b t :
  in_unit t = true -> same_dimensions a b = true -> valid32 t ->
  bytes_ok (gf_data a) -> bytes_ok (gf_data b) -> length (gf_data a) = length (gf_data b) ->
  exists f, linear_blend a b t = inl f /\
    same_dimensions f a = true /\ length (gf_data f) = length (gf_data a) /\
    (forall i va vb v, gf_data a !! i = Some va -> gf_data b !! i = Some vb ->
       gf_data f !! i = Some v -> Z.min va vb <= v <= Z.max va vb) /\
    (t_fixed t = 0 -> gf_data f = gf_data a) /\ (t_fixed t = 256 -> gf_data f = gf_data b).
Proof.
  intros Hu Hd Hv Ha Hb Hl. pose proof (t_fixed_range t Hu Hv) as Ht. unfold linear_blend. rewrite Hu, Hd. cbn [negb].
  eexists. split; [done|]. cbn [gf_data].
  assert (Hlk : forall l i v, bytes_ok l -> l !! i = Some v -> fits 8 v).
  { intros l i v Hok Hi. eapply (proj1 (list.Forall_lookup _ _) Hok). exact Hi. }
  assert (Hends : forall tf (l : list Z), 0 <= tf <= 256 -> length l = length (gf_data a) ->
    (forall i va vb, gf_data a !! i = Some va -> gf_data b !! i = Some vb ->
       l !! i = Some (blend_byte tf va vb)) ->
    zip_with (blend_byte tf) (gf_data a) (gf_data b) = l).
  { intros tf l _ Hll Hf. apply list_eq. intros i. rewrite lookup_zip_with.
    destruct (gf_data a !! i) as [va|] eqn:Ea; cbn.
    - destruct (lookup_lt_is_Some_2 (gf_data b) i) as [vb Eb];
        [rewrite <- Hl; by eapply lookup_lt_Some|].
      rewrite Eb. cbn. symmetry. by apply Hf.
    - symmetry. apply lookup_ge_None_2. apply lookup_ge_None_1 in Ea. lia. }
  split_and!.
  - unfold same_dimensions. cbn. by rewrite !Z.eqb_refl.
  - rewrite length_zip_with. lia.
  - intros i va vb v Ea Eb Ev. rewrite lookup_zip_with, Ea in Ev. cbn in Ev. rewrite Eb in Ev.
    injection Ev as <-. apply blend_byte_between; eauto.
  - intros E0. apply Hends; [done|done|]. intros i va vb Ea Eb. rewrite Ea. f_equal. symmetry.
    apply (blend_byte_between (t_fixed t) va vb); eauto.
  - intros E0. apply Hends; [done|done|]. intros i va vb Ea Eb. rewrite Eb. f_equal. symmetry.
    apply (blend_byte_between (t_fixed t) va vb); eauto.
Qed.

Lemma linear_blend_between_witness :
  let a := mkGpuFrame [0; 255; 10; 20] 1 1 4 5 in
  let b := mkGpuFrame [255; 0; 11; 20] 1 1 4 9 in
  let t := f32_frac 1 2 in
  exists f, linear_blend a b t = inl f /\
    same_dimensions f a = true /\ length (gf_data f) = length (gf_data a) /\
    (forall i va vb v, gf_data a !! i = Some va -> gf_data b !! i = Some vb ->
       gf_data f !! i = Some v -> Z.min va vb <= v <= Z.max va vb) /\
    (t_fixed t = 0 -> gf_data f = gf_data a) /\ (t_fixed t = 256 -> gf_data f = gf_data b).
Proof.
  intros a b t. apply (linear_blend_between a b t).
  - vm_compute. reflexivity.
  - reflexivity.
  - vm_compute. repeat split; try discriminate. left. discriminate.
  - apply (bool_decide_unpack _). vm_compute. exact I.
  - apply (bool_decide_unpack _). vm_compute. exact I.
  - reflexivity.
Defined.

(** ** The window of the manager *)

(** What a client does with a manager, and the pair the history calls for. *)
Inductive im_op := ImPush (f : GpuFrame) | ImReset | ImClear | ImInterpolate (t : f32).

(** The window a history leaves: the last frame, the one before it unless a
    reset was asked for in between, and whether a reset is pending. *)
Definition window_step (w : option GpuFrame * option GpuFrame * bool) (o : im_op)
    : option GpuFrame * option GpuFrame * bool :=
  let '(a, t, r) := w in
  match o with
  | ImPush f => (if r : bool then None else t, Some f, false)
  | ImReset => (a, t, true)
  | ImClear => (None, None, false)
  | ImInterpolate _ => w
  end.

Section Window.
Context {B : Type} `{FrameInterpolator B}.

Definition im_step (m : InterpolationManager B) (o : im_op) : InterpolationManager B :=
  match o with
  | ImPush f => push_frame m f
  | ImReset => reset_anchor m
  | ImClear => clear m
  | ImInterpolate t => (interpolate m t).2
  end.

Lemma im_step_window m o :
  let m' := im_step m o in
  (im_anchor m', im_target m', im_force_reset m') =
    window_step (im_anchor m, im_target m, im_force_reset m) o.
Proof.
  destruct o as [f| | |t]; cbn; [by destruct (im_force_reset m)|done|done|].
  unfold interpolate. destruct (im_anchor m) as [a|] eqn:Ea, (im_target m) as [b|] eqn:Eb;
    cbn; try (by rewrite Ea, Eb).
  destruct (fi_interpolate _ _ _ _) as [[f|e] be]; cbn; by rewrite ?Ea, ?Eb.
Qed.

Lemma im_run_window m ops :
  let m' := foldl im_step m ops in
  (im_anchor m', im_target m', im_force_reset m') =
    foldl window_step (im_anchor m, im_target m, im_force_reset m) ops.
Proof.
  revert m. induction ops as [|o ops IH]; intros m; [done|].
  cbn [foldl]. rewrite <- im_step_window. apply IH.
Qed.

(** Whatever the calls, the manager's window is the one the
    history calls for, and a reset is never interpolated across: after a reset
    (or a clear) and one frame, interpolation yields nothing and leaves the
    backend untouched; the next frame makes the pair of exactly those two. *)
Theorem manager_window (b : B) ops f g t :
  let m := foldl im_step (Manager_new b) ops in
  (im_anchor m, im_target m, im_force_reset m) = foldl window_step (None, None, false) ops /\
  (let m1 := push_frame (reset_anchor m) f in
   interpolate m1 t = (inl None, m1) /\
   im_anchor (push_frame m1 g) = Some f /\ im_target (push_frame m1 g) = Some g) /\
  (let m1 := push_frame (clear m) f in interpolate m1 t = (inl None, m1)).
Proof.
  intros m. split_and!; [apply (im_run_window (Manager_new b))|done..].
Qed.
End Window.
