(* ===== verification/FpsOverlay.v ===== *)
(** The on-frame FPS readout ([crates/remoteway-client/src/fps_overlay.rs]).

    Characters are the code points of the text; [i32] and [u32] values are [Z]
    with the source's wrap-around. *)

From Stdlib Require Import SpecFloat.
From S2P Require Import Prelude Floats.

Definition GLYPH_W : Z := 5.
Definition GLYPH_H : Z := 7.

(** The characters of the font, by code point: digits, '.', ':', 'F', 'P', 'S'
    and the space. *)
Definition glyph (c : Z) : option (list Z) :=
  match c with
  | 48 => Some [14; 17; 19; 21; 25; 17; 14]
  | 49 => Some [4; 12; 4; 4; 4; 4; 14]
  | 50 => Some [14; 17; 1; 2; 4; 8; 31]
  | 51 => Some [30; 1; 1; 14; 1; 1; 30]
  | 52 => Some [2; 6; 10; 18; 31; 2; 2]
  | 53 => Some [31; 16; 30; 1; 1; 17; 14]
  | 54 => Some [14; 16; 16; 30; 17; 17; 14]
  | 55 => Some [31; 1; 2; 4; 8; 8; 8]
  | 56 => Some [14; 17; 17; 14; 17; 17; 14]
  | 57 => Some [14; 17; 17; 15; 1; 2; 12]
  | 46 => Some [0; 0; 0; 0; 0; 0; 4]
  | 58 => Some [0; 4; 4; 0; 4; 4; 0]
  | 70 => Some [31; 16; 16; 30; 16; 16; 16]
  | 80 => Some [30; 17; 17; 30; 16; 16; 16]
  | 83 => Some [14; 17; 16; 14; 1; 17; 14]
  | 32 => Some [0; 0; 0; 0; 0; 0; 0]
  | _ => None
  end.

Definition GLYPH_STRIDE : Z := GLYPH_W + 1.
Definition TEXT_SCALE : Z := 3.
Definition PAD : Z := 4.

(** [put_pixel]: out-of-range pixels, and offsets past the buffer, are skipped. *)
Definition put_pixel (buf : list Z) (width height stride x y : Z) (rgba : list Z) : list Z :=
  if (x <? 0) || (y <? 0) then buf
  else if (width <=? x) || (height <=? y) then buf
  else
    let off := wrap 32 (y * stride + x * 4) in
    if off + 4 <=? zlen buf then default buf (splice buf off rgba) else buf.

(** The background rectangle, then each glyph cell as a square of pixels. *)
Definition draw_text (buf : list Z) (width height stride x y : Z) (text : list Z) : list Z :=
  let text_px_w := zlen text * GLYPH_STRIDE * TEXT_SCALE in
  let text_px_h := GLYPH_H * TEXT_SCALE in
  let bg_w := text_px_w + PAD * 2 in
  let bg_h := text_px_h + PAD * 2 in
  let buf := foldl (fun buf by_ =>
    foldl (fun buf bx => put_pixel buf width height stride (x + bx) (y + by_) [0; 0; 0; 255])
      buf (zrange bg_w)) buf (zrange bg_h) in
  let text_x := x + PAD in
  let text_y := y + PAD in
  foldl (fun buf ich =>
    match glyph ich.2 with
    | None => buf
    | Some rows =>
        let cx := text_x + ich.1 * GLYPH_STRIDE * TEXT_SCALE in
        foldl (fun buf ir =>
          foldl (fun buf col =>
            if Z.land (Z.shiftr ir.2 (GLYPH_W - 1 - col)) 1 =? 0 then buf
            else
              let px_x := cx + col * TEXT_SCALE in
              let px_y := text_y + ir.1 * TEXT_SCALE in
              foldl (fun buf dy =>
                foldl (fun buf dx =>
                  put_pixel buf width height stride (px_x + dx) (px_y + dy) [255; 255; 255; 255])
                  buf (zrange TEXT_SCALE)) buf (zrange TEXT_SCALE))
            buf (zrange GLYPH_W)) buf (zip (zrange GLYPH_H) rows)
    end) buf (zip (zrange (zlen text)) text).

(** [overlay_rect]. *)
Definition overlay_rect (x y : Z) : Z * Z * Z * Z :=
  let chars := 10 in
  (x, y, chars * GLYPH_STRIDE * TEXT_SCALE + PAD * 2, GLYPH_H * TEXT_SCALE + PAD * 2).

(** [format!("{:>5.1}", v)] of a non-negative value: tenths to the nearest, ties
    to even, right-aligned in five characters. *)
Definition tenths (v : f32) : Z :=
  match v with
  | S754_finite false m e =>
      if 0 <=? e then Z.shiftl (Zpos m * 10) e
      else
        let q := Z.shiftr (Zpos m * 10) (- e) in
        let r2 := 2 * (Zpos m * 10 - Z.shiftl q (- e)) in
        let one := Z.shiftl 1 (- e) in
        if (one <? r2) || ((r2 =? one) && Z.odd q) then q + 1 else q
  | _ => 0
  end.

Fixpoint digits (fuel : nat) (n : Z) : list Z :=
  match fuel with
  | O => []
  | S fuel => if n <? 10 then [48 + n] else digits fuel (n / 10) ++ [48 + n mod 10]
  end.

Definition format_fps (v : f32) : list Z :=
  let t := tenths v in
  let s := digits 40 (t / 10) ++ [46; 48 + t mod 10] in
  replicate (5 - length s) 32 ++ s.

(** [draw_fps]: the value shown is clamped to [0, 999.9]. *)
Definition clamp_fps (fps : f32) : f32 :=
  match fps with
  | S754_finite _ _ _ | S754_zero _ =>
      if SFleb (S754_zero false) fps
      then (if SFltb fps (f32_frac 9999 10) then fps else f32_frac 9999 10)
      else S754_zero false
  | _ => S754_zero false
  end.

Definition draw_fps (buf : list Z) (width height stride : Z) (fps : f32) : list Z :=
  draw_text buf width height stride 10 10
    ([70; 80; 83; 58; 32] ++ format_fps (clamp_fps fps)).

Example fps_sixty : format_fps (clamp_fps (f32_frac 5997 100)) = [32; 54; 48; 46; 48].
Proof. vm_compute. reflexivity. Qed.

Example fps_huge : format_fps (clamp_fps (f32_of_int 123456)) = [57; 57; 57; 46; 57].
Proof. vm_compute. reflexivity. Qed.

(** ** The overlay keeps the buffer's size and stays inside its rectangle *)

Lemma splice_zlen {A} (l s k : list A) a : splice l a s = Some k -> zlen k = zlen l.
Proof.
  unfold splice. case_decide as Hd; [|done]. intros [= <-]. unfold zlen in *.
  rewrite !length_app, length_take, length_drop. lia.
Qed.

Lemma splice_lookup {A} (l s k : list A) a (i : nat) :
  splice l a s = Some k ->
  k !! i = if decide (a <= Z.of_nat i < a + zlen s) then s !! Z.to_nat (Z.of_nat i - a) else l !! i.
Proof.
  unfold splice. case_decide as Hd; [|done]. intros [= <-]. unfold zlen in *.
  destruct (decide (Z.of_nat i < a)).
  - rewrite decide_False by lia. rewrite lookup_app_l by (rewrite length_take; lia).
    by rewrite lookup_take_lt by lia.
  - rewrite lookup_app_r by (rewrite length_take; lia). rewrite length_take_le by lia.
    case_decide.
    + rewrite lookup_app_l by lia. f_equal. lia.
    + rewrite lookup_app_r by lia. rewrite lookup_drop. f_equal. lia.
Qed.

(** [buf'] differs from [buf] at most inside the pixel rectangle. *)
Definition within (stride x0 y0 x1 y1 : Z) (buf buf' : list Z) : Prop :=
  zlen buf' = zlen buf /\
  forall i : nat, buf' !! i <> buf !! i ->
    exists x y, x0 <= x < x1 /\ y0 <= y < y1 /\
      wrap 32 (y * stride + x * 4) <= Z.of_nat i < wrap 32 (y * stride + x * 4) + 4.

Lemma within_refl stride x0 y0 x1 y1 buf : within stride x0 y0 x1 y1 buf buf.
Proof. split; [done|]. intros i H. done. Qed.

Lemma within_trans stride x0 y0 x1 y1 a b c :
  within stride x0 y0 x1 y1 a b -> within stride x0 y0 x1 y1 b c -> within stride x0 y0 x1 y1 a c.
Proof.
  intros [L1 H1] [L2 H2]. split; [congruence|]. intros i Hi.
  destruct (decide (c !! i = b !! i)) as [E|E]; [|by apply H2].
  apply H1. congruence.
Qed.

Lemma put_pixel_within buf w h stride x y rgba x0 y0 x1 y1 :
  zlen rgba = 4 -> x0 <= x < x1 -> y0 <= y < y1 ->
  within stride x0 y0 x1 y1 buf (put_pixel buf w h stride x y rgba).
Proof.
  intros Hl Hx Hy. unfold put_pixel.
  destruct (_ || _); [apply within_refl|]. destruct (_ || _); [apply within_refl|].
  destruct (_ <=? _); [|apply within_refl].
  destruct (splice _ _ _) as [k|] eqn:E; [|apply within_refl]. cbn. split.
  - by apply splice_zlen in E.
  - intros i Hi. rewrite (splice_lookup _ _ _ _ _ E) in Hi. case_decide as Hd; [|done].
    exists x, y. rewrite Hl in Hd. done.
Qed.

Lemma foldl_within {A} (f : list Z -> A -> list Z) l stride x0 y0 x1 y1 buf :
  (forall a b, a ∈ l -> within stride x0 y0 x1 y1 b (f b a)) ->
  within stride x0 y0 x1 y1 buf (foldl f buf l).
Proof.
  revert buf. induction l as [|a l IH]; intros buf Hf; [apply within_refl|].
  cbn. eapply within_trans; [apply Hf; constructor|]. apply IH.
  intros a' b Ha. apply Hf. by constructor.
Qed.

Lemma elem_of_zip_zrange {A} n (l : list A) i a :
  (i, a) ∈ zip (zrange n) l -> 0 <= i < n.
Proof. intros Hin. apply elem_of_zip_l in Hin. by apply elem_of_zrange in Hin. Qed.

Lemma draw_text_within buf w h stride x y text :
  within stride x y (x + (zlen text * 18 + 8)) (y + 29) buf (draw_text buf w h stride x y text).
Proof.
  unfold draw_text. unfold GLYPH_STRIDE, GLYPH_W, GLYPH_H, TEXT_SCALE, PAD.
  eapply within_trans; last first.
  - apply foldl_within. intros [i ch] b Hich. apply elem_of_zip_zrange in Hich. cbn [fst snd].
    destruct (glyph ch) as [rows|]; [|apply within_refl].
    apply foldl_within. intros [row bits] b1 Hrow. apply elem_of_zip_zrange in Hrow. cbn [fst snd].
    apply foldl_within. intros col b2 Hcol. apply elem_of_zrange in Hcol.
    destruct (_ =? 0); [apply within_refl|].
    apply foldl_within. intros dy b3 Hdy. apply elem_of_zrange in Hdy.
    apply foldl_within. intros dx b4 Hdx. apply elem_of_zrange in Hdx.
    apply put_pixel_within; [done|lia|lia].
  - apply foldl_within. intros by_ b Hby. apply elem_of_zrange in Hby.
    apply foldl_within. intros bx b' Hbx. apply elem_of_zrange in Hbx.
    apply put_pixel_within; [done|lia|lia].
Qed.

(** The mantissa of an [f32] has at most 24 bits. *)
Definition f32_ok (x : f32) : Prop :=
  match x with S754_finite _ m _ => Zpos m < 2 ^ 24 | _ => True end.

Lemma tenths_bound m e :
  e < 0 -> Zpos m * 40 <= 39997 * 2 ^ (- e) -> 0 <= tenths (S754_finite false m e) <= 9999.
Proof.
  intros He Hm. unfold tenths. destruct (Z.leb_spec 0 e); [lia|].
  assert (P : 0 < 2 ^ (- e)) by (apply Z.pow_pos_nonneg; lia).
  rewrite Z.shiftr_div_pow2, !Z.shiftl_mul_pow2, Z.mul_1_l by lia.
  set (q := Zpos m * 10 / 2 ^ (- e)).
  assert (Hq : q * 2 ^ (- e) <= Zpos m * 10 < (q + 1) * 2 ^ (- e)).
  { unfold q. pose proof (Z_div_mod_eq_full (Zpos m * 10) (2 ^ (- e))).
    pose proof (Z.mod_pos_bound (Zpos m * 10) (2 ^ (- e)) P). nia. }
  assert (Q0 : 0 <= q) by (apply Z.div_pos; lia).
  assert (Q1 : q <= 9999) by nia.
  destruct (decide (q = 9999)) as [E|]; [|destruct (_ || _); lia].
  rewrite E in *.
  destruct (Z.ltb_spec (2 ^ (- e)) (2 * (Zpos m * 10 - 9999 * 2 ^ (- e)))); [nia|].
  destruct (Z.eqb_spec (2 * (Zpos m * 10 - 9999 * 2 ^ (- e))) (2 ^ (- e))); [nia|]. cbn. lia.
Qed.

Lemma tenths_clamped fps : f32_ok fps -> 0 <= tenths (clamp_fps fps) <= 9999.
Proof.
  set (top := f32_frac 9999 10). assert (Etop : top = S754_finite false 16382362 (-14)).
  { vm_compute. reflexivity. }
  assert (Htop : 0 <= tenths top <= 9999) by (rewrite Etop; by vm_compute).
  intros Hok. unfold clamp_fps. fold top.
  destruct fps as [s|s| |s m e]; try (by cbn).
  - destruct (SFleb _ _) eqn:El; [|by cbn]. destruct (SFltb _ _) eqn:Elt; [|done].
    destruct s; [done|]. rewrite Etop in Elt. unfold SFltb, SFcompare in Elt. cbn in Hok.
    change (2 ^ 24) with 16777216 in Hok.
    destruct (Z.compare_spec e (-14)) as [->|Hlt|Hgt]; [| |done].
    + assert (Hm : (m ?= 16382362)%positive = Lt).
      { rewrite compare_cont_eq in Elt.
        by destruct (m ?= 16382362)%positive. }
      assert (HmZ : Zpos m < 16382362) by exact Hm.
      apply tenths_bound; [lia|]. change (2 ^ (- -14)) with 16384. lia.
    + apply tenths_bound; [lia|].
      replace (2 ^ (- e)) with (2 ^ (-14 - e) * 16384).
      * assert (2 <= 2 ^ (-14 - e)).
        { change 2 with (2 ^ 1) at 1. apply Z.pow_le_mono_r; lia. }
        nia.
      * change 16384 with (2 ^ 14). rewrite <- Z.pow_add_r by lia. f_equal. lia.
Qed.

Lemma digits_short n : 0 <= n <= 999 -> (1 <= length (digits 40 n) <= 3)%nat.
Proof.
  intros Hn. cbn [digits]. destruct (Z.ltb_spec n 10); [cbn; lia|].
  rewrite length_app. cbn [length].
  assert (n / 10 < 100) by (apply Z.div_lt_upper_bound; lia).
  destruct (Z.ltb_spec (n / 10) 10); [cbn; lia|]. rewrite length_app. cbn [length].
  assert (n / 10 / 10 < 10) by (apply Z.div_lt_upper_bound; lia).
  destruct (Z.ltb_spec (n / 10 / 10) 10); [cbn; lia|lia].
Qed.

Lemma format_fps_length fps : f32_ok fps -> length (format_fps (clamp_fps fps)) = 5%nat.
Proof.
  intros Hok. pose proof (tenths_clamped fps Hok) as Ht. unfold format_fps.
  assert (0 <= tenths (clamp_fps fps) / 10 <= 999).
  { split; [apply Z.div_pos; lia|]. apply Z.lt_succ_r, Z.div_lt_upper_bound; lia. }
  pose proof (digits_short (tenths (clamp_fps fps) / 10) ltac:(lia)).
  cbv zeta. rewrite !length_app, length_replicate. cbn [length]. lia.
Qed.

(** The FPS readout never panics or resizes the frame,
    and for every frame rate it changes bytes of pixels inside the rectangle
    [overlay_rect] reports as damage and no others: the value is clamped so the
    text is always ten characters. *)
Theorem overlay_within_damage buf width height stride fps :
  f32_ok fps ->
  let '(x, y, w, h) := overlay_rect 10 10 in
  within stride x y (x + w) (y + h) buf (draw_fps buf width height stride fps).
Proof.
  intros Hok. unfold overlay_rect, draw_fps, GLYPH_STRIDE, GLYPH_W, GLYPH_H, TEXT_SCALE, PAD.
  pose proof (draw_text_within buf width height stride 10 10
    ([70; 80; 83; 58; 32] ++ format_fps (clamp_fps fps))) as D.
  assert (E : zlen ([70; 80; 83; 58; 32] ++ format_fps (clamp_fps fps)) = 10).
  { unfold zlen. rewrite length_app, format_fps_length by done. done. }
  rewrite E in D. exact D.
Qed.

Lemma overlay_within_damage_witness :
  let '(x, y, w, h) := overlay_rect 10 10 in
  within 64 x y (x + w) (y + h) (replicate 1024 7)
    (draw_fps (replicate 1024 7) 16 16 64 (f32_frac 599 10)).
Proof. apply (overlay_within_damage (replicate 1024 7) 16 16 64 (f32_frac 599 10)). by vm_compute. Defined.
