(* ===== verification/Display.v ===== *)
(** The local compositor's side of the client
    ([crates/remoteway-display/src/{shm,surface,error}.rs]): the double-buffered
    uploader, the managed surfaces, the Wayland event handlers and the operations
    of [WaylandDisplay].

    A request to the compositor is a value of [wl_req]; an operation returns the
    requests it makes, in order.  What the kernel and the connection answer
    (memory maps, the events a round trip delivers) are arguments.  [Instant]s
    are nanoseconds. *)

From Stdlib Require Import SpecFloat.
From stdpp Require Import strings pretty.
From S2P Require Import Prelude Floats.

(** ** Types shared with the pipeline *)

Record DamageRegion := mkDamageRegion { dg_x : Z; dg_y : Z; dg_width : Z; dg_height : Z }.

Definition DamageRegion_new (x y w h : Z) : DamageRegion := mkDamageRegion x y w h.

Definition damage_pixel_count (d : DamageRegion) : Z := wrap 64 (dg_width d * dg_height d).

Record DisplayFrame := mkDisplayFrame {
  df_surface_id : Z; df_data : list Z; df_damage : list DamageRegion;
  df_width : Z; df_height : Z; df_stride : Z; df_timestamp_ns : Z }.

Inductive DisplayError :=
  | WaylandConnect | WaylandDispatch | NoCompositor | NoShm | NoXdgWmBase | NoSeat
  | ShmBuffer (why : string) | NotConfigured | SurfaceNotFound (surface_id : Z)
  | ThreadSpawn | SessionEnded.

(** ** Requests *)

(** The casts to [i32] of the source are done where the request is made. *)
Inductive wl_req :=
  | CreatePool (pool size : Z)
  | CreateBuffer (pool idx offset width height stride : Z)
  | DestroyPool (pool : Z)
  | CreateSurface (sid : Z) (title app_id : string) (viewport : bool)
  | SetTitle (sid : Z) (title : string)
  | SetAppId (sid : Z) (app_id : string)
  | DestroySurface (sid : Z)
  | Attach (sid pool idx : Z)
  | DamageBuffer (sid x y width height : Z)
  | SetSource (sid width height : Z)
  | SetDestination (sid width height : Z)
  | FrameCallback (sid : Z)
  | Commit (sid : Z)
  | AckConfigure (serial : Z)
  | Pong (serial : Z)
  | Bind (interface : string) (version : Z).

Definition i32 (n : Z) : Z := to_signed 32 n.

(** ** [ShmFrameUploader] *)

(** [up_pool] names the pool object; [up_map] is the mapped memory, both buffers. *)
Record ShmFrameUploader := mkUploader {
  up_pool : Z; up_map : list Z; up_active : Z; up_released : list bool;
  up_width : Z; up_height : Z; up_stride : Z }.

Definition buffer_size (u : ShmFrameUploader) : Z := wrap 64 (up_stride u * up_height u).

(** What the memory system calls answer. *)
Inductive shm_answer := ShmOk | MemfdFails | TruncateFails | MmapFails.

Definition checked_mul (a b : Z) : option Z := if a * b <? 2 ^ 64 then Some (a * b) else None.

Definition Uploader_new (pool width height stride : Z) (sys : shm_answer)
    : (ShmFrameUploader * list wl_req) + DisplayError :=
  match checked_mul width 4 with
  | None => inr (ShmBuffer "stride overflow: width * 4 exceeds usize")
  | Some min_stride =>
      if stride <? min_stride then inr (ShmBuffer ("stride (" +:+ pretty stride +:+ ") < width * 4 (" +:+ pretty min_stride +:+ ")"))
      else match checked_mul stride height with
      | None => inr (ShmBuffer "buffer size overflow: stride * height exceeds usize")
      | Some buf_size =>
          match checked_mul buf_size 2 with
          | None => inr (ShmBuffer "total size overflow: buf_size * 2 exceeds usize")
          | Some total_size =>
              if total_size =? 0 then inr (ShmBuffer "zero-size buffer")
              else match sys with
              | MemfdFails => inr (ShmBuffer "memfd_create failed")
              | TruncateFails => inr (ShmBuffer "ftruncate failed")
              | MmapFails => inr (ShmBuffer "mmap failed")
              | ShmOk =>
                  inl (mkUploader pool (replicate (Z.to_nat total_size) 0) 0 [true; true]
                         width height stride,
                       [CreatePool pool (i32 total_size);
                        CreateBuffer pool 0 0 (i32 width) (i32 height) (i32 stride);
                        CreateBuffer pool 1 (i32 buf_size) (i32 width) (i32 height) (i32 stride)])
              end
          end
      end
  end.

(** The raw slice at [active * buf_size] must lie inside the map; [None] is
    undefined behaviour. *)
Definition upload (u : ShmFrameUploader) (data : list Z) : option ShmFrameUploader :=
  let size := buffer_size u in
  let offset := wrap 64 (up_active u * size) in
  _ ← slice (up_map u) offset (offset + size);
  let copy_len := Z.min (zlen data) size in
  map ← splice (up_map u) offset (take (Z.to_nat copy_len) data);
  Some (mkUploader (up_pool u) map (up_active u) (up_released u) (up_width u) (up_height u)
          (up_stride u)).

Definition set_released (u : ShmFrameUploader) (r : list bool) (active : Z) : ShmFrameUploader :=
  mkUploader (up_pool u) (up_map u) active r (up_width u) (up_height u) (up_stride u).

Definition swap (u : ShmFrameUploader) : option ShmFrameUploader :=
  r ← set (up_released u) (up_active u) false;
  Some (set_released u r (1 - up_active u)).

Definition mark_released (u : ShmFrameUploader) (buffer_idx : Z) : option ShmFrameUploader :=
  if buffer_idx <? 2
  then r ← set (up_released u) buffer_idx true; Some (set_released u r (up_active u))
  else Some u.

Definition can_upload (u : ShmFrameUploader) : option bool := get (up_released u) (up_active u).

(** ** [ManagedSurface] *)

Record ManagedSurface := mkSurface {
  ms_id : Z; ms_viewport : bool; ms_uploader : option ShmFrameUploader;
  ms_width : Z; ms_height : Z; ms_stride : Z; ms_title : string; ms_app_id : string;
  ms_configured : bool; ms_callback_pending : bool; ms_callback_at : option Z;
  ms_configure_serial : option Z; ms_aspect : f64 }.

Definition FRAME_CALLBACK_TIMEOUT : Z := 50 * 10 ^ 6.

Definition with_uploader (s : ManagedSurface) (u : option ShmFrameUploader) (pending : bool)
    (at_ : option Z) : ManagedSurface :=
  mkSurface (ms_id s) (ms_viewport s) u (ms_width s) (ms_height s) (ms_stride s) (ms_title s)
    (ms_app_id s) (ms_configured s) pending at_ (ms_configure_serial s) (ms_aspect s).

(** [Instant::elapsed] saturates at zero. *)
Definition stale (s : ManagedSurface) (now : Z) : bool :=
  match ms_callback_at s with
  | Some t => FRAME_CALLBACK_TIMEOUT <=? Z.max 0 (now - t)
  | None => false
  end.

Definition damage_reqs (s : ManagedSurface) (damage : list DamageRegion) : list wl_req :=
  match damage with
  | [] => [DamageBuffer (ms_id s) 0 0 (i32 (ms_width s)) (i32 (ms_height s))]
  | _ => (fun d => DamageBuffer (ms_id s) (i32 (dg_x d)) (i32 (dg_y d)) (i32 (dg_width d))
                     (i32 (dg_height d))) <$> damage
  end.

(** [ManagedSurface::present_frame]; [now] is read by [elapsed], [after] when the
    callback is requested. *)
Definition surface_present (s : ManagedSurface) (data : list Z) (damage : list DamageRegion)
    (now after : Z) : option (ManagedSurface * list wl_req * bool) :=
  if negb (ms_configured s) then Some (s, [], false)
  else if ms_callback_pending s && negb (stale s now) then Some (s, [], false)
  else
    let s := if ms_callback_pending s then with_uploader s (ms_uploader s) false None else s in
    match ms_uploader s with
    | None => Some (s, [], false)
    | Some u =>
        ok ← can_upload u;
        if negb ok then Some (s, [], false)
        else
          u ← upload u data;
          let reqs := [Attach (ms_id s) (up_pool u) (up_active u)] ++ damage_reqs s damage ++
            (if ms_viewport s then [SetSource (ms_id s) (ms_width s) (ms_height s)] else []) ++
            [FrameCallback (ms_id s); Commit (ms_id s)] in
          u ← swap u;
          Some (with_uploader s (Some u) true (Some after), reqs, true)
    end.

(** ** [DisplayState] *)

(** A bound global is represented by its version. *)
Record DisplayState := mkDisplayState {
  compositor : option Z; shm : option Z; xdg_wm_base : option Z; seat : option Z;
  viewporter : option Z; surfaces : list ManagedSurface; frame_done : bool }.

Definition with_surfaces (st : DisplayState) (l : list ManagedSurface) : DisplayState :=
  mkDisplayState (compositor st) (shm st) (xdg_wm_base st) (seat st) (viewporter st) l
    (frame_done st).

(** [iter_mut().find(..)] and what is done to the surface found: the first one. *)
Fixpoint on_surface (f : ManagedSurface -> ManagedSurface) (sid : Z) (l : list ManagedSurface)
    : list ManagedSurface :=
  match l with
  | [] => []
  | s :: l => if ms_id s =? sid then f s :: l else s :: on_surface f sid l
  end.

Fixpoint find_surface (sid : Z) (l : list ManagedSurface) : option ManagedSurface :=
  match l with
  | [] => None
  | s :: l => if ms_id s =? sid then Some s else find_surface sid l
  end.

(** ** Events *)

(** A release names the buffer object; the handler sees only its user data, the
    index. *)
Inductive wl_event :=
  | RegistryGlobal (interface : string) (version : Z)
  | BufferRelease (pool idx : Z)
  | Ping (serial : Z)
  | XdgConfigure (sid serial : Z)
  | ToplevelConfigure (sid width height : Z)
  | CallbackDone (sid : Z)
  | IgnoredEvent.

(** [registry.bind(name, version.min(..))]. *)
Definition registry_global (st : DisplayState) (interface : string) (version : Z)
    : DisplayState * list wl_req :=
  let bind m := (Some (Z.min version m), [Bind interface (Z.min version m)]) in
  if String.eqb interface "wl_compositor" then
    let '(v, r) := bind 6 in
    (mkDisplayState v (shm st) (xdg_wm_base st) (seat st) (viewporter st) (surfaces st) (frame_done st), r)
  else if String.eqb interface "wl_shm" then
    let '(v, r) := bind 1 in
    (mkDisplayState (compositor st) v (xdg_wm_base st) (seat st) (viewporter st) (surfaces st) (frame_done st), r)
  else if String.eqb interface "xdg_wm_base" then
    let '(v, r) := bind 5 in
    (mkDisplayState (compositor st) (shm st) v (seat st) (viewporter st) (surfaces st) (frame_done st), r)
  else if String.eqb interface "wl_seat" then
    let '(v, r) := bind 8 in
    (mkDisplayState (compositor st) (shm st) (xdg_wm_base st) v (viewporter st) (surfaces st) (frame_done st), r)
  else if String.eqb interface "wp_viewporter" then
    let '(v, r) := bind 1 in
    (mkDisplayState (compositor st) (shm st) (xdg_wm_base st) (seat st) v (surfaces st) (frame_done st), r)
  else (st, []).

(** Every surface's uploader is told, whichever buffer it was. *)
Definition buffer_release (st : DisplayState) (idx : Z) : option DisplayState :=
  l ← mapM (fun s =>
        match ms_uploader s with
        | Some u => u ← mark_released u idx;
                    Some (with_uploader s (Some u) (ms_callback_pending s) (ms_callback_at s))
        | None => Some s
        end) (surfaces st);
  Some (with_surfaces st l).

Definition xdg_configure (st : DisplayState) (sid serial : Z) : DisplayState * list wl_req :=
  (with_surfaces st (on_surface (fun s =>
     mkSurface (ms_id s) (ms_viewport s) (ms_uploader s) (ms_width s) (ms_height s) (ms_stride s)
       (ms_title s) (ms_app_id s) true (ms_callback_pending s) (ms_callback_at s) (Some serial)
       (ms_aspect s)) sid (surfaces st)),
   [AckConfigure serial]).

(** [dst_w as u64] of an [i32] sign-extends. *)
Definition fit_preserve_aspect (src_w src_h dst_w dst_h : Z) : Z * Z :=
  if (src_w =? 0) || (src_h =? 0) then (dst_w, dst_h)
  else
    let lhs := wrap 64 (src_w * wrap 64 dst_h) in
    let rhs := wrap 64 (wrap 64 dst_w * src_h) in
    if lhs <=? rhs then
      let fitted_w := i32 (wrap 64 (wrap 64 dst_h * src_w) / src_h) in
      (Z.max fitted_w 1, dst_h)
    else
      let fitted_h := i32 (wrap 64 (wrap 64 dst_w * src_h) / src_w) in
      (dst_w, Z.max fitted_h 1).

Definition toplevel_configure (st : DisplayState) (sid width height : Z) : list wl_req :=
  if (0 <? width) && (0 <? height) then
    match find_surface sid (surfaces st) with
    | Some s =>
        if ms_viewport s then
          let '(fit_w, fit_h) := fit_preserve_aspect (ms_width s) (ms_height s) width height in
          [SetDestination sid fit_w fit_h]
        else []
    | None => []
    end
  else [].

Definition callback_done (st : DisplayState) (sid : Z) : DisplayState :=
  mkDisplayState (compositor st) (shm st) (xdg_wm_base st) (seat st) (viewporter st)
    (on_surface (fun s => with_uploader s (ms_uploader s) false None) sid (surfaces st)) true.

Definition handle_event (st : DisplayState) (ev : wl_event) : option (DisplayState * list wl_req) :=
  match ev with
  | RegistryGlobal interface version => Some (registry_global st interface version)
  | BufferRelease _ idx => st ← buffer_release st idx; Some (st, [])
  | Ping serial => Some (st, [Pong serial])
  | XdgConfigure sid serial => Some (xdg_configure st sid serial)
  | ToplevelConfigure sid width height => Some (st, toplevel_configure st sid width height)
  | CallbackDone sid => Some (callback_done st sid, [])
  | IgnoredEvent => Some (st, [])
  end.

Fixpoint handle_events (st : DisplayState) (evs : list wl_event) : option (DisplayState * list wl_req) :=
  match evs with
  | [] => Some (st, [])
  | ev :: evs =>
      '(st, reqs) ← handle_event st ev;
      '(st, reqs') ← handle_events st evs;
      Some (st, reqs ++ reqs')
  end.

(** ** [WaylandDisplay] *)

(** [wd_next] is the connection's next object id, which names new pools. *)
Record WaylandDisplay := mkWaylandDisplay { wd_state : DisplayState; wd_next : Z }.

(** An operation: [None] is a panic; otherwise the state and the requests made,
    also when it fails. *)
Definition disp (A : Type) : Type :=
  WaylandDisplay -> option (WaylandDisplay * list wl_req * (A + DisplayError)).

#[export] Instance disp_ret : MRet disp := fun A a d => Some (d, [], inl a).
#[export] Instance disp_bind : MBind disp := fun A B f m d =>
  '(d, reqs, r) ← m d;
  match r with
  | inl a => '(d, reqs', r) ← f a d; Some (d, reqs ++ reqs', r)
  | inr e => Some (d, reqs, inr e)
  end.

Definition throw {A} (e : DisplayError) : disp A := fun d => Some (d, [], inr e).
Definition ask : disp DisplayState := fun d => Some (d, [], inl (wd_state d)).
Definition put (st : DisplayState) : disp unit := fun d => Some (mkWaylandDisplay st (wd_next d), [], inl tt).
Definition tell (reqs : list wl_req) : disp unit := fun d => Some (d, reqs, inl tt).
Definition fresh_id : disp Z := fun d => Some (mkWaylandDisplay (wd_state d) (wd_next d + 1), [], inl (wd_next d)).
(** [.ok_or(e)?]. *)
Definition ok_or {A} (o : option A) (e : DisplayError) : disp A :=
  match o with Some a => mret a | None => throw e end.
Definition lift_panic {A} (o : option A) : disp A := fun d => a ← o; Some (d, [], inl a).

(** Events are handled; then the call may report a dispatch error. *)
Definition dispatch (evs : list wl_event) (ok : bool) : disp unit :=
  st ← ask;
  '(st, reqs) ← lift_panic (handle_events st evs);
  put st;; tell reqs;; (if ok then mret tt else throw WaylandDispatch).

(** The answers of a round trip. *)
Record round_trip := mkRoundTrip { rt_events : list wl_event; rt_ok : bool }.
Definition roundtrip (rt : round_trip) : disp unit := dispatch (rt_events rt) (rt_ok rt).

Definition DisplayState_empty : DisplayState := mkDisplayState None None None None None [] false.

(** [WaylandDisplay::new]; [connected] is the answer of [connect_to_env]. *)
Definition WaylandDisplay_new (connected : bool) (rt : round_trip)
    : option ((WaylandDisplay * list wl_req) + DisplayError) :=
  if negb connected then Some (inr WaylandConnect)
  else
    '(d, reqs, r) ← roundtrip rt (mkWaylandDisplay DisplayState_empty 0);
    Some match r with
    | inr e => inr e
    | inl _ =>
        let st := wd_state d in
        match compositor st, shm st, xdg_wm_base st with
        | None, _, _ => inr NoCompositor
        | _, None, _ => inr NoShm
        | _, _, None => inr NoXdgWmBase
        | _, _, _ => inl (d, reqs)
        end
    end.

(** An uploader for the surface; the pool gets a fresh id. *)
Definition new_uploader (width height stride : Z) (sys : shm_answer) : disp ShmFrameUploader :=
  id ← fresh_id;
  match Uploader_new id width height stride sys with
  | inl (u, reqs) => tell reqs;; mret u
  | inr e => throw e
  end.

Definition init_surface_uploader (sid : Z) (sys : shm_answer) : disp unit :=
  st ← ask;
  ok_or (shm st) NoShm;;
  s ← ok_or (find_surface sid (surfaces st)) (SurfaceNotFound sid);
  match ms_uploader s with
  | Some _ => mret tt
  | None =>
      u ← new_uploader (ms_width s) (ms_height s) (ms_stride s) sys;
      put (with_surfaces st (on_surface (fun s =>
        mkSurface (ms_id s) (ms_viewport s) (Some u) (ms_width s) (ms_height s) (ms_stride s)
          (ms_title s) (ms_app_id s) true (ms_callback_pending s) (ms_callback_at s)
          (ms_configure_serial s) (ms_aspect s)) sid (surfaces st)))
  end.

Definition create_surface (sid : Z) (title app_id : string) (width height : Z) (aspect : f64)
    (rt : round_trip) (sys : shm_answer) : disp unit :=
  st ← ask;
  ok_or (compositor st) NoCompositor;;
  ok_or (xdg_wm_base st) NoXdgWmBase;;
  let viewport := bool_decide (is_Some (viewporter st)) in
  tell [CreateSurface sid title app_id viewport; Commit sid];;
  let stride := wrap 32 (width * 4) in
  put (with_surfaces st (surfaces st ++
    [mkSurface sid viewport None width height stride title app_id false false None None aspect]));;
  roundtrip rt;;
  init_surface_uploader sid sys.

Definition update_surface_metadata (sid : Z) (title app_id : string) : disp unit :=
  st ← ask;
  ok_or (find_surface sid (surfaces st)) (SurfaceNotFound sid);;
  put (with_surfaces st (on_surface (fun s =>
    mkSurface (ms_id s) (ms_viewport s) (ms_uploader s) (ms_width s) (ms_height s) (ms_stride s)
      title app_id (ms_configured s) (ms_callback_pending s) (ms_callback_at s)
      (ms_configure_serial s) (ms_aspect s)) sid (surfaces st)));;
  tell [SetTitle sid title; SetAppId sid app_id].

(** [position] and [remove]. *)
Fixpoint remove_surface (sid : Z) (l : list ManagedSurface) : list ManagedSurface :=
  match l with
  | [] => []
  | s :: l => if ms_id s =? sid then l else s :: remove_surface sid l
  end.

Definition drop_uploader (u : option ShmFrameUploader) : list wl_req :=
  match u with Some u => [DestroyPool (up_pool u)] | None => [] end.

Definition destroy_surface (sid : Z) : disp unit :=
  st ← ask;
  match find_surface sid (surfaces st) with
  | Some s =>
      put (with_surfaces st (remove_surface sid (surfaces st)));;
      tell (drop_uploader (ms_uploader s) ++ [DestroySurface sid])
  | None => mret tt
  end.

Definition get_surface (st : DisplayState) (sid : Z) : option ManagedSurface :=
  find_surface sid (surfaces st).

Definition present_frame (sid : Z) (data : list Z) (damage : list DamageRegion) (now after : Z)
    : disp bool :=
  st ← ask;
  s ← ok_or (find_surface sid (surfaces st)) (SurfaceNotFound sid);
  '(s', reqs, committed) ← lift_panic (surface_present s data damage now after);
  put (with_surfaces st (on_surface (fun _ => s') sid (surfaces st)));;
  tell reqs;;
  mret committed.

(** The answers of the non-blocking dispatch: the flush, the queued events, and
    the read, when another thread is not reading already. *)
Inductive io_answer := IoOk | IoWouldBlock | IoErr.
Record dispatch_io := mkDispatchIo {
  io_flush : io_answer; io_queued : round_trip; io_read : option (io_answer * round_trip) }.

Definition dispatch_pending (io : dispatch_io) : disp unit :=
  match io_flush io with
  | IoErr => throw WaylandDispatch
  | _ =>
      roundtrip (io_queued io);;
      match io_read io with
      | None => mret tt
      | Some (IoOk, rt) => roundtrip rt
      | Some (IoWouldBlock, _) => mret tt
      | Some (IoErr, _) => throw WaylandDispatch
      end
  end.

Definition dispatch_blocking (rt : round_trip) : disp unit := roundtrip rt.

(** The fields change first; the old uploader is dropped when the new one exists. *)
Definition resize_surface (sid width height : Z) (sys : shm_answer) : disp unit :=
  st ← ask;
  ok_or (shm st) NoShm;;
  s ← ok_or (find_surface sid (surfaces st)) (SurfaceNotFound sid);
  if (ms_width s =? width) && (ms_height s =? height) then mret tt
  else
    let stride := wrap 32 (width * 4) in
    let resized u s := mkSurface (ms_id s) (ms_viewport s) u width height stride (ms_title s)
      (ms_app_id s) (ms_configured s) (ms_callback_pending s) (ms_callback_at s)
      (ms_configure_serial s) (ms_aspect s) in
    put (with_surfaces st (on_surface (fun s => resized (ms_uploader s) s) sid (surfaces st)));;
    u ← new_uploader width height stride sys;
    put (with_surfaces st (on_surface (resized (Some u)) sid (surfaces st)));;
    tell (drop_uploader (ms_uploader s)).
