(* ===== verification/DisplayThread.v ===== *)
(** The display thread ([crates/remoteway-display/src/thread.rs]): its ring, one
    pass of [display_loop], and the handle the pipeline holds.

    A pass is a function of the thread's state and of what the outside answers
    during it.  The compositor's side is in [DisplaySafety]. *)

From Stdlib Require Import SpecFloat.
From stdpp Require Import strings pretty.
From S2P Require Import Prelude Queue Floats Display.

(** ** The thread *)

Record DisplayThreadConfig := mkDisplayThreadConfig {
  dc_core_id : Z; dc_sched_priority : Z; dc_ring_capacity : Z }.

Definition DisplayThreadConfig_default : DisplayThreadConfig := mkDisplayThreadConfig 3 0 4.

Section Thread.
Context {Q : Type -> Type} `{FifoLaws Q}.

(** The handle and the loop's variables; [dt_exit] is the loop's result. *)
Record DisplayThread := mkDisplayThread {
  dt_ring : Q DisplayFrame; dt_capacity : Z; dt_stop : bool;
  dt_display : WaylandDisplay; dt_aspect : option f64; dt_pending : option DisplayFrame;
  dt_exit : option (unit + DisplayError) }.

(** [DisplayThread::spawn], once the loop has its display. *)
Definition display_spawn (config : DisplayThreadConfig) (d : WaylandDisplay) : DisplayThread :=
  mkDisplayThread fifo_new (dc_ring_capacity config) false d None None None.

Definition send_frame (t : DisplayThread) (f : DisplayFrame) : DisplayThread * bool :=
  let '(q, ok) := try_send (dt_capacity t) (dt_ring t) f in
  (mkDisplayThread q (dt_capacity t) (dt_stop t) (dt_display t) (dt_aspect t) (dt_pending t)
     (dt_exit t), ok).

(** The producer's [slots()]: the free ones. *)
Definition display_buffered_frames (t : DisplayThread) : Z := dt_capacity t - fifo_len (dt_ring t).

Definition display_stop (t : DisplayThread) : DisplayThread :=
  mkDisplayThread (dt_ring t) (dt_capacity t) true (dt_display t) (dt_aspect t) (dt_pending t)
    (dt_exit t).

Definition is_running (t : DisplayThread) : bool := negb (bool_decide (is_Some (dt_exit t))).

(** ** One pass of the loop *)

(** What the outside answers during a pass. *)
Record pass_env := mkPassEnv {
  pe_io : dispatch_io; pe_create : round_trip; pe_create_shm : shm_answer;
  pe_resize_shm : shm_answer; pe_now : Z; pe_after : Z }.

(** [while let Ok(frame) = consumer.pop()]: the newest frame, if any. *)
Fixpoint drain (fuel : nat) (q : Q DisplayFrame) (pending : option DisplayFrame)
    : Q DisplayFrame * option DisplayFrame :=
  match fuel with
  | O => (q, pending)
  | S fuel =>
      match fifo_pop q with
      | Some (f, q) => drain fuel q (Some f)
      | None => (q, pending)
      end
  end.

(** [frame.width as f64 / frame.height as f64]. *)
Definition aspect_of (f : DisplayFrame) : f64 :=
  if 0 <? df_height f
  then f64_div (f64_of_int (df_width f)) (f64_of_int (df_height f))
  else f64_of_int 1.

(** From the pending frame to [Ok(committed)]: create, resize, present. *)
Definition show_frame (aspect : option f64) (f : DisplayFrame) (env : pass_env)
    : disp (option f64 * bool) :=
  st ← ask;
  aspect ← match get_surface st (df_surface_id f) with
    | Some _ => mret aspect
    | None =>
        let ar := default (aspect_of f) aspect in
        create_surface (df_surface_id f) ("RemoteWay #" +:+ pretty (df_surface_id f)) "remoteway"
          (df_width f) (df_height f) ar (pe_create env) (pe_create_shm env);;
        mret (Some ar)
    end;
  st ← ask;
  match get_surface st (df_surface_id f) with
  | Some s =>
      if negb (ms_width s =? df_width f) || negb (ms_height s =? df_height f)
      then resize_surface (df_surface_id f) (df_width f) (df_height f) (pe_resize_shm env)
      else mret tt
  | None => mret tt
  end;;
  committed ← present_frame (df_surface_id f) (df_data f) (df_damage f) (pe_now env) (pe_after env);
  mret (aspect, committed).

(** What a pass did, for an observer. *)
Inductive pass_obs := Exited | Slept | Committed (f : DisplayFrame) | Kept (f : DisplayFrame).

Definition exit_thread (t : DisplayThread) (r : unit + DisplayError) (d : WaylandDisplay)
    (q : Q DisplayFrame) : DisplayThread :=
  mkDisplayThread q (dt_capacity t) (dt_stop t) d (dt_aspect t) None (Some r).

(** The body of the [loop]; a pass of a thread that has exited does nothing. *)
Definition display_iter (t : DisplayThread) (env : pass_env)
    : option (DisplayThread * list wl_req * pass_obs) :=
  match dt_exit t with
  | Some _ => Some (t, [], Exited)
  | None =>
  if dt_stop t then Some (exit_thread t (inl tt) (dt_display t) (dt_ring t), [], Exited)
  else
    '(d, reqs, r) ← dispatch_pending (pe_io env) (dt_display t);
    match r with
    | inr e => Some (exit_thread t (inr e) d (dt_ring t), reqs, Exited)
    | inl _ =>
        let '(q, pending) := drain (length (fifo_items (dt_ring t))) (dt_ring t) (dt_pending t) in
        match pending with
        | None =>
            Some (mkDisplayThread q (dt_capacity t) (dt_stop t) d (dt_aspect t) None None, reqs, Slept)
        | Some f =>
            '(d, reqs', r) ← show_frame (dt_aspect t) f env d;
            match r with
            | inr e => Some (exit_thread t (inr e) d q, reqs ++ reqs', Exited)
            | inl (aspect, committed) =>
                Some (mkDisplayThread q (dt_capacity t) (dt_stop t) d aspect
                        (if committed : bool then None else Some f) None,
                      reqs ++ reqs', if committed then Committed f else Kept f)
            end
        end
    end
  end.
End Thread.
Arguments DisplayThread Q : clear implicits.
