(* ===== verification/DisplaySafety.v ===== *)
(** Safety of the display side: a compositor that behaves as the protocol says
    never has a buffer written under it, whatever it answers and however the
    frames and its events interleave with the passes of the loop; and the frames
    reach the screen in order, the newest first of those waiting.

    The compositor is a monitor that runs along: it knows which buffers it holds
    and fails when the client attaches, that is, has just written, one of them. *)

From Stdlib Require Import SpecFloat.
From stdpp Require Import strings.
From S2P Require Import Prelude Queue Floats Display DisplayThread.

(** ** The compositor *)

(** The buffers held, by pool and index, and the one attached for the next commit. *)
Record Comp := mkComp { c_held : gset (Z * Z); c_attached : option (Z * Z) }.

Definition Comp_new : Comp := mkComp ∅ None.

(** A request; [None] when the client has written a buffer the compositor holds. *)
Definition comp_req (c : Comp) (r : wl_req) : option Comp :=
  match r with
  | Attach _ pool idx =>
      if decide ((pool, idx) ∈ c_held c) then None else Some (mkComp (c_held c) (Some (pool, idx)))
  | Commit _ =>
      match c_attached c with
      | Some b => Some (mkComp (c_held c ∪ {[b]}) None)
      | None => Some c
      end
  | DestroyPool pool => Some (mkComp (filter (fun b => b.1 <> pool) (c_held c)) (c_attached c))
  | _ => Some c
  end.

Definition comp_reqs (c : Comp) (reqs : list wl_req) : option Comp := foldM comp_req c reqs.

(** An event the compositor may send: it releases only what it holds. *)
Definition comp_event (c : Comp) (ev : wl_event) : option Comp :=
  match ev with
  | BufferRelease pool idx =>
      if decide ((pool, idx) ∈ c_held c)
      then Some (mkComp (c_held c ∖ {[(pool, idx)]}) (c_attached c)) else None
  | _ => Some c
  end.

Definition comp_events (c : Comp) (evs : list wl_event) : option Comp := foldM comp_event c evs.

Definition no_release (ev : wl_event) : Prop := match ev with BufferRelease _ _ => False | _ => True end.

(** Requests that leave the buffers alone. *)
Definition neutral (r : wl_req) : Prop :=
  match r with Attach _ _ _ | Commit _ | DestroyPool _ => False | _ => True end.

Lemma comp_reqs_neutral c reqs : Forall neutral reqs -> comp_reqs c reqs = Some c.
Proof. induction 1 as [|r reqs Hr _ IH]; [done|]. by destruct r. Qed.

Lemma comp_reqs_app c reqs reqs' c' :
  comp_reqs c reqs = Some c' -> comp_reqs c (reqs ++ reqs') = comp_reqs c' reqs'.
Proof. intros E. unfold comp_reqs in *. by rewrite foldM_app, E. Qed.

(** ** Well-formed uploaders and surfaces *)

Definition uploader_ok (u : ShmFrameUploader) : Prop :=
  (up_active u = 0 \/ up_active u = 1) /\ length (up_released u) = 2%nat /\
  0 < up_stride u * up_height u /\ 2 * (up_stride u * up_height u) < 2 ^ 64 /\
  zlen (up_map u) = 2 * (up_stride u * up_height u).

(** The uploader has the surface's geometry. *)
Definition surface_ok (s : ManagedSurface) : Prop :=
  match ms_uploader s with
  | Some u => uploader_ok u /\ up_width u = ms_width s /\ up_height u = ms_height s /\
              up_stride u = ms_stride s
  | None => True
  end.

(** Buffer [i] of the mapped memory. *)
Definition buffer_bytes (u : ShmFrameUploader) (i : Z) : list Z :=
  take (Z.to_nat (up_stride u * up_height u))
    (drop (Z.to_nat (i * (up_stride u * up_height u))) (up_map u)).

Lemma Uploader_new_ok pool w h stride sys u reqs :
  0 <= stride -> 0 <= h -> Uploader_new pool w h stride sys = inl (u, reqs) ->
  uploader_ok u /\ up_pool u = pool /\ up_width u = w /\ up_height u = h /\ up_stride u = stride /\
  up_released u = [true; true] /\ up_active u = 0 /\ Forall neutral reqs.
Proof.
  intros Hs Hh. unfold Uploader_new, checked_mul.
  destruct (_ <? _); [|done]. destruct (_ <? _); [done|].
  destruct (Z.ltb_spec (stride * h) (2 ^ 64)); [|done].
  destruct (Z.ltb_spec (stride * h * 2) (2 ^ 64)); [|done].
  destruct (Z.eqb_spec (stride * h * 2) 0); [done|]. destruct sys; [|done..].
  intros [= <- <-]. unfold uploader_ok. cbn.
  assert (0 <= stride * h) by (apply Z.mul_nonneg_nonneg; lia).
  split_and!; try done; try lia; [|by repeat constructor].
  unfold zlen. rewrite length_replicate. lia.
Qed.

Lemma released_get (r : list bool) i : length r = 2%nat -> i = 0 \/ i = 1 ->
  exists b, get r i = Some b /\ forall b', exists r', set r i b' = Some r' /\ length r' = 2%nat /\
    get r' i = Some b' /\ get r' (1 - i) = get r (1 - i).
Proof.
  destruct r as [|x [|y [|]]]; try done. intros _ [-> | ->]; eexists; (split; [done|]);
    intros b'; eexists; (split; [done|]); done.
Qed.

(** What an upload leaves in the back buffer: the data, cut to the buffer's size,
    and the old bytes behind it. *)
Definition overwrite (data old : list Z) : list Z := take (length old) data ++ drop (length data) old.

Lemma overwrite_same data old : length data = length old -> overwrite data old = data.
Proof.
  intros E. unfold overwrite. rewrite <- E, firstn_all, E, drop_all. apply app_nil_r.
Qed.

Lemma splice_half {A} (l data : list A) n a :
  (length data <= n)%nat -> length l = (n + n)%nat -> a = 0 \/ a = 1 ->
  let off := Z.to_nat (a * Z.of_nat n) in
  let l' := take off l ++ data ++ drop (off + length data) l in
  length l' = length l /\
  take n (drop off l') = data ++ drop (length data) (take n (drop off l)) /\
  take n (drop (Z.to_nat ((1 - a) * Z.of_nat n)) l') = take n (drop (Z.to_nat ((1 - a) * Z.of_nat n)) l).
Proof.
  intros Hd Hl Ha. cbn zeta.
  destruct (decide (a = 0)) as [->|]; [|assert (a = 1) as -> by lia; clear Ha].
  - rewrite Z.mul_0_l, Z.mul_1_l, Nat2Z.id. change (Z.to_nat 0) with 0%nat.
    rewrite take_0, !drop_0. cbn [app Nat.add]. split_and!.
    + rewrite length_app, length_drop. lia.
    + rewrite take_app, take_ge by lia. f_equal. rewrite take_drop_commute. f_equal. f_equal. lia.
    + rewrite drop_app, drop_drop, drop_ge by lia. cbn [app]. do 2 f_equal. lia.
  - change (1 - 1) with 0. rewrite Z.mul_0_l, Z.mul_1_l, Nat2Z.id. change (Z.to_nat 0) with 0%nat.
    rewrite !drop_0. split_and!.
    + rewrite !length_app, length_take, length_drop. lia.
    + rewrite drop_app_length' by (rewrite length_take; lia).
      rewrite take_app, take_ge by lia. f_equal.
      rewrite (take_ge (drop n l)) by (rewrite length_drop; lia). rewrite drop_drop.
      rewrite take_ge; [done|]. rewrite length_drop. lia.
    + rewrite take_app_le by (rewrite length_take; lia). by rewrite take_take, Nat.min_id.
Qed.

Lemma upload_ok u data : uploader_ok u ->
  exists u', upload u data = Some u' /\ uploader_ok u' /\ up_pool u' = up_pool u /\
    up_active u' = up_active u /\ up_released u' = up_released u /\
    up_width u' = up_width u /\ up_height u' = up_height u /\ up_stride u' = up_stride u /\
    buffer_bytes u' (up_active u) = overwrite data (buffer_bytes u (up_active u)) /\
    buffer_bytes u' (1 - up_active u) = buffer_bytes u (1 - up_active u).
Proof.
  intros (Ha & Hr & H0 & Hn & Hm). unfold upload, buffer_size, buffer_bytes.
  remember (up_stride u * up_height u) as n eqn:En.
  rewrite (wrap_small 64 n) by (unfold fits; lia). rewrite wrap_small by (unfold fits; lia).
  rewrite slice_ok by lia. cbn [mbind option_bind].
  set (data' := take (Z.to_nat (Z.min (zlen data) n)) data).
  assert (Hd' : (length data' <= Z.to_nat n)%nat) by (unfold data'; rewrite length_take; lia).
  unfold splice. rewrite decide_True by (unfold zlen; unfold zlen in Hm; lia). cbn [mbind option_bind].
  eexists. split; [done|]. cbn [up_pool up_map up_active up_released up_width up_height up_stride].
  rewrite <- En.
  destruct (splice_half (up_map u) data' (Z.to_nat n) (up_active u)) as (Hlen & Hx & Hy);
    [done|unfold zlen in Hm; lia|done|].
  rewrite Z2Nat.id in * by lia. split_and!; try done.
  - unfold uploader_ok. cbn [up_pool up_map up_active up_released up_width up_height up_stride].
    rewrite <- En. split_and!; try done. unfold zlen in *. by rewrite Hlen.
  - rewrite Hx. unfold overwrite.
    assert (Hb : length (take (Z.to_nat n) (drop (Z.to_nat (up_active u * n)) (up_map u))) = Z.to_nat n)
      by (rewrite length_take, length_drop; unfold zlen in Hm; lia).
    rewrite Hb. unfold data'. clear -Hb Hm H0 Hn. destruct (decide (zlen data <= n)) as [Hle|Hgt].
    + rewrite Z.min_l by lia. unfold zlen in *. rewrite Nat2Z.id, firstn_all.
      rewrite (take_ge data) by lia. done.
    + rewrite Z.min_r by lia. f_equal.
      unfold zlen in *. rewrite (drop_ge _ (length (take _ data))) by (rewrite Hb, length_take; lia).
      by rewrite (drop_ge _ (length data)) by (rewrite Hb; lia).
Qed.

(** ** A Hoare logic for [disp] with the compositor alongside *)

Definition assertion := WaylandDisplay -> Comp -> Prop.

(** From [P] the operation does not panic and the compositor accepts its requests;
    if it returns a value, [Post] holds of it, and it fails only if [fails]. *)
Definition dtriple (P : assertion) {A} (m : disp A) (Post : A -> assertion) (fails : Prop) : Prop :=
  forall d c, P d c -> exists d' reqs r c',
    m d = Some (d', reqs, r) /\ comp_reqs c reqs = Some c' /\
    match r with inl a => Post a d' c' | inr _ => fails end.

Lemma dtriple_bind P {A B} (m : disp A) (f : A -> disp B) R Post F :
  dtriple P m R F -> (forall a, dtriple (R a) (f a) Post F) -> dtriple P (m ≫= f) Post F.
Proof.
  intros Hm Hf d c HP. destruct (Hm d c HP) as (d1 & q1 & r & c1 & E & C & HR).
  cbv [mbind disp_bind]. cbn. rewrite E. cbn. destruct r as [a|e].
  - destruct (Hf a d1 c1 HR) as (d2 & q2 & r & c2 & E2 & C2 & HQ). rewrite E2. cbn.
    exists d2, (q1 ++ q2), r, c2. split_and!; [done|by rewrite (comp_reqs_app _ _ _ _ C)|done].
  - by exists d1, q1, (inr e), c1.
Qed.

Lemma dtriple_ret (P : assertion) {A} (a : A) (Post : A -> assertion) F :
  (forall d c, P d c -> Post a d c) -> dtriple P (mret a) Post F.
Proof. intros H d c HP. exists d, [], (inl a), c. split_and!; auto. Qed.

Lemma dtriple_conseq (P P' : assertion) {A} (m : disp A) (Post Post' : A -> assertion) (F F' : Prop) :
  dtriple P' m Post' F' -> (forall d c, P d c -> P' d c) ->
  (forall a d c, Post' a d c -> Post a d c) -> (F' -> F) -> dtriple P m Post F.
Proof.
  intros Hm HP HQ HF d c Hd. destruct (Hm d c (HP d c Hd)) as (d' & reqs & r & c' & E & C & Hr).
  exists d', reqs, r, c'. split_and!; [done|done|]. destruct r; auto.
Qed.

(** Reading the state: the rest is proved for each value it can have. *)
Lemma dtriple_ask (P : assertion) {B} (f : DisplayState -> disp B) Post F :
  (forall st, dtriple (fun d c => P d c /\ wd_state d = st) (f st) Post F) ->
  dtriple P (ask ≫= f) Post F.
Proof.
  intros H. eapply (dtriple_bind _ _ _ (fun st d c => P d c /\ wd_state d = st)); [|done].
  intros d c HP. by exists d, [], (inl (wd_state d)), c.
Qed.

Lemma dtriple_put P st (Post : unit -> assertion) F :
  (forall d c, P d c -> Post tt (mkWaylandDisplay st (wd_next d)) c) -> dtriple P (put st) Post F.
Proof. intros H d c HP. exists (mkWaylandDisplay st (wd_next d)), [], (inl tt), c. split_and!; auto. Qed.

Lemma dtriple_tell P reqs (Post : unit -> assertion) F :
  (forall d c, P d c -> exists c', comp_reqs c reqs = Some c' /\ Post tt d c') ->
  dtriple P (tell reqs) Post F.
Proof. intros H d c HP. destruct (H d c HP) as (c' & E & HQ). by exists d, reqs, (inl tt), c'. Qed.

(** A lookup that cannot fail from [P]. *)
Lemma dtriple_ok_or P {A} (o : option A) e (Post : A -> assertion) F :
  (forall d c, P d c -> exists a, o = Some a /\ Post a d c) -> dtriple P (ok_or o e) Post F.
Proof.
  intros H d c HP. destruct (H d c HP) as (a & -> & HQ). by exists d, [], (inl a), c.
Qed.

(** ** The invariant of a session with one surface *)

(** The compositor holds exactly the buffers of the surface's pool not released. *)
Definition holds (c : Comp) (o : option ShmFrameUploader) : Prop :=
  match o with
  | Some u => forall p i, (p, i) ∈ c_held c <->
      p = up_pool u /\ (i = 0 \/ i = 1) /\ get (up_released u) i = Some false
  | None => c_held c = ∅
  end.

Definition pool_below (n : Z) (o : option ShmFrameUploader) : Prop :=
  match o with Some u => up_pool u < n | None => True end.

(** The globals the session needs are bound. *)
Definition bound (st : DisplayState) : Prop :=
  is_Some (compositor st) /\ is_Some (shm st) /\ is_Some (xdg_wm_base st).

Definition one_surface (sid : Z) (s : ManagedSurface) (d : WaylandDisplay) (c : Comp) : Prop :=
  surfaces (wd_state d) = [s] /\ ms_id s = sid /\ surface_ok s /\
  pool_below (wd_next d) (ms_uploader s) /\ holds c (ms_uploader s) /\ c_attached c = None /\
  bound (wd_state d).

Definition no_surface (d : WaylandDisplay) (c : Comp) : Prop :=
  surfaces (wd_state d) = [] /\ c_held c = ∅ /\ c_attached c = None /\ bound (wd_state d).

Definition callback_ok (s : ManagedSurface) : Prop :=
  ms_callback_pending s = true -> is_Some (ms_callback_at s).

(** What no event or frame takes from a surface: its size, being configured,
    having an uploader, and a request time for a pending callback. *)
Definition evolves (s s' : ManagedSurface) : Prop :=
  ms_width s' = ms_width s /\ ms_height s' = ms_height s /\ ms_stride s' = ms_stride s /\
  (ms_configured s = true -> ms_configured s' = true) /\
  (is_Some (ms_uploader s) <-> is_Some (ms_uploader s')) /\ (callback_ok s -> callback_ok s').

#[export] Instance evolves_preorder : PreOrder evolves.
Proof.
  split; [by intros s; unfold evolves; split_and!|].
  intros s1 s2 s3 (W1 & H1 & T1 & C1 & U1 & K1) (W2 & H2 & T2 & C2 & U2 & K2).
  unfold evolves. split_and!; [congruence..|auto|by etrans|auto].
Qed.

(** A surface that has been set up. *)
Definition settled (s : ManagedSurface) : Prop :=
  ms_configured s = true /\ is_Some (ms_uploader s) /\ callback_ok s.

Lemma evolves_settled s s' : evolves s s' -> settled s -> settled s'.
Proof. intros (_ & _ & _ & C & U & K) (Hc & Hu & Hk). unfold settled. rewrite <- U. auto. Qed.

(** The buffer the next frame is written to. *)
Definition back (s : ManagedSurface) : option (Z * Z) :=
  (fun u => (up_pool u, up_active u)) <$> ms_uploader s.

(** What an event does to a surface: besides, it does not swap the buffers, and a
    callback pending after it was pending before. *)
Definition handled (s s' : ManagedSurface) : Prop :=
  evolves s s' /\ back s' = back s /\ (ms_callback_pending s' = true ->
    ms_callback_pending s = true /\ ms_callback_at s' = ms_callback_at s).

#[export] Instance handled_preorder : PreOrder handled.
Proof.
  split; [by intros s|]. intros s1 s2 s3 (E1 & B1 & K1) (E2 & B2 & K2). split; [by etrans|].
  split; [congruence|].
  intros Hp. destruct (K2 Hp) as [Hp2 ->]. by apply K1.
Qed.

(** The surface can take a frame: no callback is being waited for, and the back
    buffer is the client's. *)
Definition due (now : Z) (s : ManagedSurface) : Prop :=
  ms_callback_pending s = true -> stale s now = true.

Definition spare (s : ManagedSurface) : Prop :=
  exists u, ms_uploader s = Some u /\ get (up_released u) (up_active u) = Some true.

Definition idle (now : Z) (s : ManagedSurface) : Prop := due now s /\ spare s.

Lemma handled_due now s s' : handled s s' -> due now s -> due now s'.
Proof. intros (_ & _ & K) Hd Hp. destruct (K Hp) as [Hp' E]. unfold stale. rewrite E. by apply Hd. Qed.

(** The compositor does not hold the back buffer. *)
Definition back_free (c : Comp) (s : ManagedSurface) : Prop :=
  forall b, back s = Some b -> b ∉ c_held c.

Lemma back_free_spare sid s d c : one_surface sid s d c -> settled s -> back_free c s -> spare s.
Proof.
  intros (_ & _ & Hok & _ & Hh & _) (_ & [u Eu] & _) Hc. exists u. split; [done|].
  unfold surface_ok in Hok. unfold back_free, back in Hc. rewrite Eu in *. destruct Hok as ((Ha & Hr & _) & _).
  destruct (released_get _ _ Hr Ha) as ([] & Eb & _); [done|].
  exfalso. apply (Hc _ eq_refl). by apply Hh.
Qed.

(** At most one surface, set up; [X] is what else is known of it. *)
Definition inv (sid : Z) (X : ManagedSurface -> Prop) (d : WaylandDisplay) (c : Comp) : Prop :=
  no_surface d c \/ exists s, one_surface sid s d c /\ settled s /\ X s.

(** *** Presenting *)

Lemma damage_reqs_neutral s damage : Forall neutral (damage_reqs s damage).
Proof.
  unfold damage_reqs. destruct damage as [|d l]; [by repeat constructor|].
  apply list.Forall_fmap, list.Forall_forall. done.
Qed.

Lemma present_reqs_accepted c s u damage :
  (up_pool u, up_active u) ∉ c_held c ->
  comp_reqs c ([Attach (ms_id s) (up_pool u) (up_active u)] ++ damage_reqs s damage ++
    (if ms_viewport s then [SetSource (ms_id s) (ms_width s) (ms_height s)] else []) ++
    [FrameCallback (ms_id s); Commit (ms_id s)]) =
  Some (mkComp (c_held c ∪ {[(up_pool u, up_active u)]}) None).
Proof.
  intros Hn. cbn [app]. unfold comp_reqs. cbn [foldM comp_req]. rewrite decide_False by done. cbn [mbind option_bind].
  fold (comp_reqs (mkComp (c_held c) (Some (up_pool u, up_active u)))).
  rewrite (comp_reqs_app _ _ _ _ (comp_reqs_neutral _ _ (damage_reqs_neutral s damage))).
  by destruct (ms_viewport s).
Qed.

Lemma swap_ok u : uploader_ok u -> exists r u',
  swap u = Some u' /\ u' = set_released u r (1 - up_active u) /\ uploader_ok u' /\
  get r (up_active u) = Some false /\ get r (1 - up_active u) = get (up_released u) (1 - up_active u).
Proof.
  intros (Ha & Hr & H0 & Hn & Hm). destruct (released_get _ _ Hr Ha) as (b & _ & H).
  destruct (H false) as (r & E & Hlr & G1 & G2). unfold swap. rewrite E. cbn [mbind option_bind].
  exists r, (set_released u r (1 - up_active u)). split_and!; try done.
  unfold uploader_ok, set_released. cbn [up_pool up_map up_active up_released up_width up_height up_stride].
  split_and!; try done. lia.
Qed.

(** A surface takes a frame or leaves everything as it is, up to a frame callback
    given up on. *)
Lemma surface_present_spec s data damage now after :
  surface_ok s ->
  exists s' reqs ok, surface_present s data damage now after = Some (s', reqs, ok) /\
    surface_ok s' /\ ms_id s' = ms_id s /\ evolves s s' /\
    (settled s -> idle now s -> ok = true) /\
    if ok : bool then
      exists u u' r, ms_uploader s = Some u /\ ms_uploader s' = Some u' /\
        reqs = [Attach (ms_id s) (up_pool u) (up_active u)] ++ damage_reqs s damage ++
          (if ms_viewport s then [SetSource (ms_id s) (ms_width s) (ms_height s)] else []) ++
          [FrameCallback (ms_id s); Commit (ms_id s)] /\
        get (up_released u) (up_active u) = Some true /\
        up_pool u' = up_pool u /\ up_active u' = 1 - up_active u /\ up_released u' = r /\
        get r (up_active u) = Some false /\
        get r (1 - up_active u) = get (up_released u) (1 - up_active u) /\
        buffer_bytes u' (up_active u) = overwrite data (buffer_bytes u (up_active u))
    else reqs = [] /\ ms_uploader s' = ms_uploader s.
Proof.
  intros Hok. unfold surface_present.
  destruct (ms_configured s) eqn:Ecf; cbn [negb].
  2: { exists s, [], false. split_and!; try done. unfold settled. rewrite Ecf. by intros [? _]. }
  destruct (ms_callback_pending s && negb (stale s now)) eqn:Ewait.
  { exists s, [], false. split_and!; try done. intros _ [Hd _].
    apply andb_prop in Ewait as [Hp Hn%negb_true_iff]. by rewrite (Hd Hp) in Hn. }
  set (s1 := if ms_callback_pending s then _ else s).
  assert (E1 : surface_ok s1 /\ ms_id s1 = ms_id s /\ evolves s s1 /\ ms_uploader s1 = ms_uploader s /\
    ms_viewport s1 = ms_viewport s /\ ms_callback_pending s1 = false).
  { unfold s1. destruct (ms_callback_pending s) eqn:Ep; split_and!; done. }
  clearbody s1. destruct E1 as (Hok1 & Ei & Hev & Eu & Ev & Ecb). pose proof Hev as (Ew & Eh & _).
  assert (Ed : damage_reqs s damage = damage_reqs s1 damage) by (unfold damage_reqs; by rewrite Ei, Ew, Eh).
  destruct (ms_uploader s1) as [u|] eqn:E.
  2: { exists s1, [], false. rewrite E. split_and!; try done. unfold settled. rewrite <- Eu.
       by intros (_ & [] & _). }
  unfold surface_ok in Hok1. rewrite E in Hok1. destruct Hok1 as (Hu & Gw & Gh & Gs).
  pose proof Hu as (Ha & Hr & _). unfold can_upload.
  destruct (released_get _ _ Hr Ha) as (b & Eb & _). rewrite Eb. cbn [mbind option_bind].
  destruct b; cbn [negb].
  2: { exists s1, [], false. unfold surface_ok. rewrite E. split_and!; try done.
       intros _ (_ & u' & Eu' & Hg). congruence. }
  destruct (upload_ok u data Hu) as (u1 & -> & Hu1 & P1 & A1 & R1 & W1 & H1 & S1 & B1 & _). cbn [mbind option_bind].
  destruct (swap_ok u1 Hu1) as (r & u2 & -> & -> & Hu2 & G1 & G2). cbn [mbind option_bind].
  eexists _, _, true. split; [reflexivity|]. rewrite A1, R1 in *. split_and!; try done.
  - unfold surface_ok. cbn [ms_uploader with_uploader]. split; [done|]. cbn. split_and!; congruence.
  - etrans; [exact Hev|]. unfold evolves, callback_ok. cbn. split_and!; done.
  - exists u. eexists _, r. split; [done|]. split; [reflexivity|]. rewrite Ed, P1, Ei, Ew, Eh, Ev.
    split_and!; done.
Qed.

Lemma present_inv sid s data damage now after F :
  dtriple (one_surface sid s) (present_frame sid data damage now after)
    (fun ok d c => exists s', one_surface sid s' d c /\ evolves s s' /\
       (settled s -> idle now s -> ok = true)) F.
Proof.
  apply dtriple_ask. intros st d c ((Hs & Hid & Hok & Hp & Hh & Hat & Hb) & <-).
  destruct (surface_present_spec s data damage now after Hok)
    as (s' & reqs & ok & E & Hok' & Hid' & Hevo & Hgo & Hcase).
  unfold present_frame, ok_or. rewrite Hs. cbn [find_surface]. rewrite Hid, Z.eqb_refl.
  cbv [mbind disp_bind mret disp_ret lift_panic put tell option_bind]. rewrite E. cbn.
  rewrite Z.eqb_refl || rewrite Hid, Z.eqb_refl.
  destruct ok.
  - destruct Hcase as (u & u' & r & Eu & Eu' & -> & Hrel & Ep & Ea & Er & G1 & G2 & _).
    rewrite Eu in *. cbn [holds pool_below] in *.
    assert (Ha : up_active u = 0 \/ up_active u = 1).
    { unfold surface_ok in Hok. rewrite Eu in Hok. apply Hok. }
    eexists _, _, _, _. split; [reflexivity|]. rewrite !app_nil_r. split.
    + apply present_reqs_accepted. intros Hin%Hh. destruct Hin as (_ & _ & Hin). congruence.
    + exists s'. split; [|by split]. unfold one_surface. cbn. split_and!; try done; [by rewrite Hid'|by rewrite Eu'; cbn; rewrite Ep|].
      rewrite Eu'. cbn. intros p i. rewrite elem_of_union, elem_of_singleton, Hh, Ep, Er.
      split.
      * intros [(-> & Hi & Hg)|[= -> ->]]; [|done]. split_and!; try done.
        destruct (decide (i = up_active u)) as [->|]; [done|].
        assert (i = 1 - up_active u) as -> by lia. congruence.
      * intros (-> & Hi & Hg). destruct (decide (i = up_active u)) as [->|]; [by right|left].
        assert (i = 1 - up_active u) as -> by lia. split_and!; try done. congruence.
  - destruct Hcase as [-> Eu]. eexists _, _, _, c. split; [reflexivity|]. split; [done|].
    exists s'. split; [|by split]. unfold one_surface. cbn. rewrite Eu. by split_and!; try rewrite Hid'.
Qed.

(** *** Events *)

Lemma mark_released_ok u i : uploader_ok u -> i = 0 \/ i = 1 ->
  exists r, mark_released u i = Some (set_released u r (up_active u)) /\
    uploader_ok (set_released u r (up_active u)) /\
    get r i = Some true /\ get r (1 - i) = get (up_released u) (1 - i).
Proof.
  intros (Ha & Hr & H0 & Hn & Hm) Hi. unfold mark_released.
  rewrite (proj2 (Z.ltb_lt i 2)) by lia.
  destruct (released_get _ _ Hr Hi) as (b & _ & H). destruct (H true) as (r & -> & Hlr & G1 & G2).
  exists r. split; [done|]. split; [|done].
  unfold uploader_ok, set_released. cbn [up_pool up_map up_active up_released up_width up_height up_stride].
  by split_and!.
Qed.

(** The invariant over a bare state. *)
Definition surface_inv (sid n : Z) (st : DisplayState) (c : Comp) (s : ManagedSurface) : Prop :=
  surfaces st = [s] /\ ms_id s = sid /\ surface_ok s /\ pool_below n (ms_uploader s) /\
  holds c (ms_uploader s) /\ c_attached c = None /\ bound st.

Lemma registry_global_surfaces st i v :
  surfaces (registry_global st i v).1 = surfaces st /\ Forall neutral (registry_global st i v).2 /\
  (bound st -> bound (registry_global st i v).1).
Proof.
  unfold registry_global.
  repeat (case_match; [cbn; unfold bound; cbn; split_and!; [done|by repeat constructor|naive_solver]|]).
  split_and!; [done|constructor|done].
Qed.

Lemma handle_event_one sid n st c s ev c' :
  surface_inv sid n st c s -> comp_event c ev = Some c' ->
  exists st' reqs s', handle_event st ev = Some (st', reqs) /\ Forall neutral reqs /\
    surface_inv sid n st' c' s' /\ handled s s'.
Proof.
  intros Hinv Hev. pose proof Hinv as (Hs & Hid & Hok & Hp & Hh & Hat & Hbo). destruct ev; cbn in Hev; simplify_eq.
  - destruct (registry_global_surfaces st interface version) as (E & Hneu & Hb).
    cbn [handle_event]. destruct (registry_global st interface version) as [st' reqs]. cbn in E, Hneu, Hb.
    exists st', reqs, s. split_and!; try done. unfold surface_inv. rewrite E. by split_and!; try apply Hb.
  - case_decide as Hin; [|done]. injection Hev as <-.
    destruct (ms_uploader s) as [u|] eqn:Eu; [|cbn in Hh; rewrite Hh in Hin; by apply elem_of_empty in Hin].
    pose proof Hin as (-> & Hi & _)%Hh. cbn in Hp, Hh.
    assert (Hu : uploader_ok u /\ up_width u = ms_width s /\ up_height u = ms_height s /\ up_stride u = ms_stride s)
      by (unfold surface_ok in Hok; by rewrite Eu in Hok).
    destruct Hu as (Hu & Gw & Gh & Gs). destruct (mark_released_ok u idx Hu Hi) as (r & Em & Hu' & G1 & G2).
    cbn [handle_event]. unfold buffer_release. rewrite Hs. cbn. rewrite Eu, Em. cbn.
    eexists _, [], (with_uploader s (Some (set_released u r (up_active u))) (ms_callback_pending s)
      (ms_callback_at s)).
    split; [reflexivity|]. split; [constructor|].
    split; [|unfold handled, evolves, back, callback_ok; cbn; rewrite Eu; by split_and!].
    unfold surface_inv, with_surfaces, surface_ok. cbn. split_and!; try done.
    intros p i. rewrite elem_of_difference, elem_of_singleton, Hh. split.
    + intros [(-> & Hi' & Hg) Hne]. split_and!; try done.
      assert (i <> idx) by congruence. assert (i = 1 - idx) as -> by lia. congruence.
    + intros (-> & Hi' & Hg). assert (i <> idx) by congruence. assert (i = 1 - idx) as -> by lia.
      split; [split_and!; [done|done|congruence]|]. intros [= E]. lia.
  - exists st, [Pong serial], s. split_and!; try done. by repeat constructor.
  - cbn [handle_event]. unfold xdg_configure. rewrite Hs. cbn [on_surface].
    destruct (ms_id s =? sid0); (eexists _, _, _; split; [reflexivity|]; split; [by repeat constructor|];
      split; [unfold surface_inv, with_surfaces; cbn; split_and!; done|done]).
  - eexists st, _, s. cbn [handle_event]. split; [reflexivity|]. split_and!; try done.
    unfold toplevel_configure. repeat case_match; by repeat constructor.
  - cbn [handle_event]. unfold callback_done. rewrite Hs. cbn [on_surface].
    destruct (ms_id s =? sid0); (eexists _, _, _; split; [reflexivity|]; split; [by repeat constructor|];
      split; [unfold surface_inv; cbn; split_and!; done|done]).
  - exists st, [], s. split_and!; try done.
Qed.

Lemma handle_events_one sid n st c s evs c' :
  surface_inv sid n st c s -> comp_events c evs = Some c' ->
  exists st' reqs s', handle_events st evs = Some (st', reqs) /\ Forall neutral reqs /\
    surface_inv sid n st' c' s' /\ handled s s'.
Proof.
  revert st c s. induction evs as [|ev evs IH]; intros st c s Hi Hc.
  { injection Hc as <-. exists st, [], s. by split_and!. }
  cbn in Hc. destruct (comp_event c ev) as [c1|] eqn:E1; [|done]. cbn in Hc.
  destruct (handle_event_one _ _ _ _ _ _ _ Hi E1) as (st1 & q1 & s1 & Eh & N1 & I1 & S1).
  destruct (IH _ _ _ I1 Hc) as (st2 & q2 & s2 & E2 & N2 & I2 & S2).
  exists st2, (q1 ++ q2), s2. cbn. rewrite Eh. cbn. rewrite E2. cbn. split_and!; try done.
  - by apply list.Forall_app.
  - by etrans.
Qed.

(** Without a surface nothing is held, so nothing can be released. *)
Lemma handle_events_none st evs c c' :
  surfaces st = [] -> c_held c = ∅ -> comp_events c evs = Some c' ->
  c' = c /\ exists st' reqs, handle_events st evs = Some (st', reqs) /\ Forall neutral reqs /\
    surfaces st' = [] /\ (bound st -> bound st').
Proof.
  intros Hs Hc. revert st Hs. induction evs as [|ev evs IH]; intros st Hs E.
  { injection E as <-. split; [done|]. exists st, []. by split_and!. }
  cbn in E. destruct (comp_event c ev) as [c1|] eqn:E1; [|done]. cbn in E.
  assert (c1 = c /\ exists st1 q1, handle_event st ev = Some (st1, q1) /\ Forall neutral q1 /\
    surfaces st1 = [] /\ (bound st -> bound st1)) as (-> & st1 & q1 & H1 & N1 & S1 & B1).
  { destruct ev; cbn in E1; simplify_eq; (split; [done|]) || idtac.
    - destruct (registry_global_surfaces st interface version) as (E1 & Hneu & Hb).
      exists (registry_global st interface version).1, (registry_global st interface version).2.
      cbn. split_and!; [by destruct (registry_global _ _ _)|done|by rewrite E1|done].
    - rewrite Hc in E1. case_decide as Hin; [by apply elem_of_empty in Hin|done].
    - exists st, [Pong serial]. split_and!; try done. by repeat constructor.
    - cbn. unfold xdg_configure. rewrite Hs. cbn. eexists _, _. split; [reflexivity|].
      split_and!; try done. by repeat constructor.
    - cbn. unfold toplevel_configure. rewrite Hs. exists st. eexists. split; [reflexivity|].
      split_and!; try done. repeat case_match; by repeat constructor.
    - cbn. unfold callback_done. rewrite Hs. eexists _, _. split; [reflexivity|]. split_and!; try done.
    - exists st, []. by split_and!. }
  destruct (IH _ S1 E) as (-> & st2 & q2 & H2 & N2 & S2 & B2). split; [done|].
  exists st2, (q1 ++ q2). cbn. rewrite H1. cbn. rewrite H2. cbn. split_and!; try done.
  - by apply list.Forall_app.
  - auto.
Qed.

(** *** The operations of the loop *)

Lemma no_release_events c evs : Forall no_release evs -> comp_events c evs = Some c.
Proof. induction 1 as [|ev evs Hev _ IH]; [done|]. by destruct ev. Qed.

Lemma one_surface_inv sid s d c :
  one_surface sid s d c <-> surface_inv sid (wd_next d) (wd_state d) c s.
Proof. done. Qed.

Lemma dispatch_one sid s d c evs ok c1 :
  one_surface sid s d c -> comp_events c evs = Some c1 ->
  exists d' reqs s', dispatch evs ok d =
      Some (d', reqs, if ok then inl tt else inr WaylandDispatch) /\ Forall neutral reqs /\
    one_surface sid s' d' c1 /\ handled s s'.
Proof.
  intros Hi He. destruct (handle_events_one _ _ _ _ _ _ _ Hi He) as (st' & reqs & s' & E & N & I & S).
  exists (mkWaylandDisplay st' (wd_next d)), reqs, s'. unfold dispatch, ask, lift_panic, put, tell.
  cbv [mbind disp_bind mret disp_ret option_bind throw]. rewrite E. cbn.
  destruct ok; cbn; rewrite app_nil_r; by split_and!.
Qed.

Lemma dispatch_none d c evs ok c1 :
  no_surface d c -> comp_events c evs = Some c1 ->
  exists d' reqs, dispatch evs ok d =
      Some (d', reqs, if ok then inl tt else inr WaylandDispatch) /\ Forall neutral reqs /\
    no_surface d' c1.
Proof.
  intros (Hs & Hh & Ha & Hb) He.
  destruct (handle_events_none _ _ _ _ Hs Hh He) as (-> & st' & reqs & E & N & S & B).
  exists (mkWaylandDisplay st' (wd_next d)), reqs. unfold dispatch, ask, lift_panic, put, tell.
  cbv [mbind disp_bind mret disp_ret option_bind throw]. rewrite E. cbn.
  destruct ok; cbn; rewrite app_nil_r; unfold no_surface; by split_and!; try apply B.
Qed.

Lemma dispatch_inv sid (X : ManagedSurface -> Prop) d c evs ok c1 :
  (forall s s', handled s s' -> X s -> X s') ->
  inv sid X d c -> comp_events c evs = Some c1 ->
  exists d' reqs, dispatch evs ok d =
      Some (d', reqs, if ok then inl tt else inr WaylandDispatch) /\ Forall neutral reqs /\
    inv sid X d' c1.
Proof.
  intros HX [Hn|(s & Hs & Hset & Hx)] He.
  - destruct (dispatch_none d c evs ok c1 Hn He) as (d' & reqs & E & N & I). exists d', reqs. by split_and!; [| |left].
  - destruct (dispatch_one sid s d c evs ok c1 Hs He) as (d' & reqs & s' & E & N & I & S).
    exists d', reqs. split_and!; [done|done|right]. exists s'.
    split_and!; [done|by eapply evolves_settled; [apply S|]|by eapply HX].
Qed.

(** The events a non-blocking dispatch handles. *)
Definition io_events (io : dispatch_io) : list wl_event :=
  match io_flush io with
  | IoErr => []
  | _ => rt_events (io_queued io) ++
      if rt_ok (io_queued io) then
        match io_read io with Some (IoOk, rt) => rt_events rt | _ => [] end
      else []
  end.

(** It reports no error. *)
Definition io_fine (io : dispatch_io) : bool :=
  match io_flush io with
  | IoErr => false
  | _ => rt_ok (io_queued io) &&
      match io_read io with Some (IoOk, rt) => rt_ok rt | Some (IoErr, _) => false | _ => true end
  end.

Lemma handle_events_app st evs evs' :
  handle_events st (evs ++ evs') =
  '(st1, q1) ← handle_events st evs; '(st2, q2) ← handle_events st1 evs'; Some (st2, q1 ++ q2).
Proof.
  revert st. induction evs as [|ev evs IH]; intros st; cbn.
  { by destruct (handle_events st evs') as [[]|]. }
  destruct (handle_event st ev) as [[st0 q0]|]; [|done]. cbn. rewrite IH.
  destruct (handle_events st0 evs) as [[st1 q1]|]; [|done]. cbn.
  destruct (handle_events st1 evs') as [[st2 q2]|]; [|done]. cbn. by rewrite app_assoc.
Qed.

(** The non-blocking dispatch is one dispatch of the events it gets to. *)
Lemma dispatch_pending_eq io d : dispatch_pending io d = dispatch (io_events io) (io_fine io) d.
Proof.
  destruct d as [st n]. unfold dispatch_pending, io_events, io_fine, roundtrip, dispatch.
  assert (Hnil : forall (st : DisplayState) (q : list wl_req), (st, q ++ []) = (st, q))
    by (intros; by rewrite app_nil_r).
  destruct (io_flush io); [| |done]; cbv [mbind disp_bind ask lift_panic put tell mret disp_ret throw option_bind];
    cbn [wd_state wd_next]; rewrite handle_events_app; destruct (handle_events st _) as [[st1 q1]|]; try done;
    cbn; (destruct (rt_ok (io_queued io)); [|by cbn; rewrite !app_nil_r]);
    cbn; (destruct (io_read io) as [[[] rt]|]; cbn; rewrite ?app_nil_r; try done);
    destruct (handle_events st1 _) as [[st2 q2]|]; cbn; try done;
    destruct (rt_ok rt); cbn; by rewrite !app_nil_r.
Qed.

Lemma dispatch_pending_inv sid X d c io c1 :
  (forall s s', handled s s' -> X s -> X s') ->
  inv sid X d c -> comp_events c (io_events io) = Some c1 ->
  exists d' reqs, dispatch_pending io d =
      Some (d', reqs, if io_fine io then inl tt else inr WaylandDispatch) /\ Forall neutral reqs /\
    inv sid X d' c1.
Proof. rewrite dispatch_pending_eq. apply dispatch_inv. Qed.

(** What a new uploader needs: memory, and a size that is neither zero nor past
    the machine's. *)
Definition new_fits (w h stride : Z) (sys : shm_answer) : Prop :=
  sys = ShmOk /\ w * 4 <= stride /\ 0 < stride * h /\ stride * h * 2 < 2 ^ 64.

Lemma Uploader_new_fits pool w h stride sys e :
  0 <= w < 2 ^ 62 -> Uploader_new pool w h stride sys = inr e -> ~ new_fits w h stride sys.
Proof.
  intros Hw He (-> & H1 & H2 & H3). revert He. unfold Uploader_new, checked_mul.
  rewrite (proj2 (Z.ltb_lt (w * 4) _)), (proj2 (Z.ltb_ge stride _)), (proj2 (Z.ltb_lt (stride * h) _)),
    (proj2 (Z.ltb_lt (stride * h * 2) _)), (proj2 (Z.eqb_neq (stride * h * 2) 0)) by lia. done.
Qed.

Lemma new_uploader_ok (P : assertion) w h stride sys F :
  0 <= w < 2 ^ 62 -> 0 <= stride -> 0 <= h -> (~ new_fits w h stride sys -> F) ->
  (forall d c, P d c -> P (mkWaylandDisplay (wd_state d) (wd_next d + 1)) c) ->
  dtriple P (new_uploader w h stride sys)
    (fun u d c => P d c /\ uploader_ok u /\ up_pool u < wd_next d /\
       up_width u = w /\ up_height u = h /\ up_stride u = stride /\
       up_released u = [true; true] /\ up_active u = 0) F.
Proof.
  intros Hw Hs Hh HF Hn d c HP. unfold new_uploader, fresh_id. cbv [mbind disp_bind option_bind].
  destruct (Uploader_new (wd_next d) w h stride sys) as [[u reqs]|e] eqn:E.
  - destruct (Uploader_new_ok _ _ _ _ _ _ _ Hs Hh E) as (Hu & Ep & Ew & Eh & Es & Er & Ea & N).
    cbv [tell mret disp_ret]. cbn [app]. eexists _, _, _, c. split; [reflexivity|]. rewrite app_nil_r.
    split; [by apply comp_reqs_neutral|]. cbn [wd_state wd_next]. split_and!; try done; [by apply Hn|lia].
  - eexists _, _, _, c. split; [reflexivity|]. split; [done|]. apply HF. by eapply Uploader_new_fits.
Qed.

(** A surface whose uploader is new: nothing is held. *)
Lemma holds_new c u : up_released u = [true; true] -> c_held c = ∅ -> holds c (Some u).
Proof.
  intros Hr Hc p i. rewrite Hc, Hr. split; [by intros ?%elem_of_empty|].
  intros (_ & [-> | ->] & Hg); done.
Qed.

(** The surface named is the one there is. *)
Lemma find_one sid s d c :
  one_surface sid s d c -> exists s0, find_surface sid (surfaces (wd_state d)) = Some s0 /\ s0 = s.
Proof.
  intros (Hs & Hid & _). exists s. rewrite Hs. cbn. by rewrite Hid, Z.eqb_refl.
Qed.

Lemma init_inv sid s sys F :
  0 <= ms_width s < 2 ^ 62 -> 0 <= ms_height s -> 0 <= ms_stride s ->
  callback_ok s -> ms_uploader s = None ->
  (~ new_fits (ms_width s) (ms_height s) (ms_stride s) sys -> F) ->
  dtriple (one_surface sid s) (init_surface_uploader sid sys)
    (fun _ d c => exists s', one_surface sid s' d c /\ settled s' /\ ms_width s' = ms_width s /\
       ms_height s' = ms_height s /\ forall now, due now s -> idle now s') F.
Proof.
  intros Hw Hh Hst Hcb Hnone HF. apply dtriple_ask. intros st.
  set (P := fun d c => one_surface sid s d c /\ wd_state d = st).
  eapply (dtriple_bind _ _ _ (fun _ => P)).
  { apply dtriple_ok_or. intros d c HP. pose proof HP as [(_ & _ & _ & _ & _ & _ & _ & [v Ev] & _) <-]. by exists v. }
  intros _. eapply (dtriple_bind _ _ _ (fun s0 d c => P d c /\ s0 = s)).
  { apply dtriple_ok_or. intros d c HP. pose proof HP as [Hi <-].
    destruct (find_one _ _ _ _ Hi) as (s0 & E & ->). by exists s. }
  intros s0 d c [HP ->]. rewrite Hnone. revert d c HP.
  change (dtriple P (u ← new_uploader (ms_width s) (ms_height s) (ms_stride s) sys;
    put (with_surfaces st (on_surface (fun s =>
      mkSurface (ms_id s) (ms_viewport s) (Some u) (ms_width s) (ms_height s) (ms_stride s)
        (ms_title s) (ms_app_id s) true (ms_callback_pending s) (ms_callback_at s)
        (ms_configure_serial s) (ms_aspect s)) sid (surfaces st))))
    (fun _ d c => exists s', one_surface sid s' d c /\ settled s' /\ ms_width s' = ms_width s /\
       ms_height s' = ms_height s /\ forall now, due now s -> idle now s') F).
  eapply dtriple_bind; [apply (new_uploader_ok P); try done|].
  { intros d c [(E1 & E2 & E3 & E4 & E5 & E6 & E7) Est]. split; [|done]. unfold one_surface. cbn.
    split_and!; try done; [by rewrite Hnone|apply E7..]. }
  intros u. apply dtriple_put.
  intros d c (((E1 & E2 & E3 & E4 & E5 & E6 & E7) & <-) & Hu & Hp & Gw & Gh & Gs & Gr & Ga).
  rewrite E1. cbn [on_surface]. rewrite E2, Z.eqb_refl. eexists. split_and!.
  - unfold one_surface, surface_ok. cbn. split_and!; try done; [|apply E7..].
    rewrite Hnone in E5. by apply holds_new.
  - unfold settled. cbn. by split_and!.
  - done.
  - done.
  - intros now Hd. split; [exact Hd|]. exists u. split; [done|]. by rewrite Gr, Ga.
Qed.

Lemma create_inv sid title app_id w h ar rt sys F :
  fits 32 w -> fits 32 h -> Forall no_release (rt_events rt) ->
  (~ (rt_ok rt = true /\ new_fits w h (wrap 32 (w * 4)) sys) -> F) ->
  dtriple no_surface (create_surface sid title app_id w h ar rt sys)
    (fun _ d c => exists s, one_surface sid s d c /\ settled s /\ ms_width s = w /\
       ms_height s = h /\ forall now, idle now s) F.
Proof.
  intros Hw Hh Hrt HF. apply dtriple_ask. intros st.
  set (P := fun d c => no_surface d c /\ wd_state d = st).
  eapply (dtriple_bind _ _ _ (fun _ => P)).
  { apply dtriple_ok_or. intros d c HP. pose proof HP as [(_ & _ & _ & [v Ev] & _) <-]. by exists v. }
  intros _. eapply (dtriple_bind _ _ _ (fun _ => P)).
  { apply dtriple_ok_or. intros d c HP. pose proof HP as [(_ & _ & _ & _ & _ & [v Ev]) <-]. by exists v. }
  intros _. cbn zeta.
  eapply (dtriple_bind _ _ _ (fun _ => P)).
  { apply dtriple_tell. intros d c [(Hs & Hc & Ha & Hb) Hst]. exists c. split; [|done].
    cbn. rewrite Ha. done. }
  intros _. set (vp := bool_decide _).
  set (s := mkSurface sid vp None w h (wrap 32 (w * 4)) title app_id false false None None ar).
  eapply (dtriple_bind _ _ _ (fun _ => one_surface sid s)).
  { apply dtriple_put. intros d c [(Hs & Hc & Ha & Hb) <-]. unfold one_surface. cbn. rewrite Hs.
    split_and!; try done; apply Hb. }
  intros _. eapply (dtriple_bind _ _ _ (fun _ d c => rt_ok rt = true /\ exists s', one_surface sid s' d c /\ handled s s')).
  { intros d c Hi. destruct (dispatch_one sid s d c (rt_events rt) (rt_ok rt) c Hi) as (d' & reqs & s' & E & N & I & S);
      [by apply no_release_events|]. eexists d', reqs, _, c. split; [exact E|].
    split; [by apply comp_reqs_neutral|].
    destruct (rt_ok rt); [split; [done|by exists s']|]. apply HF. by intros [? _]. }
  intros _ d c (Hrok & s' & Hi & Hhd). pose proof Hhd as [(Sw & Sh & Ss & _ & Su & Sc) _].
  assert (Hu' : ms_uploader s' = None)
    by (destruct (ms_uploader s') eqn:E; [|done]; destruct (proj2 Su) as [? ?]; by eauto).
  revert d c Hi. eapply dtriple_conseq; [apply (init_inv sid s' sys F)| | |].
  - rewrite Sw. unfold fits in Hw. cbn. lia.
  - rewrite Sh. apply Hh.
  - rewrite Ss. apply wrap_fits. lia.
  - by apply Sc.
  - done.
  - rewrite Sw, Sh, Ss. intros Hn. apply HF. by intros [_ ?].
  - done.
  - intros _ d c (s2 & I2 & St & W2 & H2 & Hid). exists s2. rewrite W2, H2, Sw, Sh. split_and!; try done.
    intros now. apply Hid. by eapply handled_due.
  - done.
Qed.

Lemma resize_inv sid s w h sys F :
  fits 32 w -> fits 32 h -> (~ new_fits w h (wrap 32 (w * 4)) sys -> F) ->
  dtriple (fun d c => one_surface sid s d c /\ settled s) (resize_surface sid w h sys)
    (fun _ d c => exists s', one_surface sid s' d c /\ settled s' /\ ms_width s' = w /\
       ms_height s' = h /\ forall now, idle now s -> idle now s') F.
Proof.
  intros Hw Hh HF. apply dtriple_ask. intros st.
  set (P := fun d c => (one_surface sid s d c /\ settled s) /\ wd_state d = st).
  eapply (dtriple_bind _ _ _ (fun _ => P)).
  { apply dtriple_ok_or. intros d c HP. pose proof HP as [[(_ & _ & _ & _ & _ & _ & _ & [v Ev] & _) _] <-]. by exists v. }
  intros _. eapply (dtriple_bind _ _ _ (fun s0 d c => P d c /\ s0 = s)).
  { apply dtriple_ok_or. intros d c HP. pose proof HP as [[Hi _] <-].
    destruct (find_one _ _ _ _ Hi) as (s0 & E & ->). by exists s. }
  intros s0. destruct (_ && _) eqn:Esz.
  { apply dtriple_ret. intros d c [[[Hi Hst] _] ->]. exists s. apply andb_prop in Esz as [?%Z.eqb_eq ?%Z.eqb_eq].
    by split_and!. }
  cbn zeta. intros d c [[[Hi (Sc & Su & Sk)] <-] ->].
  destruct Hi as (Hs & Hid & Hok & Hp & Hhold & Hat & Hb).
  rewrite Hs. cbn [on_surface]. rewrite Hid, Z.eqb_refl.
  unfold new_uploader, fresh_id. cbv [mbind disp_bind option_bind put].
  cbn [wd_next wd_state].
  destruct (Uploader_new (wd_next d) w h (wrap 32 (w * 4)) sys) as [[u reqs]|e] eqn:E.
  2: { eexists _, _, _, c. split; [reflexivity|]. split; [done|]. apply HF.
       eapply Uploader_new_fits; [|exact E]. unfold fits in Hw. lia. }
  destruct (Uploader_new_ok _ _ _ _ _ _ _ (proj1 (wrap_fits 32 (w * 4) ltac:(lia))) (proj1 Hh) E)
    as (Hu & Ep & Ew & Eh & Es & Er & Ea & N).
  cbv [tell mret disp_ret]. cbn [app].
  set (c' := mkComp (match ms_uploader s with Some u0 => filter (fun b => b.1 <> up_pool u0) (c_held c) | None => c_held c end)
    (c_attached c)).
  eexists _, _, _, c'. split; [reflexivity|]. rewrite !app_nil_r. split.
  - rewrite (comp_reqs_app _ _ _ c (comp_reqs_neutral c _ N)).
    unfold drop_uploader, c'. destruct (ms_uploader s); [done|]. by destruct c.
  - assert (Hc' : c_held c' = ∅).
    { unfold c'. cbn [c_held]. destruct (ms_uploader s) as [u0|]; [|done]. cbn in Hhold. apply leibniz_equiv. intros [p i].
      rewrite elem_of_filter, Hhold. cbn. split; [|by intros ?%elem_of_empty]. naive_solver. }
    eexists. split; [|split_and!].
    + unfold one_surface, surface_ok. cbn [wd_state surfaces with_surfaces on_surface ms_id].
      split; [reflexivity|]. cbn. split_and!; try done; [lia| |apply Hb..]. exact (holds_new _ _ Er Hc').
    + unfold settled. cbn. by split_and!.
    + done.
    + done.
    + intros now [Hd _]. split; [exact Hd|]. exists u. split; [done|]. by rewrite Er, Ea.
Qed.

(** A frame for the session's surface. *)
Definition shows_on (sid : Z) (f : DisplayFrame) : Prop :=
  df_surface_id f = sid /\ fits 32 (df_width f) /\ fits 32 (df_height f).

(** The window can be made, or remade, in the frame's size. *)
Definition window_fits (f : DisplayFrame) (env : pass_env) : Prop :=
  rt_ok (pe_create env) = true /\
  new_fits (df_width f) (df_height f) (wrap 32 (df_width f * 4)) (pe_create_shm env) /\
  new_fits (df_width f) (df_height f) (wrap 32 (df_width f * 4)) (pe_resize_shm env).

(** When the surface is idle, if it exists, the frame is committed; [G] says
    whether that is known. *)
Lemma show_frame_inv sid aspect f env (G : Prop) :
  shows_on sid f -> Forall no_release (rt_events (pe_create env)) ->
  dtriple (inv sid (fun s => G -> idle (pe_now env) s)) (show_frame aspect f env)
    (fun r d c => (G -> r.2 = true) /\ exists s, one_surface sid s d c /\ settled s /\
       ms_width s = df_width f /\ ms_height s = df_height f) (~ window_fits f env).
Proof.
  intros (Esid & Hw & Hh) Hrt. unfold show_frame, window_fits. rewrite Esid.
  apply dtriple_ask. intros st.
  eapply (dtriple_bind _ _ _ (fun _ d c => exists s, one_surface sid s d c /\ settled s /\ (G -> idle (pe_now env) s))).
  { intros d c [[Hn|(s & Hs & Hset & Hg)] <-].
    - unfold get_surface. rewrite (proj1 Hn). cbn [find_surface].
      eapply (dtriple_bind no_surface); [apply create_inv; [done..|naive_solver]| |exact Hn].
      intros ?. apply dtriple_ret. intros d0 c0 (s & Hi & Hset & _ & _ & Hid). exists s. by split_and!.
    - unfold get_surface. destruct (find_one _ _ _ _ Hs) as (s0 & -> & ->).
      exists d, [], (inl aspect), c. split_and!; [done|done|by exists s]. }
  intros asp. apply dtriple_ask. intros st'.
  eapply (dtriple_bind _ _ _ (fun _ d c => exists s, one_surface sid s d c /\ settled s /\
     ms_width s = df_width f /\ ms_height s = df_height f /\ (G -> idle (pe_now env) s))).
  { intros d c [(s & Hi & Hset & Hg) <-]. unfold get_surface. destruct (find_one _ _ _ _ Hi) as (s0 & -> & ->).
    destruct (Z.eqb_spec (ms_width s) (df_width f)) as [Ew|], (Z.eqb_spec (ms_height s) (df_height f)) as [Eh|];
      cbn [negb orb]; [exists d, [], (inl tt), c; split_and!; [done|done|by exists s]|..];
      (eapply dtriple_conseq; [apply (resize_inv sid s); [done..|intros Hn; exact Hn]|intros ? ? Hx; exact Hx| | |by split]);
      [intros _ d1 c1 (s1 & I1 & St1 & W1 & H1 & Hid); exists s1; split_and!; auto|naive_solver..]. }
  intros _ d c (s & Hi & Hset & Ew & Eh & Hg).
  eapply (dtriple_bind (one_surface sid s)); [by apply present_inv| |exact Hi].
  intros ok. apply dtriple_ret. intros d0 c0 (s' & Hi' & He & Hgo). pose proof He as (Ew' & Eh' & _).
  split; [intros HG; cbn; auto|].
  exists s'. split_and!; [done|by eapply evolves_settled|congruence..].
Qed.
