(* ===== verification/DisplayRun.v ===== *)
(** Runs of the display thread beside the compositor: no buffer is written while
    it is held, the frames are shown in the order sent, and a pass that can show
    the newest frame does. *)

From Stdlib Require Import SpecFloat.
From stdpp Require Import strings.
From S2P Require Import Prelude Queue Floats Display DisplayThread DisplaySafety.

Section Run.
Context {Q : Type -> Type} `{FifoLaws Q}.

Inductive dt_event := DtSend (f : DisplayFrame) | DtPass (env : pass_env) | DtStop.

(** The frames the ring took, and those committed. *)
Record Log := mkLog { lg_accepted : list DisplayFrame; lg_shown : list DisplayFrame }.

Definition Log_empty : Log := mkLog [] [].

Definition log_send (l : Log) (f : DisplayFrame) (ok : bool) : Log :=
  mkLog (lg_accepted l ++ if ok then [f] else []) (lg_shown l).

Definition log_pass (l : Log) (o : pass_obs) : Log :=
  mkLog (lg_accepted l) (lg_shown l ++ match o with Committed f => [f] | _ => [] end).

(** How a run ends: normally; because the compositor broke the protocol; in a
    panic; or with a buffer written while the compositor held it. *)
Inductive dt_end := Done (t : DisplayThread Q) (c : Comp) (l : Log) | EnvBroken | Panicked | WroteHeld.

Fixpoint dt_run (t : DisplayThread Q) (c : Comp) (l : Log) (evs : list dt_event) : dt_end :=
  match evs with
  | [] => Done t c l
  | DtSend f :: evs => let '(t, ok) := send_frame t f in dt_run t c (log_send l f ok) evs
  | DtStop :: evs => dt_run (display_stop t) c l evs
  | DtPass env :: evs =>
      match comp_events c (io_events (pe_io env)) with
      | None => EnvBroken
      | Some c =>
          match display_iter t env with
          | None => Panicked
          | Some (t, reqs, o) =>
              match comp_reqs c reqs with
              | None => WroteHeld
              | Some c => dt_run t c (log_pass l o) evs
              end
          end
      end
  end.

(** The events are about one surface, and its creation precedes any release. *)
Definition one_window (sid : Z) (ev : dt_event) : Prop :=
  match ev with
  | DtSend f => shows_on sid f
  | DtPass env => Forall no_release (rt_events (pe_create env))
  | DtStop => True
  end.

(** The frame a pass will show: the newest of the ring, or the one kept. *)
Definition newest (t : DisplayThread Q) : option DisplayFrame :=
  match list.last (fifo_items (dt_ring t)) with Some f => Some f | None => dt_pending t end.

Lemma drain_items fuel (q : Q DisplayFrame) p :
  (length (fifo_items q) <= fuel)%nat ->
  fifo_items (drain fuel q p).1 = [] /\
  (drain fuel q p).2 = match list.last (fifo_items q) with Some f => Some f | None => p end.
Proof.
  revert q p. induction fuel as [|fuel IH]; intros q p Hl; cbn.
  { destruct (fifo_items q); [done|cbn in Hl; lia]. }
  pose proof (fifo_pop_spec q) as Sp. destruct (fifo_pop q) as [[f q']|].
  - rewrite Sp in *. cbn in Hl. destruct (IH q' (Some f)) as [E1 E2]; [lia|]. split; [done|].
    rewrite E2, last_cons. by destruct (list.last (fifo_items q')).
  - by rewrite Sp.
Qed.

Lemma drain_newest t :
  fifo_items (drain (length (fifo_items (dt_ring t))) (dt_ring t) (dt_pending t)).1 = [] /\
  (drain (length (fifo_items (dt_ring t))) (dt_ring t) (dt_pending t)).2 = newest t.
Proof. by apply drain_items. Qed.

(** ** Safety *)

Definition thread_inv (sid : Z) (t : DisplayThread Q) (c : Comp) : Prop :=
  (dt_exit t = None -> inv sid (fun _ => True) (dt_display t) c) /\
  Forall (shows_on sid) (fifo_items (dt_ring t)) /\
  match dt_pending t with Some f => shows_on sid f | None => True end.

Lemma newest_shows sid t c f : thread_inv sid t c -> newest t = Some f -> shows_on sid f.
Proof.
  intros (_ & Hr & Hp). unfold newest. destruct (list.last (fifo_items (dt_ring t))) as [g|] eqn:E.
  - intros [= ->]. apply last_Some in E as [l E]. rewrite E in Hr. apply list.Forall_app in Hr as [_ Hr].
    by inversion_clear Hr.
  - intros Ef. by rewrite Ef in Hp.
Qed.

(** What is to be known of the surface before a pass for it to take the frame. *)
Definition can_show (c : Comp) (now : Z) (s : ManagedSurface) : Prop := due now s /\ back_free c s.

Lemma can_show_handled c now s s' : handled s s' -> can_show c now s -> can_show c now s'.
Proof.
  intros Hh [Hd Hb]. split; [by eapply handled_due|].
  intros b. destruct Hh as (_ & -> & _). apply Hb.
Qed.

Lemma inv_strengthen sid (X Y : ManagedSurface -> Prop) d c :
  inv sid X d c -> (forall s, one_surface sid s d c -> settled s -> X s -> Y s) -> inv sid Y d c.
Proof. intros [Hn|(s & Hs & Hset & Hx)] HXY; [by left|right; exists s]. split_and!; auto. Qed.

(** One pass, from the invariant; [G] says that the surface can take the frame. *)
Lemma display_iter_inv sid t c env c1 (G : Prop) :
  thread_inv sid t c -> Forall no_release (rt_events (pe_create env)) ->
  comp_events c (io_events (pe_io env)) = Some c1 ->
  (G -> Forall (can_show c1 (pe_now env)) (surfaces (wd_state (dt_display t)))) ->
  exists t' reqs o c', display_iter t env = Some (t', reqs, o) /\ comp_reqs c1 reqs = Some c' /\
    thread_inv sid t' c' /\
    (G -> dt_exit t = None -> dt_stop t = false -> io_fine (pe_io env) = true ->
     forall f, newest t = Some f -> window_fits f env -> o = Committed f /\ newest t' = None).
Proof.
  intros Ht Hrt He HG. pose proof Ht as (Hi & Hr & Hp). unfold display_iter.
  destruct (dt_exit t) as [x|] eqn:Ex.
  { eexists _, _, _, c1. split_and!; [done|done| |done]. split_and!; [by rewrite Ex|done|done]. }
  destruct (dt_stop t).
  { eexists _, _, _, c1. split_and!; [done|done| |done]. by split_and!. }
  assert (Hi' : inv sid (fun s => G -> can_show c1 (pe_now env) s) (dt_display t) c).
  { eapply inv_strengthen; [by apply Hi|]. intros s (Es & _) _ _ Hg. specialize (HG Hg).
    rewrite Es in HG. by inversion_clear HG. }
  destruct (dispatch_pending_inv sid (fun s => G -> can_show c1 (pe_now env) s) (dt_display t) c
    (pe_io env) c1) as (d' & reqs & E & N & I);
    [intros s s' Hh Hx Hg; eapply can_show_handled; [exact Hh|by apply Hx]|exact Hi'|exact He|].
  rewrite E. cbn [mbind option_bind]. destruct (io_fine (pe_io env)); cbn [mbind option_bind].
  2: { eexists _, _, _, c1. split; [done|]. split; [by apply comp_reqs_neutral|]. by split_and!. }
  destruct (drain_newest t) as [D1 D2]. destruct (drain _ _ _) as [q pending]. cbn in D1, D2. subst pending.
  destruct (newest t) as [f|] eqn:Ef.
  2: { eexists _, _, _, c1. split; [done|]. split; [by apply comp_reqs_neutral|].
       split; [|done]. split_and!; cbn; [|by rewrite D1|done].
       intros _. by eapply inv_strengthen. }
  pose proof (newest_shows _ _ _ _ Ht Ef) as Hf.
  destruct (show_frame_inv sid (dt_aspect t) f env G Hf Hrt d' c1) as (d2 & q2 & r & c2 & E2 & C2 & I2).
  { eapply inv_strengthen; [exact I|]. intros s Hs Hset Hx Hg. destruct (Hx Hg) as [Hd Hb].
    split; [done|by eapply back_free_spare]. }
  rewrite E2. cbn [mbind option_bind]. destruct r as [[asp ok]|e].
  - eexists _, _, _, c2. split; [done|].
    rewrite (comp_reqs_app _ _ _ c1 (comp_reqs_neutral c1 _ N)). split; [done|].
    destruct I2 as (Hok & s & I2 & Hset & _). cbn in Hok. split; [split_and!; cbn|].
    + intros _. right. by exists s.
    + by rewrite D1.
    + by destruct ok.
    + intros Hg _ _ _ f' [= <-] _. rewrite (Hok Hg). split; [done|]. unfold newest. cbn. by rewrite D1.
  - eexists _, _, _, c2. split; [done|].
    rewrite (comp_reqs_app _ _ _ c1 (comp_reqs_neutral c1 _ N)). split; [done|].
    split; [split_and!; cbn; [done|by rewrite D1|done]|]. intros _ _ _ _ f' [= <-] Hw. by destruct I2.
Qed.

Lemma dt_run_safe sid t c l evs :
  thread_inv sid t c -> Forall (one_window sid) evs ->
  match dt_run t c l evs with
  | Done t' c' _ => thread_inv sid t' c'
  | EnvBroken => True
  | Panicked | WroteHeld => False
  end.
Proof.
  intros Hi Hev. revert t c l Hi. induction Hev as [|ev evs Hev _ IH]; intros t c l Hi; [done|].
  destruct ev as [f|env|]; cbn in *.
  - destruct Hi as (Hi & Hr & Hp). unfold send_frame.
    pose proof (try_send_items (dt_capacity t) (dt_ring t) f) as E.
    destruct (try_send _ _ _) as [q ok]. apply IH. cbn in *. split_and!; cbn; try done.
    rewrite E. destruct ok; [|done]. apply list.Forall_app. split; [done|by constructor].
  - destruct (comp_events c (io_events (pe_io env))) as [c1|] eqn:E; [|done].
    destruct (display_iter_inv sid t c env c1 False Hi Hev E) as (t' & reqs & o & c' & -> & -> & Hi' & _);
      [done|]. by apply IH.
  - apply IH. destruct Hi as (Hi & Hr & Hp). by split_and!.
Qed.

(** ** The start *)

Lemma handle_event_empty st ev st' q :
  surfaces st = [] -> handle_event st ev = Some (st', q) -> surfaces st' = [].
Proof.
  intros Hs. destruct ev; cbn; unfold buffer_release, xdg_configure, callback_done; rewrite ?Hs; cbn;
    intros E; simplify_eq; try done.
  destruct (registry_global_surfaces st interface version) as (E' & _). rewrite E in E'. cbn in E'. congruence.
Qed.

Lemma handle_events_empty st evs st' q :
  surfaces st = [] -> handle_events st evs = Some (st', q) -> surfaces st' = [].
Proof.
  revert st q. induction evs as [|ev evs IH]; intros st q Hs; cbn; [by intros [= <- _]|].
  destruct (handle_event st ev) as [[st1 q1]|] eqn:E1; [|done]. cbn.
  destruct (handle_events st1 evs) as [[st2 q2]|] eqn:E2; [|done]. cbn. intros [= <- _].
  eapply IH; [|exact E2]. by eapply handle_event_empty.
Qed.

(** A display that was made has no surface and the globals it needs. *)
Lemma WaylandDisplay_new_empty connected rt d reqs :
  WaylandDisplay_new connected rt = Some (inl (d, reqs)) ->
  no_surface d Comp_new.
Proof.
  unfold WaylandDisplay_new, roundtrip, dispatch. destruct connected; [|done].
  cbv [mbind disp_bind ask lift_panic put tell mret disp_ret throw option_bind negb]. cbn [wd_state wd_next].
  destruct (handle_events _ _) as [[st q]|] eqn:E; [|done]. destruct (rt_ok rt); [|done].
  cbn. destruct (compositor st) eqn:Ec, (shm st) eqn:Es, (xdg_wm_base st) eqn:Ex; try done.
  intros [= <- _]. unfold no_surface, bound. cbn. rewrite Ec, Es, Ex.
  split_and!; try done. by eapply handle_events_empty; [|exact E].
Qed.

Lemma spawn_inv sid config connected rt d reqs :
  WaylandDisplay_new connected rt = Some (inl (d, reqs)) ->
  thread_inv sid (display_spawn config d) Comp_new.
Proof.
  intros Hd. split_and!; cbn; [|by rewrite fifo_items_new|done].
  intros _. left. by eapply WaylandDisplay_new_empty.
Qed.

(** ** Order *)

(** What the ring gave out is what was accepted less what it still has; what was
    shown is taken from it in order, and the frame kept is the last given out. *)
Definition order_inv (t : DisplayThread Q) (l : Log) : Prop :=
  exists taken, lg_accepted l = taken ++ fifo_items (dt_ring t) /\
    match dt_pending t with
    | Some f => exists before, taken = before ++ [f] /\ lg_shown l `sublist_of` before
    | None => lg_shown l `sublist_of` taken /\ (dt_exit t = None -> list.last (lg_shown l) = list.last taken)
    end.

(** The same from the frame a pass will show. *)
Lemma order_newest t l : order_inv t l ->
  match newest t with
  | Some f => exists before, lg_accepted l = before ++ [f] /\ lg_shown l `sublist_of` before
  | None => lg_shown l `sublist_of` lg_accepted l /\ (dt_exit t = None -> list.last (lg_shown l) = list.last (lg_accepted l))
  end.
Proof.
  intros (taken & Ea & Ht). rewrite Ea. unfold newest. destruct (list.last (fifo_items (dt_ring t))) as [f|] eqn:E.
  - apply last_Some in E as [its E']. rewrite E'. exists (taken ++ its). split; [by rewrite app_assoc|].
    apply sublist_inserts_r. destruct (dt_pending t) as [g|]; [|apply Ht].
    destruct Ht as (before & -> & Hs). by apply sublist_inserts_r.
  - apply last_None in E. rewrite E, app_nil_r. done.
Qed.

Lemma display_iter_order t env t' reqs o l :
  order_inv t l -> display_iter t env = Some (t', reqs, o) -> order_inv t' (log_pass l o).
Proof.
  intros Ho. unfold display_iter. destruct (dt_exit t) as [x|] eqn:Ex.
  { intros [= <- _ <-]. destruct Ho as (taken & Ea & Ht). exists taken. cbn. rewrite app_nil_r. by rewrite Ex in *. }
  assert (Hexit : forall d q r, (fifo_items q = [] \/ fifo_items q = fifo_items (dt_ring t)) ->
    order_inv (exit_thread t r d q) (log_pass l Exited)).
  { intros d q r Hq. apply order_newest in Ho as Hn. destruct Ho as (taken & Ea & Ht).
    unfold order_inv, exit_thread, log_pass. cbn. rewrite app_nil_r. destruct Hq as [-> | ->].
    - exists (lg_accepted l). rewrite app_nil_r. split; [done|]. split; [|done].
      destruct (newest t); [|apply Hn]. destruct Hn as (before & -> & Hs). by apply sublist_inserts_r.
    - exists taken. split; [done|]. split; [|done]. destruct (dt_pending t) as [g|]; [|apply Ht].
      destruct Ht as (before & -> & Hs). by apply sublist_inserts_r. }
  destruct (dt_stop t); [intros [= <- _ <-]; by apply Hexit; right|].
  destruct (dispatch_pending _ _) as [[[d q1] r1]|]; [|done]. cbn [mbind option_bind].
  destruct r1 as [[]|e]; [|intros [= <- _ <-]; by apply Hexit; right].
  destruct (drain_newest t) as [D1 D2]. destruct (drain _ _ _) as [q p]. cbn in D1, D2. subst p.
  apply order_newest in Ho as Hn. destruct (newest t) as [f|].
  - destruct (show_frame _ _ _ _) as [[[d2 q2] r2]|]; [|done]. cbn [mbind option_bind].
    destruct r2 as [[asp ok]|e]; [|intros [= <- _ <-]; by apply Hexit; left].
    destruct Hn as (before & Ea & Hs). intros [= <- _ <-]. exists (lg_accepted l). cbn. rewrite D1, app_nil_r.
    split; [by destruct ok|]. destruct ok; cbn.
    + rewrite Ea. split; [by apply sublist_app|]. intros _. by rewrite !last_snoc.
    + exists before. by rewrite app_nil_r.
  - intros [= <- _ <-]. exists (lg_accepted l). cbn. rewrite D1, !app_nil_r. split; [done|].
    by rewrite Ex in Hn.
Qed.

Lemma dt_run_order t c l evs t' c' l' :
  order_inv t l -> dt_run t c l evs = Done t' c' l' -> order_inv t' l'.
Proof.
  revert t c l. induction evs as [|[f|env|] evs IH]; intros t c l Ho; cbn.
  - by intros [= <- _ <-].
  - unfold send_frame. pose proof (try_send_items (dt_capacity t) (dt_ring t) f) as E.
    destruct (try_send _ _ _) as [q ok]. apply IH. cbn in E. destruct Ho as (taken & Ea & Ht).
    exists taken. cbn. rewrite E, Ea, <- app_assoc. split; [|done]. by destruct ok; rewrite ?app_nil_r.
  - destruct (comp_events _ _); [|done]. destruct (display_iter t env) as [[[t1 q] o]|] eqn:E; [|done].
    destruct (comp_reqs _ _); [|done]. apply IH. by eapply display_iter_order.
  - apply IH. destruct Ho as (taken & Ea & Ht). by exists taken.
Qed.

(** ** The theorems *)

(** C10. A display thread started on a connection that gave the
    globals, with one window: whatever the compositor answers within the
    protocol, whenever it releases buffers, whatever frames are sent and however
    large they are, at every interleaving, the loop does not panic and no buffer
    is written while the compositor holds it. *)
Theorem display_spares_held config connected rt d reqs sid evs :
  WaylandDisplay_new connected rt = Some (inl (d, reqs)) -> Forall (one_window sid) evs ->
  match dt_run (display_spawn config d) Comp_new Log_empty evs with
  | Panicked | WroteHeld => False
  | Done _ _ _ | EnvBroken => True
  end.
Proof.
  intros Hd Hev. pose proof (dt_run_safe sid _ _ Log_empty evs (spawn_inv sid config _ _ _ _ Hd) Hev) as Hr.
  by destruct (dt_run _ _ _ _).
Qed.

(** C11. A pass makes progress: in every state the thread can reach
    and still runs in, if the dispatch succeeds, the compositor does not hold the
    buffer that is not on screen, no frame callback younger than the timeout
    is awaited, and the window can be made or remade in the size of the newest
    frame waiting ([window_fits]: its round trip and its memory are granted), then
    the pass commits that frame, making or remaking the window if need be, and
    nothing is left waiting. *)
Theorem display_shows_newest config connected rt d reqs sid evs t c l env c1 f :
  WaylandDisplay_new connected rt = Some (inl (d, reqs)) -> Forall (one_window sid) evs ->
  dt_run (display_spawn config d) Comp_new Log_empty evs = Done t c l ->
  is_running t = true -> dt_stop t = false -> newest t = Some f ->
  io_fine (pe_io env) = true -> comp_events c (io_events (pe_io env)) = Some c1 ->
  Forall no_release (rt_events (pe_create env)) -> window_fits f env ->
  Forall (can_show c1 (pe_now env)) (surfaces (wd_state (dt_display t))) ->
  exists t' reqs', display_iter t env = Some (t', reqs', Committed f) /\ newest t' = None.
Proof.
  intros Hd Hev Hrun Hr Hst Hf Hio He Hc Hw Hcan.
  pose proof (dt_run_safe sid _ _ Log_empty evs (spawn_inv sid config _ _ _ _ Hd) Hev) as Hi.
  rewrite Hrun in Hi.
  destruct (display_iter_inv sid t c env c1 True Hi Hc He (fun _ => Hcan))
    as (t' & q & o & c' & E & _ & _ & Hgo).
  assert (Hx : dt_exit t = None) by (unfold is_running in Hr; by destruct (dt_exit t)).
  destruct (Hgo I Hx Hst Hio f Hf Hw) as [-> Hn]. by exists t', q.
Qed.

(** C12. Whatever the compositor does and whatever the windows: the
    frames committed are taken from the accepted ones in the order they were
    accepted, none twice, and a running thread that has nothing left to show has
    shown the last of them. *)
Theorem display_in_order config d evs t c l :
  dt_run (display_spawn config d) Comp_new Log_empty evs = Done t c l ->
  lg_shown l `sublist_of` lg_accepted l /\
  (is_running t = true -> newest t = None -> list.last (lg_shown l) = list.last (lg_accepted l)).
Proof.
  intros Hrun. assert (Ho : order_inv (display_spawn config d) Log_empty).
  { exists []. cbn. rewrite fifo_items_new. by split_and!. }
  apply (dt_run_order _ _ _ _ _ _ _ Ho) in Hrun. apply order_newest in Hrun.
  destruct (newest t) as [f|].
  - destruct Hrun as (before & -> & Hs). split; [by apply sublist_inserts_r|done].
  - destruct Hrun as [Hs Hl]. split; [done|]. intros Hr _. apply Hl. unfold is_running in Hr.
    by destruct (dt_exit t).
Qed.
End Run.
Arguments dt_end Q : clear implicits.

(** ** Runs *)

Definition no_io : dispatch_io := mkDispatchIo IoOk (mkRoundTrip [] true) None.
Definition io_of (evs : list wl_event) : dispatch_io :=
  mkDispatchIo IoOk (mkRoundTrip evs true) (Some (IoWouldBlock, mkRoundTrip [] true)).

Definition demo_globals : round_trip := mkRoundTrip
  [RegistryGlobal "wl_compositor" 6; RegistryGlobal "wl_shm" 2; RegistryGlobal "xdg_wm_base" 6;
   RegistryGlobal "wp_viewporter" 1] true.

Definition demo_display : WaylandDisplay := mkWaylandDisplay
  (mkDisplayState (Some 6) (Some 1) (Some 5) None (Some 1) [] false) 0.

(** A frame of one pixel with the given bytes. *)
Definition demo_frame (sid v : Z) (damage : list DamageRegion) : DisplayFrame :=
  mkDisplayFrame sid [v; v; v; v] damage 1 1 4 0.

Definition demo_pass (sid : Z) (evs : list wl_event) (now : Z) : dt_event :=
  DtPass (mkPassEnv (io_of evs) (mkRoundTrip [XdgConfigure sid 1] true) ShmOk ShmOk now now).

Definition outcome {Q} (e : dt_end Q) : option (list DisplayFrame * list DisplayFrame) :=
  match e with Done _ _ l => Some (lg_accepted l, lg_shown l) | _ => None end.

Definition demo_spawn : DisplayThread list := display_spawn DisplayThreadConfig_default demo_display.

(** Two frames fill both buffers; the third waits for the release, the fourth
    replaces it, and is shown when the first buffer comes back. *)
Definition demo_events : list dt_event :=
  [DtSend (demo_frame 7 1 []); demo_pass 7 [] 0; DtSend (demo_frame 7 2 []);
   demo_pass 7 [CallbackDone 7] 0; DtSend (demo_frame 7 3 []); demo_pass 7 [CallbackDone 7] 0;
   DtSend (demo_frame 7 4 [])].

Definition demo_state : option (DisplayThread list * Comp) :=
  match dt_run demo_spawn Comp_new Log_empty demo_events with Done t c _ => Some (t, c) | _ => None end.

Lemma demo_events_one_window : Forall (one_window 7) demo_events.
Proof. repeat constructor; cbn; lia. Qed.

Lemma display_spares_held_witness :
  match dt_run demo_spawn Comp_new Log_empty demo_events with
  | Panicked | WroteHeld => False
  | Done _ _ _ | EnvBroken => True
  end.
Proof.
  eapply (display_spares_held DisplayThreadConfig_default true demo_globals demo_display _ 7);
    [vm_compute; reflexivity|apply demo_events_one_window].
Defined.

Definition demo_env : pass_env :=
  mkPassEnv (io_of [BufferRelease 0 0]) (mkRoundTrip [] true) ShmOk ShmOk 0 0.

Definition demo_thread : DisplayThread list :=
  Eval vm_compute in match demo_state with Some (t, _) => t | None => demo_spawn end.
Definition demo_comp : Comp :=
  Eval vm_compute in match demo_state with Some (_, c) => c | None => Comp_new end.
Definition demo_comp' : Comp :=
  Eval vm_compute in default Comp_new (comp_events demo_comp (io_events (pe_io demo_env))).

Lemma display_shows_newest_witness : exists t' reqs,
  display_iter demo_thread demo_env = Some (t', reqs, Committed (demo_frame 7 4 [])) /\ newest t' = None.
Proof.
  eapply (display_shows_newest DisplayThreadConfig_default true demo_globals demo_display _ 7 demo_events
    demo_thread demo_comp _ demo_env demo_comp' (demo_frame 7 4 [])).
  - vm_compute. reflexivity.
  - apply demo_events_one_window.
  - vm_compute. reflexivity.
  - reflexivity.
  - reflexivity.
  - reflexivity.
  - reflexivity.
  - vm_compute. reflexivity.
  - constructor.
  - unfold window_fits, new_fits. cbn. by split_and!.
  - constructor; [|constructor]. split; [by intros Hp|]. intros b [= <-].
    apply (bool_decide_unpack _). vm_compute. exact I.
Defined.

Lemma display_in_order_witness :
  match dt_run demo_spawn Comp_new Log_empty demo_events with
  | Done t _ l => lg_shown l `sublist_of` lg_accepted l /\
      (is_running t = true -> newest t = None -> list.last (lg_shown l) = list.last (lg_accepted l))
  | _ => False
  end.
Proof.
  destruct (dt_run demo_spawn Comp_new Log_empty demo_events) as [t c l| | |] eqn:E;
    [|vm_compute in E; discriminate E..].
  exact (display_in_order DisplayThreadConfig_default demo_display demo_events t c l E).
Defined.

(** The handler of a release knows the buffer's index only, and marks it in every
    surface: with two windows a buffer the compositor holds is written. *)
Example two_windows_write_held :
  dt_run demo_spawn Comp_new Log_empty
    [DtSend (demo_frame 1 1 []); demo_pass 1 [] 0; DtSend (demo_frame 2 2 []); demo_pass 2 [] 0;
     DtSend (demo_frame 1 3 []); demo_pass 1 [CallbackDone 1] 0;
     DtSend (demo_frame 1 4 []); demo_pass 1 [CallbackDone 1; BufferRelease 1 0] 0] = WroteHeld.
Proof. by vm_compute. Qed.

(** A frame for another window displaces the one kept for the first: there is one
    pending frame, not one per surface. *)
Example pending_displaced :
  outcome (dt_run demo_spawn Comp_new Log_empty
    [DtSend (demo_frame 1 1 []); demo_pass 1 [] 0; DtSend (demo_frame 1 2 []); demo_pass 1 [] 0;
     DtSend (demo_frame 2 3 []); demo_pass 2 [CallbackDone 1] 0; demo_pass 1 [] 0]) =
  Some ([demo_frame 1 1 []; demo_frame 1 2 []; demo_frame 2 3 []],
        [demo_frame 1 1 []; demo_frame 2 3 []]).
Proof. by vm_compute. Qed.
