(* ===== verification/DisplayScreen.v ===== *)
(** What the screen shows: the compositor takes the damaged rectangles of the
    buffer committed and keeps the rest.  With damage that covers what changed since
    the frame last shown the screen is exactly the new frame; the damage a frame
    carries is relative to the frame sent before it, which may have been skipped. *)

From Stdlib Require Import SpecFloat.
From stdpp Require Import strings.
From S2P Require Import Prelude Queue Floats Display DisplayThread DisplaySafety DisplayRun.

(** The pixel at [x], [y]: its four bytes. *)
Definition screen := Z -> Z -> list Z.

Definition pixels (data : list Z) (stride : Z) : screen :=
  fun x y => take 4 (drop (Z.to_nat (y * stride + 4 * x)) data).

Definition covers (x y : Z) (r : wl_req) : bool :=
  match r with
  | DamageBuffer _ rx ry w h => (rx <=? x) && (x <? rx + w) && (ry <=? y) && (y <? ry + h)
  | _ => false
  end.

(** ** The compositor *)

(** A buffer is a window into its pool's memory. *)
Record shm_buffer := mkShmBuffer { sb_offset : Z; sb_height : Z; sb_stride : Z }.

(** What the compositor knows for a surface: the buffers made, named by their pool
    and index; the buffer and the damage pending; and what is on screen. *)
Record comp := mkComp {
  c_buffers : Z -> Z -> option shm_buffer; c_attached : option (Z * Z); c_damage : list wl_req;
  c_screen : screen }.

Definition comp_new (scr : screen) : comp := mkComp (fun _ _ => None) None [] scr.

(** The bytes of a buffer; [memory] is the bytes of each pool. *)
Definition contents (memory : Z -> list Z) (pool : Z) (b : shm_buffer) : list Z :=
  take (Z.to_nat (sb_stride b * sb_height b)) (drop (Z.to_nat (sb_offset b)) (memory pool)).

(** [commit] takes the damaged rectangles of the buffer attached, and only those. *)
Definition comp_step (memory : Z -> list Z) (sid : Z) (c : comp) (r : wl_req) : comp :=
  match r with
  | CreateBuffer pool idx offset _ height stride =>
      mkComp (fun p i => if (p =? pool) && (i =? idx) then Some (mkShmBuffer offset height stride)
                         else c_buffers c p i) (c_attached c) (c_damage c) (c_screen c)
  | Attach s pool idx =>
      if s =? sid then mkComp (c_buffers c) (Some (pool, idx)) (c_damage c) (c_screen c) else c
  | DamageBuffer s _ _ _ _ =>
      if s =? sid then mkComp (c_buffers c) (c_attached c) (c_damage c ++ [r]) (c_screen c) else c
  | Commit s =>
      if s =? sid then
        mkComp (c_buffers c) None []
          match c_attached c with
          | Some (pool, idx) =>
              match c_buffers c pool idx with
              | Some b => fun x y =>
                  if existsb (covers x y) (c_damage c)
                  then pixels (contents memory pool b) (sb_stride b) x y else c_screen c x y
              | None => c_screen c
              end
          | None => c_screen c
          end
      else c
  | _ => c
  end.

Definition comp_run (memory : Z -> list Z) (sid : Z) (c : comp) (reqs : list wl_req) : comp :=
  foldl (comp_step memory sid) c reqs.

(** The memory the program shares: that of its uploader's pool. *)
Definition shared_by (u : option ShmFrameUploader) (pool : Z) : list Z :=
  match u with Some u => if pool =? up_pool u then up_map u else [] | None => [] end.

(** The compositor has made the two buffers of an uploader where it keeps them. *)
Definition knows (c : comp) (u : ShmFrameUploader) : Prop :=
  c_buffers c (up_pool u) 0 = Some (mkShmBuffer 0 (up_height u) (up_stride u)) /\
  c_buffers c (up_pool u) 1 = Some (mkShmBuffer (up_stride u * up_height u) (up_height u) (up_stride u)).

Lemma buffer_bytes_length u i :
  uploader_ok u -> i = 0 \/ i = 1 -> length (buffer_bytes u i) = Z.to_nat (up_stride u * up_height u).
Proof.
  intros (_ & _ & H0 & _ & Hm) Hi. unfold buffer_bytes, zlen in *.
  rewrite length_take, length_drop. destruct Hi as [-> | ->]; lia.
Qed.

Definition in_surface (s : ManagedSurface) (x y : Z) : Prop := 0 <= x < ms_width s /\ 0 <= y < ms_height s.

(** A rectangle whose numbers survive the casts to [i32]. *)
Definition damage_fits (d : DamageRegion) : Prop :=
  fits 31 (dg_x d) /\ fits 31 (dg_y d) /\ fits 31 (dg_width d) /\ fits 31 (dg_height d).

Definition in_damage (x y : Z) (d : DamageRegion) : Prop :=
  dg_x d <= x < dg_x d + dg_width d /\ dg_y d <= y < dg_y d + dg_height d.

Lemma i32_id n : fits 31 n -> i32 n = n.
Proof.
  intros Hn. unfold i32. rewrite <- (wrap_small 32 n) at 1 by (unfold fits in *; lia).
  apply to_signed_wrap; unfold fits in Hn; lia.
Qed.

(** The damage requested covers the pixels of the damage given; all, if none is. *)
Lemma damage_reqs_covers s damage x y :
  fits 31 (ms_width s) -> fits 31 (ms_height s) -> Forall damage_fits damage ->
  in_surface s x y -> damage = [] \/ Exists (in_damage x y) damage ->
  existsb (covers x y) (damage_reqs s damage) = true.
Proof.
  intros Hw Hh Hd [Hx Hy] Hc. unfold damage_reqs. destruct damage as [|d l].
  - cbn. rewrite !i32_id by done. apply orb_true_iff. left. lia.
  - destruct Hc as [Hc|Hc]; [done|]. apply existsb_exists.
    apply list.Exists_exists in Hc as (d' & Hin & Hx' & Hy').
    pose proof (proj1 (list.Forall_forall _ _) Hd d' Hin) as (F1 & F2 & F3 & F4).
    eexists. split.
    + apply list_elem_of_In, list_elem_of_fmap. by exists d'.
    + cbn. rewrite !i32_id by done. lia.
Qed.

(** The requests of [Uploader_new] make them. *)
Lemma new_uploader_known memory sid c pool w h stride sys u reqs :
  Uploader_new pool w h stride sys = inl (u, reqs) -> 0 <= h -> 0 <= stride ->
  fits 31 h -> fits 31 stride -> fits 31 (stride * h) -> knows (comp_run memory sid c reqs) u.
Proof.
  intros E Hh0 Hs0 Hh Hs Hb. unfold Uploader_new in E.
  destruct (checked_mul w 4); [|done]. case_match; [done|]. unfold checked_mul in E.
  rewrite (proj2 (Z.ltb_lt (stride * h) (2 ^ 64))) in E by (unfold fits in Hb; lia).
  rewrite (proj2 (Z.ltb_lt (stride * h * 2) (2 ^ 64))) in E by (unfold fits in Hb; lia).
  case_match; [done|]. destruct sys; [|done..]. injection E as <- <-.
  unfold knows. cbn. rewrite !Z.eqb_refl, !i32_id by done. by cbn.
Qed.

(** What the compositor shows after the requests of a present. *)
Lemma damage_pending memory sid c l :
  (forall r, r ∈ l -> exists x y w h, r = DamageBuffer sid x y w h) ->
  comp_run memory sid c l = mkComp (c_buffers c) (c_attached c) (c_damage c ++ l) (c_screen c).
Proof.
  revert c. induction l as [|r l IH]; intros [bs at_ dm scr] Hl; cbn; [by rewrite app_nil_r|].
  destruct (Hl r) as (x & y & w & h & ->); [set_solver|]. cbn. rewrite Z.eqb_refl.
  change (foldl (comp_step memory sid)) with (comp_run memory sid).
  rewrite IH by set_solver. cbn. by rewrite <- app_assoc.
Qed.

Lemma damage_reqs_shape s damage r :
  r ∈ damage_reqs s damage -> exists x y w h, r = DamageBuffer (ms_id s) x y w h.
Proof.
  unfold damage_reqs. destruct damage as [|d l].
  - intros ->%list_elem_of_singleton. by eexists _, _, _, _.
  - intros (d' & -> & _)%list_elem_of_fmap. by eexists _, _, _, _.
Qed.

Lemma comp_run_app memory sid c l1 l2 :
  comp_run memory sid c (l1 ++ l2) = comp_run memory sid (comp_run memory sid c l1) l2.
Proof. apply foldl_app. Qed.

Lemma present_reqs_screen memory s c pool idx damage b (vp : list wl_req) :
  c_buffers c pool idx = Some b -> vp = [] \/ (exists w h, vp = [SetSource (ms_id s) w h]) ->
  c_screen (comp_run memory (ms_id s) c
    ([Attach (ms_id s) pool idx] ++ damage_reqs s damage ++ vp ++ [FrameCallback (ms_id s); Commit (ms_id s)])) =
  fun x y => if existsb (covers x y) (c_damage c ++ damage_reqs s damage)
             then pixels (contents memory pool b) (sb_stride b) x y else c_screen c x y.
Proof.
  intros Eb Hvp. rewrite comp_run_app. cbn [comp_run foldl comp_step]. rewrite Z.eqb_refl.
  change (foldl (comp_step memory (ms_id s))) with (comp_run memory (ms_id s)).
  rewrite comp_run_app, (damage_pending _ _ _ (damage_reqs s damage)) by apply damage_reqs_shape. cbn [c_buffers c_attached c_damage c_screen].
  destruct Hvp as [-> | (w & h & ->)]; cbn [app comp_run foldl comp_step]; rewrite Z.eqb_refl; cbn; by rewrite Eb.
Qed.

Lemma existsb_app_r {A} (f : A -> bool) l1 l2 : existsb f l2 = true -> existsb f (l1 ++ l2) = true.
Proof. intros E. rewrite existsb_app, E. apply orb_true_r. Qed.

Lemma existsb_app_l {A} (f : A -> bool) l1 l2 : existsb f l1 = true -> existsb f (l1 ++ l2) = true.
Proof. intros E. by rewrite existsb_app, E. Qed.

(** C22. A surface that commits a frame of its size, whose damage
    covers every pixel in which the frame differs from what is on screen (or is
    empty, which means everything), leaves the screen showing exactly the frame.
    The compositor follows the requests: it knows the two buffers as
    [Uploader_new] made them, reads at the commit the memory of the one named in
    the [Attach], whichever of the two it is and whatever it held, and takes the
    rectangles asked for. *)
Theorem display_screen_exact s u data damage now after s' reqs (c : comp) :
  surface_ok s -> fits 31 (ms_width s) -> fits 31 (ms_height s) ->
  ms_uploader s = Some u -> knows c u ->
  zlen data = ms_stride s * ms_height s -> Forall damage_fits damage ->
  surface_present s data damage now after = Some (s', reqs, true) ->
  (forall x y, in_surface s x y -> pixels data (ms_stride s) x y <> c_screen c x y ->
     damage = [] \/ Exists (in_damage x y) damage) ->
  forall x y, in_surface s x y ->
    c_screen (comp_run (shared_by (ms_uploader s')) (ms_id s) c reqs) x y = pixels data (ms_stride s) x y.
Proof.
  intros Hok Hw Hh Eu Hk Hlen Hdf E Hd x y Hxy.
  destruct (surface_present_spec s data damage now after Hok) as (s1 & q & ok & E1 & Hok' & _ & Hev & _ & Hc).
  rewrite E in E1. injection E1 as <- <- <-.
  destruct Hc as (u0 & u' & r & Eu0 & Eu' & -> & _ & Ep & _ & _ & _ & _ & Eb).
  rewrite Eu in Eu0. injection Eu0 as <-. unfold surface_ok in Hok, Hok'. rewrite Eu in Hok. rewrite Eu' in Hok'.
  destruct Hok as (Hu & Gw & Gh & Gs), Hok' as (Hu' & Gw' & Gh' & Gs').
  assert (Eb0 : c_buffers c (up_pool u) (up_active u) =
    Some (mkShmBuffer (up_active u * (up_stride u * up_height u)) (up_height u) (up_stride u))).
  { destruct Hk as [K0 K1], (proj1 Hu) as [-> | ->]; [rewrite K0|rewrite K1]; do 2 f_equal; lia. }
  rewrite Eu', (present_reqs_screen _ _ _ _ _ _ _ _ Eb0) by (destruct (ms_viewport s); eauto).
  assert (Hcont : contents (shared_by (Some u')) (up_pool u)
      (mkShmBuffer (up_active u * (up_stride u * up_height u)) (up_height u) (up_stride u)) = data).
  { transitivity (buffer_bytes u' (up_active u)).
    - unfold contents, buffer_bytes, shared_by. cbn. rewrite Ep, Z.eqb_refl.
      destruct Hev as (Ew & Eh & Es & _). by rewrite Gs', Gh', Eh, Es, Gs, Gh.
    - rewrite Eb. apply overwrite_same. rewrite (buffer_bytes_length u _ Hu (proj1 Hu)), Gs, Gh, <- Hlen.
      unfold zlen. lia. }
  rewrite Hcont. cbn [sb_stride]. rewrite Gs.
  destruct (decide (pixels data (ms_stride s) x y = c_screen c x y)) as [Es|Es].
  { by destruct (existsb _ _). }
  rewrite existsb_app_r; [done|]. apply damage_reqs_covers; auto.
Qed.

(** A surface of two pixels with an uploader. *)
Definition demo_uploader : ShmFrameUploader := mkUploader 0 (replicate 16 0) 1 [false; true] 2 1 8.
Definition demo_surface : ManagedSurface :=
  mkSurface 7 false (Some demo_uploader) 2 1 8 "" "" true false None None (f64_of_int 2).
Definition demo_comp : comp :=
  comp_run (fun _ => []) 7 (comp_new (fun _ _ => [1;1;1;1]))
    [CreateBuffer 0 0 0 2 1 8; CreateBuffer 0 1 8 2 1 8].

Lemma display_screen_exact_witness :
  match surface_present demo_surface [1;1;1;1;2;2;2;2] [mkDamageRegion 1 0 1 1] 0 0 with
  | Some (s', reqs, true) =>
      forall x y, in_surface demo_surface x y ->
        c_screen (comp_run (shared_by (ms_uploader s')) 7 demo_comp reqs) x y =
        pixels [1;1;1;1;2;2;2;2] 8 x y
  | _ => False
  end.
Proof.
  destruct (surface_present demo_surface [1;1;1;1;2;2;2;2] [mkDamageRegion 1 0 1 1] 0 0)
    as [[[s' reqs] []]|] eqn:E; [|vm_compute in E; discriminate E..].
  refine (display_screen_exact demo_surface demo_uploader [1;1;1;1;2;2;2;2] [mkDamageRegion 1 0 1 1] 0 0 s' reqs
    demo_comp _ _ _ _ _ _ _ E _); try (cbn; split_and!; lia); try done.
  - split; [|done]. split_and!; cbn; try lia; done.
  - repeat constructor; cbn; lia.
  - intros x y [Hx Hy] Hne. right. constructor. cbn in *. split; [|cbn; lia].
    assert (x = 0 \/ x = 1) as [-> | ->] by lia; [|cbn; lia]. assert (y = 0) as -> by lia. by destruct Hne.
Defined.

(** The screen of a run: a pass's requests are flushed at its end. *)
Definition pass_comp {Q} (c : comp) (sid : Z) (t : DisplayThread Q) (reqs : list wl_req) : comp :=
  comp_run (shared_by (s ← get_surface (wd_state (dt_display t)) sid; ms_uploader s)) sid c reqs.

Fixpoint dt_comp (c : comp) (sid : Z) (t : DisplayThread list) (evs : list dt_event) : comp :=
  match evs with
  | [] => c
  | DtSend f :: evs => dt_comp c sid (send_frame t f).1 evs
  | DtStop :: evs => dt_comp c sid (display_stop t) evs
  | DtPass env :: evs =>
      match display_iter t env with
      | Some (t, reqs, _) => dt_comp (pass_comp c sid t reqs) sid t evs
      | None => c
      end
  end.

Definition dt_screen (sid : Z) (evs : list dt_event) : screen :=
  c_screen (dt_comp (comp_new (fun _ _ => [])) sid demo_spawn evs).

Definition demo_frame2 (a b : Z) (damage : list DamageRegion) : DisplayFrame :=
  mkDisplayFrame 7 [a; a; a; a; b; b; b; b] damage 2 1 8 0.

(** Three frames with exact damage, the second skipped: its damage is lost with
    it, and the screen does not show the third frame, the last one committed. *)
Example skipped_damage_lost :
  let run := dt_screen 7
    [DtSend (demo_frame2 1 1 []); demo_pass 7 [] 0;
     DtSend (demo_frame2 2 1 [mkDamageRegion 0 0 1 1]);
     DtSend (demo_frame2 2 2 [mkDamageRegion 1 0 1 1]); demo_pass 7 [CallbackDone 7] 0] in
  (run 0 0, run 1 0) = ([1; 1; 1; 1], [2; 2; 2; 2]).
Proof. by vm_compute. Qed.

(** A frame whose rows are padded is copied with its padding: the display reads it
    with the stride of the surface, not the frame's. *)
Example padded_rows_sheared :
  let run := dt_screen 7
    [DtSend (mkDisplayFrame 7 [1;1;1;1; 0;0;0;0; 2;2;2;2; 0;0;0;0] [] 1 2 8 0); demo_pass 7 [] 0] in
  (run 0 0, run 0 1) = ([1; 1; 1; 1], [0; 0; 0; 0]).
Proof. by vm_compute. Qed.

(** ** The viewport's destination *)

(** The size a surface is scaled to when its window is configured: it lies
    inside the window, is at least one pixel each way, touches the window on one
    axis, and on the other is the floor of the exact proportional size. *)
Theorem fit_inside src_w src_h dst_w dst_h w h :
  0 < src_w < 2 ^ 32 -> 0 < src_h < 2 ^ 32 -> 0 < dst_w < 2 ^ 31 -> 0 < dst_h < 2 ^ 31 ->
  fit_preserve_aspect src_w src_h dst_w dst_h = (w, h) ->
  1 <= w <= dst_w /\ 1 <= h <= dst_h /\
  ((h = dst_h /\ w = Z.max 1 (dst_h * src_w / src_h)) \/
   (w = dst_w /\ h = Z.max 1 (dst_w * src_h / src_w))).
Proof.
  intros Hsw Hsh Hdw Hdh. unfold fit_preserve_aspect.
  rewrite (proj2 (Z.eqb_neq src_w 0)), (proj2 (Z.eqb_neq src_h 0)) by lia. cbn [orb].
  assert (B : forall a b, 0 < a < 2 ^ 32 -> 0 < b < 2 ^ 31 -> wrap 64 (a * wrap 64 b) = a * b /\
    wrap 64 (wrap 64 b * a) = b * a).
  { intros a b Ha Hb. rewrite !(wrap_small 64 b) by (unfold fits; lia).
    split; apply wrap_small; unfold fits; nia. }
  destruct (B src_w dst_h Hsw Hdh) as [-> ->], (B src_h dst_w Hsh Hdw) as [_ ->].
  assert (D : forall a b c, 0 < c -> 0 <= a -> 0 < b < 2 ^ 31 -> a <= b * c ->
    0 <= a / c <= b /\ i32 (a / c) = a / c).
  { intros a b c Hc Ha Hb Hle. assert (H0 : 0 <= a / c <= b).
    { split; [by apply Z.div_pos|]. apply Z.div_le_upper_bound; lia. }
    split; [done|]. apply i32_id. unfold fits. lia. }
  destruct (Z.leb_spec (src_w * dst_h) (dst_w * src_h)) as [Hle|Hgt]; intros [= <- <-].
  - assert (0 <= dst_h * src_w) by nia. destruct (D (dst_h * src_w) dst_w src_h) as [H1 ->]; [lia..|].
    split_and!; lia.
  - assert (0 <= dst_w * src_h) by nia. destruct (D (dst_w * src_h) dst_h src_w) as [H1 ->]; [lia..|].
    split_and!; lia.
Qed.

Lemma fit_inside_witness :
  1 <= 1440 <= 2000 /\ 1 <= 1080 <= 1080 /\
  ((1080 = 1080 /\ 1440 = Z.max 1 (1080 * 4 / 3)) \/ (1440 = 2000 /\ 1080 = Z.max 1 (2000 * 3 / 4))).
Proof. apply (fit_inside 4 3 2000 1080); [lia..|reflexivity]. Defined.
