(* ===== verification/CursorOverlay.v ===== *)
(** The local cursor ([crates/remoteway-display/src/cursor.rs]).

    An operation returns the system calls and the requests it makes, in order;
    [env_step] says what the kernel and the compositor make of them, by the
    rules of [mmap] and of [wl_shm].  [AbsCursor] is the cursor the type
    promises, without files, maps and buffers; [cursor_refines] says that every
    run of operations is accepted and shows what the abstract cursor shows. *)

From stdpp Require Import strings gmap.
From S2P Require Import Prelude Wire Proto Display.
Import Cursor.

(** ** What the overlay asks of the system *)

(** A memfd is named by the number it was made with; its map goes by the same name. *)
Inductive ShmFormat := Argb8888 | Xrgb8888.

Inductive cur_req :=
  | Memfd (fd : Z) | Ftruncate (fd size : Z) | Mmap (fd len : Z) | WriteMap (fd : Z) (bytes : list Z)
  | Munmap (fd len : Z) | CloseFd (fd : Z)
  | NewSurface (surface user_data : Z)
  | NewPool (pool fd size : Z)
  | NewBuffer (buffer pool offset width height stride : Z) (format : ShmFormat)
  | AttachTo (surface buffer : Z) | Damage (surface x y width height : Z) | CommitOf (surface : Z)
  | FreeBuffer (buffer : Z) | FreePool (pool : Z) | FreeSurface (surface : Z)
  | SetCursor (serial : Z) (surface : option Z) (hotspot_x hotspot_y : Z).

(** ** [CursorOverlay] *)

Record CursorBuffer := mkCursorBuffer {
  cb_fd : Z; cb_map_size : Z; cb_pool : Z; cb_buffer : Z; cb_width : Z; cb_height : Z }.

(** Positions are kept as the bits of an [f32]; [co_next] is the next fresh name. *)
Record CursorOverlay := mkOverlay {
  co_surface : Z; co_buffer : option CursorBuffer; co_hotspot : Z * Z; co_current : Z * Z;
  co_has_server_cursor : bool; co_serial : Z; co_next : Z }.

(** [Drop for CursorBuffer], and then of its descriptor. *)
Definition CursorBuffer_drop (b : CursorBuffer) : list cur_req :=
  [FreeBuffer (cb_buffer b); FreePool (cb_pool b); Munmap (cb_fd b) (cb_map_size b); CloseFd (cb_fd b)].

Definition drop_old (o : option CursorBuffer) : list cur_req :=
  match o with Some b => CursorBuffer_drop b | None => [] end.

Definition Overlay_new (next : Z) : CursorOverlay * list cur_req :=
  (mkOverlay next None (0, 0) (0, 0) false 0 (next + 1), [NewSurface next (2 ^ 16 - 1)]).

Definition update_position (o : CursorOverlay) (x y : Z) : CursorOverlay :=
  mkOverlay (co_surface o) (co_buffer o) (co_hotspot o) (x, y) (co_has_server_cursor o) (co_serial o) (co_next o).

Definition set_enter_serial (o : CursorOverlay) (serial : Z) : CursorOverlay :=
  mkOverlay (co_surface o) (co_buffer o) (co_hotspot o) (co_current o) (co_has_server_cursor o) serial (co_next o).

Definition with_buffer (o : CursorOverlay) (b : option CursorBuffer) (next : Z) : CursorOverlay :=
  mkOverlay (co_surface o) b (co_hotspot o) (co_current o) (co_has_server_cursor o) (co_serial o) next.

(** [sys] is what the memory calls answer. *)
Definition set_cursor_bitmap (o : CursorOverlay) (data : list Z) (width height : Z) (sys : shm_answer)
    : CursorOverlay * list cur_req * option DisplayError :=
  let stride := wrap 32 (width * 4) in
  let buf_size := wrap 64 (stride * height) in
  if buf_size =? 0 then (o, [], Some (ShmBuffer "cursor bitmap has zero size"))
  else if zlen data <? buf_size then (o, [], Some (ShmBuffer "cursor bitmap data too small"))
  else
    let fd := co_next o in
    match sys with
    | MemfdFails => (o, [], Some (ShmBuffer "cursor memfd_create failed"))
    | TruncateFails =>
        (with_buffer o (co_buffer o) (fd + 1), [Memfd fd; CloseFd fd], Some (ShmBuffer "cursor ftruncate failed"))
    | MmapFails =>
        (with_buffer o (co_buffer o) (fd + 1), [Memfd fd; Ftruncate fd buf_size; CloseFd fd],
         Some (ShmBuffer "cursor mmap failed"))
    | ShmOk =>
        let pool := fd + 1 in
        let buffer := fd + 2 in
        (with_buffer o (Some (mkCursorBuffer fd buf_size pool buffer width height)) (fd + 3),
         [Memfd fd; Ftruncate fd buf_size; Mmap fd buf_size;
          WriteMap fd (take (Z.to_nat buf_size) data);
          NewPool pool fd (i32 buf_size);
          NewBuffer buffer pool 0 (i32 width) (i32 height) (i32 stride) Argb8888;
          AttachTo (co_surface o) buffer;
          Damage (co_surface o) 0 0 (i32 width) (i32 height);
          CommitOf (co_surface o)] ++ drop_old (co_buffer o), None)
    end.

Definition moved (o : CursorOverlay) (u : CursorUpdate) : CursorOverlay :=
  mkOverlay (co_surface o) (co_buffer o) (hotspot_x u, hotspot_y u) (cu_x u, cu_y u)
    (co_has_server_cursor o) (co_serial o) (co_next o).

Definition from_server (o : CursorOverlay) : CursorOverlay :=
  mkOverlay (co_surface o) (co_buffer o) (co_hotspot o) (co_current o) true (co_serial o) (co_next o).

Definition apply_cursor_update (o : CursorOverlay) (u : CursorUpdate) (bitmap_data : option (list Z))
    (sys : shm_answer) : CursorOverlay * list cur_req * option DisplayError :=
  let o := moved o u in
  match bitmap_data with
  | Some data =>
      if negb (has_bitmap u =? 0) then
        match set_cursor_bitmap o data (bitmap_width u) (bitmap_height u) sys with
        | (o, reqs, None) => (from_server o, reqs, None)
        | (o, reqs, Some e) => (o, reqs, Some e)
        end
      else (o, [], None)
  | None => (o, [], None)
  end.

Definition set_on_pointer (o : CursorOverlay) : list cur_req :=
  match co_buffer o with
  | Some _ => [SetCursor (co_serial o) (Some (co_surface o)) (co_hotspot o).1 (co_hotspot o).2]
  | None => []
  end.

Definition hide (o : CursorOverlay) : list cur_req := [SetCursor (co_serial o) None 0 0].

Definition position (o : CursorOverlay) : Z * Z := co_current o.

Definition has_server_cursor (o : CursorOverlay) : bool := co_has_server_cursor o.

Definition Overlay_drop (o : CursorOverlay) : list cur_req :=
  drop_old (co_buffer o) ++ [FreeSurface (co_surface o)].

(** *** Runs *)

Inductive cursor_op :=
  | UpdatePosition (x y : Z) | SetEnterSerial (serial : Z)
  | ApplyCursorUpdate (u : CursorUpdate) (bitmap_data : option (list Z)) (sys : shm_answer)
  | SetOnPointer | Hide.

Definition cursor_step (o : CursorOverlay) (op : cursor_op)
    : CursorOverlay * list cur_req * option DisplayError :=
  match op with
  | UpdatePosition x y => (update_position o x y, [], None)
  | SetEnterSerial serial => (set_enter_serial o serial, [], None)
  | ApplyCursorUpdate u data sys => apply_cursor_update o u data sys
  | SetOnPointer => (o, set_on_pointer o, None)
  | Hide => (o, hide o, None)
  end.

Fixpoint cursor_run (o : CursorOverlay) (ops : list cursor_op)
    : CursorOverlay * list cur_req * list (option DisplayError) :=
  match ops with
  | [] => (o, [], [])
  | op :: ops =>
      let '(o, reqs, r) := cursor_step o op in
      let '(o, reqs', rs) := cursor_run o ops in
      (o, reqs ++ reqs', r :: rs)
  end.

(** ** The kernel and the compositor *)

Record Pixel := mkPixel { red : Z; green : Z; blue : Z; alpha : Z }.

(** The pixels that bytes are, four each.  The formats of [wl_shm] are 32-bit
    little-endian words: blue is the first byte and alpha, which [Xrgb8888]
    ignores, the last. *)
Definition shm_pixel (format : ShmFormat) (b0 b1 b2 b3 : Z) : Pixel :=
  match format with
  | Argb8888 => mkPixel b2 b1 b0 b3
  | Xrgb8888 => mkPixel b2 b1 b0 255
  end.

Fixpoint pixels (pixel : Z -> Z -> Z -> Z -> Pixel) (bytes : list Z) : list Pixel :=
  match bytes with
  | b0 :: b1 :: b2 :: b3 :: bytes => pixel b0 b1 b2 b3 :: pixels pixel bytes
  | _ => []
  end.

Record CursorImage := mkImage { im_width : Z; im_height : Z; im_rows : list (list Pixel) }.

(** The rows of an image of [width] by [height] four-byte pixels in [bytes]. *)
Definition rows_at (pixel : Z -> Z -> Z -> Z -> Pixel) (bytes : list Z) (offset width height stride : Z)
    : list (list Pixel) :=
  (fun y => pixels pixel (take (Z.to_nat (4 * width)) (drop (Z.to_nat (offset + y * stride)) bytes)))
    <$> zrange height.

Record BufferInfo := mkBufferInfo {
  bi_fd : Z; bi_offset : Z; bi_width : Z; bi_height : Z; bi_stride : Z; bi_format : ShmFormat }.

Record CursorEnv := mkEnv {
  ce_files : gmap Z (list Z); ce_fds : gset Z; ce_maps : gmap Z Z;
  ce_surface : option Z; ce_pools : gmap Z (Z * Z); ce_buffers : gmap Z BufferInfo;
  ce_pending : option Z; ce_shown : option CursorImage;
  ce_pointer : option (Z * option (Z * Z)) }.

Definition Env_new : CursorEnv := mkEnv ∅ ∅ ∅ None ∅ ∅ None None None.

Definition set_files (e : CursorEnv) fs fds maps : CursorEnv :=
  mkEnv fs fds maps (ce_surface e) (ce_pools e) (ce_buffers e) (ce_pending e) (ce_shown e) (ce_pointer e).

Definition set_objects (e : CursorEnv) surface pools buffers pending shown : CursorEnv :=
  mkEnv (ce_files e) (ce_fds e) (ce_maps e) surface pools buffers pending shown (ce_pointer e).

(** [None]: the request is a protocol error, or the call has no meaning. *)
Definition env_step (e : CursorEnv) (r : cur_req) : option CursorEnv :=
  match r with
  | Memfd fd =>
      guard (ce_files e !! fd = None);;
      Some (set_files e (<[fd := []]> (ce_files e)) ({[fd]} ∪ ce_fds e) (ce_maps e))
  | Ftruncate fd size =>
      guard (fd ∈ ce_fds e);; bs ← ce_files e !! fd;
      Some (set_files e (<[fd := resize_vec size 0 bs]> (ce_files e)) (ce_fds e) (ce_maps e))
  | Mmap fd len =>
      guard (fd ∈ ce_fds e);; guard (0 < len);;
      Some (set_files e (ce_files e) (ce_fds e) (<[fd := len]> (ce_maps e)))
  | WriteMap fd bytes =>
      len ← ce_maps e !! fd; bs ← ce_files e !! fd;
      guard (zlen bytes <= len);; guard (zlen bytes <= zlen bs);;
      Some (set_files e (<[fd := bytes ++ drop (length bytes) bs]> (ce_files e)) (ce_fds e) (ce_maps e))
  | Munmap fd len =>
      guard (ce_maps e !! fd = Some len);;
      Some (set_files e (ce_files e) (ce_fds e) (delete fd (ce_maps e)))
  | CloseFd fd =>
      guard (fd ∈ ce_fds e);;
      Some (set_files e (ce_files e) (ce_fds e ∖ {[fd]}) (ce_maps e))
  | NewSurface s _ =>
      guard (ce_surface e = None);;
      Some (set_objects e (Some s) (ce_pools e) (ce_buffers e) None None)
  | NewPool pool fd size =>
      guard (fd ∈ ce_fds e);; bs ← ce_files e !! fd; guard (0 < size <= zlen bs);;
      Some (set_objects e (ce_surface e) (<[pool := (fd, size)]> (ce_pools e)) (ce_buffers e) (ce_pending e) (ce_shown e))
  | NewBuffer b pool offset w h stride format =>
      '(fd, size) ← ce_pools e !! pool;
      guard (0 <= offset);; guard (0 < w /\ 0 < h);; guard (4 * w <= stride);; guard (offset + stride * h <= size);;
      Some (set_objects e (ce_surface e) (ce_pools e) (<[b := mkBufferInfo fd offset w h stride format]> (ce_buffers e))
              (ce_pending e) (ce_shown e))
  | AttachTo s b =>
      guard (ce_surface e = Some s);; _ ← ce_buffers e !! b;
      Some (set_objects e (ce_surface e) (ce_pools e) (ce_buffers e) (Some b) (ce_shown e))
  | Damage s _ _ _ _ => guard (ce_surface e = Some s);; Some e
  | CommitOf s =>
      guard (ce_surface e = Some s);;
      match ce_pending e with
      | None => Some e
      | Some b =>
          i ← ce_buffers e !! b; bs ← ce_files e !! bi_fd i;
          Some (set_objects e (ce_surface e) (ce_pools e) (ce_buffers e) None
                  (Some (mkImage (bi_width i) (bi_height i)
                           (rows_at (shm_pixel (bi_format i)) bs (bi_offset i) (bi_width i) (bi_height i) (bi_stride i)))))
      end
  | FreeBuffer b =>
      _ ← ce_buffers e !! b;
      Some (set_objects e (ce_surface e) (ce_pools e) (delete b (ce_buffers e)) (ce_pending e) (ce_shown e))
  | FreePool p =>
      _ ← ce_pools e !! p;
      Some (set_objects e (ce_surface e) (delete p (ce_pools e)) (ce_buffers e) (ce_pending e) (ce_shown e))
  | FreeSurface s =>
      guard (ce_surface e = Some s);;
      Some (set_objects e None (ce_pools e) (ce_buffers e) None None)
  | SetCursor serial s hx hy =>
      guard (s = None \/ s = ce_surface e);;
      Some (mkEnv (ce_files e) (ce_fds e) (ce_maps e) (ce_surface e) (ce_pools e) (ce_buffers e) (ce_pending e)
              (ce_shown e) (Some (serial, match s with Some _ => Some (hx, hy) | None => None end)))
  end.

Definition env_run (e : CursorEnv) (reqs : list cur_req) : option CursorEnv := foldM env_step e reqs.

(** ** The abstract cursor *)

(** The rows of a bitmap of [w] by [h] pixels, read as [Argb8888]; and as RGBA, which
    is what the comment on [apply_cursor_update] says a bitmap holds. *)
Definition argb_rows (data : list Z) (w h : Z) : list (list Pixel) := rows_at (shm_pixel Argb8888) data 0 w h (4 * w).
Definition rgba_rows (data : list Z) (w h : Z) : list (list Pixel) := rows_at mkPixel data 0 w h (4 * w).

(** [ac_pointer] is the last cursor set on the pointer: its serial, and its hotspot
    unless the cursor is hidden. *)
Record AbsCursor := mkAbs {
  ac_image : option CursorImage; ac_hotspot : Z * Z; ac_position : Z * Z; ac_server : bool;
  ac_serial : Z; ac_pointer : option (Z * option (Z * Z)) }.

Definition Abs_new : AbsCursor := mkAbs None (0, 0) (0, 0) false 0 None.

(** Why a bitmap is refused. *)
Definition bitmap_error (w h : Z) (data : list Z) (sys : shm_answer) : option DisplayError :=
  if (w =? 0) || (h =? 0) then Some (ShmBuffer "cursor bitmap has zero size")
  else if zlen data <? 4 * w * h then Some (ShmBuffer "cursor bitmap data too small")
  else match sys with
    | ShmOk => None
    | MemfdFails => Some (ShmBuffer "cursor memfd_create failed")
    | TruncateFails => Some (ShmBuffer "cursor ftruncate failed")
    | MmapFails => Some (ShmBuffer "cursor mmap failed")
    end.

Definition abs_step (a : AbsCursor) (op : cursor_op) : AbsCursor * option DisplayError :=
  match op with
  | UpdatePosition x y =>
      (mkAbs (ac_image a) (ac_hotspot a) (x, y) (ac_server a) (ac_serial a) (ac_pointer a), None)
  | SetEnterSerial serial =>
      (mkAbs (ac_image a) (ac_hotspot a) (ac_position a) (ac_server a) serial (ac_pointer a), None)
  | ApplyCursorUpdate u data sys =>
      let moved img server :=
        mkAbs img (hotspot_x u, hotspot_y u) (cu_x u, cu_y u) server (ac_serial a) (ac_pointer a) in
      match data with
      | Some data =>
          if has_bitmap u =? 0 then (moved (ac_image a) (ac_server a), None)
          else
            let '(w, h) := (bitmap_width u, bitmap_height u) in
            match bitmap_error w h data sys with
            | None => (moved (Some (mkImage w h (argb_rows data w h))) true, None)
            | Some e => (moved (ac_image a) (ac_server a), Some e)
            end
      | None => (moved (ac_image a) (ac_server a), None)
      end
  | SetOnPointer =>
      (match ac_image a with
       | Some _ => mkAbs (ac_image a) (ac_hotspot a) (ac_position a) (ac_server a) (ac_serial a)
                     (Some (ac_serial a, Some (ac_hotspot a)))
       | None => a
       end, None)
  | Hide =>
      (mkAbs (ac_image a) (ac_hotspot a) (ac_position a) (ac_server a) (ac_serial a)
         (Some (ac_serial a, None)), None)
  end.

Fixpoint abs_run (a : AbsCursor) (ops : list cursor_op) : AbsCursor * list (option DisplayError) :=
  match ops with
  | [] => (a, [])
  | op :: ops => let '(a, r) := abs_step a op in let '(a, rs) := abs_run a ops in (a, r :: rs)
  end.

(** The bitmaps of an operation are [u16] by [u16], of less than 2^31 bytes. *)
Definition op_fits (op : cursor_op) : Prop :=
  match op with
  | ApplyCursorUpdate u _ _ =>
      fits 16 (bitmap_width u) /\ fits 16 (bitmap_height u) /\ 4 * bitmap_width u * bitmap_height u < 2 ^ 31
  | _ => True
  end.

#[export] Instance op_fits_dec op : Decision (op_fits op).
Proof. destruct op; apply _. Defined.

(** ** The overlay refines the abstract cursor *)

(** What the overlay owns is what the system holds for it: nothing leaks. *)
Definition owns (b : option CursorBuffer) (e : CursorEnv) : Prop :=
  match b with
  | None => ce_fds e = ∅ /\ ce_maps e = ∅ /\ ce_pools e = ∅ /\ ce_buffers e = ∅
  | Some b =>
      ce_fds e = {[cb_fd b]} /\ ce_maps e = {[cb_fd b := cb_map_size b]} /\
      ce_pools e = {[cb_pool b := (cb_fd b, cb_map_size b)]} /\
      ce_buffers e = {[cb_buffer b := mkBufferInfo (cb_fd b) 0 (cb_width b) (cb_height b) (4 * cb_width b) Argb8888]}
  end.

Definition below (n : Z) (b : option CursorBuffer) : Prop :=
  match b with Some b => cb_fd b < n /\ cb_pool b < n /\ cb_buffer b < n | None => True end.

Record represents (o : CursorOverlay) (e : CursorEnv) (a : AbsCursor) : Prop := mkRepr {
  rp_surface : ce_surface e = Some (co_surface o);
  rp_owns : owns (co_buffer o) e;
  rp_pending : ce_pending e = None;
  rp_shown : ce_shown e = ac_image a;
  rp_image : is_Some (co_buffer o) <-> is_Some (ac_image a);
  rp_pointer : ce_pointer e = ac_pointer a;
  rp_hotspot : co_hotspot o = ac_hotspot a;
  rp_position : co_current o = ac_position a;
  rp_server : co_has_server_cursor o = ac_server a;
  rp_serial : co_serial o = ac_serial a;
  rp_fresh : forall fd, co_next o <= fd -> ce_files e !! fd = None;
  rp_below : below (co_next o) (co_buffer o) }.

Arguments env_run _ _ : simpl never.

Lemma env_run_app e reqs reqs' : env_run e (reqs ++ reqs') = (e ← env_run e reqs; env_run e reqs').
Proof. apply foldM_app. Qed.

(** Copying the first [h] rows keeps them. *)
Lemma rows_at_take pixel data w h : 0 <= w -> 0 <= h ->
  rows_at pixel (take (Z.to_nat (4 * w * h)) data) 0 w h (4 * w) = rows_at pixel data 0 w h (4 * w).
Proof.
  intros Hw Hh. apply list_fmap_ext. intros i y Hy.
  assert (0 <= y < h) by (apply elem_of_zrange; by eapply list_elem_of_lookup_2).
  rewrite skipn_firstn_comm, take_take. do 2 f_equal. nia.
Qed.

Lemma env_run_cons e e' r reqs res : env_step e r = Some e' -> env_run e' reqs = res -> env_run e (r :: reqs) = res.
Proof. intros H. unfold env_run. cbn. by rewrite H. Qed.

(** One accepted request: its guards hold and its lookups are determined. *)
Ltac accept := eapply env_run_cons;
  [cbn; repeat first
     [ rewrite lookup_insert_eq; cbn
     | rewrite lookup_insert_ne by lia; cbn
     | rewrite lookup_singleton_eq; cbn
     | case_guard; [cbn|exfalso; first [done|congruence|lia|set_solver]] ];
   reflexivity|].

(** What the system is after a bitmap was put up and before the old one is freed. *)
Definition put_up (e : CursorEnv) (fd w h : Z) (data : list Z) : CursorEnv :=
  let size := 4 * w * h in
  mkEnv (<[fd := take (Z.to_nat size) data]> (ce_files e)) ({[fd]} ∪ ce_fds e) (<[fd := size]> (ce_maps e))
    (ce_surface e) (<[fd + 1 := (fd, size)]> (ce_pools e))
    (<[fd + 2 := mkBufferInfo fd 0 w h (4 * w) Argb8888]> (ce_buffers e))
    None (Some (mkImage w h (argb_rows data w h))) (ce_pointer e).

Lemma put_up_ok e s fd w h data :
  ce_surface e = Some s -> ce_files e !! fd = None -> 0 < w -> 0 < h ->
  4 * w * h <= zlen data ->
  let size := 4 * w * h in
  env_run e [Memfd fd; Ftruncate fd size; Mmap fd size; WriteMap fd (take (Z.to_nat size) data);
             NewPool (fd + 1) fd size; NewBuffer (fd + 2) (fd + 1) 0 w h (4 * w) Argb8888;
             AttachTo s (fd + 2); Damage s 0 0 w h; CommitOf s] = Some (put_up e fd w h data).
Proof.
  intros Hs Hf Hw Hh Hd size.
  assert (0 < size) by (unfold size; nia).
  assert (Hlen : length (take (Z.to_nat size) data) = Z.to_nat size) by (rewrite length_take; unfold zlen in Hd; lia).
  assert (Hz : zlen (take (Z.to_nat size) data) = size) by (unfold zlen; lia).
  assert (Hr : zlen (resize_vec size 0 (@nil Z)) = size) by (by apply zlen_resize; lia).
  do 4 accept. unfold set_files; cbn -[take]. rewrite !insert_insert_eq, drop_ge, app_nil_r by (unfold zlen in Hr; lia).
  do 5 accept. unfold env_run, set_objects, put_up; cbn -[take rows_at].
  unfold size. rewrite rows_at_take by lia. done.
Qed.

Lemma delete_second {V} (i j : Z) (x y : V) : j < i -> delete j ({[i := x; j := y]} : gmap Z V) = {[i := x]}.
Proof. intros. by rewrite delete_insert_ne, delete_singleton_eq, insert_empty by lia. Qed.

Lemma remove_second (i j : Z) : j < i -> ({[i; j]} : gset Z) ∖ {[j]} = {[i]}.
Proof. intros. apply set_eq. intros k. set_unfold. lia. Qed.

(** Freeing what the overlay owned before leaves what it owns now. *)
Lemma retire_old e b fd w h data :
  owns b e -> below fd b ->
  exists e', env_run (put_up e fd w h data) (drop_old b) = Some e' /\
    owns (Some (mkCursorBuffer fd (4 * w * h) (fd + 1) (fd + 2) w h)) e' /\
    ce_surface e' = ce_surface e /\ ce_pending e' = None /\ ce_pointer e' = ce_pointer e /\
    ce_shown e' = Some (mkImage w h (argb_rows data w h)) /\
    ce_files e' = ce_files (put_up e fd w h data).
Proof.
  destruct b as [b|]; intros (Hf & Hm & Hp & Hb).
  - intros (? & ? & ?). destruct e as [fs fds maps sf pools bufs pd sh pt]; cbn in *; subst.
    eexists. split.
    + unfold put_up; cbn -[take rows_at argb_rows]. do 4 accept. unfold env_run; cbn -[take rows_at]. reflexivity.
    + cbn -[take rows_at]. rewrite !delete_second, remove_second by lia. done.
  - intros _. destruct e as [fs fds maps sf pools bufs pd sh pt]; cbn in *; subst.
    eexists. split; [reflexivity|]. cbn -[take rows_at]. rewrite union_empty_r_L. done.
Qed.
Definition with_image (a : AbsCursor) (im : CursorImage) : AbsCursor :=
  mkAbs (Some im) (ac_hotspot a) (ac_position a) (ac_server a) (ac_serial a) (ac_pointer a).

(** A memfd made and closed again leaves the overlay as it was, one name further. *)
Lemma represents_failed o e a fs :
  represents o e a -> (forall fd, co_next o + 1 <= fd -> fs !! fd = None) ->
  represents (with_buffer o (co_buffer o) (co_next o + 1)) (set_files e fs (ce_fds e) (ce_maps e)) a.
Proof.
  intros [] Hfs. constructor; cbn; try done.
  by destruct (co_buffer o); cbn in *; [lia|].
Qed.

Lemma closed_again o e a : represents o e a ->
  ({[co_next o]} ∪ ce_fds e) ∖ {[co_next o]} = ce_fds e.
Proof.
  intros R. pose proof (rp_owns _ _ _ R) as Ho. pose proof (rp_below _ _ _ R) as Hb.
  apply set_eq. intros k. destruct (co_buffer o); destruct Ho as [-> _]; cbn in *; set_unfold; lia.
Qed.

Lemma failed_run o e a size answer :
  represents o e a -> answer = [Memfd (co_next o); CloseFd (co_next o)] \/
    answer = [Memfd (co_next o); Ftruncate (co_next o) size; CloseFd (co_next o)] ->
  exists e', env_run e answer = Some e' /\ represents (with_buffer o (co_buffer o) (co_next o + 1)) e' a.
Proof.
  intros R Ha. pose proof (rp_fresh _ _ _ R) as Hf.
  assert (ce_files e !! co_next o = None) by (apply Hf; lia).
  destruct Ha as [-> | ->]; eexists; (split; [repeat accept; reflexivity|]);
    unfold set_files; cbn; rewrite (closed_again _ _ _ R);
    apply (represents_failed _ e a); try done; intros k Hk;
    rewrite !lookup_insert_ne by lia; apply Hf; lia.
Qed.

Lemma set_cursor_bitmap_spec o e a data w h sys :
  represents o e a -> fits 16 w -> fits 16 h -> 4 * w * h < 2 ^ 31 ->
  exists o' reqs e', set_cursor_bitmap o data w h sys = (o', reqs, bitmap_error w h data sys) /\
    env_run e reqs = Some e' /\
    represents o' e' (match bitmap_error w h data sys with
                      | None => with_image a (mkImage w h (argb_rows data w h))
                      | Some _ => a
                      end).
Proof.
  intros R Hw Hh Hs. unfold set_cursor_bitmap, bitmap_error.
  assert (Est : wrap 32 (w * 4) = 4 * w) by (rewrite wrap_small; width_lia).
  rewrite Est, (wrap_small 64) by width_lia.
  assert (E0 : (4 * w * h =? 0) = ((w =? 0) || (h =? 0))) by (destruct (Z.eqb_spec w 0), (Z.eqb_spec h 0); cbn; width_lia).
  rewrite E0. destruct ((w =? 0) || (h =? 0)) eqn:Ez; [by exists o, [], e|].
  destruct (zlen data <? 4 * w * h) eqn:El; [by exists o, [], e|].
  destruct sys; [|by exists o, [], e| |]; cbv zeta;
    [|destruct (failed_run o e a (4 * w * h) _ R (or_introl eq_refl)) as (e' & H1 & H2); by eauto 10
     |destruct (failed_run o e a (4 * w * h) _ R (or_intror eq_refl)) as (e' & H1 & H2); by eauto 10].
  assert (0 < w /\ 0 < h) as [Hw0 Hh0] by width_lia.
  assert (Hi : i32 (4 * w * h) = 4 * w * h /\ i32 w = w /\ i32 h = h /\ i32 (4 * w) = 4 * w)
    by (unfold i32, to_signed, wrap; rewrite !Z.mod_small by width_lia; repeat case_match; width_lia).
  destruct Hi as (-> & -> & -> & ->).
  destruct (retire_old e (co_buffer o) (co_next o) w h data) as (e' & Hrun & Hown & Hsf & Hpd & Hpt & Hsh & Hfs);
    [apply R|apply R|].
  eexists _, _, e'. split; [reflexivity|]. split.
  - rewrite env_run_app, put_up_ok; try apply R; try done; lia.
  - destruct R. constructor; cbn; try done.
    + congruence.
    + congruence.
    + intros fd Hfd. rewrite Hfs. cbn. rewrite lookup_insert_ne by lia. apply rp_fresh0. lia.
    + lia.
Qed.

Lemma cursor_step_spec o e a op :
  represents o e a -> op_fits op ->
  exists o' reqs e', cursor_step o op = (o', reqs, (abs_step a op).2) /\
    env_run e reqs = Some e' /\ represents o' e' (abs_step a op).1.
Proof.
  intros R Hop. destruct op as [x y|serial|u data sys| |]; cbn.
  - eexists _, _, _. split; [reflexivity|]. split; [reflexivity|]. by destruct R.
  - eexists _, _, _. split; [reflexivity|]. split; [reflexivity|]. by destruct R.
  - assert (R' : represents (moved o u) e
              (mkAbs (ac_image a) (hotspot_x u, hotspot_y u) (cu_x u, cu_y u) (ac_server a) (ac_serial a) (ac_pointer a)))
      by (by destruct R).
    unfold apply_cursor_update. destruct data as [data|]; [|by exists (moved o u), [], e].
    destruct (has_bitmap u =? 0); cbn; [by exists (moved o u), [], e|].
    destruct Hop as (Hw & Hh & Hs).
    destruct (set_cursor_bitmap_spec _ _ _ data (bitmap_width u) (bitmap_height u) sys R' Hw Hh Hs)
      as (o' & reqs & e' & -> & Hrun & Hr).
    destruct (bitmap_error _ _ _ _); cbn; eexists _, reqs, e'; (split; [reflexivity|]; split; [done|]); [done|].
    by destruct Hr.
  - unfold set_on_pointer. pose proof (rp_image _ _ _ R) as Him. pose proof (rp_surface _ _ _ R) as Hsf.
    destruct (co_buffer o) as [b|] eqn:Eb, (ac_image a) as [im|] eqn:Ei;
      [| | |by exists o, [], e]; try by (destruct Him as [H1 H2]; (destruct H1 + destruct H2); by eauto).
    eexists _, _, _. split; [reflexivity|]. split; [accept; reflexivity|].
    destruct R as [? ? ? ? ? ? Hhot ? ? Hser ? ?]. constructor; cbn; try congruence; try done.
    by rewrite Hser, <- Hhot, <- surjective_pairing.
  - eexists _, _, _. split; [reflexivity|]. split; [accept; reflexivity|].
    destruct R. constructor; cbn; try congruence; done.
Qed.

Lemma cursor_run_spec ops : forall o e a, represents o e a -> Forall op_fits ops ->
  exists o' reqs e', cursor_run o ops = (o', reqs, (abs_run a ops).2) /\
    env_run e reqs = Some e' /\ represents o' e' (abs_run a ops).1.
Proof.
  induction ops as [|op ops IH]; intros o e a R Hops; cbn.
  - by exists o, [], e.
  - apply Forall_cons_1 in Hops as [Hop Hops].
    destruct (cursor_step_spec o e a op R Hop) as (o1 & reqs1 & e1 & -> & Hrun1 & R1).
    destruct (abs_step a op) as [a1 r1]. cbn in *.
    destruct (IH o1 e1 a1 R1 Hops) as (o2 & reqs2 & e2 & -> & Hrun2 & R2).
    destruct (abs_run a1 ops) as [a2 rs]. cbn in *.
    eexists _, _, e2. split; [reflexivity|]. split; [|done]. by rewrite env_run_app, Hrun1.
Qed.

Lemma represents_new n : exists e, env_run Env_new (Overlay_new n).2 = Some e /\
  represents (Overlay_new n).1 e Abs_new.
Proof. eexists. split; [reflexivity|]. by constructor; cbn; try done; intros; apply lookup_empty. Qed.

(** Nothing is left open, mapped or allocated. *)
Definition released (e : CursorEnv) : Prop :=
  ce_fds e = ∅ /\ ce_maps e = ∅ /\ ce_pools e = ∅ /\ ce_buffers e = ∅ /\ ce_surface e = None.

Lemma Overlay_drop_spec o e a : represents o e a ->
  exists e', env_run e (Overlay_drop o) = Some e' /\ released e'.
Proof.
  intros R. destruct R as [Hs Ho _ _ _ _ _ _ _ _ _ _]. unfold Overlay_drop.
  destruct e as [fs fds maps sf pools bufs pd sh pt]. destruct (co_buffer o) as [b|]; cbn in *; destruct Ho as (-> & -> & -> & ->).
  - eexists. split; [do 5 accept; reflexivity|].
    repeat split; cbn; rewrite ?delete_singleton_eq; set_solver.
  - eexists. split; [accept; reflexivity|done].
Qed.

(** C30. Whatever is done with the cursor overlay, with bitmaps of less than 2^31
    bytes: every system call and request is accepted, the errors returned, the
    image on the cursor surface, the pointer's cursor with its serial and
    hotspot, and the position are those of the abstract cursor; the overlay holds
    one descriptor, map, pool and buffer at most, and dropping it leaves none.
    The image is what the compositor reads in the buffer, which is made as
    [Argb8888]: a pixel of a bitmap is its blue, green, red and alpha.  The
    comment on [apply_cursor_update] says that bitmaps are RGBA; one that is
    appears with red and blue exchanged ([rgba_bitmap_swapped]). *)
Theorem cursor_refines (n : Z) (ops : list cursor_op) :
  Forall op_fits ops ->
  exists o reqs e e',
    cursor_run (Overlay_new n).1 ops = (o, reqs, (abs_run Abs_new ops).2) /\
    env_run Env_new ((Overlay_new n).2 ++ reqs) = Some e /\
    represents o e (abs_run Abs_new ops).1 /\
    env_run e (Overlay_drop o) = Some e' /\ released e'.
Proof.
  intros Hops. destruct (represents_new n) as (e0 & Hrun0 & R0).
  destruct (cursor_run_spec ops _ _ _ R0 Hops) as (o & reqs & e & Hc & Hrun & R).
  destruct (Overlay_drop_spec _ _ _ R) as (e' & Hd & Hr).
  exists o, reqs, e, e'. by rewrite env_run_app, Hrun0.
Qed.

(** A bitmap that is RGBA, as the comment has it, is shown with red and blue
    exchanged. *)
Definition swapped (px : Pixel) : Pixel := mkPixel (blue px) (green px) (red px) (alpha px).

Lemma pixels_swapped (n : nat) (bytes : list Z) : (length bytes <= n)%nat ->
  pixels (shm_pixel Argb8888) bytes = swapped <$> pixels mkPixel bytes.
Proof.
  revert bytes. induction n as [|n IH]; intros bytes Hn; [destruct bytes; [done|cbn in Hn; lia]|].
  destruct bytes as [|b0 [|b1 [|b2 [|b3 bytes]]]]; try done. cbn in Hn |- *.
  f_equal. apply IH. lia.
Qed.

Lemma rgba_bitmap_swapped data w h : argb_rows data w h = fmap (M:=list) swapped <$> rgba_rows data w h.
Proof.
  unfold argb_rows, rgba_rows, rows_at. rewrite <- list_fmap_compose.
  apply list_fmap_ext. intros _ y _. apply (pixels_swapped _ _ (le_n _)).
Qed.

(** A 2 by 1 image, then one the memory calls refuse, then a 1 by 1 image. *)
Definition sample_ops : list cursor_op :=
  let u w h := mkCursorUpdate 1 3 (-4) 1 0 w h 5 6 in
  [SetEnterSerial 7; SetOnPointer;
   ApplyCursorUpdate (u 2 1) (Some [1; 2; 3; 4; 5; 6; 7; 8; 9]) ShmOk; SetOnPointer;
   ApplyCursorUpdate (u 2 2) (Some [1; 2; 3; 4; 5; 6; 7; 8; 9]) ShmOk;
   ApplyCursorUpdate (u 1 1) (Some [9; 9; 9; 9]) MmapFails;
   ApplyCursorUpdate (u 1 1) (Some [9; 8; 7; 6]) ShmOk; Hide].

Lemma cursor_refines_witness :
  Forall op_fits sample_ops /\
  (abs_run Abs_new sample_ops).1 =
    mkAbs (Some (mkImage 1 1 [[mkPixel 7 8 9 6]])) (3, -4) (5, 6) true 7 (Some (7, None)) /\
  exists o reqs e e',
    cursor_run (Overlay_new 0).1 sample_ops = (o, reqs, (abs_run Abs_new sample_ops).2) /\
    env_run Env_new ((Overlay_new 0).2 ++ reqs) = Some e /\
    represents o e (abs_run Abs_new sample_ops).1 /\
    env_run e (Overlay_drop o) = Some e' /\ released e'.
Proof.
  assert (H : Forall op_fits sample_ops) by (refine (bool_decide_unpack _ _); vm_compute; exact I).
  split; [exact H|]. split; [vm_compute; reflexivity|].
  exact (cursor_refines 0 sample_ops H).
Defined.

Lemma small_pool_refused e pool fd size : size <= 0 -> env_step e (NewPool pool fd size) = None.
Proof. intros. cbn. case_guard; cbn; [|done]. destruct (ce_files e !! fd); cbn; [|done]. case_guard; [lia|done]. Qed.

(** The size of the pool is cast to [i32]: a bitmap of 2^31 bytes, which a
    [CursorUpdate] can name, asks for a pool of negative size, and the compositor
    ends the connection. *)
Lemma large_cursor_fatal o e data :
  zlen data = 2 ^ 31 ->
  match set_cursor_bitmap o data 32768 16384 ShmOk with
  | (_, reqs, None) => env_run e reqs = None
  | _ => False
  end.
Proof.
  intros Hd. unfold set_cursor_bitmap.
  change (wrap 64 (wrap 32 (32768 * 4) * 16384)) with (2 ^ 31).
  change (2 ^ 31 =? 0) with false. rewrite Hd. change (2 ^ 31 <? 2 ^ 31) with false. cbv iota zeta.
  change (i32 (2 ^ 31)) with (- 2 ^ 31).
  rewrite <- app_comm_cons. do 4 (try rewrite <- app_comm_cons).
  change (?r1 :: ?r2 :: ?r3 :: ?r4 :: ?r5 :: ?l) with ([r1; r2; r3; r4] ++ r5 :: l).
  rewrite env_run_app. destruct (env_run e _) as [e'|]; [|done]. cbn [mbind option_bind].
  unfold env_run at 1. cbn [foldM]. by rewrite small_pool_refused by lia.
Qed.
