(* ===== verification/Presentation.v ===== *)
(** Presentation timing ([crates/remoteway-display/src/presentation.rs]): the
    estimate of the display's refresh interval, a moving average over the
    timestamps of the frames shown.

    [estimate_bounded] bounds the estimate and the arithmetic; [estimate_converges]
    gives the number of frames after which the estimate of a steady display is
    within 7 ns of its interval. *)

From stdpp Require Import list.
From S2P Require Import Prelude Display.

(** ** [PresentationSync] *)

Record PresentationSync := mkSync {
  ps_last_presented_ns : Z; ps_frame_interval_ns : Z; ps_clock_id : Z; ps_sample_count : Z }.

Definition Sync_new (clock_id : Z) : PresentationSync := mkSync 0 16666667 clock_id 0.

(** The averaging step, in [u64]. *)
Definition smooth (old interval : Z) : Z := wrap 64 (wrap 64 (old * 7) + interval) / 8.

Definition record_presentation (s : PresentationSync) (timestamp_ns : Z) : PresentationSync :=
  let estimate :=
    if 0 <? ps_last_presented_ns s then
      let interval := sat_sub timestamp_ns (ps_last_presented_ns s) in
      if (0 <? interval) && (interval <? 100000000) then
        if ps_sample_count s <? 4 then interval else smooth (ps_frame_interval_ns s) interval
      else ps_frame_interval_ns s
    else ps_frame_interval_ns s in
  mkSync timestamp_ns estimate (ps_clock_id s) (wrap 64 (ps_sample_count s + 1)).

Definition record_discarded (s : PresentationSync) : PresentationSync := s.

(** The event handlers of both presentation objects leave the state alone. *)
Definition presentation_event (st : DisplayState) (clock_id : Z) : DisplayState := st.

(** What a caller may report of a frame. *)
Inductive feedback := Presented (timestamp_ns : Z) | Discarded.

Definition feedback_event (st : DisplayState) (f : feedback) : DisplayState := st.

Definition on_feedback (s : PresentationSync) (f : feedback) : PresentationSync :=
  match f with Presented t => record_presentation s t | Discarded => record_discarded s end.

Definition on_feedbacks (s : PresentationSync) (fs : list feedback) : PresentationSync := foldl on_feedback s fs.

(** ** Bounds *)

Definition plausible (interval : Z) : Prop := 0 < interval < 100000000.

Ltac rate_lia := unfold plausible in *; Z.to_euclidean_division_equations; lia.

Lemma smooth_exact old p : plausible old -> plausible p -> smooth old p = (old * 7 + p) / 8.
Proof. unfold plausible, smooth. intros. rewrite (wrap_small 64 (old * 7)), wrap_small by width_lia. done. Qed.

(** The average lies between the old estimate and the new interval. *)
Lemma smooth_between old p : plausible old -> plausible p ->
  Z.min old p <= smooth old p <= Z.max old p.
Proof. intros. rewrite smooth_exact by done. rate_lia. Qed.

Lemma smooth_plausible old p : plausible old -> plausible p -> plausible (smooth old p).
Proof. intros H1 H2. pose proof (smooth_between old p H1 H2). unfold plausible in *. lia. Qed.

Lemma record_plausible s t : plausible (ps_frame_interval_ns s) ->
  plausible (ps_frame_interval_ns (record_presentation s t)).
Proof.
  intros H. unfold record_presentation; cbn. repeat case_match; try done; [|apply smooth_plausible; try done];
    unfold plausible; lia.
Qed.

Lemma feedbacks_plausible fs : forall s, plausible (ps_frame_interval_ns s) ->
  plausible (ps_frame_interval_ns (on_feedbacks s fs)).
Proof. induction fs as [|f fs IH]; intros s Hs; [done|]. apply IH. destruct f; [by apply record_plausible|done]. Qed.

(** Whatever feedback arrives, in whatever order and with whatever
    timestamps, the estimated frame interval stays positive and below 100 ms, and
    the next averaging step does not overflow a [u64]. *)
Theorem estimate_bounded (clock_id : Z) (fs : list feedback) :
  let e := ps_frame_interval_ns (on_feedbacks (Sync_new clock_id) fs) in
  0 < e < 100000000 /\ forall p, 0 < p < 100000000 -> smooth e p = (7 * e + p) / 8.
Proof.
  assert (H := feedbacks_plausible fs (Sync_new clock_id) ltac:(done)).
  cbn zeta. split; [exact H|]. intros p Hp. rewrite smooth_exact by done. f_equal. lia.
Qed.

(** ** Convergence *)

(** The timestamps of [n] frames shown every [p] ns after [t]. *)
Fixpoint steady (n : nat) (t p : Z) : list feedback :=
  match n with O => [] | S n => Presented (t + p) :: steady n (t + p) p end.

(** How far below and above the interval the estimate may be after [n] frames. *)
Definition below_bound (n : nat) : Z := Nat.iter n (fun e => (7 * e + 7) / 8) 100000000.
Definition above_bound (n : nat) : Z := Nat.iter n (fun e => 7 * e / 8) 100000000.

Definition near (lo hi p : Z) (s : PresentationSync) : Prop :=
  0 <= lo /\ 0 <= hi /\ plausible (ps_frame_interval_ns s) /\ p - lo <= ps_frame_interval_ns s <= p + hi.

Lemma record_near s p lo hi : 0 < ps_last_presented_ns s -> plausible p -> near lo hi p s ->
  near ((7 * lo + 7) / 8) (7 * hi / 8) p (record_presentation s (ps_last_presented_ns s + p)).
Proof.
  intros Ht Hp (H1 & H2 & H3 & H4). split; [rate_lia|]. split; [rate_lia|]. split; [by apply record_plausible|].
  assert (E : sat_sub (ps_last_presented_ns s + p) (ps_last_presented_ns s) = p) by (unfold sat_sub, plausible in *; lia).
  unfold record_presentation; cbn. rewrite E.
  destruct (0 <? ps_last_presented_ns s) eqn:E1; [|lia].
  destruct ((0 <? p) && (p <? 100000000)) eqn:E2; [|unfold plausible in *; lia].
  destruct (ps_sample_count s <? 4); [rate_lia|]. rewrite smooth_exact by done. rate_lia.
Qed.

Lemma steady_near n : forall s p lo hi, 0 < ps_last_presented_ns s -> plausible p -> near lo hi p s ->
  near (Nat.iter n (fun e => (7 * e + 7) / 8) lo) (Nat.iter n (fun e => 7 * e / 8) hi) p
    (on_feedbacks s (steady n (ps_last_presented_ns s) p)).
Proof.
  induction n as [|n IH]; intros s p lo hi Ht Hp Hn; [done|].
  rewrite !Nat.iter_succ_r. cbn [steady on_feedbacks foldl on_feedback].
  apply (IH (record_presentation s (ps_last_presented_ns s + p))); [cbn; unfold plausible in *; lia|done|].
  by apply record_near.
Qed.

Lemma bounds_shrink n : (160 <= n)%nat -> below_bound n <= 7 /\ above_bound n = 0.
Proof.
  intros H. replace n with (n - 160 + 160)%nat by lia. generalize (n - 160)%nat as k. clear.
  induction k as [|k [IH1 IH2]]; [split; vm_compute; done|].
  change (S k + 160)%nat with (S (k + 160)).
  change (below_bound (S ?m)) with ((7 * below_bound m + 7) / 8).
  change (above_bound (S ?m)) with (7 * above_bound m / 8). rewrite IH2. split; [rate_lia|done].
Qed.

(** After any feedback that showed a frame, [n >= 160] frames shown
    every [p] ns ([0 < p < 100 ms]) bring the estimate to at most [p] and at least
    [p - 7]: the division rounds down, and the average sticks there. *)
Theorem estimate_converges (clock_id : Z) (fs : list feedback) (p : Z) (n : nat) :
  let s := on_feedbacks (Sync_new clock_id) fs in
  0 < ps_last_presented_ns s -> 0 < p < 100000000 -> (160 <= n)%nat ->
  let e := ps_frame_interval_ns (on_feedbacks s (steady n (ps_last_presented_ns s) p)) in
  p - 7 <= e <= p.
Proof.
  intros s Ht Hp Hn e. subst e.
  assert (H := feedbacks_plausible fs (Sync_new clock_id) ltac:(done)). fold s in H.
  assert (Hs : near 100000000 100000000 p s).
  { repeat split; unfold plausible in *; lia. }
  destruct (steady_near n s p _ _ Ht Hp Hs) as (_ & _ & _ & Hb).
  destruct (bounds_shrink n Hn). unfold below_bound, above_bound in *. lia.
Qed.

Lemma estimate_converges_witness :
  let s := on_feedbacks (Sync_new 1) [Discarded; Presented 1000; Presented 33000000] in
  0 < ps_last_presented_ns s /\ ps_frame_interval_ns s = 32999000 /\
  let e := ps_frame_interval_ns (on_feedbacks s (steady 160 (ps_last_presented_ns s) 6944444)) in
  6944444 - 7 <= e <= 6944444.
Proof.
  split; [reflexivity|]. split; [reflexivity|].
  exact (estimate_converges 1 [Discarded; Presented 1000; Presented 33000000] 6944444 160
           eq_refl (conj eq_refl eq_refl) (le_n 160)).
Defined.
