(* ===== verification/Encoder.v ===== *)
(** The hardware encoders' common part ([crates/remoteway-encode/src/encoder.rs] and
    what [backends/{h264,h265,av1}.rs] share line for line): the parameters and
    their validation, and one call of [encode].

    The driver is outside: each Vulkan call that can fail is a [gpu_step] whose
    answer, like the bytes the GPU writes, is an argument.  What a backend puts into
    the codec's structures is the class [Backend]; Codecs.v gives the three
    instances.  The texts of error messages are left out; the reason is kept. *)

From stdpp Require Import gmap.
From S2P Require Import Prelude.

(** ** Parameters *)

Inductive VideoCodec := H264 | H265 | Av1.

#[export] Instance VideoCodec_eq_dec : EqDecision VideoCodec.
Proof. solve_decision. Defined.

Inductive RateControl :=
  | ConstantQp (qp : Z)
  | Cbr (bitrate_bps : Z)
  | Vbr (average_bps peak_bps : Z).

(** The flags of [VideoEncodeRateControlModeFlagsKHR]; a set of them is a list. *)
Inductive vk_rc_mode := VkDisabled | VkCbr | VkVbr.

#[export] Instance vk_rc_mode_eq_dec : EqDecision vk_rc_mode.
Proof. solve_decision. Defined.

Definition to_vk_mode (rc : RateControl) : vk_rc_mode :=
  match rc with
  | ConstantQp _ => VkDisabled
  | Cbr _ => VkCbr
  | Vbr _ _ => VkVbr
  end.

Record EncodeParams := mkEncodeParams {
  ep_codec : VideoCodec; ep_width : Z; ep_height : Z; ep_frame_rate : Z * Z;
  ep_rate_control : RateControl; ep_intra_refresh_period : option Z }.

Record VideoEncodeCapabilities := mkCaps {
  vc_codec : VideoCodec; max_coded_extent : Z * Z; min_coded_extent : Z * Z;
  picture_access_granularity : Z * Z; max_dpb_slots : Z; max_active_reference_pictures : Z;
  rate_control_modes : list vk_rc_mode; supports_intra_refresh : bool;
  supports_quantization_map : bool }.

Inductive invalid_params :=
  | CodecMismatch | WrongBackend | ZeroDimension | OutsideDeviceRange | WidthNotAligned
  | HeightNotAligned | RateControlUnsupported | NoIntraRefresh | QpOutOfRange
  | ZeroFrameRateDenominator | NoEncodeQueueFamily | NoEncodeQueue | InputFrameSize.

(** The Vulkan calls that can fail: those of [new], with the searches for memory, and
    those of [encode]. *)
Inductive gpu_step :=
  | CreateVideoSession | SessionRequirements | NoSessionMemory | AllocateSessionMemory
  | BindSessionMemory | CreateSessionParameters | GetParameterSets
  | CreateDpbImage | NoDpbMemory | AllocateDpbMemory | BindDpbImage
  | CreateOutBuffer | NoOutMemory | AllocateOutMemory | BindOutBuffer
  | CreateQueryPool | CreateCommandPool | AllocateCommandBuffers | CreateFence
  | ResetCommandPool | BeginCommandBuffer | CreateImageView | EndCommandBuffer | ResetFences
  | QueueSubmit | WaitForFences | GetQueryPoolResults | MapMemory.

#[export] Instance gpu_step_eq_dec : EqDecision gpu_step.
Proof. solve_decision. Defined.

Inductive EncodeError :=
  | VulkanFailed
  | UnsupportedCodec (codec : VideoCodec)
  | InvalidParams (why : invalid_params)
  | NotReady
  | SubmitFailed (at_ : gpu_step)
  | ReadbackFailed (at_ : gpu_step).

(** [v.is_multiple_of(g)] for [g > 0]. *)
Definition is_multiple_of (v g : Z) : bool := v mod g =? 0.

Definition validate_against (p : EncodeParams) (caps : VideoEncodeCapabilities) : unit + EncodeError :=
  let bad why := inr (InvalidParams why) in
  if negb (bool_decide (vc_codec caps = ep_codec p)) then bad CodecMismatch
  else if (ep_width p =? 0) || (ep_height p =? 0) then bad ZeroDimension
  else if (ep_width p <? (min_coded_extent caps).1) || (ep_height p <? (min_coded_extent caps).2) ||
          ((max_coded_extent caps).1 <? ep_width p) || ((max_coded_extent caps).2 <? ep_height p)
  then bad OutsideDeviceRange
  else
    let '(gx, gy) := picture_access_granularity caps in
    if (0 <? gx) && negb (is_multiple_of (ep_width p) gx) then bad WidthNotAligned
    else if (0 <? gy) && negb (is_multiple_of (ep_height p) gy) then bad HeightNotAligned
    else if negb (bool_decide (to_vk_mode (ep_rate_control p) ∈ rate_control_modes caps))
    then bad RateControlUnsupported
    else if bool_decide (is_Some (ep_intra_refresh_period p)) && negb (supports_intra_refresh caps)
    then bad NoIntraRefresh
    else if match ep_rate_control p with ConstantQp qp => 255 <? qp | _ => false end
    then bad QpOutOfRange
    else if (ep_frame_rate p).2 =? 0 then bad ZeroFrameRateDenominator
    else inl tt.

(** ** Frames *)

Inductive FrameKind := Idr | I | P | IntraRefresh.

Record EncodedFrame := mkEncodedFrame {
  ef_data : list Z; ef_kind : FrameKind; ef_pts_90khz : Z; ef_parameter_sets : option (list Z) }.

Record InputFrame := mkInputFrame { if_image : Z; if_width : Z; if_height : Z; if_pts_90khz : Z }.

Definition DPB_SLOTS : Z := 2.
Definition OUTPUT_BUFFER_BYTES : Z := 1024 * 1024.

Record DpbSlot := mkDpbSlot { ds_image : Z; ds_memory : Z; ds_view : Z }.

(** What the driver does in one call: which step fails, the view it would create,
    the count it reports and the output buffer it leaves. *)
Record gpu_run := mkGpuRun {
  g_fails : gpu_step -> bool; g_view : Z; g_bytes_written : Z; g_buffer : list Z }.

Section Backends.
Context {Info Pic X : Type}.

(** The encoder's own state; [e_extra] is the backend's addition to it. *)
Record Enc := mkEnc {
  e_params : EncodeParams; e_parameter_sets : list Z; e_dpb : list DpbSlot;
  e_prior_ref_slot : option Z; e_frame_index : Z; e_force_keyframe : bool;
  e_input_views : gmap Z Z; e_extra : X }.

(** A slot as it is named to the driver: its index, its view, the codec's
    information about the picture in it. *)
Record slot_info := mkSlotInfo { sl_index : Z; sl_view : Z; sl_std : Info }.

(** One [cmd_encode_video] with the slots of its coding scope. *)
Record EncodeOp := mkEncodeOp {
  op_pic : Pic; op_setup : slot_info; op_reference : option slot_info;
  op_begin : list slot_info; op_src_view : Z; op_range : Z }.

Class Backend := {
  b_codec : VideoCodec;
  b_extra_new : X;
  (** the parameter sets as they are kept *)
  b_sets : list Z -> list Z;
  (** the picture and setup information, and what is said of the reference *)
  b_pic : Enc -> bool -> option Z -> Pic;
  b_setup_info : Enc -> bool -> Info;
  b_ref_info : Enc -> Info;
  (** the bitstream as it is returned, and the counters after a success *)
  b_framed : list Z -> list Z;
  b_advance : X -> X
}.
Context `{Backend}.

(** ** [encode] *)

(** The encoder, the operations the GPU was given, and the result; [None] is a
    panic. *)
Definition encm (A : Type) : Type := Enc -> option (Enc * list EncodeOp * (A + EncodeError)).

#[export] Instance encm_ret : MRet encm := fun A a e => Some (e, [], inl a).
#[export] Instance encm_bind : MBind encm := fun A B f m e =>
  '(e, ops, r) ← m e;
  match r with
  | inl a => '(e, ops', r) ← f a e; Some (e, ops ++ ops', r)
  | inr x => Some (e, ops, inr x)
  end.

Definition get_enc : encm Enc := fun e => Some (e, [], inl e).
Definition put_enc (e : Enc) : encm unit := fun _ => Some (e, [], inl tt).
Definition fail_with {A} (x : EncodeError) : encm A := fun e => Some (e, [], inr x).
Definition index_slot (n : Z) : encm DpbSlot := fun e => s ← get (e_dpb e) n; Some (e, [], inl s).
Definition submit (op : EncodeOp) : encm unit := fun e => Some (e, [op], inl tt).

Definition step_error (s : gpu_step) : EncodeError :=
  match s with
  | GetParameterSets | GetQueryPoolResults | MapMemory => ReadbackFailed s
  | _ => SubmitFailed s
  end.

(** A Vulkan call with its [map_err(..)?]. *)
Definition vk_call (g : gpu_run) (s : gpu_step) : encm unit :=
  if g_fails g s then fail_with (step_error s) else mret tt.

Definition set_force (e : Enc) (b : bool) : Enc :=
  mkEnc (e_params e) (e_parameter_sets e) (e_dpb e) (e_prior_ref_slot e) (e_frame_index e) b
    (e_input_views e) (e_extra e).

Definition request_keyframe (e : Enc) : Enc := set_force e true.

Definition is_idr (e : Enc) : bool := (e_frame_index e =? 0) || e_force_keyframe e.

Definition setup_slot (e : Enc) : Z :=
  match e_prior_ref_slot e with
  | None => 0
  | Some prev => wrap 64 (prev + 1) mod zlen (e_dpb e)
  end.

Definition ref_slot (e : Enc) (idr : bool) : option Z := if idr then None else e_prior_ref_slot e.

(** The cached view of the input image, or a new one. *)
Definition input_view (g : gpu_run) (image : Z) : encm Z :=
  e ← get_enc;
  match e_input_views e !! image with
  | Some v => mret v
  | None =>
      vk_call g CreateImageView;;
      put_enc (mkEnc (e_params e) (e_parameter_sets e) (e_dpb e) (e_prior_ref_slot e)
        (e_frame_index e) (e_force_keyframe e) (<[image := g_view g]> (e_input_views e)) (e_extra e));;
      mret (g_view g)
  end.

(** The setup and reference slots as they are declared; [-1] is the index of the
    setup slot in the begin call. *)
Definition build_op (e : Enc) (idr : bool) (setup : DpbSlot) (reference : option (Z * DpbSlot))
    (view : Z) : EncodeOp :=
  let info := b_setup_info e idr in
  let reference := (fun r => mkSlotInfo r.1 (ds_view r.2) (b_ref_info e)) <$> reference in
  mkEncodeOp (b_pic e idr (ref_slot e idr)) (mkSlotInfo (setup_slot e) (ds_view setup) info) reference
    (mkSlotInfo (-1) (ds_view setup) info :: option_list reference) view OUTPUT_BUFFER_BYTES.

(** The picture resource of the reference slot. *)
Definition reference_slot (e : Enc) (idr : bool) : encm (option (Z * DpbSlot)) :=
  match ref_slot e idr with
  | Some prev => s ← index_slot prev; mret (Some (prev, s))
  | None => mret None
  end.

(** Record, submit and wait; the submission itself may fail, and then nothing
    runs. *)
Definition run_op (g : gpu_run) (image : Z) (idr : bool) (e : Enc) : encm unit :=
  setup ← index_slot (setup_slot e);
  reference ← reference_slot e idr;
  vk_call g ResetCommandPool;;
  vk_call g BeginCommandBuffer;;
  view ← input_view g image;
  vk_call g EndCommandBuffer;;
  vk_call g ResetFences;;
  vk_call g QueueSubmit;;
  submit (build_op e idr setup reference view);;
  vk_call g WaitForFences.

Definition read_bitstream (g : gpu_run) : encm (list Z) :=
  vk_call g GetQueryPoolResults;;
  let read_size := Z.min (g_bytes_written g) OUTPUT_BUFFER_BYTES in
  vk_call g MapMemory;;
  mret (take (Z.to_nat read_size) (g_buffer g)).

Definition finish (idr : bool) (setup : Z) : encm unit :=
  e ← get_enc;
  put_enc (mkEnc (e_params e) (e_parameter_sets e) (e_dpb e) (Some setup)
    (wrap 64 (e_frame_index e + 1)) (e_force_keyframe e) (e_input_views e) (b_advance (e_extra e))).

Definition encode_m (frame : InputFrame) (g : gpu_run) : encm EncodedFrame :=
  e ← get_enc;
  if negb (if_width frame =? ep_width (e_params e)) || negb (if_height frame =? ep_height (e_params e))
  then fail_with (InvalidParams InputFrameSize)
  else
    let idr := is_idr e in
    put_enc (set_force e false);;
    run_op g (if_image frame) idr e;;
    bitstream ← read_bitstream g;
    let parameter_sets := if idr then Some (e_parameter_sets e) else None in
    let kind := if idr then Idr else P in
    finish idr (setup_slot e);;
    mret (mkEncodedFrame (b_framed bitstream) kind (if_pts_90khz frame) parameter_sets).

Definition encode (e : Enc) (frame : InputFrame) (g : gpu_run)
    : option (Enc * list EncodeOp * (EncodedFrame + EncodeError)) := encode_m frame g e.

(** ** [new] *)

(** The context: what it probes, and its encode queue if it has one. *)
Record VulkanContext := mkVulkanContext {
  vx_caps : VideoCodec -> VideoEncodeCapabilities + unit;
  vx_queue_family : option Z; vx_queue : option Z }.

(** The checks of [new]; the objects are created after them (EncoderObjects.v). *)
Definition new_checks (ctx : VulkanContext) (p : EncodeParams) : unit + EncodeError :=
  if negb (bool_decide (ep_codec p = b_codec)) then inr (InvalidParams WrongBackend)
  else match vx_caps ctx b_codec with
  | inr _ => inr VulkanFailed
  | inl caps =>
      match validate_against p caps with
      | inr x => inr x
      | inl _ =>
          match vx_queue_family ctx, vx_queue ctx with
          | None, _ => inr (InvalidParams NoEncodeQueueFamily)
          | _, None => inr (InvalidParams NoEncodeQueue)
          | Some _, Some _ => inl tt
          end
      end
  end.

(** The encoder once the objects exist. *)
Definition Enc_new (p : EncodeParams) (parameter_sets : list Z) (dpb : list DpbSlot) : Enc :=
  mkEnc p parameter_sets dpb None 0 false ∅ b_extra_new.
End Backends.
Arguments Enc : clear implicits.
Arguments slot_info : clear implicits.
Arguments EncodeOp : clear implicits.
Arguments Backend : clear implicits.

(** ** Validation *)

(** What a session needs of its parameters. *)
Definition params_ok (p : EncodeParams) (caps : VideoEncodeCapabilities) : Prop :=
  vc_codec caps = ep_codec p /\ ep_width p <> 0 /\ ep_height p <> 0 /\
  (min_coded_extent caps).1 <= ep_width p <= (max_coded_extent caps).1 /\
  (min_coded_extent caps).2 <= ep_height p <= (max_coded_extent caps).2 /\
  (0 < (picture_access_granularity caps).1 -> ((picture_access_granularity caps).1 | ep_width p)) /\
  (0 < (picture_access_granularity caps).2 -> ((picture_access_granularity caps).2 | ep_height p)) /\
  to_vk_mode (ep_rate_control p) ∈ rate_control_modes caps /\
  (is_Some (ep_intra_refresh_period p) -> supports_intra_refresh caps = true) /\
  (forall qp, ep_rate_control p = ConstantQp qp -> qp <= 255) /\ (ep_frame_rate p).2 <> 0.

Lemma aligned_iff v g : (0 <? g) && negb (is_multiple_of v g) = false <-> (0 < g -> (g | v)).
Proof.
  unfold is_multiple_of. destruct (Z.ltb_spec 0 g); [|split; [lia|done]]. cbn [andb].
  rewrite negb_false_iff, Z.eqb_eq, Z.mod_divide by lia. tauto.
Qed.

(** A check that refuses: the result is a success exactly when it does not, and
    the rest succeeds. *)
Lemma check_iff (b : bool) (x : EncodeError) (rest : unit + EncodeError) :
  (if b then inr x else rest) = inl tt <-> b = false /\ rest = inl tt.
Proof. destruct b; naive_solver. Qed.

Lemma qp_iff rc : match rc with ConstantQp qp => 255 <? qp | _ => false end = false <->
  (forall qp, rc = ConstantQp qp -> qp <= 255).
Proof.
  destruct rc as [qp| |]; [|split; [by intros _ ? [=]|done]..].
  rewrite Z.ltb_ge. split; [by intros ? ? [= <-]|]. intros Hq. by apply Hq.
Qed.

(** Parameters are accepted exactly when they describe a session the
    device can run: the codec, a size that is positive, in the device's range and
    aligned to its granularity (when it has one), a rate control mode it has,
    intra refresh only if it has it, a quantiser of one byte and a frame rate with
    a denominator. *)
Theorem validate_accepts p caps : validate_against p caps = inl tt <-> params_ok p caps.
Proof.
  unfold validate_against, params_ok. rewrite !check_iff.
  rewrite negb_false_iff, bool_decide_eq_true, orb_false_iff, !Z.eqb_neq, !orb_false_iff, !Z.ltb_ge.
  destruct (picture_access_granularity caps) as [gx gy]. cbn [fst snd].
  rewrite !check_iff, !aligned_iff, negb_false_iff, bool_decide_eq_true, qp_iff, Z.eqb_neq.
  rewrite andb_false_iff, bool_decide_eq_false, negb_false_iff.
  destruct (ep_intra_refresh_period p), (supports_intra_refresh caps); naive_solver eauto.
Qed.
