(* ===== verification/EncoderRun.v ===== *)
(** Runs of an encoder beside the GPU's picture buffer: whatever fails and whenever
    keyframes are requested, what an encode reads is the last frame returned; and
    the keyframes that are promised.  Proved for every [Backend]. *)

From stdpp Require Import gmap.
From S2P Require Import Prelude Encoder.

Section Run.
Context {Info Pic X : Type} `{Hb : Backend Info Pic X}.

Inductive enc_event := Request | Attempt (frame : InputFrame) (g : gpu_run).

(** What an observer keeps: the pictures in the slots, each with the attempt that
    wrote it; the number of the next attempt; the last attempt that returned a
    frame; and whether a keyframe was requested since the last attempt, those
    refused for the size of their frame apart. *)
Record Mon := mkMon {
  m_slots : gmap Z (Info * nat); m_next : nat; m_last : option nat; m_requested : bool }.

Definition Mon_new : Mon := mkMon ∅ 0 None false.

Definition mon_request (m : Mon) : Mon := mkMon (m_slots m) (m_next m) (m_last m) true.

Definition mon_attempt (m : Mon) (slots : gmap Z (Info * nat)) (r : EncodedFrame + EncodeError) : Mon :=
  mkMon slots (S (m_next m)) (match r with inl _ => Some (m_next m) | inr _ => m_last m end)
    (match r with inr (InvalidParams InputFrameSize) => m_requested m | _ => false end).

(** What an attempt did: each operation with the picture its reference slot held. *)
Record attempt := mkAttempt {
  at_id : nat; at_last : option nat; at_requested : bool;
  at_ops : list (EncodeOp Info Pic * option (Info * nat));
  at_result : EncodedFrame + EncodeError }.

(** The operation reads its reference slot and writes its setup slot. *)
Definition exec_op (id : nat) (slots : gmap Z (Info * nat)) (op : EncodeOp Info Pic)
    : gmap Z (Info * nat) :=
  <[sl_index (op_setup op) := (sl_std (op_setup op), id)]> slots.

Definition seen (slots : gmap Z (Info * nat)) (op : EncodeOp Info Pic) : option (Info * nat) :=
  s ← op_reference op; slots !! sl_index s.

Fixpoint exec_ops (id : nat) (slots : gmap Z (Info * nat)) (ops : list (EncodeOp Info Pic))
    : gmap Z (Info * nat) * list (EncodeOp Info Pic * option (Info * nat)) :=
  match ops with
  | [] => (slots, [])
  | op :: ops =>
      let '(slots', l) := exec_ops id (exec_op id slots op) ops in
      (slots', (op, seen slots op) :: l)
  end.

Fixpoint enc_run (e : Enc X) (m : Mon) (evs : list enc_event)
    : option (Enc X * Mon * list attempt) :=
  match evs with
  | [] => Some (e, m, [])
  | Request :: evs => enc_run (request_keyframe e) (mon_request m) evs
  | Attempt frame g :: evs =>
      '(e', ops, r) ← encode e frame g;
      let '(slots, l) := exec_ops (m_next m) (m_slots m) ops in
      '(e'', m'', tr) ← enc_run e' (mon_attempt m slots r) evs;
      Some (e'', m'', mkAttempt (m_next m) (m_last m) (m_requested m) l r :: tr)
  end.

(** A run of a new encoder. *)
Definition new_run (p : EncodeParams) (sets : list Z) (dpb : list DpbSlot) (evs : list enc_event) :=
  enc_run (Enc_new p sets dpb) Mon_new evs.

(** ** One attempt *)

(** The fields an attempt does not touch. *)
Definition same_session (e e' : Enc X) : Prop :=
  e_params e' = e_params e /\ e_parameter_sets e' = e_parameter_sets e /\ e_dpb e' = e_dpb e.

(** The counters, and the slot of the last frame. *)
Definition same_counters (e e' : Enc X) : Prop :=
  e_frame_index e' = e_frame_index e /\ e_extra e' = e_extra e /\
  e_prior_ref_slot e' = e_prior_ref_slot e.

Definition enc_ok (e : Enc X) : Prop :=
  length (e_dpb e) = 2%nat /\
  match e_prior_ref_slot e with Some s => s = 0 \/ s = 1 | None => e_frame_index e = 0 end.

Lemma setup_slot_cases (e : Enc X) : enc_ok e ->
  setup_slot e = match e_prior_ref_slot e with Some s => 1 - s | None => 0 end.
Proof.
  intros [Hd Hp]. unfold setup_slot, zlen. rewrite Hd. destruct (e_prior_ref_slot e); [|done].
  destruct Hp as [-> | ->]; done.
Qed.

Lemma setup_slot_range (e : Enc X) : enc_ok e -> setup_slot e = 0 \/ setup_slot e = 1.
Proof.
  intros He. rewrite setup_slot_cases by done. destruct He as [_ Hp].
  destruct (e_prior_ref_slot e); [|by left]. lia.
Qed.

Lemma index_slot_ok (e : Enc X) n : length (e_dpb e) = 2%nat -> n = 0 \/ n = 1 ->
  exists s, get (e_dpb e) n = Some s.
Proof.
  destruct e as [? ? [|x [|y [|]]] ? ? ? ? ?]; try done. intros _ [-> | ->]; by eexists.
Qed.

(** An operation of an attempt from [e]: the reference, if any, is the slot of the
    last frame, and the picture is written to the other one. *)
Definition op_of (e : Enc X) (idr : bool) (op : EncodeOp Info Pic) : Prop :=
  sl_index (op_setup op) = setup_slot e /\ sl_std (op_setup op) = b_setup_info e idr /\
  op_pic op = b_pic e idr (ref_slot e idr) /\ op_range op = OUTPUT_BUFFER_BYTES /\
  (fun s => sl_index s) <$> op_reference op = ref_slot e idr /\
  (forall s, op_reference op = Some s -> sl_std s = b_ref_info e) /\
  exists b, op_begin op = b :: option_list (op_reference op) /\ sl_index b = -1.

Lemma bind_eq {A B} (m : encm A) (f : A -> encm B) (e : Enc X) :
  (m ≫= f : encm (Info:=Info) (Pic:=Pic) B) e =
  match m e with
  | Some (e1, q1, inl a) =>
      match f a e1 with Some (e2, q2, r) => Some (e2, q1 ++ q2, r) | None => None end
  | Some (e1, q1, inr x) => Some (e1, q1, inr x)
  | None => None
  end.
Proof.
  cbv [mbind encm_bind option_bind]. destruct (m e) as [[[e1 q1] [a|x]]|]; [|done..].
  by destruct (f a e1) as [[[e2 q2] r]|].
Qed.

Lemma vk_call_eq g s (e : Enc X) :
  vk_call (Info:=Info) (Pic:=Pic) g s e =
  Some (e, [], if g_fails g s then inr (step_error s) else inl tt).
Proof. unfold vk_call. by destruct (g_fails g s). Qed.

Definition views_changed (e : Enc X) (v : gmap Z Z) : Enc X :=
  mkEnc (e_params e) (e_parameter_sets e) (e_dpb e) (e_prior_ref_slot e) (e_frame_index e)
    (e_force_keyframe e) v (e_extra e).

Lemma views_same (e : Enc X) : e = views_changed e (e_input_views e).
Proof. by destruct e. Qed.

(** What failed was a Vulkan call. *)
Definition by_step {A} (r : A + EncodeError) : Prop := forall x, r = inr x -> exists s, x = step_error s.

Lemma step_error_not_size s : step_error s <> InvalidParams InputFrameSize.
Proof. destruct s; discriminate. Qed.

Lemma input_view_spec g image (e : Enc X) :
  exists v r, input_view (Info:=Info) (Pic:=Pic) g image e = Some (views_changed e v, [], r) /\ by_step r.
Proof.
  unfold input_view. rewrite bind_eq. cbn [get_enc].
  destruct (e_input_views e !! image) as [v|].
  { exists (e_input_views e), (inl v). by rewrite <- views_same. }
  rewrite bind_eq, vk_call_eq. destruct (g_fails g CreateImageView).
  - exists (e_input_views e), (inr (step_error CreateImageView)). rewrite <- views_same.
    split; [done|]. intros x Hx. exists CreateImageView. by injection Hx as <-.
  - by eexists _, (inl (g_view g)).
Qed.

Lemma reference_slot_spec (e e0 : Enc X) idr : enc_ok e -> e_dpb e0 = e_dpb e ->
  exists reference, reference_slot (Info:=Info) (Pic:=Pic) e idr e0 = Some (e0, [], inl reference) /\
    fst <$> reference = ref_slot e idr.
Proof.
  intros [Hd Hp] Hdpb. unfold reference_slot. destruct (ref_slot e idr) as [prev|] eqn:Eref; [|by exists None].
  destruct (index_slot_ok e0 prev) as [s E]; [by rewrite Hdpb| |].
  - unfold ref_slot in Eref. destruct idr; [done|]. by rewrite Eref in Hp.
  - exists (Some (prev, s)). rewrite bind_eq. unfold index_slot. by rewrite E.
Qed.

Lemma build_op_of (e : Enc X) idr setup reference view :
  fst <$> reference = ref_slot e idr -> op_of e idr (build_op e idr setup reference view).
Proof.
  intros Ef. unfold op_of, build_op. cbn. split_and!; try done.
  - rewrite <- Ef. by destruct reference.
  - by destruct reference; intros s [= <-].
  - by eexists.
Qed.

(** Nothing is submitted and there is an error, or the operation is. *)
Definition submitted (e : Enc X) (idr : bool) (ops : list (EncodeOp Info Pic)) {A} (r : A + EncodeError) : Prop :=
  match ops with
  | [] => exists s, r = inr (step_error s)
  | [op] => op_of e idr op /\ by_step r
  | _ => False
  end.

Lemma run_op_spec g image idr (e0 e : Enc X) :
  enc_ok e -> e_dpb e0 = e_dpb e ->
  exists v ops r, run_op g image idr e e0 = Some (views_changed e0 v, ops, r) /\ submitted e idr ops r.
Proof.
  intros He Hdpb. pose proof He as [Hd Hp]. unfold run_op. rewrite bind_eq. unfold index_slot at 1.
  destruct (index_slot_ok e0 (setup_slot e)) as [setup Es];
    [by rewrite Hdpb|by apply setup_slot_range|].
  cbn [mbind option_bind]. rewrite Es. cbn [mbind option_bind].
  destruct (reference_slot_spec e e0 idr He Hdpb) as (reference & Er & Ef).
  rewrite bind_eq, Er, bind_eq, vk_call_eq.
  destruct (g_fails g ResetCommandPool).
  { eexists _, [], _. rewrite <- views_same. split; [done|by eexists]. }
  rewrite bind_eq, vk_call_eq. destruct (g_fails g BeginCommandBuffer).
  { eexists _, [], _. rewrite <- views_same. split; [done|by eexists]. }
  rewrite bind_eq. destruct (input_view_spec g image e0) as (v & rv & -> & Hrv).
  destruct rv as [view|x]; [|destruct (Hrv x eq_refl) as [s ->]; eexists _, [], _; split; [done|by eexists]].
  rewrite bind_eq, vk_call_eq. destruct (g_fails g EndCommandBuffer); [eexists _, [], _; split; [done|by eexists]|].
  rewrite bind_eq, vk_call_eq. destruct (g_fails g ResetFences); [eexists _, [], _; split; [done|by eexists]|].
  rewrite bind_eq, vk_call_eq. destruct (g_fails g QueueSubmit); [eexists _, [], _; split; [done|by eexists]|].
  rewrite bind_eq. unfold submit. rewrite vk_call_eq.
  eexists v, [build_op e idr setup reference view], _. split; [reflexivity|].
  split; [by apply build_op_of|]. intros x Hx. destruct (g_fails g WaitForFences); [|done]. exists WaitForFences. by injection Hx as <-.
Qed.

(** The encoder after a frame was returned. *)
Definition advanced (e : Enc X) (v : gmap Z Z) : Enc X :=
  mkEnc (e_params e) (e_parameter_sets e) (e_dpb e) (Some (setup_slot e)) (wrap 64 (e_frame_index e + 1))
    false v (b_advance (e_extra e)).

Definition frame_of (e : Enc X) (frame : InputFrame) (data : list Z) : EncodedFrame :=
  mkEncodedFrame (b_framed data) (if is_idr e then Idr else P) (if_pts_90khz frame)
    (if is_idr e then Some (e_parameter_sets e) else None).

(** An attempt: refused for its size; or failed, the request for a keyframe
    cleared and nothing else but the view cache changed; or the frame. *)
Lemma encode_spec (e : Enc X) frame g : enc_ok e ->
  exists e' ops r, encode e frame g = Some (e', ops, r) /\
    ((e' = e /\ ops = [] /\ r = inr (InvalidParams InputFrameSize)) \/
     (exists v s, e' = set_force (views_changed e v) false /\ r = inr (step_error s) /\
        (ops = [] \/ exists op, ops = [op] /\ op_of e (is_idr e) op)) \/
     (exists v op, e' = advanced e v /\ ops = [op] /\ op_of e (is_idr e) op /\
        r = inl (frame_of e frame (take (Z.to_nat (Z.min (g_bytes_written g) OUTPUT_BUFFER_BYTES)) (g_buffer g))))).
Proof.
  intros He. unfold encode, encode_m. rewrite bind_eq. cbn [get_enc].
  destruct (negb _ || negb _).
  { eexists _, _, _. split; [reflexivity|]. by left. }
  rewrite bind_eq. cbn [put_enc]. rewrite bind_eq.
  destruct (run_op_spec g (if_image frame) (is_idr e) (set_force e false) e He eq_refl) as (v & ops & r & -> & Hs).
  destruct r as [[]|x].
  2: { eexists _, _, _. split; [reflexivity|]. right; left. exists v.
       destruct ops as [|op [|]]; [|destruct Hs as [Hop Hx]; destruct (Hx x eq_refl) as [s ->]|done].
       - destruct Hs as [s [= ->]]. exists s. split_and!; [done..|by left].
       - exists s. split_and!; [done..|right; by exists op]. }
  destruct ops as [|op [|]]; [by destruct Hs|destruct Hs as [Hs _]|done].
  rewrite bind_eq. unfold read_bitstream. rewrite bind_eq, vk_call_eq.
  destruct (g_fails g GetQueryPoolResults).
  { eexists _, _, _. split; [reflexivity|]. right; left. exists v. eexists. split_and!; [done|reflexivity|right; by exists op]. }
  rewrite bind_eq, vk_call_eq. destruct (g_fails g MapMemory).
  { eexists _, _, _. split; [reflexivity|]. right; left. exists v. eexists. split_and!; [done|reflexivity|right; by exists op]. }
  eexists _, _, _. split; [reflexivity|]. right; right. exists v, op. by split_and!.
Qed.

(** ** Runs *)

Section Described.
(** [R] is what is to hold between what is said of a reference and what was said of
    that picture when it was made; [J] is what the counters keep of the last
    frame, [K] of themselves; with [quiet] no keyframe is requested. *)
Context (R : Info -> Info -> Prop) (J : Z -> X -> Info -> Prop) (K : X -> Prop) (quiet : bool).
Context (K_new : K b_extra_new) (K_advance : forall x, K x -> K (b_advance x)).
Context (J_made : forall e : Enc X, K (e_extra e) -> (quiet = true -> e_force_keyframe e = false) ->
  J (wrap 64 (e_frame_index e + 1)) (b_advance (e_extra e)) (b_setup_info e (is_idr e))).
Context (J_said : forall (e : Enc X) rec, J (e_frame_index e) (e_extra e) rec -> R (b_ref_info e) rec).

(** What an attempt that reads a reference reads: the slot it does not write, and in
    it the last frame returned, described as it was when it was made. *)
Definition reads_last (a : attempt) : Prop :=
  Forall (fun '(op, saw) =>
    match op_reference op with
    | Some s => sl_index s <> sl_index (op_setup op) /\
        exists rec id, saw = Some (rec, id) /\ at_last a = Some id /\ R (sl_std s) rec
    | None => True
    end) (at_ops a).

Definition run_inv (e : Enc X) (m : Mon) : Prop :=
  enc_ok e /\ K (e_extra e) /\ (quiet = true -> e_force_keyframe e = false) /\
  match e_prior_ref_slot e with
  | None => m_last m = None
  | Some s => exists rec id, m_slots m !! s = Some (rec, id) /\ m_last m = Some id /\
      J (e_frame_index e) (e_extra e) rec
  end.

Lemma op_of_reads (e : Enc X) m idr op b l r : run_inv e m -> op_of e idr op ->
  (l = [(op, seen (m_slots m) op)]) -> reads_last (mkAttempt (m_next m) (m_last m) b l r).
Proof.
  intros ([Hd Hp] & _ & _ & Hm) (Es & _ & _ & _ & Er & Ei & _) ->. constructor; [|constructor].
  unfold seen. destruct (op_reference op) as [s|] eqn:Eop; [|done]. cbn in *.
  unfold ref_slot in Er. destruct idr; [done|]. rewrite <- Er in *.
  split.
  - rewrite Es, (setup_slot_cases e) by (split; [done|by rewrite <- Er]). rewrite <- Er. lia.
  - destruct Hm as (rec & id & Hs & Hl & Hj). exists rec, id. split_and!; [done|done|].
    rewrite (Ei s eq_refl). by apply J_said.
Qed.

Definition not_request (ev : enc_event) : Prop := match ev with Request => False | _ => True end.

(** The exec of a failed attempt spares the slot of the last frame. *)
Lemma exec_spares (e : Enc X) idr op id slots s :
  enc_ok e -> op_of e idr op -> e_prior_ref_slot e = Some s -> exec_op id slots op !! s = slots !! s.
Proof.
  intros He (Es & _) Hs. unfold exec_op. rewrite lookup_insert_ne; [done|].
  rewrite Es, setup_slot_cases, Hs by done. destruct He as [_ Hp]. rewrite Hs in Hp. lia.
Qed.

Lemma enc_run_inv (e : Enc X) m evs :
  run_inv e m -> (quiet = true -> Forall not_request evs) ->
  exists e' m' tr, enc_run e m evs = Some (e', m', tr) /\ run_inv e' m' /\ Forall reads_last tr.
Proof.
  revert e m. induction evs as [|[|frame g] evs IH]; intros e m Hi Hq; cbn.
  - by exists e, m, [].
  - apply IH; [|intros Q; specialize (Hq Q); by inversion_clear Hq].
    destruct Hi as (He & Hk & Hf & Hm). split_and!; try done.
    intros Q. specialize (Hq Q). by inversion_clear Hq.
  - assert (Hq' : quiet = true -> Forall not_request evs)
      by (intros Q; specialize (Hq Q); by inversion_clear Hq).
    pose proof Hi as (He & Hk & Hf & Hm).
    destruct (encode_spec e frame g He) as (e1 & ops & r & -> & Hcase). cbn [mbind option_bind].
    assert (Hgo : run_inv e1 (mon_attempt m (exec_ops (m_next m) (m_slots m) ops).1 r) /\
      reads_last (mkAttempt (m_next m) (m_last m) (m_requested m)
        (exec_ops (m_next m) (m_slots m) ops).2 r)).
    { destruct Hcase as [(-> & -> & ->)|[(v & x & -> & -> & Hops)|(v & op & -> & -> & Hop & ->)]].
      - split; [done|constructor].
      - assert (Hi2 : forall slots, (forall s, e_prior_ref_slot e = Some s -> slots !! s = m_slots m !! s) ->
          run_inv (set_force (views_changed e v) false) (mon_attempt m slots (inr (step_error x)))).
        { intros slots Hsl. split_and!; [done|done|done|]. cbn. destruct (e_prior_ref_slot e) as [s|]; [|done].
          by rewrite (Hsl s eq_refl). }
        destruct Hops as [->|(op & -> & Hop)]; (split; [apply Hi2|]); cbn.
        + done.
        + constructor.
        + intros s Hs. by eapply exec_spares.
        + by eapply op_of_reads.
      - split; [|by eapply op_of_reads]. pose proof (setup_slot_range e He) as Hr.
        split_and!; cbn; [|by apply K_advance|done|].
        + split; [apply He|]. done.
        + destruct Hop as (Es & Ei & _). eexists _, _. split; [|split; [done|]].
          * unfold exec_op. rewrite Es. apply lookup_insert_eq.
          * rewrite Ei. by apply J_made. }
    destruct (exec_ops _ _ ops) as [slots l]. cbn in Hgo. destruct Hgo as [Hi1 Ha].
    destruct (IH _ _ Hi1 Hq') as (e' & m' & tr & -> & Hi' & Htr). cbn [mbind option_bind].
    eexists _, _, _. split; [reflexivity|]. split; [done|]. by constructor.
Qed.

Lemma new_run_inv (p : EncodeParams) sets dpb : length dpb = 2%nat -> run_inv (Enc_new p sets dpb) Mon_new.
Proof. intros Hd. by split_and!. Qed.

Lemma new_run_described p sets dpb evs :
  length dpb = 2%nat -> (quiet = true -> Forall not_request evs) ->
  exists e' m' tr, new_run p sets dpb evs = Some (e', m', tr) /\ Forall reads_last tr.
Proof.
  intros Hd Hq. destruct (enc_run_inv _ _ evs (new_run_inv p sets dpb Hd) Hq) as (e' & m' & tr & E & _ & Htr).
  by exists e', m', tr.
Qed.
End Described.

(** C23. For every backend, from a new encoder with its two
    slots, for every sequence of frames and keyframe requests and wherever the
    Vulkan calls fail: no call panics, and an operation that has a reference reads the
    slot it does not write, which holds the frame the last successful call
    returned; no failed attempt has overwritten it. *)
Theorem encoder_reads_last_frame (p : EncodeParams) sets dpb evs :
  length dpb = 2%nat ->
  exists e' m' tr, new_run p sets dpb evs = Some (e', m', tr) /\
    Forall (reads_last (fun _ _ => True)) tr.
Proof.
  intros Hd. apply (new_run_described (fun _ _ => True) (fun _ _ _ => True) (fun _ => True) false); done.
Qed.

(** ** Keyframes *)

(** What is promised of a returned frame. *)
Definition keyframe_ok (sets : list Z) (a : attempt) : Prop :=
  match at_result a with
  | inl f =>
      (at_last a = None \/ at_requested a = true -> ef_kind f = Idr) /\
      match ef_kind f with
      | Idr => ef_parameter_sets f = Some sets /\ Forall (fun '(op, _) => op_reference op = None) (at_ops a)
      | P => ef_parameter_sets f = None /\
          Forall (fun '(op, _) => is_Some (op_reference op)) (at_ops a) /\ at_last a <> None
      | _ => False
      end
  | inr _ => True
  end.

Definition key_inv (sets : list Z) (e : Enc X) (m : Mon) : Prop :=
  enc_ok e /\ e_parameter_sets e = sets /\
  (e_prior_ref_slot e = None <-> m_last m = None) /\ e_force_keyframe e = m_requested m.

Lemma encode_keyframe (e : Enc X) m frame g sets : key_inv sets e m ->
  exists e' ops r, encode e frame g = Some (e', ops, r) /\
    key_inv sets e' (mon_attempt m (exec_ops (m_next m) (m_slots m) ops).1 r) /\
    keyframe_ok sets (mkAttempt (m_next m) (m_last m) (m_requested m)
        (exec_ops (m_next m) (m_slots m) ops).2 r).
Proof.
  intros (He & Hs & Hl & Hq). destruct (encode_spec e frame g He) as (e1 & ops & r & -> & Hcase).
  exists e1, ops, r. split; [done|].
  destruct Hcase as [(-> & -> & ->)|[(v & x & -> & -> & Hops)|(v & op & -> & -> & Hop & ->)]].
  - by split.
  - split; [|done]. split_and!; [done|done|done|]. cbn. pose proof (step_error_not_size x). by repeat case_match.
  - split.
    + split_and!; [split; [apply He|by apply setup_slot_range]|done|by cbn|done].
    + destruct Hop as (_ & _ & _ & _ & Er & _). unfold keyframe_ok, frame_of. cbn.
      destruct (is_idr e) eqn:Ei; cbn.
      * split_and!; [done|by rewrite Hs|]. constructor; [|constructor]. by destruct (op_reference op).
      * unfold is_idr in Ei. apply orb_false_iff in Ei as [Ei1 Ei2].
        assert (Hp : e_prior_ref_slot e <> None).
        { intros Hn. destruct He as [_ He]. rewrite Hn in He. by rewrite He in Ei1. }
        split_and!; [intros [?|?]; [tauto|congruence]|done| |by rewrite <- Hl].
        constructor; [|constructor]. cbn in Er. destruct (op_reference op); [by eexists|]. cbn in Er. congruence.
Qed.

Lemma enc_run_keyframes (e : Enc X) m evs sets : key_inv sets e m ->
  forall e' m' tr, enc_run e m evs = Some (e', m', tr) -> Forall (keyframe_ok sets) tr.
Proof.
  revert e m. induction evs as [|[|frame g] evs IH]; intros e m Hi e' m' tr; cbn.
  - by intros [= _ _ <-].
  - apply IH. destruct Hi as (He & Hs & Hl & _). split; [exact He|by split_and!].
  - destruct (encode_keyframe e m frame g sets Hi) as (e1 & ops & r & -> & Hi1 & Ha). cbn [mbind option_bind].
    destruct (exec_ops _ _ ops) as [slots l]. cbn in *.
    destruct (enc_run e1 _ evs) as [[[e2 m2] tr2]|] eqn:E; [|done]. cbn. intros [= _ _ <-].
    constructor; [done|]. by eapply IH.
Qed.

(** C24. For every backend and in every run: the first frame returned is
    an IDR, and so is the frame of an attempt before which a keyframe was requested
    since the attempt before it, or before that one if it was refused for the size of
    its frame and so on (a request that an attempt which fails otherwise follows is
    lost with it, [keyframe_request_lost]); an IDR comes with the codec's parameter
    sets and reads no reference, and every other frame is a P frame without them that
    reads one. *)
Theorem encoder_keyframes (p : EncodeParams) sets dpb evs e' m' tr :
  length dpb = 2%nat -> new_run p sets dpb evs = Some (e', m', tr) ->
  Forall (keyframe_ok sets) tr.
Proof. intros Hd. apply enc_run_keyframes. by split_and!. Qed.
End Run.
Arguments Mon : clear implicits.
Arguments attempt : clear implicits.
