(* ===== verification/Codecs.v ===== *)
(** The three encoder backends ([crates/remoteway-encode/src/backends/{h264,h265,av1}.rs]):
    what each puts into its codec's structures, as instances of [Backend], and what
    that makes of the references and of the headers.

    The fields that do not depend on the frame are constants of the source and are
    left out, except those the others are read against (the number of bits of a
    counter, the cropping flag). *)

From stdpp Require Import gmap.
From S2P Require Import Prelude Encoder EncoderRun.

(** [as i32]. *)
Definition to_i32 (n : Z) : Z := to_signed 32 n.

Inductive pic_type := PicIdr | PicP.
Inductive slice_type := SliceI | SliceP.

Definition pic_type_of (idr : bool) : pic_type := if idr then PicIdr else PicP.
Definition slice_type_of (idr : bool) : slice_type := if idr then SliceI else SliceP.

(** [params_qp], the same in [h264.rs] and [h265.rs]. *)
Definition params_qp (p : EncodeParams) : Z :=
  match ep_rate_control p with ConstantQp qp => to_i32 qp | _ => 26 end.

(** The list of [n] entries with the reference first. *)
Definition ref_list (n : nat) (unused : Z) (reference : option Z) : list Z :=
  match reference with
  | Some prev => prev :: replicate (n - 1) unused
  | None => replicate n unused
  end.

(** ** H.264 *)

Module H264.
Record ReferenceInfo := mkReferenceInfo {
  primary_pic_type : pic_type; FrameNum : Z; PicOrderCnt : Z }.

Record PictureInfo := mkPictureInfo {
  IdrPicFlag : bool; pi_primary_pic_type : pic_type; pi_slice_type : slice_type;
  frame_num : Z; pi_PicOrderCnt : Z; RefPicList0 : list Z; constant_qp : Z }.

Definition pic_order_cnt (e : Enc unit) : Z := to_i32 (to_i32 (e_frame_index e) * 2).

Definition frame_num_of (e : Enc unit) (idr : bool) : Z :=
  if idr then 0 else Z.land (wrap 32 (e_frame_index e)) 0xF.

Definition picture_info (e : Enc unit) (idr : bool) (reference : option Z) : PictureInfo :=
  mkPictureInfo idr (pic_type_of idr) (slice_type_of idr) (frame_num_of e idr) (pic_order_cnt e)
    (ref_list 32 0xff (wrap 8 <$> reference)) (params_qp (e_params e)).

Definition setup_std_ref (e : Enc unit) (idr : bool) : ReferenceInfo :=
  mkReferenceInfo (pic_type_of idr) (frame_num_of e idr) (pic_order_cnt e).

Definition ref_std_ref (e : Enc unit) : ReferenceInfo :=
  mkReferenceInfo PicP (Z.land (wrap 32 (wrap 32 (e_frame_index e) - 1)) 0xF)
    (to_i32 (to_i32 (to_i32 (e_frame_index e) - 1) * 2)).

#[export] Instance backend : Backend ReferenceInfo PictureInfo unit := {|
  b_codec := Encoder.H264; b_extra_new := tt; b_sets := fun sets => sets;
  b_pic := picture_info; b_setup_info := setup_std_ref; b_ref_info := ref_std_ref;
  b_framed := fun bitstream => bitstream; b_advance := fun x => x |}.

(** [H264Encoder::encode]. *)
Definition encode : Enc unit -> InputFrame -> gpu_run -> option (Enc unit * list _ * (EncodedFrame + EncodeError)) :=
  Encoder.encode (Info:=ReferenceInfo) (Pic:=PictureInfo).

(** The dimensions, the counters' widths and the cropping of [build_sps]. *)
Record Sps := mkSps {
  log2_max_frame_num_minus4 : Z; log2_max_pic_order_cnt_lsb_minus4 : Z; max_num_ref_frames : Z;
  pic_width_in_mbs_minus1 : Z; pic_height_in_map_units_minus1 : Z;
  gaps_in_frame_num_value_allowed : bool; frame_cropping : bool }.

Definition build_sps (width height : Z) : Sps :=
  mkSps 0 4 1 (sat_sub (width / 16) 1) (sat_sub (height / 16) 1) false false.
End H264.

(** ** H.265 *)

Module H265.
Record ReferenceInfo := mkReferenceInfo { pic_type_ : pic_type; PicOrderCntVal : Z }.

Record PictureInfo := mkPictureInfo {
  IrapPicFlag : bool; short_term_ref_pic_set_sps_flag : bool; collocated_from_l0_flag : bool;
  pi_pic_type : pic_type; pi_slice_type : slice_type; pi_PicOrderCntVal : Z;
  RefPicList0 : list Z; constant_qp : Z }.

Definition pic_order_cnt (e : Enc unit) : Z := to_i32 (e_frame_index e).

Definition picture_info (e : Enc unit) (idr : bool) (reference : option Z) : PictureInfo :=
  mkPictureInfo idr (negb idr) (negb idr) (pic_type_of idr) (slice_type_of idr) (pic_order_cnt e)
    (ref_list 15 0xff (wrap 8 <$> reference)) (params_qp (e_params e)).

Definition setup_std_ref (e : Enc unit) (idr : bool) : ReferenceInfo :=
  mkReferenceInfo (pic_type_of idr) (pic_order_cnt e).

Definition ref_std_ref (e : Enc unit) : ReferenceInfo :=
  mkReferenceInfo PicP (to_i32 (to_i32 (e_frame_index e) - 1)).

#[export] Instance backend : Backend ReferenceInfo PictureInfo unit := {|
  b_codec := Encoder.H265; b_extra_new := tt; b_sets := fun sets => sets;
  b_pic := picture_info; b_setup_info := setup_std_ref; b_ref_info := ref_std_ref;
  b_framed := fun bitstream => bitstream; b_advance := fun x => x |}.

(** [H265Encoder::encode]. *)
Definition encode : Enc unit -> InputFrame -> gpu_run -> option (Enc unit * list _ * (EncodedFrame + EncodeError)) :=
  Encoder.encode (Info:=ReferenceInfo) (Pic:=PictureInfo).

(** The dimensions, the counter's width and the reference set of [build_sps]. *)
Record Sps := mkSps {
  log2_max_pic_order_cnt_lsb_minus4 : Z; pic_width_in_luma_samples : Z;
  pic_height_in_luma_samples : Z; conformance_window : bool; num_negative_pics : Z;
  delta_poc_s0_minus1 : Z }.

Definition build_sps (width height : Z) : Sps := mkSps 4 width height false 1 0.
End H265.

(** ** AV1 *)

Module Av1.
Inductive frame_type := KeyFrame | InterFrame.
Inductive prediction_mode := IntraOnly | SingleReference.
Inductive rc_group := GroupIntra | GroupPredictive.

Record ReferenceInfo := mkReferenceInfo { ri_frame_type : frame_type; OrderHint : Z }.

Record PictureInfo := mkPictureInfo {
  error_resilient_mode : bool; force_integer_mv : bool; show_frame : bool; showable_frame : bool;
  pi_frame_type : frame_type; order_hint : Z; primary_ref_frame : Z; refresh_frame_flags : Z;
  render_width_minus_1 : Z; render_height_minus_1 : Z; ref_order_hint : list Z;
  ref_frame_idx : list Z; reference_name_slot_indices : list Z;
  pi_prediction_mode : prediction_mode; pi_rc_group : rc_group; constant_q_index : Z }.

(** The backend's own counter, [e_extra], is the [order_hint]. *)
Definition STD_VIDEO_AV1_PRIMARY_REF_NONE : Z := 7.
Definition REFRESH_LAST_FRAME_ONLY : Z := 0x01.

Definition frame_type_of (key : bool) : frame_type := if key then KeyFrame else InterFrame.

Definition params_q_index (p : EncodeParams) : Z :=
  match ep_rate_control p with
  | ConstantQp qp => Z.min (Z.min (qp * 4) (2 ^ 32 - 1)) 255
  | _ => 128
  end.

Definition picture_info (e : Enc Z) (key : bool) (reference : option Z) : PictureInfo :=
  mkPictureInfo key key true (negb key) (frame_type_of key) (e_extra e)
    (if key then STD_VIDEO_AV1_PRIMARY_REF_NONE else 0)
    (if key then 0xff else REFRESH_LAST_FRAME_ONLY)
    (wrap 16 (wrap 32 (ep_width (e_params e) - 1))) (wrap 16 (wrap 32 (ep_height (e_params e) - 1)))
    (ref_list 8 0 ((fun _ => wrap 8 (e_extra e - 1)) <$> reference)) (replicate 7 0)
    (ref_list 7 (-1) (to_i32 <$> reference))
    (if key then IntraOnly else SingleReference) (if key then GroupIntra else GroupPredictive)
    (params_q_index (e_params e)).

Definition setup_std_ref (e : Enc Z) (key : bool) : ReferenceInfo :=
  mkReferenceInfo (frame_type_of key) (e_extra e).

Definition ref_std_ref (e : Enc Z) : ReferenceInfo := mkReferenceInfo InterFrame (wrap 8 (e_extra e - 1)).

(** Every temporal unit starts with a delimiter OBU: type 2 with a size, size 0. *)
Definition framed (bitstream : list Z) : list Z := [0x12; 0x00] ++ bitstream.

#[export] Instance backend : Backend ReferenceInfo PictureInfo Z := {|
  b_codec := Encoder.Av1; b_extra_new := 0; b_sets := framed;
  b_pic := picture_info; b_setup_info := setup_std_ref; b_ref_info := ref_std_ref;
  b_framed := framed; b_advance := fun order_hint => wrap 8 (order_hint + 1) |}.

(** [Av1Encoder::encode]. *)
Definition encode : Enc Z -> InputFrame -> gpu_run -> option (Enc Z * list _ * (EncodedFrame + EncodeError)) :=
  Encoder.encode (Info:=ReferenceInfo) (Pic:=PictureInfo).

(** [32 - leading_zeros] is the bit length. *)
Definition bit_length (v : Z) : Z := if v =? 0 then 0 else Z.log2 v + 1.

Definition bits_needed (value : Z) : Z := Z.max (bit_length (Z.max value 1 - 1)) 1.

(** The dimensions and the counter's width of [build_seq_header]. *)
Record SequenceHeader := mkSequenceHeader {
  frame_width_bits_minus_1 : Z; frame_height_bits_minus_1 : Z;
  max_frame_width_minus_1 : Z; max_frame_height_minus_1 : Z; order_hint_bits_minus_1 : Z }.

Definition build_seq_header (width height : Z) : SequenceHeader :=
  mkSequenceHeader (wrap 8 (bits_needed width - 1)) (wrap 8 (bits_needed height - 1))
    (wrap 16 (wrap 32 (width - 1))) (wrap 16 (wrap 32 (height - 1))) 7.
End Av1.

(** ** The counters *)

Lemma to_i32_ext a b : a mod 2 ^ 32 = b mod 2 ^ 32 -> to_i32 a = to_i32 b.
Proof. unfold to_i32, to_signed, wrap. by intros ->. Qed.

Lemma to_i32_mod a : to_i32 a mod 2 ^ 32 = a mod 2 ^ 32.
Proof.
  unfold to_i32, to_signed, wrap. destruct (_ <? _); [by rewrite Z.mod_mod by lia|].
  rewrite Zminus_mod, Z_mod_same_full, Z.sub_0_r, !Z.mod_mod by lia. done.
Qed.

Lemma wrap64_mod32 a : wrap 64 a mod 2 ^ 32 = a mod 2 ^ 32.
Proof.
  unfold wrap. apply Z.mod_mod_divide. by exists (2 ^ 32).
Qed.

(** One less than the next index is the index. *)
Lemma prev_index fi : (to_i32 (wrap 64 (fi + 1)) - 1) mod 2 ^ 32 = fi mod 2 ^ 32.
Proof.
  rewrite Zminus_mod, to_i32_mod, wrap64_mod32, <- Zminus_mod. f_equal. lia.
Qed.

Lemma land_15 a : Z.land a 15 = a mod 16.
Proof. change 15 with (Z.ones 4). by rewrite Z.land_ones by lia. Qed.

Lemma mod32_mod16 a b : a mod 2 ^ 32 = b mod 2 ^ 32 -> a mod 16 = b mod 16.
Proof.
  intros E. rewrite <- (Z.mod_mod_divide a (2 ^ 32) 16), <- (Z.mod_mod_divide b (2 ^ 32) 16), E;
    [done|by exists (2 ^ 28)..].
Qed.

(** ** References *)

(** C25. What an operation says of its reference is what was said of that
    picture when it was encoded: for AV1 its order hint, for H.265 its picture order
    count, for H.264 its picture order count, in every run and past the wrap of the
    counters; and for H.264 its frame number in the runs without a keyframe
    request. *)
Theorem references_described p sets dpb evs :
  length dpb = 2%nat ->
  (exists e m tr, new_run (Hb:=Av1.backend) p sets dpb evs = Some (e, m, tr) /\
     Forall (reads_last (fun said made => Av1.OrderHint said = Av1.OrderHint made)) tr) /\
  (exists e m tr, new_run (Hb:=H265.backend) p sets dpb evs = Some (e, m, tr) /\
     Forall (reads_last (fun said made => H265.PicOrderCntVal said = H265.PicOrderCntVal made)) tr) /\
  (exists e m tr, new_run (Hb:=H264.backend) p sets dpb evs = Some (e, m, tr) /\
     Forall (reads_last (fun said made => H264.PicOrderCnt said = H264.PicOrderCnt made)) tr) /\
  (Forall not_request evs ->
   exists e m tr, new_run (Hb:=H264.backend) p sets dpb evs = Some (e, m, tr) /\
     Forall (reads_last (fun said made => H264.FrameNum said = H264.FrameNum made)) tr).
Proof.
  intros Hd. split_and!.
  - apply (new_run_described (Hb:=Av1.backend) _
      (fun _ x rec => wrap 8 (x - 1) = Av1.OrderHint rec) (fun x => fits 8 x) false); try done.
    + intros x _. by apply wrap_fits.
    + intros e Hk _. cbn. unfold wrap, fits in *. rewrite Zminus_mod_idemp_l.
      rewrite Z.add_simpl_r. by apply Z.mod_small.
  - apply (new_run_described (Hb:=H265.backend) _
      (fun fi _ rec => to_i32 (to_i32 fi - 1) = H265.PicOrderCntVal rec) (fun _ => True) false); try done.
    intros e _ _. cbn. apply to_i32_ext, prev_index.
  - apply (new_run_described (Hb:=H264.backend) _
      (fun fi _ rec => to_i32 (to_i32 (to_i32 fi - 1) * 2) = H264.PicOrderCnt rec) (fun _ => True) false); try done.
    intros e _ _. cbn. unfold H264.pic_order_cnt. apply to_i32_ext.
    rewrite Zmult_mod, (Zmult_mod (to_i32 (e_frame_index e))), !to_i32_mod, prev_index. done.
  - intros Hq. apply (new_run_described (Hb:=H264.backend) _
      (fun fi _ rec => Z.land (wrap 32 (wrap 32 fi - 1)) 0xF = H264.FrameNum rec) (fun _ => True) true); try done.
    intros e _ Hf. cbn. unfold H264.frame_num_of, is_idr. rewrite (Hf eq_refl), orb_false_r, !land_15.
    transitivity (e_frame_index e mod 16).
    + apply mod32_mod16. unfold wrap at 1. rewrite Z.mod_mod by lia. unfold wrap at 1.
      rewrite Zminus_mod_idemp_l, Zminus_mod, wrap64_mod32, <- Zminus_mod. f_equal. lia.
    + destruct (Z.eqb_spec (e_frame_index e) 0) as [->|]; [done|]. apply mod32_mod16. unfold wrap.
      by rewrite Z.mod_mod by lia.
Qed.

(** ** Frame numbers *)

(** H.264 wants the frame number of a P picture to be one more, modulo
    16, than the one of the picture before it. That holds after every success, except
    after a keyframe at an index that is not a multiple of 16: a requested keyframe
    restarts the numbers at 0, and the next P picture goes on from the index. *)
Theorem h264_frame_num_step (e : Enc unit) v : fits 64 (e_frame_index e) ->
  H264.frame_num_of (advanced (Hb:=H264.backend) e v) false =
    (H264.frame_num_of e (is_idr e) + 1) mod 16 <->
  is_idr e = false \/ e_frame_index e mod 16 = 0.
Proof.
  intros Hf. unfold H264.frame_num_of. cbn [e_frame_index advanced]. rewrite !land_15.
  assert (E : wrap 32 (wrap 64 (e_frame_index e + 1)) mod 16 = (e_frame_index e mod 16 + 1) mod 16).
  { rewrite Zplus_mod_idemp_l. apply mod32_mod16. unfold wrap at 1. rewrite Z.mod_mod by lia.
    apply wrap64_mod32. }
  rewrite E. destruct (is_idr e).
  - pose proof (Z.mod_pos_bound (e_frame_index e) 16 ltac:(lia)) as B.
    set (r := e_frame_index e mod 16) in *. split; [|intros [?|Hr]; [done|by rewrite Hr]].
    intros Hm. right. change ((0 + 1) mod 16) with 1 in Hm.
    destruct (decide (r = 15)) as [->|]; [done|]. rewrite Z.mod_small in Hm by lia. lia.
  - split; [by left|]. intros _.
    rewrite (mod32_mod16 (wrap 32 (e_frame_index e)) (e_frame_index e)); [done|].
    unfold wrap. by rewrite Z.mod_mod by lia.
Qed.

Definition demo_params (codec : VideoCodec) : EncodeParams :=
  mkEncodeParams codec 1920 1080 (60, 1) (ConstantQp 26) None.
Definition demo_dpb : list DpbSlot := [mkDpbSlot 1 2 3; mkDpbSlot 4 5 6].
Definition demo_gpu (fails : gpu_step -> bool) : gpu_run := mkGpuRun fails 9 3 (replicate 8 7).
Definition demo_attempt (fails : gpu_step -> bool) : enc_event :=
  Attempt (mkInputFrame 100 1920 1080 0) (demo_gpu fails).
Definition all_fine : gpu_step -> bool := fun _ => false.
Definition submit_fails : gpu_step -> bool := fun s => match s with QueueSubmit => true | _ => false end.
Definition wait_fails : gpu_step -> bool := fun s => match s with WaitForFences => true | _ => false end.

Definition demo_encoder : Enc unit :=
  mkEnc (demo_params Encoder.H264) [] demo_dpb (Some 0) 5 false ∅ tt.

Lemma h264_frame_num_step_witness :
  H264.frame_num_of (advanced (Hb:=H264.backend) demo_encoder ∅) false =
    (H264.frame_num_of demo_encoder (is_idr demo_encoder) + 1) mod 16 <->
  is_idr demo_encoder = false \/ e_frame_index demo_encoder mod 16 = 0.
Proof. apply h264_frame_num_step. unfold fits. cbn. lia. Defined.

(** A keyframe requested at index 5 has frame number 0, the P picture after it 6. *)
Example h264_requested_keyframe_gap :
  (H264.frame_num_of (set_force demo_encoder true) true,
   H264.frame_num_of (advanced (Hb:=H264.backend) (set_force demo_encoder true) ∅) false) = (0, 6).
Proof. reflexivity. Qed.

(** The same keyframe in H.265 carries the picture order count 5, where an IDR's is
    0 for the decoder, and the next picture refers to the count 5. *)
Example h265_requested_keyframe_poc :
  (H265.pi_PicOrderCntVal (H265.picture_info (set_force demo_encoder true) true None),
   H265.PicOrderCntVal (H265.ref_std_ref (advanced (Hb:=H265.backend) (set_force demo_encoder true) ∅)))
  = (5, 5).
Proof. reflexivity. Qed.

(** ** Runs *)

Definition demo_run : list enc_event :=
  [demo_attempt all_fine; demo_attempt wait_fails; demo_attempt all_fine; Request; demo_attempt all_fine].

Lemma encoder_reads_last_frame_witness :
  exists e' m' tr, new_run (Hb:=H264.backend) (demo_params Encoder.H264) [1; 2] demo_dpb demo_run
    = Some (e', m', tr) /\ Forall (reads_last (fun _ _ => True)) tr.
Proof. apply (encoder_reads_last_frame (Hb:=H264.backend)). reflexivity. Defined.

Lemma encoder_keyframes_witness :
  match new_run (Hb:=H264.backend) (demo_params Encoder.H264) [1; 2] demo_dpb demo_run with
  | Some (_, _, tr) => Forall (keyframe_ok [1; 2]) tr
  | None => False
  end.
Proof.
  destruct (new_run (Hb:=H264.backend) (demo_params Encoder.H264) [1; 2] demo_dpb demo_run)
    as [[[e m] tr]|] eqn:E; [|vm_compute in E; discriminate E].
  exact (encoder_keyframes (demo_params Encoder.H264) [1; 2] demo_dpb demo_run e m tr eq_refl E).
Defined.

Lemma references_described_witness :
  exists e m tr, new_run (Hb:=Av1.backend) (demo_params Encoder.Av1) [1; 2] demo_dpb demo_run
    = Some (e, m, tr) /\ Forall (reads_last (fun said made => Av1.OrderHint said = Av1.OrderHint made)) tr.
Proof. apply (references_described (demo_params Encoder.Av1) [1; 2] demo_dpb demo_run). reflexivity. Defined.

Definition kinds {Info Pic} (o : option (Enc unit * Mon Info * list (attempt Info Pic))) : list (option FrameKind) :=
  match o with
  | Some (_, _, tr) => (fun a => match at_result a with inl f => Some (ef_kind f) | inr _ => None end) <$> tr
  | None => []
  end.

(** A requested keyframe is lost when the attempt that was to make it fails. *)
Example keyframe_request_lost :
  kinds (new_run (Hb:=H264.backend) (demo_params Encoder.H264) [] demo_dpb
    [demo_attempt all_fine; Request; demo_attempt submit_fails; demo_attempt all_fine]) =
  [Some Idr; None; Some P].
Proof. by vm_compute. Qed.

(** ** Headers *)

(** The size the H.264 sequence parameters give, in macroblocks of 16
    without cropping, never exceeds the session's, and is the session's exactly when
    both dimensions are multiples of 16. *)
Theorem h264_sps_dimensions w h : 16 <= w -> 16 <= h ->
  let s := H264.build_sps w h in
  let cw := 16 * (H264.pic_width_in_mbs_minus1 s + 1) in
  let ch := 16 * (H264.pic_height_in_map_units_minus1 s + 1) in
  w - 16 < cw <= w /\ h - 16 < ch <= h /\ (cw = w /\ ch = h <-> (16 | w) /\ (16 | h)).
Proof.
  intros Hw Hh. cbn. unfold sat_sub.
  assert (D : forall a, 16 <= a -> 16 * (Z.max 0 (a / 16 - 1) + 1) = a - a mod 16).
  { intros a Ha. pose proof (Z.div_mod a 16 ltac:(lia)) as E. pose proof (Z.div_le_mono 16 a 16 ltac:(lia) Ha).
    change (16 / 16) with 1 in *. lia. }
  rewrite !D by done.
  pose proof (Z.mod_pos_bound w 16 ltac:(lia)). pose proof (Z.mod_pos_bound h 16 ltac:(lia)).
  rewrite <- !Z.mod_divide by lia. split_and!; lia.
Qed.

Lemma h264_sps_dimensions_witness :
  let s := H264.build_sps 1920 1080 in
  let cw := 16 * (H264.pic_width_in_mbs_minus1 s + 1) in
  let ch := 16 * (H264.pic_height_in_map_units_minus1 s + 1) in
  1920 - 16 < cw <= 1920 /\ 1080 - 16 < ch <= 1080 /\
  (cw = 1920 /\ ch = 1080 <-> (16 | 1920) /\ (16 | 1080)).
Proof. apply (h264_sps_dimensions 1920 1080); lia. Defined.

(** At 1080p the last eight rows are not coded. *)
Example h264_1080_is_1072 :
  16 * (H264.pic_height_in_map_units_minus1 (H264.build_sps 1920 1080) + 1) = 1072.
Proof. reflexivity. Qed.

Lemma bits_needed_spec v : 1 <= v -> v - 1 < 2 ^ Av1.bits_needed v /\ 1 <= Av1.bits_needed v /\
  (2 <= v -> 2 ^ (Av1.bits_needed v - 1) < 2 * v).
Proof.
  intros Hv. unfold Av1.bits_needed, Av1.bit_length. rewrite (Z.max_l v 1) by lia.
  destruct (Z.eqb_spec (v - 1) 0) as [E|]; [split_and!; [rewrite E; reflexivity|lia|]|].
  { intros Hv2. lia. }
  pose proof (Z.log2_spec (v - 1) ltac:(lia)) as [L1 L2].
  pose proof (Z.log2_nonneg (v - 1)). rewrite Z.max_l by lia.
  split_and!; [|lia|]; [by rewrite <- Z.add_1_r in L2|].
  intros _. rewrite Z.add_simpl_r. lia.
Qed.

(** For every size AV1 can have, the sequence header gives it back:
    the fields are the dimensions less one, and fit the numbers of bits the header
    declares for them, which fit their four-bit fields. *)
Theorem av1_header_dimensions w h : 1 <= w <= 2 ^ 16 -> 1 <= h <= 2 ^ 16 ->
  let s := Av1.build_seq_header w h in
  Av1.max_frame_width_minus_1 s + 1 = w /\ Av1.max_frame_height_minus_1 s + 1 = h /\
  Av1.max_frame_width_minus_1 s < 2 ^ (Av1.frame_width_bits_minus_1 s + 1) /\
  Av1.max_frame_height_minus_1 s < 2 ^ (Av1.frame_height_bits_minus_1 s + 1) /\
  0 <= Av1.frame_width_bits_minus_1 s < 16 /\ 0 <= Av1.frame_height_bits_minus_1 s < 16.
Proof.
  intros Hw Hh. cbn.
  assert (D : forall v, 1 <= v <= 2 ^ 16 -> wrap 16 (wrap 32 (v - 1)) = v - 1 /\
    wrap 8 (Av1.bits_needed v - 1) = Av1.bits_needed v - 1 /\ 0 <= Av1.bits_needed v - 1 < 16 /\
    v - 1 < 2 ^ Av1.bits_needed v).
  { intros v Hv. destruct (bits_needed_spec v ltac:(lia)) as (B1 & B2 & B3).
    assert (B4 : Av1.bits_needed v - 1 < 16).
    { destruct (decide (v = 1)) as [->|]; [done|]. specialize (B3 ltac:(lia)).
      apply (Z.pow_lt_mono_r_iff 2); [lia..|]. 
      destruct (Z.lt_ge_cases (2 ^ (Av1.bits_needed v - 1)) (2 ^ 16)) as [|Hge]; [done|].
      unfold Av1.bits_needed, Av1.bit_length in *. rewrite (Z.max_l v 1) in * by lia.
      rewrite (proj2 (Z.eqb_neq (v - 1) 0)) in * by lia.
      pose proof (Z.log2_spec (v - 1) ltac:(lia)) as [L1 L2]. pose proof (Z.log2_nonneg (v - 1)).
      rewrite Z.max_l, Z.add_simpl_r in * by lia. lia. }
    split_and!; [|apply wrap_small; unfold fits; lia|lia|lia|done].
    rewrite (wrap_small 32) by (unfold fits; lia). apply wrap_small. unfold fits. lia. }
  destruct (D w Hw) as (-> & -> & W1 & W2), (D h Hh) as (-> & -> & H1 & H2).
  rewrite !Z.sub_add. split_and!; try lia.
Qed.

Lemma av1_header_dimensions_witness :
  let s := Av1.build_seq_header 1920 1080 in
  Av1.max_frame_width_minus_1 s + 1 = 1920 /\ Av1.max_frame_height_minus_1 s + 1 = 1080 /\
  Av1.max_frame_width_minus_1 s < 2 ^ (Av1.frame_width_bits_minus_1 s + 1) /\
  Av1.max_frame_height_minus_1 s < 2 ^ (Av1.frame_height_bits_minus_1 s + 1) /\
  0 <= Av1.frame_width_bits_minus_1 s < 16 /\ 0 <= Av1.frame_height_bits_minus_1 s < 16.
Proof. apply (av1_header_dimensions 1920 1080); lia. Defined.

(** The quantiser the H.264 and H.265 backends pass on is the one validated, up to
    255; those codecs end at 51. *)
Example qp_not_bounded_by_codec :
  params_qp (mkEncodeParams Encoder.H264 1920 1080 (60, 1) (ConstantQp 255) None) = 255.
Proof. reflexivity. Qed.
