(* ===== verification/DesktopDetect.v ===== *)
(** Finding the desktop and its session from outside it
    ([crates/remoteway-capture/src/desktop_detect.rs]).

    The operating system is data: the process table with each process's [comm]
    and [environ], directory listings, and the answers of [loginctl].  The
    process environment is a finite map.  Text is UTF-8 bytes; case and white
    space are those of ASCII. *)

From Stdlib Require Import String Ascii.
From S2P Require Import Prelude.
#[local] Open Scope Z_scope.

(** ** Text *)

Definition text : Type := list Z.

Fixpoint str (s : string) : text :=
  match s with
  | EmptyString => []
  | String a s => Z.of_N (N_of_ascii a) :: str s
  end.

Definition lower (c : Z) : Z := if (65 <=? c) && (c <=? 90) then c + 32 else c.
Definition to_lowercase (s : text) : text := lower <$> s.

Definition is_space (c : Z) : bool := (c =? 32) || ((9 <=? c) && (c <=? 13)).

Fixpoint drop_while (p : Z -> bool) (s : text) : text :=
  match s with c :: t => if p c then drop_while p t else s | [] => [] end.

Definition trim (s : text) : text := rev (drop_while is_space (rev (drop_while is_space s))).

(** [s.split(c)]. *)
Fixpoint split_on (c : Z) (s : text) : list text :=
  match s with
  | [] => [[]]
  | x :: s =>
      if x =? c then [] :: split_on c s
      else match split_on c s with p :: ps => (x :: p) :: ps | [] => [[x]] end
  end.

Fixpoint strip_prefix (p s : text) : option text :=
  match p, s with
  | [], _ => Some s
  | a :: p, b :: s => if a =? b then strip_prefix p s else None
  | _ :: _, [] => None
  end.

Definition starts_with (s p : text) : bool := bool_decide (is_Some (strip_prefix p s)).
Definition ends_with (s p : text) : bool := starts_with (rev s) (rev p).

Fixpoint contains (s p : text) : bool :=
  starts_with s p || match s with _ :: s => contains s p | [] => false end.

(** [str::lines]: a line ends with a newline, and a carriage return before it;
    an unfinished last line stands as it is. *)
Definition strip_cr (l : text) : text :=
  match rev l with 13 :: r => rev r | _ => l end.

Fixpoint finish_lines (ps : list text) : list text :=
  match ps with
  | [] => []
  | [p] => if decide (p = []) then [] else [p]
  | p :: ps => strip_cr p :: finish_lines ps
  end.

Definition lines (s : text) : list text := finish_lines (split_on 10 s).

(** [split_whitespace().next()]. *)
Fixpoint take_word (s : text) : text :=
  match s with c :: s => if is_space c then [] else c :: take_word s | [] => [] end.

Definition first_word (s : text) : option text :=
  match drop_while is_space s with [] => None | t => Some (take_word t) end.

(** [std::str::from_utf8]. *)
Definition cont (b : Z) : bool := (128 <=? b) && (b <=? 191).
Definition between (lo hi b : Z) : bool := (lo <=? b) && (b <=? hi).

Definition three_ok (a b : Z) : bool :=
  ((a =? 224) && between 160 191 b) || (between 225 236 a && cont b) ||
  ((a =? 237) && between 128 159 b) || (between 238 239 a && cont b).

Definition four_ok (a b : Z) : bool :=
  ((a =? 240) && between 144 191 b) || (between 241 243 a && cont b) ||
  ((a =? 244) && between 128 143 b).

Fixpoint utf8_valid (s : text) : bool :=
  match s with
  | [] => true
  | a :: s =>
      if a <? 128 then utf8_valid s
      else match s with
      | [] => false
      | b :: s =>
          if between 194 223 a && cont b then utf8_valid s
          else match s with
          | [] => false
          | c :: s =>
              if three_ok a b && cont c then utf8_valid s
              else match s with
              | [] => false
              | d :: s => four_ok a b && cont c && cont d && utf8_valid s
              end
          end
      end
  end.

(** ** Desktops *)

Inductive DesktopEnvironment := Gnome | Kde | Wlroots | Unknown.

#[export] Instance DesktopEnvironment_eq_dec : EqDecision DesktopEnvironment.
Proof. solve_decision. Defined.

Definition needs_portal (de : DesktopEnvironment) : bool :=
  match de with Gnome | Kde => true | _ => false end.

Definition has_wlr_protocols (de : DesktopEnvironment) : bool :=
  match de with Wlroots => true | _ => false end.

Definition DesktopEnvironment_fmt (de : DesktopEnvironment) : text :=
  match de with
  | Gnome => str "GNOME" | Kde => str "KDE" | Wlroots => str "wlroots" | Unknown => str "unknown"
  end.

Definition one_of (s : text) (names : list string) : bool :=
  existsb (fun n => bool_decide (s = str n)) names.

(** One component of [XDG_CURRENT_DESKTOP]. *)
Definition of_component (c : text) : option DesktopEnvironment :=
  let trimmed := trim c in
  if one_of trimmed ["gnome"%string] then Some Gnome
  else if one_of trimmed ["kde"%string] then Some Kde
  else if one_of trimmed ["sway"; "hyprland"; "river"; "wayfire"; "niri"]%string then Some Wlroots
  else None.

Fixpoint first_some {A B} (f : A -> option B) (l : list A) : option B :=
  match l with
  | [] => None
  | a :: l => match f a with Some b => Some b | None => first_some f l end
  end.

Definition of_session (session : text) : option DesktopEnvironment :=
  let lower := to_lowercase session in
  if contains lower (str "gnome") then Some Gnome
  else if contains lower (str "kde") || contains lower (str "plasma") then Some Kde
  else if contains lower (str "sway") || contains lower (str "hyprland") then Some Wlroots
  else None.

Definition detect_from_env (xdg_current_desktop xdg_session_desktop : option text)
    : DesktopEnvironment :=
  let current := desktop ← xdg_current_desktop;
                 first_some of_component (split_on 58 (to_lowercase desktop)) in
  match current with
  | Some de => de
  | None => match xdg_session_desktop ≫= of_session with Some de => de | None => Unknown end
  end.

(** ** The system *)

Record ProcEntry := mkProcEntry {
  pe_name : text; pe_comm : option text; pe_environ : option (list Z)
}.

Record System := mkSystem {
  sys_proc : option (list ProcEntry);              (** [/proc] *)
  sys_read_dir : text -> option (list (text * bool)); (** names, and whether a socket *)
  sys_exists : text -> bool;
  sys_loginctl : list text -> option (bool * text) (** success and output *)
}.

Definition COMPOSITOR_PROCESSES : list (text * DesktopEnvironment) :=
  [(str "gnome-shell", Gnome); (str "gnome-session-b", Gnome); (str "kwin_wayland", Kde);
   (str "plasmashell", Kde); (str "sway", Wlroots); (str "Hyprland", Wlroots);
   (str "hyprland", Wlroots); (str "river", Wlroots); (str "wayfire", Wlroots);
   (str "niri", Wlroots)].

Definition is_digits (s : text) : bool := forallb (fun b => (48 <=? b) && (b <=? 57)) s.

(** The [comm] of a [/proc] entry the scans look at. *)
Definition proc_comm (e : ProcEntry) : option text :=
  if is_digits (pe_name e) then trim <$> pe_comm e else None.

Definition compositor_of (comm : text) : option DesktopEnvironment :=
  first_some (fun p => if decide (comm = p.1) then Some p.2 else None) COMPOSITOR_PROCESSES.

Definition detect_from_processes (sys : System) : option DesktopEnvironment :=
  entries ← sys_proc sys;
  first_some (fun e => comm ← proc_comm e; compositor_of comm) entries.

(** [Type=] and [Desktop=] of a [show-session] answer. *)
Definition session_props (out : text) : bool * option text :=
  foldl (fun st line =>
    let st := match strip_prefix (str "Type=") line with
      | Some v => (bool_decide (v = str "wayland") || bool_decide (v = str "x11"), st.2)
      | None => st end in
    match strip_prefix (str "Desktop=") line with
    | Some v => if decide (v = []) then st else (st.1, Some v)
    | None => st end) (false, None) (lines out).

Fixpoint login_sessions (sys : System) (ls : list text) : option DesktopEnvironment :=
  match ls with
  | [] => None
  | line :: ls =>
      session_id ← first_word line;
      '(ok, out) ← sys_loginctl sys [str "show-session"; session_id; str "--property=Type";
                                      str "--property=Desktop"];
      if ok : bool then
        let '(is_graphical, desktop) := session_props out in
        match (if is_graphical : bool then desktop else None) with
        | Some d =>
            let result := detect_from_env (Some d) None in
            if decide (result = Unknown) then login_sessions sys ls else Some result
        | None => login_sessions sys ls
        end
      else login_sessions sys ls
  end.

Definition detect_from_loginctl (sys : System) : option DesktopEnvironment :=
  '(ok, out) ← sys_loginctl sys [str "list-sessions"; str "--no-legend"; str "--no-pager"];
  if ok : bool then login_sessions sys (lines out) else None.

Notation env_map := (gmap text text).

Definition XDG_CURRENT_DESKTOP : text := str "XDG_CURRENT_DESKTOP".
Definition XDG_SESSION_DESKTOP : text := str "XDG_SESSION_DESKTOP".
Definition WAYLAND_DISPLAY : text := str "WAYLAND_DISPLAY".
Definition XDG_RUNTIME_DIR : text := str "XDG_RUNTIME_DIR".
Definition DBUS_ADDRESS : text := str "DBUS_SESSION_BUS_ADDRESS".

Definition detect_desktop (sys : System) (env : env_map) : DesktopEnvironment :=
  let result := detect_from_env (env !! XDG_CURRENT_DESKTOP) (env !! XDG_SESSION_DESKTOP) in
  if decide (result = Unknown) then
    match detect_from_loginctl sys with
    | Some de => de
    | None => match detect_from_processes sys with Some de => de | None => Unknown end
    end
  else result.

(** ** Inheriting the session's environment *)

Definition is_compositor (e : ProcEntry) : bool :=
  match proc_comm e with
  | Some comm => existsb (fun p => bool_decide (comm = p.1)) COMPOSITOR_PROCESSES
  | None => false
  end.

(** The variables of an [environ] block that are valid UTF-8. *)
Definition environ_vars (raw : list Z) : list text := filter (fun v => utf8_valid v = true) (split_on 0 raw).

Definition dbus_of (e : ProcEntry) : option text :=
  if is_compositor e then
    raw ← pe_environ e;
    first_some (strip_prefix (str "DBUS_SESSION_BUS_ADDRESS=")) (environ_vars raw)
  else None.

Definition inherit_dbus_from_compositor (sys : System) (env : env_map) : env_map :=
  match entries ← sys_proc sys; first_some dbus_of entries with
  | Some v => <[DBUS_ADDRESS := v]> env
  | None => env
  end.

(** [Path::new(dir).join("bus")]. *)
Definition join_bus (dir : text) : text :=
  if decide (dir = []) then str "bus"
  else if ends_with dir (str "/") then dir ++ str "bus" else dir ++ str "/bus".

Definition try_inherit_dbus_env (sys : System) (env : env_map) : env_map :=
  match env !! DBUS_ADDRESS with
  | Some _ => env
  | None =>
      let env := inherit_dbus_from_compositor sys env in
      match env !! DBUS_ADDRESS with
      | Some _ => env
      | None =>
          match env !! XDG_RUNTIME_DIR with
          | Some dir =>
              let bus_path := join_bus dir in
              if sys_exists sys bus_path then <[DBUS_ADDRESS := str "unix:path=" ++ bus_path]> env
              else env
          | None => env
          end
      end
  end.

(** The three variables of a compositor: the last of each wins. *)
Record SessionVars := mkSessionVars {
  sv_display : option text; sv_runtime : option text; sv_dbus : option text
}.

Definition read_var (s : SessionVars) (v : text) : SessionVars :=
  match strip_prefix (str "WAYLAND_DISPLAY=") v with
  | Some x => mkSessionVars (Some x) (sv_runtime s) (sv_dbus s)
  | None =>
      match strip_prefix (str "XDG_RUNTIME_DIR=") v with
      | Some x => mkSessionVars (sv_display s) (Some x) (sv_dbus s)
      | None =>
          match strip_prefix (str "DBUS_SESSION_BUS_ADDRESS=") v with
          | Some x => mkSessionVars (sv_display s) (sv_runtime s) (Some x)
          | None => s
          end
      end
  end.

Definition session_vars (raw : list Z) : SessionVars :=
  foldl read_var (mkSessionVars None None None) (environ_vars raw).

(** [set_var] unless it is set. *)
Definition set_absent (k : text) (v : option text) (env : env_map) : env_map :=
  match v, env !! k with Some v, None => <[k := v]> env | _, _ => env end.

Definition compositor_session (e : ProcEntry) : option (text * SessionVars) :=
  if is_compositor e then
    raw ← pe_environ e;
    let s := session_vars raw in
    d ← sv_display s; Some (d, s)
  else None.

Definition inherit_compositor_env (sys : System) (env : env_map) : env_map * bool :=
  match entries ← sys_proc sys; first_some compositor_session entries with
  | Some (d, s) =>
      (set_absent DBUS_ADDRESS (sv_dbus s)
         (set_absent XDG_RUNTIME_DIR (sv_runtime s) (<[WAYLAND_DISPLAY := d]> env)), true)
  | None => (env, false)
  end.

Definition is_wayland_socket (entry : text * bool) : bool :=
  starts_with entry.1 (str "wayland-") && negb (ends_with entry.1 (str ".lock")) && entry.2.

Definition find_wayland_socket (sys : System) (runtime_dir : text) : option text :=
  entries ← sys_read_dir sys runtime_dir;
  first_some (fun e => if is_wayland_socket e then Some e.1 else None) entries.

Definition ensure_wayland_env (sys : System) (env : env_map) : env_map * bool :=
  let env := try_inherit_dbus_env sys env in
  match env !! WAYLAND_DISPLAY with
  | Some _ => (env, true)
  | None =>
      let '(env, found) := inherit_compositor_env sys env in
      if found : bool then (env, true)
      else match runtime_dir ← env !! XDG_RUNTIME_DIR; find_wayland_socket sys runtime_dir with
      | Some d => (<[WAYLAND_DISPLAY := d]> env, true)
      | None => (env, false)
      end
  end.

(** ** Lemmas *)

Lemma first_some_None {A B} (f : A -> option B) l :
  first_some f l = None <-> Forall (fun a => f a = None) l.
Proof.
  induction l as [|a l IH]; cbn; [by split; [constructor|]|].
  destruct (f a) eqn:E; [split; [done|intros Hf; inversion Hf; congruence]|].
  rewrite IH. split; [by constructor|by inversion 1].
Qed.

Lemma first_some_Some {A B} (f : A -> option B) l b :
  first_some f l = Some b -> exists a, a ∈ l /\ f a = Some b.
Proof.
  induction l as [|a l IH]; cbn; [done|]. destruct (f a) eqn:E.
  - intros [= <-]. exists a. split; [constructor|done].
  - intros (x & Hx & Hf)%IH. exists x. split; [by constructor|done].
Qed.

Lemma lower_idemp c : lower (lower c) = lower c.
Proof.
  unfold lower. destruct ((65 <=? c) && (c <=? 90)) eqn:E; [|by rewrite E].
  apply andb_true_iff in E as [E1%Z.leb_le E2%Z.leb_le].
  rewrite (proj2 (Z.leb_gt (c + 32) 90)) by lia. by rewrite andb_false_r.
Qed.

Lemma to_lowercase_idemp s : to_lowercase (to_lowercase s) = to_lowercase s.
Proof. unfold to_lowercase. rewrite <- list_fmap_compose. apply list_fmap_ext. intros. apply lower_idemp. Qed.

Lemma of_component_known c de : of_component c = Some de -> de <> Unknown.
Proof. unfold of_component. repeat case_match; congruence. Qed.

Lemma of_session_known c de : of_session c = Some de -> de <> Unknown.
Proof. unfold of_session. repeat case_match; congruence. Qed.

Lemma compositor_of_spec comm :
  compositor_of comm = None <-> existsb (fun p => bool_decide (comm = p.1)) COMPOSITOR_PROCESSES = false.
Proof.
  unfold compositor_of. induction COMPOSITOR_PROCESSES as [|p l IH]; [done|]. cbn.
  destruct (decide (comm = p.1)) as [E|E].
  - by rewrite bool_decide_true.
  - rewrite bool_decide_false by done. exact IH.
Qed.

Lemma compositor_of_known comm de : compositor_of comm = Some de -> de <> Unknown.
Proof.
  unfold compositor_of. intros (p & Hp & E)%first_some_Some. case_decide; [|done]. injection E as <-.
  assert (F : Forall (fun p => p.2 <> Unknown) COMPOSITOR_PROCESSES) by (repeat constructor; done).
  rewrite list.Forall_forall in F. by apply F.
Qed.

Lemma proc_compositor e : (comm ← proc_comm e; compositor_of comm) = None <-> is_compositor e = false.
Proof.
  unfold is_compositor. destruct (proc_comm e) as [comm|]; [|done]. exact (compositor_of_spec comm).
Qed.

Lemma login_sessions_known sys ls de : login_sessions sys ls = Some de -> de <> Unknown.
Proof.
  induction ls as [|l ls IH]; [done|]. cbn [login_sessions].
  destruct (first_word l); [|done]. cbn [mbind option_bind].
  destruct (sys_loginctl sys _) as [[ok out]|]; [|done]. cbn [mbind option_bind].
  destruct ok; [|exact IH]. destruct (session_props out) as [g d].
  destruct (if g then d else None); [|exact IH]. case_decide; [exact IH|]. by intros [= <-].
Qed.

Lemma detect_from_loginctl_known sys de : detect_from_loginctl sys = Some de -> de <> Unknown.
Proof.
  unfold detect_from_loginctl. destruct (sys_loginctl sys _) as [[ok out]|]; [|done].
  cbn [mbind option_bind]. destruct ok; [apply login_sessions_known|done].
Qed.

Lemma detect_from_processes_spec sys :
  match detect_from_processes sys with
  | Some de => de <> Unknown
  | None => forall es, sys_proc sys = Some es -> Forall (fun e => is_compositor e = false) es
  end.
Proof.
  unfold detect_from_processes. destruct (sys_proc sys) as [es|]; [|done]. cbn [mbind option_bind].
  destruct (first_some _ es) as [de|] eqn:E.
  - apply first_some_Some in E as (e & _ & E). destruct (proc_comm e); [|done]. by eapply compositor_of_known.
  - intros es' [= <-]. apply first_some_None in E. eapply list.Forall_impl; [exact E|].
    intros e He. by apply proc_compositor.
Qed.

(** Detection gives up exactly when the environment names no
    known desktop, logind reports none, and no readable numeric entry of the
    process table is one of the known compositors. *)
Theorem desktop_unknown_iff sys env :
  detect_desktop sys env = Unknown <->
  detect_from_env (env !! XDG_CURRENT_DESKTOP) (env !! XDG_SESSION_DESKTOP) = Unknown /\
  detect_from_loginctl sys = None /\
  forall es e, sys_proc sys = Some es -> e ∈ es -> is_compositor e = false.
Proof.
  unfold detect_desktop. case_decide as E.
  2: { split; [done|]. by intros [? _]. }
  pose proof (detect_from_processes_spec sys) as Hp.
  destruct (detect_from_loginctl sys) as [de|] eqn:El.
  { split; [|naive_solver]. intros ->. by apply detect_from_loginctl_known in El. }
  destruct (detect_from_processes sys) as [de|] eqn:Ed.
  - split; [done|]. intros (_ & _ & Hn). exfalso.
    unfold detect_from_processes in Ed. destruct (sys_proc sys) as [es|]; [|done].
    cbn [mbind option_bind] in Ed. apply first_some_Some in Ed as (e & He & Ec).
    specialize (Hn es e eq_refl He). apply proc_compositor in Hn. congruence.
  - split; [|done]. intros _. split_and!; [done|done|]. intros es e Hes He.
    specialize (Hp es Hes). rewrite list.Forall_forall in Hp. by apply Hp.
Qed.

(** The environment is read without regard to case, and
    [XDG_CURRENT_DESKTOP], when one of its components is known, decides alone. *)
Theorem detect_ignores_case current session :
  detect_from_env (to_lowercase <$> current) (to_lowercase <$> session) =
    detect_from_env current session /\
  forall d de, current = Some d -> detect_from_env (Some d) None = de -> de <> Unknown ->
    detect_from_env current session = de.
Proof.
  split.
  - unfold detect_from_env. destruct current as [d|], session as [s|]; cbn;
      unfold of_session; by rewrite ?to_lowercase_idemp.
  - intros d de -> Hd Hde. unfold detect_from_env in *. cbn [mbind option_bind] in *.
    by destruct (first_some _ _).
Qed.

(** *** The environment grows *)

Definition session_keys : list text := [WAYLAND_DISPLAY; XDG_RUNTIME_DIR; DBUS_ADDRESS].

(** [env'] keeps every variable of [env] and adds at most the session's. *)
Definition extends (env env' : env_map) : Prop :=
  env ⊆ env' /\ forall k, is_Some (env' !! k) -> is_Some (env !! k) \/ k ∈ session_keys.

#[export] Instance extends_preorder : PreOrder extends.
Proof.
  split.
  - intros env. split; [done|]. by left.
  - intros e1 e2 e3 [S1 K1] [S2 K2]. split; [by transitivity e2|].
    intros k [Hk|Hk]%K2; [by apply K1|by right].
Qed.

Lemma extends_insert k v env : k ∈ session_keys -> env !! k = None -> extends env (<[k := v]> env).
Proof.
  intros Hk Hn. split; [by apply insert_subseteq|]. intros j.
  destruct (decide (j = k)) as [->|Hj]; [by right|]. rewrite lookup_insert_ne by done. by left.
Qed.

Lemma set_absent_extends k v env : k ∈ session_keys -> extends env (set_absent k v env).
Proof.
  intros Hk. unfold set_absent. destruct v as [v|]; [|done].
  destruct (env !! k) eqn:E; [done|]. by apply extends_insert.
Qed.

Lemma session_keys_in : WAYLAND_DISPLAY ∈ session_keys /\ XDG_RUNTIME_DIR ∈ session_keys /\ DBUS_ADDRESS ∈ session_keys.
Proof. unfold session_keys. set_solver. Qed.

Lemma try_inherit_dbus_extends sys env :
  extends env (try_inherit_dbus_env sys env) /\
  forall k, k <> DBUS_ADDRESS -> try_inherit_dbus_env sys env !! k = env !! k.
Proof.
  destruct session_keys_in as (_ & _ & Hk). unfold try_inherit_dbus_env.
  destruct (env !! DBUS_ADDRESS) eqn:E; [done|].
  assert (HI : extends env (inherit_dbus_from_compositor sys env) /\
    forall k, k <> DBUS_ADDRESS -> inherit_dbus_from_compositor sys env !! k = env !! k).
  { unfold inherit_dbus_from_compositor. case_match; [|done]. split; [by apply extends_insert|].
    intros k Hne. by apply lookup_insert_ne. }
  set (env1 := inherit_dbus_from_compositor sys env) in *. clearbody env1.
  destruct HI as [HI HK]. destruct (env1 !! DBUS_ADDRESS) eqn:E1; [done|].
  destruct (env1 !! XDG_RUNTIME_DIR); [|done]. destruct (sys_exists sys _); [|done]. split.
  - etransitivity; [exact HI|]. by apply extends_insert.
  - intros k Hne. rewrite lookup_insert_ne by done. by apply HK.
Qed.

(** Where a display came from. *)
Definition display_source (sys : System) (env env' : env_map) (v : text) : Prop :=
  env !! WAYLAND_DISPLAY = Some v \/
  (exists es e s, sys_proc sys = Some es /\ e ∈ es /\ compositor_session e = Some (v, s)) \/
  (exists dir es, env' !! XDG_RUNTIME_DIR = Some dir /\ sys_read_dir sys dir = Some es /\
     (v, true) ∈ es /\ starts_with v (str "wayland-") = true /\ ends_with v (str ".lock") = false).

Lemma set_absent_other k v env j : j <> k -> set_absent k v env !! j = env !! j.
Proof.
  intros Hj. unfold set_absent. destruct v as [v|]; [|done]. destruct (env !! k); [done|].
  by apply lookup_insert_ne.
Qed.

Lemma find_wayland_socket_spec sys dir v : find_wayland_socket sys dir = Some v ->
  exists es, sys_read_dir sys dir = Some es /\ (v, true) ∈ es /\
    starts_with v (str "wayland-") = true /\ ends_with v (str ".lock") = false.
Proof.
  unfold find_wayland_socket. destruct (sys_read_dir sys dir) as [es|]; [|done].
  cbn [mbind option_bind]. intros ([n b] & He & E)%first_some_Some. cbn in E.
  destruct (is_wayland_socket (n, b)) eqn:Ew; [|done]. injection E as <-.
  apply andb_true_iff in Ew as [[E1 E2%negb_true_iff]%andb_true_iff E3]. cbn in *. subst b.
  exists es. by split_and!.
Qed.

(** Discovery reports success exactly when [WAYLAND_DISPLAY] is
    set afterwards; it overwrites no variable, adds only the session's three, and
    the display is the one that was set, one of a running compositor's
    environment, or a socket of the runtime directory that is not a lock. *)
Theorem ensure_wayland_env_spec sys env :
  let '(env', ok) := ensure_wayland_env sys env in
  extends env env' /\ ok = bool_decide (is_Some (env' !! WAYLAND_DISPLAY)) /\
  forall v, env' !! WAYLAND_DISPLAY = Some v -> display_source sys env env' v.
Proof.
  destruct session_keys_in as (HkW & HkR & HkD). unfold ensure_wayland_env.
  destruct (try_inherit_dbus_extends sys env) as [Hx HK].
  assert (HW : try_inherit_dbus_env sys env !! WAYLAND_DISPLAY = env !! WAYLAND_DISPLAY) by (by apply HK).
  set (env1 := try_inherit_dbus_env sys env) in *. clearbody env1.
  destruct (env1 !! WAYLAND_DISPLAY) as [w|] eqn:E1.
  { rewrite E1. split_and!; [done|done|]. intros v [= <-]. left. by rewrite <- HW. }
  unfold inherit_compositor_env.
  destruct (entries ← sys_proc sys; first_some compositor_session entries) as [[d s]|] eqn:Ec.
  - assert (Hd : set_absent DBUS_ADDRESS (sv_dbus s) (set_absent XDG_RUNTIME_DIR (sv_runtime s)
                   (<[WAYLAND_DISPLAY := d]> env1)) !! WAYLAND_DISPLAY = Some d).
    { rewrite !set_absent_other by done. apply lookup_insert_eq. }
    rewrite Hd. split_and!; [|done|].
    + etransitivity; [exact Hx|]. etransitivity; [by apply (extends_insert WAYLAND_DISPLAY d)|].
      etransitivity; [by apply (set_absent_extends XDG_RUNTIME_DIR (sv_runtime s))|].
      by apply set_absent_extends.
    + intros v [= <-]. right; left. destruct (sys_proc sys) as [es|]; [|done].
      cbn [mbind option_bind] in Ec. apply first_some_Some in Ec as (e & He & Ee). by exists es, e, s.
  - destruct (env1 !! XDG_RUNTIME_DIR) as [dir|] eqn:Er; cbn [mbind option_bind].
    2: { rewrite E1. by split_and!. }
    destruct (find_wayland_socket sys dir) as [d|] eqn:Ef.
    2: { rewrite E1. by split_and!. }
    rewrite lookup_insert_eq. split_and!; [|done|].
    + etransitivity; [exact Hx|]. by apply extends_insert.
    + intros v [= <-]. right; right. apply find_wayland_socket_spec in Ef as (es & F1 & F2 & F3 & F4).
      exists dir, es. split_and!; try done. by rewrite lookup_insert_ne.
Qed.

(** *** Runs *)

Example detect_ubuntu : detect_from_env (Some (str "ubuntu:GNOME")) None = Gnome.
Proof. reflexivity. Qed.

Example detect_plasma : detect_from_env (Some (str "X-Cinnamon")) (Some (str "PlasmaWayland")) = Kde.
Proof. reflexivity. Qed.

(** Over SSH without [XDG_RUNTIME_DIR]: the bus socket is probed before the
    runtime directory is inherited, so only a second call finds it. *)
Definition sway_proc : ProcEntry :=
  mkProcEntry (str "321") (Some (str "sway" ++ [10]))
    (Some (str "WAYLAND_DISPLAY=wayland-1" ++ [0] ++ str "XDG_RUNTIME_DIR=/run/user/1000" ++ [0])).

Definition ssh_system : System :=
  mkSystem (Some [mkProcEntry (str "self") None None; sway_proc])
    (fun _ => None) (fun p => bool_decide (p = str "/run/user/1000/bus")) (fun _ => None).

Example bus_needs_second_call :
  let '(env1, ok1) := ensure_wayland_env ssh_system ∅ in
  let '(env2, ok2) := ensure_wayland_env ssh_system env1 in
  ok1 = true /\ env1 !! WAYLAND_DISPLAY = Some (str "wayland-1") /\ env1 !! DBUS_ADDRESS = None /\
  env2 !! DBUS_ADDRESS = Some (str "unix:path=/run/user/1000/bus").
Proof. vm_compute. done. Qed.

Lemma detect_ignores_case_witness :
  detect_from_env (Some (str "ubuntu:GNOME")) (Some (str "sway")) = Gnome.
Proof.
  apply (proj2 (detect_ignores_case (Some (str "ubuntu:GNOME")) (Some (str "sway"))) _ _ eq_refl);
    [reflexivity|done].
Defined.
