(* ===== verification/Worker.v ===== *)
(** Threads with a stop flag ([crates/remoteway-core/src/thread_config.rs], and
    the handles of [crates/remoteway-input/src/{capture_thread,inject_thread}.rs]).

    [ThreadConfig] starts a thread.  A worker is what both input threads are: a
    body that sets itself up and then, pass after pass, reads the stop flag and
    works on what it shares with its owner, and a handle whose [stop] raises the
    flag and joins.  The two read the flag and work in separate steps, so that
    the owner's calls may come between them; a run is a list of steps of either
    in any order.  What the steps do is a parameter, [worker_body]. *)

From S2P Require Import Prelude DesktopDetect.

(** ** Starting a thread *)

Inductive ThreadConfigError := CoreAffinity (core : Z) | SchedSetScheduler (errno : Z) | SpawnFails.

Record ThreadConfig := mkThreadConfig { tc_core_id : Z; tc_sched_priority : Z; tc_name : text }.

Definition ThreadConfig_new (core_id sched_priority : Z) (name : text) : ThreadConfig :=
  mkThreadConfig core_id sched_priority name.

(** The system calls of a starting thread and their answers; a refusal is
    printed and nothing else. *)
Inductive sched_call := SetAffinity (core : Z) (ok : bool) | SetFifo (priority : Z) (ok : bool).

Definition apply_affinity (core_id : Z) (ok : bool) : list sched_call := [SetAffinity core_id ok].
Definition apply_sched_fifo (priority : Z) (ok : bool) : list sched_call := [SetFifo priority ok].

(** What the thread calls before its body. *)
Definition thread_prologue (cfg : ThreadConfig) (affinity fifo : bool) : list sched_call :=
  apply_affinity (tc_core_id cfg) affinity ++
  (if 0 <? tc_sched_priority cfg then apply_sched_fifo (tc_sched_priority cfg) fifo else []).

(** [ThreadConfig::spawn]; [None]: the system refused the thread. *)
Definition spawn_thread {T} (cfg : ThreadConfig) (builder : option T) : T + ThreadConfigError :=
  match builder with Some t => inl t | None => inr SpawnFails end.

(** ** Workers *)

(** How a body returned: what [join] gives. *)
Inductive thread_exit (E : Type) := ExitOk | ExitErr (e : E) | ExitPanic.
Arguments ExitOk {E}.
Arguments ExitErr {E} e.
Arguments ExitPanic {E}.

(** A body over what the thread shares with its owner ([Sh]): what its set-up
    makes of the world ([W]), and a pass of its loop on what comes ([In]). *)
Record worker_body (E W St In Sh : Type) := mkBody {
  wb_setup : W -> St + thread_exit E;
  wb_work : Sh -> St -> In -> Sh * (St + thread_exit E)
}.
Arguments mkBody {E W St In Sh} _ _.
Arguments wb_setup {E W St In Sh} _ _.
Arguments wb_work {E W St In Sh} _ _ _ _.

Section Worker.
Context {E W St In Sh : Type} (b : worker_body E W St In Sh).

(** Before the set-up, before the flag is read, after it, and returned. *)
Inductive worker_phase := Starting | Checking (s : St) | Working (s : St) | Ended (r : thread_exit E).

(** The handle: there, in [stop]'s [join], or taken. *)
Inductive join_state := Held | Joining | Taken.

Record Worker := mkWorker { wk_shared : Sh; wk_phase : worker_phase; wk_stop : bool; wk_handle : join_state }.

(** The thread just spawned. *)
Definition Worker_new (sh : Sh) : Worker := mkWorker sh Starting false Held.

(** Steps of the thread ([SetUp], [CheckFlag], [Work]) and of its owner. *)
Inductive worker_act :=
  | SetUp (w : W)
  | CheckFlag
  | Work (i : In)
  | StopCalled       (** [stop] stores the flag and takes the handle *)
  | StopReturned     (** its [join] is over *)
  | DropCalled       (** [Drop::drop] *)
  | Owner (f : Sh -> Sh).

Definition set_phase (t : Worker) (p : worker_phase) : Worker := mkWorker (wk_shared t) p (wk_stop t) (wk_handle t).

(** [None]: the step is not there to take. *)
Definition worker_step (t : Worker) (a : worker_act) : option Worker :=
  match a, wk_phase t with
  | SetUp w, Starting =>
      Some (set_phase t (match wb_setup b w with inl s => Checking s | inr r => Ended r end))
  | CheckFlag, Checking s => Some (set_phase t (if wk_stop t then Ended ExitOk else Working s))
  | Work i, Working s =>
      let '(sh, r) := wb_work b (wk_shared t) s i in
      Some (mkWorker sh (match r with inl s => Checking s | inr r => Ended r end) (wk_stop t) (wk_handle t))
  | StopCalled, p =>
      match wk_handle t with
      | Held => Some (mkWorker (wk_shared t) p true Joining)
      | Joining => None
      | Taken => Some (mkWorker (wk_shared t) p true Taken)
      end
  | StopReturned, Ended r =>
      match wk_handle t with Joining => Some (mkWorker (wk_shared t) (Ended r) (wk_stop t) Taken) | _ => None end
  | DropCalled, p =>
      match wk_handle t with Joining => None | _ => Some (mkWorker (wk_shared t) p true Taken) end
  | Owner f, p =>
      match wk_handle t with Joining => None | _ => Some (mkWorker (f (wk_shared t)) p (wk_stop t) (wk_handle t)) end
  | _, _ => None
  end.

Definition worker_run (t : Worker) (acts : list worker_act) : option Worker := foldM worker_step t acts.

(** [is_running]: a handle whose thread has not finished. *)
Definition worker_is_running (t : Worker) : bool :=
  match wk_handle t, wk_phase t with Held, Ended _ => false | Held, _ => true | _, _ => false end.

(** *** Stopping *)

Definition by_thread (a : worker_act) : bool := match a with SetUp _ | CheckFlag | Work _ => true | _ => false end.
Definition is_work (a : worker_act) : bool := match a with Work _ => true | _ => false end.
Definition is_ended (t : Worker) : bool := match wk_phase t with Ended _ => true | _ => false end.

(** Steps the thread can still take once the flag is up, and passes. *)
Definition steps_left (t : Worker) : nat :=
  match wk_phase t with Starting => 2 | Checking _ => 1 | Working _ => 2 | Ended _ => 0 end.
Definition works_left (t : Worker) : nat := match wk_phase t with Working _ => 1 | _ => 0 end.
Definition count (f : worker_act -> bool) (acts : list worker_act) : nat := length (filter f acts).

Lemma stopped_step t a t' :
  wk_stop t = true -> worker_step t a = Some t' ->
  wk_stop t' = true /\
  ((if by_thread a then 1 else 0) + steps_left t' <= steps_left t)%nat /\
  ((if is_work a then 1 else 0) + works_left t' <= works_left t)%nat.
Proof.
  intros Hs. unfold worker_step, steps_left, works_left, set_phase.
  destruct a as [w| |i| | | |f]; cbn.
  - destruct (wk_phase t); try done. intros [= <-]. cbn. destruct (wb_setup b w); cbn; split_and!; (done || lia).
  - destruct (wk_phase t); try done. rewrite Hs. intros [= <-]. cbn. split_and!; (done || lia).
  - destruct (wk_phase t); try done. destruct (wb_work b _ _ _) as [sh [s'|r]]; intros [= <-]; cbn; split_and!; (done || lia).
  - destruct (wk_handle t); try done; intros [= <-]; cbn; split_and!; (done || lia).
  - destruct (wk_phase t) eqn:Ep; try done. destruct (wk_handle t); try done. intros [= <-]. cbn. split_and!; (done || lia).
  - destruct (wk_handle t); try done; intros [= <-]; cbn; split_and!; (done || lia).
  - destruct (wk_handle t); try done; intros [= <-]; cbn; split_and!; (done || lia).
Qed.

Lemma count_cons f a acts : count f (a :: acts) = ((if f a then 1 else 0) + count f acts)%nat.
Proof. unfold count. rewrite filter_cons. by destruct (f a). Qed.

(** Once the flag is up the thread is at most two steps from its end, only one
    of them a pass, whatever the owner does meanwhile. *)
Theorem worker_stops t acts t' :
  wk_stop t = true -> worker_run t acts = Some t' ->
  (count by_thread acts + steps_left t' <= steps_left t)%nat /\ (steps_left t <= 2)%nat /\
  (count is_work acts + works_left t' <= works_left t)%nat /\ (works_left t <= 1)%nat /\
  (steps_left t' = 0%nat <-> is_ended t' = true).
Proof.
  intros Hs Hr.
  assert (G : (count by_thread acts + steps_left t' <= steps_left t)%nat /\
              (count is_work acts + works_left t' <= works_left t)%nat).
  { revert t Hs Hr. unfold worker_run. induction acts as [|a acts IH]; intros t Hs Hr; cbn [foldM] in Hr.
    - injection Hr as <-. cbn. lia.
    - destruct (worker_step t a) as [t1|] eqn:Es; [|done]. cbn in Hr.
      destruct (stopped_step _ _ _ Hs Es) as (Hs1 & L1 & L2). destruct (IH t1 Hs1 Hr).
      rewrite !count_cons. lia. }
  destruct G as [G1 G2]. split_and!; [done| |done| |].
  - unfold steps_left. destruct (wk_phase t); lia.
  - unfold works_left. destruct (wk_phase t); lia.
  - unfold steps_left, is_ended. destruct (wk_phase t'); (done || lia).
Qed.

(** While the body has not returned, its next step is there to take, except
    that its set-up and its passes wait for what they read. *)
Definition moves (t : Worker) : Prop :=
  match wk_phase t with
  | Starting => forall w, is_Some (worker_step t (SetUp w))
  | Checking _ => is_Some (worker_step t CheckFlag)
  | Working _ => forall i, is_Some (worker_step t (Work i))
  | Ended _ => wk_handle t = Joining -> is_Some (worker_step t StopReturned)
  end.

Lemma worker_moves t : moves t.
Proof.
  unfold moves, worker_step. destruct (wk_phase t); [by eexists|by eexists| |].
  - intros i. destruct (wb_work b _ _ _); by eexists.
  - intros ->. by eexists.
Qed.

(** Only the thread's passes and the owner's own calls touch what they share. *)
Lemma step_shared t a t' : worker_step t a = Some t' ->
  wk_shared t' = match a, wk_phase t with
    | Work i, Working s => (wb_work b (wk_shared t) s i).1
    | Owner f, _ => f (wk_shared t)
    | _, _ => wk_shared t
    end.
Proof.
  unfold worker_step. destruct a, (wk_phase t); try done; try by intros [= <-].
  all: try (destruct (wk_handle t); try done; by intros [= <-]).
  destruct (wb_work b _ _ _). by intros [= <-].
Qed.
End Worker.
Arguments Worker : clear implicits.
