(* ===== verification/Vulkan.v ===== *)
(** What the Vulkan code calls: the objects of a device, the calls that create, use and
    destroy them, and which of those calls are valid.

    The driver is outside.  Its answers are the fields of [driver]: which call fails,
    what memory an object needs, what the device computes.  A call that the
    specification of Vulkan makes undefined (an object that does not live or is in use, a
    range outside its allocation, a wrong image layout) has no result: [None].  The
    handle of a new object may be one that an earlier object had. *)

From stdpp Require Import gmap strings.
From S2P Require Import Prelude Encoder.

(** ** Objects *)

Inductive vk_error := DeviceLost | OtherError (code : Z).

(** The property flags of memory types. *)
Definition DEVICE_LOCAL : Z := 1.
Definition HOST_VISIBLE : Z := 2.
Definition HOST_COHERENT : Z := 4.
Definition HOST_CACHED : Z := 8.

Definition has_flags (flags wanted : Z) : bool := Z.land flags wanted =? wanted.

Inductive image_usage := TransferSrc | TransferDst | VideoEncodeDst | VideoEncodeDpb | VideoEncodeSrc
  | StorageBuffer | Sampled | Storage.
#[export] Instance usage_eq_dec : EqDecision image_usage.
Proof. solve_decision. Defined.

Inductive layout := Undefined | TransferSrcOptimal | TransferDstOptimal | EncodeDpb | EncodeSrc
  | ShaderReadOnly | General.
#[export] Instance layout_eq_dec : EqDecision layout.
Proof. solve_decision. Defined.

Inductive stage := TopOfPipe | Transfer | BottomOfPipe | ComputeShader.
#[export] Instance stage_eq_dec : EqDecision stage.
Proof. solve_decision. Defined.

(** A barrier on a whole image; the access masks of the code's barriers are empty. *)
Record barrier := mkBarrier {
  ib_image : Z; ib_old : layout; ib_new : layout; ib_src : stage; ib_dst : stage }.

(** Recorded commands.  Copies and blits name the whole extent of their images; a slot is
    named by its index and a view.  A dispatch names what is bound for it: the pipeline,
    the layout, one set, the push constants as 32-bit words; the upscaler's dispatch names
    its pictures by image and view. *)
Inductive vk_cmd :=
  | PipelineBarrier (b : barrier)
  | CopyBufferToImage (buffer image : Z) (l : layout) (width height : Z)
  | BlitImage (src : Z) (src_l : layout) (dst : Z) (dst_l : layout) (src_wh dst_wh : Z * Z)
  | CopyImageToBuffer (image : Z) (l : layout) (buffer width height : Z)
  | ResetQueryPool (queries : Z)
  | BeginVideoCoding (session params : Z) (slots : list (Z * Z))
  | ControlVideoCoding (session : Z)
  | BeginQuery (queries : Z)
  | EncodeVideo (session buffer range src_view : Z) (setup : Z * Z) (reference : option (Z * Z))
  | EndQuery (queries : Z)
  | EndVideoCoding (session : Z)
  | CopyBuffer (src dst size : Z)
  | MemoryBarrier (src dst : stage)
  | Dispatch (pipeline layout set : Z) (push : list Z) (groups : Z * Z)
  | FsrDispatch (fsr : Z) (color depth motion output : Z * Z).

(** A pending buffer names what its commands use. *)
Inductive cmd_state :=
  | Initial | Recording (cs : list vk_cmd) | Executable (cs : list vk_cmd)
  | Pending (cs : list vk_cmd) (used : list Z).

Inductive fence_state := Unsignaled | Signaled | InFlight (cmd : Z).
Inductive query_state := QueryUnknown | QueryReset | QueryActive | QueryDone (bytes_written : Z).

(** Bytes and pixels nobody has written are missing at the end of their list.  An image's
    stamp tells it from a later one with its handle: a view is of an image, not of what
    has its handle now.  A session knows the view in each slot that is in use.
    The descriptors are storage buffers, each with the range it shows; a pool knows its
    sets and how many descriptors they have, and whether it lets sets be freed singly. *)
Inductive body :=
  | CommandPool (cmds : list Z)
  | CommandBuffer (st : cmd_state)
  | Fence (st : fence_state)
  | Buffer (size : Z) (us : list image_usage) (bound : option Z)
  | Memory (size flags : Z) (mapped : bool) (bytes : list Z)
  | Image (stamp : nat) (width height : Z) (us : list image_usage) (l : layout) (pixels : list Z)
      (bound : option Z)
  | ImageView (image : Z) (stamp : nat)
  | QueryPool (st : query_state)
  | VideoSession (memory : option (list Z)) (ready active : bool) (slots : gmap Z Z)
  | SessionParameters (session : Z)
  | ShaderModule (code : string)
  | SetLayout (bindings : nat)
  | PipelineLayout (bindings : nat) (push : Z)
  | Pipeline (code : string) (bindings : nat) (push : Z)
  | DescriptorPool (max_sets max_buffers : Z) (freeing : bool) (sets : list (Z * nat))
  | DescriptorSet (slots : list (option (Z * Z)))
  | FsrContext (render display : Z * Z).

(** An object and how many pending uses it has. *)
Notation objects := (gmap Z (nat * body)).

(** A handle no object has. *)
Definition next_handle (m : objects) : Z := map_fold (fun k _ n => Z.max (k + 1) n) 1 m.

(** ** The driver *)

Record mem_req := mkMemReq { mr_size : Z; mr_type_bits : Z }.

(** A physical device; a queue family is given by its flags, an extension by its name. *)
Record physical_device := mkPhysicalDevice {
  pd_discrete : bool; pd_vendor_id : Z; pd_name : list Z; pd_api_version : Z;
  pd_families : list Z; pd_extensions : list string }.

(** What a device says of one codec: the two extents, the granularity, the slots and
    references it has, and its rate control modes. *)
Record video_caps := mkVideoCaps {
  vp_max : Z * Z; vp_min : Z * Z; vp_granularity : Z * Z; vp_slots : Z; vp_references : Z;
  vp_modes : list vk_rc_mode }.

(** The answers, by the number of the call: errors, the devices there are, the memory an
    object of a size needs and each index of a video session, the memory types, what the
    bytes are that nobody has written, what a command sees of contents that the device
    may still be working on, the device's scaling, the encoder's output, what a shader
    makes of the bytes of its buffers, and the upscaler of a colour, a depth and a motion
    picture. *)
Record driver := mkDriver {
  d_error : nat -> option vk_error;
  d_wait : nat -> option vk_error;
  d_devices : list physical_device;
  d_caps : VideoCodec -> video_caps;
  d_max_dimension : Z;
  d_types : list Z;
  d_buffer_req : nat -> Z -> mem_req;
  d_image_req : nat -> Z -> Z -> mem_req;
  d_session_req : nat -> list (Z * mem_req);
  d_unwritten : Z -> Z;
  d_overtaken : nat -> list Z -> list Z;
  d_blit : Z * Z -> Z * Z -> list Z -> list Z;
  d_parameter_sets : nat -> list Z;
  d_bitstream : nat -> list Z;
  d_bytes_written : nat -> Z;
  d_shader : string -> list Z -> Z * Z -> list (list Z) -> list (list Z);
  d_fsr : Z * Z -> Z * Z -> list Z -> list Z -> list Z -> list Z }.

(** What is relied on: a buffer's memory is as large as the buffer, and an image's and a
    session's are not empty; there are images as large as the pictures that can be coded,
    with sides below [2 ^ 31]; scaling gives a whole picture, coding some bytes, and a shader
    leaves the sizes of its buffers. *)
Class DriverLaws (d : driver) := {
  buffer_req_size : forall n size, size <= mr_size (d_buffer_req d n size);
  image_req_size : forall n w h, 0 < mr_size (d_image_req d n w h);
  session_req_size : forall n, Forall (fun r => 0 < mr_size r.2) (d_session_req d n);
  coded_extent : forall c, (vp_max (d_caps d c)).1 <= d_max_dimension d /\
    (vp_max (d_caps d c)).2 <= d_max_dimension d;
  bytes_written : forall n, 0 < d_bytes_written d n;
  max_dimension : d_max_dimension d < 2 ^ 31;
  shader_sizes : forall code push groups bufs, length <$> d_shader d code push groups bufs = length <$> bufs;
  fsr_size : forall rwh w h c z m, 0 < w -> 0 < h -> zlen (d_fsr d rwh (w, h) c z m) = w * h * 4;
  blit_size : forall swh w h px, 0 < w -> 0 < h -> zlen (d_blit d swh (w, h) px) = w * h * 4 }.

(** Two assumptions that the specification of Vulkan does not grant and the code needs.
    A wait for a fence without a time limit may also run out of memory; the code then
    destroys what the device still uses.  This driver's waits fail only when the device
    is lost. *)
Class WaitsEnd (d : driver) : Prop := wait_error : forall n e, d_wait d n = Some e -> e = DeviceLost.

(** The commands of a submission are ordered by barriers only, and most barriers of the
    code wait for nothing.  This device has finished with what a command names before
    the next command starts. *)
Class InOrder (d : driver) : Prop := overtaken_id : forall n px, d_overtaken d n px = px.

(** The first [n] bytes of what is known. *)
Definition known (d : driver) (n : Z) (bytes : list Z) : list Z :=
  (fun i => default (d_unwritten d i) (get bytes i)) <$> seqZ 0 n.

Definition overwrite (bytes old : list Z) : list Z := bytes ++ drop (length bytes) old.

(** ** The monad *)

(** The instance and the device, which the objects belong to. *)
Inductive root := NoInstance | InstanceOnly | InstanceAndDevice.
#[export] Instance root_eq_dec : EqDecision root.
Proof. solve_decision. Defined.

Record gpu := mkGpu { g_root : root; g_clock : nat; g_objs : objects }.

(** [None] is undefined behaviour. *)
Definition vk (E A : Type) : Type := driver -> gpu -> option (gpu * (A + E)).

#[export] Instance vk_ret E : MRet (vk E) := fun A a d g => Some (g, inl a).
#[export] Instance vk_bind E : MBind (vk E) := fun A B f m d g =>
  match m d g with
  | Some (g, inl a) => f a d g
  | Some (g, inr e) => Some (g, inr e)
  | None => None
  end.

Definition invalid {E A} : vk E A := fun _ _ => None.
Definition throw {E A} (e : E) : vk E A := fun _ g => Some (g, inr e).
Definition driver_says {E A} (f : driver -> nat -> A) : vk E A := fun d g =>
  Some (mkGpu (g_root g) (S (g_clock g)) (g_objs g), inl (f d (g_clock g))).

(** [m.or_else(f)]; [map_err] with the clean-up the closure does. *)
Definition or_else {E E' A} (m : vk E A) (f : E -> vk E' A) : vk E' A := fun d g =>
  match m d g with
  | Some (g, inl a) => Some (g, inl a)
  | Some (g, inr e) => f e d g
  | None => None
  end.

Definition map_err {E E' A} (f : E -> E') (m : vk E A) : vk E' A := or_else m (fun e => throw (f e)).

Definition assert_valid {E} (b : bool) : vk E unit := if b then mret tt else invalid.

Definition alloc {E} (b : body) : vk E Z := fun _ g =>
  let h := next_handle (g_objs g) in
  Some (mkGpu (g_root g) (g_clock g) (<[h := (O, b)]> (g_objs g)), inl h).
Definition load {E} (h : Z) : vk E (nat * body) := fun _ g =>
  match g_objs g !! h with Some o => Some (g, inl o) | None => None end.
Definition store {E} (h : Z) (n : nat) (b : body) : vk E unit := fun _ g =>
  match g_objs g !! h with
  | Some _ => Some (mkGpu (g_root g) (g_clock g) (<[h := (n, b)]> (g_objs g)), inl tt)
  | None => None
  end.
Definition remove {E} (h : Z) : vk E unit := fun _ g =>
  match g_objs g !! h with
  | Some _ => Some (mkGpu (g_root g) (g_clock g) (delete h (g_objs g)), inl tt)
  | None => None
  end.

(** An object the device does not use, which is what the host may change or destroy. *)
Definition idle {E} (h : Z) : vk E body :=
  '(n, b) ← load h;
  assert_valid (bool_decide (n = O));;
  mret b.

(** ** The instance and the device *)

(** A call that can fail. *)
Definition ask : vk vk_error unit :=
  r ← driver_says d_error;
  match r with Some e => throw e | None => mret tt end.

Definition set_root {E} (from : root) (r : root) (empty : bool) : vk E unit := fun _ g =>
  if decide (g_root g = from /\ (empty = true -> g_objs g = ∅))
  then Some (mkGpu r (g_clock g) (g_objs g), inl tt) else None.

Definition create_instance : vk vk_error unit := ask;; set_root NoInstance InstanceOnly false.
Definition destroy_instance {E} : vk E unit := set_root InstanceOnly NoInstance false.

(** Each family once, and only extensions the device has. *)
Definition create_device (pd : physical_device) (families : list Z) (exts : list string)
    : vk vk_error unit :=
  assert_valid (bool_decide (NoDup families) && forallb (fun f => bool_decide (is_Some (get (pd_families pd) f))) families &&
    forallb (fun e => bool_decide (e ∈ pd_extensions pd)) exts);;
  ask;; set_root InstanceOnly InstanceAndDevice false.

(** All the device's objects are destroyed before it. *)
Definition destroy_device {E} : vk E unit := set_root InstanceAndDevice InstanceOnly true.

(** ** Calls of the host *)

Definition create (b : body) : vk vk_error Z := ask;; alloc b.

Definition destroy {E} (is_kind : body -> bool) (h : Z) : vk E unit :=
  b ← idle h;
  assert_valid (is_kind b);;
  remove h.

Definition destroy_fence {E} : Z -> vk E unit :=
  destroy (fun b => match b with Fence (InFlight _) => false | Fence _ => true | _ => false end).
Definition destroy_buffer {E} : Z -> vk E unit :=
  destroy (fun b => match b with Buffer _ _ _ => true | _ => false end).
Definition destroy_image {E} : Z -> vk E unit :=
  destroy (fun b => match b with Image _ _ _ _ _ _ _ => true | _ => false end).
(** Memory that is mapped is unmapped by it. *)
Definition free_memory {E} : Z -> vk E unit :=
  destroy (fun b => match b with Memory _ _ _ _ => true | _ => false end).
Definition destroy_image_view {E} : Z -> vk E unit :=
  destroy (fun b => match b with ImageView _ _ => true | _ => false end).
Definition destroy_query_pool {E} : Z -> vk E unit :=
  destroy (fun b => match b with QueryPool _ => true | _ => false end).
Definition destroy_video_session {E} : Z -> vk E unit :=
  destroy (fun b => match b with VideoSession _ _ _ _ => true | _ => false end).
Definition destroy_video_session_parameters {E} : Z -> vk E unit :=
  destroy (fun b => match b with SessionParameters _ => true | _ => false end).

(** Sizes are positive, and an image's sides within the limit. *)
Definition create_buffer_raw (size : Z) (us : list image_usage) : vk vk_error Z :=
  assert_valid (0 <? size);;
  create (Buffer size us None).

Definition create_image_raw (width height : Z) (us : list image_usage) : vk vk_error Z :=
  limit ← driver_says (fun d _ => d_max_dimension d);
  assert_valid ((0 <? width) && (0 <? height) && (width <=? limit) && (height <=? limit));;
  stamp ← driver_says (fun _ n => n);
  create (Image stamp width height us Undefined [] None).

(** A size that is positive, of a type the device has. *)
Definition allocate_memory (size type_index : Z) : vk vk_error Z :=
  flags ← driver_says (fun d _ => get (d_types d) type_index);
  match flags with
  | Some flags => assert_valid (0 <? size);; create (Memory size flags false [])
  | None => invalid
  end.

Definition bind_memory (h memory : Z) : vk vk_error unit :=
  b ← idle h;
  m ← idle memory;
  match m, b with
  | Memory _ _ _ _, Buffer size us None => ask;; store h O (Buffer size us (Some memory))
  | Memory _ _ _ _, Image st w ht us l px None => ask;; store h O (Image st w ht us l px (Some memory))
  | _, _ => invalid
  end.

(** The range is in the allocation and not empty; the memory is not mapped already, the
    host sees it, and sees it without flushing, which the code never does. *)
Definition map_memory (memory size : Z) : vk vk_error unit :=
  '(n, b) ← load memory;
  match b with
  | Memory msize flags false bytes =>
      assert_valid ((0 <? size) && (size <=? msize) && has_flags flags (Z.lor HOST_VISIBLE HOST_COHERENT));;
      ask;; store memory n (Memory msize flags true bytes)
  | _ => invalid
  end.

Definition unmap_memory {E} (memory : Z) : vk E unit :=
  '(n, b) ← load memory;
  match b with
  | Memory msize flags true bytes => store memory n (Memory msize flags false bytes)
  | _ => invalid
  end.

(** What [copy_nonoverlapping] does through the pointer: no race with the device. *)
Definition write_mapped {E} (memory : Z) (data : list Z) : vk E unit :=
  b ← idle memory;
  match b with
  | Memory msize flags true bytes =>
      assert_valid (zlen data <=? msize);;
      store memory O (Memory msize flags true (overwrite data bytes))
  | _ => invalid
  end.

Definition read_mapped {E} (memory size : Z) : vk E (list Z) :=
  b ← idle memory;
  match b with
  | Memory msize flags true bytes =>
      assert_valid (size <=? msize);;
      driver_says (fun d _ => known d size bytes)
  | _ => invalid
  end.

(** ** Command buffers *)

(** A buffer whose recording failed stays recording: it can be reset and freed. *)
Definition allocate_command_buffer (pool : Z) : vk vk_error Z :=
  '(n, b) ← load pool;
  match b with
  | CommandPool cs => ask;; c ← alloc (CommandBuffer Initial); store pool n (CommandPool (c :: cs));; mret c
  | _ => invalid
  end.

Definition not_pending (st : cmd_state) : bool := match st with Pending _ _ => false | _ => true end.

Fixpoint remove_first (c : Z) (cs : list Z) : option (list Z) :=
  match cs with
  | [] => None
  | c' :: cs => if decide (c = c') then Some cs else cons c' <$> remove_first c cs
  end.

Definition drop_command_buffer {E} : Z -> vk E unit :=
  destroy (fun b => match b with CommandBuffer st => not_pending st | _ => false end).

Definition free_command_buffer {E} (pool c : Z) : vk E unit :=
  '(n, b) ← load pool;
  match b with
  | CommandPool cs =>
      match remove_first c cs with
      | Some cs => drop_command_buffer c;; store pool n (CommandPool cs)
      | None => invalid
      end
  | _ => invalid
  end.

(** Run [f] on each. *)
Fixpoint each {E} (f : Z -> vk E unit) (hs : list Z) : vk E unit :=
  match hs with
  | [] => mret tt
  | h :: hs => f h;; each f hs
  end.

Definition destroy_command_pool {E} (pool : Z) : vk E unit :=
  b ← idle pool;
  match b with
  | CommandPool cs => each drop_command_buffer cs;; remove pool
  | _ => invalid
  end.

Definition reset_command_buffer {E} (c : Z) : vk E unit :=
  b ← idle c;
  match b with
  | CommandBuffer st => assert_valid (not_pending st);; store c O (CommandBuffer Initial)
  | _ => invalid
  end.

Definition reset_command_pool (pool : Z) : vk vk_error unit :=
  b ← idle pool;
  match b with
  | CommandPool cs => ask;; each reset_command_buffer cs
  | _ => invalid
  end.

(** The pools here let a begin reset its buffer. *)
Definition begin_command_buffer (c : Z) : vk vk_error unit :=
  b ← idle c;
  match b with
  | CommandBuffer (Initial | Executable _) => ask;; store c O (CommandBuffer (Recording []))
  | _ => invalid
  end.

Definition record {E} (c : Z) (cmd : vk_cmd) : vk E unit :=
  b ← idle c;
  match b with
  | CommandBuffer (Recording cs) => store c O (CommandBuffer (Recording (cs ++ [cmd])))
  | _ => invalid
  end.

Definition end_command_buffer (c : Z) : vk vk_error unit :=
  b ← idle c;
  match b with
  | CommandBuffer (Recording cs) => ask;; store c O (CommandBuffer (Executable cs))
  | _ => invalid
  end.

(** ** What the device executes

    A submitted buffer's commands take effect when it is submitted, on objects that must
    live; the result of [exec] is what stays in use until the fence is signalled.  A
    command reads what earlier commands of the submission wrote only when a barrier
    waits for the stage they ran in; [loose] are the objects that earlier commands
    used, each with that stage, and that no such barrier has settled.  Of those the
    driver says what is read. *)

Definition cmd_stage (c : vk_cmd) : stage :=
  match c with Dispatch _ _ _ _ _ | FsrDispatch _ _ _ _ _ => ComputeShader | _ => Transfer end.

Definition settles (src : stage) (u : Z * stage) : bool :=
  bool_decide (u.2 = src) || bool_decide (src = BottomOfPipe).

(** What is loose after a command that used [us]. *)
Definition loosened (loose : list (Z * stage)) (c : vk_cmd) (us : list Z) : list (Z * stage) :=
  match c with
  | PipelineBarrier b => List.filter (fun u => negb ((u.1 =? ib_image b) && settles (ib_src b) u)) loose
  | MemoryBarrier src _ => List.filter (fun u => negb (settles src u)) loose
  | _ => ((fun h => (h, cmd_stage c)) <$> us) ++ loose
  end.

(** What a command reads of an object that holds [px]. *)
Definition seen {E} (loose : list (Z * stage)) (h : Z) (px : list Z) : vk E (list Z) :=
  if existsb (fun u => u.1 =? h) loose then driver_says (fun d n => d_overtaken d n px) else mret px.

(** The bytes of a bound buffer, as far as the command may use it. *)
Definition bound_memory {E} (buffer size : Z) (u : image_usage) : vk E (Z * list Z) :=
  '(_, b) ← load buffer;
  match b with
  | Buffer bsize us (Some memory) =>
      assert_valid ((size <=? bsize) && bool_decide (u ∈ us));;
      '(_, m) ← load memory;
      match m with
      | Memory _ _ _ bytes => mret (memory, bytes)
      | _ => invalid
      end
  | _ => invalid
  end.

Definition set_bytes {E} (memory : Z) (bytes : list Z) : vk E unit :=
  '(n, m) ← load memory;
  match m with
  | Memory size flags mapped _ => store memory n (Memory size flags mapped bytes)
  | _ => invalid
  end.

(** A whole image in a layout, with the usage; its memory lives. *)
Definition bound_image {E} (image : Z) (l : layout) (u : image_usage) (wh : Z * Z) : vk E (Z * list Z) :=
  '(_, b) ← load image;
  match b with
  | Image _ w h us l' px (Some memory) =>
      assert_valid (bool_decide (l = l') && bool_decide (u ∈ us) && (w =? wh.1) && (h =? wh.2));;
      '(_, m) ← load memory;
      match m with
      | Memory _ _ _ _ => mret (memory, px)
      | _ => invalid
      end
  | _ => invalid
  end.

Definition set_image {E} (image : Z) (l : layout) (px : list Z) : vk E unit :=
  '(n, b) ← load image;
  match b with
  | Image st w h us _ _ bound => store image n (Image st w h us l px bound)
  | _ => invalid
  end.

(** The image a view is of, in the layout a video command needs, and its memory. *)
Definition viewed {E} (l : layout) (view : Z) : vk E (list Z) :=
  '(_, v) ← load view;
  match v with
  | ImageView image stamp =>
      '(_, b) ← load image;
      match b with
      | Image st _ _ _ l' _ (Some memory) =>
          assert_valid (bool_decide (stamp = st) && bool_decide (l = l'));; '(_, _) ← load memory; mret [view; image; memory]
      | _ => invalid
      end
  | _ => invalid
  end.

Fixpoint viewed_all {E} (l : layout) (views : list Z) : vk E (list Z) :=
  match views with
  | [] => mret []
  | v :: views => us ← viewed l v; us' ← viewed_all l views; mret (us ++ us')
  end.

(** A session with its memory, at its begin ([active = false]) or in its scope; what is
    encoded needs it [ready]. *)
Definition session_step {E} (session : Z) (ready active : bool) (f : bool * bool)
    (slots : gmap Z Z -> option (gmap Z Z)) : vk E (list Z) :=
  '(n, s) ← load session;
  match s with
  | VideoSession (Some ms) r a sl =>
      assert_valid (bool_decide (a = active) && (r || negb ready));;
      match slots sl with
      | Some sl => store session n (VideoSession (Some ms) (r || f.1) f.2 sl);; mret (session :: ms)
      | None => invalid
      end
  | _ => invalid
  end.

(** Slots that are named must hold the view they are named with; a negative index names
    none. *)
Definition slots_held (named : list (Z * Z)) (sl : gmap Z Z) : bool :=
  forallb (fun s => (s.1 <? 0) || bool_decide (sl !! s.1 = Some s.2)) named.

Definition query_step {E} (q : Z) (from : query_state -> bool) (to : query_state) : vk E (list Z) :=
  '(n, b) ← load q;
  match b with
  | QueryPool st => assert_valid (from st);; store q n (QueryPool to);; mret [q]
  | _ => invalid
  end.

Definition is_query_reset (st : query_state) : bool := match st with QueryReset => true | _ => false end.
Definition is_query_active (st : query_state) : bool := match st with QueryActive => true | _ => false end.

(** The buffers a set shows: buffer, memory, range and bytes of each; a slot nobody wrote
    shows none. *)
Fixpoint shown {E} (loose : list (Z * stage)) (slots : list (option (Z * Z))) : vk E (list (Z * Z * Z * list Z)) :=
  match slots with
  | [] => mret []
  | None :: _ => invalid
  | Some (buffer, range) :: slots =>
      '(m, bytes) ← bound_memory buffer range StorageBuffer;
      bytes ← seen loose buffer bytes;
      rest ← shown loose slots;
      mret ((buffer, m, range, bytes) :: rest)
  end.

(** What the shader left of each, before the bytes past its range. *)
Fixpoint write_back {E} (bufs : list (Z * Z * Z * list Z)) (outs : list (list Z)) : vk E unit :=
  match bufs, outs with
  | (_, m, _, bytes) :: bufs, out :: outs => set_bytes m (overwrite out bytes);; write_back bufs outs
  | _, _ => mret tt
  end.

(** A picture the upscaler reads or writes, by its view. *)
Definition viewed_picture {E} (loose : list (Z * stage)) (p : Z * Z) (l : layout) (u : image_usage) (wh : Z * Z) : vk E (list Z * list Z) :=
  let '(image, view) := p in
  '(_, v) ← load view;
  match v with
  | ImageView image' stamp =>
      '(_, b) ← load image;
      match b with
      | Image st _ _ _ _ _ _ =>
          assert_valid (bool_decide (image' = image) && bool_decide (stamp = st));;
          '(m, px) ← bound_image image l u wh;
          px ← seen loose image px;
          mret ([view; image; m], px)
      | _ => invalid
      end
  | _ => invalid
  end.

Definition exec {E} (loose : list (Z * stage)) (cmd : vk_cmd) : vk E (list Z) :=
  match cmd with
  | PipelineBarrier ib =>
      '(_, b) ← load (ib_image ib);
      match b with
      | Image _ _ _ _ l px (Some memory) =>
          assert_valid (bool_decide (ib_old ib = l) || bool_decide (ib_old ib = Undefined));;
          '(_, _) ← load memory;
          px ← match ib_old ib with Undefined => mret [] | _ => seen loose (ib_image ib) px end;
          set_image (ib_image ib) (ib_new ib) px;;
          mret [ib_image ib; memory]
      | _ => invalid
      end
  | CopyBufferToImage buffer image l w h =>
      assert_valid (bool_decide (l = TransferDstOptimal));;
      '(m, bytes) ← bound_memory buffer (w * h * 4) TransferSrc;
      '(im, _) ← bound_image image l TransferDst (w, h);
      bytes ← seen loose buffer bytes;
      px ← driver_says (fun d _ => known d (w * h * 4) bytes);
      set_image image l px;;
      mret [buffer; m; image; im]
  | BlitImage src sl dst dl swh dwh =>
      assert_valid (bool_decide (sl = TransferSrcOptimal) && bool_decide (dl = TransferDstOptimal));;
      '(sm, px) ← bound_image src sl TransferSrc swh;
      '(dm, _) ← bound_image dst dl TransferDst dwh;
      px ← seen loose src px;
      px ← driver_says (fun d _ => d_blit d swh dwh (known d (swh.1 * swh.2 * 4) px));
      set_image dst dl px;;
      mret [src; sm; dst; dm]
  | CopyImageToBuffer image l buffer w h =>
      assert_valid (bool_decide (l = TransferSrcOptimal));;
      '(im, px) ← bound_image image l TransferSrc (w, h);
      '(m, bytes) ← bound_memory buffer (w * h * 4) TransferDst;
      px ← seen loose image px;
      px ← driver_says (fun d _ => known d (w * h * 4) px);
      set_bytes m (overwrite px bytes);;
      mret [image; im; buffer; m]
  | ResetQueryPool q => query_step q (fun st => negb (is_query_active st)) QueryReset
  | BeginQuery q => query_step q is_query_reset QueryActive
  | EndQuery q =>
      written ← driver_says d_bytes_written;
      query_step q is_query_active (QueryDone written)
  | BeginVideoCoding session params slots =>
      '(_, p) ← load params;
      match p with
      | SessionParameters s =>
          assert_valid (s =? session);;
          us ← viewed_all EncodeDpb (snd <$> slots);
          ss ← session_step session false false (false, true)
            (fun sl => if slots_held slots sl then Some sl else None);
          mret (params :: ss ++ us)
      | _ => invalid
      end
  | ControlVideoCoding session => session_step session false true (true, true) (fun _ => Some ∅)
  | EndVideoCoding session => session_step session false true (false, false) Some
  | EncodeVideo session buffer range src_view setup reference =>
      ss ← session_step session true true (false, true)
        (fun sl => if slots_held (option_list reference) sl then Some (<[setup.1 := setup.2]> sl) else None);
      '(m, bytes) ← bound_memory buffer range VideoEncodeDst;
      us ← viewed EncodeSrc src_view;
      us' ← viewed_all EncodeDpb (snd <$> (setup :: option_list reference));
      out ← driver_says d_bitstream;
      set_bytes m (overwrite (take (Z.to_nat range) out) bytes);;
      mret (ss ++ [buffer; m] ++ us ++ us')
  | CopyBuffer src dst size =>
      '(sm, sbytes) ← bound_memory src size TransferSrc;
      '(dm, dbytes) ← bound_memory dst size TransferDst;
      sbytes ← seen loose src sbytes;
      out ← driver_says (fun d _ => known d size sbytes);
      set_bytes dm (overwrite out dbytes);;
      mret [src; sm; dst; dm]
  | MemoryBarrier _ _ => mret []
  | Dispatch pipeline layout set push groups =>
      '(_, p) ← load pipeline;
      '(_, l) ← load layout;
      '(_, s) ← load set;
      match p, l, s with
      | Pipeline code n size, PipelineLayout n' size', DescriptorSet slots =>
          assert_valid (bool_decide (n = n') && (size =? size') && bool_decide (length slots = n) && (4 * zlen push =? size));;
          bufs ← shown loose slots;
          outs ← driver_says (fun d _ => d_shader d code push groups ((fun b => known d b.1.2 b.2) <$> bufs));
          write_back bufs outs;;
          mret (pipeline :: set :: mjoin ((fun b : Z * Z * Z * list Z => [b.1.1.1; b.1.1.2]) <$> bufs))
      | _, _, _ => invalid
      end
  | FsrDispatch fsr color depth motion output =>
      '(_, f) ← load fsr;
      match f with
      | FsrContext render display =>
          '(us1, c) ← viewed_picture loose color ShaderReadOnly Sampled render;
          '(us2, z) ← viewed_picture loose depth ShaderReadOnly Sampled render;
          '(us3, v) ← viewed_picture loose motion ShaderReadOnly Sampled render;
          '(us4, _) ← viewed_picture loose output General Storage display;
          out ← driver_says (fun d _ =>
            let whole := known d (render.1 * render.2 * 4) in d_fsr d render display (whole c) (whole z) (whole v));
          set_image (fst output) General out;;
          mret (fsr :: us1 ++ us2 ++ us3 ++ us4)
      | _ => invalid
      end
  end.

Fixpoint exec_from {E} (loose : list (Z * stage)) (cs : list vk_cmd) : vk E (list Z) :=
  match cs with
  | [] => mret []
  | c :: cs => us ← exec loose c; us' ← exec_from (loosened loose c us) cs; mret (us ++ us')
  end.

Definition exec_all {E} (cs : list vk_cmd) : vk E (list Z) := exec_from [] cs.

Definition use {E} (h : Z) : vk E unit := '(n, b) ← load h; store h (S n) b.
Definition unuse {E} (h : Z) : vk E unit := '(n, b) ← load h; store h (pred n) b.

(** A submission that fails executes nothing. *)
Definition queue_submit (c fence : Z) : vk vk_error unit :=
  f ← idle fence;
  b ← idle c;
  match f, b with
  | Fence Unsignaled, CommandBuffer (Executable cs) =>
      ask;;
      used ← exec_all cs;
      each use used;;
      store c O (CommandBuffer (Pending cs used));;
      store fence O (Fence (InFlight c))
  | _, _ => invalid
  end.

(** Waiting without a time limit: for a fence nothing will signal, for ever.  A device
    that is lost has stopped; after any other error the work may still be running. *)
Definition wait_for_fence (fence : Z) : vk vk_error unit :=
  f ← idle fence;
  match f with
  | Fence Signaled => r ← driver_says d_wait; match r with Some e => throw e | None => mret tt end
  | Fence (InFlight c) =>
      r ← driver_says d_wait;
      match r with
      | Some (OtherError e) => throw (OtherError e)
      | _ =>
          b ← idle c;
          match b with
          | CommandBuffer (Pending cs used) =>
              each unuse used;;
              store c O (CommandBuffer (Executable cs));;
              store fence O (Fence Signaled);;
              match r with Some e => throw e | None => mret tt end
          | _ => invalid
          end
      end
  | _ => invalid
  end.

Definition reset_fence (fence : Z) : vk vk_error unit :=
  f ← idle fence;
  match f with
  | Fence (Signaled | Unsignaled) => ask;; store fence O (Fence Unsignaled)
  | _ => invalid
  end.

(** ** Video *)

(** No more slots and references than the device has for the codec. *)
Definition create_video_session (codec : VideoCodec) (slots references : Z) : vk vk_error Z :=
  caps ← driver_says (fun d _ => d_caps d codec);
  assert_valid ((slots <=? vp_slots caps) && (references <=? vp_references caps));;
  create (VideoSession None false false ∅).

(** What memory the session needs: how much, asked first, and which. *)
Definition session_requirements (session : Z) : vk vk_error (list (Z * mem_req)) :=
  ask;; reqs ← driver_says d_session_req; ask;; mret reqs.

(** All that it needs, at once. *)
Definition bind_video_session_memory (session : Z) (memory : list Z) : vk vk_error unit :=
  b ← idle session;
  match b with
  | VideoSession None r a sl => ask;; store session O (VideoSession (Some memory) r a sl)
  | _ => invalid
  end.

Definition create_video_session_parameters (session : Z) : vk vk_error Z :=
  '(_, b) ← load session;
  match b with
  | VideoSession _ _ _ _ => create (SessionParameters session)
  | _ => invalid
  end.

(** The length and then the bytes. *)
Definition encoded_parameter_sets (params : Z) : vk vk_error (list Z) :=
  '(_, b) ← load params;
  match b with
  | SessionParameters _ => ask;; bytes ← driver_says d_parameter_sets; ask;; mret bytes
  | _ => invalid
  end.

Definition create_query_pool : vk vk_error Z := create (QueryPool QueryUnknown).

(** Waits for a result, which must be on its way. *)
Definition get_query_pool_results (queries : Z) : vk vk_error Z :=
  '(_, b) ← load queries;
  match b with
  | QueryPool (QueryDone written) => ask;; mret written
  | _ => invalid
  end.

(** A view of an image that has its memory. *)
Definition create_view (image : Z) : vk vk_error Z :=
  '(_, b) ← load image;
  match b with
  | Image stamp _ _ _ _ _ (Some _) => create (ImageView image stamp)
  | _ => invalid
  end.

(** Waits for nothing when no buffer is pending. *)
Definition device_wait_idle : vk vk_error unit := ask.

(** ** Compute *)

Definition create_shader_module (code : string) : vk vk_error Z := create (ShaderModule code).
Definition destroy_shader_module {E} : Z -> vk E unit :=
  destroy (fun b => match b with ShaderModule _ => true | _ => false end).

(** Storage buffers, one at each of the first bindings. *)
Definition create_descriptor_set_layout (bindings : nat) : vk vk_error Z := create (SetLayout bindings).
Definition destroy_descriptor_set_layout {E} : Z -> vk E unit :=
  destroy (fun b => match b with SetLayout _ => true | _ => false end).

(** One set and one range of push constants. *)
Definition create_pipeline_layout (set_layout push : Z) : vk vk_error Z :=
  '(_, b) ← load set_layout;
  match b with
  | SetLayout n => assert_valid ((0 <? push) && (push mod 4 =? 0) && (push <=? 128));; create (PipelineLayout n push)
  | _ => invalid
  end.
Definition destroy_pipeline_layout {E} : Z -> vk E unit :=
  destroy (fun b => match b with PipelineLayout _ _ => true | _ => false end).

(** A pipeline for each module and layout; a failure leaves those made before. *)
Fixpoint create_compute_pipelines (stages : list (Z * Z)) : vk vk_error (list Z) :=
  match stages with
  | [] => mret []
  | (module, layout) :: stages =>
      '(_, m) ← load module;
      '(_, l) ← load layout;
      match m, l with
      | ShaderModule code, PipelineLayout n push =>
          p ← create (Pipeline code n push);
          ps ← create_compute_pipelines stages;
          mret (p :: ps)
      | _, _ => invalid
      end
  end.
Definition destroy_pipeline {E} : Z -> vk E unit :=
  destroy (fun b => match b with Pipeline _ _ _ => true | _ => false end).

(** The pools of the code do not ask for sets to be freed singly. *)
Definition create_descriptor_pool (max_sets max_buffers : Z) : vk vk_error Z :=
  create (DescriptorPool max_sets max_buffers false []).

(** [VK_ERROR_OUT_OF_POOL_MEMORY]. *)
Definition OUT_OF_POOL_MEMORY : Z := -1000069000.

Fixpoint load_set_layouts {E} (layouts : list Z) : vk E (list nat) :=
  match layouts with
  | [] => mret []
  | l :: layouts =>
      '(_, b) ← load l;
      match b with
      | SetLayout n => ns ← load_set_layouts layouts; mret (n :: ns)
      | _ => invalid
      end
  end.

Fixpoint alloc_sets {E} (ns : list nat) : vk E (list (Z * nat)) :=
  match ns with
  | [] => mret []
  | n :: ns => s ← alloc (DescriptorSet (replicate n None)); ss ← alloc_sets ns; mret ((s, n) :: ss)
  end.

(** A pool that has no room says so. *)
Definition allocate_descriptor_sets (pool : Z) (layouts : list Z) : vk vk_error (list Z) :=
  ns ← load_set_layouts layouts;
  b ← idle pool;
  match b with
  | DescriptorPool max_sets max_buffers freeing sets =>
      if (zlen sets + zlen ns <=? max_sets) &&
         (Z.of_nat (sum_list (snd <$> sets)) + Z.of_nat (sum_list ns) <=? max_buffers) then
        ask;;
        ss ← alloc_sets ns;
        store pool O (DescriptorPool max_sets max_buffers freeing (ss ++ sets));;
        mret (fst <$> ss)
      else throw (OtherError OUT_OF_POOL_MEMORY)
  | _ => invalid
  end.

(** One descriptor of a set: a storage buffer that has its memory, with a range in it. *)
Definition write_descriptor {E} (set : Z) (binding : nat) (buffer range : Z) : vk E unit :=
  b ← idle set;
  '(_, f) ← load buffer;
  match b, f with
  | DescriptorSet slots, Buffer size us (Some _) =>
      assert_valid (bool_decide (binding < length slots)%nat && bool_decide (StorageBuffer ∈ us) &&
        (0 <? range) && (range <=? size));;
      store set O (DescriptorSet (<[binding := Some (buffer, range)]> slots))
  | _, _ => invalid
  end.

Definition drop_descriptor_set {E} : Z -> vk E unit :=
  destroy (fun b => match b with DescriptorSet _ => true | _ => false end).

Definition reset_descriptor_pool (pool : Z) : vk vk_error unit :=
  b ← idle pool;
  match b with
  | DescriptorPool max_sets max_buffers freeing sets =>
      ask;; each drop_descriptor_set (fst <$> sets);;
      store pool O (DescriptorPool max_sets max_buffers freeing [])
  | _ => invalid
  end.

(** Only a pool that was made for it lets sets be freed. *)
Definition free_descriptor_sets {E} (pool : Z) (sets : list Z) : vk E unit :=
  b ← idle pool;
  match b with
  | DescriptorPool max_sets max_buffers true have =>
      assert_valid (forallb (fun s => bool_decide (s ∈ fst <$> have)) sets);;
      each drop_descriptor_set sets;;
      store pool O (DescriptorPool max_sets max_buffers true (filter (fun s => s.1 ∉ sets) have))
  | _ => invalid
  end.

Definition destroy_descriptor_pool {E} (pool : Z) : vk E unit :=
  b ← idle pool;
  match b with
  | DescriptorPool _ _ _ sets => each drop_descriptor_set (fst <$> sets);; remove pool
  | _ => invalid
  end.

(** ** The upscaler's library

    Its context is bound to the two sizes; its dispatch records into a buffer that is
    being recorded, and may fail. *)

Definition fsr_interface : vk vk_error unit := ask.

Definition fsr_context_new (render display : Z * Z) : vk vk_error Z := create (FsrContext render display).

Definition fsr_context_destroy {E} : Z -> vk E unit :=
  destroy (fun b => match b with FsrContext _ _ => true | _ => false end).

Definition fsr_dispatch (c fsr : Z) (color depth motion output : Z * Z) : vk vk_error unit :=
  ask;; record c (FsrDispatch fsr color depth motion output).
