(* ===== verification/VulkanLogic.v ===== *)
(** A linear separation logic over the objects of a Vulkan device: assertions own
    objects, and cannot forget one.

    [wp] holds when the operation is valid whatever the driver answers and whatever
    else lives; its postcondition owns exactly what is left.  An operation that ends
    in [emp] destroys all it was given and all it made. *)

From stdpp Require Import gmap.
From iris.bi Require Export bi.
From iris.proofmode Require Export proofmode.
From S2P Require Import Prelude Vulkan.

(** ** Assertions *)

Record oprop := OProp { holds : objects -> Prop }.
Arguments holds !_ _ /.

Section Connectives.
#[local] Instance oprop_equiv : Equiv oprop := fun P Q => forall m, holds P m <-> holds Q m.
#[local] Instance oprop_equivalence : Equivalence (≡@{oprop}).
Proof. unfold equiv, oprop_equiv. split; repeat intro; naive_solver. Qed.
Canonical Structure opropO := discreteO oprop.

Definition o_entails_def (P Q : oprop) : Prop := forall m, holds P m -> holds Q m.
Definition o_entails_aux : seal o_entails_def. Proof. by eexists. Qed.
Definition o_entails : oprop -> oprop -> Prop := unseal o_entails_aux.
Lemma o_entails_eq : o_entails = o_entails_def.
Proof. apply seal_eq. Qed.
Definition o_emp : oprop := OProp (fun m => m = ∅).
Definition o_pure (φ : Prop) : oprop := OProp (fun _ => φ).
Definition o_and (P Q : oprop) : oprop := OProp (fun m => holds P m /\ holds Q m).
Definition o_or (P Q : oprop) : oprop := OProp (fun m => holds P m \/ holds Q m).
Definition o_impl (P Q : oprop) : oprop := OProp (fun m => holds P m -> holds Q m).
Definition o_forall (A : Type) (P : A -> oprop) : oprop := OProp (fun m => forall a, holds (P a) m).
Definition o_exist (A : Type) (P : A -> oprop) : oprop := OProp (fun m => exists a, holds (P a) m).
Definition o_sep (P Q : oprop) : oprop := OProp (fun m =>
  exists m1 m2, m = m1 ∪ m2 /\ m1 ##ₘ m2 /\ holds P m1 /\ holds Q m2).
Definition o_wand (P Q : oprop) : oprop := OProp (fun m =>
  forall m', m ##ₘ m' -> holds P m' -> holds Q (m ∪ m')).
Definition o_persistently (P : oprop) : oprop := o_pure (o_entails o_emp P).

Ltac o_solve :=
  unfold o_entails_def, dist, ofe_dist, discrete_dist, equiv, oprop_equiv in *; cbn in *; naive_solver.

Lemma oprop_bi_mixin :
  BiMixin o_entails o_emp o_pure o_and o_or o_impl o_forall o_exist o_sep o_wand.
Proof.
  rewrite o_entails_eq. split.
  - split; repeat intro; o_solve.
  - repeat intro; o_solve.
  - repeat intro; o_solve.
  - intros n P P' HP Q Q' HQ m. specialize (HP m). specialize (HQ m). o_solve.
  - intros n P P' HP Q Q' HQ m. specialize (HP m). specialize (HQ m). o_solve.
  - intros n P P' HP Q Q' HQ m. specialize (HP m). specialize (HQ m). o_solve.
  - intros A n Φ Ψ HΦ m. split; intros H a; by apply (HΦ a m).
  - intros A n Φ Ψ HΦ m. split; intros [a H]; exists a; by apply (HΦ a m).
  - intros n P P' HP Q Q' HQ m. split; intros (m1 & m2 & ? & ? & H1 & H2); exists m1, m2;
      (split_and!; [done..|by apply (HP m1)|by apply (HQ m2)]).
  - intros n P P' HP Q Q' HQ m. split; intros H m' Hd Hp; apply (HQ (m ∪ m')), (H m' Hd), (HP m'), Hp.
  - o_solve.
  - o_solve.
  - o_solve.
  - o_solve.
  - o_solve.
  - o_solve.
  - o_solve.
  - o_solve.
  - o_solve.
  - o_solve.
  - o_solve.
  - o_solve.
  - o_solve.
  - o_solve.
  - o_solve.
  - intros P m H. exists ∅, m. split_and!; [by rewrite map_empty_union|by apply map_disjoint_empty_l|done..].
  - intros P m (m1 & m2 & -> & _ & -> & H). by rewrite map_empty_union.
  - intros P Q m (m1 & m2 & -> & Hd & H1 & H2). exists m2, m1.
    by split_and!; [apply map_union_comm|..].
  - intros P Q R m (m12 & m3 & -> & Hd & (m1 & m2 & -> & Hd' & H1 & H2) & H3).
    apply map_disjoint_union_l in Hd as [Hd1 Hd2].
    exists m1, (m2 ∪ m3). split_and!; [by rewrite map_union_assoc|by apply map_disjoint_union_r|done|].
    by exists m2, m3.
  - intros P Q R HR m HP m' Hd HQ. apply HR. by exists m, m'.
  - intros P Q R HR m (m1 & m2 & -> & Hd & H1 & H2). by apply (HR m1 H1 m2 Hd).
Qed.

Lemma oprop_persistently_mixin :
  BiPersistentlyMixin o_entails o_emp o_and o_exist o_sep o_persistently.
Proof.
  eapply bi_persistently_mixin_discrete, oprop_bi_mixin; [done| |done].
  rewrite o_entails_eq. intros A Φ H. destruct (H ∅ eq_refl) as [a Ha]. exists a. by intros m ->.
Qed.

Lemma oprop_later_mixin :
  BiLaterMixin o_entails o_pure o_or o_impl o_forall o_exist o_sep o_persistently (fun P => P).
Proof. by eapply bi_later_mixin_id, oprop_bi_mixin. Qed.
End Connectives.

Canonical Structure opropI : bi := {|
  bi_ofe_mixin := ofe_mixin_of oprop;
  bi_bi_mixin := oprop_bi_mixin;
  bi_bi_persistently_mixin := oprop_persistently_mixin;
  bi_bi_later_mixin := oprop_later_mixin |}.

Lemma o_intro (P Q : oprop) : (forall m, holds P m -> holds Q m) -> P ⊢ Q.
Proof. change (P ⊢ Q) with (o_entails P Q). by rewrite o_entails_eq. Qed.

Lemma o_in (P Q : oprop) m : (P ⊢ Q) -> holds P m -> holds Q m.
Proof. change (P ⊢ Q) with (o_entails P Q). rewrite o_entails_eq. auto. Qed.

#[export] Instance oprop_pure_forall : BiPureForall opropI.
Proof. intros A φ. apply o_intro. intros m H a. exact (H a). Qed.

(** ** The handle of a new object *)

Lemma next_handle_fresh (m : objects) : m !! next_handle m = None.
Proof.
  unfold next_handle. assert (H : map_Forall (fun k _ => k < map_fold (fun k _ n => Z.max (k + 1) n) 1 m) m).
  { apply (map_fold_weak_ind (fun n m => map_Forall (fun k _ => k < n) m)); [apply map_Forall_empty|].
    intros k o m' n Hk IH. apply map_Forall_insert; [done|]. split; [lia|].
    intros k' o' Hk'. specialize (IH _ _ Hk'). cbn in IH. lia. }
  destruct (m !! _) as [o|] eqn:E; [|done]. specialize (H _ _ E). cbn in H. lia.
Qed.

(** ** Owning an object, and running an operation *)

(** [h ↦{n} b]: the object [h] is [b] and the device uses it [n] times. *)
Definition points_to (h : Z) (n : nat) (b : body) : oprop := OProp (fun m => m = {[h := (n, b)]}).

Notation "h ↦{ n } b" := (points_to h n b) (at level 20, format "h  ↦{ n }  b") : bi_scope.
Notation "h ↦ b" := (points_to h O b) (at level 20) : bi_scope.

(** [Φ] for a value, [Ψ] for an error. *)
Definition wp {E A} (d : driver) (m : vk E A) (Φ : A -> oprop) (Ψ : E -> oprop) : oprop :=
  OProp (fun σ => forall root n rest, σ ##ₘ rest ->
    exists n' σ' r, m d (mkGpu root n (σ ∪ rest)) = Some (mkGpu root n' (σ' ∪ rest), r) /\
      σ' ##ₘ rest /\ holds (match r with inl a => Φ a | inr e => Ψ e end) σ').

(** What a [wp] says of a run. *)
Lemma wp_run {E A} d (m : vk E A) (P : oprop) Φ Ψ σ root n rest :
  (P ⊢ wp d m Φ Ψ) -> holds P σ -> σ ##ₘ rest ->
  exists n' σ' r, m d (mkGpu root n (σ ∪ rest)) = Some (mkGpu root n' (σ' ∪ rest), r) /\
    σ' ##ₘ rest /\ holds (match r with inl a => Φ a | inr e => Ψ e end) σ'.
Proof. intros Hm Hp. exact (o_in _ _ σ Hm Hp root n rest). Qed.

(** Owning a part of the objects: the rest is as it was. *)
Lemma wp_run_on {E A} d (m : vk E A) (P : oprop) Φ Ψ σ root n objs :
  (P ⊢ wp d m Φ Ψ) -> holds P σ -> σ ⊆ objs ->
  exists n' σ' r, m d (mkGpu root n objs) = Some (mkGpu root n' (σ' ∪ (objs ∖ σ)), r) /\
    σ' ##ₘ objs ∖ σ /\ holds (match r with inl a => Φ a | inr e => Ψ e end) σ'.
Proof.
  intros Hm Hp Hs. destruct (wp_run d m P Φ Ψ σ root n (objs ∖ σ) Hm Hp) as (n' & σ' & r & E' & Hr).
  { by apply map_disjoint_difference_r1. }
  exists n', σ', r. by rewrite map_difference_union in E'.
Qed.

Section Rules.
Context (d : driver).
Implicit Types (P Q : oprop).

Lemma wp_ret {E A} (a : A) Φ (Ψ : E -> oprop) : Φ a ⊢ wp d (mret a) Φ Ψ.
Proof. apply o_intro. intros σ H root n rest Hd. by exists n, σ, (inl a). Qed.

Lemma wp_throw {E A} (e : E) (Φ : A -> oprop) Ψ : Ψ e ⊢ wp d (throw e) Φ Ψ.
Proof. apply o_intro. intros σ H root n rest Hd. by exists n, σ, (inr e). Qed.

Lemma wp_bind {E A B} (m : vk E A) (f : A -> vk E B) Φ Ψ :
  wp d m (fun a => wp d (f a) Φ Ψ) Ψ ⊢ wp d (m ≫= f) Φ Ψ.
Proof.
  apply o_intro. intros σ H root n rest Hd. cbv [mbind vk_bind].
  destruct (H root n rest Hd) as (n1 & σ1 & [a|e] & -> & Hd1 & H1).
  - apply (H1 root n1 rest Hd1).
  - by exists n1, σ1, (inr e).
Qed.

Lemma wp_or_else {E E' A} (m : vk E A) (f : E -> vk E' A) Φ Ψ :
  wp d m Φ (fun e => wp d (f e) Φ Ψ) ⊢ wp d (or_else m f) Φ Ψ.
Proof.
  apply o_intro. intros σ H root n rest Hd. unfold or_else.
  destruct (H root n rest Hd) as (n1 & σ1 & [a|e] & -> & Hd1 & H1).
  - by exists n1, σ1, (inl a).
  - apply (H1 root n1 rest Hd1).
Qed.

Lemma wp_map_err {E E' A} (f : E -> E') (m : vk E A) Φ Ψ :
  wp d m Φ (fun e => Ψ (f e)) ⊢ wp d (map_err f m) Φ Ψ.
Proof.
  etrans; [|apply wp_or_else]. apply o_intro. intros σ H root n rest Hd.
  destruct (H root n rest Hd) as (n1 & σ1 & [a|e] & Hm & Hd1 & H1); eexists n1, σ1, _;
    (split_and!; [exact Hm|done|]); [done|]. cbn. intros ? ? ? ?. by eexists _, _, (inr (f e)).
Qed.

Lemma wp_frame {E A} (m : vk E A) P Φ Ψ :
  P ∗ wp d m Φ Ψ ⊢ wp d m (fun a => P ∗ Φ a) (fun e => P ∗ Ψ e).
Proof.
  apply o_intro. intros σ (σ1 & σ2 & -> & Hd & HP & H) root n rest Hr.
  apply map_disjoint_union_l in Hr as [Hr1 Hr2].
  destruct (H root n (σ1 ∪ rest)) as (n' & σ' & r & Hm & Hd' & Hp).
  { apply map_disjoint_union_r. by split. }
  apply map_disjoint_union_r in Hd' as [Hd1 Hd2].
  exists n', (σ1 ∪ σ'), r. split_and!.
  - rewrite (map_union_comm σ1 σ2); [|done]. rewrite -(map_union_assoc σ2) Hm (map_union_assoc σ').
    rewrite (map_union_comm σ1 σ'); done.
  - by apply map_disjoint_union_l.
  - destruct r; exists σ1, σ'; by split_and!.
Qed.

Lemma wp_mono {E A} (m : vk E A) Φ Φ' Ψ Ψ' :
  (forall a, Φ a ⊢ Φ' a) -> (forall e, Ψ e ⊢ Ψ' e) -> wp d m Φ Ψ ⊢ wp d m Φ' Ψ'.
Proof.
  intros H1 H2. apply o_intro. intros σ H root n rest Hd. destruct (H root n rest Hd) as (n' & σ' & [a|e] & Hm & Hd' & Hp);
    eexists n', σ', _; (split_and!; [exact Hm|done|]); [exact (o_in _ _ _ (H1 a) Hp)|exact (o_in _ _ _ (H2 e) Hp)].
Qed.

Lemma wp_wand {E A} (m : vk E A) Φ Φ' Ψ Ψ' :
  wp d m Φ Ψ -∗ (∀ a, Φ a -∗ Φ' a) ∧ (∀ e, Ψ e -∗ Ψ' e) -∗ wp d m Φ' Ψ'.
Proof.
  iIntros "Hm H". iCombine "H Hm" as "H". rewrite wp_frame. iStopProof. apply wp_mono.
  - intros a. iIntros "[H Ha]". iApply ("H" with "Ha").
  - intros e. iIntros "[H He]". iApply ("H" with "He").
Qed.

(** ** The steps *)

Lemma wp_says {E A} (f : driver -> nat -> A) Φ (Ψ : E -> oprop) :
  (∀ n, Φ (f d n)) ⊢ wp d (driver_says f) Φ Ψ.
Proof. apply o_intro. intros σ H root n rest Hd. exists (S n), σ, (inl (f d n)). split_and!; [done|done|apply H]. Qed.

Lemma wp_assert {E} b Φ (Ψ : E -> oprop) : b = true -> Φ tt ⊢ wp d (assert_valid b) Φ Ψ.
Proof. intros ->. apply wp_ret. Qed.

(** Splitting off an object. *)
Lemma holds_points_to h n b P σ : holds (h ↦{n} b ∗ P)%I σ ->
  exists σ', σ = <[h := (n, b)]> σ' /\ σ' !! h = None /\ holds P σ'.
Proof.
  intros (m1 & σ' & -> & Hd & Hb & HP). cbn in Hb. subst m1. exists σ'.
  rewrite <- insert_union_singleton_l. split_and!; [done|by eapply map_disjoint_singleton_l|done].
Qed.

Lemma insert_points_to h n b P σ' : σ' !! h = None ->
  holds (h ↦{n} b -∗ P)%I σ' -> holds P (<[h := (n, b)]> σ').
Proof.
  intros Hh H. rewrite -> insert_union_singleton_l, map_union_comm by (by apply map_disjoint_singleton_l).
  apply H; [by apply map_disjoint_singleton_r|reflexivity].
Qed.

Lemma wp_alloc {E} b Φ (Ψ : E -> oprop) : (∀ h, h ↦ b -∗ Φ h) ⊢ wp d (alloc b) Φ Ψ.
Proof.
  apply o_intro. intros σ H root n rest Hd. unfold alloc. cbn.
  set (h := next_handle (σ ∪ rest)).
  pose proof (next_handle_fresh (σ ∪ rest)) as Hf. fold h in Hf.
  apply lookup_union_None in Hf as [Hf1 Hf2].
  exists n, (<[h := (O, b)]> σ), (inl h). split_and!.
  - by rewrite insert_union_l.
  - by apply map_disjoint_insert_l.
  - by apply insert_points_to.
Qed.

Lemma wp_load {E} h n b Φ (Ψ : E -> oprop) :
  h ↦{n} b ∗ (h ↦{n} b -∗ Φ (n, b)) ⊢ wp d (load h) Φ Ψ.
Proof.
  apply o_intro. intros σ (σ' & -> & Hh & H)%holds_points_to root c rest Hd. unfold load. cbn.
  rewrite <- insert_union_l, lookup_insert_eq, insert_union_l.
  eexists c, _, (inl (n, b)). split_and!; [done|done|]. by apply insert_points_to.
Qed.

Lemma wp_store {E} h n b n' b' Φ (Ψ : E -> oprop) :
  h ↦{n} b ∗ (h ↦{n'} b' -∗ Φ tt) ⊢ wp d (store h n' b') Φ Ψ.
Proof.
  apply o_intro. intros σ (σ' & -> & Hh & H)%holds_points_to root c rest Hd. unfold store. cbn.
  apply map_disjoint_insert_l in Hd as [Hr Hd].
  rewrite <- insert_union_l, lookup_insert_eq, insert_insert_eq, insert_union_l.
  eexists c, (<[h := (n', b')]> σ'), (inl tt). split_and!; [done|by apply map_disjoint_insert_l|].
  by apply insert_points_to.
Qed.

Lemma wp_remove {E} h n b Φ (Ψ : E -> oprop) : h ↦{n} b ∗ Φ tt ⊢ wp d (remove h) Φ Ψ.
Proof.
  apply o_intro. intros σ (σ' & -> & Hh & H)%holds_points_to root c rest Hd. unfold remove. cbn.
  apply map_disjoint_insert_l in Hd as [Hr Hd].
  rewrite <- insert_union_l, lookup_insert_eq. rewrite delete_insert_id; [|by apply lookup_union_None].
  by exists c, σ', (inl tt).
Qed.
End Rules.

(** ** Running an operation step by step

    [vk_step] runs the next step, [vk_steps] as many as it can; objects are found by
    their handle.  An operation that can fail leaves two goals, after it and after its
    error. *)

Create HintDb vk discriminated.

Ltac vk_simpl := cbv beta iota zeta.
Ltac vk_refl := repeat match goal with |- context [bool_decide (?a = ?a)] =>
  rewrite (bool_decide_eq_true_2 (a = a) eq_refl) end.
Ltac vk_side :=
  first [done | vk_refl; cbn [fst snd]; rewrite ?Z.leb_refl ?Z.eqb_refl ?orb_true_r; vm_compute; reflexivity
        | solve [eauto with vk]].

Ltac vk_step :=
  lazymatch goal with
  | |- environments.envs_entails _ (wp _ ?m _ _) =>
    lazymatch m with
    | mbind _ _ => iApply wp_bind
    | mret _ => iApply wp_ret
    | throw _ => iApply wp_throw
    | map_err _ _ => iApply wp_map_err
    | or_else _ _ => iApply wp_or_else
    | driver_says _ => iApply wp_says; iIntros (?)
    | assert_valid _ => iApply wp_assert; [vk_side|]
    | alloc _ => iApply wp_alloc; iIntros (?) "?"
    | load ?h => iSelect (points_to h _ _) (fun H => iApply wp_load; iFrame H; iIntros H)
    | store ?h _ _ => iSelect (points_to h _ _) (fun H => iApply wp_store; iFrame H; iIntros H)
    | remove ?h => iSelect (points_to h _ _) (fun H => iApply wp_remove; iFrame H)
    end
  end; vk_simpl.

Ltac vk_steps := repeat vk_step.

Section Calls.
Context (d : driver).

Lemma wp_idle {E} h b Φ (Ψ : E -> oprop) : h ↦ b -∗ (h ↦ b -∗ Φ b) -∗ wp d (idle h) Φ Ψ.
Proof. iIntros "? H". unfold idle. vk_steps. by iApply "H". Qed.

Lemma wp_ask Φ Ψ : Φ tt ∧ (∀ e, Ψ e) -∗ wp d ask Φ Ψ.
Proof.
  iIntros "H". unfold ask. vk_steps. destruct (d_error d n); vk_step.
  - iDestruct "H" as "[_ H]". iApply "H".
  - iDestruct "H" as "[H _]". iApply "H".
Qed.

Lemma wp_create b Φ Ψ : (∀ h, h ↦ b -∗ Φ h) ∧ (∀ e, Ψ e) -∗ wp d (create b) Φ Ψ.
Proof.
  iIntros "H". unfold create. vk_step. iApply wp_ask. iSplit.
  - vk_step. iDestruct "H" as "[H _]". by iApply "H".
  - iDestruct "H" as "[_ H]". iApply "H".
Qed.

Lemma wp_destroy {E} p h b Φ (Ψ : E -> oprop) : p b = true -> h ↦ b -∗ Φ tt -∗ wp d (destroy p h) Φ Ψ.
Proof. iIntros (Hp) "? H". unfold destroy. vk_step. iApply (wp_idle with "[$]"). iIntros "?". rewrite Hp. by vk_steps. Qed.

Lemma wp_destroy_fence {E} h st Φ (Ψ : E -> oprop) : (forall c, st <> InFlight c) ->
  h ↦ Fence st -∗ Φ tt -∗ wp d (destroy_fence h) Φ Ψ.
Proof. intros Hst. apply wp_destroy. destruct st; naive_solver. Qed.

Lemma wp_create_buffer_raw size us Φ Ψ : 0 < size ->
  (∀ h, h ↦ Buffer size us None -∗ Φ h) ∧ (∀ e, Ψ e) -∗ wp d (create_buffer_raw size us) Φ Ψ.
Proof.
  iIntros (Hs) "H". unfold create_buffer_raw. vk_step. iApply wp_assert; [by apply Z.ltb_lt|].
  by iApply wp_create.
Qed.

Lemma wp_create_image_raw w h us Φ Ψ : 0 < w <= d_max_dimension d -> 0 < h <= d_max_dimension d ->
  (∀ i st, i ↦ Image st w h us Undefined [] None -∗ Φ i) ∧ (∀ e, Ψ e) -∗ wp d (create_image_raw w h us) Φ Ψ.
Proof.
  iIntros (Hw Hh) "H". unfold create_image_raw. do 3 vk_step.
  iApply wp_assert; [rewrite !andb_true_iff !Z.ltb_lt !Z.leb_le; lia|]. do 2 vk_step.
  iApply wp_create. iSplit; [iDestruct "H" as "[H _]"; iIntros (i) "Hi"; by iApply "H"|iDestruct "H" as "[_ $]"].
Qed.

Lemma wp_allocate_memory size i flags Φ Ψ : get (d_types d) i = Some flags -> 0 < size ->
  (∀ m, m ↦ Memory size flags false [] -∗ Φ m) ∧ (∀ e, Ψ e) -∗ wp d (allocate_memory size i) Φ Ψ.
Proof.
  iIntros (Hi Hs) "H". unfold allocate_memory. vk_steps. rewrite Hi. vk_step.
  iApply wp_assert; [by apply Z.ltb_lt|]. by iApply wp_create.
Qed.

(** Binding memory to what [with_memory] makes bound. *)
Lemma wp_bind_memory h m b b' size flags mapped bytes Φ Ψ :
  match b with
  | Buffer sz us None => b' = Buffer sz us (Some m)
  | Image st w ht us l px None => b' = Image st w ht us l px (Some m)
  | _ => False
  end ->
  h ↦ b -∗ m ↦ Memory size flags mapped bytes -∗
  (h ↦ b' -∗ m ↦ Memory size flags mapped bytes -∗ Φ tt) ∧
  (∀ e, h ↦ b -∗ m ↦ Memory size flags mapped bytes -∗ Ψ e) -∗
  wp d (bind_memory h m) Φ Ψ.
Proof.
  iIntros (Hb) "Hh Hm H". unfold bind_memory.
  vk_step. iApply (wp_idle with "Hh"). iIntros "Hh". vk_step. iApply (wp_idle with "Hm"). iIntros "Hm". vk_simpl.
  destruct b as [| | |? ? []| |? ? ? ? ? ? []| | | | | | | | | | |]; try done; subst b'; vk_step; iApply wp_ask; (iSplit;
    [iDestruct "H" as "[H _]"; vk_step; iApply ("H" with "[$] [$]")|
     iDestruct "H" as "[_ H]"; iIntros (e); iApply ("H" with "[$] [$]")]).
Qed.

Definition HOST : Z := Z.lor HOST_VISIBLE HOST_COHERENT.

Lemma wp_map_memory m n size msize flags bytes Φ Ψ : 0 < size <= msize -> has_flags flags HOST = true ->
  m ↦{n} Memory msize flags false bytes -∗
  (m ↦{n} Memory msize flags true bytes -∗ Φ tt) ∧
  (∀ e, m ↦{n} Memory msize flags false bytes -∗ Ψ e) -∗
  wp d (map_memory m size) Φ Ψ.
Proof.
  iIntros (Hs Hf) "Hm H". unfold map_memory. do 2 vk_step. vk_step.
  iApply wp_assert; [rewrite !andb_true_iff Z.ltb_lt Z.leb_le; split; [lia|done]|].
  vk_step. iApply wp_ask. iSplit.
  - vk_step. iDestruct "H" as "[H _]". by iApply "H".
  - iIntros (e). iDestruct "H" as "[_ H]". by iApply "H".
Qed.

Lemma wp_unmap_memory {E} m n msize flags bytes Φ (Ψ : E -> oprop) :
  m ↦{n} Memory msize flags true bytes -∗
  (m ↦{n} Memory msize flags false bytes -∗ Φ tt) -∗ wp d (unmap_memory m) Φ Ψ.
Proof. iIntros "? H". unfold unmap_memory. vk_steps. by iApply "H". Qed.

Lemma wp_write_mapped {E} m msize flags data bytes Φ (Ψ : E -> oprop) : zlen data <= msize ->
  m ↦ Memory msize flags true bytes -∗
  (m ↦ Memory msize flags true (overwrite data bytes) -∗ Φ tt) -∗ wp d (write_mapped m data) Φ Ψ.
Proof.
  iIntros (Hl) "Hm H". unfold write_mapped. vk_step. iApply (wp_idle with "Hm"). iIntros "Hm". vk_simpl.
  vk_step. iApply wp_assert; [by apply Z.leb_le|]. vk_steps. by iApply "H".
Qed.

Lemma wp_read_mapped {E} m msize flags size bytes Φ (Ψ : E -> oprop) : size <= msize ->
  m ↦ Memory msize flags true bytes -∗
  (m ↦ Memory msize flags true bytes -∗ Φ (known d size bytes)) -∗ wp d (read_mapped m size) Φ Ψ.
Proof.
  iIntros (Hl) "Hm H". unfold read_mapped. vk_step. iApply (wp_idle with "Hm"). iIntros "Hm". vk_simpl.
  vk_step. iApply wp_assert; [by apply Z.leb_le|]. vk_steps. by iApply "H".
Qed.

(** ** Command buffers *)

Lemma wp_allocate_command_buffer pool cs Φ Ψ :
  pool ↦ CommandPool cs -∗
  (∀ c, pool ↦ CommandPool (c :: cs) -∗ c ↦ CommandBuffer Initial -∗ Φ c) ∧
  (∀ e, pool ↦ CommandPool cs -∗ Ψ e) -∗
  wp d (allocate_command_buffer pool) Φ Ψ.
Proof.
  iIntros "Hp H". unfold allocate_command_buffer. do 2 vk_step. vk_step. iApply wp_ask. iSplit.
  - vk_steps. iDestruct "H" as "[H _]". by iApply ("H" with "[$]").
  - iIntros (e). iDestruct "H" as "[_ H]". by iApply "H".
Qed.

Lemma wp_drop_command_buffer {E} c st Φ (Ψ : E -> oprop) : not_pending st = true ->
  c ↦ CommandBuffer st -∗ Φ tt -∗ wp d (drop_command_buffer c) Φ Ψ.
Proof. intros H. by apply wp_destroy. Qed.

Lemma wp_free_command_buffer {E} pool c cs st Φ (Ψ : E -> oprop) : not_pending st = true ->
  pool ↦ CommandPool (c :: cs) -∗ c ↦ CommandBuffer st -∗
  (pool ↦ CommandPool cs -∗ Φ tt) -∗ wp d (free_command_buffer pool c) Φ Ψ.
Proof.
  iIntros (Hst) "Hp Hc H". unfold free_command_buffer. do 2 vk_step. cbn [remove_first].
  rewrite decide_True //. vk_step. iApply (wp_drop_command_buffer with "Hc"); [done|].
  vk_step. by iApply "H".
Qed.

Lemma wp_begin_command_buffer c st Φ Ψ :
  match st with Initial | Executable _ => True | _ => False end ->
  c ↦ CommandBuffer st -∗
  (c ↦ CommandBuffer (Recording []) -∗ Φ tt) ∧ (∀ e, c ↦ CommandBuffer st -∗ Ψ e) -∗
  wp d (begin_command_buffer c) Φ Ψ.
Proof.
  iIntros (Hst) "Hc H". unfold begin_command_buffer. vk_step. iApply (wp_idle with "Hc"). iIntros "Hc".
  destruct st; try done; vk_simpl; vk_step; iApply wp_ask; (iSplit;
    [iDestruct "H" as "[H _]"; vk_step; by iApply "H"|
     iDestruct "H" as "[_ H]"; iIntros (e); by iApply "H"]).
Qed.

Lemma wp_record {E} c cs cmd Φ (Ψ : E -> oprop) :
  c ↦ CommandBuffer (Recording cs) -∗
  (c ↦ CommandBuffer (Recording (cs ++ [cmd])) -∗ Φ tt) -∗ wp d (record c cmd) Φ Ψ.
Proof.
  iIntros "Hc H". unfold record. vk_step. iApply (wp_idle with "Hc"). iIntros "Hc". vk_steps. by iApply "H".
Qed.

Lemma wp_end_command_buffer c cs Φ Ψ :
  c ↦ CommandBuffer (Recording cs) -∗
  (c ↦ CommandBuffer (Executable cs) -∗ Φ tt) ∧ (∀ e, c ↦ CommandBuffer (Recording cs) -∗ Ψ e) -∗
  wp d (end_command_buffer c) Φ Ψ.
Proof.
  iIntros "Hc H". unfold end_command_buffer. vk_step. iApply (wp_idle with "Hc"). iIntros "Hc". vk_simpl.
  vk_step. iApply wp_ask. iSplit.
  - iDestruct "H" as "[H _]". vk_step. by iApply "H".
  - iDestruct "H" as "[_ H]". iIntros (e). by iApply "H".
Qed.

(** ** Submission *)

Lemma wp_use {E} h n b Φ (Ψ : E -> oprop) :
  h ↦{n} b -∗ (h ↦{S n} b -∗ Φ tt) -∗ wp d (use h) Φ Ψ.
Proof. iIntros "? H". unfold use. vk_steps. by iApply "H". Qed.

Lemma wp_unuse {E} h n b Φ (Ψ : E -> oprop) :
  h ↦{S n} b -∗ (h ↦{n} b -∗ Φ tt) -∗ wp d (unuse h) Φ Ψ.
Proof. iIntros "? H". unfold unuse. vk_steps. by iApply "H". Qed.

(** On a device that works in order a command reads what was written. *)
Lemma wp_seen `{!InOrder d} {E} loose h px Φ (Ψ : E -> oprop) : Φ px -∗ wp d (seen loose h px) Φ Ψ.
Proof. iIntros "H". unfold seen. destruct (existsb _ _); vk_steps; [by rewrite overtaken_id|done]. Qed.

(** The commands run, and the device uses what they name until the wait is over. *)
Lemma wp_queue_submit c fence cs Φ Ψ :
  c ↦ CommandBuffer (Executable cs) -∗ fence ↦ Fence Unsignaled -∗
  (wp d (exec_all (E:=vk_error) cs) (fun used => wp d (each (E:=vk_error) use used) (fun _ =>
     c ↦ CommandBuffer (Pending cs used) -∗ fence ↦ Fence (InFlight c) -∗ Φ tt)
     (fun _ => False)) (fun _ => False)) ∧
  (∀ e, c ↦ CommandBuffer (Executable cs) -∗ fence ↦ Fence Unsignaled -∗ Ψ e) -∗
  wp d (queue_submit c fence) Φ Ψ.
Proof.
  iIntros "Hc Hf H". unfold queue_submit. vk_step. iApply (wp_idle with "Hf"). iIntros "Hf". vk_step.
  iApply (wp_idle with "Hc"). iIntros "Hc". vk_simpl. vk_step. iApply wp_ask. iSplit.
  - iDestruct "H" as "[H _]". vk_step.
    iApply (wp_wand with "H"). iSplit; [|by iIntros (e) "[]"].
    iIntros (used) "H". vk_step. iApply (wp_wand with "H"). iSplit; [|by iIntros (e) "[]"].
    iIntros ([]) "H". vk_steps. iApply ("H" with "[$] [$]").
  - iDestruct "H" as "[_ H]". iIntros (e). iApply ("H" with "[$] [$]").
Qed.

Lemma wp_wait_for_fence `{!WaitsEnd d} c fence cs used Φ Ψ :
  c ↦ CommandBuffer (Pending cs used) -∗ fence ↦ Fence (InFlight c) -∗
  wp d (each (E:=vk_error) unuse used) (fun _ =>
    c ↦ CommandBuffer (Executable cs) -∗ fence ↦ Fence Signaled -∗ Φ tt ∧ Ψ DeviceLost)
    (fun _ => False) -∗
  wp d (wait_for_fence fence) Φ Ψ.
Proof.
  iIntros "Hc Hf H". unfold wait_for_fence. vk_step. iApply (wp_idle with "Hf"). iIntros "Hf". vk_steps.
  destruct (d_wait d n) as [e|] eqn:Ew; [rewrite (wait_error n e Ew)|]; vk_simpl.
  all: vk_step; iApply (wp_idle with "Hc"); iIntros "Hc"; vk_simpl; vk_step;
    iApply (wp_wand with "H"); (iSplit; [|by iIntros (?) "[]"]);
    iIntros ([]) "H"; vk_steps; iSpecialize ("H" with "[$] [$]").
  - iDestruct "H" as "[_ $]".
  - iDestruct "H" as "[$ _]".
Qed.
End Calls.

(** The calls that cannot fail run like the steps. *)
Ltac vk_destroy E d h p :=
  iSelect (points_to h _ _) (fun H => iApply (wp_destroy (E:=E) d p h with H); [done|]).

Ltac vk_call :=
  lazymatch goal with
  | |- environments.envs_entails _ (wp (E:=?E) ?d ?m _ _) =>
    let m' := eval unfold destroy_fence, destroy_buffer, destroy_image, free_memory, destroy_image_view,
      destroy_query_pool, destroy_video_session, destroy_video_session_parameters,
      destroy_shader_module, destroy_descriptor_set_layout, destroy_pipeline_layout, destroy_pipeline,
      drop_descriptor_set, fsr_context_destroy, drop_command_buffer in m in
    lazymatch m' with
    | destroy ?p ?h => change m with m'; vk_destroy E d h p
    | idle ?h => iSelect (points_to h _ _) (fun H => iApply (wp_idle (E:=E) d h with H); iIntros H)
    | use ?h => iSelect (points_to h _ _) (fun H => iApply (wp_use (E:=E) d h with H); iIntros H)
    | unuse ?h => iSelect (points_to h _ _) (fun H => iApply (wp_unuse (E:=E) d h with H); iIntros H)
    | record ?c _ => iSelect (points_to c _ _) (fun H => iApply (wp_record (E:=E) d c with H); iIntros H)
    | seen ?l ?h ?px => iApply (wp_seen (E:=E) d l h px)
    | each _ _ => cbn [each app]
    end
  end; vk_simpl.

Ltac vk_run := repeat first [vk_step | vk_call].
