(* ===== verification/VulkanContext.v ===== *)
(** The shared Vulkan context ([crates/remoteway-vulkan/src/context.rs] and [video.rs]):
    choosing a device and queue families, buffers and images with their memory, submission,
    scaling on the GPU, probing, and the end of the context.

    The handles the context keeps of its instance, device and queues are not values
    here: they are the [g_root] of the state. *)

From stdpp Require Import gmap strings sorting.
From S2P Require Import Prelude Encoder DesktopDetect Vulkan.

(** ** Requests *)

(** [QueueCapabilities] is a set of bits. *)
Definition COMPUTE : Z := 1.
Definition TRANSFER : Z := 2.
Definition VIDEO_ENCODE : Z := 4.

(** Vulkan's bits. *)
Definition VK_QUEUE_COMPUTE : Z := 2.
Definition VK_QUEUE_TRANSFER : Z := 4.
Definition VK_QUEUE_VIDEO_ENCODE : Z := 64.

Definition to_vk_queue_flags (c : Z) : Z :=
  let flags := 0 in
  let flags := if has_flags c COMPUTE then Z.lor flags VK_QUEUE_COMPUTE else flags in
  let flags := if has_flags c TRANSFER then Z.lor flags VK_QUEUE_TRANSFER else flags in
  if has_flags c VIDEO_ENCODE then Z.lor flags VK_QUEUE_VIDEO_ENCODE else flags.

Record QueueRequest := mkQueueRequest { qr_queues : list Z; qr_video_codecs : list VideoCodec }.

Definition compute_only : QueueRequest := mkQueueRequest [Z.lor COMPUTE TRANSFER] [].
Definition compute_and_encode (codec : VideoCodec) : QueueRequest :=
  mkQueueRequest [Z.lor COMPUTE TRANSFER; VIDEO_ENCODE] [codec].

Definition encode_extension (c : VideoCodec) : string :=
  match c with
  | H264 => "VK_KHR_video_encode_h264"
  | H265 => "VK_KHR_video_encode_h265"
  | Av1 => "VK_KHR_video_encode_av1"
  end.

(** The texts of the messages are left out. *)
Inductive VulkanError :=
  | LoaderFailed
  | InitFailed
  | NoDevice
  | NoSuitableQueue
  | MissingExtension (name : string)
  | Call (what : string) (code : vk_error)
  | Allocation.

Record Context := mkContext {
  cx_physical_device : physical_device; cx_queue_family : Z; cx_command_pool : Z;
  cx_video_encode_queue_family : option Z }.

Definition cx_vendor_id (c : Context) : Z := pd_vendor_id (cx_physical_device c).
Definition cx_device_name (c : Context) : text := pd_name (cx_physical_device c).

(** ** [with_request] *)

(** [.iter().position(p)] with the index. *)
Fixpoint find_index {A} (p : A -> bool) (i : Z) (l : list A) : option Z :=
  match l with
  | [] => None
  | x :: l => if p x then Some i else find_index p (i + 1) l
  end.

Definition select_device (pds : list physical_device) : option physical_device :=
  match filter (fun pd => pd_discrete pd = true) pds with
  | pd :: _ => Some pd
  | [] => head pds
  end.

Definition select_family (families : list Z) (caps : Z) : option Z :=
  find_index (fun flags => has_flags flags (to_vk_queue_flags caps)) 0 families.

Fixpoint select_families (families : list Z) (queues : list Z) : option (list (Z * Z)) :=
  match queues with
  | [] => Some []
  | caps :: queues =>
      i ← select_family families caps;
      sel ← select_families families queues;
      Some ((caps, i) :: sel)
  end.

(** [Vec::dedup]: the first of each run of equal elements. *)
Fixpoint dedup (l : list Z) : list Z :=
  match l with
  | x :: (y :: _) as l => if x =? y then dedup l else x :: dedup l
  | l => l
  end.

Definition unique_families (selected : list (Z * Z)) : list Z := dedup (merge_sort Z.le (snd <$> selected)).

Definition wants_encode (r : QueueRequest) : bool := existsb (fun c => has_flags c VIDEO_ENCODE) (qr_queues r).

Definition needed_extensions (r : QueueRequest) (extensions : list string) : list string :=
  extensions ++
  if wants_encode r
  then ["VK_KHR_video_queue"; "VK_KHR_video_encode_queue"] ++ (encode_extension <$> qr_video_codecs r)
  else [].

Definition enabled_extensions (r : QueueRequest) (extensions available : list string) : list string :=
  filter (.∈ available) (needed_extensions r extensions).

(** The family of the first request that has the capability. *)
Definition family_for (cap : Z) (selected : list (Z * Z)) : option Z :=
  snd <$> head (filter (fun s => has_flags s.1 cap = true) selected).

(** [?] on an option. *)
Definition ok_or {A} (o : option A) (e : VulkanError) : vk VulkanError A :=
  match o with Some a => mret a | None => throw e end.

Definition create_command_pool : vk vk_error Z := create (CommandPool []).

Definition with_request (r : QueueRequest) (extensions : list string) : vk VulkanError Context :=
  match qr_queues r with
  | [] => throw NoSuitableQueue
  | _ =>
      map_err (fun _ => LoaderFailed) ask;;
      map_err (fun _ => InitFailed) create_instance;;
      map_err (fun _ => InitFailed) ask;;
      pds ← driver_says (fun d _ => d_devices d);
      match select_device pds with
      | None => destroy_instance;; throw NoDevice
      | Some pd =>
          selected ← ok_or (select_families (pd_families pd) (qr_queues r)) NoSuitableQueue;
          answered ← driver_says (fun d n => d_error d n);
          let available := match answered with None => pd_extensions pd | Some _ => [] end in
          let exts := enabled_extensions r extensions available in
          or_else (create_device pd (unique_families selected) exts)
            (fun _ => destroy_instance;; throw InitFailed);;
          compute_family ← ok_or (family_for COMPUTE selected) NoSuitableQueue;
          let video_encode_family := family_for VIDEO_ENCODE selected in
          command_pool ← or_else create_command_pool
            (fun _ => destroy_device;; destroy_instance;; throw InitFailed);
          mret (mkContext pd compute_family command_pool video_encode_family)
      end
  end.

Definition new (extensions : list string) : vk VulkanError Context :=
  with_request compute_only extensions.

(** The end of the context. *)
Definition drop_context {E} (c : Context) : vk E unit :=
  destroy_command_pool (cx_command_pool c);;
  destroy_device;;
  destroy_instance.

(** ** Probes *)

(** A context for the time of a question; without one the answer is [false]. *)
Definition with_new (f : Context -> vk VulkanError bool) : vk VulkanError bool :=
  or_else (c ← new []; b ← f c; drop_context c;; mret b) (fun _ => mret false).

Definition is_vulkan_available : vk VulkanError bool := with_new (fun _ => mret true).

Definition extension_names (pd : physical_device) : vk VulkanError (list string) :=
  answered ← driver_says d_error;
  mret (match answered with None => pd_extensions pd | Some _ => [] end).

Definition probe_nvidia_optical_flow : vk VulkanError bool := with_new (fun c =>
  if negb (cx_vendor_id c =? 4318) then mret false
  else exts ← extension_names (cx_physical_device c); mret (bool_decide ("VK_NV_optical_flow" ∈ exts))).

Definition rdna3_names : list string :=
  ["rx 7"; "rx 9"; "rdna 3"; "rdna 4"; "radeon 7"; "radeon 9"].

Definition probe_rdna3_plus : vk VulkanError bool := with_new (fun c =>
  if negb (cx_vendor_id c =? 4098) then mret false
  else
    let name := to_lowercase (cx_device_name c) in
    mret (existsb (fun s => contains name (str s)) rdna3_names)).

(** The structures chained to the query, in the order of the chain. *)
Inductive chained := CodecCapabilities (codec : VideoCodec) | EncodeCapabilities (modes : list vk_rc_mode).

(** Each [push] puts its structure first. *)
Definition caps_chain (codec : VideoCodec) (p : video_caps) : list chained :=
  [CodecCapabilities codec; EncodeCapabilities (vp_modes p)].

Fixpoint extract_encode_caps (chain : list chained) : list vk_rc_mode :=
  match chain with
  | [] => []
  | EncodeCapabilities modes :: _ => modes
  | _ :: chain => extract_encode_caps chain
  end.

Definition fetch_caps (c : Context) (codec : VideoCodec) : vk VulkanError VideoEncodeCapabilities :=
  map_err (Call "get_physical_device_video_capabilities") ask;;
  p ← driver_says (fun d _ => d_caps d codec);
  let modes := extract_encode_caps (caps_chain codec p) in
  exts ← extension_names (cx_physical_device c);
  mret (mkCaps codec (vp_max p) (vp_min p) (vp_granularity p) (vp_slots p) (vp_references p) modes
    (bool_decide ("VK_KHR_video_encode_intra_refresh" ∈ exts))
    (bool_decide ("VK_KHR_video_encode_quantization_map" ∈ exts))).

(** ** Buffers and images *)

(** The first memory type that the object may have and that has the flags. *)
Definition find_memory_type (types : list Z) (bits wanted : Z) : option Z :=
  head (filter (fun i => Z.land bits (Z.shiftl 1 i) <> 0 /\
                 has_flags (default 0 (get types i)) wanted = true) (seqZ 0 (zlen types))).

(** Memory for an object that was just created, which the object does not outlive when
    there is an error. *)
Definition allocate_for (types : list Z) (req : mem_req) (wanted : Z) (h : Z)
    (destroy : forall E, Z -> vk E unit) : vk VulkanError Z :=
  match find_memory_type types (mr_type_bits req) wanted with
  | None => destroy _ h;; throw Allocation
  | Some i =>
      memory ← or_else (allocate_memory (mr_size req) i) (fun _ => destroy _ h;; throw Allocation);
      or_else (bind_memory h memory) (fun _ => free_memory memory;; destroy _ h;; throw Allocation);;
      mret memory
  end.

Definition create_buffer (size : Z) (us : list image_usage) (memory_flags : Z)
    : vk VulkanError (Z * Z) :=
  buffer ← map_err (fun _ => Allocation) (create_buffer_raw size us);
  mem_req ← driver_says (fun d n => d_buffer_req d n size);
  types ← driver_says (fun d _ => d_types d);
  memory ← allocate_for types mem_req memory_flags buffer (@destroy_buffer);
  mret (buffer, memory).

Definition create_host_buffer (size : Z) (us : list image_usage) : vk VulkanError (Z * Z) :=
  let uncached := Z.lor HOST_VISIBLE HOST_COHERENT in
  let cached := Z.lor uncached HOST_CACHED in
  or_else (create_buffer size us cached) (fun _ => create_buffer size us uncached).

Definition create_image (width height : Z) (us : list image_usage) : vk VulkanError (Z * Z) :=
  image ← map_err (fun _ => Allocation) (create_image_raw width height us);
  mem_req ← driver_says (fun d n => d_image_req d n width height);
  types ← driver_says (fun d _ => d_types d);
  mem ← allocate_for types mem_req DEVICE_LOCAL image (@destroy_image);
  mret (image, mem).

Definition upload_to_buffer (memory : Z) (data : list Z) : vk VulkanError unit :=
  map_err (fun _ => Allocation) (map_memory memory (zlen data));;
  write_mapped memory data;;
  unmap_memory memory.

Definition read_from_buffer (memory size : Z) : vk VulkanError (list Z) :=
  map_err (fun _ => Allocation) (map_memory memory size);;
  data ← read_mapped memory size;
  unmap_memory memory;;
  mret data.

(** ** Submission and scaling *)

Definition create_fence : vk vk_error Z := create (Fence Unsignaled).

(** [let result = ..; destroy; result]. *)
Definition submit_and_wait (cmd : Z) : vk VulkanError unit :=
  fence ← map_err (Call "create_fence") create_fence;
  result ← or_else
    (map_err (Call "queue_submit") (queue_submit cmd fence);;
     map_err (Call "wait_for_fences") (wait_for_fence fence);;
     mret (inl tt))
    (fun e => mret (inr e));
  destroy_fence fence;;
  match result with inl _ => mret tt | inr e => throw e end.

Definition context_command_buffer (c : Context) : vk VulkanError Z :=
  map_err (Call "allocate_command_buffers") (allocate_command_buffer (cx_command_pool c)).

Definition cmd_image_barrier (cmd image : Z) (old_layout new_layout : layout) : vk VulkanError unit :=
  record cmd (PipelineBarrier (mkBarrier image old_layout new_layout TopOfPipe Transfer)).

(** A product of sizes as [u64]s, which panics when it is too large. *)
Definition rgba_size (w h : Z) : vk VulkanError Z :=
  assert_valid (w * h * 4 <? 2 ^ 64);; mret (w * h * 4).

Definition record_upscale (cmd staging_buf src_image dst_image readback_buf : Z)
    (src_w src_h dst_w dst_h : Z) : vk VulkanError unit :=
  cmd_image_barrier cmd src_image Undefined TransferDstOptimal;;
  record cmd (CopyBufferToImage staging_buf src_image TransferDstOptimal src_w src_h);;
  cmd_image_barrier cmd src_image TransferDstOptimal TransferSrcOptimal;;
  cmd_image_barrier cmd dst_image Undefined TransferDstOptimal;;
  record cmd (BlitImage src_image TransferSrcOptimal dst_image TransferDstOptimal
    (to_signed 32 src_w, to_signed 32 src_h) (to_signed 32 dst_w, to_signed 32 dst_h));;
  cmd_image_barrier cmd dst_image TransferDstOptimal TransferSrcOptimal;;
  record cmd (CopyImageToBuffer dst_image TransferSrcOptimal readback_buf dst_w dst_h).

Definition upscale_blit (c : Context) (src : list Z) (src_w src_h dst_w dst_h : Z)
    : vk VulkanError (list Z) :=
  let host := Z.lor HOST_VISIBLE HOST_COHERENT in
  src_size ← rgba_size src_w src_h;
  dst_size ← rgba_size dst_w dst_h;
  '(staging_buf, staging_mem) ← create_buffer src_size [TransferSrc] host;
  upload_to_buffer staging_mem src;;
  '(src_image, src_image_mem) ← create_image src_w src_h [TransferSrc; TransferDst];
  '(dst_image, dst_image_mem) ← create_image dst_w dst_h [TransferSrc; TransferDst];
  '(readback_buf, readback_mem) ← create_buffer dst_size [TransferDst] host;
  cmd ← context_command_buffer c;
  map_err (Call "begin_command_buffer") (begin_command_buffer cmd);;
  record_upscale cmd staging_buf src_image dst_image readback_buf src_w src_h dst_w dst_h;;
  map_err (Call "end_command_buffer") (end_command_buffer cmd);;
  submit_and_wait cmd;;
  result ← read_from_buffer readback_mem dst_size;
  destroy_buffer staging_buf;;
  free_memory staging_mem;;
  destroy_image src_image;;
  free_memory src_image_mem;;
  destroy_image dst_image;;
  free_memory dst_image_mem;;
  destroy_buffer readback_buf;;
  free_memory readback_mem;;
  free_command_buffer (cx_command_pool c) cmd;;
  mret result.

(** ** The choice of queue families *)

Lemma find_index_spec {A} (p : A -> bool) (l : list A) i0 i : find_index p i0 l = Some i ->
  exists x, i0 <= i /\ l !! Z.to_nat (i - i0) = Some x /\ p x = true /\
    forall j y, i0 <= j < i -> l !! Z.to_nat (j - i0) = Some y -> p y = false.
Proof.
  revert i0. induction l as [|x l IH]; intros i0; cbn; [done|]. destruct (p x) eqn:Ep.
  - intros [= <-]. exists x. rewrite Z.sub_diag. split_and!; [lia|done|done|]. lia.
  - intros (y & Hi & Hy & Hp & Hbefore)%IH. exists y. split_and!; [lia| |done|].
    + by replace (Z.to_nat (i - i0)) with (S (Z.to_nat (i - (i0 + 1)))) by lia.
    + intros j z Hj. destruct (decide (j = i0)) as [->|Hne].
      * rewrite Z.sub_diag. by intros [= <-].
      * replace (Z.to_nat (j - i0)) with (S (Z.to_nat (j - (i0 + 1)))) by lia. apply Hbefore. lia.
Qed.

(** A family that has the capabilities, and the first that has. *)
Definition first_family (families : list Z) (caps i : Z) : Prop :=
  exists flags, get families i = Some flags /\ has_flags flags (to_vk_queue_flags caps) = true /\
    forall j flags', 0 <= j < i -> get families j = Some flags' ->
      has_flags flags' (to_vk_queue_flags caps) = false.

Lemma get_nonneg {A} (l : list A) i x : get l i = Some x -> 0 <= i.
Proof. unfold get. by case_decide. Qed.

Lemma select_family_first families caps i : select_family families caps = Some i ->
  first_family families caps i.
Proof.
  intros (flags & Hi & Hf & Hp & Hbefore)%find_index_spec. rewrite Z.sub_0_r in Hf.
  exists flags. unfold get. rewrite decide_True by lia. split_and!; [done|done|].
  intros j flags' Hj. rewrite decide_True by lia. intros Hj'. eapply Hbefore; [done|]. by rewrite Z.sub_0_r.
Qed.

Lemma select_families_first families queues sel : select_families families queues = Some sel ->
  fst <$> sel = queues /\ Forall (fun s => first_family families s.1 s.2) sel.
Proof.
  revert sel. induction queues as [|caps queues IH]; cbn; intros sel.
  - by intros [= <-].
  - destruct (select_family families caps) as [i|] eqn:Ei; [|done]. cbn.
    destruct (select_families families queues) as [sel'|]; [|done]. intros [= <-].
    destruct (IH _ eq_refl) as [<- Hf]. split; [done|]. constructor; [by apply select_family_first|done].
Qed.

Lemma family_for_spec cap sel i : family_for cap sel = Some i ->
  exists caps, (caps, i) ∈ sel /\ has_flags caps cap = true.
Proof.
  unfold family_for. destruct (filter _ sel) as [|[caps j] l] eqn:E; [done|]. intros [= <-].
  assert (H : (caps, j) ∈ filter (fun s => has_flags s.1 cap = true) sel) by (rewrite E; left).
  apply list_elem_of_filter in H as [Hc Hs]. by exists caps.
Qed.

(** A sorted list without equal neighbours has no equal elements. *)
Lemma dedup_cons y z l : dedup (y :: z :: l) = if y =? z then dedup (z :: l) else y :: dedup (z :: l).
Proof. done. Qed.

Lemma dedup_sub l x : x ∈ dedup l -> x ∈ l.
Proof.
  induction l as [|y [|z l] IH]; [done|done|]. rewrite dedup_cons. destruct (y =? z); [by right; apply IH|].
  rewrite elem_of_cons, (elem_of_cons (z :: l)). intros [->|H]; [by left|right; by apply IH].
Qed.

Lemma dedup_nodup l : StronglySorted Z.le l -> NoDup (dedup l).
Proof.
  induction l as [|y [|z l] IH]; intros Hs; [constructor|by apply NoDup_singleton|].
  apply StronglySorted_inv in Hs as [Hs Hall]. specialize (IH Hs). rewrite dedup_cons.
  destruct (Z.eqb_spec y z); [done|]. apply list.NoDup_cons. split; [|done].
  intros Hin%dedup_sub. apply StronglySorted_inv in Hs as [_ Hz].
  inversion Hall as [|? ? Hyz _]; subst. apply elem_of_cons in Hin as [->|Hin]; [done|].
  rewrite list.Forall_forall in Hz. specialize (Hz y Hin). lia.
Qed.

Lemma unique_families_nodup selected : NoDup (unique_families selected).
Proof. apply dedup_nodup, StronglySorted_merge_sort; apply _. Qed.

Lemma unique_families_sub selected f : f ∈ unique_families selected -> f ∈ snd <$> selected.
Proof. unfold unique_families. intros H%dedup_sub. by rewrite merge_sort_Permutation in H. Qed.

(** The device is created from families it has, each once, and extensions it has. *)
Lemma create_device_valid pd r extensions available selected :
  select_families (pd_families pd) (qr_queues r) = Some selected ->
  available = pd_extensions pd \/ available = [] ->
  bool_decide (NoDup (unique_families selected)) &&
  forallb (fun f => bool_decide (is_Some (get (pd_families pd) f))) (unique_families selected) &&
  forallb (fun e => bool_decide (e ∈ pd_extensions pd)) (enabled_extensions r extensions available) = true.
Proof.
  intros [_ Hsel]%select_families_first Hav. rewrite !andb_true_iff, bool_decide_eq_true, !forallb_forall.
  split; [split; [apply unique_families_nodup|]|].
  - intros f Hf%list_elem_of_In%unique_families_sub. apply bool_decide_eq_true.
    apply list_elem_of_fmap in Hf as ([caps i] & -> & Hs). rewrite list.Forall_forall in Hsel.
    destruct (Hsel _ Hs) as (flags & Hg & _). by exists flags.
  - intros e He%list_elem_of_In. apply bool_decide_eq_true. unfold enabled_extensions in He.
    apply list_elem_of_filter in He as [He _]. destruct Hav as [->| ->]; [done|]. by apply not_elem_of_nil in He.
Qed.

(** ** Life of a context *)

(** What a context is after [with_request]: the chosen device is one there is, and a
    discrete one if there is any; each requested set of capabilities has its first
    family, and the queues are those of the first request with the capability. *)
Definition context_ok (d : driver) (r : QueueRequest) (c : Context) : Prop :=
  let pd := cx_physical_device c in
  pd ∈ d_devices d /\
  (pd_discrete pd = true \/ Forall (fun pd => pd_discrete pd = false) (d_devices d)) /\
  (exists caps, caps ∈ qr_queues r /\ has_flags caps COMPUTE = true /\
     first_family (pd_families pd) caps (cx_queue_family c)) /\
  match cx_video_encode_queue_family c with
  | Some i => exists caps, caps ∈ qr_queues r /\ has_flags caps VIDEO_ENCODE = true /\
      first_family (pd_families pd) caps i
  | None => forall caps, caps ∈ qr_queues r -> has_flags caps VIDEO_ENCODE = false
  end.

Lemma select_device_spec pds pd : select_device pds = Some pd ->
  pd ∈ pds /\ (pd_discrete pd = true \/ Forall (fun pd => pd_discrete pd = false) pds).
Proof.
  unfold select_device. destruct (filter _ pds) as [|pd' l] eqn:E.
  - intros H. split; [by apply head_Some_elem_of|]. right. apply list.Forall_forall. intros x Hx.
    apply not_true_is_false. intros Ht.
    assert (H' : x ∈ filter (fun pd => pd_discrete pd = true) pds) by (by apply list_elem_of_filter).
    rewrite E in H'. by apply not_elem_of_nil in H'.
  - intros [= ->]. assert (H : pd ∈ filter (fun pd => pd_discrete pd = true) pds) by (rewrite E; left).
    apply list_elem_of_filter in H as [Hd Hp]. by split; [|left].
Qed.

Lemma family_for_none cap sel : family_for cap sel = None ->
  forall s, s ∈ sel -> has_flags s.1 cap = false.
Proof.
  unfold family_for. destruct (filter _ sel) as [|s0 l] eqn:E; [|done]. intros _ s Hs.
  apply not_true_is_false. intros Ht.
  assert (H : s ∈ filter (fun s => has_flags s.1 cap = true) sel) by (by apply list_elem_of_filter).
  rewrite E in H. by apply not_elem_of_nil in H.
Qed.

Lemma context_ok_selected d r pd sel i pool :
  select_device (d_devices d) = Some pd -> select_families (pd_families pd) (qr_queues r) = Some sel ->
  family_for COMPUTE sel = Some i ->
  context_ok d r (mkContext pd i pool (family_for VIDEO_ENCODE sel)).
Proof.
  intros Hpd Hsel Hi. apply select_device_spec in Hpd as [Hin Hdisc].
  apply select_families_first in Hsel as [Hq Hf]. rewrite list.Forall_forall in Hf.
  assert (Hfam : forall cap j, family_for cap sel = Some j -> exists caps, caps ∈ qr_queues r /\
      has_flags caps cap = true /\ first_family (pd_families pd) caps j).
  { intros cap j (caps & Hs & Hc)%family_for_spec. exists caps. rewrite <- Hq. split_and!; [|done|].
    - apply list_elem_of_fmap. by exists (caps, j).
    - apply (Hf _ Hs). }
  split_and!; [done|done|by apply Hfam|]. cbn. destruct (family_for VIDEO_ENCODE sel) eqn:E; [by apply Hfam|].
  rewrite <- Hq. intros caps (s & -> & Hs)%list_elem_of_fmap. by eapply family_for_none.
Qed.

(** The state of the root and what is left of the objects, for each way to fail. *)
Definition request_leaves (r : QueueRequest) (e : VulkanError) (left_ : root) : Prop :=
  match e with
  | LoaderFailed | NoDevice => left_ = NoInstance
  | InitFailed => left_ = NoInstance \/ left_ = InstanceOnly
  | NoSuitableQueue => left_ = NoInstance /\ qr_queues r = [] \/ left_ = InstanceOnly \/
      left_ = InstanceAndDevice /\ forall caps, caps ∈ qr_queues r -> has_flags caps COMPUTE = false
  | _ => False
  end.

Lemma set_root_run E from r d n objs :
  set_root (E:=E) from r false d (mkGpu from n objs) = Some (mkGpu r n objs, inl tt).
Proof. unfold set_root. cbn. by rewrite decide_True. Qed.

Lemma set_root_empty_run E d r r' n :
  set_root (E:=E) r r' true d (mkGpu r n ∅) = Some (mkGpu r' n ∅, inl tt).
Proof. unfold set_root. cbn. by rewrite decide_True. Qed.

Ltac vk_eval := cbv beta iota delta [mbind vk_bind map_err or_else throw mret vk_ret create_instance
  destroy_instance destroy_device ask driver_says g_root g_clock g_objs ok_or create create_command_pool alloc];
  rewrite ?set_root_run, ?set_root_empty_run; cbv beta iota.

Lemma create_device_run d pd r extensions available selected n objs :
  select_families (pd_families pd) (qr_queues r) = Some selected ->
  available = pd_extensions pd \/ available = [] ->
  create_device pd (unique_families selected) (enabled_extensions r extensions available) d
    (mkGpu InstanceOnly n objs) =
  Some (match d_error d n with
        | Some e => (mkGpu InstanceOnly (S n) objs, inr e)
        | None => (mkGpu InstanceAndDevice (S n) objs, inl tt)
        end).
Proof.
  intros Hsel Hav. unfold create_device. rewrite create_device_valid by done.
  unfold assert_valid. vk_eval. by destruct (d_error d n); vk_eval.
Qed.

Lemma with_request_run d r exts n :
  exists g res, with_request r exts d (mkGpu NoInstance n ∅) = Some (g, res) /\
  match res with
  | inl c => context_ok d r c /\ g_root g = InstanceAndDevice /\
      g_objs g = {[cx_command_pool c := (O, CommandPool [])]}
  | inr e => g_objs g = ∅ /\ request_leaves r e (g_root g)
  end.
Proof.
  unfold with_request. destruct (qr_queues r) as [|caps0 queues] eqn:Eq.
  { eexists _, _. split; [reflexivity|]. cbn. rewrite Eq. naive_solver. }
  vk_eval. destruct (d_error d n) as [e|].
  { vk_eval. eexists _, _. split; [reflexivity|]. done. }
  vk_eval. destruct (d_error d (S n)) as [e|].
  { vk_eval. eexists _, _. split; [reflexivity|]. cbn. naive_solver. }
  vk_eval. destruct (d_error d (S (S n))) as [e|].
  { vk_eval. eexists _, _. split; [reflexivity|]. cbn. naive_solver. }
  vk_eval. destruct (select_device (d_devices d)) as [pd|] eqn:Epd.
  2: { vk_eval. eexists _, _. split; [reflexivity|]. done. }
  rewrite <- Eq. destruct (select_families (pd_families pd) (qr_queues r)) as [sel|] eqn:Esel.
  2: { vk_eval. eexists _, _. split; [reflexivity|]. cbn. naive_solver. }
  vk_eval. rewrite (create_device_run _ _ _ _ _ _ _ _ Esel) by (destruct (d_error d _); naive_solver).
  destruct (d_error d (S (S (S (S (S n)))))) as [e|].
  { vk_eval. eexists _, _. split; [reflexivity|]. cbn. naive_solver. }
  vk_eval. destruct (family_for COMPUTE sel) as [i|] eqn:Ei.
  2: { vk_eval. eexists _, _. split; [reflexivity|]. cbn. split; [done|]. right; right. split; [done|].
       apply select_families_first in Esel as [<- _]. intros caps (s & -> & Hs)%list_elem_of_fmap.
       by eapply family_for_none. }
  vk_eval. destruct (d_error d (S (S (S (S (S (S n))))))) as [e|]; vk_eval.
  { eexists _, _. split; [reflexivity|]. cbn. naive_solver. }
  eexists _, _. split; [reflexivity|]. cbn [g_root g_objs cx_command_pool].
  split_and!; [by eapply context_ok_selected|done|done].
Qed.

Lemma drop_context_run {E} c d n :
  drop_context (E:=E) c d (mkGpu InstanceAndDevice n {[cx_command_pool c := (O, CommandPool [])]}) =
  Some (mkGpu NoInstance n ∅, inl tt).
Proof.
  unfold drop_context, destroy_command_pool, idle, load, assert_valid. vk_eval.
  rewrite lookup_singleton_eq. vk_eval. rewrite bool_decide_true by done. cbn [each]. unfold remove. vk_eval.
  rewrite lookup_singleton_eq, delete_singleton_eq. by vk_eval.
Qed.
