(* ===== verification/VulkanSafety.v ===== *)
(** Buffers, images, submission and scaling of the context (VulkanContext.v), proved in
    the logic of VulkanLogic.v: every call is valid, what fails cleans up as far as the
    code does, and scaling returns the device's picture. *)

From stdpp Require Import gmap strings.
From iris.proofmode Require Import proofmode.
From S2P Require Import Prelude Encoder Vulkan VulkanLogic VulkanContext.

#[local] Open Scope Z_scope.

(** The commands of a buffer, in their order. *)
Ltac vk_exec := unfold exec_all; cbn [exec_from exec loosened ib_image ib_old ib_new fst snd app];
  unfold viewed_picture, bound_memory, bound_image, set_image, set_bytes.

(** ** Memory types *)

Lemma find_memory_type_spec types bits wanted i :
  find_memory_type types bits wanted = Some i ->
  exists flags, get types i = Some flags /\ has_flags flags wanted = true /\
    Z.land bits (Z.shiftl 1 i) <> 0.
Proof.
  unfold find_memory_type. intros H. apply head_Some_elem_of in H.
  apply list_elem_of_filter in H as [[Hb Hf] Hi]. apply elem_of_seqZ in Hi.
  unfold get, zlen in *. destruct (decide _); [|lia].
  destruct (types !! Z.to_nat i) as [flags|] eqn:E; [by exists flags|].
  apply lookup_ge_None in E. lia.
Qed.

Section Safety.
Context (d : driver) `{!DriverLaws d, !WaitsEnd d, !InOrder d}.

Lemma wp_allocate_for req wanted h b b' (destroy : forall E, Z -> vk E unit) Φ Ψ :
  0 < mr_size req ->
  (forall E Φ (Ψ : E -> oprop), h ↦ b -∗ Φ tt -∗ wp d (destroy E h) Φ Ψ) ->
  (forall m, match b with
    | Buffer sz us None => b' m = Buffer sz us (Some m)
    | Image st w ht us l px None => b' m = Image st w ht us l px (Some m)
    | _ => False
    end) ->
  h ↦ b -∗
  (∀ m flags (_ : has_flags flags wanted = true), h ↦ b' m -∗
    m ↦ Memory (mr_size req) flags false [] -∗ Φ m) ∧ Ψ Allocation -∗
  wp d (allocate_for (d_types d) req wanted h destroy) Φ Ψ.
Proof.
  iIntros (Hs Hdestroy Hb) "Hh H". unfold allocate_for.
  destruct (find_memory_type _ _ _) as [i|] eqn:Ei.
  2: { vk_step. iApply (Hdestroy with "Hh"). vk_step. iDestruct "H" as "[_ $]". }
  apply find_memory_type_spec in Ei as (flags & Hi & Hf & _).
  do 2 vk_step. iApply (wp_allocate_memory _ _ _ flags); [done|done|]. iSplit.
  2: { iIntros (e). vk_step. iApply (Hdestroy with "Hh"). vk_step. iDestruct "H" as "[_ $]". }
  iIntros (m) "Hm". do 2 vk_step. iApply (wp_bind_memory _ _ _ _ _ _ _ _ _ _ _ (Hb m) with "Hh Hm"). iSplit.
  - iIntros "Hh Hm". vk_step. iDestruct "H" as "[H _]". by iApply ("H" $! m flags Hf with "Hh Hm").
  - iIntros (e) "Hh Hm". vk_step. vk_call. vk_step.
    iApply (Hdestroy with "Hh"). vk_step. iDestruct "H" as "[_ $]".
Qed.

Lemma wp_create_buffer size us wanted Φ Ψ : 0 < size ->
  (∀ b m msize flags (_ : size <= msize /\ has_flags flags wanted = true),
    b ↦ Buffer size us (Some m) -∗ m ↦ Memory msize flags false [] -∗ Φ (b, m)) ∧ Ψ Allocation -∗
  wp d (create_buffer size us wanted) Φ Ψ.
Proof.
  iIntros (Hs) "H". unfold create_buffer. do 2 vk_step. iApply wp_create_buffer_raw; [done|]. iSplit.
  2: { iIntros (e). iDestruct "H" as "[_ $]". }
  iIntros (b) "Hb". do 5 vk_step. pose proof (buffer_req_size n size) as Hn.
  iApply (wp_allocate_for with "Hb"); [lia|by intros; apply wp_destroy|by intros|]. iSplit.
  - iIntros (m flags Hf) "Hb Hm". vk_step. iDestruct "H" as "[H _]".
    iApply ("H" $! b m _ flags (conj Hn Hf) with "Hb Hm").
  - iDestruct "H" as "[_ $]".
Qed.

Lemma wp_create_host_buffer size us Φ Ψ : 0 < size ->
  (∀ b m msize flags (_ : size <= msize /\ has_flags flags HOST = true),
    b ↦ Buffer size us (Some m) -∗ m ↦ Memory msize flags false [] -∗ Φ (b, m)) ∧ Ψ Allocation -∗
  wp d (create_host_buffer size us) Φ Ψ.
Proof.
  iIntros (Hs) "H". unfold create_host_buffer. vk_step. iApply wp_create_buffer; [done|]. iSplit.
  - iIntros (b m msize flags [Hm Hf]) "Hb Hm". iDestruct "H" as "[H _]".
    iApply ("H" with "[] Hb Hm"). iPureIntro. split; [done|]. revert Hf. unfold has_flags. rewrite !Z.eqb_eq.
    intros Hf. apply Z.bits_inj'. intros i Hi. apply (f_equal (fun z => Z.testbit z i)) in Hf.
    revert Hf. rewrite !Z.land_spec !Z.lor_spec. by repeat destruct (Z.testbit _ i).
  - by iApply wp_create_buffer.
Qed.

Lemma wp_create_image w h us Φ Ψ : 0 < w <= d_max_dimension d -> 0 < h <= d_max_dimension d ->
  (∀ i st m msize flags, i ↦ Image st w h us Undefined [] (Some m) -∗
    m ↦ Memory msize flags false [] -∗ Φ (i, m)) ∧ Ψ Allocation -∗
  wp d (create_image w h us) Φ Ψ.
Proof.
  iIntros (Hw Hh) "H". unfold create_image. do 2 vk_step. iApply wp_create_image_raw; [done|done|]. iSplit.
  2: { iIntros (e). iDestruct "H" as "[_ $]". }
  iIntros (i st) "Hi". do 5 vk_step. pose proof (image_req_size n w h).
  iApply (wp_allocate_for with "Hi"); [lia|by intros; apply wp_destroy|by intros|]. iSplit.
  - iIntros (m flags Hf) "Hi Hm". vk_step. iDestruct "H" as "[H _]". by iApply ("H" with "Hi Hm").
  - iDestruct "H" as "[_ $]".
Qed.

Lemma wp_upload_to_buffer m msize flags data bytes Φ Ψ :
  0 < zlen data <= msize -> has_flags flags HOST = true ->
  m ↦ Memory msize flags false bytes -∗
  (m ↦ Memory msize flags false (overwrite data bytes) -∗ Φ tt) ∧
  (m ↦ Memory msize flags false bytes -∗ Ψ Allocation) -∗
  wp d (upload_to_buffer m data) Φ Ψ.
Proof.
  iIntros (Hl Hf) "Hm H". unfold upload_to_buffer. do 2 vk_step. iApply (wp_map_memory with "Hm"); [done|done|]. iSplit.
  - iIntros "Hm". vk_step. iApply (wp_write_mapped with "Hm"); [lia|]. iIntros "Hm".
    iApply (wp_unmap_memory with "Hm"). iDestruct "H" as "[$ _]".
  - iIntros (e) "Hm". iDestruct "H" as "[_ H]". by iApply "H".
Qed.

Lemma wp_read_from_buffer m msize flags size bytes Φ Ψ :
  0 < size <= msize -> has_flags flags HOST = true ->
  m ↦ Memory msize flags false bytes -∗
  (m ↦ Memory msize flags false bytes -∗ Φ (known d size bytes)) ∧
  (m ↦ Memory msize flags false bytes -∗ Ψ Allocation) -∗
  wp d (read_from_buffer m size) Φ Ψ.
Proof.
  iIntros (Hl Hf) "Hm H". unfold read_from_buffer. do 2 vk_step. iApply (wp_map_memory with "Hm"); [done|done|]. iSplit.
  - iIntros "Hm". vk_step. iApply (wp_read_mapped with "Hm"); [lia|]. iIntros "Hm". vk_step.
    iApply (wp_unmap_memory with "Hm"). iIntros "Hm". vk_step. iDestruct "H" as "[H _]". by iApply "H".
  - iIntros (e) "Hm". iDestruct "H" as "[_ H]". by iApply "H".
Qed.

(** The fence is gone whatever happened; the command buffer is not pending. *)
Lemma wp_submit_and_wait c cs Φ Ψ :
  c ↦ CommandBuffer (Executable cs) -∗
  (wp d (exec_all (E:=vk_error) cs) (fun used => wp d (each (E:=vk_error) use used) (fun _ =>
     wp d (each (E:=vk_error) unuse used) (fun _ =>
       c ↦ CommandBuffer (Executable cs) -∗ Φ tt ∧ (∀ e, Ψ (Call "wait_for_fences" e))) (fun _ => False))
       (fun _ => False)) (fun _ => False)) ∧
  (∀ what e, c ↦ CommandBuffer (Executable cs) -∗ Ψ (Call what e)) -∗
  wp d (submit_and_wait c) Φ Ψ.
Proof.
  iIntros "Hc H". unfold submit_and_wait. do 2 vk_step. iApply wp_create. iSplit.
  2: { iIntros (e). iDestruct "H" as "[_ H]". by iApply "H". }
  iIntros (f) "Hf". do 4 vk_step. iApply (wp_queue_submit with "Hc Hf"). iSplit.
  2: { iIntros (e) "Hc Hf". vk_run.
       iDestruct "H" as "[_ H]". by iApply "H". }
  iDestruct "H" as "[H _]". iApply (wp_mono with "H"); [|done]. iIntros (used) "H".
  iApply (wp_mono with "H"); [|done]. iIntros ([]) "H Hc Hf". do 2 vk_step.
  iApply (wp_wait_for_fence with "Hc Hf"). iApply (wp_mono with "H"); [|done]. iIntros ([]) "H Hc Hf".
  iSpecialize ("H" with "Hc"). iSplit.
  - vk_run. iDestruct "H" as "[$ _]".
  - vk_run. iDestruct "H" as "[_ H]". iApply "H".
Qed.

(** ** Scaling *)

Lemma overwrite_nil bytes : overwrite bytes [] = bytes.
Proof. unfold overwrite. by rewrite drop_nil app_nil_r. Qed.

Definition upscale_commands (sb si di rb sw sh dw dh : Z) : list vk_cmd :=
  [PipelineBarrier (mkBarrier si Undefined TransferDstOptimal TopOfPipe Transfer);
   CopyBufferToImage sb si TransferDstOptimal sw sh;
   PipelineBarrier (mkBarrier si TransferDstOptimal TransferSrcOptimal TopOfPipe Transfer);
   PipelineBarrier (mkBarrier di Undefined TransferDstOptimal TopOfPipe Transfer);
   BlitImage si TransferSrcOptimal di TransferDstOptimal (sw, sh) (dw, dh);
   PipelineBarrier (mkBarrier di TransferDstOptimal TransferSrcOptimal TopOfPipe Transfer);
   CopyImageToBuffer di TransferSrcOptimal rb dw dh].

Lemma wp_upscale_commands sb sm ms1 f1 bytes st1 si im1 ms2 f2 st2 di im2 ms3 f3 rb rm ms4 f4 sw sh dw dh K :
  sb ↦ Buffer (sw * sh * 4) [TransferSrc] (Some sm) -∗ sm ↦ Memory ms1 f1 false bytes -∗
  si ↦ Image st1 sw sh [TransferSrc; TransferDst] Undefined [] (Some im1) -∗ im1 ↦ Memory ms2 f2 false [] -∗
  di ↦ Image st2 dw dh [TransferSrc; TransferDst] Undefined [] (Some im2) -∗ im2 ↦ Memory ms3 f3 false [] -∗
  rb ↦ Buffer (dw * dh * 4) [TransferDst] (Some rm) -∗ rm ↦ Memory ms4 f4 false [] -∗
  (∀ px1 px2 l1 l2, 
   sb ↦ Buffer (sw * sh * 4) [TransferSrc] (Some sm) -∗ sm ↦ Memory ms1 f1 false bytes -∗
   si ↦ Image st1 sw sh [TransferSrc; TransferDst] l1 px1 (Some im1) -∗ im1 ↦ Memory ms2 f2 false [] -∗
   di ↦ Image st2 dw dh [TransferSrc; TransferDst] l2 px2 (Some im2) -∗ im2 ↦ Memory ms3 f3 false [] -∗
   rb ↦ Buffer (dw * dh * 4) [TransferDst] (Some rm) -∗
   rm ↦ Memory ms4 f4 false (known d (dw * dh * 4)
     (d_blit d (sw, sh) (dw, dh) (known d (sw * sh * 4) (known d (sw * sh * 4) bytes)))) -∗ K) -∗
  wp d (exec_all (E:=vk_error) (upscale_commands sb si di rb sw sh dw dh)) (fun used =>
    wp d (each (E:=vk_error) use used) (fun _ =>
      wp d (each (E:=vk_error) unuse used) (fun _ => K) (fun _ => False)) (fun _ => False)) (fun _ => False).
Proof.
  iIntros "? ? ? ? ? ? ? ? K". unfold upscale_commands. vk_exec. vk_run.
  rewrite overwrite_nil. iApply ("K" with "[$] [$] [$] [$] [$] [$] [$] [$]").
Qed.

Lemma known_length n bytes : 0 <= n -> zlen (known d n bytes) = n.
Proof. intros Hn. unfold known, zlen. rewrite length_fmap length_seqZ. lia. Qed.

(** Bytes that are all known, whatever follows them. *)
Lemma known_prefix n bytes rest : zlen bytes = n -> known d n (bytes ++ rest) = bytes.
Proof.
  intros <-. unfold known, zlen. apply list_eq. intros i. rewrite list_lookup_fmap.
  destruct (decide (i < length bytes)%nat) as [Hi|Hi].
  - rewrite lookup_seqZ_lt; [|lia]. cbn. unfold get. rewrite decide_True; [|lia].
    rewrite Z.add_0_l Nat2Z.id. rewrite lookup_app_l //. by destruct (lookup_lt_is_Some_2 bytes i Hi) as [x ->].
  - rewrite lookup_seqZ_ge; [|lia]. symmetry. apply lookup_ge_None. lia.
Qed.

Lemma known_full n bytes : zlen bytes = n -> known d n bytes = bytes.
Proof. intros H. rewrite -{1}(app_nil_r bytes). by apply known_prefix. Qed.

Lemma known_idem n bytes : 0 <= n -> known d n (known d n bytes) = known d n bytes.
Proof. intros Hn. apply known_full. by apply known_length. Qed.

(** The arguments the client gives: pixels, at most a whole picture of them, and sides
    the device has images for. *)
Definition upscale_ok (src : list Z) (sw sh dw dh : Z) : Prop :=
  0 < zlen src <= sw * sh * 4 /\
  0 < sw <= d_max_dimension d /\ 0 < sh <= d_max_dimension d /\
  0 < dw <= d_max_dimension d /\ 0 < dh <= d_max_dimension d.

Lemma dimension_small v : v <= d_max_dimension d -> 0 < v -> to_signed 32 v = v.
Proof.
  intros Hv H. pose proof max_dimension. rewrite -{1}(wrap_small 32 v); [|split; lia].
  apply to_signed_wrap; lia.
Qed.

Lemma rgba_fits w h : 0 < w <= d_max_dimension d -> 0 < h <= d_max_dimension d -> w * h * 4 < 2 ^ 64.
Proof. intros Hw Hh. pose proof max_dimension. nia. Qed.

(** On success nothing of what it made is left; an error leaves the pool usable and what
    was made until then. *)
Lemma wp_upscale_blit c cs src sw sh dw dh Φ Ψ : upscale_ok src sw sh dw dh ->
  cx_command_pool c ↦ CommandPool cs -∗
  (cx_command_pool c ↦ CommandPool cs -∗
    Φ (d_blit d (sw, sh) (dw, dh) (known d (sw * sh * 4) src))) ∧
  (∀ e cs', cx_command_pool c ↦ CommandPool cs' -∗ True -∗ Ψ e) -∗
  wp d (upscale_blit c src sw sh dw dh) Φ Ψ.
Proof.
  iIntros ((Hl & Hsw & Hsh & Hdw & Hdh)) "Hp H". unfold upscale_blit, rgba_size.
  do 2 vk_step. iApply wp_assert; [apply Z.ltb_lt; by apply rgba_fits|]. do 3 vk_step.
  iApply wp_assert; [apply Z.ltb_lt; by apply rgba_fits|]. do 2 vk_step.
  iApply wp_create_buffer; [nia|]. iSplit; [|iDestruct "H" as "[_ H]"; by iApply ("H" with "Hp")].
  iIntros (sb sm ms1 f1 [Hm1 Hf1]) "Hsb Hsm". vk_steps.
  iApply (wp_upload_to_buffer with "Hsm"); [lia|done|].
  iSplit; [|iIntros "Hsm"; iDestruct "H" as "[_ H]"; by iApply ("H" with "Hp")].
  iIntros "Hsm". vk_steps. iApply wp_create_image; [done|done|].
  iSplit; [|iDestruct "H" as "[_ H]"; by iApply ("H" with "Hp")].
  iIntros (si st1 im1 ms2 f2) "Hsi Him1". vk_steps. iApply wp_create_image; [done|done|].
  iSplit; [|iDestruct "H" as "[_ H]"; by iApply ("H" with "Hp")].
  iIntros (di st2 im2 ms3 f3) "Hdi Him2". vk_steps. iApply wp_create_buffer; [nia|].
  iSplit; [|iDestruct "H" as "[_ H]"; by iApply ("H" with "Hp")].
  iIntros (rb rm ms4 f4 [Hm4 Hf4]) "Hrb Hrm". vk_steps. unfold context_command_buffer. vk_steps.
  iApply (wp_allocate_command_buffer with "Hp").
  iSplit; [|iIntros (e) "Hp"; iDestruct "H" as "[_ H]"; by iApply ("H" with "Hp")].
  iIntros (cmd) "Hp Hcmd". vk_steps. iApply (wp_begin_command_buffer with "Hcmd"); [done|].
  iSplit; [|iIntros (e) "Hcmd"; iDestruct "H" as "[_ H]"; by iApply ("H" with "Hp")].
  iIntros "Hcmd". unfold record_upscale, cmd_image_barrier. rewrite !dimension_small; try lia. vk_run.
  iApply (wp_end_command_buffer with "[$]").
  iSplit; [|iIntros (e) "Hcmd"; iDestruct "H" as "[_ H]"; by iApply ("H" with "Hp")].
  iIntros "Hcmd". vk_steps. cbn [app]. iApply (wp_submit_and_wait with "Hcmd").
  iSplit; [|iIntros (what e) "Hcmd"; iDestruct "H" as "[_ H]"; by iApply ("H" with "Hp")].
  iApply (wp_upscale_commands with "Hsb Hsm Hsi Him1 Hdi Him2 Hrb Hrm").
  iIntros (px1 px2 l1 l2) "Hsb Hsm Hsi Him1 Hdi Him2 Hrb Hrm Hcmd".
  iSplit; [|iIntros (e); iDestruct "H" as "[_ H]"; by iApply ("H" with "Hp")].
  vk_steps. iApply (wp_read_from_buffer with "Hrm"); [nia|done|].
  iSplit; [|iIntros "Hrm"; iDestruct "H" as "[_ H]"; by iApply ("H" with "Hp")].
  iIntros "Hrm". vk_run. iApply (wp_free_command_buffer with "Hp Hcmd"); [done|]. iIntros "Hp". vk_step.
  rewrite overwrite_nil (known_idem (sw * sh * 4)); [|nia]. rewrite (known_idem (dw * dh * 4)); [|nia].
  rewrite (known_full (dw * dh * 4)); [|apply blit_size; lia].
  iDestruct "H" as "[H _]". by iApply "H".
Qed.
End Safety.
