(* ===== verification/VulkanRuns.v ===== *)
(** Runs of the context: what VulkanSafety.v proves, said of states; and the life of a
    context from [with_request] over pictures scaled to its end. *)

From stdpp Require Import gmap strings.
From iris.proofmode Require Import proofmode.
From S2P Require Import Prelude Encoder Vulkan VulkanLogic VulkanContext VulkanSafety.

#[local] Open Scope Z_scope.

(** A host buffer of a positive size, on any
    driver and whatever fails: the calls are valid, and either the buffer is there, bound
    to memory that is large enough and that the host sees without flushing, and nothing
    else has changed, or nothing is left of the attempt, nor of the first one, with
    cached memory. *)
Theorem create_host_buffer_clean (d : driver) (Hd : DriverLaws d) size us root n objs :
  0 < size ->
  exists n' objs' r, create_host_buffer size us d (mkGpu root n objs) = Some (mkGpu root n' objs', r) /\
  match r with
  | inl (b, m) => exists msize flags, size <= msize /\ has_flags flags HOST = true /\
      objs !! b = None /\ objs !! m = None /\ b <> m /\
      objs' = <[b := (O, Buffer size us (Some m))]> (<[m := (O, Memory msize flags false [])]> objs)
  | inr e => e = Allocation /\ objs' = objs
  end.
Proof.
  intros Hs.
  destruct (wp_run_on d (create_host_buffer size us) emp%I
    (fun p => ∃ msize flags, ⌜size <= msize /\ has_flags flags HOST = true⌝ ∧
       (p.1 ↦ Buffer size us (Some p.2) ∗ p.2 ↦ Memory msize flags false []))%I
    (fun e => ⌜e = Allocation⌝ ∧ emp)%I (∅ : objects) root n objs) as (n' & σ' & r & E & Hdis & Hp).
  - iIntros "_". iApply wp_create_host_buffer; [done|]. iSplit; [|by iSplit].
    iIntros (b m msize flags Hm) "Hb Hm". iExists msize, flags. iSplit; [done|]. iFrame.
  - done.
  - apply map_empty_subseteq.
  - rewrite map_difference_empty in E. rewrite map_difference_empty in Hdis.
    exists n', (σ' ∪ objs), r. split; [done|]. destruct r as [[b m]|e].
    + destruct Hp as (msize & flags & [Hm Hf] & (σ1 & σ2 & -> & Hd12 & Hb1 & Hb2)). cbn in Hb1, Hb2. subst.
      exists msize, flags. apply map_disjoint_union_l in Hdis as [H1 H2].
      rewrite map_disjoint_singleton_l in H1. rewrite map_disjoint_singleton_l in H2.
      rewrite map_disjoint_singleton_l lookup_singleton_None in Hd12.
      split_and!; [done|done|done|done|done|].
      by rewrite -map_union_assoc -!insert_union_l !map_empty_union.
    + destruct Hp as [-> ->]. split; [done|]. by rewrite map_empty_union.
Qed.

(** ** Scaling *)

Record job := mkJob { j_src : list Z; j_sw : Z; j_sh : Z; j_dw : Z; j_dh : Z }.

Definition job_ok (d : driver) (j : job) : Prop := upscale_ok d (j_src j) (j_sw j) (j_sh j) (j_dw j) (j_dh j).

Definition scale (c : Context) (j : job) : vk VulkanError (list Z) :=
  upscale_blit c (j_src j) (j_sw j) (j_sh j) (j_dw j) (j_dh j).

Fixpoint scale_all (c : Context) (js : list job) : vk VulkanError (list (list Z)) :=
  match js with
  | [] => mret []
  | j :: js => px ← scale c j; rest ← scale_all c js; mret (px :: rest)
  end.

(** The device's scaling of the picture uploaded, its end unwritten when it is short. *)
Definition scaled (d : driver) (j : job) : list Z :=
  d_blit d (j_sw j, j_sh j) (j_dw j, j_dh j) (known d (j_sw j * j_sh j * 4) (j_src j)).

Section Scaling.
Context (d : driver) `{!DriverLaws d, !WaitsEnd d, !InOrder d}.

Lemma scale_run c cs j root n objs : job_ok d j -> objs !! cx_command_pool c = Some (O, CommandPool cs) ->
  exists n' objs' r, scale c j d (mkGpu root n objs) = Some (mkGpu root n' objs', r) /\
  match r with
  | inl px => px = scaled d j /\ objs' = objs
  | inr e => (exists cs', objs' !! cx_command_pool c = Some (O, CommandPool cs')) /\
      delete (cx_command_pool c) objs ⊆ objs'
  end.
Proof.
  intros Hj Hp. set (p := cx_command_pool c) in *.
  assert (Hs : {[p := (O, CommandPool cs)]} ⊆ objs) by (by apply map_singleton_subseteq_l).
  destruct (wp_run_on d (scale c j) (p ↦ CommandPool cs)%I
    (fun px => ⌜px = scaled d j⌝ ∧ p ↦ CommandPool cs)%I
    (fun e => ∃ cs', p ↦ CommandPool cs' ∗ True)%I {[p := (O, CommandPool cs)]} root n objs) as (n' & σ' & r & E & Hdis & Hr);
    [|reflexivity|exact Hs|].
  - iIntros "Hp". iApply (wp_upscale_blit with "Hp"); [done|]. iSplit.
    + iIntros "Hp". by iSplit.
    + iIntros (e cs') "Hp _". iExists cs'. by iFrame.
  - exists n', (σ' ∪ objs ∖ {[p := (O, CommandPool cs)]}), r. split; [exact E|]. destruct r as [px|e].
    + destruct Hr as [-> Hr]. split; [done|]. cbn in Hr. rewrite Hr. by apply map_difference_union.
    + destruct Hr as (cs' & σ1 & σ2 & -> & Hd' & H1 & _). cbn in H1. subst σ1. split.
      * exists cs'. by rewrite -map_union_assoc lookup_union_l' ?lookup_singleton_eq.
      * etrans; [|apply map_union_subseteq_r; done].
        apply map_subseteq_spec. intros k o. rewrite lookup_delete_Some lookup_difference_Some.
        intros [Hk Ho]. split; [done|]. by apply lookup_singleton_None.
Qed.

Lemma scale_all_run c cs js root n objs : Forall (job_ok d) js ->
  objs !! cx_command_pool c = Some (O, CommandPool cs) ->
  exists n' objs' r, scale_all c js d (mkGpu root n objs) = Some (mkGpu root n' objs', r) /\
  match r with inl pxs => pxs = scaled d <$> js /\ objs' = objs | inr _ => True end.
Proof.
  intros Hjs Hp. revert n. induction Hjs as [|j js Hj Hjs IH]; intros n.
  - by exists n, objs, (inl []).
  - destruct (scale_run c cs j root n objs Hj Hp) as (n1 & objs1 & r1 & E1 & H1).
    cbn [scale_all]. cbv [mbind vk_bind]. rewrite E1. destruct r1 as [px|e]; [|by exists n1, objs1, (inr e)].
    destruct H1 as [-> ->]. destruct (IH n1) as (n2 & objs2 & r2 & -> & H2).
    destruct r2 as [pxs|e]; [|by exists n2, objs2, (inr e)]. destruct H2 as [-> ->].
    by eexists n2, objs, (inl _).
Qed.
End Scaling.


(** ** A device *)

Definition known_px (px : list Z) : list Z := take 4 (px ++ [0; 0; 0; 0]).

(** One family, memory the host sees and memory it does not; scaling repeats the first
    pixel, and a shader the first byte.  [fails] names the calls that fail, [waits]
    the waits, and [overtaken] what a command reads that comes too early. *)
Definition demo_device : physical_device := mkPhysicalDevice false 4098 [82; 88; 32; 55] 0 [14] [].

Definition rough_driver (fails waits : nat -> option vk_error) (overtaken : list Z -> list Z) : driver := {|
  d_error := fails; d_wait := waits;
  d_devices := [demo_device];
  d_caps := fun _ => mkVideoCaps (64, 64) (1, 1) (1, 1) 2 1 [VkDisabled];
  d_max_dimension := 64;
  d_types := [DEVICE_LOCAL; HOST];
  d_buffer_req := fun _ size => mkMemReq size 3;
  d_image_req := fun _ w h => mkMemReq (Z.max 1 (w * h * 4)) 1;
  d_session_req := fun _ => [(0, mkMemReq 16 1)];
  d_unwritten := fun _ => 0;
  d_overtaken := fun _ => overtaken;
  d_blit := fun _ dwh px => mjoin (replicate (Z.to_nat (dwh.1 * dwh.2)) (known_px px));
  d_parameter_sets := fun _ => [0; 0; 0; 1];
  d_bitstream := fun _ => [1; 2; 3]; d_bytes_written := fun _ => 3;
  d_shader := fun _ _ _ bufs =>
    match bufs with
    | [px; out] => [px; replicate (length out) (hd 0 px)]
    | [a; b; m; out] => [a; b; m; replicate (length out) (hd 0 b)]
    | _ => bufs
    end;
  d_fsr := fun _ dwh px _ _ => mjoin (replicate (Z.to_nat (dwh.1 * dwh.2)) (known_px px)) |}.

(** It works in order, and its waits end. *)
Definition demo_driver (fails : nat -> option vk_error) : driver := rough_driver fails (fun _ => None) id.

Lemma known_px_length px : length (known_px px) = 4%nat.
Proof. unfold known_px. rewrite length_take length_app. cbn [length]. lia. Qed.

#[export] Instance demo_laws fails : DriverLaws (demo_driver fails).
Proof.
  split; cbn; try done; try lia.
  { intros _. by repeat constructor. }
  { intros _ _ _ bufs. destruct bufs as [|? [|? [|? [|? [|]]]]]; cbn; rewrite ?length_replicate; done. }
  all: intros; unfold zlen; rewrite length_join fmap_replicate known_px_length;
    assert (H' : forall n, sum_list (replicate n 4%nat) = (n * 4)%nat) by (induction n; cbn; lia);
    rewrite H'; nia.
Qed.

#[export] Instance demo_waits fails : WaitsEnd (demo_driver fails).
Proof. by intros n e. Qed.

#[export] Instance demo_in_order fails : InOrder (demo_driver fails).
Proof. by intros n px. Qed.

Definition demo_job : job := mkJob [9; 8; 7; 255] 1 1 2 1.

Lemma demo_job_ok fails : job_ok (demo_driver fails) demo_job.
Proof. split_and!; vm_compute; congruence. Qed.

Lemma create_host_buffer_clean_witness :
  create_host_buffer 8 [TransferSrc] (demo_driver (fun _ => None)) (mkGpu InstanceAndDevice 0 ∅) =
    Some (mkGpu InstanceAndDevice 9 {[1 := (O, Buffer 8 [TransferSrc] (Some 2)); 2 := (O, Memory 8 HOST false [])]}, inl (1, 2)) /\
  exists n' objs' r, create_host_buffer 8 [TransferSrc] (demo_driver (fun _ => None)) (mkGpu InstanceAndDevice 0 ∅) =
      Some (mkGpu InstanceAndDevice n' objs', r) /\
    match r with
    | inl (b, m) => exists msize flags, 8 <= msize /\ has_flags flags HOST = true /\
        (∅ : objects) !! b = None /\ (∅ : objects) !! m = None /\ b <> m /\
        objs' = <[b := (O, Buffer 8 [TransferSrc] (Some m))]> (<[m := (O, Memory msize flags false [])]> ∅)
    | inr e => e = Allocation /\ objs' = ∅
    end.
Proof.
  split; [vm_compute; reflexivity|].
  apply (create_host_buffer_clean (demo_driver (fun _ => None)) (demo_laws _) 8 [TransferSrc] InstanceAndDevice 0 ∅).
  reflexivity.
Defined.

(** A context that scales one picture, and its end. *)
Definition demo_life (d : driver) : option (root * bool * bool) :=
  match (c ← new []; r ← or_else (pxs ← scale_all c [demo_job]; mret (inl pxs)) (fun e => mret (inr e));
         mret (c, r)) d (mkGpu NoInstance 0 ∅) with
  | Some (g, inl (c, r)) =>
      let ok := match r with inl pxs => bool_decide (pxs = [[9; 8; 7; 255; 9; 8; 7; 255]]) | inr _ => false end in
      match drop_context (E:=VulkanError) c d g with
      | Some (g', _) => Some (g_root g', ok, true)
      | None => Some (g_root g, ok, false)
      end
  | _ => None
  end.

(** What a call that fails after the first buffer leaves makes the end invalid: the device
    is destroyed while buffers, images and memory of it live. *)
Example failed_scale_spoils_end :
  demo_life (demo_driver (fun _ => None)) = Some (NoInstance, true, true) /\
  demo_life (demo_driver (fun n => if (n =? 11)%nat then Some DeviceLost else None)) = Some (NoInstance, false, true) /\
  demo_life (demo_driver (fun n => if (n =? 49)%nat then Some DeviceLost else None)) = Some (InstanceAndDevice, false, false).
Proof. by vm_compute. Qed.

(** A wait that runs out of memory while the device works: the fence is destroyed
    while it is in use, which is undefined. *)
Example exhausted_wait_undefined :
  demo_life (rough_driver (fun _ => None) (fun _ => Some (OtherError (-2))) id) = None.
Proof. by vm_compute. Qed.

(** A device that starts a command before the one ahead of it is done, which the
    barriers of the scaling do not forbid, gives another picture. *)
Example unordered_scale_wrong :
  demo_life (rough_driver (fun _ => None) (fun _ => None) (fun _ => [])) = Some (NoInstance, false, true).
Proof. by vm_compute. Qed.


(** A compute queue family need not say that it can transfer; such a device is not
    found. *)
Example transfer_not_implied : select_family [VK_QUEUE_COMPUTE] (Z.lor COMPUTE TRANSFER) = None.
Proof. done. Qed.
