(* ===== verification/Fsr2Safety.v ===== *)
(** The FSR 2 upscaler's resources, proved in the logic of VulkanLogic.v: what is owned,
    making and destroying it, and what the device makes of a frame's commands. *)

From stdpp Require Import gmap strings.
From iris.proofmode Require Import proofmode.
From S2P Require Import Prelude Vulkan VulkanLogic VulkanContext VulkanSafety Interpolate Fsr2Native.

#[local] Open Scope Z_scope.

(** ** What is owned *)

(** An error of which ["H"] says that anything goes. *)
Ltac vk_fails := vk_run; iDestruct "H" as "[_ H]"; iApply "H".

(** A step that fails leaves the pool, and what was made until then. *)
Ltac leaves := iIntros; iDestruct "H" as "[_ H]"; by iApply ("H" with "[$]").

(** An image made for the library, with its memory and its view. *)
Definition owns_image (i : FsrImage) (wh : Z * Z) (l : layout) (px : list Z) : oprop :=
  (∃ st msize flags, fi_image i ↦ Image st wh.1 wh.2 fsr_usage l px (Some (fi_mem i)) ∗
     fi_mem i ↦ Memory msize flags false [] ∗ fi_view i ↦ ImageView (fi_image i) st)%I.

Definition some_image (i : FsrImage) (wh : Z * Z) : oprop := (∃ l px, owns_image i wh l px)%I.

(** A buffer the host sees, with the bytes in it. *)
Definition owns_pair (p : Z * Z) (size : Z) (us : list image_usage) (bytes : list Z) : oprop :=
  (∃ msize flags, ⌜size <= msize /\ has_flags flags HOST = true⌝ ∧
     (p.1 ↦ Buffer size us (Some p.2) ∗ p.2 ↦ Memory msize flags false bytes))%I.

Definition some_pair (p : Z * Z) (size : Z) (us : list image_usage) : oprop := (∃ bytes, owns_pair p size us bytes)%I.

Definition size_of (wh : Z * Z) : Z := wh.1 * wh.2 * 4.

(** The pictures a frame is upscaled with are the constant ones. *)
Definition owns_resources (r : CachedResources) : oprop :=
  (∃ st, ⌜not_pending st = true /\ cr_readback_size r = size_of (cr_dst r)⌝ ∧
   (cr_fsr_ctx r ↦ FsrContext (cr_src r) (cr_dst r) ∗
    some_image (cr_color r) (cr_src r) ∗
    owns_image (cr_depth r) (cr_src r) ShaderReadOnly (depth_scratch (cr_src r)) ∗
    owns_image (cr_mv r) (cr_src r) ShaderReadOnly (mv_scratch (cr_src r)) ∗
    some_image (cr_output r) (cr_dst r) ∗
    some_pair (cr_staging_color r) (size_of (cr_src r)) [TransferSrc] ∗
    some_pair (cr_staging_depth r) (size_of (cr_src r)) [TransferSrc] ∗
    some_pair (cr_staging_mv r) (size_of (cr_src r)) [TransferSrc] ∗
    some_pair (cr_readback r) (size_of (cr_dst r)) [TransferDst] ∗
    cr_cmd r ↦ CommandBuffer st))%I.

Section Native.
Context (d : driver) `{!DriverLaws d, !WaitsEnd d, !InOrder d}.

(** Sides the device has images for, and no wrapping product. *)
Definition sizes_ok (wh : Z * Z) : Prop :=
  0 < wh.1 <= d_max_dimension d /\ 0 < wh.2 <= d_max_dimension d /\ size_of wh < 2 ^ 32.

Lemma rgba_bytes_ok wh : sizes_ok wh -> rgba_bytes wh = size_of wh.
Proof. intros (Hw & Hh & Hs). unfold rgba_bytes, size_of in *. apply wrap_small. split; nia. Qed.

Lemma size_of_pos wh : sizes_ok wh -> 0 < size_of wh.
Proof. intros (Hw & Hh & _). unfold size_of. nia. Qed.

Lemma mv_scratch_length wh : sizes_ok wh -> zlen (mv_scratch wh) = size_of wh.
Proof.
  intros H. pose proof (size_of_pos wh H). unfold mv_scratch, zlen. rewrite length_replicate rgba_bytes_ok //. lia.
Qed.

Lemma depth_scratch_length wh : sizes_ok wh -> zlen (depth_scratch wh) = size_of wh.
Proof.
  intros (Hw & Hh & Hs). unfold depth_scratch, zlen, size_of in *. rewrite wrap_small; [|split; nia].
  rewrite length_join fmap_replicate. cbn [length].
  assert (H : forall n, sum_list (replicate n 4%nat) = (n * 4)%nat) by (induction n; cbn; lia).
  rewrite H. nia.
Qed.

(** ** Making and destroying *)

Lemma wp_create_fsr_image w h Φ Ψ : 0 < w <= d_max_dimension d -> 0 < h <= d_max_dimension d ->
  (∀ i, owns_image i (w, h) Undefined [] -∗ Φ i) ∧ (∀ e, Ψ e) -∗ wp d (create_fsr_image w h fsr_usage) Φ Ψ.
Proof.
  iIntros (Hw Hh) "H". unfold create_fsr_image, or_failed. do 2 vk_step. iApply wp_create_image_raw; [done|done|].
  iSplit; [|iIntros (e); vk_fails].
  iIntros (i st) "Hi". do 4 vk_step. destruct (find_memory_type _ _ _) as [ty|] eqn:Et.
  2: { vk_fails. }
  apply find_memory_type_spec in Et as (flags & Hty & _). pose proof (image_req_size n w h).
  do 2 vk_step. iApply wp_allocate_memory; [done|done|].
  iSplit; [|iIntros (e); vk_fails].
  iIntros (m) "Hm". do 2 vk_step. iApply (wp_bind_memory with "Hi Hm"); [done|].
  iSplit; [|iIntros (e) "? ?"; vk_fails].
  iIntros "Hi Hm". do 2 vk_step. unfold create_view. vk_step. vk_step. iApply wp_create.
  iSplit; [|iIntros (e); vk_fails].
  iIntros (v) "Hv". vk_step. iDestruct "H" as "[H _]". iApply "H". iExists st, _, flags. iFrame.
Qed.

Lemma wp_destroy_fsr_image {E} i wh l px Φ (Ψ : E -> oprop) :
  owns_image i wh l px -∗ Φ tt -∗ wp d (destroy_fsr_image i) Φ Ψ.
Proof. iIntros "(%st & %ms & %fl & ? & ? & ?) H". unfold destroy_fsr_image. vk_run. done. Qed.

Lemma wp_destroy_some_image {E} i wh Φ (Ψ : E -> oprop) :
  some_image i wh -∗ Φ tt -∗ wp d (destroy_fsr_image i) Φ Ψ.
Proof. iIntros "(%l & %px & Hi) H". iApply (wp_destroy_fsr_image with "Hi H"). Qed.

Lemma wp_destroy_pair {E} p size us Φ (Ψ : E -> oprop) :
  some_pair p size us -∗ Φ tt -∗ wp d (destroy_pair p) Φ Ψ.
Proof. iIntros "(%bytes & %ms & %fl & %Hm & ? & ?) H". unfold destroy_pair. vk_run. done. Qed.

Lemma wp_destroy_resources {E} c r cs Φ (Ψ : E -> oprop) :
  cx_command_pool c ↦ CommandPool (cr_cmd r :: cs) -∗ owns_resources r -∗
  (cx_command_pool c ↦ CommandPool cs -∗ Φ tt) -∗ wp d (destroy_resources c r) Φ Ψ.
Proof.
  iIntros "Hp (%st & [%Hst _] & ? & Hc & Hd & Hm & Ho & H1 & H2 & H3 & H4 & Hcmd) H". unfold destroy_resources.
  vk_run. iApply (wp_destroy_some_image with "Hc"). vk_step. iApply (wp_destroy_fsr_image with "Hd").
  vk_step. iApply (wp_destroy_fsr_image with "Hm"). vk_step. iApply (wp_destroy_some_image with "Ho").
  vk_step. iApply (wp_destroy_pair with "H1"). vk_step. iApply (wp_destroy_pair with "H2").
  vk_step. iApply (wp_destroy_pair with "H3"). vk_step. iApply (wp_destroy_pair with "H4"). vk_simpl.
  iApply (wp_free_command_buffer with "Hp Hcmd"); [done|]. done.
Qed.

(** ** The constant pictures *)

Definition fill_commands (buffer image : Z) (wh : Z * Z) : list vk_cmd :=
  [PipelineBarrier (mkBarrier image Undefined TransferDstOptimal TopOfPipe Transfer);
   CopyBufferToImage buffer image TransferDstOptimal wh.1 wh.2;
   PipelineBarrier (mkBarrier image TransferDstOptimal ShaderReadOnly TopOfPipe Transfer)].

Lemma wp_record_fill {E} cmd cs buffer image wh Φ (Ψ : E -> oprop) :
  cmd ↦ CommandBuffer (Recording cs) -∗
  (cmd ↦ CommandBuffer (Recording (cs ++ fill_commands buffer image wh)) -∗ Φ tt) -∗
  wp d (record_fill cmd buffer image wh) Φ Ψ.
Proof.
  iIntros "Hc H". unfold record_fill, barrier_simple, copy_buf_to_image. vk_run. rewrite -!app_assoc. by iApply "H".
Qed.

Lemma wp_fill_commands p1 i1 p2 i2 wh b1 b2 K : sizes_ok wh ->
  zlen b1 = size_of wh -> zlen b2 = size_of wh ->
  owns_pair p1 (size_of wh) [TransferSrc] b1 -∗ owns_image i1 wh Undefined [] -∗
  owns_pair p2 (size_of wh) [TransferSrc] b2 -∗ owns_image i2 wh Undefined [] -∗
  (some_pair p1 (size_of wh) [TransferSrc] -∗ owns_image i1 wh ShaderReadOnly b1 -∗
   some_pair p2 (size_of wh) [TransferSrc] -∗ owns_image i2 wh ShaderReadOnly b2 -∗ K) -∗
  wp d (exec_all (E:=vk_error) (fill_commands p1.1 (fi_image i1) wh ++ fill_commands p2.1 (fi_image i2) wh))
    (fun used => wp d (each (E:=vk_error) use used) (fun _ =>
      wp d (each (E:=vk_error) unuse used) (fun _ => K) (fun _ => False)) (fun _ => False)) (fun _ => False).
Proof.
  iIntros (Hwh Hb1 Hb2) "(%ms1 & %f1 & %Hm1 & H1 & H1m) (%st1 & %ms2 & %f2 & H2 & H2m & H2v)
    (%ms3 & %f3 & %Hm3 & H3 & H3m) (%st2 & %ms4 & %f4 & H4 & H4m & H4v) K".
  unfold fill_commands. vk_exec. unfold size_of in *. vk_run.
  rewrite !(known_full d) //.
  iApply ("K" with "[H1 H1m] [H2 H2m H2v] [H3 H3m] [H4 H4m H4v]"); repeat iExists _; by iFrame.
Qed.

(** ** Making the resources *)

Lemma wp_host_pair size us Φ Ψ : 0 < size ->
  (∀ p, owns_pair p size us [] -∗ Φ p) ∧ (∀ e, Ψ e) -∗ wp d (into (create_host_buffer size us)) Φ Ψ.
Proof.
  iIntros (Hs) "H". unfold into. vk_step. iApply wp_create_host_buffer; [done|]. iSplit; [|vk_fails].
  iIntros (b m ms fl Hm) "Hb Hm". iDestruct "H" as "[H _]". iApply "H". iExists ms, fl. by iFrame.
Qed.

Lemma wp_upload_pair p size us bytes data Φ Ψ : 0 < zlen data <= size ->
  owns_pair p size us bytes -∗
  (owns_pair p size us (overwrite data bytes) -∗ Φ tt) ∧ (∀ e, owns_pair p size us bytes -∗ Ψ e) -∗
  wp d (into (upload_to_buffer p.2 data)) Φ Ψ.
Proof.
  iIntros (Hd) "(%ms & %fl & [%Hm %Hf] & Hb & Hm) H". unfold into. vk_step.
  iApply (wp_upload_to_buffer with "Hm"); [lia|done|]. iSplit.
  - iIntros "Hm". iDestruct "H" as "[H _]". iApply "H". iExists ms, fl. by iFrame.
  - iIntros "Hm". iDestruct "H" as "[_ H]". iApply "H". iExists ms, fl. by iFrame.
Qed.

Lemma wp_command_buffer c cs Φ Ψ :
  cx_command_pool c ↦ CommandPool cs -∗
  (∀ cmd, cx_command_pool c ↦ CommandPool (cmd :: cs) -∗ cmd ↦ CommandBuffer Initial -∗ Φ cmd) ∧
  (∀ e, cx_command_pool c ↦ CommandPool cs -∗ Ψ e) -∗
  wp d (into (context_command_buffer c)) Φ Ψ.
Proof.
  iIntros "Hp H". unfold into, context_command_buffer. vk_steps.
  iApply (wp_allocate_command_buffer with "Hp"). iSplit; [iDestruct "H" as "[$ _]"|].
  iIntros (e) "Hp". iDestruct "H" as "[_ H]". by iApply "H".
Qed.

Lemma wp_create_resources c cs src dst Φ Ψ : sizes_ok src -> sizes_ok dst ->
  cx_command_pool c ↦ CommandPool cs -∗
  (∀ r (_ : cr_src r = src /\ cr_dst r = dst),
    cx_command_pool c ↦ CommandPool (cr_cmd r :: cs) -∗ owns_resources r -∗ Φ r) ∧
  (∀ e cs', cx_command_pool c ↦ CommandPool cs' -∗ True -∗ Ψ e) -∗
  wp d (create_resources c src dst) Φ Ψ.
Proof.
  iIntros (Hsrc Hdst) "Hp H". unfold create_resources, build_fsr_context, create_fsr_image_format.
  rewrite !rgba_bytes_ok //. pose proof (size_of_pos src Hsrc). pose proof (size_of_pos dst Hdst).
  pose proof (depth_scratch_length src Hsrc) as Hdl. pose proof (mv_scratch_length src Hsrc) as Hml.
  pose proof Hsrc as (Hsw & Hsh & _). pose proof Hdst as (Hdw & Hdh & _).
  unfold or_failed, fsr_interface, fsr_context_new. vk_steps. iApply wp_ask. iSplit; [|leaves].
  vk_steps. iApply wp_create. iSplit; [|leaves]. iIntros (fsr) "Hfsr". vk_steps.
  iApply wp_create_fsr_image; [done|done|]. iSplit; [|leaves]. iIntros (color) "Hc". vk_steps.
  iApply wp_create_fsr_image; [done|done|]. iSplit; [|leaves]. iIntros (depth) "Hd". vk_steps.
  iApply wp_create_fsr_image; [done|done|]. iSplit; [|leaves]. iIntros (mv) "Hm". vk_steps.
  iApply wp_create_fsr_image; [done|done|]. iSplit; [|leaves]. iIntros (out) "Ho". vk_steps.
  iApply wp_host_pair; [done|]. iSplit; [|leaves]. iIntros (sc) "Hsc". vk_steps.
  iApply wp_host_pair; [done|]. iSplit; [|leaves]. iIntros (sd) "Hsd". vk_steps.
  iApply wp_host_pair; [done|]. iSplit; [|leaves]. iIntros (sm) "Hsm". vk_steps.
  iApply wp_host_pair; [done|]. iSplit; [|leaves]. iIntros (rb) "Hrb". vk_steps.
  iApply (wp_command_buffer with "Hp"). iSplit; [|leaves]. iIntros (cmd) "Hp Hcmd". vk_steps.
  iApply (wp_upload_pair with "Hsd"); [lia|]. iSplit; [|leaves]. iIntros "Hsd". vk_steps.
  iApply (wp_upload_pair with "Hsm"); [lia|]. iSplit; [|leaves]. iIntros "Hsm". vk_steps.
  rewrite /overwrite !drop_nil !app_nil_r.
  iApply (wp_command_buffer with "Hp"). iSplit; [|leaves]. iIntros (init) "Hp Hinit". vk_steps.
  iApply (wp_begin_command_buffer with "Hinit"); [done|]. iSplit; [|leaves]. iIntros "Hinit". vk_steps.
  iApply (wp_record_fill with "Hinit"). iIntros "Hinit". vk_steps.
  iApply (wp_record_fill with "Hinit"). iIntros "Hinit". vk_steps.
  iApply (wp_end_command_buffer with "Hinit"). iSplit; [|leaves]. iIntros "Hinit". unfold into. vk_steps.
  iApply (wp_submit_and_wait with "Hinit"). iSplit; [|leaves]. rewrite app_nil_l.
  iApply (wp_fill_commands with "Hsd Hd Hsm Hm"); [done|done|done|]. iIntros "Hsd Hd Hsm Hm Hinit".
  iSplit; [|leaves]. vk_steps. iApply (wp_free_command_buffer with "Hp Hinit"); [done|]. iIntros "Hp". vk_steps.
  iDestruct "H" as "[H _]". iApply ("H" $! (mkResources src dst fsr color depth mv out sc sd sm rb (size_of dst) cmd)
    (conj eq_refl eq_refl) with "Hp").
  iExists Initial. iSplit; [done|].
  cbn. iFrame.
Qed.

(** ** A frame *)

(** A whole picture of pixels, and sizes the device has images for.  A shorter picture
    would be shown with the end of the one before. *)
Definition frame_ok (f : GpuFrame) (dst : Z * Z) : Prop :=
  zlen (gf_data f) = size_of (gf_width f, gf_height f) /\ sizes_ok (gf_width f, gf_height f) /\ sizes_ok dst.

(** What the library makes of a frame: its pixels, at depth 1.0 and without motion. *)
Definition upscaled (f : GpuFrame) (dst : Z * Z) : GpuFrame :=
  let src := (gf_width f, gf_height f) in
  mkGpuFrame (d_fsr d src dst (gf_data f) (depth_scratch src) (mv_scratch src))
    dst.1 dst.2 (wrap 32 (dst.1 * 4)) (gf_timestamp_ns f).

Definition input_commands (r : CachedResources) : list vk_cmd :=
  let color := fi_image (cr_color r) in
  let output := fi_image (cr_output r) in
  [PipelineBarrier (mkBarrier color Undefined TransferDstOptimal TopOfPipe Transfer);
   CopyBufferToImage (cr_staging_color r).1 color TransferDstOptimal (cr_src r).1 (cr_src r).2;
   PipelineBarrier (mkBarrier color TransferDstOptimal ShaderReadOnly TopOfPipe Transfer);
   PipelineBarrier (mkBarrier output Undefined General TopOfPipe Transfer);
   MemoryBarrier Transfer ComputeShader].

Definition dispatch_command (r : CachedResources) : vk_cmd :=
  FsrDispatch (cr_fsr_ctx r) (image_of (cr_color r)) (image_of (cr_depth r)) (image_of (cr_mv r)) (image_of (cr_output r)).

Definition output_commands (r : CachedResources) : list vk_cmd :=
  let output := fi_image (cr_output r) in
  [PipelineBarrier (mkBarrier output General TransferSrcOptimal ComputeShader Transfer);
   CopyImageToBuffer output TransferSrcOptimal (cr_readback r).1 (cr_dst r).1 (cr_dst r).2].

Lemma wp_frame_commands r K data sc_bytes rb_bytes : sizes_ok (cr_src r) -> sizes_ok (cr_dst r) ->
  known d (size_of (cr_src r)) sc_bytes = data -> zlen data = size_of (cr_src r) ->
  cr_fsr_ctx r ↦ FsrContext (cr_src r) (cr_dst r) -∗
  some_image (cr_color r) (cr_src r) -∗
  owns_image (cr_depth r) (cr_src r) ShaderReadOnly (depth_scratch (cr_src r)) -∗
  owns_image (cr_mv r) (cr_src r) ShaderReadOnly (mv_scratch (cr_src r)) -∗
  some_image (cr_output r) (cr_dst r) -∗
  owns_pair (cr_staging_color r) (size_of (cr_src r)) [TransferSrc] sc_bytes -∗
  owns_pair (cr_readback r) (size_of (cr_dst r)) [TransferDst] rb_bytes -∗
  (cr_fsr_ctx r ↦ FsrContext (cr_src r) (cr_dst r) -∗
   some_image (cr_color r) (cr_src r) -∗
   owns_image (cr_depth r) (cr_src r) ShaderReadOnly (depth_scratch (cr_src r)) -∗
   owns_image (cr_mv r) (cr_src r) ShaderReadOnly (mv_scratch (cr_src r)) -∗
   some_image (cr_output r) (cr_dst r) -∗
   owns_pair (cr_staging_color r) (size_of (cr_src r)) [TransferSrc] sc_bytes -∗
   (∃ rest, owns_pair (cr_readback r) (size_of (cr_dst r)) [TransferDst]
     (d_fsr d (cr_src r) (cr_dst r) data
        (depth_scratch (cr_src r)) (mv_scratch (cr_src r)) ++ rest)) -∗ K) -∗
  wp d (exec_all (E:=vk_error) (input_commands r ++ dispatch_command r :: output_commands r))
    (fun used => wp d (each (E:=vk_error) use used) (fun _ =>
      wp d (each (E:=vk_error) unuse used) (fun _ => K) (fun _ => False)) (fun _ => False)) (fun _ => False).
Proof.
  destruct r as [src dst fsr [ci cm cv] [di dm dv] [mi mm mv] [oi om ov] [sb sm] sd smv [rb rm] rs cmd].
  cbn [cr_src cr_dst cr_fsr_ctx cr_color cr_depth cr_mv cr_output cr_staging_color cr_readback fst snd].
  iIntros (Hs Hd Hsc Hdl) "Hfsr (%l1 & %px1 & %st1 & %a1 & %b1 & Hci & Hcm & Hcv) (%st2 & %a2 & %b2 & Hdi & Hdm & Hdv)
    (%st3 & %a3 & %b3 & Hmi & Hmm & Hmv) (%l4 & %px4 & %st4 & %a4 & %b4 & Hoi & Hom & Hov)
    (%a5 & %b5 & %H5 & Hsb & Hsm) (%a6 & %b6 & %H6 & Hrb & Hrm) K".
  unfold input_commands, dispatch_command, output_commands, image_of.
  cbn [cr_src cr_dst cr_fsr_ctx cr_color cr_depth cr_mv cr_output cr_staging_color cr_readback fi_image fi_mem fi_view fst snd app].
  vk_exec. unfold size_of. vk_run.
  pose proof (size_of_pos src Hs) as Hss. pose proof (size_of_pos dst Hd) as Hds. unfold size_of in Hss, Hds.
  pose proof Hs as (Hsw & Hsh & _). pose proof Hd as (Hdw & Hdh & _).
  unfold size_of in Hsc, Hdl. rewrite !Hsc (known_full d _ data) //.
  rewrite (known_full d _ (depth_scratch src)); [|by apply depth_scratch_length].
  rewrite (known_full d _ (mv_scratch src)); [|by apply mv_scratch_length].
  rewrite (known_full d (dst.1 * dst.2 * 4)); [|destruct dst; apply fsr_size; cbn in *; lia].
  iApply ("K" with "Hfsr [Hci Hcm Hcv] [Hdi Hdm Hdv] [Hmi Hmm Hmv] [Hoi Hom Hov] [Hsb Hsm]").
  - iExists _, _, st1, a1, b1. iFrame.
  - iExists st2, a2, b2. iFrame.
  - iExists st3, a3, b3. iFrame.
  - iExists _, _, st4, a4, b4. iFrame.
  - iExists a5, b5. iSplit; [done|]. iFrame.
  - iExists _, a6, b6. iSplit; [done|]. unfold overwrite. cbn [fst snd]. iFrame.
Qed.
End Native.
