(* ===== verification/Fsr2Runs.v ===== *)
(** Frames upscaled by FSR 2: a frame on resources that fit, the cache over a sequence of
    frames, and the life of the upscaler. *)

From stdpp Require Import gmap strings.
From iris.proofmode Require Import proofmode.
From S2P Require Import Prelude Vulkan VulkanLogic VulkanContext VulkanSafety VulkanRuns Interpolate Fsr2Native Fsr2Safety.

#[local] Open Scope Z_scope.

Section Frames.
Context (d : driver) `{!DriverLaws d, !WaitsEnd d, !InOrder d}.

Lemma wp_reset_command_buffer {E} c st Φ (Ψ : E -> oprop) : not_pending st = true ->
  c ↦ CommandBuffer st -∗ (c ↦ CommandBuffer Initial -∗ Φ tt) -∗ wp d (reset_command_buffer c) Φ Ψ.
Proof.
  iIntros (Hst) "Hc H". unfold reset_command_buffer. vk_step. iApply (wp_idle with "Hc"). iIntros "Hc". vk_simpl.
  vk_step. iApply wp_assert; [done|]. vk_steps. by iApply "H".
Qed.

Lemma wp_record_input {E} cmd r Φ (Ψ : E -> oprop) :
  cmd ↦ CommandBuffer (Recording []) -∗
  (cmd ↦ CommandBuffer (Recording (input_commands r)) -∗ Φ tt) -∗ wp d (record_input cmd r) Φ Ψ.
Proof. iIntros "Hc H". unfold record_input, barrier_simple, copy_buf_to_image. vk_run. by iApply "H". Qed.

Lemma wp_record_output {E} cmd cs r Φ (Ψ : E -> oprop) :
  cmd ↦ CommandBuffer (Recording cs) -∗
  (cmd ↦ CommandBuffer (Recording (cs ++ output_commands r)) -∗ Φ tt) -∗ wp d (record_output cmd r) Φ Ψ.
Proof. iIntros "Hc H". unfold record_output. vk_run. rewrite -app_assoc. by iApply "H". Qed.

(** The resources, with what the host and the device may change in them. *)
Definition parts (r : CachedResources) (st : cmd_state) (bytes rb : list Z) : oprop :=
  (cr_fsr_ctx r ↦ FsrContext (cr_src r) (cr_dst r) ∗
   some_image (cr_color r) (cr_src r) ∗
   owns_image (cr_depth r) (cr_src r) ShaderReadOnly (depth_scratch (cr_src r)) ∗
   owns_image (cr_mv r) (cr_src r) ShaderReadOnly (mv_scratch (cr_src r)) ∗
   some_image (cr_output r) (cr_dst r) ∗
   owns_pair (cr_staging_color r) (size_of (cr_src r)) [TransferSrc] bytes ∗
   some_pair (cr_staging_depth r) (size_of (cr_src r)) [TransferSrc] ∗
   some_pair (cr_staging_mv r) (size_of (cr_src r)) [TransferSrc] ∗
   owns_pair (cr_readback r) (size_of (cr_dst r)) [TransferDst] rb ∗
   cr_cmd r ↦ CommandBuffer st)%I.

Lemma parts_owned r st bytes rb :
  parts r st bytes rb -∗ <affine> ⌜not_pending st = true⌝ -∗
  <affine> ⌜cr_readback_size r = size_of (cr_dst r)⌝ -∗ owns_resources r.
Proof.
  iIntros "(? & ? & ? & ? & ? & ? & ? & ? & ? & ?) %Hst %Hr". iExists st. iSplit; [done|]. iFrame.
Qed.

Lemma wp_read_pair p size us bytes n Φ Ψ : 0 < n <= size ->
  owns_pair p size us bytes -∗
  (owns_pair p size us bytes -∗ Φ (known d n bytes)) ∧ (∀ e, owns_pair p size us bytes -∗ Ψ e) -∗
  wp d (into (read_from_buffer p.2 n)) Φ Ψ.
Proof.
  iIntros (Hn) "(%ms & %fl & [%Hm %Hf] & Hb & Hm) H". unfold into. vk_step.
  iApply (wp_read_from_buffer with "Hm"); [lia|done|]. iSplit.
  - iIntros "Hm". iDestruct "H" as "[H _]". iApply "H". iExists ms, fl. by iFrame.
  - iIntros "Hm". iDestruct "H" as "[_ H]". iApply "H". iExists ms, fl. by iFrame.
Qed.

Ltac parts_back := iApply (parts_owned with "[-] [] []"); [unfold parts; iFrame|done|done].
Ltac still := iDestruct "H" as "[_ H]"; iApply "H"; parts_back.

(** Whatever fails, the resources are there for the next frame. *)
Lemma wp_upscale_frame r src Φ Ψ : frame_ok d src (cr_dst r) -> cr_src r = (gf_width src, gf_height src) ->
  owns_resources r -∗
  (owns_resources r -∗ Φ (upscaled d src (cr_dst r))) ∧ (∀ e, owns_resources r -∗ Ψ e) -∗
  wp d (upscale_frame r src) Φ Ψ.
Proof.
  iIntros ((Hl & Hsok & Hdok) Es)
    "(%st & [%Hst %Hrs] & Hfsr & Hc & Hd & Hm & Ho & [%b1 H1] & H2 & H3 & [%b4 H4] & Hcmd) H".
  rewrite -Es in Hl, Hsok. pose proof (size_of_pos d _ Hdok). pose proof (size_of_pos d _ Hsok).
  unfold upscale_frame, or_failed, fsr_dispatch. vk_steps.
  iApply (wp_upload_pair with "H1"); [lia|]. iSplit; [|iIntros (e) "H1"; still].
  iIntros "H1". vk_steps. iApply wp_ask. iSplit; [|iIntros (e); still].
  vk_steps. iApply (wp_reset_command_buffer with "Hcmd"); [done|]. iIntros "Hcmd". vk_steps.
  iApply (wp_begin_command_buffer with "Hcmd"); [done|]. iSplit; [|iIntros (e) "Hcmd"; still].
  iIntros "Hcmd". vk_steps. iApply (wp_record_input with "Hcmd"). iIntros "Hcmd". vk_steps.
  iApply wp_ask. iSplit; [|iIntros (e); still]. iApply (wp_record with "Hcmd"). iIntros "Hcmd".
  vk_steps. iApply (wp_record_output with "Hcmd"). iIntros "Hcmd". vk_steps.
  iApply (wp_end_command_buffer with "Hcmd"). iSplit; [|iIntros (e) "Hcmd"; still].
  iIntros "Hcmd". unfold into. vk_steps. rewrite -app_assoc.
  iApply (wp_submit_and_wait with "Hcmd"). iSplit; [|iIntros (what e) "Hcmd"; still].
  iApply (wp_frame_commands with "Hfsr Hc Hd Hm Ho H1 H4"); [done|done|by apply known_prefix|done|].
  iIntros "Hfsr Hc Hd Hm Ho H1 [%rest H4] Hcmd". iSplit; [|iIntros (e); still].
  vk_step. rewrite Hrs. iApply (wp_read_pair with "H4"); [lia|]. iSplit; [|iIntros (e) "H4"; still].
  iIntros "H4". vk_steps. iDestruct "H" as "[H _]".
  iSpecialize ("H" with "[-]"); [parts_back|].
  rewrite known_prefix; [by rewrite /upscaled -Es|].
  destruct (cr_dst r) as [w h], Hdok as (? & ? & _). cbn in *. apply fsr_size; lia.
Qed.

(** ** The cache *)

Definition cached (c : Context) (cs : list Z) (cache : option CachedResources) : oprop :=
  match cache with
  | None => cx_command_pool c ↦ CommandPool cs
  | Some r => cx_command_pool c ↦ CommandPool (cr_cmd r :: cs) ∗ owns_resources r
  end%I.

Lemma wp_attempted {E E' A} (m : vk E A) Φ (Ψ : E' -> oprop) :
  wp d m (fun a => Φ (inl a)) (fun e => Φ (inr e)) ⊢ wp d (attempt m) Φ Ψ.
Proof.
  unfold attempt. iIntros "H". do 2 vk_step. iApply (wp_wand with "H"). iSplit.
  - iIntros (a) "H". by vk_step.
  - iIntros (e) "H". by vk_step.
Qed.

(** Resources that fit are kept; others are destroyed before new ones are made. *)
Lemma wp_native_upscale c cs cache src dst Φ Ψ : frame_ok d src dst ->
  cached c cs cache -∗
  (∀ r out (_ : forall f, out = inl f -> f = upscaled d src dst), cached c cs (Some r) -∗ Φ (Some r, out)) ∧
  (∀ e cs', cached c cs' None -∗ True -∗ Φ (None, inr e)) -∗
  wp d (native_upscale c cache src dst.1 dst.2) Φ Ψ.
Proof.
  iIntros (Hok) "Hc H". unfold native_upscale. destruct dst as [dw dh]. cbn [fst snd].
  pose proof Hok as (_ & Hs & Hd).
  iAssert (∀ r (_ : cr_src r = (gf_width src, gf_height src) /\ cr_dst r = (dw, dh)), cached c cs (Some r) -∗
    (∀ r out (_ : forall f, out = inl f -> f = upscaled d src (dw, dh)), cached c cs (Some r) -∗ Φ (Some r, out)) ∧
    (∀ e cs', cached c cs' None -∗ True -∗ Φ (None, inr e)) -∗
    wp d (out ← attempt (upscale_frame r src); mret (Some r, out)) Φ Ψ)%I as "Hframe".
  { iIntros (r [Er Ed]) "[Hp Hr] H". vk_step. iApply wp_attempted. iApply (wp_upscale_frame with "Hr"); [by rewrite Ed|done|].
    iDestruct "H" as "[H _]". iSplit.
    - iIntros "Hr". vk_steps. rewrite Ed. unshelve iApply ("H" $! r (inl _) _ with "[Hp Hr]"); [by intros f [= ->]|]. iFrame.
    - iIntros (e) "Hr". vk_steps. unshelve iApply ("H" $! r (inr e) _ with "[Hp Hr]"); [by intros f [=]|]. iFrame. }
  destruct (needs_recreate cache _ _) eqn:En.
  - vk_steps. iAssert (wp d (match cache with Some old => destroy_resources (E:=Empty_set) c old | None => mret tt end)
      (fun _ => cached c cs None) Ψ) with "[Hc]" as "Hdrop".
    { destruct cache as [r|]; [|by vk_step]. iDestruct "Hc" as "[Hp Hr]".
      iApply (wp_destroy_resources with "Hp Hr"). by iIntros. }
    iApply (wp_wand with "Hdrop"). iSplit; [|by iIntros ([])]. iIntros (_) "Hp". vk_simpl. iApply wp_attempted.
    iApply (wp_create_resources with "Hp"); [done|done|]. iSplit.
    + iIntros (r Er) "Hp Hr". vk_simpl. iApply ("Hframe" $! r Er with "[Hp Hr] H"). iFrame.
    + iIntros (e cs') "Hp HT". vk_steps. iDestruct "H" as "[_ H]". iApply ("H" $! e cs' with "Hp HT").
  - destruct cache as [r|]; [|done]. do 2 vk_step. unshelve iApply ("Hframe" $! r _ with "Hc H").
    unfold needs_recreate in En. apply orb_false_iff in En as [E1 E2].
    apply negb_false_iff, bool_decide_eq_true in E1, E2. done.
Qed.

(** ** A sequence of frames *)

(** A frame that is given is the library's picture. *)
Definition right_frame (j : GpuFrame * (Z * Z)) (out : bool * (GpuFrame + InterpolateError)) : Prop :=
  forall f, out.2 = inl f -> f = upscaled d j.1 j.2.

Definition kept (outs : list (bool * (GpuFrame + InterpolateError))) : bool := forallb fst outs.

(** Once resources could not be made, what was made of them stays. *)
Definition leftover (c : Context) (cs : list Z) (ok : bool) (cache : option CachedResources) : oprop :=
  if ok then cached c cs cache else (∃ cs', cached c cs' cache ∗ True)%I.

Lemma wp_native_run c js : forall cs ok cache Φ (Ψ : Empty_set -> oprop),
  Forall (fun j => frame_ok d j.1 j.2) js ->
  leftover c cs ok cache -∗
  (∀ cache' outs (_ : Forall2 right_frame js outs), leftover c cs (ok && kept outs) cache' -∗ Φ (cache', outs)) -∗
  wp d (native_run c cache js) Φ Ψ.
Proof.
  induction js as [|[src dst] js IH]; intros cs ok cache Φ Ψ Hjs; cbn [native_run].
  { iIntros "Hc H". vk_step. unshelve iApply ("H" $! cache [] _ with "[Hc]"); [done|]. cbn. by rewrite andb_true_r. }
  apply Forall_cons in Hjs as [Hj Hjs]. cbn [fst snd] in Hj. iIntros "Hc H". vk_step.
  iAssert (∃ cs0, cached c cs0 cache ∗ (if ok then <affine> ⌜cs0 = cs⌝ else True))%I with "[Hc]" as (cs0) "[Hc Hrest]".
  { destruct ok; cbn; [iExists cs; by iFrame|]. iDestruct "Hc" as (cs') "[Hc HT]". iExists cs'. by iFrame. }
  iApply (wp_native_upscale with "Hc"); [done|]. iSplit.
  - iIntros (r out Hout) "Hc". vk_steps. iApply (IH cs ok with "[Hc Hrest]"); [done| |].
    + destruct ok; [iDestruct "Hrest" as %->; done|]. iExists cs0. by iFrame.
    + iIntros (cache' outs Houts) "Hc". vk_steps.
      unshelve iApply ("H" $! cache' ((true, out) :: outs) _ with "Hc"). by constructor.
  - iIntros (e cs') "Hc HT". vk_steps. iApply (IH cs false with "[Hc HT Hrest]"); [done| |].
    + iExists cs'. iFrame.
    + iIntros (cache' outs Houts) "Hc". vk_steps.
      unshelve iApply ("H" $! cache' ((false, inr e) :: outs) _ with "[Hc]"); [by constructor|].
      cbn. rewrite andb_false_r. done.
Qed.
End Frames.

(** ** The life of the upscaler *)

(** The cache and then the context, which goes with its last owner. *)
Definition native_end (c : Context) (cache : option CachedResources) : vk InterpolateError unit :=
  native_drop c cache;; drop_context c.

Section Life.
Context (d : driver) `{!DriverLaws d, !WaitsEnd d, !InOrder d}.

Lemma native_new_run n :
  exists g res, native_new d (mkGpu NoInstance n ∅) = Some (g, res) /\
  match res with
  | inl (c, cache) => cache = None /\ g_root g = InstanceAndDevice /\ g_objs g = {[cx_command_pool c := (O, CommandPool [])]}
  | inr _ => g_objs g = ∅
  end.
Proof.
  destruct (with_request_run d compute_only [] n) as (g & res & E & Hres).
  unfold native_new, into, map_err, or_else. cbv [mbind vk_bind]. unfold new. rewrite E.
  destruct res as [c|e]; [|by eexists g, (inr _); split; [|apply Hres]].
  destruct g as [root n1 objs]. destruct Hres as (_ & Hr & Ho). cbn in Hr, Ho. subst root objs.
  unfold with_context, fsr_interface, ask, map_err, or_else, driver_says, throw. cbv [mbind vk_bind mret vk_ret].
  cbn [g_clock g_root g_objs]. destruct (d_error d n1); cbv beta iota.
  - rewrite drop_context_run. by eexists _, _.
  - by eexists _, (inl _).
Qed.

Lemma native_end_run c cache root n objs : holds (cached c [] cache) objs -> root = InstanceAndDevice ->
  exists n', native_end c cache d (mkGpu root n objs) = Some (mkGpu NoInstance n' ∅, inl tt).
Proof.
  intros Hc ->. unfold native_end.
  destruct (wp_run d (native_drop (E:=InterpolateError) c cache) (cached c [] cache)
    (fun _ => cx_command_pool c ↦ CommandPool [])%I (fun _ => False)%I objs InstanceAndDevice n ∅) as (n' & σ' & r & E & _ & Hr).
  - destruct cache as [r|]; cbn [native_drop cached]; iIntros "H"; [iDestruct "H" as "[Hp Hr]"|by vk_step].
    iApply (wp_destroy_resources with "Hp Hr"). by iIntros.
  - done.
  - apply map_disjoint_empty_r.
  - rewrite !map_union_empty in E. cbv [mbind vk_bind]. rewrite E. destruct r as [[]|e]; [|done]. cbn in Hr. subst σ'.
    exists n'. apply drop_context_run.
Qed.
End Life.

(** From nothing, on any driver and whatever fails, for any sequence of frames
    and of target sizes: every call of the upscaler is valid; every frame it gives is
    what the library makes of the pixels, at the constant depth and without motion, in
    the size asked for; an error leaves it usable; and when no resources failed to be
    made (a frame may have), its end and the context's leave no object, no device and no
    instance. *)
Theorem native_life (d : driver) (Hd : DriverLaws d) (Hwt : WaitsEnd d) (Hio : InOrder d) n js : Forall (fun j => frame_ok d j.1 j.2) js ->
  exists g res, native_new d (mkGpu NoInstance n ∅) = Some (g, res) /\
  match res with
  | inl (c, cache) =>
      exists g' cache' outs, native_run c cache js d g = Some (g', inl (cache', outs)) /\
      Forall2 (right_frame d) js outs /\
      (kept outs = true ->
        exists n', native_end c cache' d g' = Some (mkGpu NoInstance n' ∅, inl tt))
  | inr _ => g_objs g = ∅
  end.
Proof.
  intros Hjs. destruct (native_new_run d n) as (g & res & -> & Hres). exists g, res. split; [done|].
  destruct res as [[c cache]|e]; [|done]. destruct g as [root n1 objs]. cbn in Hres. destruct Hres as (-> & -> & ->).
  destruct (wp_run d (native_run c None js) (leftover c [] true None)
    (fun r => ∃ (_ : Forall2 (right_frame d) js r.2), leftover c [] (kept r.2) r.1)%I (fun _ => False)%I
    {[cx_command_pool c := (O, CommandPool [])]} InstanceAndDevice n1 ∅) as (n2 & σ & r & E & _ & Hr).
  - iIntros "Hc". iApply (wp_native_run with "Hc"); [done|]. iIntros (cache' outs Houts) "Hc". by iExists Houts.
  - done.
  - apply map_disjoint_empty_r.
  - rewrite !map_union_empty in E. destruct r as [[cache' outs]|[]]. destruct Hr as [Houts Hr]. cbn [fst snd] in Houts, Hr.
    eexists _, cache', outs. split; [exact E|]. split; [done|]. intros Hk. rewrite Hk in Hr.
    by apply native_end_run.
Qed.

(** ** On a device *)

Definition demo_frame (px : list Z) : GpuFrame := mkGpuFrame px 1 1 4 0.

Definition demo_frames : list (GpuFrame * (Z * Z)) :=
  [(demo_frame [9; 8; 7; 255], (2, 1)); (demo_frame [1; 2; 3; 4], (1, 2))].

(** The pixels of the frames given, and whether the end is valid. *)
Definition demo_native (fails : nat -> option vk_error) (js : list (GpuFrame * (Z * Z)))
    : option (list (option (list Z)) * bool) :=
  let d := demo_driver fails in
  match native_new d (mkGpu NoInstance 0 ∅) with
  | Some (g, inl (c, cache)) =>
      match native_run c cache js d g with
      | Some (g, inl (cache, outs)) =>
          let pixels := (fun o : bool * (GpuFrame + InterpolateError) =>
            match o.2 with inl f => Some (gf_data f) | inr _ => None end) <$> outs in
          Some (pixels, match native_end c cache d g with Some (g, _) => bool_decide (g_root g = NoInstance) | None => false end)
      | _ => None
      end
  | _ => None
  end.

Lemma native_life_witness :
  demo_native (fun _ => None) demo_frames =
    Some ([Some [9; 8; 7; 255; 9; 8; 7; 255]; Some [1; 2; 3; 4; 1; 2; 3; 4]], true) /\
  exists g res, native_new (demo_driver (fun _ => None)) (mkGpu NoInstance 0 ∅) = Some (g, res) /\
  match res with
  | inl (c, cache) =>
      exists g' cache' outs, native_run c cache demo_frames (demo_driver (fun _ => None)) g = Some (g', inl (cache', outs)) /\
      Forall2 (right_frame (demo_driver (fun _ => None))) demo_frames outs /\
      (kept outs = true ->
        exists n', native_end c cache' (demo_driver (fun _ => None)) g' = Some (mkGpu NoInstance n' ∅, inl tt))
  | inr _ => g_objs g = ∅
  end.
Proof.
  split; [vm_compute; reflexivity|].
  apply (native_life (demo_driver (fun _ => None)) (demo_laws _) (demo_waits _) (demo_in_order _) 0 demo_frames).
  repeat constructor; vm_compute; congruence.
Defined.

(** A call that fails while the resources are made leaves those made before it, and the
    device is then destroyed while they live. *)
Example failed_making_spoils_end :
  snd <$> demo_native (fun n => if (n =? 30)%nat then Some Vulkan.DeviceLost else None) demo_frames = Some false /\
  snd <$> demo_native (fun n => if (n =? 1000)%nat then Some Vulkan.DeviceLost else None) demo_frames = Some true.
Proof. by vm_compute. Qed.

(** A picture shorter than its sizes say is shown with the end of the one before. *)
Example short_frame_shows_previous :
  fst <$> demo_native (fun _ => None) [(demo_frame [9; 8; 7; 255], (1, 1)); (demo_frame [1; 2], (1, 1))] =
    Some [Some [9; 8; 7; 255]; Some [1; 2; 7; 255]].
Proof. by vm_compute. Qed.

(** The size of a buffer is a product of [u32]s, which wraps. *)
Example large_picture_wraps : rgba_bytes (32768, 32768) = 0.
Proof. done. Qed.
