(* ===== verification/Fsr2.v ===== *)
(** The compute-shader upscaler ([crates/remoteway-interpolate/src/backends/fsr2.rs]):
    its four passes, the buffers cached for motion-compensated interpolation, the EASU and
    RCAS fallback of [upscale], and the end.

    What the shaders compute is [d_shader]; their compiled code is well formed.  [upscale]
    belongs to [fsr2_native.rs] when the library is there (Fsr2Native.v).  A lock fails
    only when a thread panicked with it, and nothing here does. *)

From stdpp Require Import gmap strings.
From S2P Require Import Prelude Floats Casts Encoder Vulkan VulkanContext Interpolate Fsr2Native.

#[local] Open Scope Z_scope.

(** ** State *)

(** [Fsr2Interpolator], without what changes. *)
Record Passes := mkPasses {
  ps_motion_pipeline : Z; ps_warp_pipeline : Z; ps_easu_pipeline : Z; ps_rcas_pipeline : Z;
  ps_motion_pipeline_layout : Z; ps_warp_pipeline_layout : Z;
  ps_easu_pipeline_layout : Z; ps_rcas_pipeline_layout : Z;
  ps_motion_desc_layout : Z; ps_warp_desc_layout : Z; ps_easu_desc_layout : Z; ps_rcas_desc_layout : Z;
  ps_desc_pool : Z; ps_block_size : Z; ps_search_radius : Z }.

(** [Fsr2Resources]: each buffer with its memory. *)
Record Fsr2Resources := mkFsr2Resources {
  re_width : Z; re_height : Z;
  re_frame_a : Z * Z; re_frame_b : Z * Z; re_motion : Z * Z; re_output : Z * Z;
  re_staging_a : Z * Z; re_staging_b : Z * Z; re_readback : Z * Z;
  re_motion_desc_set : Z; re_warp_desc_set : Z; re_cmd : Z }.

(** [cached], and what [native_upscaler] caches when there is one. *)
Record Fsr2State := mkFsr2State {
  fs_cached : option Fsr2Resources; fs_native : option (option CachedResources) }.

(** ** The passes *)

Definition or_init {A} (what : string) : vk vk_error A -> vk InterpolateError A :=
  map_err (fun _ => InitFailed what).

(** The sizes of the push constants in bytes. *)
Definition PUSH_CONSTANTS : Z := 20.
Definition EASU_PUSH : Z := 16.
Definition RCAS_PUSH : Z := 12.

(** Motion estimation and warping, and the pool of the descriptor sets: the two
    pipelines, their layouts, the layouts of their sets, and the pool. *)
Definition build_motion_warp : vk InterpolateError (Z * Z * (Z * Z) * (Z * Z) * Z) :=
  motion_module ← or_init "motion shader" (create_shader_module "motion_est");
  warp_module ← or_init "warp shader" (create_shader_module "warp_blend");
  motion_desc_layout ← or_init "desc layout" (create_descriptor_set_layout 3);
  warp_desc_layout ← or_init "desc layout" (create_descriptor_set_layout 4);
  motion_pipeline_layout ← or_init "pipeline layout" (create_pipeline_layout motion_desc_layout PUSH_CONSTANTS);
  warp_pipeline_layout ← or_init "pipeline layout" (create_pipeline_layout warp_desc_layout PUSH_CONSTANTS);
  pipelines ← or_init "pipelines" (create_compute_pipelines
    [(motion_module, motion_pipeline_layout); (warp_module, warp_pipeline_layout)]);
  match pipelines with
  | [motion_pipeline; warp_pipeline] =>
      desc_pool ← or_init "desc pool" (create_descriptor_pool 4 16);
      destroy_shader_module motion_module;;
      destroy_shader_module warp_module;;
      mret (motion_pipeline, warp_pipeline, (motion_pipeline_layout, warp_pipeline_layout),
        (motion_desc_layout, warp_desc_layout), desc_pool)
  | _ => invalid
  end.

(** One pass of [upscale], EASU or RCAS: the pipeline and the two layouts. *)
Definition build_pass (code : string) (bindings : nat) (push : Z) : vk InterpolateError (Z * Z * Z) :=
  module ← or_init (code +:+ " shader") (create_shader_module code);
  desc_layout ← or_init (code +:+ " desc layout") (create_descriptor_set_layout bindings);
  pipeline_layout ← or_init (code +:+ " pipeline layout") (create_pipeline_layout desc_layout push);
  pipelines ← or_init (code +:+ " pipeline") (create_compute_pipelines [(module, pipeline_layout)]);
  match pipelines with
  | [pipeline] => destroy_shader_module module;; mret (pipeline, pipeline_layout, desc_layout)
  | _ => invalid
  end.

Definition build_passes (block_size search_radius : Z) : vk InterpolateError Passes :=
  '(motion, warp, (motion_pl, warp_pl), (motion_dl, warp_dl), pool) ← build_motion_warp;
  '(easu, easu_pl, easu_dl) ← build_pass "easu_upscale" 2 EASU_PUSH;
  '(rcas, rcas_pl, rcas_dl) ← build_pass "rcas" 1 RCAS_PUSH;
  mret (mkPasses motion warp easu rcas motion_pl warp_pl easu_pl rcas_pl motion_dl warp_dl easu_dl rcas_dl
    pool block_size search_radius).

(** [with_context(..).ok()]. *)
Definition native_or_none : vk InterpolateError (option (option CachedResources)) :=
  or_else (cache ← with_context; mret (Some cache)) (fun _ => mret None).

(** [Fsr2Interpolator::with_params]: on an error the context ends, and only the context. *)
Definition with_params (block_size search_radius : Z) : vk InterpolateError (Context * Passes * Fsr2State) :=
  c ← into (new []);
  i ← or_else (build_passes block_size search_radius) (fun e => drop_context c;; throw e);
  native ← native_or_none;
  mret (c, i, mkFsr2State None native).

(** [Fsr2Interpolator::new]. *)
Definition fsr2_new : vk InterpolateError (Context * Passes * Fsr2State) := with_params 8 8.

(** ** Interpolation *)

Definition destroy_buffers {E} (r : Fsr2Resources) : vk E unit :=
  destroy_pair (re_frame_a r);;
  destroy_pair (re_frame_b r);;
  destroy_pair (re_motion r);;
  destroy_pair (re_output r);;
  destroy_pair (re_staging_a r);;
  destroy_pair (re_staging_b r);;
  destroy_pair (re_readback r).

(** [u32::div_ceil]; by zero it panics. *)
Definition ceil_div (a b : Z) : Z := (a + b - 1) / b.
Definition div_ceil {E} (a b : Z) : vk E Z := assert_valid (0 <? b);; mret (ceil_div a b).

(** Device-local, or else visible to the host. *)
Definition try_create (size : Z) (us : list image_usage) : vk InterpolateError (Z * Z) :=
  into (or_else (create_buffer size us DEVICE_LOCAL)
    (fun _ => create_buffer size us (Z.lor HOST_VISIBLE HOST_COHERENT))).

(** The seven descriptors of the two sets. *)
Definition write_sets {E} (motion_set warp_set frame_a frame_b motion output frame_size motion_size : Z) : vk E unit :=
  write_descriptor motion_set 0 frame_a frame_size;;
  write_descriptor motion_set 1 frame_b frame_size;;
  write_descriptor motion_set 2 motion motion_size;;
  write_descriptor warp_set 0 frame_a frame_size;;
  write_descriptor warp_set 1 frame_b frame_size;;
  write_descriptor warp_set 2 motion motion_size;;
  write_descriptor warp_set 3 output frame_size.

Definition make_buffers (c : Context) (i : Passes) (w h : Z) : vk InterpolateError Fsr2Resources :=
  let frame_size := rgba_bytes (w, h) in
  blocks_x ← div_ceil w (ps_block_size i);
  blocks_y ← div_ceil h (ps_block_size i);
  let motion_size := wrap 32 (blocks_x * blocks_y * 8) in
  let host := Z.lor HOST_VISIBLE HOST_COHERENT in
  let storage := [StorageBuffer; TransferDst] in
  let staging := [TransferSrc; TransferDst] in
  frame_a ← try_create frame_size storage;
  frame_b ← try_create frame_size storage;
  motion ← try_create motion_size [StorageBuffer];
  output ← try_create frame_size [StorageBuffer; TransferSrc];
  staging_a ← into (create_buffer frame_size staging host);
  staging_b ← into (create_buffer frame_size staging host);
  readback ← into (create_buffer frame_size staging host);
  sets ← or_failed "alloc desc" (allocate_descriptor_sets (ps_desc_pool i)
    [ps_motion_desc_layout i; ps_warp_desc_layout i]);
  match sets with
  | [motion_set; warp_set] =>
      write_sets motion_set warp_set frame_a.1 frame_b.1 motion.1 output.1 frame_size motion_size;;
      cmd ← into (context_command_buffer c);
      mret (mkFsr2Resources w h frame_a frame_b motion output staging_a staging_b readback motion_set warp_set cmd)
  | _ => invalid
  end.

(** [ensure_resources]: the cache afterwards.  The command buffer of resources that do
    not fit stays in its pool. *)
Definition ensure_resources (c : Context) (i : Passes) (cache : option Fsr2Resources) (w h : Z)
    : vk Empty_set (option Fsr2Resources * (unit + InterpolateError)) :=
  let make := (made ← attempt (make_buffers c i w h);
               match made with
               | inl r => mret (Some r, inl tt)
               | inr e => mret (None, inr e)
               end : vk Empty_set _) in
  match cache with
  | None => make
  | Some r =>
      if (re_width r =? w) && (re_height r =? h) then mret (Some r, inl tt)
      else
        destroy_buffers r;;
        reset ← attempt (or_failed "reset descriptor pool" (reset_descriptor_pool (ps_desc_pool i)));
        match reset with inl _ => make | inr e => mret (None, inr e) end
  end.

(** Binding a pipeline with its set, the push constants, and the dispatch. *)
Definition record_dispatch {E} (cmd pipeline layout set : Z) (push : list Z) (groups : Z * Z) : vk E unit :=
  record cmd (Dispatch pipeline layout set push groups).

(** The commands of [run]. *)
Definition record_run (i : Passes) (r : Fsr2Resources) (w h : Z) (t : f32) : vk InterpolateError unit :=
  let cmd := re_cmd r in
  let frame_size := rgba_bytes (w, h) in
  record cmd (CopyBuffer (re_staging_a r).1 (re_frame_a r).1 frame_size);;
  record cmd (CopyBuffer (re_staging_b r).1 (re_frame_b r).1 frame_size);;
  record cmd (MemoryBarrier Transfer ComputeShader);;
  let push := [w; h; f32_to_bits t; ps_block_size i; ps_search_radius i] in
  blocks_x ← div_ceil w (ps_block_size i);
  blocks_y ← div_ceil h (ps_block_size i);
  record_dispatch cmd (ps_motion_pipeline i) (ps_motion_pipeline_layout i) (re_motion_desc_set r) push
    (ceil_div blocks_x 16, ceil_div blocks_y 16);;
  record cmd (MemoryBarrier ComputeShader ComputeShader);;
  record_dispatch cmd (ps_warp_pipeline i) (ps_warp_pipeline_layout i) (re_warp_desc_set r) push
    (ceil_div w 16, ceil_div h 16);;
  record cmd (MemoryBarrier ComputeShader Transfer);;
  record cmd (CopyBuffer (re_output r).1 (re_readback r).1 frame_size).

Definition run_frames (i : Passes) (r : Fsr2Resources) (a b : GpuFrame) (t : f32) : vk InterpolateError (list Z) :=
  let w := gf_width a in
  let h := gf_height a in
  into (upload_to_buffer (re_staging_a r).2 (gf_data a));;
  into (upload_to_buffer (re_staging_b r).2 (gf_data b));;
  or_failed "reset cmd" ask;; reset_command_buffer (re_cmd r);;
  or_failed "begin cmd" (begin_command_buffer (re_cmd r));;
  record_run i r w h t;;
  or_failed "end cmd" (end_command_buffer (re_cmd r));;
  into (submit_and_wait (re_cmd r));;
  into (read_from_buffer (re_readback r).2 (rgba_bytes (w, h))).

(** [Fsr2Interpolator::run]. *)
Definition fsr2_interpolation (c : Context) (i : Passes) (cache : option Fsr2Resources) (a b : GpuFrame) (t : f32)
    : vk Empty_set (option Fsr2Resources * (list Z + InterpolateError)) :=
  '(cache, ready) ← ensure_resources c i cache (gf_width a) (gf_height a);
  match ready, cache with
  | inr e, _ => mret (cache, inr e)
  | inl _, None => mret (cache, inr (InterpolateFailed "cached resources unexpectedly None"))
  | inl _, Some r => out ← attempt (run_frames i r a b t); mret (cache, out)
  end.

(** The trait's [interpolate] does not call it. *)
Definition fsr2_interpolate (a b : GpuFrame) (t : f32) : GpuFrame + InterpolateError :=
  inr (InterpolateFailed "Fsr2Interpolator uses FSR2 native upscale for temporal quality; separate interpolation not needed").

(** ** Scaling *)

(** What an upscaling makes and destroys again. *)
Record Scaling := mkScaling {
  sc_src : Z * Z; sc_dst : Z * Z; sc_easu_set : Z; sc_rcas_set : Z; sc_cmd : Z }.

(** 0.5 as an [f32]. *)
Definition sharpness : f32 := f32_frac 1 2.

(** A set of one layout. *)
Definition one_set (what : string) (pool layout : Z) : vk InterpolateError Z :=
  sets ← or_failed what (allocate_descriptor_sets pool [layout]);
  match sets with [set] => mret set | _ => invalid end.

(** [upscale] without the library, until the picture is read. *)
Definition upscale_compute (c : Context) (i : Passes) (src : GpuFrame) (dst_w dst_h : Z)
    : vk InterpolateError (list Z * Scaling) :=
  let host := Z.lor HOST_VISIBLE HOST_COHERENT in
  let src_size := rgba_bytes (gf_width src, gf_height src) in
  let dst_size := rgba_bytes (dst_w, dst_h) in
  let groups := (ceil_div dst_w 16, ceil_div dst_h 16) in
  src_buf ← into (create_buffer src_size [StorageBuffer] host);
  into (upload_to_buffer src_buf.2 (gf_data src));;
  dst_buf ← into (create_buffer dst_size [StorageBuffer] host);
  easu_set ← one_set "EASU desc set" (ps_desc_pool i) (ps_easu_desc_layout i);
  write_descriptor easu_set 0 src_buf.1 src_size;;
  write_descriptor easu_set 1 dst_buf.1 dst_size;;
  cmd ← into (context_command_buffer c);
  or_failed "begin cmd" (begin_command_buffer cmd);;
  record_dispatch cmd (ps_easu_pipeline i) (ps_easu_pipeline_layout i) easu_set
    [gf_width src; gf_height src; dst_w; dst_h] groups;;
  rcas_set ← one_set "RCAS desc set" (ps_desc_pool i) (ps_rcas_desc_layout i);
  write_descriptor rcas_set 0 dst_buf.1 dst_size;;
  record cmd (MemoryBarrier ComputeShader ComputeShader);;
  record_dispatch cmd (ps_rcas_pipeline i) (ps_rcas_pipeline_layout i) rcas_set
    [dst_w; dst_h; f32_to_bits sharpness] groups;;
  or_failed "end cmd" (end_command_buffer cmd);;
  into (submit_and_wait cmd);;
  data ← into (read_from_buffer dst_buf.2 dst_size);
  mret (data, mkScaling src_buf dst_buf easu_set rcas_set cmd).

(** The end of [upscale]. *)
Definition upscale_cleanup {E} (c : Context) (i : Passes) (s : Scaling) : vk E unit :=
  destroy_pair (sc_src s);;
  destroy_pair (sc_dst s);;
  free_descriptor_sets (ps_desc_pool i) [sc_easu_set s; sc_rcas_set s];;
  free_command_buffer (cx_command_pool c) (sc_cmd s).

Definition upscale_fallback (c : Context) (i : Passes) (src : GpuFrame) (dst_w dst_h : Z)
    : vk InterpolateError GpuFrame :=
  '(data, s) ← upscale_compute c i src dst_w dst_h;
  upscale_cleanup c i s;;
  mret (mkGpuFrame data dst_w dst_h (wrap 32 (dst_w * 4)) (gf_timestamp_ns src)).

(** [upscale]: the library's when it is there. *)
Definition fsr2_upscale (c : Context) (i : Passes) (st : Fsr2State) (src : GpuFrame) (dst_w dst_h : Z)
    : vk Empty_set (Fsr2State * (GpuFrame + InterpolateError)) :=
  match fs_native st with
  | Some cache =>
      '(cache, out) ← native_upscale c cache src dst_w dst_h;
      mret (mkFsr2State (fs_cached st) (Some cache), out)
  | None => out ← attempt (upscale_fallback c i src dst_w dst_h); mret (st, out)
  end.

(** ** The end *)

(** [Drop], then the fields: the library's upscaler with its resources, and the context
    with its last owner. *)
Definition fsr2_drop {E} (i : Passes) (cache : option Fsr2Resources) : vk E unit :=
  match cache with Some r => destroy_buffers r | None => mret tt end;;
  destroy_descriptor_pool (ps_desc_pool i);;
  destroy_pipeline (ps_motion_pipeline i);;
  destroy_pipeline (ps_warp_pipeline i);;
  destroy_pipeline (ps_easu_pipeline i);;
  destroy_pipeline (ps_rcas_pipeline i);;
  destroy_pipeline_layout (ps_motion_pipeline_layout i);;
  destroy_pipeline_layout (ps_warp_pipeline_layout i);;
  destroy_pipeline_layout (ps_easu_pipeline_layout i);;
  destroy_pipeline_layout (ps_rcas_pipeline_layout i);;
  destroy_descriptor_set_layout (ps_motion_desc_layout i);;
  destroy_descriptor_set_layout (ps_warp_desc_layout i);;
  destroy_descriptor_set_layout (ps_easu_desc_layout i);;
  destroy_descriptor_set_layout (ps_rcas_desc_layout i).

Definition fsr2_end {E} (c : Context) (i : Passes) (st : Fsr2State) : vk E unit :=
  fsr2_drop i (fs_cached st);;
  match fs_native st with Some cache => native_drop c cache | None => mret tt end;;
  drop_context c.

(** Frames in a row, with the states after each. *)
Fixpoint fsr2_run (c : Context) (i : Passes) (st : Fsr2State) (js : list (GpuFrame * (Z * Z)))
    : vk Empty_set (Fsr2State * list (bool * (GpuFrame + InterpolateError))) :=
  match js with
  | [] => mret (st, [])
  | (src, dst) :: js =>
      '(st, out) ← fsr2_upscale c i st src dst.1 dst.2;
      let cached := match fs_native st with Some (Some _) => true | _ => false end in
      '(last, outs) ← fsr2_run c i st js;
      mret (last, (cached, out) :: outs)
  end.
