(* ===== verification/Fsr2Logic.v ===== *)
(** The compute-shader upscaler, proved in the logic of VulkanLogic.v: the passes, the
    pool of descriptor sets, and what the device makes of the dispatches. *)

From stdpp Require Import gmap strings.
From iris.proofmode Require Import proofmode.
From S2P Require Import Prelude Floats Casts Vulkan VulkanLogic VulkanContext VulkanSafety Interpolate Fsr2Native Fsr2Safety Fsr2Runs Fsr2.

#[local] Open Scope Z_scope.

(** ** What is owned *)

(** A buffer with its memory, which the host need not see. *)
Definition owns_buf (p : Z * Z) (size : Z) (us : list image_usage) (bytes : list Z) : oprop :=
  (∃ msize flags, p.1 ↦ Buffer size us (Some p.2) ∗ p.2 ↦ Memory msize flags false bytes)%I.

Definition some_buf (p : Z * Z) (size : Z) (us : list image_usage) : oprop := (∃ bytes, owns_buf p size us bytes)%I.

Definition owns_pass (pipeline layout desc_layout : Z) (code : string) (n : nat) (push : Z) : oprop :=
  (pipeline ↦ Pipeline code n push ∗ layout ↦ PipelineLayout n push ∗ desc_layout ↦ SetLayout n)%I.

Definition owns_passes (i : Passes) : oprop :=
  (owns_pass (ps_motion_pipeline i) (ps_motion_pipeline_layout i) (ps_motion_desc_layout i) "motion_est" 3 PUSH_CONSTANTS ∗
   owns_pass (ps_warp_pipeline i) (ps_warp_pipeline_layout i) (ps_warp_desc_layout i) "warp_blend" 4 PUSH_CONSTANTS ∗
   owns_pass (ps_easu_pipeline i) (ps_easu_pipeline_layout i) (ps_easu_desc_layout i) "easu_upscale" 2 EASU_PUSH ∗
   owns_pass (ps_rcas_pipeline i) (ps_rcas_pipeline_layout i) (ps_rcas_desc_layout i) "rcas" 1 RCAS_PUSH)%I.

Definition some_set (s : Z * nat) : oprop := (∃ slots, s.1 ↦ DescriptorSet slots)%I.

(** The pool with sets nobody uses any more. *)
Definition owns_pool (i : Passes) (sets : list (Z * nat)) : oprop :=
  (ps_desc_pool i ↦ DescriptorPool 4 16 false sets ∗ [∗ list] s ∈ sets, some_set s)%I.

(** A dispatch on the buffers of a set: reading them, and writing what the shader left. *)
Ltac vk_shown := cbn [shown]; unfold bound_memory; vk_run; cbn [fmap list_fmap fst snd].
Ltac vk_shaded := cbn [length seq fmap list_fmap write_back mjoin list_join app]; unfold set_bytes; vk_run.

Section Passes.
Context (d : driver) `{!DriverLaws d, !WaitsEnd d, !InOrder d}.

Lemma owns_pair_buf p size us bytes : owns_pair p size us bytes ⊢ owns_buf p size us bytes.
Proof. iIntros "(%ms & %fl & [%Hm %Hf] & Hb & Hm)". iExists ms, fl. iFrame. Qed.

Lemma wp_destroy_buf {E} p size us Φ (Ψ : E -> oprop) :
  some_buf p size us -∗ Φ tt -∗ wp d (destroy_pair p) Φ Ψ.
Proof. iIntros "(%bytes & %ms & %fl & ? & ?) H". unfold destroy_pair. vk_run. done. Qed.

(** ** Making the passes *)

(** An error of which nothing is asked. *)
Ltac lost := iIntros; iDestruct "H" as "[_ H]"; by iApply "H".

Lemma wp_build_motion_warp Φ Ψ :
  (∀ m w ml wl md wd pool,
     owns_pass m ml md "motion_est" 3 PUSH_CONSTANTS -∗ owns_pass w wl wd "warp_blend" 4 PUSH_CONSTANTS -∗
     pool ↦ DescriptorPool 4 16 false [] -∗ Φ (m, w, (ml, wl), (md, wd), pool)) ∧ (∀ e, True -∗ Ψ e) -∗
  wp d build_motion_warp Φ Ψ.
Proof.
  iIntros "H". unfold build_motion_warp, or_init, create_shader_module, create_descriptor_set_layout.
  vk_steps. iApply wp_create. iSplit; [|lost]. iIntros (mm) "Hmm". vk_steps.
  iApply wp_create. iSplit; [|lost]. iIntros (wm) "Hwm". vk_steps.
  iApply wp_create. iSplit; [|lost]. iIntros (md) "Hmd". vk_steps.
  iApply wp_create. iSplit; [|lost]. iIntros (wd) "Hwd". unfold create_pipeline_layout. vk_steps.
  iApply wp_create. iSplit; [|lost]. iIntros (ml) "Hml". vk_steps.
  iApply wp_create. iSplit; [|lost]. iIntros (wl) "Hwl". cbn [create_compute_pipelines]. vk_steps.
  iApply wp_create. iSplit; [|lost]. iIntros (m) "Hm". vk_steps.
  iApply wp_create. iSplit; [|lost]. iIntros (w) "Hw". unfold create_descriptor_pool. vk_steps.
  iApply wp_create. iSplit; [|lost]. iIntros (pool) "Hpool". vk_run.
  iDestruct "H" as "[H _]". iApply ("H" with "[$Hm $Hml $Hmd] [$Hw $Hwl $Hwd] Hpool").
Qed.

Lemma wp_build_pass code n push Φ Ψ : (0 <? push) && (push mod 4 =? 0) && (push <=? 128) = true ->
  (∀ p pl dl, owns_pass p pl dl code n push -∗ Φ (p, pl, dl)) ∧ (∀ e, True -∗ Ψ e) -∗
  wp d (build_pass code n push) Φ Ψ.
Proof.
  iIntros (Hp) "H". unfold build_pass, or_init, create_shader_module, create_descriptor_set_layout.
  vk_steps. iApply wp_create. iSplit; [|lost]. iIntros (m) "Hm". vk_steps.
  iApply wp_create. iSplit; [|lost]. iIntros (dl) "Hdl". unfold create_pipeline_layout. do 5 vk_step.
  iApply wp_assert; [done|]. iApply wp_create. iSplit; [|lost]. iIntros (pl) "Hpl".
  cbn [create_compute_pipelines]. vk_steps. iApply wp_create. iSplit; [|lost]. iIntros (p) "Hp". vk_run.
  iDestruct "H" as "[H _]". iApply ("H" with "[$Hp $Hpl $Hdl]").
Qed.

Lemma wp_build_passes bs sr Φ Ψ :
  (∀ i (_ : ps_block_size i = bs /\ ps_search_radius i = sr),
     owns_passes i -∗ owns_pool i [] -∗ Φ i) ∧ (∀ e, True -∗ Ψ e) -∗
  wp d (build_passes bs sr) Φ Ψ.
Proof.
  iIntros "H". unfold build_passes. vk_step. iApply wp_build_motion_warp. iSplit; [|lost].
  iIntros (m w ml wl md wd pool) "Hm Hw Hp". vk_step. iApply wp_build_pass; [done|].
  iSplit; [|lost]. iIntros (e el ed) "He". vk_step. iApply wp_build_pass; [done|].
  iSplit; [|lost]. iIntros (r rl rd) "Hr". vk_step. iDestruct "H" as "[H _]".
  iApply ("H" $! (mkPasses m w e r ml wl el rl md wd ed rd pool bs sr) (conj eq_refl eq_refl) with "[$Hm $Hw $He $Hr]").
  iFrame. done.
Qed.

(** ** Descriptor sets *)

Lemma wp_alloc_sets {E} ns : forall Φ (Ψ : E -> oprop),
  (∀ ss (_ : snd <$> ss = ns), ([∗ list] s ∈ ss, s.1 ↦ DescriptorSet (replicate s.2 None)) -∗ Φ ss) -∗
  wp d (alloc_sets ns) Φ Ψ.
Proof.
  induction ns as [|n ns IH]; intros Φ Ψ; iIntros "H"; cbn [alloc_sets].
  - vk_step. by unshelve iApply ("H" $! [] _).
  - do 2 vk_step. iSelect (_ ↦ _)%I (fun Hs => iRename Hs into "Hs"). vk_step. iApply IH. iIntros (ss Hss) "Hss". vk_step.
    unshelve iApply ("H" $! ((h, n) :: ss) _ with "[Hs Hss]"); [by cbn; rewrite Hss|]. iFrame.
Qed.

(** The layouts are read; the sets are new, or the pool is as it was. *)
Lemma wp_allocate_descriptor_sets pool layouts ns mx mb fr sets P Φ Ψ :
  (forall Φ (Ψ : vk_error -> oprop), P -∗ (P -∗ Φ ns) -∗ wp d (load_set_layouts layouts) Φ Ψ) ->
  P -∗ pool ↦ DescriptorPool mx mb fr sets -∗
  (∀ ss (_ : snd <$> ss = ns), P -∗ pool ↦ DescriptorPool mx mb fr (ss ++ sets) -∗
     ([∗ list] s ∈ ss, s.1 ↦ DescriptorSet (replicate s.2 None)) -∗ Φ (fst <$> ss)) ∧
  (∀ e, P -∗ pool ↦ DescriptorPool mx mb fr sets -∗ Ψ e) -∗
  wp d (allocate_descriptor_sets pool layouts) Φ Ψ.
Proof.
  iIntros (Hl) "HP Hp H". unfold allocate_descriptor_sets. vk_step. iApply (Hl with "HP"). iIntros "HP".
  vk_step. iApply (wp_idle with "Hp"). iIntros "Hp". vk_simpl. case_match.
  2: { vk_step. iDestruct "H" as "[_ H]". iApply ("H" with "HP Hp"). }
  vk_step. iApply wp_ask. iSplit; [|iIntros (e); iDestruct "H" as "[_ H]"; iApply ("H" with "HP Hp")].
  vk_step. iApply wp_alloc_sets. iIntros (ss Hss) "Hss". vk_steps. iDestruct "H" as "[H _]".
  iApply ("H" $! ss Hss with "HP [$] Hss").
Qed.

Lemma wp_one_set what pool sets layout n Φ Ψ :
  layout ↦ SetLayout n -∗ pool ↦ DescriptorPool 4 16 false sets -∗
  (∀ s, layout ↦ SetLayout n -∗ pool ↦ DescriptorPool 4 16 false ((s, n) :: sets) -∗
     s ↦ DescriptorSet (replicate n None) -∗ Φ s) ∧
  (∀ e, layout ↦ SetLayout n -∗ pool ↦ DescriptorPool 4 16 false sets -∗ Ψ e) -∗
  wp d (one_set what pool layout) Φ Ψ.
Proof.
  iIntros "Hl Hp H". unfold one_set, or_failed. do 2 vk_step.
  iApply (wp_allocate_descriptor_sets _ _ [n] _ _ _ _ (layout ↦ SetLayout n)%I with "Hl Hp").
  { intros Φ' Ψ'. iIntros "Hl H". cbn [load_set_layouts]. vk_steps. by iApply "H". }
  iSplit.
  - iIntros (ss Hss) "Hl Hp Hss". destruct ss as [|[s n'] [|]]; cbn in Hss; try done. injection Hss as ->.
    cbn. vk_step. iDestruct "H" as "[H _]". iDestruct "Hss" as "[Hn _]". iApply ("H" with "Hl Hp Hn").
  - iIntros (e) "Hl Hp". iDestruct "H" as "[_ H]". iApply ("H" with "Hl Hp").
Qed.

Lemma wp_write_descriptor {E} set slots b p size us bytes range Φ (Ψ : E -> oprop) :
  (b < length slots)%nat -> StorageBuffer ∈ us -> 0 < range <= size ->
  set ↦ DescriptorSet slots -∗ owns_buf p size us bytes -∗
  (set ↦ DescriptorSet (<[b := Some (p.1, range)]> slots) -∗ owns_buf p size us bytes -∗ Φ tt) -∗
  wp d (write_descriptor set b p.1 range) Φ Ψ.
Proof.
  iIntros (Hb Hu Hr) "Hs (%ms & %fl & Hp & Hm) H". unfold write_descriptor. vk_step.
  iApply (wp_idle with "Hs"). iIntros "Hs". vk_step. iApply wp_load. iFrame "Hp". iIntros "Hp". vk_step.
  iApply wp_assert.
  { rewrite !andb_true_iff !bool_decide_eq_true Z.ltb_lt Z.leb_le. split_and!; [done|done|lia|lia]. }
  vk_step. iApply ("H" with "[$]"). iExists ms, fl. iFrame.
Qed.

Lemma wp_write_descriptor_pair {E} set slots b p size us bytes range Φ (Ψ : E -> oprop) :
  (b < length slots)%nat -> StorageBuffer ∈ us -> 0 < range <= size ->
  set ↦ DescriptorSet slots -∗ owns_pair p size us bytes -∗
  (set ↦ DescriptorSet (<[b := Some (p.1, range)]> slots) -∗ owns_pair p size us bytes -∗ Φ tt) -∗
  wp d (write_descriptor set b p.1 range) Φ Ψ.
Proof.
  iIntros (Hb Hu Hr) "Hs (%ms & %fl & %Hm & Hp & Hm) H". unfold write_descriptor. vk_step.
  iApply (wp_idle with "Hs"). iIntros "Hs". vk_step. iApply wp_load. iFrame "Hp". iIntros "Hp". vk_step.
  iApply wp_assert.
  { rewrite !andb_true_iff !bool_decide_eq_true Z.ltb_lt Z.leb_le. split_and!; [done|done|lia|lia]. }
  vk_step. iApply ("H" with "[$]"). iExists ms, fl. by iFrame.
Qed.

(** Sets with their pool. *)
Lemma wp_drop_sets {E} sets : forall Φ (Ψ : E -> oprop),
  ([∗ list] s ∈ sets, some_set s) -∗ Φ tt -∗ wp d (each drop_descriptor_set (fst <$> sets)) Φ Ψ.
Proof.
  induction sets as [|s sets IH]; intros Φ Ψ; iIntros "Hs H"; cbn [each fmap list_fmap].
  - by vk_step.
  - iDestruct "Hs" as "[[%slots Hs] Hss]". vk_run. iApply (IH with "Hss H").
Qed.

Lemma wp_destroy_descriptor_pool {E} i sets Φ (Ψ : E -> oprop) :
  owns_pool i sets -∗ Φ tt -∗ wp d (destroy_descriptor_pool (ps_desc_pool i)) Φ Ψ.
Proof.
  iIntros "[Hp Hs] H". unfold destroy_descriptor_pool. vk_step. iApply (wp_idle with "Hp"). iIntros "Hp". vk_step.
  iApply (wp_drop_sets with "Hs"). by vk_run.
Qed.

Lemma wp_reset_descriptor_pool i sets Φ Ψ :
  owns_pool i sets -∗ (owns_pool i [] -∗ Φ tt) ∧ (∀ e, owns_pool i sets -∗ Ψ e) -∗
  wp d (reset_descriptor_pool (ps_desc_pool i)) Φ Ψ.
Proof.
  iIntros "[Hp Hs] H". unfold reset_descriptor_pool. vk_step. iApply (wp_idle with "Hp"). iIntros "Hp". vk_step.
  iApply wp_ask. iSplit; [|iIntros (e); iDestruct "H" as "[_ H]"; iApply "H"; iFrame].
  vk_step. iApply (wp_drop_sets with "Hs"). vk_run. iDestruct "H" as "[H _]". iApply "H". iFrame. done.
Qed.

(** ** What the shaders compute *)

(** The lists a shader leaves are as many and as long as those it was given. *)
Lemma shader_shape code push groups bufs i b : bufs !! i = Some b ->
  exists o, d_shader d code push groups bufs !! i = Some o /\ zlen o = zlen b.
Proof.
  intros Hb. pose proof (shader_sizes code push groups bufs) as H.
  apply (f_equal (fun l => l !! i)) in H. rewrite !list_lookup_fmap Hb in H. cbn in H.
  destruct (d_shader d code push groups bufs !! i) as [o|]; [|done]. injection H as H. exists o.
  unfold zlen. by rewrite H.
Qed.

(** The buffer [i] after a dispatch. *)
Definition shaded (code : string) (push : list Z) (groups : Z * Z) (bufs : list (list Z)) (i : nat) : list Z :=
  default [] (d_shader d code push groups bufs !! i).

Lemma shaded_length code push groups bufs i b : bufs !! i = Some b ->
  zlen (shaded code push groups bufs i) = zlen b.
Proof. intros Hb. unfold shaded. destruct (shader_shape code push groups bufs i b Hb) as (o & -> & H). done. Qed.

Lemma shader_list code push groups bufs :
  d_shader d code push groups bufs = shaded code push groups bufs <$> seq 0 (length bufs).
Proof.
  pose proof (shader_sizes code push groups bufs) as H.
  apply (f_equal length) in H. rewrite !length_fmap in H. apply list_eq. intros i.
  rewrite list_lookup_fmap. destruct (decide (i < length bufs)%nat) as [Hi|Hi].
  - rewrite lookup_seq_lt //. cbn. unfold shaded. rewrite -H in Hi.
    by destruct (lookup_lt_is_Some_2 _ _ Hi) as [o ->].
  - rewrite lookup_seq_ge; [|lia]. cbn. apply lookup_ge_None. lia.
Qed.

(** Written over as many bytes or fewer. *)
Lemma overwrite_all px old : zlen old <= zlen px -> overwrite px old = px.
Proof. unfold zlen, overwrite. intros H. rewrite drop_ge; [apply app_nil_r|lia]. Qed.

(** ** Scaling *)

Definition groups_of (dst : Z * Z) : Z * Z := (ceil_div dst.1 16, ceil_div dst.2 16).

(** EASU of the pixels, into a buffer nobody wrote, and RCAS of that in its place. *)
Definition easu (px : list Z) (src dst : Z * Z) : list Z :=
  shaded "easu_upscale" [src.1; src.2; dst.1; dst.2] (groups_of dst) [px; known d (size_of dst) []] 1.

Definition rcas (px : list Z) (dst : Z * Z) : list Z :=
  shaded "rcas" [dst.1; dst.2; f32_to_bits sharpness] (groups_of dst) [px] 0.

Lemma easu_length px src dst : 0 <= size_of dst -> zlen (easu px src dst) = size_of dst.
Proof. intros H. unfold easu. erewrite shaded_length; [|done]. by apply known_length. Qed.

Lemma rcas_length px dst : zlen (rcas px dst) = zlen px.
Proof. unfold rcas. by erewrite shaded_length. Qed.

Definition scaling_commands (i : Passes) (easu_set rcas_set : Z) (src dst : Z * Z) : list vk_cmd :=
  [Dispatch (ps_easu_pipeline i) (ps_easu_pipeline_layout i) easu_set [src.1; src.2; dst.1; dst.2] (groups_of dst);
   MemoryBarrier ComputeShader ComputeShader;
   Dispatch (ps_rcas_pipeline i) (ps_rcas_pipeline_layout i) rcas_set
     [dst.1; dst.2; f32_to_bits sharpness] (groups_of dst)].

Definition owns_scaling (s : Scaling) (src dst : Z * Z) (in_px out_px : list Z) : oprop :=
  (owns_pair (sc_src s) (size_of src) [StorageBuffer] in_px ∗
   owns_pair (sc_dst s) (size_of dst) [StorageBuffer] out_px)%I.

Definition set_of (bufs : list (Z * Z)) : body := DescriptorSet (Some <$> bufs).

Lemma wp_scaling_commands i s src dst px K : sizes_ok d src -> sizes_ok d dst -> zlen px = size_of src ->
  owns_passes i -∗ owns_scaling s src dst px [] -∗
  sc_easu_set s ↦ set_of [((sc_src s).1, size_of src); ((sc_dst s).1, size_of dst)] -∗
  sc_rcas_set s ↦ set_of [((sc_dst s).1, size_of dst)] -∗
  ((∃ px', owns_scaling s src dst px' (rcas (easu px src dst) dst)) -∗ owns_passes i -∗
   some_set (sc_easu_set s, 2%nat) -∗ some_set (sc_rcas_set s, 1%nat) -∗ K) -∗
  wp d (exec_all (E:=vk_error) (scaling_commands i (sc_easu_set s) (sc_rcas_set s) src dst))
    (fun used => wp d (each (E:=vk_error) use used) (fun _ =>
      wp d (each (E:=vk_error) unuse used) (fun _ => K) (fun _ => False)) (fun _ => False)) (fun _ => False).
Proof.
  destruct s as [[sb sm] [db dm] es rs cmd]. unfold owns_scaling, owns_pair, set_of.
  cbn [sc_src sc_dst sc_easu_set sc_rcas_set fst snd fmap list_fmap].
  iIntros (Hs Hd Hpx) "(Hmo & Hwa & (Hep & Hel & Hed) & (Hrp & Hrl & Hrd)) [(%ms1 & %f1 & %H1 & Hsb & Hsm) (%ms2 & %f2 & %H2 & Hdb & Hdm)] Hes Hrs K".
  unfold scaling_commands. unfold exec_all; cbn [exec_from exec loosened]. vk_run. vk_shown.
  rewrite (known_full d _ px) // shader_list. vk_shaded.
  rewrite overwrite_nil. vk_shown.
  pose proof (size_of_pos d dst Hd). rewrite (known_full d _ (easu px src dst)); [|apply easu_length; lia].
  rewrite shader_list. vk_shaded. rewrite (overwrite_all _ (easu px src dst)) ?rcas_length //.
  iApply ("K" with "[Hsb Hsm Hdb Hdm] [$Hmo $Hwa $Hep $Hel $Hed $Hrp $Hrl $Hrd] [Hes] [Hrs]").
  - iExists _. iSplitL "Hsb Hsm"; iExists _, _; iFrame; done.
  - iExists _. iFrame.
  - iExists _. iFrame.
Qed.
(** What is there when the picture has been read. *)
Definition scaling_done (c : Context) (cs : list Z) (i : Passes) (sets : list (Z * nat))
    (s : Scaling) (src dst : Z * Z) : oprop :=
  (∃ px' out cmds, cx_command_pool c ↦ CommandPool (sc_cmd s :: cs) ∗ owns_passes i ∗
     owns_pool i ((sc_rcas_set s, 1%nat) :: (sc_easu_set s, 2%nat) :: sets) ∗
     owns_scaling s src dst px' out ∗ sc_cmd s ↦ CommandBuffer (Executable cmds))%I.

Definition usable (c : Context) (cs : list Z) (i : Passes) (sets : list (Z * nat)) : oprop :=
  (cx_command_pool c ↦ CommandPool cs ∗ owns_passes i ∗ owns_pool i sets)%I.

Lemma wp_host_buffer size us Φ Ψ : 0 < size ->
  (∀ p, owns_pair p size us [] -∗ Φ p) ∧ (∀ e, Ψ e) -∗
  wp d (into (create_buffer size us (Z.lor HOST_VISIBLE HOST_COHERENT))) Φ Ψ.
Proof.
  iIntros (Hs) "H". unfold into. vk_step. iApply wp_create_buffer; [done|]. iSplit; [|by iDestruct "H" as "[_ H]"].
  iIntros (b m ms fl Hm) "Hb Hm". iDestruct "H" as "[H _]". iApply "H". iExists ms, fl. by iFrame.
Qed.

(** An error leaves what is used by the next call, the sets [S] in the pool, and what was
    made until then. *)
Ltac gives_up S := iIntros; iDestruct "H" as "[_ H]"; iApply ("H" $! _ _ S with "[-]");
  unfold usable, owns_passes, owns_pass, owns_pool, some_set; cbn [big_opL]; iFrame; done.

Lemma wp_upscale_compute c cs i sets src dw dh Φ Ψ
    (swh := (gf_width src, gf_height src)) (dst := (dw, dh)) : frame_ok d src dst ->
  usable c cs i sets -∗
  (∀ s, scaling_done c cs i sets s swh dst -∗ Φ (rcas (easu (gf_data src) swh dst) dst, s)) ∧
  (∀ e cs' sets', usable c cs' i sets' ∗ True -∗ Ψ e) -∗
  wp d (upscale_compute c i src dw dh) Φ Ψ.
Proof.
  iIntros ((Hl & Hs & Hd)) "(Hc & Hi & Hp) H". unfold upscale_compute. fold swh dst in Hl, Hs, Hd |- *.
  pose proof (size_of_pos d _ Hs). pose proof (size_of_pos d _ Hd). rewrite !(rgba_bytes_ok d) //. vk_simpl.
  vk_step. iApply wp_host_buffer; [done|]. iSplit; [|gives_up sets]. iIntros (sb) "Hsb". vk_step.
  iApply (wp_upload_pair with "Hsb"); [lia|]. iSplit; [|gives_up sets]. iIntros "Hsb". rewrite overwrite_nil. vk_step.
  iApply wp_host_buffer; [done|]. iSplit; [|gives_up sets]. iIntros (db) "Hdb". vk_step.
  iDestruct "Hi" as "(Hmo & Hwa & (Hep & Hel & Hed) & (Hrp & Hrl & Hrd))". iDestruct "Hp" as "[Hp Hsets]".
  iApply (wp_one_set with "Hed Hp"). iSplit; [|gives_up sets]. iIntros (es) "Hed Hp Hes". vk_step.
  iApply (wp_write_descriptor_pair with "Hes Hsb"); [cbn; lia|by left|lia|]. iIntros "Hes Hsb". vk_step.
  iApply (wp_write_descriptor_pair with "Hes Hdb"); [cbn; lia|by left|lia|]. iIntros "Hes Hdb". vk_step.
  set (sets1 := (es, 2%nat) :: sets).
  iApply (wp_command_buffer with "Hc"). iSplit; [|gives_up sets1]. iIntros (cmd) "Hc Hcmd". unfold or_failed. do 2 vk_step.
  iApply (wp_begin_command_buffer with "Hcmd"); [done|]. iSplit; [|gives_up sets1]. iIntros "Hcmd".
  unfold record_dispatch. vk_run. iApply (wp_one_set with "Hrd Hp"). iSplit; [|gives_up sets1].
  iIntros (rs) "Hrd Hp Hrs". vk_step.
  iApply (wp_write_descriptor_pair with "Hrs Hdb"); [cbn; lia|by left|lia|]. iIntros "Hrs Hdb". vk_run.
  set (sets2 := (rs, 1%nat) :: sets1).
  iApply (wp_end_command_buffer with "Hcmd"). iSplit; [|gives_up sets2]. iIntros "Hcmd". unfold into. vk_steps.
  iApply (wp_submit_and_wait with "Hcmd"). iSplit; [|gives_up sets2].
  iApply (wp_scaling_commands i (mkScaling sb db es rs cmd) swh dst (gf_data src)
    with "[$Hmo $Hwa $Hep $Hel $Hed $Hrp $Hrl $Hrd] [$Hsb $Hdb] Hes Hrs"); [done|done|done|].
  iIntros "[%px' Hs] Hi Hes Hrs Hcmd". iSplit; [|gives_up sets2].
  iDestruct "Hs" as "[Hsb Hdb]". vk_step.
  iApply (wp_read_pair with "Hdb"); [lia|]. iSplit; [|gives_up sets2]. iIntros "Hdb". vk_step.
  rewrite (known_full d); [|by rewrite rcas_length easu_length; [|lia]].
  iDestruct "H" as "[H _]". iApply ("H" $! (mkScaling sb db es rs cmd)). iExists px', _, _.
  unfold owns_pool, owns_scaling. cbn [big_opL]. iFrame.
Qed.

Lemma wp_free_buffers {E} s swh dst px out Φ (Ψ : E -> oprop) :
  owns_scaling s swh dst px out -∗ Φ tt -∗ wp d (destroy_pair (sc_src s);; destroy_pair (sc_dst s)) Φ Ψ.
Proof.
  iIntros "[H1 H2] H". vk_step. iApply (wp_destroy_pair with "[H1]"); [by iExists px|].
  iApply (wp_destroy_pair with "[H2]"); [by iExists out|done].
Qed.

(** ** The end *)

Lemma wp_fsr2_drop {E} i sets Φ (Ψ : E -> oprop) :
  owns_passes i -∗ owns_pool i sets -∗ Φ tt -∗ wp d (fsr2_drop i None) Φ Ψ.
Proof.
  iIntros "((?&?&?) & (?&?&?) & (?&?&?) & (?&?&?)) Hp H". unfold fsr2_drop. do 3 vk_step.
  iApply (wp_destroy_descriptor_pool with "Hp"). vk_run. done.
Qed.
End Passes.
