(* ===== verification/Fsr2Life.v ===== *)
(** Lives of the compute-shader upscaler: making it, frames with the library and without,
    and its end. *)

From stdpp Require Import gmap strings.
From iris.proofmode Require Import proofmode.
From S2P Require Import Prelude Vulkan VulkanLogic VulkanContext VulkanSafety VulkanRuns Interpolate Fsr2Native Fsr2Safety Fsr2Runs Fsr2 Fsr2Logic.

#[local] Open Scope Z_scope.

(** ** Without the library *)

Section Fallback.
Context (d : driver) `{!DriverLaws d, !WaitsEnd d, !InOrder d}.

(** A pool that was made without saying so does not let sets be freed. *)
Lemma free_sets_invalid {E} pool mx mb have sets root n (objs : objects) :
  objs !! pool = Some (O, DescriptorPool mx mb false have) ->
  free_descriptor_sets (E:=E) pool sets d (mkGpu root n objs) = None.
Proof.
  intros Hp. unfold free_descriptor_sets, idle, load, assert_valid. cbv [mbind vk_bind mret vk_ret]. cbn [g_objs].
  rewrite Hp. by rewrite bool_decide_true.
Qed.

Lemma cleanup_invalid {E} c cs i sets s swh dst root n objs rest :
  holds (scaling_done c cs i sets s swh dst) objs -> objs ##ₘ rest ->
  upscale_cleanup (E:=E) c i s d (mkGpu root n (objs ∪ rest)) = None.
Proof.
  intros Hd Hr.
  destruct (wp_run d (destroy_pair (E:=E) (sc_src s);; destroy_pair (sc_dst s)) (scaling_done c cs i sets s swh dst)
    (fun _ => ∃ have, ps_desc_pool i ↦ DescriptorPool 4 16 false have ∗ True)%I (fun _ => False)%I
    objs root n rest) as (n' & σ' & r & E1 & Hr' & Hpost); [|done|done|].
  - iIntros "(%px & %out & %cmds & Hc & Hi & [Hp Hs] & Hsc & Hcmd)".
    iApply (wp_free_buffers with "Hsc"). iExists _. by iFrame.
  - destruct r as [[]|]; [|done]. destruct Hpost as (have & σ1 & σ2 & -> & Hdis & Hp & _). cbn in Hp. subst σ1.
    unfold upscale_cleanup. cbv [mbind vk_bind] in E1 |- *.
    destruct (destroy_pair (sc_src s) d _) as [[g1 [[]|]]|]; [|done|done]. rewrite E1.
    rewrite (free_sets_invalid _ 4 16 have) //.
    rewrite -map_union_assoc lookup_union_l'; by rewrite lookup_singleton_eq.
Qed.
End Fallback.

(** Without the library, on any driver and whatever fails: everything [upscale] does
    until it has read the picture is valid, and the picture is what RCAS makes of what
    EASU makes of the pixels; then it frees two descriptor sets of a pool that does not
    let sets be freed, which is not valid.  So it fails, or the program is undefined; it
    never gives a frame. *)
Theorem fallback_gives_no_frame (d : driver) (Hd : DriverLaws d) (Hwt : WaitsEnd d) (Hio : InOrder d) c cs i sets src dw dh root n objs :
  frame_ok d src (dw, dh) -> holds (usable c cs i sets) objs ->
  exists g out, upscale_compute c i src dw dh d (mkGpu root n objs) = Some (g, out) /\
  match out with
  | inl (px, s) =>
      px = rcas d (easu d (gf_data src) (gf_width src, gf_height src) (dw, dh)) (dw, dh) /\
      upscale_fallback c i src dw dh d (mkGpu root n objs) = None
  | inr e => upscale_fallback c i src dw dh d (mkGpu root n objs) = Some (g, inr e)
  end.
Proof.
  intros Hf Hu.
  destruct (wp_run d (upscale_compute c i src dw dh) (usable c cs i sets)
    (fun r => ∃ (_ : r.1 = rcas d (easu d (gf_data src) (gf_width src, gf_height src) (dw, dh)) (dw, dh)),
       scaling_done c cs i sets r.2 (gf_width src, gf_height src) (dw, dh))%I (fun _ => True)%I
    objs root n ∅) as (n' & σ' & r & E & Hr & Hpost); [|done|apply map_disjoint_empty_r|].
  - iIntros "H". iApply (wp_upscale_compute with "H"); [done|]. iSplit.
    + iIntros (s) "Hs". by iExists eq_refl.
    + iIntros (e cs' sets') "_". done.
  - rewrite map_union_empty in E. eexists _, r. split; [exact E|].
    unfold upscale_fallback. cbv [mbind vk_bind]. rewrite E. destruct r as [[px s]|e]; [|done].
    destruct Hpost as [Epx Hs]. cbn [fst snd] in Epx, Hs. subst px. split; [done|]. by rewrite (cleanup_invalid d c cs i sets _ _ _ _ _ _ _ Hs Hr).
Qed.

(** ** With the library *)

(** The states are those of the library's upscaler. *)
Lemma fsr2_run_native d c i js : forall cache g,
  fsr2_run c i (mkFsr2State None (Some cache)) js d g =
  ('(cache, outs) ← native_run c cache js; mret (mkFsr2State None (Some cache), outs)) d g.
Proof.
  induction js as [|[src dst] js IH]; intros cache g; [done|].
  cbn [fsr2_run native_run]. unfold fsr2_upscale. cbn [fs_native fs_cached]. cbv [mbind vk_bind].
  destruct (native_upscale c cache src dst.1 dst.2 d g) as [[g1 [[cache1 out]|[]]]|]; [|done].
  unfold mret, vk_ret in *. cbv [mbind vk_bind] in IH. rewrite IH. unfold mret, vk_ret.
  destruct (native_run c cache1 js d g1) as [[g2 [[cache2 outs]|[]]]|]; [|done].
  by destruct cache1.
Qed.

(** A context with its passes made, or the error of making them. *)
Definition setup : vk InterpolateError (Context * (Passes + InterpolateError)) :=
  c ← into (new []);
  i ← attempt (build_passes 8 8);
  mret (c, i).

Section Life.
Context (d : driver) `{!DriverLaws d, !WaitsEnd d, !InOrder d}.

(** The context and the passes. *)
Definition made (c : Context) (i : Passes) : oprop := usable c [] i [].

Lemma setup_run n :
  exists g r, setup d (mkGpu NoInstance n ∅) = Some (g, r) /\
  match r with
  | inl (c, inl i) => g_root g = InstanceAndDevice /\ ps_block_size i = 8 /\ holds (made c i) (g_objs g) /\
      with_params 8 8 d (mkGpu NoInstance n ∅) =
        (native ← native_or_none; mret (c, i, mkFsr2State None native)) d g
  | inl (c, inr e) => g_root g = InstanceAndDevice /\ with_params 8 8 d (mkGpu NoInstance n ∅) = (drop_context c;; throw e) d g
  | inr e => g_objs g = ∅ /\ with_params 8 8 d (mkGpu NoInstance n ∅) = Some (g, inr e)
  end.
Proof.
  destruct (with_request_run d compute_only [] n) as (g & res & E & Hres).
  unfold setup, with_params, into, map_err, or_else. cbv [mbind vk_bind]. unfold new. rewrite E.
  destruct res as [c|e]; [|by eexists g, (inr _); split; [|split; [apply Hres|]]].
  destruct g as [root n1 objs]. destruct Hres as (_ & Hr & Ho). cbn in Hr, Ho. subst root objs.
  destruct (wp_run d (build_passes 8 8) emp%I (fun i => ∃ (_ : ps_block_size i = 8), owns_passes i ∗ owns_pool i [])%I (fun _ => True)%I
    ∅ InstanceAndDevice n1 {[cx_command_pool c := (O, CommandPool [])]}) as (n2 & σ & r & E2 & Hd & Hpost).
  - iIntros "_". iApply wp_build_passes. iSplit; [|by iIntros]. iIntros (i [Hi _]) "H1 H2". iExists Hi. iFrame.
  - done.
  - apply map_disjoint_empty_l.
  - rewrite map_empty_union in E2. unfold attempt, or_else. cbv [mbind vk_bind]. rewrite E2. destruct r as [i|e].
    + destruct Hpost as [Hbs Hpost]. eexists _, (inl (c, inl i)). split; [reflexivity|]. split; [done|]. split; [done|]. cbn [g_objs].
      split; [|done].
      rewrite map_union_comm //. eexists _, _. split_and!; [done|by apply map_disjoint_sym|done|done].
    + eexists _, (inl (c, inr e)). split; [reflexivity|]. split; [done|].
      by destruct (drop_context c d _) as [[? [[]|]]|].
Qed.

Lemma native_or_none_run root n objs :
  exists n' native, native_or_none d (mkGpu root n objs) = Some (mkGpu root n' objs, inl native) /\
    (native = None \/ native = Some None).
Proof.
  unfold native_or_none, with_context, fsr_interface, ask, map_err, or_else, driver_says, throw.
  cbv [mbind vk_bind mret vk_ret]. cbn [g_clock g_root g_objs].
  destruct (d_error d n); cbv beta iota; eexists _, _; (split; [reflexivity|]); auto.
Qed.

Lemma fsr2_end_run c i cache n objs :
  holds (cached c [] cache ∗ owns_passes i ∗ owns_pool i [])%I objs ->
  exists n', fsr2_end (E:=InterpolateError) c i (mkFsr2State None (Some cache)) d (mkGpu InstanceAndDevice n objs) =
    Some (mkGpu NoInstance n' ∅, inl tt).
Proof.
  intros Hc. unfold fsr2_end. cbn [fs_cached fs_native].
  destruct (wp_run d (fsr2_drop (E:=InterpolateError) i None;; native_drop c cache)
    (cached c [] cache ∗ owns_passes i ∗ owns_pool i [])%I
    (fun _ => cx_command_pool c ↦ CommandPool [])%I (fun _ => False)%I objs InstanceAndDevice n ∅) as (n' & σ' & r & E & _ & Hr).
  - iIntros "(Hc & Hi & Hp)". vk_step. iApply (wp_fsr2_drop with "Hi Hp"). vk_steps.
    destruct cache as [r|]; cbn [native_drop cached]; [iDestruct "Hc" as "[Hp Hr]"|by vk_step].
    iApply (wp_destroy_resources with "Hp Hr"). by iIntros.
  - done.
  - apply map_disjoint_empty_r.
  - rewrite !map_union_empty in E. destruct r as [[]|e]; [|done]. cbv [mbind vk_bind] in E |- *.
    destruct (fsr2_drop i None d _) as [[g1 [[]|]]|]; [|done|done]. rewrite E.
    cbn in Hr. subst σ'. exists n'. apply drop_context_run.
Qed.
End Life.


(** ** On a device *)

#[local] Notation demo := (demo_driver (fun _ => None)).

(** The library is there, the pixels or the errors of the frames, and whether the end is
    valid. *)
Definition demo_fsr2 (fails : list nat) (js : list (GpuFrame * (Z * Z)))
    : option (bool * option (list (list Z + InterpolateError) * bool)) :=
  let d := demo_driver (fun n => if decide (n ∈ fails) then Some Vulkan.DeviceLost else None) in
  match with_params 8 8 d (mkGpu NoInstance 0 ∅) with
  | Some (g, inl (c, i, st)) =>
      Some (match fs_native st with Some _ => true | None => false end,
        match fsr2_run c i st js d g with
        | Some (g, inl (st, outs)) =>
            Some ((fun o : bool * (GpuFrame + InterpolateError) =>
              match o.2 with inl f => inl (gf_data f) | inr e => inr e end) <$> outs,
              match fsr2_end (E:=InterpolateError) c i st d g with Some (g, _) => bool_decide (g_root g = NoInstance) | None => false end)
        | _ => None
        end)
  | _ => None
  end.


(** Once a first shader module is made, an error of making the rest ends the program
    undefined: the context ends with the modules and layouts alive. *)
Example failed_setup_invalid :
  with_params 8 8 (demo_driver (fun n => if (n =? 8)%nat then Some Vulkan.DeviceLost else None)) (mkGpu NoInstance 0 ∅) = None.
Proof. by vm_compute. Qed.

(** Without the library a frame that is upscaled is the end. *)
Example no_library_invalid : demo_fsr2 [24%nat] demo_frames = Some (false, None).
Proof. by vm_compute. Qed.

(** A frame that fails leaves its two sets in the pool, which has room for four: after two
    such frames none can be upscaled, whatever the device answers. *)
Example failed_frames_exhaust_pool :
  demo_fsr2 [24; 48; 72]%nat (demo_frames ++ demo_frames) =
    Some (false, Some ([inr (InterpolateFailed "allocation"); inr (InterpolateFailed "allocation");
      inr (InterpolateFailed "EASU desc set"); inr (InterpolateFailed "EASU desc set")], false)).
Proof. by vm_compute. Qed.

(** A context with its passes, for the witness. *)
Definition demo_setup : option (gpu * (Context * Passes)) :=
  match setup demo (mkGpu NoInstance 0 ∅) with
  | Some (g, inl (c, inl i)) => Some (g, (c, i))
  | _ => None
  end.

Lemma demo_setup_made : exists g c i, demo_setup = Some (g, (c, i)) /\ ps_block_size i = 8 /\ holds (usable c [] i []) (g_objs g).
Proof.
  destruct (setup_run demo 0) as (g & r & E & Hr). assert (Hs : (if demo_setup then true else false) = true) by (vm_compute; reflexivity).
  unfold demo_setup in *. rewrite E in Hs |- *. destruct r as [[c [i|e]]|e]; [|done|done].
  exists g, c, i. split; [done|]. destruct Hr as (_ & Hbs & Hm & _). split; [exact Hbs|exact Hm].
Qed.

Lemma fallback_gives_no_frame_witness :
  exists g c i, demo_setup = Some (g, (c, i)) /\
  exists g' out, upscale_compute c i (demo_frame [9; 8; 7; 255]) 2 1 demo (mkGpu (g_root g) 0 (g_objs g)) = Some (g', out) /\
  match out with
  | inl (px, s) =>
      px = rcas demo (easu demo [9; 8; 7; 255] (1, 1) (2, 1)) (2, 1) /\
      upscale_fallback c i (demo_frame [9; 8; 7; 255]) 2 1 demo (mkGpu (g_root g) 0 (g_objs g)) = None
  | inr e => upscale_fallback c i (demo_frame [9; 8; 7; 255]) 2 1 demo (mkGpu (g_root g) 0 (g_objs g)) = Some (g', inr e)
  end.
Proof.
  destruct demo_setup_made as (g & c & i & E & _ & H). exists g, c, i. split; [exact E|].
  apply (fallback_gives_no_frame demo (demo_laws _) (demo_waits _) (demo_in_order _) c [] i [] (demo_frame [9; 8; 7; 255]) 2 1 (g_root g) 0 (g_objs g)); [|exact H].
  repeat constructor; vm_compute; congruence.
Defined.

(** The picture of the demonstration's shaders. *)
Example demo_fallback_picture :
  rcas demo (easu demo [9; 8; 7; 255] (1, 1) (2, 1)) (2, 1) = replicate 8 9.
Proof. by vm_compute. Qed.
