(* ===== verification/Fsr2Motion.v ===== *)
(** Motion-compensated interpolation by the compute shaders ([Fsr2Interpolator::run] and
    [ensure_resources]), in the logic of VulkanLogic.v: the buffers and sets made, kept
    and renewed, and the frame that is read back. *)

From stdpp Require Import gmap strings.
From iris.proofmode Require Import proofmode.
From S2P Require Import Prelude Floats Casts Vulkan VulkanLogic VulkanContext VulkanSafety VulkanRuns Interpolate Fsr2Native Fsr2Safety Fsr2Runs Fsr2 Fsr2Logic.

#[local] Open Scope Z_scope.

(** ** What is owned *)

Definition storage_usage : list image_usage := [StorageBuffer; TransferDst].
Definition output_usage : list image_usage := [StorageBuffer; TransferSrc].
Definition staging_usage : list image_usage := [TransferSrc; TransferDst].

Definition motion_bytes (bs : Z) (wh : Z * Z) : Z := ceil_div wh.1 bs * ceil_div wh.2 bs * 8.

Definition size_of_frames (r : Fsr2Resources) : Z := size_of (re_width r, re_height r).

(** The buffers with what is in the staging buffers, the two sets with their descriptors
    and the command buffer. *)
Definition frame_buffers (bs : Z) (r : Fsr2Resources) (a b : list Z) : oprop :=
  let size := size_of_frames r in
  let msize := motion_bytes bs (re_width r, re_height r) in
  (some_buf (re_frame_a r) size storage_usage ∗ some_buf (re_frame_b r) size storage_usage ∗
   some_buf (re_motion r) msize [StorageBuffer] ∗ some_buf (re_output r) size output_usage ∗
   owns_pair (re_staging_a r) size staging_usage a ∗ owns_pair (re_staging_b r) size staging_usage b ∗
   some_pair (re_readback r) size staging_usage)%I.

Definition frame_sets (bs : Z) (r : Fsr2Resources) : oprop :=
  let size := size_of_frames r in
  let msize := motion_bytes bs (re_width r, re_height r) in
  let bufs := [((re_frame_a r).1, size); ((re_frame_b r).1, size); ((re_motion r).1, msize)] in
  (re_motion_desc_set r ↦ set_of bufs ∗ re_warp_desc_set r ↦ set_of (bufs ++ [((re_output r).1, size)]))%I.

Definition resource_sets (r : Fsr2Resources) : list (Z * nat) := [(re_motion_desc_set r, 3%nat); (re_warp_desc_set r, 4%nat)].

Section Motion.
Context (d : driver) `{!DriverLaws d, !WaitsEnd d, !InOrder d}.

(** Sides that are fine, and block vectors whose size does not wrap. *)
Definition motion_ok (bs : Z) (wh : Z * Z) : Prop :=
  0 < bs /\ sizes_ok d wh /\ motion_bytes bs wh < 2 ^ 32.

Lemma ceil_div_pos a b : 0 < a -> 0 < b -> 0 < ceil_div a b.
Proof. intros Ha Hb. unfold ceil_div. apply Z.div_str_pos. lia. Qed.

Lemma motion_bytes_ok bs wh : motion_ok bs wh ->
  0 < motion_bytes bs wh /\ wrap 32 (ceil_div wh.1 bs * ceil_div wh.2 bs * 8) = motion_bytes bs wh.
Proof.
  intros (Hb & (Hw & Hh & _) & Hm). pose proof (ceil_div_pos wh.1 bs) as H1. pose proof (ceil_div_pos wh.2 bs) as H2.
  assert (0 < motion_bytes bs wh) by (unfold motion_bytes; nia). split; [done|]. apply wrap_small. split; [unfold motion_bytes in *; lia|done].
Qed.

Lemma wp_div_ceil {E} a b Φ (Ψ : E -> oprop) : 0 < b -> Φ (ceil_div a b) -∗ wp d (div_ceil a b) Φ Ψ.
Proof. iIntros (Hb) "H". unfold div_ceil. vk_step. iApply wp_assert; [by apply Z.ltb_lt|]. by vk_step. Qed.

Lemma wp_try_create size us Φ Ψ : 0 < size ->
  (∀ p, owns_buf p size us [] -∗ Φ p) ∧ (∀ e, Ψ e) -∗ wp d (try_create size us) Φ Ψ.
Proof.
  iIntros (Hs) "H". unfold try_create, into. do 2 vk_step. iApply wp_create_buffer; [done|]. iSplit.
  - iIntros (b m ms fl Hm) "Hb Hm". iDestruct "H" as "[H _]". iApply "H". iExists ms, fl. iFrame.
  - iApply wp_create_buffer; [done|]. iSplit; [|by iDestruct "H" as "[_ H]"].
    iIntros (b m ms fl Hm) "Hb Hm". iDestruct "H" as "[H _]". iApply "H". iExists ms, fl. iFrame.
Qed.

(** ** Making and destroying *)

Lemma wp_destroy_buffers {E} bs r a b Φ (Ψ : E -> oprop) :
  frame_buffers bs r a b -∗ Φ tt -∗ wp d (destroy_buffers r) Φ Ψ.
Proof.
  iIntros "(H1 & H2 & H3 & H4 & H5 & H6 & H7) H". unfold destroy_buffers.
  vk_step. iApply (wp_destroy_buf with "H1"). vk_step. iApply (wp_destroy_buf with "H2").
  vk_step. iApply (wp_destroy_buf with "H3"). vk_step. iApply (wp_destroy_buf with "H4").
  vk_step. iApply (wp_destroy_pair with "[H5]"); [by iExists a|].
  vk_step. iApply (wp_destroy_pair with "[H6]"); [by iExists b|]. by iApply (wp_destroy_pair with "H7").
Qed.

(** Two sets at once, of the layouts of the first two passes. *)
Lemma wp_two_sets what i sets Φ Ψ :
  owns_passes i -∗ ps_desc_pool i ↦ DescriptorPool 4 16 false sets -∗
  (∀ m w, owns_passes i -∗ ps_desc_pool i ↦ DescriptorPool 4 16 false ((m, 3%nat) :: (w, 4%nat) :: sets) -∗
     m ↦ DescriptorSet (replicate 3 None) -∗ w ↦ DescriptorSet (replicate 4 None) -∗ Φ [m; w]) ∧
  (∀ e, owns_passes i -∗ ps_desc_pool i ↦ DescriptorPool 4 16 false sets -∗ Ψ e) -∗
  wp d (or_failed what (allocate_descriptor_sets (ps_desc_pool i) [ps_motion_desc_layout i; ps_warp_desc_layout i])) Φ Ψ.
Proof.
  iIntros "Hi Hp H". unfold or_failed. vk_step.
  iApply (wp_allocate_descriptor_sets d _ _ [3; 4]%nat _ _ _ _ (owns_passes i)%I with "Hi Hp").
  { intros Φ' Ψ'. iIntros "((?&?&?) & (?&?&?) & H3 & H4) H". cbn [load_set_layouts]. vk_steps. iApply "H". iFrame. }
  iSplit.
  - iIntros (ss Hss) "Hi Hp Hss". destruct ss as [|[m n1] [|[w n2] [|]]]; cbn in Hss; try done. injection Hss as -> ->.
    iDestruct "H" as "[H _]". iDestruct "Hss" as "(Hm & Hw & _)". iApply ("H" with "Hi Hp Hm Hw").
  - iIntros (e) "Hi Hp". iDestruct "H" as "[_ H]". iApply ("H" with "Hi Hp").
Qed.
Lemma wp_write_sets {E} m w fa fb mo out size msize us1 us2 us3 x1 x2 x3 x4 Φ (Ψ : E -> oprop) :
  0 < size -> 0 < msize -> StorageBuffer ∈ us1 -> StorageBuffer ∈ us2 -> StorageBuffer ∈ us3 ->
  m ↦ DescriptorSet (replicate 3 None) -∗ w ↦ DescriptorSet (replicate 4 None) -∗
  owns_buf fa size us1 x1 -∗ owns_buf fb size us1 x2 -∗ owns_buf mo msize us2 x3 -∗ owns_buf out size us3 x4 -∗
  (m ↦ set_of [(fa.1, size); (fb.1, size); (mo.1, msize)] -∗
   w ↦ set_of [(fa.1, size); (fb.1, size); (mo.1, msize); (out.1, size)] -∗
   owns_buf fa size us1 x1 -∗ owns_buf fb size us1 x2 -∗ owns_buf mo msize us2 x3 -∗ owns_buf out size us3 x4 -∗ Φ tt) -∗
  wp d (write_sets m w fa.1 fb.1 mo.1 out.1 size msize) Φ Ψ.
Proof.
  iIntros (Hs Hms U1 U2 U3) "Hm Hw Ha Hb Hv Ho H". unfold write_sets.
  vk_step. iApply (wp_write_descriptor with "Hm Ha"); [cbn; lia|done|lia|]. iIntros "Hm Ha".
  vk_step. iApply (wp_write_descriptor with "Hm Hb"); [cbn; lia|done|lia|]. iIntros "Hm Hb".
  vk_step. iApply (wp_write_descriptor with "Hm Hv"); [cbn; lia|done|lia|]. iIntros "Hm Hv".
  vk_step. iApply (wp_write_descriptor with "Hw Ha"); [cbn; lia|done|lia|]. iIntros "Hw Ha".
  vk_step. iApply (wp_write_descriptor with "Hw Hb"); [cbn; lia|done|lia|]. iIntros "Hw Hb".
  vk_step. iApply (wp_write_descriptor with "Hw Hv"); [cbn; lia|done|lia|]. iIntros "Hw Hv".
  iApply (wp_write_descriptor with "Hw Ho"); [cbn; lia|done|lia|]. iIntros "Hw Ho".
  iApply ("H" with "Hm Hw Ha Hb Hv Ho").
Qed.

(** The command buffers of the pool that are not used any more. *)
Definition stale (c : Z) : oprop := (∃ st, ⌜not_pending st = true⌝ ∧ c ↦ CommandBuffer st)%I.

(** The interpolator between two frames. *)
Definition motion_cache (c : Context) (i : Passes) (cache : option Fsr2Resources) : oprop :=
  (∃ cs sets, ([∗ list] x ∈ cs, stale x) ∗ owns_passes i ∗ ([∗ list] s ∈ sets, some_set s) ∗
   match cache with
   | None => cx_command_pool c ↦ CommandPool cs ∗ ps_desc_pool i ↦ DescriptorPool 4 16 false sets
   | Some r => cx_command_pool c ↦ CommandPool (re_cmd r :: cs) ∗
       ps_desc_pool i ↦ DescriptorPool 4 16 false (resource_sets r ++ sets) ∗
       frame_sets (ps_block_size i) r ∗ stale (re_cmd r) ∗ ∃ a b, frame_buffers (ps_block_size i) r a b
   end)%I.

Ltac empty cs sets := iIntros; iDestruct "H" as "[_ H]"; iApply "H"; iSplitL "Hcs Hi Hsets Hc Hp"; [|done];
  iExists cs, sets; iFrame.

Lemma wp_make_buffers c i w h Φ Ψ : motion_ok (ps_block_size i) (w, h) ->
  motion_cache c i None -∗
  (∀ r (_ : re_width r = w /\ re_height r = h), motion_cache c i (Some r) -∗ Φ r) ∧
  (∀ e, motion_cache c i None ∗ True -∗ Ψ e) -∗
  wp d (make_buffers c i w h) Φ Ψ.
Proof.
  iIntros (Hok) "(%cs & %sets & Hcs & Hi & Hsets & Hc & Hp) H". pose proof (motion_bytes_ok _ _ Hok) as [Hm0 Hm].
  pose proof Hok as (Hb & Hs & _). pose proof (size_of_pos d _ Hs) as Hs0. unfold make_buffers.
  rewrite (rgba_bytes_ok d) //. cbn [fst snd] in Hm.
  vk_step. iApply wp_div_ceil; [done|]. vk_step. iApply wp_div_ceil; [done|]. vk_simpl. rewrite Hm.
  vk_step. iApply wp_try_create; [done|]. iSplit; [|empty cs sets]. iIntros (fa) "Hfa".
  vk_step. iApply wp_try_create; [done|]. iSplit; [|empty cs sets]. iIntros (fb) "Hfb".
  vk_step. iApply wp_try_create; [done|]. iSplit; [|empty cs sets]. iIntros (mo) "Hmo".
  vk_step. iApply wp_try_create; [done|]. iSplit; [|empty cs sets]. iIntros (out) "Hout".
  vk_step. iApply wp_host_buffer; [done|]. iSplit; [|empty cs sets]. iIntros (sa) "Hsa".
  vk_step. iApply wp_host_buffer; [done|]. iSplit; [|empty cs sets]. iIntros (sb) "Hsb".
  vk_step. iApply wp_host_buffer; [done|]. iSplit; [|empty cs sets]. iIntros (rb) "Hrb".
  vk_step. iApply (wp_two_sets with "Hi Hp"). iSplit; [|iIntros (e) "Hi Hp"; empty cs sets]. iIntros (ms ws) "Hi Hp Hms Hws". vk_step.
  iApply (wp_write_sets with "Hms Hws Hfa Hfb Hmo Hout"); [done|done|by left|by left|by left|].
  iIntros "Hms Hws Hfa Hfb Hmo Hout". vk_step.
  iApply (wp_command_buffer with "Hc"). iSplit.
  2: { iIntros (e) "Hc". iDestruct "H" as "[_ H]". iApply "H". iSplitR "Hfa Hfb Hmo Hout Hsa Hsb Hrb"; [|done].
       iExists cs, ((ms, 3%nat) :: (ws, 4%nat) :: sets). unfold some_set. cbn [big_opL]. iFrame. }
  iIntros (cmd) "Hc Hcmd". vk_step. iDestruct "H" as "[H _]".
  iApply ("H" $! (mkFsr2Resources w h fa fb mo out sa sb rb ms ws cmd) (conj eq_refl eq_refl)).
  iExists cs, sets. unfold frame_sets, resource_sets. cbn. iFrame "Hcs Hi Hsets Hc Hp Hms Hws".
  iSplitL "Hcmd"; [iExists Initial; by iSplit|]. iExists [], [].
  unfold frame_buffers. iFrame "Hsa Hsb". iSplitL "Hfa"; [by iExists []|]. iSplitL "Hfb"; [by iExists []|].
  iSplitL "Hmo"; [by iExists []|]. iSplitL "Hout"; [by iExists []|]. by iExists [].
Qed.

(** Resources that do not fit are destroyed, their sets with them; their command buffer
    stays in its pool. *)
Lemma wp_ensure_resources c i cache w h Φ Ψ : motion_ok (ps_block_size i) (w, h) ->
  motion_cache c i cache -∗
  (∀ r (_ : re_width r = w /\ re_height r = h), motion_cache c i (Some r) -∗ Φ (Some r, inl tt)) ∧
  (∀ e, motion_cache c i None ∗ True -∗ Φ (None, inr e)) -∗
  wp d (ensure_resources c i cache w h) Φ Ψ.
Proof.
  iIntros (Hok) "Hc H". unfold ensure_resources. vk_simpl.
  iAssert (motion_cache c i None -∗
    (∀ r (_ : re_width r = w /\ re_height r = h), motion_cache c i (Some r) -∗ Φ (Some r, inl tt)) ∧
    (∀ e, motion_cache c i None ∗ True -∗ Φ (None, inr e)) -∗
    wp d (made ← attempt (make_buffers c i w h);
          match made with inl r => mret (Some r, inl tt) | inr e => mret (None, inr e) end) Φ Ψ)%I as "Hmake".
  { iIntros "Hc H". vk_step. iApply wp_attempted. iApply (wp_make_buffers with "Hc"); [done|]. iSplit.
    - iIntros (r Hr) "Hc". vk_steps. iDestruct "H" as "[H _]". by iApply ("H" $! r Hr).
    - iIntros (e) "Hc". vk_steps. iDestruct "H" as "[_ H]". by iApply "H". }
  destruct cache as [r|]; [|by iApply ("Hmake" with "Hc H")].
  destruct (_ && _) eqn:Efit.
  { apply andb_true_iff in Efit as [E1%Z.eqb_eq E2%Z.eqb_eq]. vk_step. iDestruct "H" as "[H _]".
    by iApply ("H" $! r (conj E1 E2)). }
  iDestruct "Hc" as "(%cs & %sets & Hcs & Hi & Hsets & Hp & Hpool & [Hms Hws] & Hcmd & %a & %b & Hb)".
  vk_step. iApply (wp_destroy_buffers with "Hb"). vk_step. iApply wp_attempted. unfold or_failed. vk_step.
  iApply (wp_reset_descriptor_pool d i (resource_sets r ++ sets) with "[Hpool Hms Hws Hsets]").
  { unfold owns_pool, resource_sets, some_set. cbn. iFrame. }
  iSplit.
  - iIntros "[Hpool _]". vk_simpl. iApply ("Hmake" with "[Hcs Hi Hp Hpool Hcmd] H").
    iExists (re_cmd r :: cs), []. cbn. iFrame.
  - iIntros (e) "[Hpool Hsets]". vk_steps. iDestruct "H" as "[_ H]". iApply "H". iSplitL; [|done].
    iExists (re_cmd r :: cs), (resource_sets r ++ sets). cbn. iFrame.
Qed.
(** ** Two frames *)

Definition push_of (i : Passes) (wh : Z * Z) (t : f32) : list Z :=
  [wh.1; wh.2; f32_to_bits t; ps_block_size i; ps_search_radius i].

Definition block_groups (i : Passes) (wh : Z * Z) : Z * Z :=
  (ceil_div (ceil_div wh.1 (ps_block_size i)) 16, ceil_div (ceil_div wh.2 (ps_block_size i)) 16).

(** What the shaders make of two pictures, and of what was in the buffers of the vectors
    and of the output. *)
Definition mixed (i : Passes) (wh : Z * Z) (t : f32) (a b vectors out : list Z) : list Z :=
  let motion := shaded d "motion_est" (push_of i wh t) (block_groups i wh) [a; b; vectors] in
  shaded d "warp_blend" (push_of i wh t) (groups_of wh) [motion 0%nat; motion 1%nat; motion 2%nat; out] 3.

Definition run_commands (i : Passes) (r : Fsr2Resources) (wh : Z * Z) (t : f32) : list vk_cmd :=
  [CopyBuffer (re_staging_a r).1 (re_frame_a r).1 (size_of wh);
   CopyBuffer (re_staging_b r).1 (re_frame_b r).1 (size_of wh);
   MemoryBarrier Transfer ComputeShader;
   Dispatch (ps_motion_pipeline i) (ps_motion_pipeline_layout i) (re_motion_desc_set r) (push_of i wh t) (block_groups i wh);
   MemoryBarrier ComputeShader ComputeShader;
   Dispatch (ps_warp_pipeline i) (ps_warp_pipeline_layout i) (re_warp_desc_set r) (push_of i wh t) (groups_of wh);
   MemoryBarrier ComputeShader Transfer;
   CopyBuffer (re_output r).1 (re_readback r).1 (size_of wh)].

Lemma wp_record_run i r w h t Φ Ψ : motion_ok (ps_block_size i) (w, h) ->
  re_cmd r ↦ CommandBuffer (Recording []) -∗
  (re_cmd r ↦ CommandBuffer (Recording (run_commands i r (w, h) t)) -∗ Φ tt) -∗
  wp d (record_run i r w h t) Φ Ψ.
Proof.
  iIntros (Hok) "Hc H". pose proof Hok as (Hb & Hs & _). unfold record_run, record_dispatch.
  rewrite (rgba_bytes_ok d) //. vk_run. iApply wp_div_ceil; [done|]. vk_step. iApply wp_div_ceil; [done|]. vk_run.
  by iApply "H".
Qed.

Lemma known_over n px old : zlen px = n -> known d n (overwrite px old) = px.
Proof. apply known_prefix. Qed.

Lemma mixed_length i wh t a b vectors out : zlen (mixed i wh t a b vectors out) = zlen out.
Proof. unfold mixed. by rewrite (shaded_length d _ _ _ _ _ out). Qed.

Lemma wp_run_commands i r t a b xa xb K (wh := (re_width r, re_height r)) : motion_ok (ps_block_size i) wh ->
  zlen a = size_of wh -> zlen b = size_of wh -> known d (size_of wh) xa = a -> known d (size_of wh) xb = b ->
  owns_passes i -∗ frame_sets (ps_block_size i) r -∗ frame_buffers (ps_block_size i) r xa xb -∗
  (owns_passes i -∗ frame_sets (ps_block_size i) r -∗
   (∃ vectors out (_ : zlen out = size_of wh), some_buf (re_frame_a r) (size_of wh) storage_usage ∗ some_buf (re_frame_b r) (size_of wh) storage_usage ∗
     some_buf (re_motion r) (motion_bytes (ps_block_size i) wh) [StorageBuffer] ∗
     some_buf (re_output r) (size_of wh) output_usage ∗
     owns_pair (re_staging_a r) (size_of wh) staging_usage xa ∗ owns_pair (re_staging_b r) (size_of wh) staging_usage xb ∗
     ∃ rest, owns_pair (re_readback r) (size_of wh) staging_usage (mixed i wh t a b vectors out ++ rest)) -∗ K) -∗
  wp d (exec_all (E:=vk_error) (run_commands i r wh t))
    (fun used => wp d (each (E:=vk_error) use used) (fun _ =>
      wp d (each (E:=vk_error) unuse used) (fun _ => K) (fun _ => False)) (fun _ => False)) (fun _ => False).
Proof.
  intros Hok Ha Hb Hxa Hxb. pose proof Hok as (Hbs & Hs & _). pose proof (size_of_pos d _ Hs) as Hs0.
  pose proof (motion_bytes_ok _ _ Hok) as [Hm0 _]. unfold frame_sets, frame_buffers, run_commands, set_of.
  change (size_of_frames r) with (size_of wh). fold wh.
  set (size := size_of wh) in *. set (msize := motion_bytes (ps_block_size i) wh) in *.
  destruct r as [w h [fa fam] [fb fbm] [mo mom] [ou oum] [sa sam] [sb sbm] [rb rbm] mset wset cmd].
  cbn [re_width re_height re_frame_a re_frame_b re_motion re_output re_staging_a re_staging_b re_readback
    re_motion_desc_set re_warp_desc_set re_cmd fst snd app fmap list_fmap] in *.
  iIntros "((Hmp & Hml & Hmd) & (Hwp & Hwl & Hwd) & He & Hr) [Hms Hws]
    ((%x1 & %m1 & %f1 & Hfa & Hfam) & (%x2 & %m2 & %f2 & Hfb & Hfbm) & (%x3 & %m3 & %f3 & Hmo & Hmom) &
     (%x4 & %m4 & %f4 & Hou & Houm) & (%m5 & %f5 & %H5 & Hsa & Hsam) & (%m6 & %f6 & %H6 & Hsb & Hsbm) &
     (%x7 & %m7 & %f7 & %H7 & Hrb & Hrbm)) K".
  unfold exec_all; cbn [fst snd exec_from exec loosened]. unfold bound_memory, set_bytes. vk_run.
  rewrite Hxa Hxb. vk_shown. rewrite !known_over //.
  set (v0 := known d msize x3). set (mv := shaded d "motion_est" (push_of i wh t) (block_groups i wh) [a; b; v0]).
  assert (L : forall k x, [a; b; v0] !! k = Some x -> zlen (mv k) = zlen x) by (intros; by apply shaded_length).
  rewrite shader_list. vk_shaded. fold mv. vk_shown.
  rewrite !known_over ?(L 0%nat a) ?(L 1%nat b) ?(L 2%nat v0) //; [|by apply known_length; lia].
  set (o0 := known d size x4). rewrite shader_list. vk_shaded.
  assert (Lo : zlen (mixed i wh t a b v0 o0) = size).
  { rewrite mixed_length. apply known_length. lia. }
  change (shaded d "warp_blend" (push_of i wh t) (groups_of wh) [mv 0%nat; mv 1%nat; mv 2%nat; o0] 3)
    with (mixed i wh t a b v0 o0).
  rewrite !(known_over _ (mixed i wh t a b v0 o0)) //. vk_run.
  iApply ("K" with "[$Hmp $Hml $Hmd $Hwp $Hwl $Hwd $He $Hr] [$Hms $Hws]").
  assert (Hol : zlen o0 = size) by (apply known_length; lia).
  iExists v0, o0, Hol. unfold some_buf, owns_buf, owns_pair. cbn [fst snd].
  iSplitL "Hfa Hfam"; [iExists _, _, _; iFrame|]. iSplitL "Hfb Hfbm"; [iExists _, _, _; iFrame|].
  iSplitL "Hmo Hmom"; [iExists _, _, _; iFrame|]. iSplitL "Hou Houm"; [iExists _, _, _; iFrame|].
  iSplitL "Hsa Hsam"; [iExists m5, f5; iSplit; [done|iFrame]|]. iSplitL "Hsb Hsbm"; [iExists m6, f6; iSplit; [done|iFrame]|].
  iExists _, m7, f7. iSplit; [done|]. unfold overwrite. iFrame.
Qed.
(** Two whole pictures of the same size. *)
Definition frames_ok (i : Passes) (a b : GpuFrame) : Prop :=
  let wh := (gf_width a, gf_height a) in
  motion_ok (ps_block_size i) wh /\ zlen (gf_data a) = size_of wh /\ zlen (gf_data b) = size_of wh.

(** The frame the shaders make, whatever was in their buffers before. *)
Definition right_mix (i : Passes) (a b : GpuFrame) (t : f32) (px : list Z) : Prop :=
  exists vectors out, px = mixed i (gf_width a, gf_height a) t (gf_data a) (gf_data b) vectors out.

Ltac reform := iDestruct "H" as "[_ H]"; iApply "H"; iExists _, _; iFrame "Hcs Hi Hsets Hc Hp Hframe_sets";
  iSplitL "Hcmd"; [iExists _; iSplit; [|iFrame]; done|]; iExists _, _; iFrame.

(** Whatever fails, the resources are there for the next pair. *)
Lemma wp_run_frames c i r a b t Φ Ψ : frames_ok i a b -> re_width r = gf_width a -> re_height r = gf_height a ->
  motion_cache c i (Some r) -∗
  (∀ px (_ : right_mix i a b t px), motion_cache c i (Some r) -∗ Φ px) ∧ (∀ e, motion_cache c i (Some r) -∗ Ψ e) -∗
  wp d (run_frames i r a b t) Φ Ψ.
Proof.
  iIntros ((Hok & Ha & Hb) Ew Eh). pose proof Hok as (Hbs & Hs & _). pose proof (size_of_pos d _ Hs) as Hs0.
  iIntros "(%cs & %sets & Hcs & Hi & Hsets & Hc & Hp & Hframe_sets & (%st & %Hst & Hcmd) & %x1 & %x2 & Hbuf) H".
  unfold run_frames. vk_simpl. rewrite (rgba_bytes_ok d) //. rewrite -Ew -Eh in Hok, Ha, Hb, Hs, Hs0 |- *.
  change (size_of (re_width r, re_height r)) with (size_of_frames r) in *.
  iDestruct "Hbuf" as "(Hfa & Hfb & Hmo & Hou & Hsa & Hsb & Hrb)". vk_step.
  iApply (wp_upload_pair with "Hsa"); [lia|]. iSplit; [|iIntros (e) "Hsa"; reform]. iIntros "Hsa". vk_step.
  iApply (wp_upload_pair with "Hsb"); [lia|]. iSplit; [|iIntros (e) "Hsb"; reform]. iIntros "Hsb". unfold or_failed. do 2 vk_step.
  iApply wp_ask. iSplit; [|iIntros (e); reform]. vk_step.
  iApply (wp_reset_command_buffer with "Hcmd"); [done|]. iIntros "Hcmd". do 2 vk_step.
  iApply (wp_begin_command_buffer with "Hcmd"); [done|]. iSplit; [|iIntros (e) "Hcmd"; reform]. iIntros "Hcmd". vk_step.
  iApply (wp_record_run with "Hcmd"); [done|]. iIntros "Hcmd". do 2 vk_step.
  iApply (wp_end_command_buffer with "Hcmd"). iSplit; [|iIntros (e) "Hcmd"; reform]. iIntros "Hcmd". unfold into. do 2 vk_step.
  iApply (wp_submit_and_wait with "Hcmd"). iSplit; [|iIntros (what e) "Hcmd"; reform].
  iApply (wp_run_commands i r t (gf_data a) (gf_data b) with "Hi Hframe_sets [$Hfa $Hfb $Hmo $Hou $Hsa $Hsb $Hrb]");
    [done|done|done|by apply known_over|by apply known_over|].
  iIntros "Hi Hframe_sets (%v & %o & %Ho & Hfa & Hfb & Hmo & Hou & Hsa & Hsb & %rest & Hrb) Hcmd".
  change (size_of (re_width r, re_height r)) with (size_of_frames r) in *.
  iSplit; [|iIntros (e); iAssert (some_pair (re_readback r) (size_of_frames r) staging_usage) with "[Hrb]" as "Hrb";
    [by iExists _|reform]].
  iApply (wp_read_pair with "Hrb"); [lia|].
  iSplit; [|iIntros (e) "Hrb"; iAssert (some_pair (re_readback r) (size_of_frames r) staging_usage) with "[Hrb]" as "Hrb";
    [by iExists _|reform]].
  iIntros "Hrb". iAssert (some_pair (re_readback r) (size_of_frames r) staging_usage) with "[Hrb]" as "Hrb"; [by iExists _|].
  iDestruct "H" as "[H _]". iApply "H".
  - iPureIntro. exists v, o. rewrite -Ew -Eh. apply known_prefix. by rewrite mixed_length.
  - iExists _, _; iFrame "Hcs Hi Hsets Hc Hp Hframe_sets".
    iSplitL "Hcmd"; [iExists _; iSplit; [|iFrame]; done|]; iExists _, _; iFrame.
Qed.

(** [run]: the resources are made, or kept; the frame is the shaders'. *)
Lemma wp_fsr2_interpolation c i cache a b t Φ Ψ : frames_ok i a b ->
  motion_cache c i cache -∗
  (∀ r out (_ : forall px, out = inl px -> right_mix i a b t px), motion_cache c i (Some r) -∗ Φ (Some r, out)) ∧
  (∀ e, motion_cache c i None ∗ True -∗ Φ (None, inr e)) -∗
  wp d (fsr2_interpolation c i cache a b t) Φ Ψ.
Proof.
  iIntros (Hok) "Hc H". unfold fsr2_interpolation. vk_step. iApply (wp_ensure_resources with "Hc"); [apply Hok|]. iSplit.
  - iIntros (r [Ew Eh]) "Hc". vk_step. iApply wp_attempted. iApply (wp_run_frames with "Hc"); [done|done|done|].
    iDestruct "H" as "[H _]". iSplit.
    + iIntros (px Hpx) "Hc". vk_steps. unshelve iApply ("H" $! r (inl px) _ with "Hc"). by intros ? [= <-].
    + iIntros (e) "Hc". vk_steps. by unshelve iApply ("H" $! r (inr e) _ with "Hc").
  - iIntros (e) "Hc". vk_steps. iDestruct "H" as "[_ H]". by iApply "H".
Qed.
End Motion.
