(* ===== verification/Fsr2Mixes.v ===== *)
(** Pairs of frames interpolated one after another by the compute shaders. *)

From stdpp Require Import gmap strings.
From iris.proofmode Require Import proofmode.
From S2P Require Import Prelude Floats Vulkan VulkanLogic VulkanContext VulkanSafety VulkanRuns Interpolate Fsr2Native Fsr2Safety Fsr2Runs Fsr2 Fsr2Logic Fsr2Life Fsr2Motion.

#[local] Open Scope Z_scope.

(** Pairs in a row, with the cache carried from each to the next. *)
Fixpoint mix_all (c : Context) (i : Passes) (cache : option Fsr2Resources) (js : list (GpuFrame * GpuFrame * f32))
    : vk Empty_set (list (list Z + InterpolateError)) :=
  match js with
  | [] => mret []
  | (a, b, t) :: js =>
      '(cache, out) ← fsr2_interpolation c i cache a b t;
      outs ← mix_all c i cache js;
      mret (out :: outs)
  end.

Section Mixes.
Context (d : driver) `{!DriverLaws d, !WaitsEnd d, !InOrder d}.

Definition right_out (i : Passes) (j : GpuFrame * GpuFrame * f32) (out : list Z + InterpolateError) : Prop :=
  forall px, out = inl px -> right_mix d i j.1.1 j.1.2 j.2 px.

Lemma wp_mix_all c i js : forall cache Φ (Ψ : Empty_set -> oprop),
  Forall (fun j => frames_ok d i j.1.1 j.1.2) js ->
  motion_cache c i cache ∗ True -∗ (∀ outs (_ : Forall2 (right_out i) js outs), True -∗ Φ outs) -∗
  wp d (mix_all c i cache js) Φ Ψ.
Proof.
  induction js as [|[[a b] t] js IH]; intros cache Φ Ψ Hjs; cbn [mix_all]; iIntros "[Hc HT] H".
  { vk_step. by unshelve iApply ("H" $! [] _). }
  apply Forall_cons in Hjs as [Hj Hjs]. cbn [fst snd] in Hj. vk_step.
  iApply (wp_fsr2_interpolation with "Hc"); [done|]. iSplit.
  - iIntros (r out Hout) "Hc". vk_steps. iApply (IH with "[$Hc $HT]"); [done|]. iIntros (outs Houts) "HT". vk_steps.
    unshelve iApply ("H" $! (out :: outs) _ with "HT"). by constructor.
  - iIntros (e) "[Hc HT']". vk_steps. iApply (IH with "[$Hc $HT']"); [done|]. iIntros (outs Houts) "HT2". vk_steps.
    unshelve iApply ("H" $! (inr e :: outs) _ with "[HT HT2]"); [by constructor|done].
Qed.
End Mixes.

(** With the passes made, on any driver and whatever fails, for any sequence of pairs of
    frames, of sizes that may change from pair to pair, and of times: every call of the
    interpolation is valid (buffers and sets are renewed when the size changes, and no
    descriptor shows a buffer that is gone), and every frame it gives is what the warping
    shader makes of the pair and of the vectors the estimation shader made of it. *)
Theorem mixes_right (d : driver) (Hd : DriverLaws d) (Hwt : WaitsEnd d) (Hio : InOrder d) c i js root n objs :
  Forall (fun j => frames_ok d i j.1.1 j.1.2) js -> holds (usable c [] i []) objs ->
  exists g outs, mix_all c i None js d (mkGpu root n objs) = Some (g, inl outs) /\ Forall2 (right_out d i) js outs.
Proof.
  intros Hjs Hu.
  destruct (wp_run d (mix_all c i None js) (usable c [] i [])
    (fun outs => ∃ (_ : Forall2 (right_out d i) js outs), True)%I (fun _ => False)%I
    objs root n ∅) as (n' & σ' & r & E & _ & Hpost); [|done|apply map_disjoint_empty_r|].
  - iIntros "(Hc & Hi & [Hp Hs])". iApply (wp_mix_all d c i js None with "[Hc Hi Hp]"); [done| |].
    + iSplitL; [|done]. iExists [], []. cbn. by iFrame.
    + iIntros (outs Houts) "_". by iExists Houts.
  - rewrite map_union_empty in E. destruct r as [outs|[]]. destruct Hpost as [Houts _].
    by eexists _, outs.
Qed.

(** ** On a device *)

#[local] Notation demo := (demo_driver (fun _ => None)).

(** Two pairs of one pixel, then one of two. *)
Definition demo_pairs : list (GpuFrame * GpuFrame * f32) :=
  [(demo_frame [9; 8; 7; 255], demo_frame [5; 6; 7; 8], f32_frac 1 2);
   (demo_frame [1; 2; 3; 4], demo_frame [3; 3; 3; 3], f32_frac 1 4);
   (mkGpuFrame (replicate 8 1) 2 1 8 0, mkGpuFrame (replicate 8 2) 2 1 8 0, f32_frac 1 2)].

Lemma mixes_right_witness :
  (match demo_setup with
   | Some (g, (c, i)) =>
       match mix_all c i None demo_pairs demo (mkGpu (g_root g) 0 (g_objs g)) with Some (_, inl outs) => Some outs | _ => None end
   | None => None
   end = Some [inl (replicate 4 5); inl (replicate 4 3); inl (replicate 8 2)]) /\
  exists g c i, demo_setup = Some (g, (c, i)) /\
  exists g' outs, mix_all c i None demo_pairs demo (mkGpu (g_root g) 0 (g_objs g)) = Some (g', inl outs) /\
    Forall2 (right_out demo i) demo_pairs outs.
Proof.
  split; [vm_compute; reflexivity|].
  destruct demo_setup_made as (g & c & i & E & Hbs & H). exists g, c, i. split; [exact E|].
  apply (mixes_right demo (demo_laws _) (demo_waits _) (demo_in_order _) c i demo_pairs (g_root g) 0 (g_objs g)); [|exact H].
  unfold frames_ok, motion_ok. rewrite Hbs. repeat constructor; vm_compute; congruence.
Defined.
