(* ===== verification/EncoderObjects.v ===== *)
(** The Vulkan objects of a hardware encoder ([crates/remoteway-encode/src/backends/
    {h264,h265,av1}.rs]): [new] with its helpers, [encode] over the objects, and [drop].

    The three backends have these functions in common, up to their structures, which are
    the class [Backend] (Encoder.v).  Encoder.v has [encode] without the objects, as the
    runs of EncoderRun.v need it; here it is with every call it makes. *)

From stdpp Require Import gmap strings.
From S2P Require Import Prelude Encoder EncoderRun Codecs Vulkan VulkanContext.

(** The fields of an encoder that are handles, its slots and views aside. *)
Record EncObjects := mkEncObjects {
  eo_session : Z; eo_session_memory : list Z; eo_session_params : Z;
  eo_out_buffer : Z; eo_out_buffer_memory : Z; eo_query_pool : Z;
  eo_encode_cmd_pool : Z; eo_encode_cmd : Z; eo_encode_fence : Z }.

(** [.map_err(|e| ..)?] at a step of [new]. *)
Definition at_step {A} (s : gpu_step) (m : vk vk_error A) : vk EncodeError A :=
  map_err (fun _ => step_error s) m.

(** ** Helpers of [new] *)

(** Memory for the object that is about to be bound; an error leaves the object. *)
Definition session_memory (types : list Z) (req : mem_req) : vk EncodeError Z :=
  match find_memory_type types (mr_type_bits req) DEVICE_LOCAL with
  | Some i => at_step AllocateSessionMemory (allocate_memory (mr_size req) i)
  | None => throw (step_error NoSessionMemory)
  end.

Fixpoint session_memories (types : list Z) (reqs : list (Z * mem_req)) : vk EncodeError (list Z) :=
  match reqs with
  | [] => mret []
  | req :: reqs =>
      mem ← session_memory types req.2;
      allocations ← session_memories types reqs;
      mret (mem :: allocations)
  end.

Definition bind_session_memory (session : Z) : vk EncodeError (list Z) :=
  reqs ← at_step SessionRequirements (session_requirements session);
  types ← driver_says (fun d _ => d_types d);
  allocations ← session_memories types reqs;
  at_step BindSessionMemory (bind_video_session_memory session allocations);;
  mret allocations.

Definition fetch_parameter_sets_blob (session_params : Z) : vk EncodeError (list Z) :=
  at_step GetParameterSets (encoded_parameter_sets session_params).

Definition create_image_view (image : Z) : vk vk_error Z := create_view image.

Definition create_dpb_slot (width height : Z) : vk EncodeError DpbSlot :=
  image ← at_step CreateDpbImage (create_image_raw width height [VideoEncodeDpb]);
  req ← driver_says (fun d n => d_image_req d n width height);
  types ← driver_says (fun d _ => d_types d);
  match find_memory_type types (mr_type_bits req) DEVICE_LOCAL with
  | None => throw (step_error NoDpbMemory)
  | Some i =>
      memory ← at_step AllocateDpbMemory (allocate_memory (mr_size req) i);
      at_step BindDpbImage (bind_memory image memory);;
      view ← at_step CreateImageView (create_image_view image);
      mret (mkDpbSlot image memory view)
  end.

Fixpoint create_dpb_slots (n : nat) (width height : Z) : vk EncodeError (list DpbSlot) :=
  match n with
  | O => mret []
  | S n => s ← create_dpb_slot width height; out ← create_dpb_slots n width height; mret (s :: out)
  end.

Definition create_dpb_pool (width height : Z) : vk EncodeError (list DpbSlot) :=
  create_dpb_slots (Z.to_nat DPB_SLOTS) width height.

Definition create_output_buffer (size : Z) : vk EncodeError (Z * Z) :=
  buffer ← at_step CreateOutBuffer (create_buffer_raw size [VideoEncodeDst]);
  req ← driver_says (fun d n => d_buffer_req d n size);
  types ← driver_says (fun d _ => d_types d);
  match find_memory_type types (mr_type_bits req) (Z.lor HOST_VISIBLE HOST_COHERENT) with
  | None => throw (step_error NoOutMemory)
  | Some i =>
      memory ← at_step AllocateOutMemory (allocate_memory (mr_size req) i);
      at_step BindOutBuffer (bind_memory buffer memory);;
      mret (buffer, memory)
  end.

Definition create_encode_query_pool : vk EncodeError Z := at_step CreateQueryPool create_query_pool.

Fixpoint record_all {E} (cmd : Z) (cs : list vk_cmd) : vk E unit :=
  match cs with
  | [] => mret tt
  | c :: cs => record cmd c;; record_all cmd cs
  end.

(** Allocate a buffer, record [cs] in it, submit it and wait; an error leaves what there
    is by then. *)
Definition one_shot (pool : Z) (cs : list vk_cmd) : vk EncodeError unit :=
  cmd ← at_step AllocateCommandBuffers (allocate_command_buffer pool);
  at_step BeginCommandBuffer (begin_command_buffer cmd);;
  record_all cmd cs;;
  at_step EndCommandBuffer (end_command_buffer cmd);;
  fence ← at_step CreateFence create_fence;
  at_step QueueSubmit (queue_submit cmd fence);;
  at_step WaitForFences (wait_for_fence fence);;
  destroy_fence fence;;
  free_command_buffer pool cmd.

Definition cmd_transition (image : Z) (new_layout : layout) : vk_cmd :=
  PipelineBarrier (mkBarrier image Undefined new_layout TopOfPipe BottomOfPipe).

Definition transition_dpb_to_initial_layout (pool : Z) (dpb : list DpbSlot) : vk EncodeError unit :=
  one_shot pool ((fun s => cmd_transition (ds_image s) EncodeDpb) <$> dpb).

Definition initialize_rate_control (pool session session_params : Z) : vk EncodeError unit :=
  one_shot pool [BeginVideoCoding session session_params []; ControlVideoCoding session;
                 EndVideoCoding session].

(** ** [new] *)

Section Encoder.
Context {Info Pic X : Type} `{Hb : Backend Info Pic X}.

(** The probe, with the checks that need it. *)
Definition probe_and_check (c : Context) (p : EncodeParams) : vk EncodeError unit :=
  if negb (bool_decide (ep_codec p = b_codec)) then throw (InvalidParams WrongBackend)
  else
    caps ← map_err (fun _ => VulkanFailed) (fetch_caps c b_codec);
    match new_checks (mkVulkanContext (fun _ => inl caps) (cx_video_encode_queue_family c)
            (cx_video_encode_queue_family c)) p with
    | inl _ => mret tt
    | inr x => throw x
    end.

Definition encoder_new (c : Context) (p : EncodeParams) : vk EncodeError (EncObjects * Enc X) :=
  probe_and_check c p;;
  session ← at_step CreateVideoSession (create_video_session b_codec DPB_SLOTS 1);
  session_memory ← bind_session_memory session;
  session_params ← at_step CreateSessionParameters (create_video_session_parameters session);
  blob ← fetch_parameter_sets_blob session_params;
  dpb ← create_dpb_pool (ep_width p) (ep_height p);
  '(out_buffer, out_buffer_memory) ← create_output_buffer OUTPUT_BUFFER_BYTES;
  query_pool ← create_encode_query_pool;
  encode_cmd_pool ← at_step CreateCommandPool create_command_pool;
  encode_cmd ← at_step AllocateCommandBuffers (allocate_command_buffer encode_cmd_pool);
  encode_fence ← at_step CreateFence create_fence;
  transition_dpb_to_initial_layout encode_cmd_pool dpb;;
  initialize_rate_control encode_cmd_pool session session_params;;
  mret (mkEncObjects session session_memory session_params out_buffer out_buffer_memory query_pool
          encode_cmd_pool encode_cmd encode_fence,
        Enc_new p (b_sets blob) dpb).

(** ** [encode] *)

Definition with_view (e : Enc X) (image v : Z) : Enc X :=
  mkEnc (e_params e) (e_parameter_sets e) (e_dpb e) (e_prior_ref_slot e) (e_frame_index e)
    (e_force_keyframe e) (<[image := v]> (e_input_views e)) (e_extra e).

Definition finished (e : Enc X) (setup : Z) : Enc X :=
  mkEnc (e_params e) (e_parameter_sets e) (e_dpb e) (Some setup) (wrap 64 (e_frame_index e + 1))
    (e_force_keyframe e) (e_input_views e) (b_advance (e_extra e)).

(** An error comes with the encoder as it is then. *)
Definition or_fail {A} (e : Enc X) (s : gpu_step) (m : vk vk_error A) : vk (Enc X * EncodeError) A :=
  map_err (fun _ => (e, step_error s)) m.

(** [self.dpb[n]]. *)
Definition dpb_slot (e : Enc X) (n : Z) : vk (Enc X * EncodeError) DpbSlot :=
  match get (e_dpb e) n with Some s => mret s | None => invalid end.

Definition cached_view (e : Enc X) (image : Z) : vk (Enc X * EncodeError) (Enc X * Z) :=
  match e_input_views e !! image with
  | Some v => mret (e, v)
  | None =>
      v ← or_fail e CreateImageView (create_image_view image);
      mret (with_view e image v, v)
  end.

(** The setup slot is named with no index, which activates it. *)
Definition begin_recording (o : EncObjects) (e : Enc X) (setup : DpbSlot) (reference : option (Z * Z))
    : vk (Enc X * EncodeError) unit :=
  let cmd := eo_encode_cmd o in
  or_fail e ResetCommandPool (reset_command_pool (eo_encode_cmd_pool o));;
  or_fail e BeginCommandBuffer (begin_command_buffer cmd);;
  record cmd (ResetQueryPool (eo_query_pool o));;
  record cmd (BeginVideoCoding (eo_session o) (eo_session_params o)
    ((-1, ds_view setup) :: option_list reference));;
  record cmd (BeginQuery (eo_query_pool o)).

Definition record_encode (o : EncObjects) (e : Enc X) (image setup_index : Z) (setup : DpbSlot)
    (reference : option (Z * Z)) : vk (Enc X * EncodeError) (Enc X) :=
  let cmd := eo_encode_cmd o in
  '(e, view) ← cached_view e image;
  record cmd (EncodeVideo (eo_session o) (eo_out_buffer o) OUTPUT_BUFFER_BYTES view
    (setup_index, ds_view setup) reference);;
  record cmd (EndQuery (eo_query_pool o));;
  record cmd (EndVideoCoding (eo_session o));;
  or_fail e EndCommandBuffer (end_command_buffer cmd);;
  mret e.

(** The submission, the wait, the byte count and the bytes. *)
Definition submit_and_read (o : EncObjects) (e : Enc X) : vk (Enc X * EncodeError) (list Z) :=
  or_fail e ResetFences (reset_fence (eo_encode_fence o));;
  or_fail e QueueSubmit (queue_submit (eo_encode_cmd o) (eo_encode_fence o));;
  or_fail e WaitForFences (wait_for_fence (eo_encode_fence o));;
  bytes_written ← or_fail e GetQueryPoolResults (get_query_pool_results (eo_query_pool o));
  let read_size := Z.min bytes_written OUTPUT_BUFFER_BYTES in
  or_fail e MapMemory (map_memory (eo_out_buffer_memory o) read_size);;
  bitstream ← read_mapped (eo_out_buffer_memory o) read_size;
  unmap_memory (eo_out_buffer_memory o);;
  mret bitstream.

Definition encode_objects (o : EncObjects) (e : Enc X) (frame : InputFrame)
    : vk (Enc X * EncodeError) (Enc X * EncodedFrame) :=
  if negb (if_width frame =? ep_width (e_params e)) || negb (if_height frame =? ep_height (e_params e))
  then throw (e, InvalidParams InputFrameSize)
  else
    let idr := is_idr e in
    let e1 := set_force e false in
    let setup_index := setup_slot e in
    setup ← dpb_slot e1 setup_index;
    reference ← match ref_slot e idr with
                | Some prev => s ← dpb_slot e1 prev; mret (Some (prev, ds_view s))
                | None => mret None
                end;
    begin_recording o e1 setup reference;;
    e2 ← record_encode o e1 (if_image frame) setup_index setup reference;
    bitstream ← submit_and_read o e2;
    let parameter_sets := if idr then Some (e_parameter_sets e) else None in
    let kind := if idr then Idr else P in
    mret (finished e2 setup_index,
          mkEncodedFrame (b_framed bitstream) kind (if_pts_90khz frame) parameter_sets).

(** ** [drop] *)

Definition drop_slot {E} (s : DpbSlot) : vk E unit :=
  destroy_image_view (ds_view s);;
  destroy_image (ds_image s);;
  free_memory (ds_memory s).

Fixpoint drop_slots {E} (dpb : list DpbSlot) : vk E unit :=
  match dpb with
  | [] => mret tt
  | s :: dpb => drop_slot s;; drop_slots dpb
  end.

Definition encoder_drop {E} (o : EncObjects) (e : Enc X) : vk E unit :=
  or_else device_wait_idle (fun _ => mret tt);;
  each destroy_image_view (snd <$> map_to_list (e_input_views e));;
  destroy_fence (eo_encode_fence o);;
  destroy_command_pool (eo_encode_cmd_pool o);;
  destroy_query_pool (eo_query_pool o);;
  destroy_buffer (eo_out_buffer o);;
  free_memory (eo_out_buffer_memory o);;
  drop_slots (e_dpb e);;
  destroy_video_session_parameters (eo_session_params o);;
  destroy_video_session (eo_session o);;
  each free_memory (eo_session_memory o).
End Encoder.

(** ** The trait [Encoder], with the constructor and [drop] *)

Record encoder_api (X : Type) := mkEncoderApi {
  ea_new : Context -> EncodeParams -> vk EncodeError (EncObjects * Enc X);
  ea_request_keyframe : Enc X -> Enc X;
  ea_encode : EncObjects -> Enc X -> InputFrame -> vk (Enc X * EncodeError) (Enc X * EncodedFrame);
  ea_drop : EncObjects -> Enc X -> vk EncodeError unit }.
Arguments mkEncoderApi {X}.
Arguments ea_new {X}.
Arguments ea_request_keyframe {X}.
Arguments ea_encode {X}.
Arguments ea_drop {X}.

Definition api_of {Info Pic X} (Hb : Backend Info Pic X) : encoder_api X :=
  mkEncoderApi encoder_new request_keyframe encode_objects encoder_drop.
