(* ===== verification/EncoderBackends.v ===== *)
(** The three backends ([crates/remoteway-encode/src/backends/{h264,h265,av1}.rs]) as
    EncoderObjects.v and Encoder.v with the structures of Codecs.v: their functions are
    the same text but for the structures' names and fields, and are these definitions. *)

From stdpp Require Import gmap strings.
From S2P Require Import Prelude Encoder Codecs Vulkan VulkanContext EncoderObjects.

(** ** [h264.rs] *)

Module H264Encoder.
Definition t : Type := Enc unit.

Definition new : Context -> EncodeParams -> vk EncodeError (EncObjects * t) := encoder_new (Hb:=H264.backend).
Definition bind_session_memory : Z -> vk EncodeError (list Z) := EncoderObjects.bind_session_memory.
Definition fetch_parameter_sets_blob : Z -> vk EncodeError (list Z) := EncoderObjects.fetch_parameter_sets_blob.
Definition create_dpb_pool : Z -> Z -> vk EncodeError (list DpbSlot) := EncoderObjects.create_dpb_pool.
Definition create_image_view : Z -> vk vk_error Z := EncoderObjects.create_image_view.
Definition create_output_buffer : Z -> vk EncodeError (Z * Z) := EncoderObjects.create_output_buffer.
Definition create_encode_query_pool : vk EncodeError Z := EncoderObjects.create_encode_query_pool.
Definition initialize_rate_control : Z -> Z -> Z -> vk EncodeError unit := EncoderObjects.initialize_rate_control.
Definition transition_dpb_to_initial_layout : Z -> list DpbSlot -> vk EncodeError unit :=
  EncoderObjects.transition_dpb_to_initial_layout.
Definition cmd_transition : Z -> layout -> vk_cmd := EncoderObjects.cmd_transition.

Definition request_keyframe : t -> t := Encoder.request_keyframe.
Definition slots (e : t) : Z * option Z := (setup_slot e, ref_slot e (is_idr e)).
Definition begin_recording : EncObjects -> t -> DpbSlot -> option (Z * Z) -> vk (t * EncodeError) unit :=
  EncoderObjects.begin_recording.
Definition cached_view : t -> Z -> vk (t * EncodeError) (t * Z) := EncoderObjects.cached_view.
Definition record_encode : EncObjects -> t -> Z -> Z -> DpbSlot -> option (Z * Z) -> vk (t * EncodeError) t :=
  EncoderObjects.record_encode.
Definition submit_and_read : EncObjects -> t -> vk (t * EncodeError) (list Z) := EncoderObjects.submit_and_read.
Definition encode : EncObjects -> t -> InputFrame -> vk (t * EncodeError) (t * EncodedFrame) :=
  encode_objects (Hb:=H264.backend).

Definition drop : EncObjects -> t -> vk EncodeError unit := encoder_drop.

Definition api : encoder_api unit := mkEncoderApi new request_keyframe encode drop.
End H264Encoder.

(** ** [h265.rs] *)

Module H265Encoder.
Definition t : Type := Enc unit.

Definition new : Context -> EncodeParams -> vk EncodeError (EncObjects * t) := encoder_new (Hb:=H265.backend).
Definition bind_session_memory : Z -> vk EncodeError (list Z) := EncoderObjects.bind_session_memory.
Definition fetch_parameter_sets_blob : Z -> vk EncodeError (list Z) := EncoderObjects.fetch_parameter_sets_blob.
Definition create_dpb_pool : Z -> Z -> vk EncodeError (list DpbSlot) := EncoderObjects.create_dpb_pool.
Definition create_image_view : Z -> vk vk_error Z := EncoderObjects.create_image_view.
Definition create_output_buffer : Z -> vk EncodeError (Z * Z) := EncoderObjects.create_output_buffer.
Definition create_encode_query_pool : vk EncodeError Z := EncoderObjects.create_encode_query_pool.
Definition initialize_rate_control : Z -> Z -> Z -> vk EncodeError unit := EncoderObjects.initialize_rate_control.
Definition transition_dpb_to_initial_layout : Z -> list DpbSlot -> vk EncodeError unit :=
  EncoderObjects.transition_dpb_to_initial_layout.
Definition cmd_transition : Z -> layout -> vk_cmd := EncoderObjects.cmd_transition.

Definition request_keyframe : t -> t := Encoder.request_keyframe.
Definition slots (e : t) : Z * option Z := (setup_slot e, ref_slot e (is_idr e)).
Definition begin_recording : EncObjects -> t -> DpbSlot -> option (Z * Z) -> vk (t * EncodeError) unit :=
  EncoderObjects.begin_recording.
Definition cached_view : t -> Z -> vk (t * EncodeError) (t * Z) := EncoderObjects.cached_view.
Definition record_encode : EncObjects -> t -> Z -> Z -> DpbSlot -> option (Z * Z) -> vk (t * EncodeError) t :=
  EncoderObjects.record_encode.
Definition submit_and_read : EncObjects -> t -> vk (t * EncodeError) (list Z) := EncoderObjects.submit_and_read.
Definition encode : EncObjects -> t -> InputFrame -> vk (t * EncodeError) (t * EncodedFrame) :=
  encode_objects (Hb:=H265.backend).

Definition drop : EncObjects -> t -> vk EncodeError unit := encoder_drop.

Definition api : encoder_api unit := mkEncoderApi new request_keyframe encode drop.
End H265Encoder.

(** ** [av1.rs]; the extra state is the order hint *)

Module Av1Encoder.
Definition t : Type := Enc Z.

Definition new : Context -> EncodeParams -> vk EncodeError (EncObjects * t) := encoder_new (Hb:=Av1.backend).
Definition bind_session_memory : Z -> vk EncodeError (list Z) := EncoderObjects.bind_session_memory.
Definition fetch_parameter_sets_blob : Z -> vk EncodeError (list Z) := EncoderObjects.fetch_parameter_sets_blob.
Definition create_dpb_pool : Z -> Z -> vk EncodeError (list DpbSlot) := EncoderObjects.create_dpb_pool.
Definition create_image_view : Z -> vk vk_error Z := EncoderObjects.create_image_view.
Definition create_output_buffer : Z -> vk EncodeError (Z * Z) := EncoderObjects.create_output_buffer.
Definition create_encode_query_pool : vk EncodeError Z := EncoderObjects.create_encode_query_pool.
Definition initialize_rate_control : Z -> Z -> Z -> vk EncodeError unit := EncoderObjects.initialize_rate_control.
Definition transition_dpb_to_initial_layout : Z -> list DpbSlot -> vk EncodeError unit :=
  EncoderObjects.transition_dpb_to_initial_layout.
Definition cmd_transition : Z -> layout -> vk_cmd := EncoderObjects.cmd_transition.

Definition request_keyframe : t -> t := Encoder.request_keyframe.
Definition slots (e : t) : Z * option Z := (setup_slot e, ref_slot e (is_idr e)).
Definition begin_recording : EncObjects -> t -> DpbSlot -> option (Z * Z) -> vk (t * EncodeError) unit :=
  EncoderObjects.begin_recording.
Definition cached_view : t -> Z -> vk (t * EncodeError) (t * Z) := EncoderObjects.cached_view.
Definition record_encode : EncObjects -> t -> Z -> Z -> DpbSlot -> option (Z * Z) -> vk (t * EncodeError) t :=
  EncoderObjects.record_encode.
Definition submit_and_read : EncObjects -> t -> vk (t * EncodeError) (list Z) := EncoderObjects.submit_and_read.
Definition encode : EncObjects -> t -> InputFrame -> vk (t * EncodeError) (t * EncodedFrame) :=
  encode_objects (Hb:=Av1.backend).

Definition drop : EncObjects -> t -> vk EncodeError unit := encoder_drop.

Definition api : encoder_api Z := mkEncoderApi new request_keyframe encode drop.
End Av1Encoder.
