(* ===== verification/EncoderSafety.v ===== *)
(** The hardware encoders' objects (EncoderObjects.v), proved in the logic of
    VulkanLogic.v: [new], [encode] and [drop] make only valid calls, [encode] does what
    Encoder.v says, and [drop] leaves nothing. *)

From stdpp Require Import gmap strings.
From iris.proofmode Require Import proofmode.
From S2P Require Import Prelude Encoder EncoderRun Codecs Vulkan VulkanLogic VulkanContext VulkanSafety.
From S2P Require Import EncoderObjects.

#[local] Open Scope Z_scope.

(** ** Lists of objects *)

(** Some objects, each used [n] times. *)
Definition those (hs : list Z) (n : nat) (bs : list body) : oprop := ([∗ list] h;b ∈ hs;bs, h ↦{n} b)%I.

Section Each.
Context (d : driver).

Lemma wp_ext {E A} (m1 m2 : vk E A) Φ Ψ : (forall g, m1 d g = m2 d g) -> wp d m1 Φ Ψ ⊢ wp d m2 Φ Ψ.
Proof. intros Hm. apply o_intro. intros σ H root n rest Hd. rewrite -Hm. by apply H. Qed.

Lemma each_app {E} (f : Z -> vk E unit) l1 l2 g :
  (each f l1;; each f l2) d g = each f (l1 ++ l2) d g.
Proof.
  revert g. induction l1 as [|h l1 IH]; intros g; [done|]. cbn [each app]. cbv [mbind vk_bind].
  destruct (f h d g) as [[g' [[]|e]]|]; [|done..]. rewrite -IH. done.
Qed.

Lemma wp_each_app {E} (f : Z -> vk E unit) l1 l2 Φ Ψ :
  wp d (each f l1) (fun _ => wp d (each f l2) Φ Ψ) Ψ ⊢ wp d (each f (l1 ++ l2)) Φ Ψ.
Proof. etrans; [apply wp_bind|]. apply wp_ext. intros g. apply each_app. Qed.

Lemma wp_each_those {E} (f : Z -> vk E unit) hs n n' bs Φ (Ψ : E -> oprop) :
  (forall h b Φ (Ψ : E -> oprop), h ↦{n} b -∗ (h ↦{n'} b -∗ Φ tt) -∗ wp d (f h) Φ Ψ) ->
  those hs n bs -∗ (those hs n' bs -∗ Φ tt) -∗ wp d (each f hs) Φ Ψ.
Proof.
  intros Hf. unfold those. revert bs Φ. induction hs as [|h hs IH]; intros [|b bs] Φ; cbn [each].
  - iIntros "H K". vk_step. by iApply "K".
  - iIntros "[]".
  - iIntros "[]".
  - rewrite !big_sepL2_cons. iIntros "[Hh Hhs] K". vk_step. iApply (Hf with "Hh"). iIntros "Hh".
    iApply (IH with "Hhs"). iIntros "Hhs". iApply "K". iFrame.
Qed.

Lemma wp_use_those {E} hs n bs Φ (Ψ : E -> oprop) :
  those hs n bs -∗ (those hs (S n) bs -∗ Φ tt) -∗ wp d (each use hs) Φ Ψ.
Proof. apply wp_each_those. intros. apply wp_use. Qed.

Lemma wp_unuse_those {E} hs n bs Φ (Ψ : E -> oprop) :
  those hs (S n) bs -∗ (those hs n bs -∗ Φ tt) -∗ wp d (each unuse hs) Φ Ψ.
Proof. apply wp_each_those. intros. apply wp_unuse. Qed.

Definition is_memory (b : body) : bool := match b with Memory _ _ _ _ => true | _ => false end.

Lemma wp_free_those {E} hs bs Φ (Ψ : E -> oprop) : Forall (fun b => is_memory b = true) bs ->
  those hs 0 bs -∗ Φ tt -∗ wp d (each free_memory hs) Φ Ψ.
Proof.
  unfold those. intros Hbs. revert hs Φ. induction Hbs as [|b bs Hb Hbs IH]; intros [|h hs] Φ; cbn [each].
  - iIntros "H K". vk_step. by iFrame.
  - iIntros "[]".
  - iIntros "[]".
  - rewrite !big_sepL2_cons. iIntros "[Hh Hhs] K". vk_step.
    iApply (wp_destroy (E:=E) d _ h b with "Hh"); [done|]. by iApply (IH with "Hhs").
Qed.
End Each.

(** [each] over what a video command names. *)
Ltac vk_each :=
  lazymatch goal with
  | |- environments.envs_entails _ (wp (E:=?E) ?d (each ?f (?l1 ++ ?l2)) _ _) =>
      iApply (wp_each_app (E:=E) d f l1 l2)
  | |- environments.envs_entails _ (wp (E:=?E) ?d (each use ?hs) _ _) =>
      iSelect (those hs _ _) (fun H => iApply (wp_use_those (E:=E) d hs with H); iIntros H)
  | |- environments.envs_entails _ (wp (E:=?E) ?d (each unuse ?hs) _ _) =>
      iSelect (those hs _ _) (fun H => iApply (wp_unuse_those (E:=E) d hs with H); iIntros H)
  end; vk_simpl.

Lemma wp_session_step {E} d session n ready active f slots ms r a sl sl' Φ (Ψ : E -> oprop) :
  a = active -> r || negb ready = true -> slots sl = Some sl' ->
  session ↦{n} VideoSession (Some ms) r a sl -∗
  (session ↦{n} VideoSession (Some ms) (r || f.1) f.2 sl' -∗ Φ (session :: ms)) -∗
  wp d (session_step session ready active f slots) Φ Ψ.
Proof.
  iIntros (-> Hr Hsl) "? K". unfold session_step. do 3 vk_step.
  iApply wp_assert; [rewrite bool_decide_true //|]. rewrite Hsl. vk_steps. by iApply "K".
Qed.

Ltac vk_slots :=
  first [done | match goal with H : slots_held _ _ = true |- _ => rewrite H; reflexivity end].

Ltac vk_session :=
  lazymatch goal with
  | |- environments.envs_entails _ (wp (E:=?E) ?d (session_step ?s _ _ _ _) _ _) =>
      iSelect (points_to s _ _) (fun H =>
        iApply (wp_session_step (E:=E) d s with H); [done|done|vk_slots|]; iIntros H)
  end; cbn [fst snd orb app]; vk_simpl.

Ltac vk_video := repeat first [vk_step | vk_each | vk_session | vk_call].

Ltac vk_exec_video := unfold exec_all; cbn [exec_from exec loosened ib_image ib_old ib_new fst snd app option_list list_fmap fmap viewed_all];
  unfold viewed, query_step, bound_memory, set_image, set_bytes.

(** ** Helpers of [new] *)

Section New.
Context (d : driver) `{!DriverLaws d, !WaitsEnd d}.

Lemma wp_at_step {A} s (m : vk vk_error A) Φ Ψ :
  wp d m Φ (fun _ => Ψ (step_error s)) ⊢ wp d (at_step s m) Φ Ψ.
Proof. apply wp_map_err. Qed.

Lemma wp_record_all {E} c cs0 cs Φ (Ψ : E -> oprop) :
  c ↦ CommandBuffer (Recording cs0) -∗
  (c ↦ CommandBuffer (Recording (cs0 ++ cs)) -∗ Φ tt) -∗ wp d (record_all c cs) Φ Ψ.
Proof.
  revert cs0. induction cs as [|cmd cs IH]; intros cs0; cbn [record_all]; iIntros "Hc K".
  - vk_step. rewrite app_nil_r. by iApply "K".
  - vk_run. iApply (IH with "[$]"). iIntros "Hc". rewrite -app_assoc. by iApply "K".
Qed.

(** The commands run on what is there, and leave [Q] when what they used is given back. *)
Definition gpu_runs (cs : list vk_cmd) (Q : oprop) : oprop :=
  (wp d (exec_all (E:=vk_error) cs) (fun used => wp d (each (E:=vk_error) use used) (fun _ =>
    wp d (each (E:=vk_error) unuse used) (fun _ => Q) (fun _ => False)) (fun _ => False)) (fun _ => False))%I.

Lemma gpu_runs_mono cs Q Q' : (Q ⊢ Q') -> gpu_runs cs Q ⊢ gpu_runs cs Q'.
Proof.
  intros H. unfold gpu_runs. apply wp_mono; [|done]. intros used. apply wp_mono; [|done].
  intros _. by apply wp_mono.
Qed.

Lemma wp_one_shot pool ps cs Φ Ψ :
  pool ↦ CommandPool ps -∗
  gpu_runs cs ((pool ↦ CommandPool ps -∗ Φ tt) ∧ (∀ e, True -∗ Ψ e)) ∧ (∀ e, True -∗ Ψ e) -∗
  wp d (one_shot pool cs) Φ Ψ.
Proof.
  iIntros "Hp H". unfold one_shot. vk_step. iApply wp_at_step.
  iApply (wp_allocate_command_buffer with "Hp"). iSplit; [|iIntros (e) "Hp"; iDestruct "H" as "[_ H]"; by iApply "H"].
  iIntros (c) "Hp Hc". vk_step. iApply wp_at_step. iApply (wp_begin_command_buffer with "Hc"); [done|].
  iSplit; [|iIntros (e) "Hc"; iDestruct "H" as "[_ H]"; by iApply "H"].
  iIntros "Hc". vk_step. iApply (wp_record_all with "Hc"). iIntros "Hc". vk_step. iApply wp_at_step.
  iApply (wp_end_command_buffer with "Hc"). iSplit; [|iIntros (e) "Hc"; iDestruct "H" as "[_ H]"; by iApply "H"].
  iIntros "Hc". vk_step. iApply wp_at_step. iApply wp_create.
  iSplit; [|iIntros (e); iDestruct "H" as "[_ H]"; by iApply "H"].
  iIntros (f) "Hf". vk_step. iApply wp_at_step. iApply (wp_queue_submit with "Hc Hf").
  iSplit; [|iIntros (e) "Hc Hf"; iDestruct "H" as "[_ H]"; by iApply "H"].
  iDestruct "H" as "[H _]". unfold gpu_runs. cbn [app]. iApply (wp_wand with "H").
  iSplit; [|by iIntros (e) "[]"]. iIntros (used) "H". iApply (wp_wand with "H").
  iSplit; [|by iIntros (e) "[]"]. iIntros ([]) "H Hc Hf". vk_step. iApply wp_at_step.
  iApply (wp_wait_for_fence with "Hc Hf"). iApply (wp_wand with "H"). iSplit; [|by iIntros (e) "[]"].
  iIntros ([]) "H Hc Hf". iSplit.
  - vk_run. iApply (wp_free_command_buffer with "Hp Hc"); [done|]. iDestruct "H" as "[$ _]".
  - iDestruct "H" as "[_ H]". by iApply "H".
Qed.

Lemma wp_session_memories reqs Φ Ψ : Forall (fun r : Z * mem_req => 0 < mr_size r.2) reqs ->
  (∀ ms bs (_ : Forall (fun b => is_memory b = true) bs), those ms 0 bs -∗ Φ ms) ∧ (∀ e, True -∗ Ψ e) -∗
  wp d (session_memories (d_types d) reqs) Φ Ψ.
Proof.
  intros Hr. revert Φ. induction Hr as [|req reqs Hq Hr IH]; intros Φ; cbn [session_memories]; iIntros "H".
  - vk_step. iDestruct "H" as "[H _]". iApply ("H" $! [] [] (List.Forall_nil _)). by unfold those.
  - vk_step. unfold session_memory. destruct (find_memory_type _ _ _) as [i|] eqn:Ei.
    2: { vk_step. iDestruct "H" as "[_ H]". by iApply "H". }
    apply find_memory_type_spec in Ei as (flags & Hi & Hf & _). iApply wp_at_step.
    iApply (wp_allocate_memory _ _ _ flags); [done|done|].
    iSplit; [|iIntros (e); iDestruct "H" as "[_ H]"; by iApply "H"].
    iIntros (m) "Hm". vk_step. iApply IH. iSplit; [|iIntros (e) "T"; iDestruct "H" as "[_ H]"; by iApply "H"].
    iIntros (ms bs Hbs) "Hms". vk_step. iDestruct "H" as "[H _]".
    assert (Hbs' : Forall (fun b => is_memory b = true) (Memory (mr_size req.2) flags false [] :: bs))
      by (by constructor).
    iApply ("H" $! (m :: ms) _ Hbs').
    unfold those. rewrite big_sepL2_cons. iFrame.
Qed.

Lemma wp_bind_session_memory session Φ Ψ :
  session ↦ VideoSession None false false ∅ -∗
  (∀ ms bs (_ : Forall (fun b => is_memory b = true) bs),
     session ↦ VideoSession (Some ms) false false ∅ -∗ those ms 0 bs -∗ Φ ms) ∧ (∀ e, True -∗ Ψ e) -∗
  wp d (bind_session_memory session) Φ Ψ.
Proof.
  iIntros "Hs H". unfold bind_session_memory, session_requirements. vk_step. iApply wp_at_step. vk_step.
  iApply wp_ask. iSplit; [|iIntros (e); iDestruct "H" as "[_ H]"; by iApply "H"]. do 3 vk_step.
  iApply wp_ask. iSplit; [|iIntros (e); iDestruct "H" as "[_ H]"; by iApply "H"]. do 4 vk_step.
  iApply wp_session_memories; [apply session_req_size|].
  iSplit; [|iIntros (e) "T"; iDestruct "H" as "[_ H]"; by iApply "H"].
  iIntros (ms bs Hbs) "Hms". vk_step. iApply wp_at_step. unfold bind_video_session_memory. vk_step. vk_call.
  vk_step. iApply wp_ask. iSplit; [|iIntros (e); iDestruct "H" as "[_ H]"; by iApply "H"].
  vk_run. iDestruct "H" as "[H _]". iApply ("H" $! ms bs Hbs with "[$] [$]").
Qed.

(** A slot's image, its memory and its view. *)
Definition slot_obj (w h : Z) (l : layout) (s : DpbSlot) : oprop :=
  (∃ st px msize fl bs, ds_image s ↦ Image st w h [VideoEncodeDpb] l px (Some (ds_memory s)) ∗
     ds_memory s ↦ Memory msize fl false bs ∗ ds_view s ↦ ImageView (ds_image s) st)%I.

Lemma wp_create_view image n st w h us l px m Φ Ψ :
  image ↦{n} Image st w h us l px (Some m) -∗
  (∀ v, image ↦{n} Image st w h us l px (Some m) -∗ v ↦ ImageView image st -∗ Φ v) ∧
  (∀ e, image ↦{n} Image st w h us l px (Some m) -∗ Ψ e) -∗
  wp d (create_image_view image) Φ Ψ.
Proof.
  iIntros "Hi H". unfold create_image_view, create_view. do 2 vk_step. iApply wp_create. iSplit.
  - iIntros (v) "Hv". iDestruct "H" as "[H _]". iApply ("H" with "[$] [$]").
  - iIntros (e). iDestruct "H" as "[_ H]". iApply ("H" with "[$]").
Qed.

Lemma wp_create_dpb_slot w h Φ Ψ : 0 < w <= d_max_dimension d -> 0 < h <= d_max_dimension d ->
  (∀ s, slot_obj w h Undefined s -∗ Φ s) ∧ (∀ e, True -∗ Ψ e) -∗ wp d (create_dpb_slot w h) Φ Ψ.
Proof.
  iIntros (Hw Hh) "H". unfold create_dpb_slot. vk_step. iApply wp_at_step.
  iApply wp_create_image_raw; [done|done|]. iSplit; [|iIntros (e); iDestruct "H" as "[_ H]"; by iApply "H"].
  iIntros (i st) "Hi". do 4 vk_step. destruct (find_memory_type _ _ _) as [t|] eqn:Et.
  2: { vk_step. iDestruct "H" as "[_ H]". by iApply "H". }
  apply find_memory_type_spec in Et as (flags & Ht & Hf & _). vk_step. iApply wp_at_step.
  iApply (wp_allocate_memory _ _ _ flags); [done|apply image_req_size|].
  iSplit; [|iIntros (e); iDestruct "H" as "[_ H]"; by iApply "H"].
  iIntros (m) "Hm". vk_step. iApply wp_at_step. iApply (wp_bind_memory with "Hi Hm"); [done|].
  iSplit; [|iIntros (e) "Hi Hm"; iDestruct "H" as "[_ H]"; by iApply "H"].
  iIntros "Hi Hm". vk_step. iApply wp_at_step. iApply (wp_create_view with "Hi").
  iSplit; [|iIntros (e) "Hi"; iDestruct "H" as "[_ H]"; by iApply "H"].
  iIntros (v) "Hi Hv". vk_step. iDestruct "H" as "[H _]". iApply "H". iExists st, [], _, flags, [].
  cbn [ds_image ds_memory ds_view]. iFrame.
Qed.

Lemma wp_create_dpb_pool w h Φ Ψ : 0 < w <= d_max_dimension d -> 0 < h <= d_max_dimension d ->
  (∀ s0 s1, slot_obj w h Undefined s0 -∗ slot_obj w h Undefined s1 -∗ Φ [s0; s1]) ∧ (∀ e, True -∗ Ψ e) -∗
  wp d (create_dpb_pool w h) Φ Ψ.
Proof.
  iIntros (Hw Hh) "H". unfold create_dpb_pool. change (Z.to_nat DPB_SLOTS) with 2%nat. cbn [create_dpb_slots].
  vk_step. iApply wp_create_dpb_slot; [done|done|].
  iSplit; [|iIntros (e) "T"; iDestruct "H" as "[_ H]"; by iApply "H"]. iIntros (s0) "Hs0". do 2 vk_step.
  iApply wp_create_dpb_slot; [done|done|].
  iSplit; [|iIntros (e) "T"; iDestruct "H" as "[_ H]"; by iApply "H"]. iIntros (s1) "Hs1". vk_run.
  iDestruct "H" as "[H _]". iApply ("H" with "Hs0 Hs1").
Qed.

Lemma wp_create_output_buffer size Φ Ψ : 0 < size ->
  (∀ b m msize flags (_ : size <= msize /\ has_flags flags HOST = true),
    b ↦ Buffer size [VideoEncodeDst] (Some m) -∗ m ↦ Memory msize flags false [] -∗ Φ (b, m)) ∧
  (∀ e, True -∗ Ψ e) -∗ wp d (create_output_buffer size) Φ Ψ.
Proof.
  iIntros (Hs) "H". unfold create_output_buffer. vk_step. iApply wp_at_step.
  iApply wp_create_buffer_raw; [done|]. iSplit; [|iIntros (e); iDestruct "H" as "[_ H]"; by iApply "H"].
  iIntros (b) "Hb". do 4 vk_step. pose proof (buffer_req_size n size) as Hn.
  destruct (find_memory_type _ _ _) as [t|] eqn:Et.
  2: { vk_step. iDestruct "H" as "[_ H]". by iApply "H". }
  apply find_memory_type_spec in Et as (flags & Ht & Hf & _). vk_step. iApply wp_at_step.
  iApply (wp_allocate_memory _ _ _ flags); [done|lia|].
  iSplit; [|iIntros (e); iDestruct "H" as "[_ H]"; by iApply "H"].
  iIntros (m) "Hm". vk_step. iApply wp_at_step. iApply (wp_bind_memory with "Hb Hm"); [done|].
  iSplit; [|iIntros (e) "Hi Hm"; iDestruct "H" as "[_ H]"; by iApply "H"].
  iIntros "Hb Hm". vk_step. iDestruct "H" as "[H _]". iApply ("H" $! b m _ flags (conj Hn Hf) with "Hb Hm").
Qed.

Lemma transition_runs w h s0 s1 K :
  slot_obj w h Undefined s0 -∗ slot_obj w h Undefined s1 -∗
  (slot_obj w h EncodeDpb s0 -∗ slot_obj w h EncodeDpb s1 -∗ K) -∗
  gpu_runs ((fun s => cmd_transition (ds_image s) EncodeDpb) <$> [s0; s1]) K.
Proof.
  iIntros "(%st0 & %px0 & %ms0 & %f0 & %b0 & ? & ? & ?) (%st1 & %px1 & %ms1 & %f1 & %b1 & ? & ? & ?) K".
  unfold gpu_runs, cmd_transition. vk_exec_video. vk_video. unfold slot_obj. iApply ("K" with "[$] [$]").
Qed.

Lemma rate_control_runs session params ms bs K :
  session ↦ VideoSession (Some ms) false false ∅ -∗ those ms 0 bs -∗ params ↦ SessionParameters session -∗
  (session ↦ VideoSession (Some ms) true false ∅ -∗ those ms 0 bs -∗ params ↦ SessionParameters session -∗ K) -∗
  gpu_runs [BeginVideoCoding session params []; ControlVideoCoding session; EndVideoCoding session] K.
Proof.
  iIntros "? ? ? K". unfold gpu_runs. vk_exec_video. vk_video.
  iApply ("K" with "[$] [$] [$]").
Qed.
End New.

(** ** What an encoder owns *)

(** The states its objects are in between the calls. *)
Record estate := mkEstate {
  es_memory : list body; es_slots : gmap Z Z; es_query : query_state; es_cmd : cmd_state;
  es_fence : fence_state; es_out_size : Z; es_out_flags : Z; es_out_bytes : list Z }.

Definition fence_idle (st : fence_state) : bool := match st with InFlight _ => false | _ => true end.

Section Owned.
Context {Info Pic X : Type} `{Hb : Backend Info Pic X}.

(** Nothing is pending and no query runs, the output buffer has memory the host reads, and
    the slot of the last frame holds its view. *)
Definition estate_ok (e : Enc X) (s : estate) : Prop :=
  enc_ok e /\
  Forall (fun b => is_memory b = true) (es_memory s) /\ is_query_active (es_query s) = false /\
  not_pending (es_cmd s) = true /\ fence_idle (es_fence s) = true /\
  OUTPUT_BUFFER_BYTES <= es_out_size s /\ has_flags (es_out_flags s) HOST = true /\
  forall n v, e_prior_ref_slot e = Some n -> get (e_dpb e) n = Some v -> es_slots s !! n = Some (ds_view v).

(** The view of an input image, which is the one with this stamp. *)
Definition input_views_of (stamps : Z -> nat) (views : gmap Z Z) : oprop :=
  ([∗ map] image ↦ v ∈ views, v ↦ ImageView image (stamps image))%I.

Definition enc_res (stamps : Z -> nat) (o : EncObjects) (e : Enc X) (s : estate) : oprop :=
  (eo_session o ↦ VideoSession (Some (eo_session_memory o)) true false (es_slots s) ∗
   those (eo_session_memory o) 0 (es_memory s) ∗
   eo_session_params o ↦ SessionParameters (eo_session o) ∗
   ([∗ list] x ∈ e_dpb e, slot_obj (ep_width (e_params e)) (ep_height (e_params e)) EncodeDpb x) ∗
   eo_out_buffer o ↦ Buffer OUTPUT_BUFFER_BYTES [VideoEncodeDst] (Some (eo_out_buffer_memory o)) ∗
   eo_out_buffer_memory o ↦ Memory (es_out_size s) (es_out_flags s) false (es_out_bytes s) ∗
   eo_query_pool o ↦ QueryPool (es_query s) ∗
   eo_encode_cmd_pool o ↦ CommandPool [eo_encode_cmd o] ∗
   eo_encode_cmd o ↦ CommandBuffer (es_cmd s) ∗
   eo_encode_fence o ↦ Fence (es_fence s) ∗
   input_views_of stamps (e_input_views e))%I.

Definition owned (stamps : Z -> nat) (o : EncObjects) (e : Enc X) : oprop :=
  (∃ s (_ : estate_ok e s), enc_res stamps o e s)%I.

Context (d : driver) `{!DriverLaws d, !WaitsEnd d}.

(** ** [new] *)

Lemma wp_probe_and_check c p Φ Ψ : 0 <= ep_width p -> 0 <= ep_height p ->
  (∀ (_ : 0 < ep_width p <= d_max_dimension d /\ 0 < ep_height p <= d_max_dimension d), Φ tt) ∧
  (∀ e, Ψ e) -∗ wp d (probe_and_check c p) Φ Ψ.
Proof.
  iIntros (Hw Hh) "H". unfold probe_and_check. destruct (negb _).
  { vk_step. iDestruct "H" as "[_ H]"; iApply "H". }
  unfold fetch_caps. do 4 vk_step. iApply wp_ask. iSplit; [|iIntros (e); iDestruct "H" as "[_ H]"; iApply "H"].
  unfold extension_names. vk_steps. set (caps := mkCaps _ _ _ _ _ _ _ _ _).
  destruct (new_checks _ p) as [[]|x] eqn:E; [|vk_step; iDestruct "H" as "[_ H]"; iApply "H"]. vk_step.
  unfold new_checks in E. destruct (negb _) in E; [done|]. cbn [vx_caps] in E.
  destruct (validate_against p caps) as [[]|x] eqn:Ev; [|done].
  apply validate_accepts in Ev as (_ & Hw0 & Hh0 & Hwm & Hhm & _). cbn in Hwm, Hhm.
  destruct (coded_extent b_codec) as [Hc1 Hc2]. iDestruct "H" as "[H _]". iApply "H".
  iPureIntro. lia.
Qed.

(** The device has the slots that [new] asks for, which it does not look at. *)
Definition session_fits : Prop :=
  DPB_SLOTS <= vp_slots (d_caps d b_codec) /\ 1 <= vp_references (d_caps d b_codec).

Lemma wp_encoder_new c p stamps Φ Ψ : 0 <= ep_width p -> 0 <= ep_height p -> session_fits ->
  (∀ o sets dpb (_ : length dpb = 2%nat), owned stamps o (Enc_new p sets dpb) -∗ Φ (o, Enc_new p sets dpb)) ∧
  (∀ e, True -∗ Ψ e) -∗ wp d (encoder_new c p) Φ Ψ.
Proof.
  iIntros (Hw Hh [Hsl Href]) "H". unfold encoder_new. vk_step. iApply wp_probe_and_check; [done|done|].
  iSplit; [|iIntros (e); iDestruct "H" as "[_ H]"; by iApply "H"]. iIntros ([Hw' Hh']).
  vk_step. iApply wp_at_step. unfold create_video_session.
  do 3 vk_step.
  iApply wp_assert; [by rewrite andb_true_iff !Z.leb_le|].
  iApply wp_create. iSplit; [|iIntros (e); iDestruct "H" as "[_ H]"; by iApply "H"]. iIntros (session) "Hs". vk_step. iApply (wp_bind_session_memory with "Hs").
  iSplit; [|iIntros (e) "T"; iDestruct "H" as "[_ H]"; by iApply "H"]. iIntros (ms bs Hbs) "Hs Hms".
  vk_step. iApply wp_at_step. unfold create_video_session_parameters. do 2 vk_step. iApply wp_create.
  iSplit; [|iIntros (e); iDestruct "H" as "[_ H]"; by iApply "H"]. iIntros (params) "Hp".
  vk_step. unfold fetch_parameter_sets_blob. iApply wp_at_step. unfold encoded_parameter_sets. do 3 vk_step. iApply wp_ask.
  iSplit; [|iIntros (e); iDestruct "H" as "[_ H]"; by iApply "H"]. do 3 vk_step. iApply wp_ask.
  iSplit; [|iIntros (e); iDestruct "H" as "[_ H]"; by iApply "H"]. vk_step. vk_step.
  iApply wp_create_dpb_pool; [done|done|]. iSplit; [|iIntros (e) "T"; iDestruct "H" as "[_ H]"; by iApply "H"].
  iIntros (s0 s1) "Hs0 Hs1". vk_step. iApply wp_create_output_buffer; [done|].
  iSplit; [|iIntros (e) "T"; iDestruct "H" as "[_ H]"; by iApply "H"]. iIntros (b m msize flags [Hm Hf]) "Hb Hm".
  vk_step. unfold create_encode_query_pool. iApply wp_at_step. iApply wp_create.
  iSplit; [|iIntros (e); iDestruct "H" as "[_ H]"; by iApply "H"]. iIntros (q) "Hq". vk_step. iApply wp_at_step. iApply wp_create.
  iSplit; [|iIntros (e); iDestruct "H" as "[_ H]"; by iApply "H"]. iIntros (pool) "Hpool".
  vk_step. iApply wp_at_step. iApply (wp_allocate_command_buffer with "Hpool").
  iSplit; [|iIntros (e) "Hpool"; iDestruct "H" as "[_ H]"; by iApply "H"]. iIntros (cmd) "Hpool Hcmd".
  vk_step. iApply wp_at_step. iApply wp_create. iSplit; [|iIntros (e); iDestruct "H" as "[_ H]"; by iApply "H"].
  iIntros (f) "Hf". vk_step. iApply (wp_one_shot with "Hpool").
  iSplit; [|iIntros (e) "T"; iDestruct "H" as "[_ H]"; by iApply "H"].
  iApply (transition_runs with "Hs0 Hs1"). iIntros "Hs0 Hs1".
  iSplit; [|iIntros (e) "T"; iDestruct "H" as "[_ H]"; by iApply "H"]. iIntros "Hpool".
  vk_step. iApply (wp_one_shot with "Hpool"). iSplit; [|iIntros (e) "T"; iDestruct "H" as "[_ H]"; by iApply "H"].
  iApply (rate_control_runs with "Hs Hms Hp"). iIntros "Hs Hms Hp".
  iSplit; [|iIntros (e) "T"; iDestruct "H" as "[_ H]"; by iApply "H"]. iIntros "Hpool". vk_step.
  iDestruct "H" as "[H _]". iApply "H"; [done|]. unfold owned.
  iExists (mkEstate bs ∅ QueryUnknown Initial Unsignaled msize flags []).
  assert (Hok : estate_ok (Enc_new p (b_sets (d_parameter_sets d n)) [s0; s1])
    (mkEstate bs ∅ QueryUnknown Initial Unsignaled msize flags [])) by (by split_and!).
  iExists Hok. unfold enc_res, input_views_of. cbn. rewrite big_sepM_empty. iFrame.
Qed.
End Owned.
