(* ===== verification/EncoderCalls.v ===== *)
(** One call of [encode] over the objects (EncoderObjects.v), and [drop]: the commands the
    device is given are valid, the result is that of [encode] in Encoder.v for some run
    of the device, and [drop] leaves nothing. *)

From stdpp Require Import gmap strings.
From iris.proofmode Require Import proofmode.
From S2P Require Import Prelude Encoder EncoderRun Codecs Vulkan VulkanLogic VulkanContext VulkanSafety.
From S2P Require Import EncoderObjects EncoderSafety.

#[local] Open Scope Z_scope.

Section Calls.
Context {Info Pic X : Type} `{Hb : Backend Info Pic X}.
Context (d : driver) `{!DriverLaws d, !WaitsEnd d}.

(** ** [encode]: what the device runs *)

(** An image the caller gives, ready to be coded, and its memory. *)
Record input := mkInput {
  in_width : Z; in_height : Z; in_usage : list image_usage; in_pixels : list Z; in_memory : Z;
  in_memory_size : Z; in_memory_flags : Z; in_memory_bytes : list Z }.

Definition input_obj (stamps : Z -> nat) (image : Z) (i : input) : oprop :=
  (image ↦ Image (stamps image) (in_width i) (in_height i) (in_usage i) EncodeSrc (in_pixels i)
     (Some (in_memory i)) ∗
   in_memory i ↦ Memory (in_memory_size i) (in_memory_flags i) false (in_memory_bytes i))%I.

Definition encode_commands (o : EncObjects) (setup : Z) (sv : Z) (reference : option (Z * Z)) (view : Z)
    : list vk_cmd :=
  [ResetQueryPool (eo_query_pool o);
   BeginVideoCoding (eo_session o) (eo_session_params o) ((-1, sv) :: option_list reference);
   BeginQuery (eo_query_pool o);
   EncodeVideo (eo_session o) (eo_out_buffer o) OUTPUT_BUFFER_BYTES view (setup, sv) reference;
   EndQuery (eo_query_pool o);
   EndVideoCoding (eo_session o)].

Lemma wp_query_step {E} q n from st to Φ (Ψ : E -> oprop) : from st = true ->
  q ↦{n} QueryPool st -∗ (q ↦{n} QueryPool to -∗ Φ [q]) -∗ wp d (query_step q from to) Φ Ψ.
Proof.
  iIntros (Hst) "? K". unfold query_step. do 3 vk_step. iApply wp_assert; [done|]. vk_steps. by iApply "K".
Qed.

(** The slot that is read, when one is: it holds the view it is named with. *)
Definition reference_ok (reference : option Z) (other : DpbSlot) (slots : gmap Z Z) : Prop :=
  match reference with Some n => slots !! n = Some (ds_view other) | None => True end.

Lemma slots_held_reference (reference : option Z) other slots sv :
  reference_ok reference other slots ->
  slots_held ((-1, sv) :: option_list ((fun n => (n, ds_view other)) <$> reference)) slots = true /\
  slots_held (option_list ((fun n => (n, ds_view other)) <$> reference)) slots = true.
Proof.
  unfold slots_held, reference_ok. destruct reference as [n|]; cbn; [|done].
  intros ->. rewrite bool_decide_true // orb_true_r. done.
Qed.

Ltac vk_query :=
  lazymatch goal with
  | |- environments.envs_entails _ (wp (E:=?E) ?d (query_step ?q _ _) _ _) =>
      iSelect (points_to q _ _) (fun H => iApply (wp_query_step (E:=E) q with H); [first [done|eassumption]|]; iIntros H)
  end; vk_simpl.

Ltac vk_encode := repeat first [vk_step | vk_each | vk_session | vk_query | vk_call].

Lemma encode_runs stamps o setup sn other reference view image i ms bs slots qst osize ofl obytes w h K :
  reference_ok reference other slots -> is_query_active qst = false ->
  eo_session o ↦ VideoSession (Some ms) true false slots -∗ those ms 0 bs -∗
  eo_session_params o ↦ SessionParameters (eo_session o) -∗
  slot_obj w h EncodeDpb setup -∗ slot_obj w h EncodeDpb other -∗
  eo_out_buffer o ↦ Buffer OUTPUT_BUFFER_BYTES [VideoEncodeDst] (Some (eo_out_buffer_memory o)) -∗
  eo_out_buffer_memory o ↦ Memory osize ofl false obytes -∗
  eo_query_pool o ↦ QueryPool qst -∗ view ↦ ImageView image (stamps image) -∗ input_obj stamps image i -∗
  (∀ obytes written (_ : 0 < written),
    eo_session o ↦ VideoSession (Some ms) true false (<[sn := ds_view setup]> slots) -∗ those ms 0 bs -∗
    eo_session_params o ↦ SessionParameters (eo_session o) -∗
    slot_obj w h EncodeDpb setup -∗ slot_obj w h EncodeDpb other -∗
    eo_out_buffer o ↦ Buffer OUTPUT_BUFFER_BYTES [VideoEncodeDst] (Some (eo_out_buffer_memory o)) -∗
    eo_out_buffer_memory o ↦ Memory osize ofl false obytes -∗
    eo_query_pool o ↦ QueryPool (QueryDone written) -∗ view ↦ ImageView image (stamps image) -∗
    input_obj stamps image i -∗ K) -∗
  gpu_runs d (encode_commands o sn (ds_view setup) ((fun n => (n, ds_view other)) <$> reference) view) K.
Proof.
  intros Hr Hq. destruct (slots_held_reference reference other slots (ds_view setup) Hr) as [Hh1 Hh2].
  iIntros "? ? ? (%st0 & %px0 & %ms0 & %f0 & %b0 & ? & ? & ?) (%st1 & %px1 & %ms1 & %f1 & %b1 & ? & ? & ?) ? ? ? ? [? ?] K".
  assert (Hq' : negb (is_query_active qst) = true) by (by rewrite Hq).
  unfold gpu_runs, encode_commands, input_obj, slot_obj.
  destruct reference as [n|]; cbn [fmap option_fmap option_map] in *; vk_exec_video; unfold option_list in *;
    cbn [option_rect list_fmap fmap viewed_all snd] in *; unfold viewed.
  - vk_encode. iApply ("K" $! _ _ (bytes_written _) with "[$] [$] [$] [$] [$] [$] [$] [$] [$] [$]").
  - vk_encode. iApply ("K" $! _ _ (bytes_written _) with "[$] [$] [$] [$] [$] [$] [$] [$] [$] [$]").
Qed.
End Calls.
