(* ===== verification/EncoderSteps.v ===== *)
(** The steps of a hardware encoder over its objects: each call of [encode] does what
    Encoder.v says of some run of the device and leaves the encoder whole, whatever fails;
    [drop] frees all it owns. *)

From stdpp Require Import gmap strings.
From iris.proofmode Require Import proofmode.
From S2P Require Import Prelude Encoder EncoderRun Codecs Vulkan VulkanLogic VulkanContext VulkanSafety.
From S2P Require Import EncoderObjects EncoderSafety EncoderCalls.

#[local] Open Scope Z_scope.

Section Model.
Context {Info Pic X : Type} `{Hb : Backend Info Pic X}.

(** ** The run of the device that [encode] of Encoder.v is given *)

(** The call that fails, if one does. *)
Definition failing (s : option gpu_step) (v w : Z) (b : list Z) : gpu_run :=
  mkGpuRun (fun t => bool_decide (s = Some t)) v w b.

(** The encoder once the input has its view. *)
Definition viewed_enc (e : Enc X) (image v : Z) : Enc X :=
  match e_input_views e !! image with Some _ => e | None => with_view e image v end.

Definition view_of (e : Enc X) (image v : Z) : Z := default v (e_input_views e !! image).

(** The two slots of an attempt: the one it writes, and the other, which it reads when it
    reads one. *)
Definition slots_of (e : Enc X) (idr : bool) (setup other : DpbSlot) : Prop :=
  get (e_dpb e) (setup_slot e) = Some setup /\
  forall prev, ref_slot e idr = Some prev -> get (e_dpb e) prev = Some other.

Definition frame_result (e : Enc X) (frame : InputFrame) (data : list Z) : EncodedFrame :=
  mkEncodedFrame (b_framed data) (if is_idr e then Idr else P) (if_pts_90khz frame)
    (if is_idr e then Some (e_parameter_sets e) else None).

(** What [encode] is, by the first call that fails. *)
Definition encode_result (e : Enc X) (frame : InputFrame) (g : gpu_run)
    : Enc X * (EncodedFrame + EncodeError) :=
  let e1 := set_force e false in
  let e2 := viewed_enc e1 (if_image frame) (g_view g) in
  let err := fun s => inr (step_error s) in
  if g_fails g ResetCommandPool then (e1, err ResetCommandPool)
  else if g_fails g BeginCommandBuffer then (e1, err BeginCommandBuffer)
  else if bool_decide (e_input_views e !! if_image frame = None) && g_fails g CreateImageView
  then (e1, err CreateImageView)
  else if g_fails g EndCommandBuffer then (e2, err EndCommandBuffer)
  else if g_fails g ResetFences then (e2, err ResetFences)
  else if g_fails g QueueSubmit then (e2, err QueueSubmit)
  else if g_fails g WaitForFences then (e2, err WaitForFences)
  else if g_fails g GetQueryPoolResults then (e2, err GetQueryPoolResults)
  else if g_fails g MapMemory then (e2, err MapMemory)
  else (finished e2 (setup_slot e),
        inl (frame_result e frame
          (take (Z.to_nat (Z.min (g_bytes_written g) OUTPUT_BUFFER_BYTES)) (g_buffer g)))).

Lemma encode_result_eq (e : Enc X) frame g setup other :
  if_width frame = ep_width (e_params e) -> if_height frame = ep_height (e_params e) ->
  slots_of e (is_idr e) setup other ->
  exists ops, Encoder.encode e frame g =
    Some ((encode_result e frame g).1, ops, (encode_result e frame g).2).
Proof.
  intros Hw Hh [Hs Hr]. unfold Encoder.encode, encode_m, encode_result, frame_result. rewrite !bind_eq. cbn [get_enc].
  rewrite Hw Hh !Z.eqb_refl. cbn [negb orb]. rewrite bind_eq. cbn [put_enc]. rewrite bind_eq.
  assert (Href : exists reference, reference_slot (Info:=Info) (Pic:=Pic) e (is_idr e) (set_force e false) =
      Some (set_force e false, [], inl reference)).
  { unfold reference_slot. destruct (ref_slot e (is_idr e)) as [prev|]; [|by eexists]. rewrite bind_eq.
    unfold index_slot. cbn [e_dpb set_force]. rewrite (Hr prev eq_refl). by eexists. }
  destruct Href as [reference Href]. 
  unfold run_op. rewrite bind_eq. unfold index_slot at 1. cbn [e_dpb set_force]. rewrite Hs.
  cbn [mbind option_bind]. rewrite bind_eq Href. rewrite bind_eq vk_call_eq.
  destruct (g_fails g ResetCommandPool); [by eexists|]. rewrite bind_eq vk_call_eq.
  destruct (g_fails g BeginCommandBuffer); [by eexists|]. rewrite bind_eq.
  assert (Hv : input_view (Info:=Info) (Pic:=Pic) g (if_image frame) (set_force e false) =
    if bool_decide (e_input_views e !! if_image frame = None) && g_fails g CreateImageView
    then Some (set_force e false, [], inr (step_error CreateImageView))
    else Some (viewed_enc (set_force e false) (if_image frame) (g_view g), [],
      inl (view_of e (if_image frame) (g_view g)))).
  { unfold input_view, viewed_enc, view_of. rewrite bind_eq. cbn [get_enc]. cbn [e_input_views set_force].
    destruct (e_input_views e !! if_image frame) as [v|]; [done|]. rewrite bind_eq vk_call_eq.
    by destruct (g_fails g CreateImageView). }
  rewrite Hv. destruct (bool_decide _ && g_fails g CreateImageView); [by eexists|].
  set (e2 := viewed_enc _ _ _). rewrite bind_eq vk_call_eq.
  destruct (g_fails g EndCommandBuffer); [by eexists|]. rewrite bind_eq vk_call_eq.
  destruct (g_fails g ResetFences); [by eexists|]. rewrite bind_eq vk_call_eq.
  destruct (g_fails g QueueSubmit); [by eexists|]. rewrite bind_eq. cbn [submit]. rewrite vk_call_eq.
  destruct (g_fails g WaitForFences); [by eexists|]. rewrite bind_eq. unfold read_bitstream.
  rewrite bind_eq vk_call_eq. destruct (g_fails g GetQueryPoolResults); [by eexists|]. rewrite bind_eq vk_call_eq.
  destruct (g_fails g MapMemory); [by eexists|]. by eexists.
Qed.

(** Some run of the device makes [encode] of Encoder.v end like this. *)
Definition outcome (e : Enc X) (frame : InputFrame) (e' : Enc X) (r : EncodedFrame + EncodeError) : Prop :=
  exists g ops, Encoder.encode e frame g = Some (e', ops, r).

Lemma outcome_of g (e : Enc X) frame setup other :
  if_width frame = ep_width (e_params e) -> if_height frame = ep_height (e_params e) ->
  slots_of e (is_idr e) setup other ->
  outcome e frame (encode_result e frame g).1 (encode_result e frame g).2.
Proof.
  intros Hw Hh Hs. destruct (encode_result_eq e frame g setup other Hw Hh Hs) as [ops E].
  by exists g, ops.
Qed.

Lemma outcome_size (e : Enc X) frame :
  negb (if_width frame =? ep_width (e_params e)) || negb (if_height frame =? ep_height (e_params e)) = true ->
  outcome e frame e (inr (InvalidParams InputFrameSize)).
Proof.
  intros H. exists (failing None 0 0 []), []. unfold Encoder.encode, encode_m. rewrite bind_eq. cbn [get_enc].
  by rewrite H.
Qed.

(** ** The states of the objects are good for the encoder an attempt leaves *)

Lemma estate_ok_same (e e' : Enc X) s :
  e_dpb e' = e_dpb e -> e_prior_ref_slot e' = e_prior_ref_slot e -> e_frame_index e' = e_frame_index e ->
  estate_ok e s -> estate_ok e' s.
Proof. unfold estate_ok, enc_ok. intros -> -> ->. done. Qed.

Lemma estate_ok_viewed (e : Enc X) b image v s :
  estate_ok e s -> estate_ok (viewed_enc (set_force e b) image v) s.
Proof.
  apply estate_ok_same; unfold viewed_enc; by destruct (_ !! _).
Qed.

Lemma dpb_split (e : Enc X) : enc_ok e -> exists setup other,
  slots_of e (is_idr e) setup other /\
  (e_dpb e = [setup; other] \/ e_dpb e = [other; setup]) /\
  (forall n v, e_prior_ref_slot e = Some n -> get (e_dpb e) n = Some v -> v = other /\ n <> setup_slot e).
Proof.
  intros He. pose proof (setup_slot_cases e He) as Hs. unfold slots_of. rewrite Hs. destruct He as [Hd Hp].
  destruct (e_dpb e) as [|s0 [|s1 [|]]]; try done.
  assert (Href : forall prev, ref_slot e (is_idr e) = Some prev -> e_prior_ref_slot e = Some prev).
  { unfold ref_slot. by destruct (is_idr e). }
  destruct (e_prior_ref_slot e) as [n|] eqn:En; [destruct Hp as [-> | ->]|].
  - exists s1, s0. split_and!; [done|by intros ? [= <-]%Href|by right|]. by intros ? ? [= <-] [= <-].
  - exists s0, s1. split_and!; [done|by intros ? [= <-]%Href|by left|]. by intros ? ? [= <-] [= <-].
  - exists s0, s1. split_and!; [done|by intros ? ?%Href|by left|done].
Qed.
End Model.

(** ** The calls of [encode] that EncoderCalls.v leaves *)

Section Encode.
Context {Info Pic X : Type} `{Hb : Backend Info Pic X}.
Context (d : driver) `{!DriverLaws d, !WaitsEnd d}.

Lemma wp_or_fail {A} (e : Enc X) s (m : vk vk_error A) Φ Ψ :
  wp d m Φ (fun _ => Ψ (e, step_error s)) ⊢ wp d (or_fail e s m) Φ Ψ.
Proof. apply wp_map_err. Qed.

Lemma wp_dpb_slot (e : Enc X) n s Φ Ψ : get (e_dpb e) n = Some s -> Φ s ⊢ wp d (dpb_slot e n) Φ Ψ.
Proof. unfold dpb_slot. intros ->. apply wp_ret. Qed.

Lemma wp_reset_command_pool pool c st Φ Ψ : not_pending st = true ->
  pool ↦ CommandPool [c] -∗ c ↦ CommandBuffer st -∗
  (pool ↦ CommandPool [c] -∗ c ↦ CommandBuffer Initial -∗ Φ tt) ∧
  (∀ e, pool ↦ CommandPool [c] -∗ c ↦ CommandBuffer st -∗ Ψ e) -∗
  wp d (reset_command_pool pool) Φ Ψ.
Proof.
  iIntros (Hst) "Hp Hc H". unfold reset_command_pool. vk_step. iApply (wp_idle with "Hp"). iIntros "Hp".
  vk_simpl. vk_step. iApply wp_ask. iSplit.
  - cbn [each]. unfold reset_command_buffer. do 2 vk_step. iApply (wp_idle with "Hc"). iIntros "Hc". vk_simpl.
    vk_step. iApply wp_assert; [done|]. vk_run. iDestruct "H" as "[H _]". iApply ("H" with "[$] [$]").
  - iIntros (e). iDestruct "H" as "[_ H]". iApply ("H" with "Hp Hc").
Qed.

Lemma wp_reset_fence fence st Φ Ψ : fence_idle st = true ->
  fence ↦ Fence st -∗
  (fence ↦ Fence Unsignaled -∗ Φ tt) ∧ (∀ e, fence ↦ Fence st -∗ Ψ e) -∗
  wp d (reset_fence fence) Φ Ψ.
Proof.
  iIntros (Hst) "Hf H". unfold reset_fence. vk_step. iApply (wp_idle with "Hf"). iIntros "Hf".
  destruct st; [..|done]; vk_simpl; vk_step; iApply wp_ask;
    (iSplit; [iDestruct "H" as "[H _]"; vk_step; by iApply "H"|iDestruct "H" as "[_ H]"; iIntros (e); by iApply "H"]).
Qed.

Lemma wp_get_query_pool_results q n written Φ Ψ :
  q ↦{n} QueryPool (QueryDone written) -∗
  (q ↦{n} QueryPool (QueryDone written) -∗ Φ written) ∧
  (∀ e, q ↦{n} QueryPool (QueryDone written) -∗ Ψ e) -∗
  wp d (get_query_pool_results q) Φ Ψ.
Proof.
  iIntros "Hq H". unfold get_query_pool_results. do 2 vk_step. vk_step. iApply wp_ask. iSplit.
  - vk_step. iDestruct "H" as "[H _]". by iApply "H".
  - iIntros (e). iDestruct "H" as "[_ H]". by iApply "H".
Qed.

(** The view of the input, and how to put it back. *)
Lemma wp_cached_view stamps (e : Enc X) image i Φ Ψ :
  input_views_of stamps (e_input_views e) -∗ input_obj stamps image i -∗
  (∀ v, view_of e image v ↦ ImageView image (stamps image) -∗ input_obj stamps image i -∗
    (view_of e image v ↦ ImageView image (stamps image) -∗
      input_views_of stamps (e_input_views (viewed_enc e image v))) -∗
    Φ (viewed_enc e image v, view_of e image v)) ∧
  (∀ (_ : e_input_views e !! image = None), input_views_of stamps (e_input_views e) -∗
    input_obj stamps image i -∗ Ψ (e, step_error CreateImageView)) -∗
  wp d (cached_view e image) Φ Ψ.
Proof.
  iIntros "Hv Hi H". unfold cached_view, viewed_enc, view_of.
  destruct (e_input_views e !! image) as [v|] eqn:Ev.
  - vk_step. iDestruct "H" as "[H _]". unfold input_views_of.
    iDestruct (big_sepM_lookup_acc _ _ _ _ Ev with "Hv") as "[Hv Hback]".
    iApply ("H" $! 0 with "Hv Hi Hback").
  - vk_step. iApply wp_or_fail. unfold input_obj at 1. iDestruct "Hi" as "[Hi Hm]".
    iApply (wp_create_view with "Hi"). iSplit.
    + iIntros (v) "Hi Hn". vk_step. iDestruct "H" as "[H _]".
      iApply ("H" $! v with "Hn [Hi Hm]"); [iFrame|]. iIntros "Hn". unfold input_views_of. cbn [with_view e_input_views].
      rewrite big_sepM_insert //. iFrame.
    + iIntros (x) "Hi". iDestruct "H" as "[_ H]". iApply ("H" $! eq_refl with "Hv [Hi Hm]"). iFrame.
Qed.

(** The reference of an attempt. *)
Lemma wp_reference (e e1 : Enc X) idr setup other Φ Ψ : e_dpb e1 = e_dpb e -> slots_of e idr setup other ->
  Φ ((fun n => (n, ds_view other)) <$> ref_slot e idr) ⊢
  wp d (match ref_slot e idr with
        | Some prev => s ← dpb_slot e1 prev; mret (Some (prev, ds_view s))
        | None => mret None
        end) Φ Ψ.
Proof.
  iIntros (Hd [_ Hr]) "H". destruct (ref_slot e idr) as [n|]; [|by vk_step].
  vk_step. iApply (wp_dpb_slot _ n other); [rewrite Hd; by apply Hr|]. vk_step. done.
Qed.

Lemma fails_at s (e : Enc X) frame v (w : Z) (b : list Z) :
  (forall g, outcome e frame (encode_result e frame g).1 (encode_result e frame g).2) ->
  let e1 := set_force e false in
  let r := match s with
           | ResetCommandPool | BeginCommandBuffer => Some e1
           | CreateImageView => match e_input_views e !! if_image frame with None => Some e1 | Some _ => None end
           | EndCommandBuffer | ResetFences | QueueSubmit | WaitForFences | GetQueryPoolResults | MapMemory =>
               Some (viewed_enc e1 (if_image frame) v)
           | _ => None
           end in
  match r with Some e' => outcome e frame e' (inr (step_error s)) | None => True end.
Proof.
  intros H. specialize (H (failing (Some s) v w b)). revert H. unfold encode_result, failing.
  cbn [g_fails g_view]. cbv zeta.
  destruct s; try done.
  all: repeat match goal with |- context [bool_decide (Some ?a = Some ?b)] =>
    first [rewrite (bool_decide_eq_false_2 (Some a = Some b)); [|discriminate]
          | rewrite (bool_decide_eq_true_2 (Some a = Some b)); [|reflexivity]] end.
  all: rewrite ?andb_false_r ?andb_true_r; try done.
  by destruct (e_input_views e !! if_image frame).
Qed.

Lemma succeeds_at (e : Enc X) frame v w b :
  (forall g, outcome e frame (encode_result e frame g).1 (encode_result e frame g).2) ->
  outcome e frame (finished (viewed_enc (set_force e false) (if_image frame) v) (setup_slot e))
    (inl (frame_result e frame (known d (Z.min w OUTPUT_BUFFER_BYTES) b))).
Proof.
  intros H. specialize (H (failing None v w (known d (Z.min w OUTPUT_BUFFER_BYTES) b))). revert H.
  unfold encode_result, failing. cbn [g_fails g_view g_bytes_written g_buffer]. cbv zeta.
  rewrite !(bool_decide_eq_false_2 (None = Some _)) // andb_false_r.
  rewrite take_ge; [done|]. unfold known. rewrite length_fmap length_seqZ. lia.
Qed.

Lemma owned_intro stamps o (e : Enc X) s : estate_ok e s -> enc_res stamps o e s ⊢ owned stamps o e.
Proof. iIntros (Hs) "H". iExists s, Hs. done. Qed.

(** The slots hold what they did, the setup slot aside. *)
Lemma estate_ok_coded (e : Enc X) s setup b image v mems q cmd f bytes :
  estate_ok e s -> get (e_dpb e) (setup_slot e) = Some setup -> is_query_active q = false ->
  not_pending cmd = true -> fence_idle f = true -> mems = es_memory s ->
  (forall n v, e_prior_ref_slot e = Some n -> get (e_dpb e) n = Some v -> n <> setup_slot e) ->
  let e2 := viewed_enc (set_force e b) image v in
  let s' := mkEstate mems (<[setup_slot e := ds_view setup]> (es_slots s)) q cmd f (es_out_size s)
              (es_out_flags s) bytes in
  estate_ok e2 s' /\ estate_ok (finished e2 (setup_slot e)) s'.
Proof.
  intros (He & Hm & _ & _ & _ & Hsz & Hfl & Hsl) Hs Hq Hc Hf -> Hn e2 s'.
  assert (Hd : e_dpb e2 = e_dpb e /\ e_prior_ref_slot e2 = e_prior_ref_slot e /\ e_frame_index e2 = e_frame_index e).
  { unfold e2, viewed_enc. by destruct (_ !! _). }
  destruct Hd as (Hd & Hp & Hi). split.
  - apply (estate_ok_same e); [done..|]. split_and!; [done..|]. intros n x Hx Hg. cbn [es_slots s'].
    rewrite lookup_insert_ne; [by eapply Hsl|]. symmetry. by eapply Hn.
  - split_and!; [|done..|].
    + split; [by cbn; rewrite Hd (proj1 He)|]. cbn. by apply setup_slot_range.
    + cbn. rewrite Hd. intros n x [= <-] Hg. rewrite lookup_insert_eq. congruence.
Qed.

(** ** The submission *)

(** What is left when the device has run [cs], and what follows from it. *)
Definition coded (o : EncObjects) (e : Enc X) (cs : list vk_cmd) (size flags : Z) (Φ : list Z -> oprop)
    (Ψ : Enc X * EncodeError -> oprop) : oprop :=
  (∃ bytes written (_ : 0 < written),
    let q := (eo_query_pool o ↦ QueryPool (QueryDone written))%I in
    let m := (eo_out_buffer_memory o ↦ Memory size flags false bytes)%I in
    let c := (eo_encode_cmd o ↦ CommandBuffer (Executable cs))%I in
    let f := (eo_encode_fence o ↦ Fence Signaled)%I in
    q ∗ m ∗
    ((c -∗ f -∗ q -∗ m -∗ Φ (known d (Z.min written OUTPUT_BUFFER_BYTES) bytes)) ∧
     (∀ s (_ : s = WaitForFences \/ s = GetQueryPoolResults \/ s = MapMemory),
        c -∗ f -∗ q -∗ m -∗ Ψ (e, step_error s))))%I.

Lemma wp_submit_and_read o (e : Enc X) cs st size flags Φ Ψ :
  fence_idle st = true -> OUTPUT_BUFFER_BYTES <= size -> has_flags flags HOST = true ->
  eo_encode_cmd o ↦ CommandBuffer (Executable cs) -∗ eo_encode_fence o ↦ Fence st -∗
  gpu_runs d cs (coded o e cs size flags Φ Ψ) ∧
  (∀ s f (_ : (s = ResetFences \/ s = QueueSubmit) /\ fence_idle f = true),
     eo_encode_cmd o ↦ CommandBuffer (Executable cs) -∗ eo_encode_fence o ↦ Fence f -∗
     Ψ (e, step_error s)) -∗
  wp d (submit_and_read o e) Φ Ψ.
Proof.
  iIntros (Hst Hsz Hfl) "Hc Hf H". unfold submit_and_read. vk_step. iApply wp_or_fail.
  iApply (wp_reset_fence with "Hf"); [done|]. iSplit.
  2: { iIntros (x) "Hf". iDestruct "H" as "[_ H]".
       iApply ("H" $! ResetFences st (conj (or_introl eq_refl) Hst) with "Hc Hf"). }
  iIntros "Hf". vk_step. iApply wp_or_fail. iApply (wp_queue_submit with "Hc Hf"). iSplit.
  2: { iIntros (x) "Hc Hf". iDestruct "H" as "[_ H]".
       iApply ("H" $! QueueSubmit Unsignaled (conj (or_intror eq_refl) eq_refl) with "Hc Hf"). }
  iDestruct "H" as "[H _]". unfold gpu_runs. iApply (wp_wand with "H").
  iSplit; [|by iIntros (x) "[]"]. iIntros (used) "H". iApply (wp_wand with "H").
  iSplit; [|by iIntros (x) "[]"]. iIntros ([]) "H Hc Hf". vk_step. iApply wp_or_fail.
  iApply (wp_wait_for_fence with "Hc Hf"). iApply (wp_wand with "H"). iSplit; [|by iIntros (x) "[]"].
  iIntros ([]) "(%bytes & %written & %Hw & Hq & Hm & H) Hc Hf". iSplit.
  2: { iDestruct "H" as "[_ H]". iApply ("H" $! WaitForFences (or_introl eq_refl) with "Hc Hf Hq Hm"). }
  vk_step. iApply wp_or_fail. iApply (wp_get_query_pool_results with "Hq"). iSplit.
  2: { iIntros (x) "Hq". iDestruct "H" as "[_ H]".
       iApply ("H" $! GetQueryPoolResults (or_intror (or_introl eq_refl)) with "Hc Hf Hq Hm"). }
  iIntros "Hq". vk_simpl. vk_step. iApply wp_or_fail.
  assert (Hr : 0 < Z.min written OUTPUT_BUFFER_BYTES <= size) by (unfold OUTPUT_BUFFER_BYTES in *; lia).
  iApply (wp_map_memory with "Hm"); [done|done|]. iSplit.
  2: { iIntros (x) "Hm". iDestruct "H" as "[_ H]".
       iApply ("H" $! MapMemory (or_intror (or_intror eq_refl)) with "Hc Hf Hq Hm"). }
  iIntros "Hm". vk_step. iApply (wp_read_mapped with "Hm"); [lia|]. iIntros "Hm".
  vk_step. iApply (wp_unmap_memory with "Hm"). iIntros "Hm". vk_step. iDestruct "H" as "[H _]".
  iApply ("H" with "Hc Hf Hq Hm").
Qed.

(** ** [encode] *)

(** The states with other ones of the command buffer and the fence. *)
Definition with_states (s : estate) (cmd : cmd_state) (f : fence_state) : estate :=
  mkEstate (es_memory s) (es_slots s) (es_query s) cmd f (es_out_size s) (es_out_flags s) (es_out_bytes s).

Lemma estate_ok_states (e : Enc X) s cmd f : not_pending cmd = true -> fence_idle f = true ->
  estate_ok e s -> estate_ok e (with_states s cmd f).
Proof. intros Hc Hf (? & ? & ? & _ & _ & ? & ? & ?). by split_and!. Qed.

(** The two slots among the encoder's. *)
Lemma dpb_acc {A} (P : A -> oprop) l (x y : A) : l = [x; y] \/ l = [y; x] ->
  ([∗ list] z ∈ l, P z) ⊣⊢ P x ∗ P y.
Proof. intros [-> | ->]; cbn; rewrite right_id; [done|]. by rewrite comm. Qed.

(** What a call leaves: the encoder, whole, and the caller's image. *)
Definition encoded (stamps : Z -> nat) (o : EncObjects) (e : Enc X) (frame : InputFrame) (i : input)
    (Φ : Enc X * EncodedFrame -> oprop) (Ψ : Enc X * EncodeError -> oprop) : oprop :=
  ((∀ e' f (_ : outcome e frame e' (inl f)), owned stamps o e' -∗ input_obj stamps (if_image frame) i -∗ Φ (e', f)) ∧
   (∀ e' x (_ : outcome e frame e' (inr x)), owned stamps o e' -∗ input_obj stamps (if_image frame) i -∗ Ψ (e', x)))%I.

Lemma wp_begin_recording o (e : Enc X) setup reference st Φ Ψ : not_pending st = true ->
  eo_encode_cmd_pool o ↦ CommandPool [eo_encode_cmd o] -∗ eo_encode_cmd o ↦ CommandBuffer st -∗
  (eo_encode_cmd_pool o ↦ CommandPool [eo_encode_cmd o] -∗
   eo_encode_cmd o ↦ CommandBuffer (Recording
     [ResetQueryPool (eo_query_pool o);
      BeginVideoCoding (eo_session o) (eo_session_params o) ((-1, ds_view setup) :: option_list reference);
      BeginQuery (eo_query_pool o)]) -∗ Φ tt) ∧
  (∀ s st (_ : (s = ResetCommandPool \/ s = BeginCommandBuffer) /\ not_pending st = true),
     eo_encode_cmd_pool o ↦ CommandPool [eo_encode_cmd o] -∗ eo_encode_cmd o ↦ CommandBuffer st -∗
     Ψ (e, step_error s)) -∗
  wp d (begin_recording o e setup reference) Φ Ψ.
Proof.
  iIntros (Hst) "Hpool Hcmd H". unfold begin_recording.
  vk_step. iApply wp_or_fail. iApply (wp_reset_command_pool with "Hpool Hcmd"); [done|]. iSplit.
  2: { iIntros (x) "Hpool Hcmd". iDestruct "H" as "[_ H]".
       iApply ("H" $! ResetCommandPool st (conj (or_introl eq_refl) Hst) with "Hpool Hcmd"). }
  iIntros "Hpool Hcmd". vk_step. iApply wp_or_fail. iApply (wp_begin_command_buffer with "Hcmd"); [done|].
  iSplit.
  2: { iIntros (x) "Hcmd". iDestruct "H" as "[_ H]".
       iApply ("H" $! BeginCommandBuffer Initial (conj (or_intror eq_refl) eq_refl) with "Hpool Hcmd"). }
  iIntros "Hcmd". vk_run. iDestruct "H" as "[H _]". iApply ("H" with "Hpool [$]").
Qed.

Lemma wp_record_encode stamps o (e : Enc X) image i setup_index setup reference cs Φ Ψ :
  eo_encode_cmd o ↦ CommandBuffer (Recording cs) -∗
  input_views_of stamps (e_input_views e) -∗ input_obj stamps image i -∗
  (∀ v, let view := view_of e image v in let e2 := viewed_enc e image v in
     eo_encode_cmd o ↦ CommandBuffer (Executable (cs ++
       [EncodeVideo (eo_session o) (eo_out_buffer o) OUTPUT_BUFFER_BYTES view (setup_index, ds_view setup) reference;
        EndQuery (eo_query_pool o); EndVideoCoding (eo_session o)])) -∗
     view ↦ ImageView image (stamps image) -∗ input_obj stamps image i -∗
     (view ↦ ImageView image (stamps image) -∗ input_views_of stamps (e_input_views e2)) -∗ Φ e2) ∧
  (∀ st (_ : e_input_views e !! image = None /\ not_pending st = true),
     eo_encode_cmd o ↦ CommandBuffer st -∗ input_views_of stamps (e_input_views e) -∗
     input_obj stamps image i -∗ Ψ (e, step_error CreateImageView)) ∧
  (∀ v st (_ : not_pending st = true),
     eo_encode_cmd o ↦ CommandBuffer st -∗ input_views_of stamps (e_input_views (viewed_enc e image v)) -∗
     input_obj stamps image i -∗ Ψ (viewed_enc e image v, step_error EndCommandBuffer)) -∗
  wp d (record_encode o e image setup_index setup reference) Φ Ψ.
Proof.
  iIntros "Hcmd Hv Hi H". unfold record_encode. vk_step. iApply (wp_cached_view stamps e with "Hv Hi"). iSplit.
  2: { iIntros (Hnv) "Hv Hi". iDestruct "H" as "(_ & H & _)".
       iApply ("H" $! (Recording cs) (conj Hnv eq_refl) with "Hcmd Hv Hi"). }
  iIntros (v) "Hview Hi Hback". vk_simpl.
  do 3 (vk_step; iApply (wp_record with "Hcmd"); iIntros "Hcmd"; vk_simpl). vk_step. iApply wp_or_fail.
  iApply (wp_end_command_buffer with "Hcmd"). rewrite -!app_assoc. cbn [app]. iSplit.
  - iIntros "Hcmd". vk_step. iDestruct "H" as "[H _]". iApply ("H" $! v with "Hcmd Hview Hi Hback").
  - iIntros (x) "Hcmd". iDestruct "H" as "(_ & _ & H)". iSpecialize ("Hback" with "Hview").
    iApply ("H" $! v (Recording _) eq_refl with "Hcmd Hback Hi").
Qed.

(** The objects of an encoder again, in states that are given. *)
Tactic Notation "whole" uconstr(st) tactic(tac) :=
  iApply (owned_intro _ _ _ st); [tac|]; unfold enc_res, with_states;
  cbn [es_memory es_slots es_query es_cmd es_fence es_out_size es_out_flags es_out_bytes e_dpb e_params
       e_input_views finished];
  repeat match goal with
  | H : e_dpb _ = e_dpb _ |- _ => rewrite H; clear H
  | H : e_params _ = e_params _ |- _ => rewrite H; clear H
  end; iFrame.

(** A call that fails. *)
Tactic Notation "fails" constr(e1) constr(Hout) uconstr(st) tactic(tac) :=
  iDestruct "H" as "[_ H]"; iApply ("H" $! e1 _ Hout with "[-Hi] Hi"); whole st tac.

Lemma viewed_same (e : Enc X) b image v :
  e_dpb (viewed_enc (set_force e b) image v) = e_dpb e /\
  e_params (viewed_enc (set_force e b) image v) = e_params e.
Proof. unfold viewed_enc. by destruct (_ !! _). Qed.

Section Attempt.
Context (stamps : Z -> nat) (o : EncObjects) (e : Enc X) (frame : InputFrame) (i : input) (s : estate).
Context (setup other : DpbSlot) (Hok : estate_ok e s) (Hslots : slots_of e (is_idr e) setup other).
Context (Hdpb : e_dpb e = [setup; other] \/ e_dpb e = [other; setup]).
Context (Hprior : forall n v, e_prior_ref_slot e = Some n -> get (e_dpb e) n = Some v ->
  v = other /\ n <> setup_slot e).
Context (Hout : forall g, outcome e frame (encode_result e frame g).1 (encode_result e frame g).2).

Let e1 := set_force e false.
Let reference := (fun n => (n, ds_view other)) <$> ref_slot e (is_idr e).

Lemma state_ok_early cmd f : not_pending cmd = true -> fence_idle f = true -> estate_ok e1 (with_states s cmd f).
Proof. intros Hc Hf. apply (estate_ok_same e); [done..|]. by apply estate_ok_states. Qed.

Lemma state_ok_viewed image v cmd f : not_pending cmd = true -> fence_idle f = true ->
  estate_ok (viewed_enc e1 image v) (with_states s cmd f).
Proof. intros Hc Hf. apply estate_ok_viewed. by apply estate_ok_states. Qed.

Lemma state_ok_coded image v written bytes cmd : not_pending cmd = true ->
  let e2 := viewed_enc e1 image v in
  let s' := mkEstate (es_memory s) (<[setup_slot e := ds_view setup]> (es_slots s)) (QueryDone written)
              cmd Signaled (es_out_size s) (es_out_flags s) bytes in
  estate_ok e2 s' /\ estate_ok (finished e2 (setup_slot e)) s'.
Proof.
  intros Hcmd. apply estate_ok_coded; [done|apply Hslots|done..|]. intros n x Hn Hx. by eapply Hprior.
Qed.

(** The submission, from what an encoder has when its commands are recorded. *)
Lemma wp_attempt v (sl := slot_obj (ep_width (e_params e)) (ep_height (e_params e)) EncodeDpb) Φ Ψ :
  let e2 := viewed_enc e1 (if_image frame) v in
  let view := view_of e1 (if_image frame) v in
  eo_session o ↦ VideoSession (Some (eo_session_memory o)) true false (es_slots s) -∗
  those (eo_session_memory o) 0 (es_memory s) -∗
  eo_session_params o ↦ SessionParameters (eo_session o) -∗
  ([∗ list] x ∈ e_dpb e, sl x) -∗
  eo_out_buffer o ↦ Buffer OUTPUT_BUFFER_BYTES [VideoEncodeDst] (Some (eo_out_buffer_memory o)) -∗
  eo_out_buffer_memory o ↦ Memory (es_out_size s) (es_out_flags s) false (es_out_bytes s) -∗
  eo_query_pool o ↦ QueryPool (es_query s) -∗
  eo_encode_cmd_pool o ↦ CommandPool [eo_encode_cmd o] -∗
  eo_encode_cmd o ↦ CommandBuffer (Executable (encode_commands o (setup_slot e) (ds_view setup) reference view)) -∗
  eo_encode_fence o ↦ Fence (es_fence s) -∗
  view ↦ ImageView (if_image frame) (stamps (if_image frame)) -∗
  input_obj stamps (if_image frame) i -∗
  (view ↦ ImageView (if_image frame) (stamps (if_image frame)) -∗ input_views_of stamps (e_input_views e2)) -∗
  encoded stamps o e frame i Φ Ψ -∗
  wp d (submit_and_read o e2)
    (fun bitstream => Φ (finished e2 (setup_slot e), frame_result e frame bitstream)) Ψ.
Proof.
  intros e2 view. destruct (viewed_same e false (if_image frame) v) as [Hd2 Hp2].
  pose proof (fun t => fails_at t e frame v 0 [] Hout) as Hfails.
  iIntros "Hs Hms Hp Hdpb Hob Hom Hq Hpool Hcmd Hf Hview Hi Hback H". unfold encoded.
  iApply (wp_submit_and_read o e2 _ (es_fence s) (es_out_size s) (es_out_flags s) with "Hcmd Hf"); [apply Hok..|].
  iSplit.
  2: { iIntros (t f [Ht Hf']) "Hcmd Hf"; iSpecialize ("Hback" with "Hview").
       assert (Hx : outcome e frame e2 (inr (step_error t)))
         by (destruct Ht as [-> | ->]; [exact (Hfails ResetFences)|exact (Hfails QueueSubmit)]).
       fails e2 Hx (with_states s (Executable _) f) (by apply state_ok_viewed). }
  rewrite (dpb_acc sl _ setup other Hdpb). iDestruct "Hdpb" as "[Hsl Hol]".
  iApply (encode_runs d stamps o setup (setup_slot e) other (ref_slot e (is_idr e)) view (if_image frame) i
    with "Hs Hms Hp Hsl Hol Hob Hom Hq Hview Hi"); [|apply Hok|].
  { unfold reference_ok. destruct (ref_slot e (is_idr e)) as [n|] eqn:En; [|done].
    eapply Hok; [|by eapply Hslots]. unfold ref_slot in En. by destruct (is_idr e). }
  iIntros (bytes written Hw') "Hs Hms Hp Hsl Hol Hob Hom Hq Hview Hi". iExists bytes, written, Hw'. cbv zeta.
  iFrame "Hq Hom". iSpecialize ("Hback" with "Hview").
  iAssert ([∗ list] x ∈ e_dpb e, sl x)%I with "[Hsl Hol]" as "Hdpb".
  { rewrite (dpb_acc sl _ setup other Hdpb). iFrame. }
  subst sl. iSplit.
  - iIntros "Hcmd Hf Hq Hom". iDestruct "H" as "[H _]".
    iApply ("H" $! _ _ (succeeds_at e frame v written bytes Hout) with "[-Hi] Hi").
    whole (mkEstate _ _ _ (Executable _) Signaled _ _ bytes) (by apply state_ok_coded).
  - iIntros (t Ht) "Hcmd Hf Hq Hom".
    assert (Hx : outcome e frame e2 (inr (step_error t))) by (destruct Ht as [-> | [-> | ->]];
      [exact (Hfails WaitForFences)|exact (Hfails GetQueryPoolResults)|exact (Hfails MapMemory)]).
    fails e2 Hx (mkEstate _ _ _ (Executable _) Signaled _ _ bytes) (by apply state_ok_coded).
Qed.
End Attempt.

Lemma wp_encode_objects stamps o (e : Enc X) frame i Φ Ψ :
  owned stamps o e -∗ input_obj stamps (if_image frame) i -∗ encoded stamps o e frame i Φ Ψ -∗
  wp d (encode_objects o e frame) Φ Ψ.
Proof.
  iIntros "Ho Hi H". unfold encode_objects, encoded. destruct (negb _ || negb _) eqn:Esz.
  { apply outcome_size in Esz. vk_step. iDestruct "H" as "[_ H]". iApply ("H" $! e _ Esz with "Ho Hi"). }
  apply orb_false_iff in Esz as [Hw Hh]. apply negb_false_iff, Z.eqb_eq in Hw, Hh.
  iDestruct "Ho" as (s Hok) "(Hs & Hms & Hp & Hdpb & Hob & Hom & Hq & Hpool & Hcmd & Hf & Hv)".
  destruct (dpb_split e (proj1 Hok)) as (setup & other & Hslots & Hdpb & Hprior).
  pose proof (fun g => outcome_of g e frame setup other Hw Hh Hslots) as Hout.
  pose proof (fun t v => fails_at t e frame v 0 [] Hout) as Hfails. set (e1 := set_force e false).
  vk_step. iApply (wp_dpb_slot _ _ setup); [exact (proj1 Hslots)|].
  vk_step. iApply (wp_reference e e1 _ setup other); [done|done|].
  vk_step. iApply (wp_begin_recording with "Hpool Hcmd"); [apply Hok|]. iSplit.
  2: { iIntros (t st [Ht Hst]) "Hpool Hcmd".
       assert (Hx : outcome e frame e1 (inr (step_error t)))
         by (destruct Ht as [-> | ->]; [exact (Hfails ResetCommandPool 0)|exact (Hfails BeginCommandBuffer 0)]).
       fails e1 Hx (with_states s st (es_fence s)) (apply state_ok_early; [done|done|apply Hok]). }
  iIntros "Hpool Hcmd". vk_step. iApply (wp_record_encode stamps o e1 with "Hcmd Hv Hi"). repeat iSplit.
  - iIntros (v). cbv zeta. iIntros "Hcmd Hview Hi Hback". cbn [app]. vk_step.
    iApply (wp_wand with "[-]"); [iApply (wp_attempt with "Hs Hms Hp Hdpb Hob Hom Hq Hpool Hcmd Hf Hview Hi Hback H"); eassumption|].
    iSplit; [|by iIntros (x) "?"]. iIntros (bitstream) "K". by vk_step.
  - iIntros (st [Hnv Hst]) "Hcmd Hv Hi". pose proof (Hfails CreateImageView 0) as Hx. cbv zeta in Hx.
    change (e_input_views e1) with (e_input_views e) in Hnv. rewrite Hnv in Hx.
    fails e1 Hx (with_states s st (es_fence s)) (apply state_ok_early; [done|done|apply Hok]).
  - iIntros (v st Hst) "Hcmd Hv Hi". destruct (viewed_same e false (if_image frame) v) as [Hd2 Hp2].
    fails (viewed_enc e1 (if_image frame) v) (Hfails EndCommandBuffer v) (with_states s st (es_fence s))
      (apply state_ok_viewed; [done|done|apply Hok]).
Qed.

(** ** [drop] *)

Lemma wp_drop_views {E} stamps (l : list (Z * Z)) Φ (Ψ : E -> oprop) :
  ([∗ list] p ∈ l, p.2 ↦ ImageView p.1 (stamps p.1)) -∗ Φ tt -∗
  wp d (each destroy_image_view (snd <$> l)) Φ Ψ.
Proof.
  revert Φ. induction l as [|[i v] l IH]; intros Φ; cbn [fmap list_fmap each].
  - iIntros "H K". vk_step. cbn. by iFrame.
  - rewrite big_sepL_cons. iIntros "[Hv Hl] K". vk_step. unfold destroy_image_view.
    iApply (wp_destroy with "Hv"); [done|]. by iApply (IH with "Hl").
Qed.

Lemma wp_drop_slot {E} w h l s Φ (Ψ : E -> oprop) :
  slot_obj w h l s -∗ Φ tt -∗ wp d (drop_slot s) Φ Ψ.
Proof.
  iIntros "(%st & %px & %ms & %fl & %bs & ? & ? & ?) K". unfold drop_slot. vk_run. done.
Qed.

Lemma wp_drop_slots {E} w h l dpb Φ (Ψ : E -> oprop) :
  ([∗ list] s ∈ dpb, slot_obj w h l s) -∗ Φ tt -∗ wp d (drop_slots dpb) Φ Ψ.
Proof.
  revert Φ. induction dpb as [|s dpb IH]; intros Φ; cbn [drop_slots].
  - iIntros "H K". vk_step. cbn. by iFrame.
  - rewrite big_sepL_cons. iIntros "[Hs Hl] K". vk_step. iApply (wp_drop_slot with "Hs").
    by iApply (IH with "Hl").
Qed.

Lemma wp_destroy_command_pool {E} pool c st Φ (Ψ : E -> oprop) : not_pending st = true ->
  pool ↦ CommandPool [c] -∗ c ↦ CommandBuffer st -∗ Φ tt -∗ wp d (destroy_command_pool pool) Φ Ψ.
Proof.
  iIntros (Hst) "Hp Hc K". unfold destroy_command_pool. vk_step. iApply (wp_idle with "Hp"). iIntros "Hp".
  vk_simpl. cbn [each]. do 2 vk_step. iApply (wp_drop_command_buffer with "Hc"); [done|]. by vk_steps.
Qed.

(** A wait that fails is not looked at. *)
Lemma wp_try_wait_idle {E} Φ (Ψ : E -> oprop) : Φ tt ⊢ wp d (or_else device_wait_idle (fun _ => mret tt)) Φ Ψ.
Proof.
  iIntros "K". vk_step. unfold device_wait_idle. iApply wp_ask. iSplit; [done|]. iIntros (x). by vk_step.
Qed.

Lemma wp_encoder_drop {E} stamps o (e : Enc X) Φ (Ψ : E -> oprop) :
  owned stamps o e -∗ Φ tt -∗ wp d (encoder_drop o e) Φ Ψ.
Proof.
  iIntros "(%s & %Hok & Hs & Hms & Hp & Hdpb & Hob & Hom & Hq & Hpool & Hcmd & Hf & Hv) K".
  destruct Hok as (_ & Hm & _ & Hc & Hf & _). unfold encoder_drop. vk_step. iApply wp_try_wait_idle.
  unfold input_views_of. rewrite big_opM_map_to_list.
  vk_step. iApply (wp_drop_views stamps (map_to_list (e_input_views e)) with "[Hv]"); [|].
  { iApply (big_sepL_mono with "Hv"). by iIntros (k [i v] _) "?". }
  vk_step. iApply (wp_destroy_fence with "Hf"); [by destruct (es_fence s)|].
  vk_step. iApply (wp_destroy_command_pool with "Hpool Hcmd"); [done|].
  do 3 (vk_step; vk_call). vk_step. iApply (wp_drop_slots with "Hdpb").
  do 2 (vk_step; vk_call). by iApply (wp_free_those with "Hms").
Qed.
End Encode.
