(* ===== verification/EncoderLife.v ===== *)
(** The life of a hardware encoder over its objects: from [new] over any calls to [drop]
    nothing is invalid and nothing is left, and what it returns is a run of Encoder.v. *)

From stdpp Require Import gmap strings.
From iris.proofmode Require Import proofmode.
From S2P Require Import Prelude Encoder EncoderRun Codecs Vulkan VulkanLogic VulkanContext VulkanSafety.
From S2P Require Import VulkanRuns EncoderObjects EncoderBackends EncoderSafety EncoderCalls EncoderSteps.

#[local] Open Scope Z_scope.

(** ** Assertions of one state *)

Definition exact (P : oprop) : Prop := forall m1 m2, holds P m1 -> holds P m2 -> m1 = m2.

Lemma exact_emp : exact emp%I.
Proof. intros m1 m2 H1 H2. cbn in H1, H2. congruence. Qed.

Lemma exact_points_to h n b : exact (h ↦{n} b)%I.
Proof. intros m1 m2 H1 H2. cbn in H1, H2. congruence. Qed.

Lemma exact_sep (P Q : oprop) : exact P -> exact Q -> exact (P ∗ Q)%I.
Proof.
  intros HP HQ m1 m2 (a1 & b1 & -> & _ & H1 & H1') (a2 & b2 & -> & _ & H2 & H2').
  by rewrite (HP a1 a2 H1 H2) (HQ b1 b2 H1' H2').
Qed.

Lemma exact_equiv (P Q : oprop) : (P ⊣⊢ Q) -> exact Q -> exact P.
Proof.
  intros [H _]%bi.equiv_entails HQ m1 m2 H1 H2. apply HQ; by apply (o_in _ _ _ H).
Qed.

Lemma exact_big_sepM {A} (P : Z -> A -> oprop) (m : gmap Z A) :
  (forall k a, exact (P k a)) -> exact ([∗ map] k ↦ a ∈ m, P k a)%I.
Proof.
  intros HP. induction m as [|k a m Hk IH] using map_ind.
  - apply (exact_equiv _ _ (big_sepM_empty _)), exact_emp.
  - apply (exact_equiv _ _ (big_sepM_insert _ _ _ _ Hk)).
    apply exact_sep; [apply HP|exact IH].
Qed.

Section Life.
Context {Info Pic X : Type} `{Hb : Backend Info Pic X}.

(** ** The calls of a client *)

Inductive call := CallRequestKeyframe | CallEncode (frame : InputFrame).

Section Client.
Context (A : encoder_api X).

Fixpoint calls (o : EncObjects) (e : Enc X) (cs : list call)
    : vk EncodeError (Enc X * list (EncodedFrame + EncodeError)) :=
  match cs with
  | [] => mret (e, [])
  | CallRequestKeyframe :: cs => calls o (ea_request_keyframe A e) cs
  | CallEncode frame :: cs =>
      '(e, r) ← or_else ('(e, f) ← ea_encode A o e frame; mret (e, inl f))
                        (fun x => mret (x.1, inr x.2));
      '(e, rs) ← calls o e cs;
      mret (e, r :: rs)
  end.

Definition life (c : Context) (p : EncodeParams) (cs : list call)
    : vk EncodeError (list (EncodedFrame + EncodeError)) :=
  '(o, e) ← ea_new A c p;
  '(e, rs) ← calls o e cs;
  ea_drop A o e;;
  mret rs.
End Client.

(** The images the caller has, alive from [new] to [drop]. *)
Definition inputs (stamps : Z -> nat) (images : gmap Z input) : oprop :=
  ([∗ map] image ↦ i ∈ images, input_obj stamps image i)%I.

Definition call_ok (images : gmap Z input) (cs : call) : Prop :=
  match cs with CallRequestKeyframe => True | CallEncode frame => is_Some (images !! if_image frame) end.

(** ** They are runs of the encoder *)

Definition call_of (ev : enc_event) : call :=
  match ev with Request => CallRequestKeyframe | Attempt frame _ => CallEncode frame end.

(** Some run of EncoderRun.v for the calls [cs] ends with [e'] and has these results. *)
Definition ran (e : Enc X) (cs : list call) (e' : Enc X) (rs : list (EncodedFrame + EncodeError)) : Prop :=
  exists evs, call_of <$> evs = cs /\
    forall m, exists m' tr, enc_run (Info:=Info) (Pic:=Pic) e m evs = Some (e', m', tr) /\ at_result <$> tr = rs.

Lemma ran_request e cs e' rs : ran (request_keyframe e) cs e' rs -> ran e (CallRequestKeyframe :: cs) e' rs.
Proof. intros (evs & <- & H). exists (Request :: evs). split; [done|]. intros m. apply (H (mon_request m)). Qed.

Lemma ran_encode e frame e1 r cs e' rs :
  outcome (Info:=Info) (Pic:=Pic) e frame e1 r -> ran e1 cs e' rs -> ran e (CallEncode frame :: cs) e' (r :: rs).
Proof.
  intros (g & ops & E) (evs & <- & H). exists (Attempt frame g :: evs). split; [done|]. intros m.
  cbn [enc_run]. rewrite E. cbn [mbind option_bind]. destruct (exec_ops _ _ _) as [slots l].
  destruct (H (mon_attempt m slots r))
    as (m' & tr & -> & <-). by eexists m', (_ :: tr).
Qed.

Context (d : driver) `{!DriverLaws d, !WaitsEnd d}.

Lemma owned_request stamps o (e : Enc X) : owned stamps o e ⊢ owned stamps o (request_keyframe e).
Proof. iIntros "(%s & %Hok & H)". assert (H : estate_ok (request_keyframe e) s) by done. iExists s, H. done. Qed.

Lemma wp_calls stamps images o (e : Enc X) cs Φ Ψ : Forall (call_ok images) cs ->
  owned stamps o e -∗ inputs stamps images -∗
  (∀ e' rs (_ : ran e cs e' rs), owned stamps o e' -∗ inputs stamps images -∗ Φ (e', rs)) -∗
  wp d (calls (api_of Hb) o e cs) Φ Ψ.
Proof.
  intros Hcs. revert e Φ. induction Hcs as [|[|frame] cs Hc Hcs IH]; intros e Φ; cbn [calls api_of ea_request_keyframe ea_encode]; iIntros "Ho Hi H".
  - vk_step. assert (Hr : ran e [] e []).
    { exists []. split; [done|]. intros m. by exists m, []. }
    iApply ("H" $! e [] Hr with "Ho Hi").
  - iApply (IH with "[Ho] Hi"); [by iApply owned_request|]. iIntros (e' rs Hr) "Ho Hi".
    iApply ("H" $! e' rs (ran_request _ _ _ _ Hr) with "Ho Hi").
  - destruct Hc as [i Hi]. unfold inputs at 1.
    iDestruct (big_sepM_lookup_acc _ _ _ _ Hi with "Hi") as "[Hi Hback]".
    vk_step. iApply wp_or_else. vk_step. iApply (wp_encode_objects d stamps o e frame i with "Ho Hi").
    iSplit; iIntros (e1 r Hr) "Ho Hi"; vk_simpl; do 2 vk_step; cbn [fst snd];
      iApply (IH with "Ho [Hi Hback]"); [by iApply "Hback"| |by iApply "Hback"|];
      iIntros (e' rs Hrs) "Ho Hi"; vk_simpl; vk_step;
      iApply ("H" $! e' _ (ran_encode _ _ _ _ _ _ _ Hr Hrs) with "Ho Hi").
Qed.

Lemma wp_life stamps images c p cs Φ Ψ : 0 <= ep_width p -> 0 <= ep_height p -> session_fits d -> Forall (call_ok images) cs ->
  inputs stamps images -∗
  (∀ sets dpb e rs (_ : length dpb = 2%nat /\ ran (Enc_new p sets dpb) cs e rs), inputs stamps images -∗ Φ rs) ∧
  (∀ e, inputs stamps images -∗ True -∗ Ψ e) -∗
  wp d (life (api_of Hb) c p cs) Φ Ψ.
Proof.
  iIntros (Hw Hh Hf Hcs) "Hi H". unfold life. cbn [api_of ea_new ea_drop]. vk_step. iApply (wp_encoder_new d c p stamps); [done|done|done|]. iSplit.
  2: { iIntros (x) "T". iDestruct "H" as "[_ H]". iApply ("H" with "Hi T"). }
  iIntros (o sets dpb Hdpb) "Ho". vk_step. iApply (wp_calls with "Ho Hi"); [done|].
  iIntros (e rs Hr) "Ho Hi". vk_step. iApply (wp_encoder_drop with "Ho"). vk_step.
  iDestruct "H" as "[H _]". iApply ("H" $! sets dpb e rs (conj Hdpb Hr) with "Hi").
Qed.

Lemma exact_inputs stamps images : exact (inputs stamps images).
Proof. apply exact_big_sepM. intros k i. apply exact_sep; apply exact_points_to. Qed.
End Life.

(** The whole life of an encoder on a device: for any parameters, and whatever calls fail
    and however often, while the images the caller gives (all it owns, [σ]) are alive and
    ready, every call of the device from [new] over the frames and key frame requests to
    [drop] is valid; when [new] succeeds, at the end the objects are exactly those there
    were, and the results are those of a run of the encoder (EncoderRun.v) in which the
    device did what it did; when it fails, what it made by then is left and nothing else
    has changed. *)
Definition lives_well {Info Pic X : Type} (Hb : Backend Info Pic X) (A : encoder_api X) (d : driver) : Prop :=
  forall c p stamps images cs σ root n objs,
  0 <= ep_width p -> 0 <= ep_height p -> Forall (call_ok images) cs ->
  holds (inputs stamps images) σ -> σ ⊆ objs ->
  exists n' objs' r, life A c p cs d (mkGpu root n objs) = Some (mkGpu root n' objs', r) /\
  match r with
  | inl rs => objs' = objs /\
      exists sets dpb evs e m tr, call_of <$> evs = cs /\ length dpb = 2%nat /\
        new_run p sets dpb evs = Some (e, m, tr) /\ at_result <$> tr = rs
  | inr _ => objs ⊆ objs'
  end.

Lemma life_run {Info Pic X : Type} (Hb : Backend Info Pic X) (d : driver) (Hd : DriverLaws d) (Hwt : WaitsEnd d) :
  session_fits d -> lives_well Hb (api_of Hb) d.
Proof.
  intros Hf c p stamps images cs σ root n objs Hw Hh Hcs Hi Hs.
  destruct (wp_run_on d (life (api_of Hb) c p cs) (inputs stamps images)
    (fun rs => ⌜exists sets dpb e, length dpb = 2%nat /\ ran (Enc_new p sets dpb) cs e rs⌝ ∧ inputs stamps images)%I
    (fun _ => inputs stamps images ∗ True)%I σ root n objs) as (n' & σ' & r & E & Hdis & Hr); [|done|done|].
  - iIntros "Hi". iApply (wp_life with "Hi"); [done|done|done|done|]. iSplit.
    + iIntros (sets dpb e rs Hr) "Hi". iSplit; [|done]. iPureIntro. by exists sets, dpb, e.
    + iIntros (x) "Hi T". iFrame.
  - exists n', (σ' ∪ objs ∖ σ), r. split; [done|]. destruct r as [rs|x].
    + destruct Hr as [(sets & dpb & e & Hdpb & evs & Hevs & Hrun) Hr].
      rewrite (exact_inputs _ _ _ _ Hr Hi) map_difference_union //. split; [done|].
      destruct (Hrun Mon_new) as (m & tr & Htr). by exists sets, dpb, evs, e, m, tr.
    + destruct Hr as (σ1 & σ2 & -> & Hd' & Hr & _). rewrite (exact_inputs _ _ _ _ Hr Hi).
      rewrite (exact_inputs _ _ _ _ Hr Hi) in Hd'. apply map_disjoint_union_l in Hdis as [_ Hdis].
      rewrite -{1}(map_difference_union σ objs) // -map_union_assoc.
      apply map_union_mono_l, map_union_subseteq_r. done.
Qed.

(** The session asks for no more than the device has for its codec. *)
Definition fits (d : driver) (codec : VideoCodec) : Prop :=
  DPB_SLOTS <= vp_slots (d_caps d codec) /\ 1 <= vp_references (d_caps d codec).


(** ** An encoder's life *)

Definition demo_size : EncodeParams := mkEncodeParams Encoder.H264 64 64 (30, 1) (ConstantQp 26) None.
Definition demo_context : Context := mkContext demo_device 0 3 (Some 0).
Definition demo_input : input := mkInput 64 64 [VideoEncodeSrc] [1] 2 16384 DEVICE_LOCAL [].
Definition demo_calls : list call :=
  [CallEncode (mkInputFrame 1 64 64 0); CallEncode (mkInputFrame 1 64 64 3000); CallRequestKeyframe;
   CallEncode (mkInputFrame 1 64 64 6000)].

(** The image 1 over the memory 2. *)
Definition demo_objects (stamp : nat) : objects :=
  {[1 := (O, Image stamp 64 64 [VideoEncodeSrc] EncodeSrc [1] (Some 2));
    2 := (O, Memory 16384 DEVICE_LOCAL false [])]}.

Definition kinds_of (rs : list (EncodedFrame + EncodeError)) : list (option FrameKind) :=
  (fun r => match r with inl f => Some (ef_kind f) | inr _ => None end) <$> rs.
Definition demo_enc_life (fails : nat -> option vk_error) :=
  match life H264Encoder.api demo_context demo_size demo_calls (demo_driver fails) (mkGpu InstanceAndDevice 0 (demo_objects 0)) with
  | Some (g, inl rs) => Some (g_clock g, Some (kinds_of rs), bool_decide (dom (g_objs g) = dom (demo_objects 0)))
  | Some (g, inr _) => Some (g_clock g, None, bool_decide (dom (g_objs g) = dom (demo_objects 0)))
  | None => None
  end.

(** All is well; the call 58 fails, within an [encode]; the call 5 fails, within [new]. *)
Example demo_enc_lives :
  demo_enc_life (fun _ => None) = Some (91%nat, Some [Some Idr; Some P; Some Idr], true) /\
  demo_enc_life (fun n => if (n =? 58)%nat then Some DeviceLost else None) =
    Some (83%nat, Some [None; Some Idr; Some Idr], true) /\
  demo_enc_life (fun n => if (n =? 5)%nat then Some DeviceLost else None) = Some (6%nat, None, false).
Proof. vm_compute. done. Qed.

(** Another image has the handle of one that was encoded. *)
Definition stale_view (stamp : nat) : option bool :=
  let frame := mkInputFrame 1 64 64 0 in
  let d := demo_driver (fun _ => None) in
  match H264Encoder.new demo_context demo_size d (mkGpu InstanceAndDevice 0 (demo_objects 0)) with
  | Some (g, inl (o, e)) =>
      match H264Encoder.encode o e frame d g with
      | Some (g, inl (e, _)) =>
          match H264Encoder.encode o e frame d
                  (mkGpu (g_root g) (g_clock g) (demo_objects stamp ∪ g_objs g)) with
          | Some (_, r) => Some (match r with inl _ => true | inr _ => false end)
          | None => None
          end
      | _ => None
      end
  | _ => None
  end.

(** The views are kept by the image's handle: a client that destroys an image while the
    encoder lives, and is given its handle again, has the view of the old one used. *)
Example view_goes_stale : stale_view 0 = Some true /\ stale_view 1 = None.
Proof. by vm_compute. Qed.

Lemma demo_inputs : holds (inputs (fun _ => O) {[1 := demo_input]}) (demo_objects 0).
Proof.
  apply (o_in (input_obj (fun _ => O) 1 demo_input)).
  - unfold inputs. by rewrite big_sepM_singleton.
  - eexists {[1 := _]}, {[2 := _]}. split_and!; [by rewrite -insert_union_singleton_l| |done|done].
    apply map_disjoint_singleton_r, lookup_singleton_None. lia.
Qed.


(** A device with one slot for the codec: [new] does not look, and its session is
    invalid. *)
Definition one_slot : driver :=
  let d := demo_driver (fun _ => None) in
  {| d_error := d_error d; d_wait := d_wait d; d_devices := d_devices d;
     d_caps := fun _ => mkVideoCaps (64, 64) (1, 1) (1, 1) 1 0 [VkDisabled];
     d_max_dimension := d_max_dimension d; d_types := d_types d; d_buffer_req := d_buffer_req d;
     d_image_req := d_image_req d; d_session_req := d_session_req d; d_unwritten := d_unwritten d; d_overtaken := d_overtaken d;
     d_blit := d_blit d; d_parameter_sets := d_parameter_sets d; d_bitstream := d_bitstream d;
     d_bytes_written := d_bytes_written d; d_shader := d_shader d; d_fsr := d_fsr d |}.

Example slots_not_checked :
  validate_against demo_size (mkCaps Encoder.H264 (64, 64) (1, 1) (1, 1) 1 0 [VkDisabled] false false) = inl tt /\
  H264Encoder.new demo_context demo_size one_slot (mkGpu InstanceAndDevice 0 (demo_objects 0)) = None.
Proof. by vm_compute. Qed.
