(* ===== verification/ClientPipeline.v ===== *)
(** The client's frame pipeline ([crates/remoteway-client/src/pipeline.rs]): the
    handshake, the input sender, and the body of [recv_decompress_loop] as one
    function of the loop's state and a message.  The result lists the frames
    offered to the display thread, in order.

    The clock is an argument, in nanoseconds.  [None] is a panic. *)

From Stdlib Require Import SpecFloat.
From S2P Require Import Prelude Wire Proto Multiplexer Delta Compress FramePayload.
From S2P Require Import Floats Interpolate FpsOverlay Display.
Import Header HandshakeProto Input Geometry.

(** ** Outgoing messages *)

Definition client_handshake : list Z :=
  let cap := Z.lor WLR_SCREENCOPY EXT_IMAGE_CAPTURE in
  let hs := HandshakePayload_new cap LZ4 in
  let hdr := FrameHeader_new 0 Handshake LAST_CHUNK 8 0 in
  as_bytes hdr ++ as_bytes hs.

(** The buffer [make_input_sender]'s callback gives to [send_input]. *)
Definition input_wire (event : InputEvent) : list Z :=
  let hdr := FrameHeader_new 0 InputEvent_ LAST_CHUNK (wrap 32 (size_of InputEvent)) 0 in
  as_bytes hdr ++ as_bytes event.

(** ** CPU upscaling *)

(** The tap indices of [upscale_bicubic]: each one is clamped; [i32::clamp]
    panics when the size is 0 (or its [i32] value is negative). *)
Definition taps_each_clamped (sfloor size : Z) : option (list Z) :=
  let hi := to_signed 32 (as_i32 size - 1) in
  if hi <? 0 then None
  else
    let clamp v := wrap 32 (Z.min (Z.max (to_signed 32 v) 0) hi) in
    Some [clamp (sfloor - 1); clamp sfloor; clamp (sfloor + 1); clamp (sfloor + 2)].

Definition upscale_bicubic (src : list Z) (src_w src_h src_stride dst_w dst_h : Z)
    : option (list Z * (Z * Z * Z)) :=
  let dst_stride := wrap 32 (dst_w * 4) in
  data ← resample taps_each_clamped src src_w src_h src_stride dst_w dst_h
           (replicate (Z.to_nat (wrap 32 (dst_stride * dst_h))) 0);
  Some (data, (dst_w, dst_h, dst_stride)).

(** ** The receive loop *)

Section Loop.
Context `{Codecs} {B : Type} `{FrameInterpolator B}.

Record ClientConfig := mkClientConfig {
  cc_upscale : f64; cc_debug : bool; cc_kind : CompressorKind }.

Record ClientState := mkClientState {
  cl_previous : list Z; cl_has_previous : bool; cl_interp : option (InterpolationManager B);
  cl_frame_count : Z; cl_scratch : list Z; cl_last_frame_at : option Z; cl_fps_ema : f32 }.

Definition ClientState_new (im : option (InterpolationManager B)) : ClientState :=
  mkClientState [] false im 0 [] None (S754_zero false).

Definition do_upscale (cfg : ClientConfig) : bool := differs_from_one (cc_upscale cfg).

(** Parsing and decompression: what the message does to the delta base.  On a
    payload that does not parse nothing changes; on one that does not decompress
    the base may have been resized; otherwise the image becomes the new base. *)
Inductive decoded :=
  | BadPayload
  | BadFrame_ (base : list Z) (reset : bool)
  | Decoded (base : list Z) (reset : bool) (w h stride : Z) (regions : list DamageRect)
      (scratch image : list Z).

Definition decode_message (cfg : ClientConfig) (previous : list Z) (has_previous : bool)
    (scratch : list Z) (is_anchor : bool) (payload : list Z) : option decoded :=
  match deserialize_frame_payload payload with
  | Panic => None
  | Fail _ => Some BadPayload
  | Ret (width, height, stride, regions, compressed) =>
      let frame_size := wrap 32 (stride * height) in
      let reset := is_anchor || negb has_previous in
      let base := if reset then resize_vec frame_size 0 previous else previous in
      match decompress_frame_into compressed base stride regions scratch [] (cc_kind cfg) with
      | Panic => None
      | Fail _ => Some (BadFrame_ base reset)
      | Ret (scratch, output) =>
          Some (Decoded base reset width height stride regions scratch output)
      end
  end.

(** The pixels shown for a frame: the backend's upscale, or the CPU one when
    there is no backend or it fails. *)
Definition upscale_for_display (cfg : ClientConfig) (im : option (InterpolationManager B))
    (f : GpuFrame) : option (list Z * Z * Z * Z) :=
  if do_upscale cfg then
    let tw := scale_round (gf_width f) (cc_upscale cfg) in
    let th := scale_round (gf_height f) (cc_upscale cfg) in
    gpu ← match im with
      | None => Some None
      | Some m => r ← fi_upscale (im_backend m) f tw th;
                  Some (match r with inl g => Some g | inr _ => None end)
      end;
    match gpu with
    | Some g => Some (gf_data g, gf_width g, gf_height g, gf_stride g)
    | None =>
        '(data, (uw, uh, us)) ← upscale_bicubic (gf_data f) (gf_width f) (gf_height f)
                                  (gf_stride f) tw th;
        Some (data, uw, uh, us)
    end
  else Some (gf_data f, gf_width f, gf_height f, gf_stride f).

(** [(v as f64 * scale).round() as u32] with [scale = dw as f64 / w as f64]. *)
Definition scale_damage (display_w display_h width height : Z) (r : DamageRect) : DamageRegion :=
  let scale_x := f64_div (f64_of_int display_w) (f64_of_int width) in
  let scale_y := f64_div (f64_of_int display_h) (f64_of_int height) in
  mkDamageRegion (scale_round (dr_x r) scale_x) (scale_round (dr_y r) scale_y)
    (scale_round (dr_width r) scale_x) (scale_round (dr_height r) scale_y).

(** [Duration::as_secs_f32]: whole seconds plus the fraction, each rounded. *)
Definition as_secs_f32 (ns : Z) : f32 :=
  f32_add (f32_of_int (ns / 10 ^ 9)) (f32_div (f32_of_int (ns mod 10 ^ 9)) (f32_of_int (10 ^ 9))).

Definition FPS_ALPHA : f32 := f32_frac 15 100.

(** The moving average after a frame at [now]; [duration_since] saturates. *)
Definition update_fps (last : option Z) (ema : f32) (now : Z) : f32 :=
  match last with
  | None => ema
  | Some prev =>
      let dt := as_secs_f32 (Z.max 0 (now - prev)) in
      if SFltb (S754_zero false) dt then
        let instant := f32_div (f32_of_int 1) dt in
        if SFeqb ema (S754_zero false) then instant
        else f32_add (f32_mul ema (f32_sub (f32_of_int 1) FPS_ALPHA)) (f32_mul instant FPS_ALPHA)
      else ema
  end.

(** [a.saturating_sub(b)] and [min] of the overlay's damage. *)
Definition overlay_damage (display_w display_h : Z) : DamageRegion :=
  let '(ox, oy, ow, oh) := overlay_rect 10 10 in
  mkDamageRegion ox oy (Z.min ow (sat_sub display_w ox)) (Z.min oh (sat_sub display_h oy)).

(** One frame message. *)
Definition frame_message (cfg : ClientConfig) (st : ClientState) (m : IncomingMessage)
    (is_anchor : bool) (now : Z) : option (ClientState * list DisplayFrame) :=
  let ts := timestamp_ns (im_header m) in
  let sid := stream_id (im_header m) in
  d ← decode_message cfg (cl_previous st) (cl_has_previous st) (cl_scratch st) is_anchor
        (im_payload m);
  match d with
  | BadPayload => Some (st, [])
  | BadFrame_ base reset =>
      Some (mkClientState base (cl_has_previous st)
              (if reset then reset_anchor <$> cl_interp st else cl_interp st)
              (cl_frame_count st) (cl_scratch st) (cl_last_frame_at st) (cl_fps_ema st), [])
  | Decoded base reset width height stride regions scratch output =>
      let im := if reset then reset_anchor <$> cl_interp st else cl_interp st in
      let frame := GpuFrame_from_data output width height stride ts in
      let im := (fun i => push_frame i frame) <$> im in
      let '(im, interpolated) :=
        match im with
        | None => (None, None)
        | Some i =>
            let '(r, i) := interpolate i (f32_frac 1 2) in
            (Some i, match r with inl f => f | inr _ => None end)
        end in
      '(display_data, display_w, display_h, display_stride) ← upscale_for_display cfg im frame;
      let damage := scale_damage display_w display_h width height <$> regions in
      let ema := update_fps (cl_last_frame_at st) (cl_fps_ema st) now in
      let '(display_data, damage) :=
        if cc_debug cfg
        then (draw_fps display_data display_w display_h display_stride ema,
              damage ++ [overlay_damage display_w display_h])
        else (display_data, damage) in
      let shown := mkDisplayFrame sid display_data damage display_w display_h display_stride ts in
      extra ← match interpolated with
        | None => Some []
        | Some f =>
            '(idata, iw, ih, istride) ← upscale_for_display cfg im f;
            let idata := if cc_debug cfg then draw_fps idata iw ih istride ema else idata in
            Some [mkDisplayFrame sid idata [mkDamageRegion 0 0 iw ih] iw ih istride
                    (gf_timestamp_ns f)]
        end;
      Some (mkClientState output true im (wrap 64 (cl_frame_count st + 1)) scratch (Some now) ema,
            shown :: extra)
  end.

(** One message of the loop. *)
Definition client_message (cfg : ClientConfig) (st : ClientState) (m : IncomingMessage) (now : Z)
    : option (ClientState * list DisplayFrame) :=
  match FrameHeader_msg_type (im_header m) with
  | inl AnchorFrame => frame_message cfg st m true now
  | inl FrameUpdate => frame_message cfg st m false now
  | inl Resize =>
      if ResizePayload_SIZE <=? zlen (im_payload m) then
        match slice (im_payload m) 0 ResizePayload_SIZE ≫= ref_from_bytes (A:=ResizePayload) with
        | Some _ =>
            Some (mkClientState (cl_previous st) false (clear <$> cl_interp st)
                    (cl_frame_count st) (cl_scratch st) (cl_last_frame_at st) (cl_fps_ema st), [])
        | None => Some (st, [])
        end
      else Some (st, [])
  | _ => Some (st, [])
  end.

(** The loop over the messages received, with the time of each. *)
Fixpoint client_run (cfg : ClientConfig) (st : ClientState) (ms : list (IncomingMessage * Z))
    : option (ClientState * list DisplayFrame) :=
  match ms with
  | [] => Some (st, [])
  | (m, now) :: ms =>
      '(st, shown) ← client_message cfg st m now;
      '(st, rest) ← client_run cfg st ms;
      Some (st, shown ++ rest)
  end.
End Loop.
Arguments ClientState B : clear implicits.

(** The two CPU upscalers disagree at the border: anchored one sample outside the
    image, clamping the anchor first shifts the whole kernel. *)
Example edge_taps_differ :
  taps_each_clamped (-1) 4 = Some [0; 0; 0; 1] /\ taps_anchor_clamped (-1) 4 = Some [0; 0; 1; 2].
Proof. split; vm_compute; reflexivity. Qed.
