(* ===== verification/ClientTyping.v ===== *)
(** The client's receive loop is type sound: whatever bytes arrive, every pixel
    buffer it keeps or shows is made of bytes, and every number it hands to the
    display is of its declared width.  The codecs and the interpolation backend owe
    the same of what they return, which is what their Rust types say. *)

From Stdlib Require Import SpecFloat.
From S2P Require Import Prelude Wire Proto ChunkSender Multiplexer Queue Transport Delta Compress FramePayload.
From S2P Require Import Floats Interpolate FpsOverlay Display ClientPipeline.
Import Header Frame.

(** ** Folds *)

Lemma foldM_inv {S A} (P : S -> Prop) (f : S -> A -> option S) s l s' :
  (forall s a s', a ∈ l -> P s -> f s a = Some s' -> P s') -> P s -> foldM f s l = Some s' -> P s'.
Proof.
  revert s. induction l as [|a l IH]; intros s Hf Hs; cbn; [by intros [= <-]|].
  destruct (f s a) as [s1|] eqn:E; [|done]. cbn. apply IH.
  - intros s2 b s3 Hb. apply Hf. by right.
  - eapply Hf; [by left|exact Hs|exact E].
Qed.

Lemma foldR_inv {E S A} (P : S -> Prop) (f : S -> A -> run E S) s l s' :
  (forall s a s', P s -> f s a = Ret s' -> P s') -> P s -> foldR f s l = Ret s' -> P s'.
Proof.
  intros Hf. revert s. induction l as [|a l IH]; intros s Hs; cbn; [by intros [= <-]|].
  destruct (f s a) as [s1| |] eqn:E1; [|done..]. cbn. apply IH. by eapply Hf.
Qed.

Lemma foldl_inv {S A} (P : S -> Prop) (f : S -> A -> S) s l :
  (forall s a, P s -> P (f s a)) -> P s -> P (foldl f s l).
Proof. intros Hf. revert s. induction l as [|a l IH]; intros s Hs; cbn; auto. Qed.

(** ** Bytes *)

Lemma bytes_slice bs a b s : slice bs a b = Some s -> bytes_ok bs -> bytes_ok s.
Proof.
  unfold slice. case_decide; [|done]. intros [= <-] Hb. by apply Forall_take, Forall_drop.
Qed.

Lemma bytes_get bs i v : get bs i = Some v -> bytes_ok bs -> fits 8 v.
Proof.
  unfold get. case_decide; [|done]. intros E Hb. by eapply (proj1 (list.Forall_lookup _ _) Hb).
Qed.

Lemma bytes_set bs i v bs' : bytes_ok bs -> fits 8 v -> set bs i v = Some bs' -> bytes_ok bs'.
Proof.
  unfold set. intros Hb Hv. case_decide; [|done]. intros [= <-]. by apply list.Forall_insert.
Qed.

Lemma bytes_splice bs a s bs' : bytes_ok bs -> bytes_ok s -> splice bs a s = Some bs' -> bytes_ok bs'.
Proof.
  unfold splice. intros Hb Hs. case_decide; [|done]. intros [= <-].
  apply list.Forall_app. split; [by apply Forall_take|]. apply list.Forall_app. split; [done|by apply Forall_drop].
Qed.

Lemma bytes_zeroes n : bytes_ok (replicate n 0).
Proof. apply list.Forall_replicate. by unfold fits. Qed.

Lemma bytes_resize n bs : bytes_ok bs -> bytes_ok (resize_vec n 0 bs).
Proof.
  intros Hb. unfold resize_vec. apply list.Forall_app. split; [by apply Forall_take|apply bytes_zeroes].
Qed.

Lemma ref_from_bytes_wf {A} `{PackedLaws A} bs (a : A) :
  bytes_ok bs -> ref_from_bytes bs = Some a -> wf a.
Proof.
  unfold ref_from_bytes. intros Hb. case_decide as Hl; [|done]. intros [= <-].
  apply of_fields_wf, dec_fields_fits; [done|]. unfold zlen, size_of in Hl. lia.
Qed.

(** ** Decompression *)

(** What the codecs return is a [Vec<u8>]. *)
Class CodecBytes `{Codecs} := {
  lz4_decoded_bytes c d : bytes_ok c -> decompress_size_prepended c = inl d -> bytes_ok d;
  zstd_decoded_bytes c d : bytes_ok c -> zstd_decode_all c = inl d -> bytes_ok d
}.

Definition rect_typed (r : DamageRect) : Prop :=
  fits 32 (dr_x r) /\ fits 32 (dr_y r) /\ fits 32 (dr_width r) /\ fits 32 (dr_height r).

Section Decompression.
Context `{CodecBytes}.

Lemma decompress_bytes k c d : decompress k c = inl d -> bytes_ok c -> bytes_ok d.
Proof.
  intros E Hc. revert E. destruct k; cbn; [by intros [= <-]| |]; unfold decompress_region.
  - destruct (decompress_size_prepended c) eqn:E; intros [= <-]. by eapply lz4_decoded_bytes.
  - destruct (zstd_decode_all c) eqn:E; intros [= <-]. by eapply zstd_decoded_bytes.
Qed.

Lemma region_blobs_bytes c rs bs :
  bytes_ok (cf_data c) -> region_blobs c rs = Some bs -> Forall bytes_ok bs.
Proof.
  unfold region_blobs. intros Hc E. apply list.Forall_forall. intros b Hb.
  apply mapM_Some in E. apply list_elem_of_lookup in Hb as [j Hj].
  destruct (list.Forall2_lookup_r _ _ _ _ _ E Hj) as (i & _ & Hi). cbn in Hi.
  destruct (get (region_offsets c) i) as [start|]; [|done]. cbn in Hi.
  destruct (get (region_sizes c) i) as [size|]; [|done]. by eapply bytes_slice.
Qed.

Lemma flatten_decoded_bytes k bs scratch out :
  Forall bytes_ok bs -> bytes_ok scratch ->
  flatten_decoded (decompress k <$> bs) scratch = Ret out -> bytes_ok out.
Proof.
  intros Hb. revert scratch. induction Hb as [|b bs Hb Hbs IH]; intros scratch Hs; cbn.
  - by intros [= <-].
  - destruct (decompress k b) as [d|e] eqn:E; [|done]. apply IH. apply list.Forall_app.
    split; [done|]. by eapply decompress_bytes.
Qed.

Lemma delta_decode_bytes delta previous stride rs out0 out :
  bytes_ok delta -> bytes_ok previous ->
  delta_decode delta previous stride rs out0 = Some out -> bytes_ok out.
Proof.
  unfold delta_decode. intros Hd Hp. case_decide; [|done].
  destruct (foldM _ (previous, 0) rs) as [[o off]|] eqn:E; [|done]. intros [= <-].
  eapply (foldM_inv (fun st => bytes_ok st.1)) in E; [done| |done].
  intros st rect st' _ Hst E1.
  eapply (foldM_inv (fun st => bytes_ok st.1)) in E1; [done| |done].
  intros [o1 off1] row st1 _ Ho E2. cbn in E2.
  destruct (foldM _ o1 _) as [o2|] eqn:E3; [|done]. injection E2 as <-. cbn.
  eapply (foldM_inv bytes_ok) in E3; [done| |done].
  intros o3 i o4 _ Ho3 E4.
  destruct (get previous _) as [p|] eqn:Ep; [|done]. cbn in E4.
  destruct (get delta _) as [d|] eqn:Ed; [|done]. cbn in E4.
  eapply bytes_set; [exact Ho3| |exact E4].
  apply fits_lxor; [lia| |]; by eapply bytes_get.
Qed.

Lemma decompress_into_bytes c previous stride rs sc out0 k sc' out :
  bytes_ok (cf_data c) -> bytes_ok previous ->
  decompress_frame_into c previous stride rs sc out0 k = Ret (sc', out) ->
  bytes_ok sc' /\ bytes_ok out.
Proof.
  unfold decompress_frame_into. intros Hc Hp.
  destruct (region_blobs c rs) as [bs|] eqn:Eb; [|done]. cbn.
  destruct (flatten_decoded _ _) as [d|e|] eqn:Ef; [|done..]. cbn.
  destruct (delta_decode _ _ _ _ _) as [o|] eqn:Ed; [|done]. cbn. intros [= <- <-].
  assert (bytes_ok d) as Hd.
  { eapply flatten_decoded_bytes; [|constructor|exact Ef]. by apply (region_blobs_bytes c rs). }
  split; [done|]. exact (delta_decode_bytes _ _ _ _ _ _ Hd Hp Ed).
Qed.

(** ** Parsing *)

Lemma region_step_typed payload st i st' :
  bytes_ok payload -> Forall rect_typed st.1.1.1 ->
  region_step payload st i = Ret st' -> Forall rect_typed st'.1.1.1.
Proof.
  destruct st as [[[rs os] ss] off]. unfold region_step. intros Hp Hrs.
  destruct (slice payload _ _) as [s|] eqn:Es; [|done]. cbn [or_panic mbind run_bind].
  destruct (ref_from_bytes s) as [w|] eqn:Ew; [|done]. intros [= <-]. cbn.
  apply list.Forall_app. split; [done|]. constructor; [|constructor].
  apply ref_from_bytes_wf in Ew as (H1 & H2 & H3 & H4 & _); [done|by eapply bytes_slice].
Qed.

Lemma deserialize_typed payload w h s rs cf :
  bytes_ok payload -> deserialize_frame_payload payload = Ret (w, h, s, rs, cf) ->
  fits 32 w /\ fits 32 h /\ fits 32 s /\ Forall rect_typed rs /\ bytes_ok (cf_data cf).
Proof.
  unfold deserialize_frame_payload. intros Hp.
  destruct (ensure _ TooShortForMeta); [|done..]. cbn [mbind run_bind].
  destruct (slice payload 0 _) as [s0|] eqn:Es; [|done]. cbn [or_panic mbind run_bind].
  destruct (ref_from_bytes s0) as [m|] eqn:Em; [|done]. cbn [mbind run_bind].
  destruct (ensure _ TooShortForRegions); [|done..]. cbn [mbind run_bind].
  destruct (foldR _ _ _) as [[[[rs' os] ss] off]| |] eqn:Ef; [|done..]. cbn [mbind run_bind].
  destruct (slice payload _ (zlen payload)) as [data|] eqn:Ed; [|done]. cbn [or_panic mbind run_bind].
  destruct (ensure _ TooShortForData); [|done..]. cbn [mbind run_bind]. intros [= <- <- <- <- <-].
  apply ref_from_bytes_wf in Em as (H1 & H2 & H3 & _); [|by eapply bytes_slice].
  eapply (foldR_inv (fun st => Forall rect_typed st.1.1.1)) in Ef; [| |constructor].
  - split_and!; [exact H1|exact H2|exact H3|exact Ef|]. by eapply bytes_slice.
  - intros st i st' Hst. by apply region_step_typed.
Qed.
End Decompression.

(** ** Frames *)

Definition frame_typed (f : GpuFrame) : Prop :=
  bytes_ok (gf_data f) /\ fits 32 (gf_width f) /\ fits 32 (gf_height f) /\
  fits 32 (gf_stride f) /\ fits 64 (gf_timestamp_ns f).

Definition damage_typed (d : DamageRegion) : Prop :=
  fits 32 (dg_x d) /\ fits 32 (dg_y d) /\ fits 32 (dg_width d) /\ fits 32 (dg_height d).

Definition display_typed (d : DisplayFrame) : Prop :=
  fits 16 (df_surface_id d) /\ bytes_ok (df_data d) /\ Forall damage_typed (df_damage d) /\
  fits 32 (df_width d) /\ fits 32 (df_height d) /\ fits 32 (df_stride d) /\
  fits 64 (df_timestamp_ns d).

(** What [upscale_for_display] returns. *)
Definition pixels_typed (p : list Z * Z * Z * Z) : Prop :=
  bytes_ok p.1.1.1 /\ fits 32 p.1.1.2 /\ fits 32 p.1.2 /\ fits 32 p.2.

(** What the types of a backend's methods say of its results. *)
Class TypedInterpolator (B : Type) `{FrameInterpolator B} := {
  fi_interpolate_typed b x y t f b' : frame_typed x -> frame_typed y ->
    fi_interpolate b x y t = (inl f, b') -> frame_typed f;
  fi_upscale_typed b x w h f : frame_typed x -> fits 32 w -> fits 32 h ->
    fi_upscale b x w h = Some (inl f) -> frame_typed f
}.

Lemma to_byte_fits x : fits 8 (to_byte x).
Proof.
  unfold to_byte, fits. change (2 ^ 8) with 256.
  destruct x; try (match goal with |- context [saturate ?a ?b ?x ?n] =>
    pose proof (saturate_range a b x n ltac:(lia) ltac:(lia)) end); lia.
Qed.

Lemma resample_bytes taps src sw sh ss dw dh dst out :
  bytes_ok dst -> resample taps src sw sh ss dw dh dst = Some out -> bytes_ok out.
Proof.
  unfold resample. intros Hd. apply foldM_inv; [|done]. intros d1 y d2 _ H1.
  destruct (taps _ sh) as [rows|]; [|done]. cbn [mbind option_bind].
  apply foldM_inv; [|done]. intros d3 x d4 _ H3.
  destruct (taps _ sw) as [cols|]; [|done]. cbn [mbind option_bind].
  apply foldM_inv; [|done]. intros d5 c d6 _ H5.
  destruct (convolve _ _ _ _ _ _ _) as [acc|]; [|done]. cbn [mbind option_bind].
  apply bytes_set; [done|]. apply to_byte_fits.
Qed.

#[export] Instance linear_blend_typed : TypedInterpolator LinearBlendInterpolator.
Proof.
  split; cbn.
  - intros b0 x y t f b' (Hx & Hw & Hh & Hs & Ht) (Hy & _). unfold linear_blend.
    destruct (negb (in_unit t)); [done|]. destruct (negb (same_dimensions x y)); [done|].
    intros E; injection E as <-. split_and!; try done.
    + cbn [gf_data]. revert Hx Hy. generalize (gf_data x), (gf_data y). generalize (t_fixed t). clear. intros tf.
      intros a b Ha. revert b. induction Ha as [|v l Hv Hl IH]; intros [|u k] Hk; [constructor..|].
      inversion Hk; subst. constructor; [apply wrap_fits; lia|by apply IH].
    + cbn [gf_timestamp_ns]. destruct (_ <=? _); [apply wrap_fits; lia|done].
  - intros _ x w h f (Hx & _ & _ & _ & Ht) Hw Hh. unfold cpu_bicubic_upscale.
    destruct (resample _ _ _ _ _ _ _ _) as [d|] eqn:E; [|done]. cbn. intros [= <-].
    split_and!; cbn; try done; [|apply wrap_fits; lia].
    apply resample_bytes in E; [done|apply bytes_zeroes].
Qed.

(** ** The overlay *)

Lemma put_pixel_bytes buf w h s x y rgba :
  bytes_ok rgba -> bytes_ok buf -> bytes_ok (put_pixel buf w h s x y rgba).
Proof.
  intros Hr Hb. unfold put_pixel.
  repeat match goal with |- context [if ?c then _ else _] => destruct c; try done end.
  destruct (splice _ _ _) as [k|] eqn:E; [|done]. exact (bytes_splice _ _ _ _ Hb Hr E).
Qed.

Lemma draw_fps_bytes buf w h s fps : bytes_ok buf -> bytes_ok (draw_fps buf w h s fps).
Proof.
  intros Hb. unfold draw_fps, draw_text.
  assert (bytes_ok [0; 0; 0; 255] /\ bytes_ok [255; 255; 255; 255]) as [Hk Hw].
  { unfold bytes_ok, fits. by repeat constructor. }
  repeat match goal with
  | |- bytes_ok (foldl _ _ _) => apply (foldl_inv bytes_ok)
  | |- forall _, _ => intros
  | |- context [match glyph ?c with _ => _ end] => destruct (glyph c)
  | |- context [if ?c then _ else _] => destruct c
  | |- bytes_ok (put_pixel _ _ _ _ _ _ _) => apply put_pixel_bytes
  end; done.
Qed.

Lemma scale_damage_typed dw dh w h r : damage_typed (scale_damage dw dh w h r).
Proof. split_and!; apply scale_round_fits. Qed.

Lemma overlay_damage_typed dw dh : damage_typed (overlay_damage dw dh).
Proof.
  unfold damage_typed, overlay_damage, overlay_rect, sat_sub, fits. cbn.
  change GLYPH_STRIDE with 6. change TEXT_SCALE with 3. change PAD with 4. change GLYPH_H with 7.
  change (2 ^ 32) with 4294967296. lia.
Qed.

(** ** The parser *)

Definition header_typed (h : FrameHeader) : Prop := wf h.

Definition message_typed (m : IncomingMessage) : Prop :=
  header_typed (im_header m) /\ bytes_ok (im_payload m).

Definition parser_typed (p : StreamParser) : Prop :=
  bytes_ok (buf p) /\ forall sid, bytes_ok (default [] (chunks p !! sid)).

Lemma reassemble_typed ch h payload ch' m :
  (forall sid, bytes_ok (default [] (ch !! sid))) -> header_typed h -> bytes_ok payload ->
  reassemble ch h payload = (ch', m) ->
  (forall sid, bytes_ok (default [] (ch' !! sid))) /\ Forall message_typed (option_list m).
Proof.
  intros Hch Hh Hp. unfold reassemble. set (sid := stream_id h).
  assert (Hb : bytes_ok (default [] (ch !! sid) ++ payload)) by (apply list.Forall_app; split; [apply Hch|done]).
  destruct (_ && _ && _).
  { intros [= <- <-]. split; [done|]. by apply list.Forall_singleton. }
  destruct (negb _); intros [= <- <-].
  - rewrite lookup_insert_eq. split; [|by apply list.Forall_singleton]. intros s.
    destruct (decide (s = sid)) as [->|]; [by rewrite lookup_delete_eq; constructor|].
    rewrite lookup_delete_ne, lookup_insert_ne by done. apply Hch.
  - split; [|constructor]. intros s.
    destruct (decide (s = sid)) as [->|]; [rewrite lookup_insert_eq; exact Hb|].
    rewrite lookup_insert_ne by done. apply Hch.
Qed.

Lemma drains_typed p ms q r :
  drains p ms q r -> parser_typed p -> parser_typed q /\ Forall message_typed ms.
Proof.
  induction 1 as [p Ht|p e Ht|p p1 m ms q r Ht Hd IH]; intros Hp; [by split; [|constructor]..|].
  pose proof (proj2 (parse_turn_consumes _ _ _ (proj1 Hp) Ht)) as Hb1.
  apply parse_turn_inv in Ht as (hdr & ty & Eh & _ & _ & _ & _ & Er).
  apply header_slice_wf in Eh; [|apply Hp].
  apply reassemble_typed in Er as [Hc Hm]; [|apply Hp|exact Eh|by apply Forall_drop, Forall_take, Hp].
  destruct IH as [Hq Hms]; [by split|]. split; [done|]. by apply list.Forall_app.
Qed.

Definition read_typed (r : read_result) : Prop :=
  match r with ReadOk bs => bytes_ok bs | ReadErr => True end.

Lemma deliver_typed room msgs out room' out' ok :
  Forall message_typed msgs -> Forall message_typed out ->
  deliver room msgs out = (room', out', ok) -> Forall message_typed out'.
Proof.
  intros Hm. revert room out. induction Hm as [|m msgs Hm Hms IH]; intros room out Ho; cbn.
  - by intros [= _ <- _].
  - assert (Forall message_typed (out ++ [m])) by (by apply list.Forall_app; rewrite list.Forall_singleton).
    destruct room as [[|k]|]; [by intros [= _ <- _]|by apply IH..].
Qed.

Lemma read_loop_typed p room rs out :
  parser_typed p -> Forall read_typed rs -> Forall message_typed out ->
  exists ms st, read_loop p room rs out = Some (ms, st) /\ Forall message_typed ms.
Proof.
  intros Hp Hrs. revert p room out Hp. induction Hrs as [|r rs Hr Hrs IH]; intros p room out Hp Ho; cbn.
  { by do 2 eexists. }
  destruct r as [bs|]; [|by do 2 eexists]. cbn in Hr.
  case_decide; [by do 2 eexists|].
  destruct (push_drains p bs (proj1 Hp) Hr) as (ms1 & q & e & Hd & ->). cbn.
  apply drains_typed in Hd as [Hq Hms1].
  2: { split; [|exact (proj2 Hp)]. apply list.Forall_app. split; [apply Hp|done]. }
  destruct e as [e|]; cbn; [by do 2 eexists|].
  destruct (deliver room ms1 out) as [[room' out'] ok] eqn:Ed.
  apply deliver_typed in Ed; [|done..]. destruct ok; [by apply IH|by do 2 eexists].
Qed.

(** ** The receive loop *)

Section Loop.
Context `{CodecBytes} {B : Type} `{TypedInterpolator B}.

Definition opt_typed (f : option GpuFrame) : Prop := forall x, f = Some x -> frame_typed x.

Definition manager_typed (im : option (InterpolationManager B)) : Prop :=
  forall i, im = Some i -> opt_typed (im_anchor i) /\ opt_typed (im_target i).

Definition state_typed (st : ClientState B) : Prop :=
  bytes_ok (cl_previous st) /\ bytes_ok (cl_scratch st) /\ manager_typed (cl_interp st) /\
  fits 64 (cl_frame_count st).

Definition result_typed (r : option (ClientState B * list DisplayFrame)) : Prop :=
  match r with Some (st, shown) => state_typed st /\ Forall display_typed shown | None => True end.

Lemma manager_fmap_typed f im :
  (forall i, opt_typed (im_anchor i) -> opt_typed (im_target i) ->
             opt_typed (im_anchor (f i)) /\ opt_typed (im_target (f i))) ->
  manager_typed im -> manager_typed (f <$> im).
Proof.
  intros Hf Him i E. destruct im as [j|]; [|done]. cbn in E. injection E as <-.
  destruct (Him j eq_refl). by apply Hf.
Qed.

Lemma reset_typed im : manager_typed im -> manager_typed (reset_anchor <$> im).
Proof. by apply manager_fmap_typed. Qed.

Lemma clear_typed im : manager_typed im -> manager_typed (clear <$> im).
Proof. by apply manager_fmap_typed. Qed.

Lemma push_typed f im :
  frame_typed f -> manager_typed im -> manager_typed ((fun i => push_frame i f) <$> im).
Proof.
  intros Hf. apply manager_fmap_typed. intros i Ha Ht. cbn.
  split; [destruct (im_force_reset i); done|]. by intros x [= <-].
Qed.

Lemma interpolate_typed i t r i' :
  manager_typed (Some i) -> interpolate i t = (r, i') ->
  manager_typed (Some i') /\ forall f, r = inl (Some f) -> frame_typed f.
Proof.
  intros Hi. destruct (Hi i eq_refl) as [Ha Ht]. unfold interpolate.
  destruct (im_anchor i) as [a|] eqn:Ea; [|by intros [= <- <-]].
  destruct (im_target i) as [b|] eqn:Eb; [|by intros [= <- <-]].
  destruct (fi_interpolate _ a b t) as [[f|e] be] eqn:Ei; intros [= <- <-]; split; try done.
  1, 3: intros j [= <-]; cbn; by rewrite ?Ea, ?Eb.
  intros g [= <-]. by eapply fi_interpolate_typed; [apply Ha|apply Ht|].
Qed.

Lemma upscale_typed cfg im f p :
  frame_typed f -> upscale_for_display cfg im f = Some p -> pixels_typed p.
Proof.
  intros Hf. pose proof Hf as (Hd & Hw & Hh & Hs & _). unfold upscale_for_display.
  destruct (do_upscale cfg); [|by intros [= <-]].
  set (tw := scale_round _ _). set (th := scale_round _ _).
  assert (Hcpu : upscale_bicubic (gf_data f) (gf_width f) (gf_height f) (gf_stride f) tw th = None \/
    exists d s, upscale_bicubic (gf_data f) (gf_width f) (gf_height f) (gf_stride f) tw th =
      Some (d, (tw, th, s)) /\ bytes_ok d /\ fits 32 s).
  { unfold upscale_bicubic. destruct (resample _ _ _ _ _ _ _ _) as [d|] eqn:E; [right|by left].
    do 2 eexists. split_and!; [done| |apply wrap_fits; lia].
    apply resample_bytes in E; [done|apply bytes_zeroes]. }
  assert (Htw : fits 32 tw /\ fits 32 th) by (split; apply scale_round_fits). destruct Htw as [Htw Hth].
  assert (Hfall : forall q, ('(data, (uw, uh, us)) ← upscale_bicubic (gf_data f) (gf_width f)
      (gf_height f) (gf_stride f) tw th; Some (data, uw, uh, us)) = Some q -> pixels_typed q).
  { intros q. destruct Hcpu as [->|(d & s & -> & Hb & Hs')]; [done|]. cbn. by intros [= <-]. }
  destruct im as [m|]; cbn [mbind option_bind]; [|apply Hfall].
  destruct (fi_upscale _ f tw th) as [[g|e]|] eqn:Eg; cbn [mbind option_bind]; [|apply Hfall|done].
  intros [= <-]. apply fi_upscale_typed in Eg as (G1 & G2 & G3 & G4 & _); done.
Qed.

(** What [decode_message] hands on. *)
Definition decoded_typed (d : decoded) : Prop :=
  match d with
  | BadPayload => True
  | BadFrame_ base _ => bytes_ok base
  | Decoded base _ w h stride regions scratch image =>
      bytes_ok base /\ fits 32 w /\ fits 32 h /\ fits 32 stride /\
      bytes_ok scratch /\ bytes_ok image
  end.

Lemma decode_typed cfg prev has sc anchor payload d :
  bytes_ok prev -> bytes_ok payload ->
  decode_message cfg prev has sc anchor payload = Some d -> decoded_typed d.
Proof.
  intros Hp Hb. unfold decode_message.
  destruct (deserialize_frame_payload payload) as [[[[[w h] s] rs] cf]| |] eqn:E;
    [|by intros [= <-]|done].
  apply deserialize_typed in E as (Hw & Hh & Hs & _ & Hcf); [|done]. cbn zeta.
  set (base := if anchor || negb has then _ else prev).
  assert (Hbase : bytes_ok base) by (unfold base; destruct (_ || _); [by apply bytes_resize|done]).
  destruct (decompress_frame_into _ _ _ _ _ _ _) as [[sc' out]| |] eqn:Ed;
    [|by intros [= <-]|done].
  apply decompress_into_bytes in Ed as [? ?]; [|done..]. by intros [= <-].
Qed.

Lemma state_step_typed prev has im n sc last ema :
  bytes_ok prev -> bytes_ok sc -> manager_typed im ->
  fits 64 n -> state_typed (mkClientState prev has im n sc last ema).
Proof. intros. by split_and!. Qed.

Lemma optional_reset_typed (reset : bool) im :
  manager_typed im -> manager_typed (if reset then reset_anchor <$> im else im).
Proof. destruct reset; [apply reset_typed|done]. Qed.

Lemma shown_typed sid data damage w h s ts :
  fits 16 sid -> pixels_typed (data, w, h, s) -> Forall damage_typed damage -> fits 64 ts ->
  display_typed (mkDisplayFrame sid data damage w h s ts).
Proof. intros ? (?&?&?&?) ? ?. by split_and!. Qed.

Lemma overlaid_typed (dbg : bool) data w h s ema :
  pixels_typed (data, w, h, s) ->
  pixels_typed (if dbg then draw_fps data w h s ema else data, w, h, s).
Proof. intros (Hb & ?). split; [|done]. destruct dbg; [by apply draw_fps_bytes|done]. Qed.

(** The frame the manager makes between the last two, if any. *)
Lemma interpolated_typed (im : option (InterpolationManager B)) t im' f :
  manager_typed im ->
  match im with
  | None => (None, None)
  | Some i => let '(r, i) := interpolate i t in
              (Some i, match r with inl f => f | inr _ => None end)
  end = (im', f) ->
  manager_typed im' /\ opt_typed f.
Proof.
  intros Him. destruct im as [i|]; [|by intros [= <- <-]].
  destruct (interpolate i t) as [r i'] eqn:E. intros [= <- <-].
  apply interpolate_typed in E as [? Hf]; [|done]. split; [done|].
  destruct r as [g|e]; [|done]. intros x ->. by apply Hf.
Qed.

(** The second frame shown for a message. *)
Lemma extra_typed cfg im inter sid ema extra :
  fits 16 sid -> opt_typed inter ->
  match inter with
  | None => Some []
  | Some f =>
      '(idata, iw, ih, istride) ← upscale_for_display cfg im f;
      let idata := if cc_debug cfg then draw_fps idata iw ih istride ema else idata in
      Some [mkDisplayFrame sid idata [mkDamageRegion 0 0 iw ih] iw ih istride (gf_timestamp_ns f)]
  end = Some extra -> Forall display_typed extra.
Proof.
  intros Hsid Hi. destruct inter as [f|]; [|by intros [= <-]].
  pose proof (Hi f eq_refl) as Hf.
  destruct (upscale_for_display cfg im f) as [[[[d w] h] s]|] eqn:E; [|done].
  cbn [mbind option_bind]. intros [= <-]. apply upscale_typed in E; [|done].
  apply list.Forall_singleton, shown_typed; [done|by apply overlaid_typed| |apply Hf].
  apply list.Forall_singleton. destruct E as (_ & ? & ? & _). by split_and!.
Qed.

Lemma frame_message_typed cfg st m anchor now :
  state_typed st -> message_typed m -> result_typed (frame_message cfg st m anchor now).
Proof.
  intros (Hp & Hsc & Him & Hn) [(Hsid & _ & _ & _ & Hts) Hpl]. unfold frame_message.
  destruct (decode_message _ _ _ _ _ _) as [d|] eqn:Ed; [|done]. cbn [mbind option_bind].
  apply decode_typed in Ed; [|done..].
  destruct d as [|base rs|base rs w h s regions sc out].
  - split; [by split_and!|constructor].
  - split; [|constructor]. apply state_step_typed; try done. by apply optional_reset_typed.
  - destruct Ed as (Hb & Hw & Hh & Hs & Hsc' & Hout).
    set (frame := GpuFrame_from_data _ _ _ _ _).
    assert (Hf : frame_typed frame) by by split_and!.
    pose proof (push_typed frame _ Hf (optional_reset_typed rs _ Him)) as Hpush.
    destruct (match _ with None => _ | Some _ => _ end) as [im' inter] eqn:Ei.
    apply interpolated_typed in Ei as [Him' Hinter]; [|done].
    destruct (upscale_for_display cfg im' frame) as [[[[dd dw] dh] ds]|] eqn:Eu; [|done].
    cbn [mbind option_bind]. apply upscale_typed in Eu; [|done].
    set (ema := update_fps _ _ _).
    assert (Hdmg : Forall damage_typed (scale_damage dw dh w h <$> regions)).
    { apply list.Forall_fmap, list.Forall_true. intros r. apply scale_damage_typed. }
    match goal with |- result_typed (let '(_, _) := ?p in _) =>
      assert (Hover : pixels_typed (p.1, dw, dh, ds) /\ Forall damage_typed p.2); [|destruct p as [pd pg]]
    end.
    { destruct (cc_debug cfg); cbn; [|done]. split; [by apply (overlaid_typed true)|].
      apply list.Forall_app. split; [done|]. apply list.Forall_singleton, overlay_damage_typed. }
    destruct (match inter with None => _ | Some _ => _ end) as [extra|] eqn:Ex; [|done].
    apply extra_typed in Ex; [|done..]. split; [apply state_step_typed; try done; apply wrap_fits; lia|].
    destruct Hover. constructor; [by apply shown_typed|exact Ex].
Qed.

Lemma client_message_typed cfg st m now :
  state_typed st -> message_typed m -> result_typed (client_message cfg st m now).
Proof.
  intros Hst Hm. unfold client_message.
  assert (Hkeep : result_typed (Some (st, []))) by by split.
  destruct (FrameHeader_msg_type (im_header m)) as [[]|]; try done; try by apply frame_message_typed.
  destruct (_ <=? _); [|done]. destruct (_ ≫= _); [|done].
  destruct Hst as (? & ? & ? & ?). split; [|constructor]. apply state_step_typed; try done.
  by apply clear_typed.
Qed.

Lemma run_typed cfg ms st :
  state_typed st -> Forall (fun x => message_typed x.1) ms -> result_typed (client_run cfg st ms).
Proof.
  intros Hst Hms. revert st Hst. induction Hms as [|[m now] ms Hm Hms IH]; intros st Hst; [by split|].
  cbn [client_run]. pose proof (client_message_typed cfg st m now Hst Hm) as T1.
  destruct (client_message cfg st m now) as [[st1 shown]|]; [|done]. destruct T1 as [T1 S1].
  cbn [mbind option_bind]. pose proof (IH st1 T1) as T2.
  destruct (client_run cfg st1 ms) as [[st2 rest]|]; [|done]. destruct T2 as [T2 S2].
  cbn [mbind option_bind]. split; [done|]. by apply list.Forall_app.
Qed.
End Loop.

(** The client is type sound for any bytes the transport may read, in
    any slicing and with any room in the channel: the read loop returns, and whatever
    messages it delivered, at whatever times, the receive loop either panics or ends in
    a state whose buffers hold bytes and whose frames and counters are of their widths,
    having offered the display only frames whose pixels are bytes and whose surface id,
    sizes, damage and timestamp are of their widths.  Codecs and the interpolation
    backend are asked only what their types say. *)
Theorem client_typed `{CodecBytes} {B} `{TypedInterpolator B} (cfg : ClientConfig)
    (backend : option B) results room :
  Forall read_typed results ->
  exists ms st, read_loop StreamParser_new room results [] = Some (ms, st) /\
    forall nows, result_typed (client_run cfg (ClientState_new (Manager_new <$> backend)) (zip ms nows)).
Proof.
  intros Hr. destruct (read_loop_typed StreamParser_new room results []) as (ms & st & E & Hms);
    [|done|by apply list.Forall_nil_2|].
  { split; [by apply list.Forall_nil_2|]. intros s. cbn. rewrite lookup_empty. by apply list.Forall_nil_2. }
  exists ms, st. split; [done|]. intros nows. apply run_typed.
  - split_and!; [by apply list.Forall_nil_2|by apply list.Forall_nil_2| |done].
    intros i Hi. destruct backend as [b|]; [|done]. by injection Hi as <-.
  - apply list.Forall_lookup. intros k [m now] Hk. apply lookup_zip_Some in Hk as [Hk _].
    by eapply (proj1 (list.Forall_lookup _ _) Hms).
Qed.

(** ** A run with a backend, upscaling and the overlay *)

#[local] Existing Instance store_codecs.

#[local] Instance store_codec_bytes : CodecBytes.
Proof.
  split; intros c d Hc; cbn; unfold store_decode;
    destruct c as [|[|[]|] c]; try done; intros [= <-]; by inversion Hc.
Qed.

Definition demo_pixel (ty : MsgType) (ts : Z) (px : list Z) : list Z :=
  let payload := as_bytes (FrameMeta_new 1 1 4 1) ++ as_bytes (WireRegion_new 0 0 1 1 4) ++ px in
  as_bytes (FrameHeader_new 1 ty LAST_CHUNK (zlen payload) ts) ++ payload.

Definition demo_reads : list read_result :=
  [ReadOk (demo_pixel AnchorFrame 10 [9; 8; 7; 255]);
   ReadOk (demo_pixel FrameUpdate 20 [1; 1; 1; 0] ++ [3; 2; 1]); ReadErr].

Definition demo_config : ClientConfig := mkClientConfig (f64_of_int 2) true KNone.

Lemma client_typed_witness :
  exists ms st cl shown,
    read_loop StreamParser_new None demo_reads [] = Some (ms, st) /\
    client_run demo_config (ClientState_new (Manager_new <$> Some LinearBlend_)) (zip ms [0; 10 ^ 7])
      = Some (cl, shown) /\
    state_typed cl /\ Forall display_typed shown /\
    (fun d => (df_width d, df_height d, df_timestamp_ns d)) <$> shown
      = [(2, 2, 10); (2, 2, 20); (2, 2, 15)].
Proof.
  destruct (client_typed demo_config (Some LinearBlend_) demo_reads None) as (ms & st & E & Hrun).
  { repeat constructor; cbn; apply (bool_decide_unpack _); vm_compute; exact Logic.I. }
  exists ms, st. specialize (Hrun [0; 10 ^ 7]).
  destruct (client_run _ _ _) as [[cl shown]|] eqn:Er.
  - exists cl, shown. destruct Hrun. split_and!; try done.
    assert (Some (ms, st) = read_loop StreamParser_new None demo_reads []) as Ems by done.
    vm_compute in Ems. injection Ems as -> ->. vm_compute in Er. injection Er as <- <-. reflexivity.
  - exfalso. assert (Some (ms, st) = read_loop StreamParser_new None demo_reads []) as Ems by done.
    vm_compute in Ems. injection Ems as -> ->. vm_compute in Er. discriminate Er.
Defined.
