(* ===== verification/Session.v ===== *)
(** A streaming session: the server's compress loop, the wire, and the client's
    receive loop composed, with the contract between capture and pipeline.

    A session has a fixed geometry.  Turns are passes of [compress_send_loop]
    that find a frame; the link of [Transport] answers each, and its write loop
    takes its steps between them.  The specification is one line: for every
    frame the transport takes, in order, the client shows the server's picture. *)

From Stdlib Require Import SpecFloat.
From S2P Require Import Prelude Wire Proto ChunkSender Multiplexer Queue Transport.
From S2P Require Import Delta Compress FramePayload Floats Scaling ServerPipeline.
From S2P Require Import Interpolate FpsOverlay Display ClientPipeline.
Import Header Frame.

(** ** Geometry *)

Record geom := mkGeom { g_w : Z; g_h : Z; g_stride : Z }.

Definition g_bytes (g : geom) : Z := g_stride g * g_h g.

(** Non-empty, rows long enough for their pixels, at most a gigabyte. *)
Definition geom_ok (g : geom) : Prop :=
  0 < g_w g /\ 0 < g_h g /\ g_w g * 4 <= g_stride g /\ g_bytes g <= 2 ^ 30.

Definition in_view (g : geom) (k : Z) : Prop := visible (g_w g) (g_h g) (g_stride g) k.

(** Two buffers show the same picture; the row padding may differ. *)
Definition agree (g : geom) (a b : list Z) : Prop :=
  zlen a = g_bytes g /\ zlen b = g_bytes g /\
  forall k : nat, in_view g (Z.of_nat k) -> a !! k = b !! k.

Definition rect_in (g : geom) (r : DamageRect) : Prop :=
  0 <= dr_x r /\ 0 <= dr_y r /\ 0 <= dr_width r /\ 0 <= dr_height r /\
  dr_x r + dr_width r <= g_w g /\ dr_y r + dr_height r <= g_h g.

Lemma geom_bounds g : geom_ok g ->
  0 < g_w g < 2 ^ 30 /\ 0 < g_h g < 2 ^ 30 /\ 0 < g_stride g <= 2 ^ 30 /\ 0 < g_bytes g <= 2 ^ 30.
Proof.
  unfold geom_ok, g_bytes. change (2 ^ 30) with 1073741824. intros (Hw & Hh & Hs & Hn).
  assert (g_stride g <= g_stride g * g_h g) by nia.
  assert (g_h g <= g_stride g * g_h g) by nia.
  assert (4 * g_h g <= g_stride g * g_h g) by nia. lia.
Qed.

Lemma rect_in_ok g r : geom_ok g -> rect_in g r ->
  rect_ok (g_stride g) (g_bytes g) r /\ rect_fits r /\ 0 <= rect_bytes r <= 2 ^ 30.
Proof.
  intros Hg (Hx & Hy & Hw & Hh & Hxw & Hyh). pose proof (geom_bounds g Hg) as (Bw & Bh & Bs & Bn).
  destruct Hg as (_ & _ & Hs & Hn). change (2 ^ 30) with 1073741824 in *. split; [|split].
  - unfold rect_ok. do 6 (split; [width_lia|]).
    destruct (decide (dr_height r = 0)); [by left|right]. unfold g_bytes in *.
    assert ((dr_y r + dr_height r - 1) * g_stride g <= (g_h g - 1) * g_stride g)
      by (apply Z.mul_le_mono_nonneg_r; lia). lia.
  - unfold rect_fits. split_and!; width_lia.
  - unfold rect_bytes, g_bytes in *. split; [apply Z.mul_nonneg_nonneg; lia|].
    assert (dr_width r * 4 * dr_height r <= g_stride g * g_h g)
      by (apply Z.mul_le_mono_nonneg; lia). lia.
Qed.

(** A byte covered by rects of the frame is in view. *)
Lemma covered_in_view g rs k :
  Forall (rect_in g) rs -> covered (spans (g_stride g) rs) k = true -> in_view g k.
Proof.
  intros Hrs Hc. apply covered_spec in Hc as (s & Hs & Hk).
  apply spans_elem in Hs as (r & row & Hr & Hrow & ->).
  rewrite list.Forall_forall in Hrs. specialize (Hrs r Hr) as (?&?&?&?&?&?).
  unfold row_span in Hk. cbn in Hk. exists (dr_y r + row). split; lia.
Qed.

Lemma in_view_bound g k : geom_ok g -> in_view g k -> 0 <= k < g_bytes g.
Proof.
  intros (Hw & Hh & Hs & _) (row & Hrow & Hk). unfold g_bytes.
  assert (row * g_stride g <= (g_h g - 1) * g_stride g) by (apply Z.mul_le_mono_nonneg_r; lia).
  assert (0 <= row * g_stride g) by (apply Z.mul_nonneg_nonneg; lia). lia.
Qed.

Lemma agree_refl g a : zlen a = g_bytes g -> agree g a a.
Proof. intros H. unfold agree. by split_and!. Qed.

Lemma agree_sym g a b : agree g a b -> agree g b a.
Proof. intros (Ha & Hb & H). unfold agree. split_and!; [done|done|]. intros k Hk. symmetry. by apply H. Qed.

Lemma agree_trans g a b c : agree g a b -> agree g b c -> agree g a c.
Proof.
  intros (Ha & Hb & H1) (_ & Hc & H2). unfold agree. split_and!; [done|done|].
  intros k Hk. rewrite H1 by done. by apply H2.
Qed.

(** ** The delta does not see the padding *)

Lemma span_delta_agree g cur a b r row :
  geom_ok g -> agree g a b -> zlen cur = g_bytes g -> rect_in g r -> 0 <= row < dr_height r ->
  span_delta cur a (row_span (g_stride g) r row) = span_delta cur b (row_span (g_stride g) r row).
Proof.
  intros Hg (Ha & Hb & Hab) Hc Hr Hrow.
  pose proof (rect_in_ok g r Hg Hr) as (Hok & _).
  pose proof (row_span_ok _ _ _ _ Hok Hrow) as [(H1 & H2 & H3) _].
  unfold span_delta. f_equal. apply list_eq. intros i.
  set (s := row_span (g_stride g) r row) in *.
  destruct (decide (i < Z.to_nat s.2)%nat).
  - rewrite !lookup_take_lt, !lookup_drop by done. apply Hab.
    apply (covered_in_view g [r]); [by constructor|]. apply covered_spec. exists s.
    split; [|lia]. apply spans_elem. exists r, row. split_and!; [constructor|lia|lia|done].
  - rewrite !lookup_take_ge by lia. done.
Qed.

Lemma region_deltas_agree g cur a b rs :
  geom_ok g -> agree g a b -> zlen cur = g_bytes g -> Forall (rect_in g) rs ->
  region_deltas cur a (g_stride g) rs = region_deltas cur b (g_stride g) rs.
Proof.
  intros Hg Hab Hc Hrs. unfold region_deltas. apply list_fmap_ext. intros i r Hr.
  assert (Hin : rect_in g r) by (by eapply (proj1 (list.Forall_lookup _ _) Hrs)).
  unfold spans_delta, rect_spans. f_equal. rewrite <- !list_fmap_compose.
  apply list_fmap_ext. intros j row Hrow. cbn.
  apply span_delta_agree; try done.
  apply elem_of_zrange. by eapply list_elem_of_lookup_2.
Qed.

(** ** One frame through encoder, payload and decoder *)

Section Session.
Context `{CodecLaws} `{U8x32}.

(** The compressor accepts every byte string: always so for LZ4 and for no
    compression. *)
Definition kind_total (k : CompressorKind) : Prop :=
  forall d, bytes_ok d -> exists c, compress k d = inl c.

Lemma kind_total_ok k ds : kind_total k -> Forall bytes_ok ds -> kind_ok k ds.
Proof. intros Hk Hds. eapply list.Forall_impl; [exact Hds|]. exact Hk. Qed.

Lemma compress_size k d : zlen (compress_or_empty k d) <= 512 + 2 * zlen d.
Proof.
  pose proof (zlen_nonneg d). unfold compress_or_empty. destruct k; cbn.
  - lia.
  - apply lz4_size.
  - destruct (zstd_encode_all d) as [c|] eqn:E; [by eapply zstd_size|]. cbn. change (zlen (@nil Z)) with 0. lia.
Qed.

Lemma blobs_size k ds :
  Forall (fun d => zlen d <= 2 ^ 30) ds ->
  Forall (fun b => zlen b < 2 ^ 32) (compress_or_empty k <$> ds) /\
  zlen (mjoin ds) <= zlen ds * 2 ^ 30 /\
  zlen (mjoin (compress_or_empty k <$> ds)) <= zlen ds * 2 ^ 32.
Proof.
  change (2 ^ 30) with 1073741824. change (2 ^ 32) with 4294967296.
  induction 1 as [|d ds Hd _ (IH1 & IH2 & IH3)]; [by split_and!|].
  pose proof (compress_size k d). cbn [fmap list_fmap]. rewrite !zlen_mjoin_cons, zlen_cons.
  split_and!; [constructor; [lia|done]|lia|lia].
Qed.

Lemma region_deltas_small g cur prev rs :
  geom_ok g -> zlen cur = g_bytes g -> zlen prev = g_bytes g -> Forall (rect_in g) rs ->
  Forall (fun d => zlen d <= 2 ^ 30) (region_deltas cur prev (g_stride g) rs).
Proof.
  intros Hg Hc Hp Hrs. unfold region_deltas. apply Forall_fmap.
  eapply list.Forall_impl; [exact Hrs|]. intros r Hr. cbn.
  pose proof (rect_in_ok g r Hg Hr) as (Hok & _ & Hb).
  rewrite region_delta_zlen; [lia|by rewrite Hc|by rewrite Hc].
Qed.

Lemma compress_bytes k d : bytes_ok d -> bytes_ok (compress_or_empty k d).
Proof.
  intros Hd. unfold compress_or_empty. destruct k; cbn; [done|apply lz4_bytes|].
  destruct (zstd_encode_all d) as [c|] eqn:E; [|constructor].
  by destruct (zstd_roundtrip d c Hd E).
Qed.

Lemma mjoin_bytes (bs : list (list Z)) : Forall bytes_ok bs -> bytes_ok (mjoin bs).
Proof.
  induction 1 as [|b bs Hb _ IH]; [constructor|].
  change (mjoin (b :: bs)) with (b ++ mjoin bs). by apply Forall_app.
Qed.

Lemma blobs_bytes k cur prev stride rs :
  bytes_ok cur -> bytes_ok prev -> bytes_ok (mjoin (region_blobs_of k cur prev stride rs)).
Proof.
  intros Hc Hp. apply mjoin_bytes. unfold region_blobs_of. apply Forall_fmap.
  eapply list.Forall_impl; [by apply (region_deltas_bytes cur prev stride rs)|].
  intros d. apply compress_bytes.
Qed.

Lemma payload_bytes_ok meta wrs data : bytes_ok data -> bytes_ok (payload_bytes meta wrs data).
Proof.
  intros Hd. unfold payload_bytes, bytes_ok. rewrite !Forall_app.
  split_and!; [apply as_bytes_ok| |done]. apply mjoin_bytes, Forall_fmap, Forall_true.
  intros w. apply as_bytes_ok.
Qed.

(** The encoder's output for a frame and the payload that carries it. *)
Lemma encode_frame_payload g k cur prev rs scratch out0 te tc :
  geom_ok g -> bytes_ok cur -> bytes_ok prev ->
  zlen cur = g_bytes g -> zlen prev = g_bytes g -> Forall (rect_in g) rs -> zlen rs < 2 ^ 17 ->
  exists scratch' cf payload,
    compress_frame_into cur prev (g_stride g) rs scratch out0 k te tc = Some (scratch', cf) /\
    serialize_frame_payload (g_w g) (g_h g) (g_stride g) rs cf = Some payload /\
    zlen payload < 2 ^ 63 /\ bytes_ok payload /\
    exists cf', deserialize_frame_payload payload = Ret (g_w g, g_h g, g_stride g, rs, cf') /\
      holds_blobs cf' (region_blobs_of k cur prev (g_stride g) rs).
Proof.
  intros Hg Hbc Hbp Hc Hp Hrs Hn. pose proof (geom_bounds g Hg) as (Bw & Bh & Bs & Bn).
  pose proof (region_deltas_small g cur prev rs Hg Hc Hp Hrs) as Hsm.
  destruct (blobs_size k _ Hsm) as (B1 & B2 & B3).
  assert (Ln : zlen (region_deltas cur prev (g_stride g) rs) = zlen rs).
  { unfold region_deltas, zlen. by rewrite length_fmap. }
  rewrite Ln in *. rewrite region_deltas_join in B2. fold (region_blobs_of k cur prev (g_stride g) rs) in *.
  pose proof (zlen_nonneg rs). change (2 ^ 17) with 131072 in Hn.
  change (2 ^ 30) with 1073741824 in *. change (2 ^ 32) with 4294967296 in *.
  assert (Hok : Forall (rect_ok (g_stride g) (zlen cur)) rs).
  { rewrite Hc. eapply list.Forall_impl; [exact Hrs|]. intros r Hr. by apply rect_in_ok. }
  assert (Hfit : Forall rect_fits rs).
  { eapply list.Forall_impl; [exact Hrs|]. intros r Hr. by apply (rect_in_ok g). }
  assert (Hrb : Forall (fun r => rect_bytes r < 2 ^ 32) rs).
  { eapply list.Forall_impl; [exact Hrs|]. intros r Hr. cbn.
    pose proof (rect_in_ok g r Hg Hr) as (_ & _ & Hb). change (2 ^ 30) with 1073741824 in Hb. width_lia. }
  rewrite (compress_frame_into_spec cur prev) by (done || congruence || width_lia).
  set (blobs := region_blobs_of k cur prev (g_stride g) rs) in *.
  set (cf := mkCompressedFrame _ _ _ _).
  assert (Hh : holds_blobs cf blobs).
  { split_and!; [done|done|]. exists []. by rewrite app_nil_r. }
  assert (Hbl : length rs = length blobs).
  { unfold blobs, region_blobs_of, region_deltas. by rewrite !length_fmap. }
  destruct (payload_roundtrip_gen (g_w g) (g_h g) (g_stride g) rs cf blobs)
    as (payload & Es & Ed); try done; try width_lia.
  { cbn. change (2 ^ 62) with 4611686018427387904. lia. }
  exists (spans_delta cur prev (spans (g_stride g) rs)), cf, payload.
  rewrite (serialize_spec _ _ _ _ _ blobs) in Es by (done || width_lia). injection Es as <-.
  rewrite (serialize_spec _ _ _ _ _ blobs) by (done || width_lia).
  split_and!; [done|done| | |by eexists]; [|by apply payload_bytes_ok, blobs_bytes].
  destruct (wire_regions_of rs blobs Hbl) as (_ & _ & E3).
  unfold payload_bytes. rewrite !zlen_app, as_bytes_zlen, wire_regions_zlen, E3.
  change (size_of FrameMeta) with 16. cbn. width_lia.
Qed.

(** The decoder, on a base that shows the encoder's base, restores the current
    frame where it was encoded and keeps the base elsewhere. *)
Lemma decode_frame_payload g k cur prev base rs scratch cf' :
  geom_ok g -> kind_total k -> bytes_ok cur -> bytes_ok base ->
  zlen cur = g_bytes g -> agree g base prev -> Forall (rect_in g) rs -> zlen rs < 2 ^ 17 ->
  holds_blobs cf' (region_blobs_of k cur prev (g_stride g) rs) ->
  exists scratch' img,
    decompress_frame_into cf' base (g_stride g) rs scratch [] k = Ret (scratch', img) /\
    reconstructs cur base (spans (g_stride g) rs) img.
Proof.
  intros Hg Hk Hbc Hbb Hc Hab Hrs Hn Hh. pose proof (geom_bounds g Hg) as (Bw & Bh & Bs & Bn).
  pose proof Hab as (Hb & Hp & _).
  pose proof (region_deltas_small g cur base rs Hg Hc Hb Hrs) as Hsm.
  assert (Eb : region_blobs_of k cur prev (g_stride g) rs = region_blobs_of k cur base (g_stride g) rs).
  { unfold region_blobs_of. f_equal. symmetry. by apply (region_deltas_agree g). }
  rewrite Eb in Hh.
  destruct (blobs_size k _ Hsm) as (B1 & B2 & B3).
  assert (Ln : zlen (region_deltas cur base (g_stride g) rs) = zlen rs).
  { unfold region_deltas, zlen. by rewrite length_fmap. }
  rewrite Ln in *. rewrite region_deltas_join in B2. fold (region_blobs_of k cur base (g_stride g) rs) in *.
  pose proof (zlen_nonneg rs). change (2 ^ 17) with 131072 in Hn.
  change (2 ^ 30) with 1073741824 in *. change (2 ^ 32) with 4294967296 in *.
  destruct (decompress_frame_into_spec cur base (g_stride g) rs k scratch [] cf') as (img & Ed & Hr);
    try done; try congruence; try width_lia.
  - rewrite Hc. eapply list.Forall_impl; [exact Hrs|]. intros r Hr. by apply rect_in_ok.
  - eapply list.Forall_impl; [exact Hrs|]. intros r Hr. cbn.
    pose proof (rect_in_ok g r Hg Hr) as (_ & _ & Hb'). change (2 ^ 30) with 1073741824 in Hb'. width_lia.
  - apply kind_total_ok; [done|]. by apply region_deltas_bytes.
  - do 2 eexists. by split.
Qed.

(** ** Turns of the server *)

(** A pass of the compress loop that finds a frame, with the transport's
    answer and the timer readings. *)
Record turn := mkTurn {
  t_first : CapturedFrame; t_newer : list CapturedFrame; t_dropped : bool;
  t_accepted : bool; t_te : Z; t_tc : Z }.

(** The frame the pass sends: the newest in the ring. *)
Definition turn_frame (t : turn) : CapturedFrame := List.last (t_newer t) (t_first t).

(** The picture of that frame, after downscaling if any. *)
Definition turn_image (cfg : ServerConfig) (t : turn) : list Z :=
  match prepare_frame cfg [] (turn_frame t) with
  | Some (F, _, _, _, _) => F
  | None => []
  end.

(** What the capture side owes for one frame: the session's geometry, and
    damage rects inside the frame. *)
Definition turn_ok (cfg : ServerConfig) (g : geom) (t : turn) : Prop :=
  (forall sc, exists sc', prepare_frame cfg sc (turn_frame t) =
     Some (turn_image cfg t, g_w g, g_h g, g_stride g, sc')) /\
  zlen (turn_image cfg t) = g_bytes g /\ bytes_ok (turn_image cfg t) /\
  fits 64 (fr_timestamp_ns (turn_frame t)) /\
  (do_downscale cfg = false ->
   Forall (rect_in g) (fr_damage (turn_frame t)) /\ zlen (fr_damage (turn_frame t)) < 2 ^ 17).

(** ... and that the damage is accurate: outside it the picture is the one of
    the previous frame the loop took. *)
Definition accurate (g : geom) (damage : list DamageRect) (F L : list Z) : Prop :=
  forall k : nat, in_view g (Z.of_nat k) ->
    covered (spans (g_stride g) damage) (Z.of_nat k) = false -> F !! k = L !! k.

(** The contract over a session.  Damage matters only when the pass skipped
    nothing, no drop was flagged, the compositor gave some, and the frame is not
    downscaled. *)
Fixpoint capture_ok (cfg : ServerConfig) (g : geom) (last : option (list Z)) (ts : list turn)
    : Prop :=
  match ts with
  | [] => True
  | t :: ts =>
      turn_ok cfg g t /\
      match last with
      | Some L =>
          t_newer t = [] -> t_dropped t = false -> fr_damage (turn_frame t) <> [] ->
          do_downscale cfg = false ->
          accurate g (fr_damage (turn_frame t)) (turn_image cfg t) L
      | None => True
      end /\
      capture_ok cfg g (Some (turn_image cfg t)) ts
  end.

(** The loop over the turns; the result lists the messages the transport took. *)
Fixpoint server_run (cfg : ServerConfig) (st : ServerState) (ts : list turn)
    : option (ServerState * list Outgoing) :=
  match ts with
  | [] => Some (st, [])
  | t :: ts =>
      '(st, og, sent) ← send_frame_turn cfg st (t_first t) (t_newer t) (t_dropped t)
                          (fun _ _ => t_accepted t) (t_te t) (t_tc t);
      '(st, outs) ← server_run cfg st ts;
      Some (st, (if sent : bool then [og] else []) ++ outs)
  end.

(** The pictures of the accepted turns. *)
Definition sent_images (cfg : ServerConfig) (ts : list turn) : list (list Z) :=
  turn_image cfg <$> filter (fun t => t_accepted t = true) ts.

(** The message as [split_into_chunks] cuts it. *)
Definition og_message (og : Outgoing) : out_message :=
  mkOutMessage (og_type og) COMPRESSED (og_ts og) CHUNK_SIZE (og_payload og).

(** *** The regions of a turn *)

Lemma stacked_in g y bottom rs :
  stacked (g_w g) y bottom rs -> 0 <= y -> bottom <= g_h g -> 0 <= g_w g -> Forall (rect_in g) rs.
Proof.
  induction 1 as [|y h bottom rs Hh Hs IH]; intros Hy Hb Hw; constructor.
  - pose proof (stacked_le _ _ _ _ Hs). unfold rect_in. cbn. lia.
  - apply IH; lia.
Qed.

Lemma stripe_loop_length k i y width base rem : length (stripe_loop k i y width base rem) = k.
Proof.
  revert i y. induction k as [|k IH]; intros i y; [done|]. cbn [stripe_loop length]. by rewrite IH.
Qed.

Lemma stripes_few width height n : 0 <= n < 2 ^ 16 -> zlen (stripe_full_frame width height (Z.max n 1)) < 2 ^ 17.
Proof.
  intros Hn. change (2 ^ 17) with 131072. unfold stripe_full_frame.
  rewrite wrap_small by width_lia.
  destruct (_ =? 1); [by vm_compute|]. unfold zlen. rewrite stripe_loop_length.
  change (2 ^ 16) with 65536 in Hn. lia.
Qed.

Definition full_damage (st : ServerState) (t : turn) : bool :=
  need_full_damage st || (0 <? zlen (t_newer t)) || t_dropped t.

Lemma copy_rects (rs : list DamageRect) :
  (fun d => DamageRect_new (dr_x d) (dr_y d) (dr_width d) (dr_height d)) <$> rs = rs.
Proof. induction rs as [|[] rs IH]; [done|]. cbn. by rewrite IH. Qed.

Lemma choose_regions_spec cfg g t anchor need :
  geom_ok g -> 0 <= sc_threads cfg < 2 ^ 16 -> turn_ok cfg g t ->
  let rs := choose_regions cfg anchor need (turn_frame t) (g_w g) (g_h g) in
  Forall (rect_in g) rs /\ zlen rs < 2 ^ 17 /\
  ((forall k, in_view g k -> covered (spans (g_stride g) rs) k = true) \/
   (rs = fr_damage (turn_frame t) /\ anchor = false /\ need = false /\
    fr_damage (turn_frame t) <> [] /\ do_downscale cfg = false)).
Proof.
  intros Hg Hth (_ & _ & _ & _ & Hdmg) rs. pose proof (geom_bounds g Hg) as (Bw & Bh & _).
  unfold rs, choose_regions. rewrite copy_rects.
  destruct (_ || _) eqn:E.
  - pose proof (stripe_full_frame_stacked (g_w g) (g_h g) (Z.max (sc_threads cfg) 1)) as Hs.
    change (2 ^ 30) with 1073741824 in *.
    specialize (Hs ltac:(width_lia)). split_and!.
    + eapply stacked_in; [exact Hs|lia|lia|lia].
    + by apply stripes_few.
    + left. intros k. by apply stacked_covers.
  - apply orb_false_iff in E as [E Ed]. apply orb_false_iff in E as [E En].
    apply orb_false_iff in E as [Ea Eb]. apply bool_decide_eq_false in Eb.
    destruct (Hdmg Ed) as [Hin Hlen]. split_and!; [done|done|]. by right.
Qed.

(** *** One turn of the server *)

(** The base a turn encodes against. *)
Definition turn_base (g : geom) (st : ServerState) : list Z :=
  if force_anchor st then resize_vec (g_bytes g) 0 (previous_frame st) else previous_frame st.

Lemma send_frame_turn_spec cfg g st t :
  geom_ok g -> 0 <= sc_threads cfg < 2 ^ 16 -> turn_ok cfg g t ->
  zlen (turn_base g st) = g_bytes g -> bytes_ok (turn_base g st) ->
  let F := turn_image cfg t in
  let P := turn_base g st in
  let rs := choose_regions cfg (force_anchor st) (full_damage st t) (turn_frame t) (g_w g) (g_h g) in
  exists st' og,
    send_frame_turn cfg st (t_first t) (t_newer t) (t_dropped t) (fun _ _ => t_accepted t)
      (t_te t) (t_tc t) = Some (st', og, t_accepted t) /\
    (previous_frame st' = if t_accepted t then F else P) /\
    is_first st' = false /\ need_full_damage st' = negb (t_accepted t) /\
    og_type og = (if force_anchor st then AnchorFrame else FrameUpdate) /\
    og_ts og = fr_timestamp_ns (turn_frame t) /\
    (exists cf', deserialize_frame_payload (og_payload og) =
         Ret (g_w g, g_h g, g_stride g, rs, cf') /\
       holds_blobs cf' (region_blobs_of (to_kind (sc_compress cfg)) F P (g_stride g) rs)) /\
    out_message_ok (og_message og) /\
    exists fs, og_wire og = encode_frames fs /\ cut_as 1 (og_message og) fs.
Proof.
  intros Hg Hth Ht HP HbP F P rs. pose proof (choose_regions_spec cfg g t (force_anchor st)
    (full_damage st t) Hg Hth Ht) as (Hin & Hlen & _). fold rs in Hin, Hlen.
  destruct Ht as (Hprep & HF & HbF & Hts & _). fold F in HF, HbF.
  unfold send_frame_turn. fold (turn_frame t). fold (full_damage st t).
  destruct (Hprep (scaled_buf st)) as (sc' & ->). cbn [mbind option_bind].
  fold F. fold rs. rewrite HF. fold (turn_base g st). fold P.
  destruct (encode_frame_payload g (to_kind (sc_compress cfg)) F P rs (sv_scratch st)
    (sv_compressed st) (t_te t) (t_tc t)) as (scratch' & cf & payload & Ec & Es & Hlp & Hbp & Hd); try done.
  rewrite Ec. cbn [mbind option_bind]. rewrite Es. cbn [mbind option_bind].
  destruct (split_into_chunks_spec (length payload) 1
    (if force_anchor st then AnchorFrame else FrameUpdate) COMPRESSED payload
    (fr_timestamp_ns (turn_frame t)) CHUNK_SIZE []) as (fs & Ew & Hcut);
    [by vm_compute|done|unfold zlen; lia|].
  rewrite Ew. cbn [of_run mbind option_bind app]. do 2 eexists. split; [done|].
  cbn. split_and!; try done.
  - by exists fs.
Qed.

(** *** One message of the client *)

Context {B : Type} `{FrameInterpolator B}.

(** No upscaling, no debug overlay: what is shown is the decoded frame. *)
Definition plain (cfg : ClientConfig) : Prop :=
  do_upscale cfg = false /\ cc_debug cfg = false.

(** The base a message is decoded against. *)
Definition client_base (g : geom) (cl : ClientState B) : list Z :=
  resize_vec (g_bytes g) 0 (cl_previous cl).

Definition shows (g : geom) (F : list Z) (df : DisplayFrame) : Prop :=
  agree g (df_data df) F /\ df_surface_id df = 1 /\
  df_width df = g_w g /\ df_height df = g_h g /\ df_stride df = g_stride g.

Lemma resize_id (l : list Z) n : zlen l = n -> resize_vec n 0 l = l.
Proof. intros <-. apply resize_same. Qed.

Lemma reconstructs_bytes cur prev ss img :
  bytes_ok cur -> bytes_ok prev -> reconstructs cur prev ss img -> bytes_ok img.
Proof.
  intros Hc Hp (_ & Hk). apply list.Forall_lookup. intros i x Hx. rewrite Hk in Hx.
  destruct (covered _ _); [eapply (proj1 (list.Forall_lookup _ _) Hc)|
    eapply (proj1 (list.Forall_lookup _ _) Hp)]; exact Hx.
Qed.

Lemma client_frame_spec g cfg cl m ty rs cf' F P now :
  geom_ok g -> plain cfg -> kind_total (cc_kind cfg) -> cl_interp cl = None ->
  (cl_has_previous cl = true -> zlen (cl_previous cl) = g_bytes g) ->
  bytes_ok (client_base g cl) -> bytes_ok F -> zlen F = g_bytes g ->
  agree g (client_base g cl) P -> Forall (rect_in g) rs -> zlen rs < 2 ^ 17 ->
  FrameHeader_msg_type (im_header m) = inl ty -> ty = AnchorFrame \/ ty = FrameUpdate ->
  stream_id (im_header m) = 1 ->
  deserialize_frame_payload (im_payload m) = Ret (g_w g, g_h g, g_stride g, rs, cf') ->
  holds_blobs cf' (region_blobs_of (cc_kind cfg) F P (g_stride g) rs) ->
  exists cl' df img,
    client_message cfg cl m now = Some (cl', [df]) /\
    cl_previous cl' = img /\ cl_has_previous cl' = true /\ cl_interp cl' = None /\
    reconstructs F (client_base g cl) (spans (g_stride g) rs) img /\
    df_data df = img /\ df_surface_id df = 1 /\
    df_width df = g_w g /\ df_height df = g_h g /\ df_stride df = g_stride g.
Proof.
  intros Hg [Hu Hdb] Hk Him Hprev Hbb HbF HF Hag Hin Hlen Hty Hor Hsid Hdes Hh.
  pose proof (geom_bounds g Hg) as (Bw & Bh & Bs & Bn).
  assert (Hn : wrap 32 (g_stride g * g_h g) = g_bytes g).
  { fold (g_bytes g). apply wrap_small. change (2 ^ 30) with 1073741824 in *. width_lia. }
  destruct (decode_frame_payload g (cc_kind cfg) F P (client_base g cl) rs (cl_scratch cl) cf')
    as (scratch' & img & Edec & Hr); try done.
  assert (Eb : forall anchor,
    (if anchor || negb (cl_has_previous cl) then resize_vec (g_bytes g) 0 (cl_previous cl)
     else cl_previous cl) = client_base g cl).
  { intros anchor. unfold client_base. destruct (cl_has_previous cl); destruct anchor; cbn; try done.
    symmetry. apply resize_id. auto. }
  assert (G : forall anchor, exists cl' df img,
    frame_message cfg cl m anchor now = Some (cl', [df]) /\
    cl_previous cl' = img /\ cl_has_previous cl' = true /\ cl_interp cl' = None /\
    reconstructs F (client_base g cl) (spans (g_stride g) rs) img /\
    df_data df = img /\ df_surface_id df = 1 /\
    df_width df = g_w g /\ df_height df = g_h g /\ df_stride df = g_stride g).
  { intros anchor. unfold frame_message, decode_message. rewrite Hdes, Hn, Eb, Edec.
    cbn [mbind option_bind]. rewrite Him. unfold upscale_for_display. rewrite Hu, Hdb.
    do 3 eexists. split; [by destruct (anchor || _)|]. cbn. by split_and!. }
  unfold client_message. rewrite Hty. by destruct Hor as [-> | ->].
Qed.

(** *** The invariant of a session *)

(** Both delta bases show the same picture (zeros before the first frame), and
    unless a full frame is due the server's is the last frame it took. *)
Record in_sync (g : geom) (last : option (list Z)) (sv : ServerState) (cl : ClientState B) : Prop := {
  sy_first : is_first sv = true -> previous_frame sv = [];
  sy_server : is_first sv = false -> zlen (previous_frame sv) = g_bytes g;
  sy_client : cl_has_previous cl = true -> zlen (cl_previous cl) = g_bytes g;
  sy_interp : cl_interp cl = None;
  sy_bytes : bytes_ok (previous_frame sv) /\ bytes_ok (cl_previous cl);
  sy_agree : agree g (client_base g cl) (resize_vec (g_bytes g) 0 (previous_frame sv));
  sy_last : is_first sv = false -> need_full_damage sv = false ->
    exists L, last = Some L /\ agree g (previous_frame sv) L
}.

Lemma in_sync_new g : geom_ok g -> in_sync g None ServerState_new (ClientState_new None).
Proof.
  intros Hg. pose proof (geom_bounds g Hg) as (_ & _ & _ & Bn).
  constructor; cbn; try done; [by split; constructor|].
  unfold client_base. cbn. apply agree_refl. apply zlen_resize. lia.
Qed.

Lemma resize_bytes n l : bytes_ok l -> bytes_ok (resize_vec n 0 l).
Proof.
  intros Hl. apply Forall_app. split; [by apply Forall_take|]. by apply Forall_replicate.
Qed.

Lemma force_anchor_first sv : force_anchor sv = false -> is_first sv = false.
Proof. unfold force_anchor. by intros [? _]%orb_false_iff. Qed.

Lemma turn_base_resize g last sv cl :
  in_sync g last sv cl -> turn_base g sv = resize_vec (g_bytes g) 0 (previous_frame sv).
Proof.
  intros Hs. unfold turn_base. destruct (force_anchor sv) eqn:Ef; [done|].
  symmetry. apply resize_id. apply Hs. by apply force_anchor_first.
Qed.

(** The decoded picture is the frame. *)
Lemma decoded_agrees g last sv cl cfg t img :
  geom_ok g -> 0 <= sc_threads cfg < 2 ^ 16 -> turn_ok cfg g t -> in_sync g last sv cl ->
  (forall L, last = Some L ->
     t_newer t = [] -> t_dropped t = false -> fr_damage (turn_frame t) <> [] ->
     do_downscale cfg = false -> accurate g (fr_damage (turn_frame t)) (turn_image cfg t) L) ->
  reconstructs (turn_image cfg t) (client_base g cl)
    (spans (g_stride g) (choose_regions cfg (force_anchor sv) (full_damage sv t) (turn_frame t)
                           (g_w g) (g_h g))) img ->
  agree g img (turn_image cfg t).
Proof.
  intros Hg Hth Ht Hs Hacc (Hl & Hk).
  pose proof (sy_agree _ _ _ _ Hs) as (Hcb & Hpb & Hag).
  pose proof Ht as (_ & HF & _).
  destruct (choose_regions_spec cfg g t (force_anchor sv) (full_damage sv t) Hg Hth Ht)
    as (_ & _ & Hcov).
  unfold agree. split_and!; [unfold zlen in *; lia|done|].
  intros k Hv. rewrite Hk. destruct (covered _ (Z.of_nat k)) eqn:Ec; [done|].
  destruct Hcov as [Hall|(Ers & Ha & Hnf & Hne & Hnd)]; [by rewrite Hall in Ec|].
  rewrite Ers in Ec. unfold full_damage in Hnf.
  apply orb_false_iff in Hnf as [Hnf Hdr]. apply orb_false_iff in Hnf as [Hnf Hnew].
  apply Z.ltb_ge in Hnew. pose proof (zlen_nonneg (t_newer t)).
  pose proof (force_anchor_first _ Ha) as Hfirst.
  destruct (sy_last _ _ _ _ Hs Hfirst Hnf) as (L & HL & (_ & _ & HagL)).
  rewrite (Hacc L HL) by (done || (apply zlen_zero; lia)).
  rewrite Hag by done. rewrite resize_id by (by apply Hs). by apply HagL.
Qed.

Definition as_message (og : Outgoing) : IncomingMessage := as_received 1 (og_message og).

(** One turn and, when it was accepted, one message: the invariant again, and
    the frame shown. *)
Lemma session_turn g scfg ccfg last sv cl t :
  geom_ok g -> 0 <= sc_threads scfg < 2 ^ 16 -> plain ccfg -> kind_total (cc_kind ccfg) ->
  cc_kind ccfg = to_kind (sc_compress scfg) -> in_sync g last sv cl -> turn_ok scfg g t ->
  (forall L, last = Some L ->
     t_newer t = [] -> t_dropped t = false -> fr_damage (turn_frame t) <> [] ->
     do_downscale scfg = false -> accurate g (fr_damage (turn_frame t)) (turn_image scfg t) L) ->
  exists sv' og,
    send_frame_turn scfg sv (t_first t) (t_newer t) (t_dropped t) (fun _ _ => t_accepted t)
      (t_te t) (t_tc t) = Some (sv', og, t_accepted t) /\
    out_message_ok (og_message og) /\
    (exists fs, og_wire og = encode_frames fs /\ cut_as 1 (og_message og) fs) /\
    forall now, if t_accepted t then
      exists cl' df, client_message ccfg cl (as_message og) now = Some (cl', [df]) /\
        shows g (turn_image scfg t) df /\ in_sync g (Some (turn_image scfg t)) sv' cl'
    else in_sync g (Some (turn_image scfg t)) sv' cl.
Proof.
  intros Hg Hth Hpl Hk Hkind Hs Ht Hacc. pose proof (geom_bounds g Hg) as (_ & _ & _ & Bn).
  pose proof Hs as [S1 S2 S3 S4 [S5 S5'] S6 S7]. pose proof S6 as (Lc & Lp & _).
  pose proof (turn_base_resize _ _ _ _ Hs) as EP.
  pose proof Ht as (_ & HF & HbF & _).
  destruct (send_frame_turn_spec scfg g sv t Hg Hth Ht) as
    (sv' & og & Es & Eprev & Efirst & Eneed & Ety & Ets & (cf' & Hdes & Hh) & Hom & Hcut);
    [by rewrite EP|rewrite EP; by apply resize_bytes|].
  exists sv', og. split_and!; [done|done|done|]. intros now.
  destruct (choose_regions_spec scfg g t (force_anchor sv) (full_damage sv t) Hg Hth Ht)
    as (Hin & Hlen & _).
  destruct (t_accepted t) eqn:Ea.
  - set (rs := choose_regions scfg (force_anchor sv) (full_damage sv t) (turn_frame t)
                 (g_w g) (g_h g)) in *.
    destruct (client_frame_spec g ccfg cl (as_message og) (og_type og) rs cf' (turn_image scfg t)
      (turn_base g sv) now Hg Hpl Hk S4 S3) as
      (cl' & df & img & Em & Ep & Ehp & Ei & Hr & Ed & Esf & Ew & Eh & Est);
      try done; try (by rewrite ?EP; try apply resize_bytes).
    + apply MsgType_try_from_u8.
    + rewrite Ety. destruct (force_anchor sv); auto.
    + by rewrite Hkind.
    + pose proof (decoded_agrees g last sv cl scfg t img Hg Hth Ht Hs Hacc Hr) as Himg.
      exists cl', df. split_and!; [done| |].
      { unfold shows. rewrite Ed. by split_and!. }
      assert (Lcl : zlen (cl_previous cl') = g_bytes g) by (rewrite Ep; apply Himg).
      constructor; rewrite ?Eprev, ?Efirst, ?Eneed; try done.
      * split; [done|]. rewrite Ep. eapply reconstructs_bytes; [exact HbF| |exact Hr].
        by apply resize_bytes.
      * unfold client_base. rewrite !resize_id by done. by rewrite Ep.
      * intros _ _. eexists. split; [done|]. by apply agree_refl.
  - constructor; rewrite ?Eprev, ?Efirst, ?Eneed; try done.
    + intros _. by rewrite EP.
    + split; [|done]. rewrite EP. by apply resize_bytes.
    + rewrite EP. by rewrite (resize_id (resize_vec _ _ _)) by done.
Qed.

(** A whole run, and the client on as many of its messages as it has handled. *)
Lemma session_run g scfg ccfg ts last sv cl :
  geom_ok g -> 0 <= sc_threads scfg < 2 ^ 16 -> plain ccfg -> kind_total (cc_kind ccfg) ->
  cc_kind ccfg = to_kind (sc_compress scfg) -> in_sync g last sv cl -> capture_ok scfg g last ts ->
  exists sv' outs,
    server_run scfg sv ts = Some (sv', outs) /\
    Forall (fun og => out_message_ok (og_message og)) outs /\
    (exists fss, Forall2 (fun og fs => og_wire og = encode_frames fs /\
                           cut_as 1 (og_message og) fs) outs fss) /\
    length (sent_images scfg ts) = length outs /\
    forall nows,
      exists cl' shown, client_run ccfg cl (zip (as_message <$> outs) nows) = Some (cl', shown) /\
        length shown = Nat.min (length outs) (length nows) /\
        Forall2 (shows g) (take (length shown) (sent_images scfg ts)) shown.
Proof.
  intros Hg Hth Hpl Hk Hkind. revert last sv cl.
  induction ts as [|t ts IH]; intros last sv cl Hs Hc.
  { exists sv, []. split_and!; [done|constructor|by exists []|done|].
    intros nows. exists cl, []. split_and!; [done|done|constructor]. }
  destruct Hc as (Ht & Hacc & Hc). cbn [server_run].
  assert (Hacc' : forall L, last = Some L ->
     t_newer t = [] -> t_dropped t = false -> fr_damage (turn_frame t) <> [] ->
     do_downscale scfg = false -> accurate g (fr_damage (turn_frame t)) (turn_image scfg t) L).
  { intros L ->. exact Hacc. }
  destruct (session_turn g scfg ccfg last sv cl t Hg Hth Hpl Hk Hkind Hs Ht Hacc')
    as (sv' & og & Es & Hom & (fs & Hw) & Hcl).
  rewrite Es. cbn [mbind option_bind]. unfold sent_images. rewrite filter_cons.
  destruct (t_accepted t) eqn:Ea.
  - destruct (Hcl 0) as (cl0 & df0 & _ & _ & Hs0).
    destruct (IH _ _ _ Hs0 Hc) as (sv'' & outs & Er & Hall & (fss & Hf2) & Hlen & _).
    rewrite Er. cbn [mbind option_bind]. exists sv'', ([og] ++ outs).
    rewrite decide_True by done. cbn [fmap list_fmap].
    split_and!; [done|by constructor|by exists (fs :: fss); constructor|by cbn; rewrite <- Hlen|].
    intros [|now nows]; [by exists cl, []|].
    destruct (Hcl now) as (cl1 & df1 & Em & Hshow & Hs1).
    destruct (IH _ _ _ Hs1 Hc) as (sv2 & outs2 & Er2 & _ & _ & _ & Hrun).
    rewrite Er in Er2. injection Er2 as <- <-.
    destruct (Hrun nows) as (cl' & shown & Erun & Hn & Hsh).
    exists cl', ([df1] ++ shown). cbn [app fmap list_fmap zip zip_with client_run].
    rewrite Em. cbn [mbind option_bind].
    change (zip_with pair (as_message <$> outs) nows) with (zip (as_message <$> outs) nows).
    rewrite Erun. split_and!; [done|by cbn; rewrite Hn|]. by constructor.
  - destruct (IH _ _ _ (Hcl 0) Hc) as (sv'' & outs & Er & Hall & Hf2 & Hlen & Hrun).
    rewrite Er. cbn [mbind option_bind]. exists sv'', outs.
    rewrite decide_False by done. by split_and!.
Qed.

Lemma wires_encode outs fss :
  Forall2 (fun og fs => og_wire og = encode_frames fs /\ cut_as 1 (og_message og) fs) outs fss ->
  mjoin (og_wire <$> outs) = encode_frames (mjoin fss) /\
  in_pieces ((fun og => (1, og_message og)) <$> outs) fss.
Proof.
  induction 1 as [|og fs outs fss (Ew & Hc) _ (IH1 & IH2)]; [by split; constructor|].
  cbn [fmap list_fmap]. change (mjoin (?x :: ?l)) with (x ++ mjoin l).
  rewrite encode_frames_app, <- IH1, Ew. split; [done|]. by constructor.
Qed.

(** *** The session over the transport *)

(** [build_handshake] as the message the transport carries, on stream 0. *)
Definition handshake_message (cap : CaptureBackendArg) (comp : CompressArg) : out_message :=
  mkOutMessage Handshake 0 0 8 (drop 16 (build_handshake cap comp)).

Lemma handshake_cut cap comp : exists fs,
  build_handshake cap comp = encode_frames fs /\ cut_as 0 (handshake_message cap comp) fs /\
  out_message_ok (handshake_message cap comp).
Proof.
  exists [(FrameHeader_new 0 Handshake LAST_CHUNK 8 0, drop 16 (build_handshake cap comp))].
  split_and!; [by destruct cap, comp; vm_compute| |].
  - apply (chunks_last 0 Handshake 0 0 8). by destruct cap, comp; vm_compute.
  - unfold out_message_ok. cbn [handshake_message om_flags om_ts om_chunk om_payload].
    split_and!; try by vm_compute. apply (bool_decide_unpack _). by destruct cap, comp; vm_compute.
Qed.

Context {Q : Type -> Type} `{FifoLaws Q}.

(** A session as it runs: the loop's state, the link, the turns so far with the
    answers they got, the messages the transport took, the buffers the write
    loop began to write, and whether an anchor was taken while a frame waited
    in its queue (the biased [select!] then writes the anchor first). *)
Record Sess := mkSess {
  se_server : ServerState; se_link : Link Q; se_turns : list turn; se_outs : list Outgoing;
  se_put : list (list Z); se_overtaken : bool }.

(** [main] sends the handshake before it starts the loops. *)
Definition Sess_new (cap : CaptureBackendArg) (scfg : ServerConfig) : Sess :=
  mkSess ServerState_new (send_anchor Link_new (build_handshake cap (sc_compress scfg))).1
    [] [] [] false.

Definition answered (t : turn) (ok : bool) : turn :=
  mkTurn (t_first t) (t_newer t) (t_dropped t) ok (t_te t) (t_tc t).

(** A pass of the loop, answered by the link. *)
Definition sess_pass (scfg : ServerConfig) (s : Sess) (t : turn) : option Sess :=
  '(sv, og, sent) ← send_frame_turn scfg (se_server s) (t_first t) (t_newer t) (t_dropped t)
     (fun ty wire => (link_send (se_link s) ty wire).2) (t_te t) (t_tc t);
  Some (mkSess sv (link_send (se_link s) (og_type og) (og_wire og)).1
          (se_turns s ++ [answered t sent])
          (se_outs s ++ (if sent : bool then [og] else [])) (se_put s)
          (se_overtaken s || (sent && bool_decide (og_type og = AnchorFrame) &&
                              (0 <? fifo_len (frame_q (se_link s)))))).

(** A step of the transport's task: the write loop's [select!], the end of its
    write, or the end of the read loop beside it. *)
Inductive link_act := Picks | Writes (ok : bool) | ReaderEnds (signal : bool).

Definition sess_link (s : Sess) (a : link_act) : Sess :=
  let go l put := mkSess (se_server s) l (se_turns s) (se_outs s) put (se_overtaken s) in
  match a with
  | Picks =>
      match select (se_link s) with
      | Some l => go l (se_put s ++ match writer l with WWriting _ d => [d] | _ => [] end)
      | None => s
      end
  | Writes ok => go (default (se_link s) (write_result (se_link s) ok)) (se_put s)
  | ReaderEnds signal => go (read_loop_ends (se_link s) signal) (se_put s)
  end.

Inductive sess_ev := Pass (t : turn) | Net (a : link_act).

Definition sess_step (scfg : ServerConfig) (s : Sess) (e : sess_ev) : option Sess :=
  match e with Pass t => sess_pass scfg s t | Net a => Some (sess_link s a) end.

Fixpoint sess_run (scfg : ServerConfig) (s : Sess) (evs : list sess_ev) : option Sess :=
  match evs with
  | [] => Some s
  | e :: evs => s ← sess_step scfg s e; sess_run scfg s evs
  end.

(** The frames of the passes. *)
Definition passes (evs : list sess_ev) : list turn :=
  omap (fun e => match e with Pass t => Some t | Net _ => None end) evs.

(** The turn depends on the transport only through its answer. *)
Lemma send_frame_turn_answer cfg st first newer dropped send te tc :
  exists b, send_frame_turn cfg st first newer dropped send te tc =
            send_frame_turn cfg st first newer dropped (fun _ _ => b) te tc /\
    forall st' og sent, send_frame_turn cfg st first newer dropped send te tc = Some (st', og, sent) ->
      sent = b /\ b = send (og_type og) (og_wire og) /\
      og_type og = (if force_anchor st then AnchorFrame else FrameUpdate) /\
      is_first st' = false /\ sv_frame_count st' = wrap 64 (sv_frame_count st + 1).
Proof.
  unfold send_frame_turn.
  destruct (prepare_frame _ _ _) as [[[[[fd w] h] stride] scaled]|]; [|by exists true].
  cbn [mbind option_bind].
  destruct (compress_frame_into _ _ _ _ _ _ _ _ _) as [[scratch c]|]; [|by exists true].
  cbn [mbind option_bind]. destruct (serialize_frame_payload _ _ _ _ _) as [payload|]; [|by exists true].
  cbn [mbind option_bind]. destruct (of_run _) as [wire|]; [|by exists true].
  cbn [mbind option_bind]. eexists. split; [reflexivity|].
  intros st' og sent [= <- <- <-]. cbn. by split_and!.
Qed.

Lemma server_run_app cfg st ts t :
  server_run cfg st (ts ++ [t]) =
    ('(st1, outs) ← server_run cfg st ts;
     '(st2, og, sent) ← send_frame_turn cfg st1 (t_first t) (t_newer t) (t_dropped t)
                          (fun _ _ => t_accepted t) (t_te t) (t_tc t);
     Some (st2, outs ++ (if sent : bool then [og] else []))).
Proof.
  revert st. induction ts as [|u ts IH]; intros st; cbn [app server_run].
  - cbn [mbind option_bind]. destruct (send_frame_turn _ _ _ _ _ _ _ _) as [[[? ?] sent]|]; [|done].
    cbn [mbind option_bind]. by rewrite app_nil_r.
  - destruct (send_frame_turn _ st _ _ _ _ _ _) as [[[st1 og] sent]|]; [|done].
    cbn [mbind option_bind]. rewrite IH. destruct (server_run _ _ ts) as [[st2 outs]|]; [|done].
    cbn [mbind option_bind]. destruct (send_frame_turn _ st2 _ _ _ _ _ _) as [[[st3 og'] sent']|]; [|done].
    cbn [mbind option_bind]. by rewrite app_assoc.
Qed.

Lemma capture_ok_answer cfg g last ts t b rest :
  capture_ok cfg g last (ts ++ t :: rest) -> capture_ok cfg g last ((ts ++ [answered t b]) ++ rest).
Proof.
  rewrite <- app_assoc. revert last. induction ts as [|u ts IH]; intros last; [done|].
  cbn [app capture_ok]. intros (Hu & Hl & Hc). split_and!; [done|done|]. by apply IH.
Qed.

Lemma capture_ok_prefix cfg g last ts rest : capture_ok cfg g last (ts ++ rest) -> capture_ok cfg g last ts.
Proof.
  revert last. induction ts as [|u ts IH]; intros last; [done|].
  cbn [app capture_ok]. intros (Hu & Hl & Hc). split_and!; [done|done|]. by apply IH.
Qed.

(** What the run keeps: the loop ran on the turns as answered, and while no
    anchor was overtaken the messages are, in order, the buffers the write loop
    took and the two queues. *)
Record sess_ok (scfg : ServerConfig) (hs : list Z) (s : Sess) : Prop := {
  so_server : server_run scfg ServerState_new (se_turns s) = Some (se_server s, se_outs s);
  so_input : fifo_items (input_q (se_link s)) = [];
  so_order : se_overtaken s = false ->
    hs :: (og_wire <$> se_outs s) =
      se_put s ++ fifo_items (anchor_q (se_link s)) ++ fifo_items (frame_q (se_link s));
  so_first : if decide (se_turns s = []) then fifo_items (frame_q (se_link s)) = []
             else is_first (se_server s) = false;
  so_few : zlen (se_turns s) <= ANCHOR_INTERVAL ->
    se_overtaken s = false /\ sv_frame_count (se_server s) = zlen (se_turns s)
}.

Lemma sess_ok_new cap scfg :
  sess_ok scfg (build_handshake cap (sc_compress scfg)) (Sess_new cap scfg).
Proof. constructor; cbn; by rewrite ?fifo_items_push, ?fifo_items_new. Qed.

Lemma sess_ok_link scfg hs s a : sess_ok scfg hs s -> sess_ok scfg hs (sess_link s a).
Proof.
  intros [Srv Inp Ord Fst Few].
  assert (Same : forall l put, fifo_items (input_q l) = [] ->
    put ++ fifo_items (anchor_q l) ++ fifo_items (frame_q l) =
      se_put s ++ fifo_items (anchor_q (se_link s)) ++ fifo_items (frame_q (se_link s)) ->
    (fifo_items (frame_q (se_link s)) = [] -> fifo_items (frame_q l) = []) ->
    sess_ok scfg hs (mkSess (se_server s) l (se_turns s) (se_outs s) put (se_overtaken s))).
  { intros l put Hi Ho Hf. constructor; cbn; try done; [by rewrite Ho|].
    case_decide; [by apply Hf|done]. }
  destruct a as [|ok|sg]; cbn [sess_link].
  - unfold select. destruct (writer (se_link s)); try by constructor.
    destruct (fifo_pop (input_q _)) as [[d i]|] eqn:Ei.
    { apply fifo_pop_Some in Ei. congruence. }
    destruct (fifo_pop (anchor_q _)) as [[d i]|] eqn:Ea.
    { apply fifo_pop_Some in Ea. apply Same; cbn; [done| |done]. by rewrite Ea, <- app_assoc. }
    apply fifo_pop_None in Ea. destruct (fifo_pop (frame_q _)) as [[d i]|] eqn:Ef.
    { apply fifo_pop_Some in Ef. apply Same; cbn; [done| |congruence].
      by rewrite Ea, Ef, <- app_assoc. }
    destruct (handles _); [by constructor|]. apply Same; cbn; [done| |done]. by rewrite app_nil_r.
  - unfold write_result. destruct (writer (se_link s)); cbn [default]; try by apply Same.
    destruct ok; by apply Same.
  - unfold read_loop_ends. destruct (is_done _); by apply Same.
Qed.

Lemma link_send_items (l : Link Q) ty w :
  let '(l', ok) := link_send l ty w in
  fifo_items (input_q l') = fifo_items (input_q l) /\
  fifo_items (anchor_q l') = fifo_items (anchor_q l) ++
    (if ok && bool_decide (ty = AnchorFrame) then [w] else []) /\
  fifo_items (frame_q l') = fifo_items (frame_q l) ++
    (if ok && negb (bool_decide (ty = AnchorFrame)) then [w] else []).
Proof.
  unfold link_send, send_anchor, try_send_frame. destruct (decide (ty = AnchorFrame)) as [->|Hn].
  - destruct (is_done l); cbn; by rewrite ?app_nil_r, ?fifo_items_push.
  - rewrite (bool_decide_eq_false_2 (ty = AnchorFrame)) by done.
    destruct (is_done l); cbn; [by rewrite !app_nil_r|].
    pose proof (try_send_items FRAME_QUEUE_DEPTH (frame_q l) w) as Hi.
    destruct (try_send _ _ _) as [q ok]. cbn in *. rewrite Hi. destruct ok; by rewrite ?app_nil_r.
Qed.

Lemma sess_ok_pass scfg hs s t sv og sent :
  sess_ok scfg hs s ->
  send_frame_turn scfg (se_server s) (t_first t) (t_newer t) (t_dropped t)
     (fun ty wire => (link_send (se_link s) ty wire).2) (t_te t) (t_tc t) = Some (sv, og, sent) ->
  exists s', sess_pass scfg s t = Some s' /\ sess_ok scfg hs s' /\
    se_turns s' = se_turns s ++ [answered t sent].
Proof.
  intros [Srv Inp Ord Fst Few] Es. unfold sess_pass. rewrite Es. cbn [mbind option_bind].
  eexists. split_and!; [done| |done].
  destruct (send_frame_turn_answer scfg (se_server s) (t_first t) (t_newer t) (t_dropped t)
    (fun ty wire => (link_send (se_link s) ty wire).2) (t_te t) (t_tc t)) as (b & Eb & Hb).
  destruct (Hb _ _ _ Es) as (-> & Hsend & Hty & Hfi & Hcnt). rewrite Es in Eb.
  pose proof (link_send_items (se_link s) (og_type og) (og_wire og)) as Hl.
  rewrite (surjective_pairing (link_send _ _ _)), <- Hsend in Hl. destruct Hl as (Li & La & Lf).
  assert (Hturns : se_turns s ++ [answered t b] <> []) by (by destruct (se_turns s)).
  constructor; cbn [se_server se_link se_turns se_outs se_put se_overtaken].
  - rewrite server_run_app, Srv. cbn [mbind option_bind answered t_first t_newer t_dropped t_accepted t_te t_tc].
    by rewrite <- Eb.
  - by rewrite Li.
  - intros [Hov Hno]%orb_false_iff. rewrite fmap_app, app_comm_cons, (Ord Hov), La, Lf.
    rewrite <- !app_assoc. f_equal. f_equal.
    destruct b; cbn in *; rewrite ?app_nil_r; [|done].
    destruct (bool_decide (og_type og = AnchorFrame)); cbn in *; [|done].
    apply Z.ltb_ge in Hno. pose proof (zlen_zero (fifo_items (frame_q (se_link s)))) as Hz.
    rewrite Hz by (unfold fifo_len in Hno; pose proof (zlen_nonneg (fifo_items (frame_q (se_link s)))); lia).
    by rewrite app_nil_r.
  - by rewrite decide_False.
  - rewrite zlen_app. change (zlen [answered t b]) with 1. intros Hn.
    destruct Few as [Hov Hc]; [lia|]. rewrite Hov. change ANCHOR_INTERVAL with 300 in Hn.
    pose proof (zlen_nonneg (se_turns s)). split.
    + cbn [orb]. case_decide as Et.
      { unfold fifo_len. rewrite Fst. by rewrite andb_false_r. }
      assert (force_anchor (se_server s) = false) as Hfa.
      { unfold force_anchor. rewrite Fst, Hc. cbn [orb]. apply andb_false_iff. right.
        change ANCHOR_INTERVAL with 300. rewrite Z.mod_small by lia. apply Z.eqb_neq.
        intros E0. by apply zlen_zero in E0. }
      rewrite Hty, Hfa. by rewrite (bool_decide_eq_false_2 (FrameUpdate = AnchorFrame)), andb_false_r.
    + rewrite Hcnt, Hc. apply wrap_small. width_lia.
Qed.

(** The loop never panics, whatever the schedule. *)
Lemma sess_runs g scfg ccfg hs evs s :
  geom_ok g -> 0 <= sc_threads scfg < 2 ^ 16 -> plain ccfg -> kind_total (cc_kind ccfg) ->
  cc_kind ccfg = to_kind (sc_compress scfg) ->
  sess_ok scfg hs s -> capture_ok scfg g None (se_turns s ++ passes evs) ->
  exists s', sess_run scfg s evs = Some s' /\ sess_ok scfg hs s' /\ capture_ok scfg g None (se_turns s').
Proof.
  intros Hg Hth Hpl Hk Hkind. revert s. induction evs as [|e evs IH]; intros s Hs Hc.
  { exists s. rewrite app_nil_r in Hc. by split_and!. }
  destruct e as [t|a]; cbn [sess_run sess_step passes omap list_omap] in *.
  2:{ cbn [mbind option_bind]. apply IH; [by apply sess_ok_link|]. destruct a; cbn; [|done..].
      by destruct (select _). }
  destruct (send_frame_turn_answer scfg (se_server s) (t_first t) (t_newer t) (t_dropped t)
    (fun ty wire => (link_send (se_link s) ty wire).2) (t_te t) (t_tc t)) as (b & Eb & Hb).
  apply (capture_ok_answer _ _ _ _ _ b) in Hc.
  destruct (session_run g scfg ccfg (se_turns s ++ [answered t b]) None ServerState_new (ClientState_new None))
    as (sv & outs & Er & _); try done; [by apply in_sync_new|by eapply capture_ok_prefix|].
  rewrite server_run_app, (so_server _ _ _ Hs) in Er.
  cbn [mbind option_bind answered t_first t_newer t_dropped t_accepted t_te t_tc] in Er.
  rewrite <- Eb in Er. destruct (send_frame_turn _ _ _ _ _ _ _ _) as [[[sv' og] sent]|] eqn:Es; [|done].
  destruct (Hb _ _ _ eq_refl) as (-> & _).
  destruct (sess_ok_pass scfg hs s t _ _ _ Hs Es) as (s' & Ep & Hs' & Et).
  rewrite Ep. cbn [mbind option_bind]. apply IH; [done|]. by rewrite Et.
Qed.

Lemma zip_prefix {X Y} (xs more : list X) (ys : list Y) :
  zip (xs ++ more) (take (length xs) ys) = zip xs ys.
Proof.
  revert ys. induction xs as [|x xs IH]; intros ys; [by destruct more|].
  destruct ys as [|y ys]; [done|]. cbn. f_equal. apply IH.
Qed.

(** What the client has handed over when it has read the beginning of what the
    write loop wrote, and what it shows. *)
Lemma sess_received g scfg ccfg cap s reads (ended : bool) nows :
  geom_ok g -> 0 <= sc_threads scfg < 2 ^ 16 -> plain ccfg -> kind_total (cc_kind ccfg) ->
  cc_kind ccfg = to_kind (sc_compress scfg) ->
  sess_ok scfg (build_handshake cap (sc_compress scfg)) s -> capture_ok scfg g None (se_turns s) ->
  se_overtaken s = false ->
  Forall (fun d => d <> []) reads -> mjoin reads `prefix_of` mjoin (se_put s) ->
  exists ms cl shown,
    read_loop StreamParser_new None (fmap ReadOk reads ++ (if ended then [ReadOk []] else [])) []
      = Some (ms, if ended then Signalled else Reading) /\
    client_run ccfg (ClientState_new (B:=B) None) (zip ms nows) = Some (cl, shown) /\
    length shown = Nat.pred (Nat.min (length ms) (length nows)) /\
    Forall2 (shows g) (take (length shown) (sent_images scfg (se_turns s))) shown /\
    (fifo_items (anchor_q (se_link s)) = [] -> fifo_items (frame_q (se_link s)) = [] ->
     mjoin reads = mjoin (se_put s) -> length ms = S (length (sent_images scfg (se_turns s)))).
Proof.
  intros Hg Hth Hpl Hk Hkind Hs Hc Hov Hne Hpre.
  pose proof (so_order _ _ _ Hs Hov) as Hord.
  destruct (session_run g scfg ccfg (se_turns s) None ServerState_new (ClientState_new None))
    as (sv & outs & Er & Hall & (fss & Hf2) & Hlen & Hrun); try done; [by apply in_sync_new|].
  rewrite (so_server _ _ _ Hs) in Er. injection Er as <- <-.
  destruct (wires_encode _ _ Hf2) as (Ew & Hp).
  destruct (handshake_cut cap (sc_compress scfg)) as (hfs & Ehs & Hhc & Hho).
  set (os := (0, handshake_message cap (sc_compress scfg)) :: ((fun og => (1, og_message og)) <$> se_outs s)).
  assert (Eall : mjoin (se_put s) ++ mjoin (fifo_items (anchor_q (se_link s)) ++
      fifo_items (frame_q (se_link s))) = encode_frames (mjoin (hfs :: fss))).
  { rewrite <- join_app, <- Hord. change (mjoin (?x :: ?l)) with (x ++ mjoin l).
    by rewrite encode_frames_app, <- Ew, Ehs. }
  destruct (read_loop_prefix os (hfs :: fss) reads ended) as (ms & more & Ems & Hmore & Eread).
  { constructor; [done|]. apply Forall_fmap. eapply list.Forall_impl; [exact Hall|]. intros og Hog. by split. }
  { by constructor. }
  { done. }
  { rewrite <- Eall. by apply prefix_app_r. }
  assert (Eos : (fun o => as_received o.1 o.2) <$> os =
      as_received 0 (handshake_message cap (sc_compress scfg)) :: (as_message <$> se_outs s)).
  { unfold os. cbn [fmap list_fmap fst snd]. f_equal. by rewrite <- list_fmap_compose. }
  rewrite Eos in Ems.
  assert (Hfull : fifo_items (anchor_q (se_link s)) = [] -> fifo_items (frame_q (se_link s)) = [] ->
     mjoin reads = mjoin (se_put s) -> length ms = S (length (sent_images scfg (se_turns s)))).
  { intros Ea Ef Ej. rewrite Ea, Ef in Eall. change (mjoin (@nil (list Z))) with (@nil Z) in Eall.
    rewrite app_nil_r in Eall. assert (mjoin reads = encode_frames (mjoin (hfs :: fss))) as Hj by congruence.
    rewrite (Hmore Hj), app_nil_r in Ems. rewrite <- Ems, Hlen. cbn. by rewrite length_fmap. }
  destruct ms as [|m ms].
  { exists [], (ClientState_new None), []. split_and!; [done..|constructor|done]. }
  injection Ems as <- Ems.
  destruct nows as [|now nows].
  { eexists _, (ClientState_new None), []. split_and!; [exact Eread|done|done|constructor|done]. }
  destruct (Hrun (take (length ms) nows)) as (cl & shown & Ecl & Hn & Hsh).
  assert (length ms <= length (se_outs s))%nat as Hms.
  { apply (f_equal length) in Ems. rewrite length_fmap, length_app in Ems. lia. }
  eexists _, cl, shown. split_and!; [exact Eread| | |exact Hsh|exact Hfull].
  - cbn [zip zip_with client_run]. unfold client_message at 1.
    assert (FrameHeader_msg_type (im_header (as_received 0 (handshake_message cap (sc_compress scfg))))
      = inl Handshake) as -> by apply MsgType_try_from_u8.
    cbn [mbind option_bind].
    change (zip_with pair ms nows) with (zip ms nows). rewrite Ems, zip_prefix in Ecl.
    by rewrite Ecl.
  - rewrite Hn, length_take. cbn. lia.
Qed.

End Session.

(** *** A session with a skipped frame, a refused one and partial damage *)

#[local] Existing Instance store_codecs.
#[local] Existing Instance store_codecs_laws.
#[local] Existing Instance scalar_lanes.

Definition demo_geom : geom := mkGeom 2 1 8.
Definition demo_server : ServerConfig := mkServerConfig CompLz4 (f64_of_int 1) FilterBox 4.
Definition demo_client : ClientConfig := mkClientConfig (f64_of_int 1) false KLz4.

Definition demo_frame (px : list Z) (damage : list DamageRect) : CapturedFrame :=
  mkCapturedFrame px damage Xrgb8888 2 1 8 77.

Definition demo_pass (px : list Z) (damage : list DamageRect) : sess_ev :=
  Pass (mkTurn (demo_frame px damage) [] false false 0 0).

(** The frame queue is full at the fourth pass. *)
Definition demo_events : list sess_ev :=
  [demo_pass [1; 2; 3; 4; 5; 6; 7; 8] []; Net Picks; Net (Writes true); Net Picks;
   demo_pass [1; 2; 3; 4; 9; 9; 9; 9] [mkDamageRect 1 0 1 1];
   demo_pass [1; 2; 3; 4; 7; 7; 7; 7] [mkDamageRect 1 0 1 1];
   demo_pass [0; 0; 0; 0; 7; 7; 7; 7] [mkDamageRect 0 0 1 1];
   Net (Writes true); Net Picks; Net (Writes true);
   Pass (mkTurn (demo_frame [5; 5; 5; 5; 7; 7; 7; 7] [mkDamageRect 0 0 1 1])
     [demo_frame [6; 6; 6; 6; 8; 8; 8; 8] [mkDamageRect 1 0 1 1]] false false 0 0);
   Net Picks; Net (Writes true); Net Picks].

Lemma demo_prepare sc px damage :
  prepare_frame demo_server sc (demo_frame px damage) = Some (px, 2, 1, 8, sc).
Proof. reflexivity. Qed.

Lemma demo_turn_ok px0 d0 newer px damage dropped ok :
  List.last newer (demo_frame px0 d0) = demo_frame px damage ->
  zlen px = 8 -> bytes_ok px -> Forall (rect_in demo_geom) damage -> zlen damage < 2 ^ 17 ->
  turn_ok demo_server demo_geom (mkTurn (demo_frame px0 d0) newer dropped ok 0 0).
Proof.
  intros E Hl Hb Hd Hn. unfold turn_ok, turn_image, turn_frame. cbn [t_newer t_first].
  rewrite E. split_and!; try done.
  intros sc. exists sc. apply demo_prepare.
Qed.

Ltac demo_bytes := apply (bool_decide_unpack _); vm_compute; exact I.
Ltac demo_rects := repeat constructor; unfold rect_in; cbn; lia.
Ltac demo_turn px damage :=
  apply (demo_turn_ok _ _ _ px damage); [done|done|demo_bytes|demo_rects|done].

Lemma demo_accurate damage F L :
  forallb (fun k => covered (spans 8 damage) (Z.of_nat k) || bool_decide (F !! k = L !! k)) (seq 0 8) = true ->
  accurate demo_geom damage F L.
Proof.
  intros Hall k Hk Hc. apply in_view_bound in Hk; [|by vm_compute]. change (g_bytes demo_geom) with 8 in Hk.
  rewrite forallb_forall in Hall. specialize (Hall k). rewrite in_seq in Hall.
  change (g_stride demo_geom) with 8 in Hc. rewrite Hc in Hall.
  apply (bool_decide_eq_true (F !! k = L !! k)). apply Hall. lia.
Qed.

Lemma demo_capture_ok : capture_ok demo_server demo_geom None (passes demo_events).
Proof.
  unfold demo_events, demo_pass. cbn [passes omap list_omap capture_ok].
  split_and!; try exact I; try (intros; done); try (intros _ _ _ _; by apply demo_accurate; vm_compute).
  - demo_turn [1; 2; 3; 4; 5; 6; 7; 8] (@nil DamageRect).
  - demo_turn [1; 2; 3; 4; 9; 9; 9; 9] [mkDamageRect 1 0 1 1].
  - demo_turn [1; 2; 3; 4; 7; 7; 7; 7] [mkDamageRect 1 0 1 1].
  - demo_turn [0; 0; 0; 0; 7; 7; 7; 7] [mkDamageRect 0 0 1 1].
  - demo_turn [6; 6; 6; 6; 8; 8; 8; 8] [mkDamageRect 1 0 1 1].
Qed.


(** The run: the fourth pass is refused, the four others are written. *)
Example demo_session :
  match sess_run (Q:=list) demo_server (Sess_new CapAuto demo_server) demo_events with
  | Some s => (t_accepted <$> se_turns s, se_overtaken s, length (se_put s),
               frame_queue_len (se_link s), sent_images demo_server (se_turns s))
  | None => ([], true, 0%nat, 0, [])
  end =
  ([true; true; true; false; true], false, 5%nat, 0,
   [[1; 2; 3; 4; 5; 6; 7; 8]; [1; 2; 3; 4; 9; 9; 9; 9]; [1; 2; 3; 4; 7; 7; 7; 7];
    [6; 6; 6; 6; 8; 8; 8; 8]]).
Proof. vm_compute. reflexivity. Qed.

(** The condition is needed: 299 passes, each written at once, then one whose
    frame still waits when the anchor of the 301st is taken.  The client applies
    the anchor's delta to a base without that frame and shows a picture the
    server never had. *)
Definition overtaken_events : list sess_ev :=
  mjoin (replicate 299 [demo_pass [1; 2; 3; 4; 5; 6; 7; 8] []; Net Picks; Net (Writes true)]) ++
  [Net Picks; Net (Writes true);
   demo_pass [1; 1; 1; 1; 5; 6; 7; 8] []; demo_pass [1; 1; 1; 1; 9; 9; 9; 9] [];
   Net Picks; Net (Writes true); Net Picks; Net (Writes true)].

Example overtaken_session_wrong :
  match sess_run (Q:=list) demo_server (Sess_new CapAuto demo_server) overtaken_events with
  | Some s =>
      match read_loop StreamParser_new None (ReadOk <$> se_put s) [] with
      | Some (ms, _) =>
          match client_run demo_client (ClientState_new (B:=LinearBlendInterpolator) None)
                  (zip ms (replicate (length ms) 0)) with
          | Some (_, shown) => (se_overtaken s, df_data <$> drop 299 shown)
          | None => (false, [])
          end
      | None => (false, [])
      end
  | None => (false, [])
  end = (true, [[1; 2; 3; 4; 9; 9; 9; 9]; [1; 1; 1; 1; 9; 9; 9; 9]]).
Proof. vm_compute. reflexivity. Qed.
