(* ===== verification/BufferPool.v ===== *)
(** The lock-free frame pool
    ([crates/remoteway-core/src/buffer_pool.rs] and [frame_handle.rs]).

    The free list is one 64-bit mask; [acquire] is a load followed by a
    compare-exchange that can fail.  The pool is therefore modelled as a small
    step system: any number of threads interleave their loads,
    compare-exchanges and releases in any order.  [debug_assert] is off. *)

From S2P Require Import Prelude.

(** ** Bits of a mask *)

(** [u64::trailing_zeros] of a non-zero word. *)
Fixpoint pos_trailing_zeros (p : positive) : Z :=
  match p with
  | xO p => 1 + pos_trailing_zeros p
  | _ => 0
  end.

Definition trailing_zeros (m : Z) : Z :=
  match m with Zpos p => pos_trailing_zeros p | _ => 64 end.

(** The positions of the set bits below [w], lowest first. *)
Definition set_bits (w m : Z) : list Z := filter (fun i => Z.testbit m i = true) (zrange w).

Definition count_ones (m : Z) : Z := zlen (set_bits 64 m).

(** ** The pool *)

Record FrameHandle := mkFrameHandle { pool_index : Z; len : Z; timestamp_ns : Z }.

#[export] Instance FrameHandle_eq_dec : EqDecision FrameHandle.
Proof. solve_decision. Defined.

Record BufferPool := mkBufferPool { frame_size : Z; capacity : Z; free_mask : Z }.

Definition set_mask (p : BufferPool) (m : Z) : BufferPool :=
  mkBufferPool (frame_size p) (capacity p) m.

(** [Layout::from_size_align(size, 64)]: the size rounded up must fit [isize]. *)
Definition layout_ok (size : Z) : bool := size <=? 2 ^ 63 - 64.

(** [new]: [None] is the panic of the capacity assertion or of the layout.  The
    sums and products wrap. *)
Definition BufferPool_new (cap size : Z) : option BufferPool :=
  if (0 <? cap) && (cap <=? 64) then
    let aligned_size := Z.land (wrap 64 (size + 63)) (Z.lxor 63 (2 ^ 64 - 1)) in
    let total := wrap 64 (aligned_size * cap) in
    if layout_ok total
    then Some (mkBufferPool aligned_size cap
                 (if cap =? 64 then 2 ^ 64 - 1 else Z.shiftl 1 cap - 1))
    else None
  else None.

(** The loop body of [acquire] once [mask] is loaded: the slot and the new mask. *)
Definition pick_slot (mask : Z) : option (Z * Z) :=
  if mask =? 0 then None
  else
    let slot := wrap 16 (trailing_zeros mask) in
    Some (slot, Z.ldiff mask (Z.shiftl 1 slot)).

Definition make_handle (p : BufferPool) (slot ts : Z) : FrameHandle :=
  mkFrameHandle slot (wrap 32 (frame_size p)) ts.

(** [acquire] when no other thread touches the mask: the first exchange succeeds. *)
Definition acquire (p : BufferPool) (ts : Z) : BufferPool * option FrameHandle :=
  match pick_slot (free_mask p) with
  | None => (p, None)
  | Some (slot, m) => (set_mask p m, Some (make_handle p slot ts))
  end.

(** [release]: the shift count of a release build is taken modulo 64. *)
Definition release (p : BufferPool) (h : FrameHandle) : BufferPool :=
  set_mask p (Z.lor (free_mask p) (Z.shiftl 1 (pool_index h mod 64))).

(** The byte range of a slot: its offset in the storage and its length. *)
Definition slot_ptr (p : BufferPool) (h : FrameHandle) : Z := pool_index h * frame_size p.
Definition slot (p : BufferPool) (h : FrameHandle) : Z * Z := (slot_ptr p h, slot_ptr p h + len h).

Definition free_count (p : BufferPool) : Z := count_ones (free_mask p).

(** ** Threads *)

(** The pool, the masks threads have loaded and not yet exchanged, and the
    handles given out and not yet released. *)
Record World := mkWorld {
  pool : BufferPool;
  loaded : gmap nat Z;
  held : list FrameHandle
}.

(** [Load t] reads the mask; [Exchange t ts] is the compare-exchange of thread
    [t], which spuriously fails or not ([weak]); [Release h] gives [h] back. *)
Inductive pool_op :=
  | Load (t : nat)
  | Exchange (t : nat) (ts : Z) (spurious : bool)
  | Release (h : FrameHandle).

(** [None]: the operation is not possible there.  A caller releases only what
    it holds (the contract of [release]). *)
Definition pool_step (w : World) (op : pool_op) : option World :=
  match op with
  | Load t =>
      match pick_slot (free_mask (pool w)) with
      | None => Some (mkWorld (pool w) (delete t (loaded w)) (held w))
      | Some _ => Some (mkWorld (pool w) (<[t := free_mask (pool w)]> (loaded w)) (held w))
      end
  | Exchange t ts spurious =>
      mask ← loaded w !! t;
      '(s, m) ← pick_slot mask;
      let waiting := delete t (loaded w) in
      if (mask =? free_mask (pool w)) && negb spurious
      then Some (mkWorld (set_mask (pool w) m) waiting (make_handle (pool w) s ts :: held w))
      else Some (mkWorld (pool w) waiting (held w))
  | Release h =>
      if decide (h ∈ held w)
      then Some (mkWorld (release (pool w) h) (loaded w) (list_difference (held w) [h]))
      else None
  end.

Definition pool_run (w : World) (ops : list pool_op) : option World := foldM pool_step w ops.

Definition fresh_world (p : BufferPool) : World := mkWorld p ∅ [].

(** ** Bit lemmas *)

Lemma set_bits_NoDup w m : NoDup (set_bits w m).
Proof.
  unfold set_bits, zrange. apply list.NoDup_filter.
  apply NoDup_fmap_2; [intros ???; lia|apply NoDup_seq].
Qed.

Lemma elem_of_set_bits w m i : i ∈ set_bits w m <-> Z.testbit m i = true /\ 0 <= i < w.
Proof. unfold set_bits. by rewrite list_elem_of_filter, elem_of_zrange. Qed.

Lemma pos_trailing_zeros_nonneg p : 0 <= pos_trailing_zeros p.
Proof. induction p; cbn; lia. Qed.

Lemma trailing_zeros_bit m : 0 < m -> Z.testbit m (trailing_zeros m) = true /\
  0 <= trailing_zeros m.
Proof.
  intros Hm. destruct m as [|p|p]; [done| |done]. cbn [trailing_zeros].
  split; [|apply pos_trailing_zeros_nonneg]. clear Hm.
  induction p as [p IH|p IH|]; [done| |done].
  cbn [pos_trailing_zeros]. pose proof (pos_trailing_zeros_nonneg p).
  change (Zpos p~0) with (2 * Zpos p). rewrite Z.add_1_l, Z.testbit_even_succ by lia. exact IH.
Qed.

Lemma trailing_zeros_least m i : 0 < m -> Z.testbit m i = true -> trailing_zeros m <= i.
Proof.
  intros Hm Hi. destruct m as [|p|p]; [done| |done]. cbn [trailing_zeros]. clear Hm.
  assert (0 <= i). { destruct (Z_lt_le_dec i 0); [|done]. by rewrite Z.testbit_neg_r in Hi by lia. }
  revert i Hi H. induction p as [p IH|p IH|]; intros i Hi Hp; cbn [pos_trailing_zeros]; [lia| |lia].
  destruct (decide (i = 0)) as [->|]; [done|].
  replace i with (Z.succ (i - 1)) in Hi by lia.
  change (Zpos p~0) with (2 * Zpos p) in Hi. rewrite Z.testbit_even_succ in Hi by lia.
  apply IH in Hi; lia.
Qed.

Lemma testbit_fits w m i : fits w m -> 0 <= w -> Z.testbit m i = true -> 0 <= i < w.
Proof.
  intros [H0 H1] Hw Hb. destruct (Z_lt_le_dec i 0) as [|Hi]; [by rewrite Z.testbit_neg_r in Hb by lia|].
  split; [done|]. destruct (Z_lt_le_dec i w) as [|Hge]; [done|].
  destruct (decide (m = 0)) as [->|]; [by rewrite Z.testbit_0_l in Hb|].
  rewrite Z.bits_above_log2 in Hb; [done..|].
  apply Z.log2_lt_pow2; [lia|]. eapply Z.lt_le_trans; [exact H1|]. by apply Z.pow_le_mono_r.
Qed.

Lemma testbit_shiftl1 s i : 0 <= s -> Z.testbit (Z.shiftl 1 s) i = bool_decide (i = s).
Proof.
  intros Hs. rewrite Z.shiftl_1_l. case_bool_decide as E.
  - subst. by rewrite Z.pow2_bits_true.
  - by rewrite Z.pow2_bits_false by lia.
Qed.

Lemma fits_of_bits w m : 0 <= w -> 0 <= m ->
  (forall i, Z.testbit m i = true -> i < w) -> fits w m.
Proof.
  intros Hw Hm H. split; [done|].
  destruct (decide (m = 0)) as [->|]; [by apply Z.pow_pos_nonneg|].
  apply Z.log2_lt_pow2; [lia|]. apply H. apply Z.bit_log2. lia.
Qed.

(** Taking the lowest set bit out of a mask. *)
Lemma pick_slot_spec mask s m : 0 < mask -> fits 64 mask ->
  pick_slot mask = Some (s, m) ->
  0 <= s < 64 /\ fits 64 m /\ set_bits 64 mask ≡ₚ s :: set_bits 64 m /\
  (forall i, i ∈ set_bits 64 mask -> s <= i).
Proof.
  intros Hm Hf. unfold pick_slot. rewrite (proj2 (Z.eqb_neq mask 0)) by lia.
  pose proof (trailing_zeros_bit mask Hm) as [Hb Hp].
  pose proof (testbit_fits 64 _ _ Hf ltac:(lia) Hb) as Hr.
  rewrite wrap_small by (width_lia). intros [= <- <-].
  set (s := trailing_zeros mask) in *.
  assert (Hbits : forall i, Z.testbit (Z.ldiff mask (Z.shiftl 1 s)) i =
                    Z.testbit mask i && negb (bool_decide (i = s))).
  { intros i. by rewrite Z.ldiff_spec, testbit_shiftl1. }
  split_and!; [lia..| | |].
  - apply fits_of_bits; [lia|apply Z.ldiff_nonneg; lia|]. intros i. rewrite Hbits.
    intros [Hi _]%andb_true_iff. apply (testbit_fits 64 mask); [done|lia|done].
  - apply NoDup_Permutation; [apply set_bits_NoDup| |].
    + constructor; [|apply set_bits_NoDup]. rewrite elem_of_set_bits, Hbits.
      rewrite bool_decide_true by done. rewrite andb_false_r. by intros [? _].
    + intros i. rewrite elem_of_cons, !elem_of_set_bits, Hbits.
      case_bool_decide as E; [subst i|]; rewrite ?andb_true_r, ?andb_false_r; intuition (try congruence; lia).
  - intros i [Hi _]%elem_of_set_bits. by apply trailing_zeros_least.
Qed.

(** Putting a bit back. *)
Lemma lor_bit_spec mask s : fits 64 mask -> 0 <= s < 64 -> Z.testbit mask s = false ->
  fits 64 (Z.lor mask (Z.shiftl 1 s)) /\
  set_bits 64 (Z.lor mask (Z.shiftl 1 s)) ≡ₚ s :: set_bits 64 mask.
Proof.
  intros Hf Hs Hb.
  assert (Hbits : forall i, Z.testbit (Z.lor mask (Z.shiftl 1 s)) i =
                    Z.testbit mask i || bool_decide (i = s)).
  { intros i. by rewrite Z.lor_spec, testbit_shiftl1 by lia. }
  split.
  - apply fits_of_bits; [lia| |].
    + apply Z.lor_nonneg. split; [apply Hf|]. apply Z.shiftl_nonneg. lia.
    + intros i. rewrite Hbits. case_bool_decide; [subst; lia|]. rewrite orb_false_r.
      intros Hi. apply (testbit_fits 64 mask); [done|lia|done].
  - apply NoDup_Permutation; [apply set_bits_NoDup| |].
    + constructor; [|apply set_bits_NoDup]. rewrite elem_of_set_bits, Hb. by intros [? _].
    + intros i. rewrite elem_of_cons, !elem_of_set_bits, Hbits.
      case_bool_decide as E; [subst i|]; rewrite ?orb_true_r, ?orb_false_r; intuition (try congruence; lia).
Qed.

(** ** The invariant *)

(** Every slot below the capacity is either free or held, once. *)
Definition pool_inv (p : BufferPool) (w : World) : Prop :=
  frame_size (pool w) = frame_size p /\ capacity (pool w) = capacity p /\
  fits 64 (free_mask (pool w)) /\ capacity p <= 64 /\
  set_bits 64 (free_mask (pool w)) ++ (pool_index <$> held w) ≡ₚ zrange (capacity p) /\
  Forall (fun h => len h = wrap 32 (frame_size p)) (held w) /\
  map_Forall (fun _ m => 0 < m /\ fits 64 m) (loaded w).

Lemma BufferPool_new_inv cap size p :
  BufferPool_new cap size = Some p -> pool_inv p (fresh_world p).
Proof.
  unfold BufferPool_new. destruct (Z.ltb_spec 0 cap) as [Hc|]; [|done].
  destruct (Z.leb_spec cap 64) as [Hc'|]; [|done]. cbn [andb].
  destruct (layout_ok _); [|done]. intros [= <-]. unfold pool_inv. cbn [fresh_world pool held loaded].
  cbn [frame_size capacity free_mask]. rewrite fmap_nil, app_nil_r.
  split_and!; [done|done| |lia| |constructor|apply map_Forall_empty].
  - case_match; [by vm_compute|]. rewrite Z.shiftl_1_l.
    assert (2 ^ cap <= 2 ^ 64) by (apply Z.pow_le_mono_r; lia).
    assert (0 < 2 ^ cap) by (apply Z.pow_pos_nonneg; lia). unfold fits. lia.
  - apply NoDup_Permutation; [apply set_bits_NoDup| |].
    + unfold zrange. apply NoDup_fmap_2; [intros ???; lia|apply NoDup_seq].
    + intros i. rewrite elem_of_set_bits, elem_of_zrange.
      assert (E : (if cap =? 64 then 2 ^ 64 - 1 else Z.shiftl 1 cap - 1) = Z.ones cap).
      { unfold Z.ones. rewrite Z.shiftl_1_l. destruct (Z.eqb_spec cap 64); [by subst|lia]. }
      rewrite E, Z.testbit_ones by lia.
      destruct (Z.leb_spec 0 i), (Z.ltb_spec i cap); cbn [andb]; intuition (try congruence; lia).
Qed.

Lemma list_difference_one (l : list FrameHandle) h :
  NoDup l -> h ∈ l -> h :: list_difference l [h] ≡ₚ l.
Proof.
  intros Hn Hi. apply NoDup_Permutation; [|done|].
  - constructor; [|by apply NoDup_list_difference].
    rewrite list_elem_of_difference. intros [_ Hx]. apply Hx. by constructor.
  - intros x. rewrite elem_of_cons, list_elem_of_difference, list_elem_of_singleton.
    destruct (decide (x = h)); naive_solver.
Qed.

Lemma pool_inv_NoDup p w : pool_inv p w -> NoDup (set_bits 64 (free_mask (pool w)) ++ (pool_index <$> held w)).
Proof.
  intros (_&_&_&_&HP&_&_). rewrite HP. unfold zrange.
  apply NoDup_fmap_2; [intros ???; lia|apply NoDup_seq].
Qed.

Lemma mask_pos w m : fits w m -> m <> 0 -> 0 < m.
Proof. unfold fits. lia. Qed.

Lemma pool_step_inv p w op w' : pool_inv p w -> pool_step w op = Some w' -> pool_inv p w'.
Proof.
  intros HI. pose proof (pool_inv_NoDup p w HI) as Hnd.
  destruct HI as (Hfs & Hcap & Hm & H64 & HP & Hlen & Hl). destruct op as [t|t ts sp|h]; cbn [pool_step].
  - unfold pick_slot. destruct (Z.eqb_spec (free_mask (pool w)) 0) as [|Hne]; intros [= <-];
      (split_and!; cbn [pool held loaded]; try done).
    + by apply map_Forall_delete.
    + apply map_Forall_insert_2; [|done]. split; [by eapply mask_pos|done].
  - destruct (loaded w !! t) as [mask|] eqn:El; [|done]. cbn [mbind option_bind].
    destruct (Hl _ _ El) as [Hpos Hf].
    destruct (pick_slot mask) as [[s m]|] eqn:Ep; [|done].
    destruct (pick_slot_spec mask s m Hpos Hf Ep) as (Hs & Hfm & Hperm & _).
    destruct (Z.eqb_spec mask (free_mask (pool w))) as [E|]; destruct sp; cbn [andb negb];
      intros [= <-]; (split_and!; cbn [pool held loaded set_mask frame_size capacity free_mask];
        try done; try (by apply map_Forall_delete)); [|constructor; [cbn; by rewrite Hfs|done]].
    rewrite <- HP, <- E, Hperm. cbn. by rewrite <- Permutation_middle.
  - case_decide as Hin; [|done]. intros [= <-].
    assert (Hidx : pool_index h ∈ pool_index <$> held w) by (by apply list_elem_of_fmap_2).
    assert (Hr : 0 <= pool_index h < capacity p).
    { apply elem_of_zrange. rewrite <- HP, elem_of_app. by right. }
    assert (Hb : Z.testbit (free_mask (pool w)) (pool_index h) = false).
    { apply not_true_iff_false. intros Hb. apply list.NoDup_app in Hnd as (_ & Hd & _).
      apply (Hd (pool_index h)); [|done]. apply elem_of_set_bits. split; [done|lia]. }
    destruct (lor_bit_spec _ (pool_index h) Hm ltac:(lia) Hb) as (Hf & Hperm).
    assert (Hh : NoDup (held w)) by (apply list.NoDup_app in Hnd as (_&_&H); by apply NoDup_fmap_1 in H).
    split_and!; cbn [pool held loaded release set_mask frame_size capacity free_mask]; try done;
      [by rewrite (Z.mod_small (pool_index h) 64) by lia| |].
    2: { rewrite list.Forall_forall in *. intros x [Hx _]%list_elem_of_difference. by apply Hlen. }
    rewrite (Z.mod_small (pool_index h) 64) by lia.
    pose proof (Permutation_map pool_index (list_difference_one _ _ Hh Hin)) as Hd.
    rewrite Hperm, <- HP. transitivity (set_bits 64 (free_mask (pool w)) ++
      pool_index h :: (pool_index <$> list_difference (held w) [h])).
    + cbn. by rewrite <- Permutation_middle.
    + by apply Permutation_app_head.
Qed.

Lemma pool_run_inv p w ops w' : pool_inv p w -> pool_run w ops = Some w' -> pool_inv p w'.
Proof.
  revert w. induction ops as [|op ops IH]; intros w HI; [by intros [= <-]|].
  cbn. destruct (pool_step w op) as [w1|] eqn:E; [|done]. cbn [mbind option_bind].
  apply IH. by eapply pool_step_inv.
Qed.

Lemma reachable_inv cap size p ops w :
  BufferPool_new cap size = Some p -> pool_run (fresh_world p) ops = Some w -> pool_inv p w.
Proof. intros Hp Hr. eapply pool_run_inv; [by eapply BufferPool_new_inv|done]. Qed.

(** ** Sizes *)

Definition round_up64 (size : Z) : Z := 64 * ((size + 63) / 64).

Lemma align_mask x : fits 64 x -> Z.land x (Z.lxor 63 (2 ^ 64 - 1)) = 64 * (x / 64).
Proof.
  intros Hx. assert (E : Z.land x (Z.lxor 63 (2 ^ 64 - 1)) = Z.ldiff x (Z.ones 6)).
  { apply Z.bits_inj'. intros n Hn. rewrite Z.land_spec, Z.lxor_spec, Z.ldiff_spec.
    change 63 with (Z.ones 6). change (2 ^ 64 - 1) with (Z.ones 64).
    rewrite !Z.testbit_ones by lia.
    destruct (Z.testbit x n) eqn:Eb; [|done]. pose proof (testbit_fits 64 x n Hx ltac:(lia) Eb).
    rewrite (proj2 (Z.leb_le 0 n)) by lia. rewrite (proj2 (Z.ltb_lt n 64)) by lia.
    by destruct (n <? 6). }
  rewrite E, Z.ldiff_ones_r by lia. rewrite Z.shiftl_mul_pow2, Z.shiftr_div_pow2 by lia.
  change (2 ^ 6) with 64. lia.
Qed.

Lemma BufferPool_new_size cap size p :
  BufferPool_new cap size = Some p -> 0 <= size -> round_up64 size * cap < 2 ^ 64 ->
  frame_size p = round_up64 size /\ capacity p = cap /\ 0 < cap.
Proof.
  unfold BufferPool_new, round_up64. destruct (Z.ltb_spec 0 cap) as [Hc|]; [|done].
  destruct (cap <=? 64); [|done]. cbn [andb]. destruct (layout_ok _); [|done].
  intros [= <-] Hs Ho. cbn. split_and!; [|done|done].
  assert (Hx : fits 64 (size + 63)).
  { pose proof (Z.div_mod (size + 63) 64 ltac:(lia)).
    pose proof (Z.mod_pos_bound (size + 63) 64 ltac:(lia)).
    assert (0 <= (size + 63) / 64) by (apply Z.div_pos; lia).
    set (q := (size + 63) / 64) in *. clearbody q.
    assert (64 * q * 1 <= 64 * q * cap) by (apply Z.mul_le_mono_nonneg_l; lia).
    width_lia. }
  rewrite (wrap_small 64) by done. by apply align_mask.
Qed.

Lemma disjoint_slots fs l i j : 0 <= l <= fs -> 0 <= i -> 0 <= j -> i <> j ->
  i * fs + l <= j * fs \/ j * fs + l <= i * fs.
Proof. intros. destruct (Z_lt_le_dec i j); [left|right]; nia. Qed.

Lemma round_up64_nonneg size : 0 <= size -> 0 <= round_up64 size.
Proof. intros. unfold round_up64. pose proof (Z.div_pos (size + 63) 64). lia. Qed.

Lemma wrap_le w z : 0 <= w -> 0 <= z -> 0 <= wrap w z <= z.
Proof.
  intros. unfold wrap. pose proof (Z.pow_pos_nonneg 2 w ltac:(lia) ltac:(lia)).
  pose proof (Z.mod_pos_bound z (2 ^ w) ltac:(lia)). pose proof (Z.mod_le z (2 ^ w)). lia.
Qed.

(** ** Theorems *)

(** C18. However the loads, the compare-exchanges (spurious failures and
    stale masks included) and the releases of any threads interleave, the handles
    in use name distinct slots below the capacity, the free count is exactly what
    they leave, and when the size of the pool does not overflow, their byte
    ranges lie inside the allocation, 64-aligned, and do not overlap. *)
Theorem pool_slots_exclusive cap size p ops w :
  BufferPool_new cap size = Some p -> pool_run (fresh_world p) ops = Some w ->
  0 <= size -> round_up64 size * cap < 2 ^ 64 ->
  NoDup (pool_index <$> held w) /\
  free_count (pool w) + zlen (held w) = cap /\
  Forall (fun h => 0 <= pool_index h < cap /\ 0 <= slot_ptr p h /\ slot_ptr p h mod 64 = 0 /\
            (slot p h).2 <= round_up64 size * cap) (held w) /\
  forall i j h k, i <> j -> held w !! i = Some h -> held w !! j = Some k ->
    (slot p h).2 <= (slot p k).1 \/ (slot p k).2 <= (slot p h).1.
Proof.
  intros Hp Hr Hs Ho. destruct (BufferPool_new_size _ _ _ Hp Hs Ho) as (Ef & Ec & Hc).
  pose proof (reachable_inv _ _ _ _ _ Hp Hr) as HI. pose proof (pool_inv_NoDup _ _ HI) as Hnd.
  apply list.NoDup_app in Hnd as (_ & _ & Hnd).
  destruct HI as (_ & _ & Hm & H64 & HP & Hlen & _).
  rewrite list.Forall_forall in Hlen. pose proof (round_up64_nonneg size Hs) as Hu.
  pose proof (wrap_le 32 (frame_size p) ltac:(lia) ltac:(lia)) as Hw.
  assert (Hidx : forall h, h ∈ held w -> 0 <= pool_index h < cap).
  { intros h Hh. rewrite <- Ec, <- elem_of_zrange, <- HP, elem_of_app. right.
    by apply list_elem_of_fmap_2. }
  split_and!.
  - done.
  - apply Permutation_length in HP. rewrite length_app, length_fmap, zrange_length in HP.
    unfold free_count, count_ones, zlen. lia.
  - apply list.Forall_forall. intros h Hh. pose proof (Hidx h Hh). pose proof (Hlen h Hh) as El.
    unfold slot, slot_ptr. cbn [snd]. rewrite El. rewrite Ef in *. split_and!; [lia..|nia| |nia].
    unfold round_up64. rewrite Z.mul_assoc, (Z.mul_comm (pool_index h)), <- Z.mul_assoc, Z.mul_comm.
    by apply Z_mod_mult.
  - intros i j h k Hij Hi Hj. unfold slot, slot_ptr. cbn [fst snd].
    rewrite (Hlen h), (Hlen k) by (by eapply list_elem_of_lookup_2).
    apply disjoint_slots; [lia|apply Hidx; by eapply list_elem_of_lookup_2..|].
    intros E. apply Hij. eapply (NoDup_lookup (pool_index <$> held w)); [done| |];
      rewrite list_lookup_fmap; [by rewrite Hi|by rewrite Hj; cbn; rewrite E].
Qed.

(** [acquire] in terms of the threads' steps. *)
Lemma acquire_step w t ts p' h :
  acquire (pool w) ts = (p', Some h) ->
  pool_run w [Load t; Exchange t ts false] =
    Some (mkWorld p' (delete t (loaded w)) (h :: held w)).
Proof.
  unfold acquire. destruct (pick_slot (free_mask (pool w))) as [[s m]|] eqn:E; [|done].
  intros [= <- <-]. unfold pool_run. cbn [foldM pool_step]. rewrite E.
  cbn [mbind option_bind pool_step loaded pool held]. rewrite lookup_insert_eq.
  cbn [mbind option_bind]. rewrite E. rewrite Z.eqb_refl. cbn [andb negb foldM mbind option_bind].
  by rewrite delete_insert_eq.
Qed.

Lemma lor_ldiff_bit mask s : 0 <= s -> Z.testbit mask s = true ->
  Z.lor (Z.ldiff mask (Z.shiftl 1 s)) (Z.shiftl 1 s) = mask.
Proof.
  intros Hs Hb. apply Z.bits_inj'. intros n _. rewrite Z.lor_spec, Z.ldiff_spec, testbit_shiftl1 by done.
  case_bool_decide as E; [subst; by rewrite Hb|]. by rewrite andb_true_r, orb_false_r.
Qed.

(** From any reachable state, an undisturbed [acquire] is
    refused exactly when every slot is in use; otherwise it hands out the lowest
    slot nobody holds, and releasing that handle gives the same pool back. *)
Theorem pool_acquire_release cap size p ops w ts :
  BufferPool_new cap size = Some p -> pool_run (fresh_world p) ops = Some w ->
  match acquire (pool w) ts with
  | (p', None) => p' = pool w /\ zlen (held w) = cap
  | (p', Some h) =>
      zlen (held w) < cap /\ pool_index h ∉ (pool_index <$> held w) /\
      (forall i, 0 <= i < pool_index h -> i ∈ (pool_index <$> held w)) /\
      timestamp_ns h = ts /\ release p' h = pool w /\
      exists w', pool_run w [Load 0; Exchange 0 ts false] = Some w' /\
                 pool w' = p' /\ held w' = h :: held w
  end.
Proof.
  intros Hp Hr. pose proof (reachable_inv _ _ _ _ _ Hp Hr) as HI.
  pose proof (pool_inv_NoDup _ _ HI) as Hnd. destruct HI as (_ & _ & Hm & H64 & HP & _ & _).
  assert (Ec : capacity p = cap /\ 0 < cap).
  { revert Hp. unfold BufferPool_new. destruct (Z.ltb_spec 0 cap); [|done].
    destruct (cap <=? 64); [|done]. cbn [andb]. destruct (layout_ok _); [|done]. by intros [= <-]. }
  destruct Ec as [Ec Hc].
  pose proof (Permutation_length HP) as Hlen. rewrite length_app, length_fmap, zrange_length in Hlen.
  pose proof (acquire_step w 0 ts) as Hst. unfold acquire in *.
  destruct (pick_slot (free_mask (pool w))) as [[s m]|] eqn:E.
  - assert (Hne : free_mask (pool w) <> 0) by (intros E0; by rewrite E0 in E).
    destruct (pick_slot_spec _ _ _ (mask_pos _ _ Hm Hne) Hm E) as (Hs & Hf & HPm & Hleast).
    assert (Hin : s ∈ set_bits 64 (free_mask (pool w))) by (rewrite HPm; constructor).
    apply list.NoDup_app in Hnd as (_ & Hd & _). split_and!; cbn.
    + apply Permutation_length in HPm. cbn in HPm. unfold zlen. lia.
    + by apply Hd.
    + intros i Hi. assert (Hz : i ∈ zrange (capacity p)).
      { apply elem_of_zrange. assert (s ∈ zrange (capacity p)) as Hsz by (rewrite <- HP, elem_of_app; by left).
        apply elem_of_zrange in Hsz. lia. }
      rewrite <- HP, elem_of_app in Hz. destruct Hz as [Hz|Hz]; [|done].
      apply Hleast in Hz. lia.
    + done.
    + unfold release. cbn. rewrite Z.mod_small by lia. unfold pick_slot in E.
      rewrite (proj2 (Z.eqb_neq _ _) Hne) in E. injection E as Es Em. rewrite <- Em, Es.
      rewrite lor_ldiff_bit; [by destruct (pool w)|lia|].
      by apply elem_of_set_bits in Hin as [].
    + eexists. split; [by apply Hst|done].
  - split; [done|]. unfold pick_slot in E. destruct (Z.eqb_spec (free_mask (pool w)) 0) as [E0|]; [|done].
    rewrite E0 in Hlen. assert (set_bits 64 0 = []) as E1 by (by vm_compute). rewrite E1 in Hlen.
    cbn in Hlen. unfold zlen. lia.
Qed.

(** *** Two threads race for the same slot: the stale exchange fails and retries *)

Definition race_ops : list pool_op :=
  [Load 1; Load 2; Exchange 2 20 false; Exchange 1 10 false; Load 1; Exchange 1 11 false].

Definition race_pool : BufferPool := mkBufferPool 128 2 3.

Definition race_world : World :=
  mkWorld (mkBufferPool 128 2 0) ∅ [mkFrameHandle 1 128 11; mkFrameHandle 0 128 20].

Lemma pool_slots_exclusive_witness :
  free_count (pool race_world) + zlen (held race_world) = 2 /\
  ((slot race_pool (mkFrameHandle 1 128 11)).2 <= (slot race_pool (mkFrameHandle 0 128 20)).1 \/
   (slot race_pool (mkFrameHandle 0 128 20)).2 <= (slot race_pool (mkFrameHandle 1 128 11)).1).
Proof.
  destruct (pool_slots_exclusive 2 100 race_pool race_ops race_world)
    as (_ & Hc & _ & Hd).
  - reflexivity.
  - reflexivity.
  - lia.
  - reflexivity.
  - split; [exact Hc|]. by apply (Hd 0%nat 1%nat).
Defined.

Lemma pool_acquire_release_witness :
  acquire (pool race_world) 5 = (pool race_world, None) /\ zlen (held race_world) = 2.
Proof.
  split; [reflexivity|].
  exact (proj2 (pool_acquire_release 2 100 race_pool race_ops race_world 5 eq_refl eq_refl)).
Defined.

(** A pool of 64 frames of 2^58 bytes: the product wraps to zero, the layout
    check passes, and slot 1 starts far outside the allocation. *)
Example pool_size_wraps :
  exists p, BufferPool_new 64 (2 ^ 58) = Some p /\
    wrap 64 (frame_size p * capacity p) = 0 /\
    slot_ptr p (mkFrameHandle 1 0 0) = 2 ^ 58.
Proof. eexists. split; [reflexivity|]. split; reflexivity. Qed.
