(* ===== verification/Meters.v ===== *)
(** The measurement rings: latency percentiles and bandwidth
    ([crates/remoteway-core/src/latency.rs] and [bandwidth.rs]).

    A [Duration] is a number of nanoseconds, whose sum panics past
    [Duration::MAX]; an [Instant] is a number of nanoseconds since the clock's
    origin.  A [Vec::with_capacity(n)] is given the capacity [n]. *)

From stdpp Require Import sorting.
From S2P Require Import Prelude Floats.

Definition DURATION_MAX : Z := (2 ^ 64 - 1) * 10 ^ 9 + 999999999.

(** [a += b] of durations: [None] is the panic of an overflow. *)
Definition dur_add (a b : Z) : option Z := if a + b <=? DURATION_MAX then Some (a + b) else None.

(** The store both meters share: push below the capacity, overwrite at the cursor
    from then on, and advance the cursor around the capacity. *)
Definition ring_store {A} (cap : Z) (samples : list A) (cursor : Z) (x : A)
    : option (list A * Z) :=
  samples' ← (if zlen samples <? cap then Some (samples ++ [x]) else set samples cursor x);
  Some (samples', (cursor + 1) mod Z.max cap 1).

(** ** Latency *)

Record LatencyHistogram := mkLatencyHistogram {
  samples : list Z;
  ring_capacity : Z;
  cursor : Z;
  count : Z;
  sum : Z;
  min : Z;
  max : Z
}.

Record LatencyStats := mkLatencyStats {
  st_count : Z; st_min : Z; st_max : Z; st_avg : Z; st_p50 : Z; st_p99 : Z
}.

Definition DEFAULT_CAPACITY : Z := 1024.

Definition with_capacity (cap : Z) : LatencyHistogram :=
  mkLatencyHistogram [] cap 0 0 0 DURATION_MAX 0.

Definition LatencyHistogram_new : LatencyHistogram := with_capacity DEFAULT_CAPACITY.

Definition record (h : LatencyHistogram) (latency : Z) : option LatencyHistogram :=
  '(s, c) ← ring_store (ring_capacity h) (samples h) (cursor h) latency;
  total ← dur_add (sum h) latency;
  Some (mkLatencyHistogram s (ring_capacity h) c (wrap 64 (count h + 1)) total
          (Z.min (min h) latency) (Z.max (max h) latency)).

Definition record_ns (h : LatencyHistogram) (start_ns end_ns : Z) : option LatencyHistogram :=
  if start_ns <? end_ns then record h (end_ns - start_ns) else Some h.

Definition percentiles (h : LatencyHistogram) : option (Z * Z) :=
  if decide (samples h = []) then Some (0, 0)
  else
    let sorted := merge_sort Z.le (samples h) in
    let p50_idx := zlen sorted / 2 in
    let p99_idx := Z.min (wrap 64 (zlen sorted * 99) / 100) (zlen sorted - 1) in
    p50 ← get sorted p50_idx;
    p99 ← get sorted p99_idx;
    Some (p50, p99).

(** [self.sum / self.count as u32]: [None] is the division by zero of a count
    that is a multiple of [2^32]. *)
Definition average (h : LatencyHistogram) : option Z :=
  if 0 <? count h then
    let n := wrap 32 (count h) in
    if n =? 0 then None else Some (sum h / n)
  else Some 0.

Definition stats (h : LatencyHistogram) : option LatencyStats :=
  avg ← average h;
  '(p50, p99) ← percentiles h;
  Some (mkLatencyStats (count h) (if 0 <? count h then min h else 0) (max h) avg p50 p99).

Definition reset (h : LatencyHistogram) : LatencyHistogram := with_capacity (ring_capacity h).

Definition record_all (h : LatencyHistogram) (xs : list Z) : option LatencyHistogram :=
  foldM record h xs.

(** ** Bandwidth *)

Record BandwidthMeter := mkBandwidthMeter {
  bw_samples : list (Z * Z);
  bw_cursor : Z;
  window : Z;
  window_bytes : Z
}.

Record BandwidthStats := mkBandwidthStats {
  bytes_per_sec : f64; mbps : f64; total_bytes : Z
}.

Definition BW_CAPACITY : Z := 256.

Definition with_window (w : Z) : BandwidthMeter := mkBandwidthMeter [] 0 w 0.
Definition BandwidthMeter_new : BandwidthMeter := with_window (10 ^ 9).

Definition record_at (m : BandwidthMeter) (now bytes : Z) : option BandwidthMeter :=
  '(s, c) ← ring_store BW_CAPACITY (bw_samples m) (bw_cursor m) (now, bytes);
  Some (mkBandwidthMeter s c (window m) (wrap 64 (window_bytes m + bytes))).

(** The bytes of the samples inside the window that ends [now]. *)
Definition bytes_in_window (m : BandwidthMeter) (now : Z) : Z :=
  let cutoff := if window m <=? now then now - window m else now in
  foldl (fun acc b => wrap 64 (acc + b)) 0
    (snd <$> filter (fun s => cutoff <= s.1) (bw_samples m)).

(** [Duration::as_secs_f64]. *)
Definition as_secs_f64 (d : Z) : f64 :=
  f64_add (f64_of_int (d / 10 ^ 9)) (f64_div (f64_of_int (d mod 10 ^ 9)) (f64_of_int (10 ^ 9))).

Definition bandwidth_stats (m : BandwidthMeter) (now : Z) : BandwidthStats :=
  let elapsed := as_secs_f64 (window m) in
  let bps := if SpecFloat.SFltb (f64_of_int 0) elapsed
             then f64_div (f64_of_int (bytes_in_window m now)) elapsed else f64_of_int 0 in
  mkBandwidthStats bps (f64_div (f64_mul bps (f64_of_int 8)) (f64_of_int 1000000)) (window_bytes m).

Definition bandwidth_reset (m : BandwidthMeter) : BandwidthMeter := with_window (window m).

(** ** The ring holds the last samples *)

(** The last [n] elements. *)
Definition last_n {A} (n : Z) (l : list A) : list A := drop (Z.to_nat (zlen l - n)) l.

(** What a ring of capacity [cap] looks like after [xs]: read from the cursor it
    is the last [cap] of them, oldest first. *)
Definition ring_of {A} (cap : Z) (xs s : list A) (c : Z) : Prop :=
  c = zlen xs mod cap /\
  if zlen xs <=? cap then s = xs
  else zlen s = cap /\ drop (Z.to_nat c) s ++ take (Z.to_nat c) s = last_n cap xs.

Lemma last_n_snoc {A} n (l : list A) x : 0 < n -> n <= zlen l ->
  last_n n (l ++ [x]) = drop 1 (last_n n l) ++ [x].
Proof.
  intros Hn Hl. unfold last_n. rewrite zlen_app, zlen_cons, zlen_nil.
  replace (Z.to_nat (zlen l + (1 + 0) - n)) with (Z.to_nat (zlen l - n) + 1)%nat by lia.
  rewrite drop_drop. rewrite drop_app_le; [done|]. unfold zlen in *. lia.
Qed.

Lemma last_n_all {A} n (l : list A) : zlen l <= n -> last_n n l = l.
Proof. intros H. unfold last_n. by replace (Z.to_nat (zlen l - n)) with 0%nat by lia. Qed.

Lemma ring_rotate {A} (s : list A) (c : nat) x : (c < length s)%nat ->
  drop (S c) (<[c := x]> s) ++ take (S c) (<[c := x]> s) = drop 1 (drop c s ++ take c s) ++ [x].
Proof.
  intros Hc. rewrite insert_take_drop by done.
  assert (L : length (take c s) = c) by (rewrite length_take; lia).
  rewrite drop_app_ge, take_app_ge by lia. rewrite L. replace (S c - c)%nat with 1%nat by lia.
  cbn [drop take]. rewrite drop_0, take_0.
  destruct (drop c s) as [|y t] eqn:E; [apply (f_equal length) in E; rewrite length_drop in E; cbn in E; lia|].
  replace (drop (S c) s) with t.
  - cbn [app drop]. rewrite drop_0. by rewrite <- app_assoc.
  - replace (S c) with (c + 1)%nat by lia. rewrite <- drop_drop, E. cbn. by rewrite drop_0.
Qed.

Lemma ring_store_spec {A} cap (xs s : list A) c x :
  0 < cap -> ring_of cap xs s c ->
  exists s' c', ring_store cap s c x = Some (s', c') /\ ring_of cap (xs ++ [x]) s' c'.
Proof.
  intros Hcap [Hc Hs]. unfold ring_store, ring_of in *.
  rewrite zlen_app, zlen_cons, zlen_nil, Z.add_0_r. rewrite Z.max_l by lia.
  pose proof (Z.mod_pos_bound (zlen xs) cap Hcap) as Hb. pose proof (zlen_nonneg xs).
  assert (Hmod : (c + 1) mod cap = (zlen xs + 1) mod cap) by (rewrite Hc; apply Zplus_mod_idemp_l).
  destruct (Z.leb_spec (zlen xs) cap) as [Hle|Hgt].
  - subst s. destruct (Z.ltb_spec (zlen xs) cap) as [Hlt|Heq].
    + eexists _, _. split; [done|]. split; [done|]. by rewrite (proj2 (Z.leb_le _ _)) by lia.
    + assert (zlen xs = cap) as E by lia. rewrite E, Z.mod_same in Hc by lia.
      subst c. rewrite set_ok by lia. eexists _, _. split; [done|]. split; [done|].
      rewrite (proj2 (Z.leb_gt _ _)) by lia. rewrite Z.add_0_l.
      split; [unfold zlen in *; by rewrite length_insert|].
      rewrite last_n_snoc by lia. rewrite last_n_all by lia.
      destruct xs as [|y xs]; [rewrite zlen_nil in E; lia|]. change (Z.to_nat 0) with 0%nat.
      destruct (decide (cap = 1)) as [->|].
      * rewrite Z.mod_same by lia. rewrite zlen_cons in E.
        rewrite (zlen_zero xs) by lia. done.
      * rewrite Z.mod_small by lia. change (Z.to_nat 1) with 1%nat. done.
  - destruct Hs as [Hl Hr]. rewrite Hl. rewrite Z.ltb_irrefl.
    rewrite set_ok by lia. eexists _, _. split; [done|]. split; [done|].
    rewrite (proj2 (Z.leb_gt _ _)) by lia.
    split; [unfold zlen in *; by rewrite length_insert|].
    rewrite last_n_snoc by lia. rewrite <- Hr, <- ring_rotate by (unfold zlen in *; lia).
    destruct (decide (c + 1 = cap)) as [E|].
    + rewrite E, Z.mod_same by lia. change (Z.to_nat 0) with 0%nat.
      rewrite drop_0, take_0, app_nil_r.
      rewrite drop_ge, take_ge by (rewrite length_insert; unfold zlen in *; lia). done.
    + rewrite Z.mod_small by lia. by replace (Z.to_nat (c + 1)) with (S (Z.to_nat c)) by lia.
Qed.

Lemma ring_perm {A} cap (xs s : list A) c : ring_of cap xs s c -> s ≡ₚ last_n cap xs.
Proof.
  intros [_ Hs]. destruct (Z.leb_spec (zlen xs) cap) as [Hle|Hgt]; [by rewrite last_n_all, Hs|].
  destruct Hs as [_ <-]. rewrite Permutation_app_comm. by rewrite take_drop.
Qed.

Lemma last_n_zlen {A} n (l : list A) : 0 <= n -> zlen (last_n n l) = Z.min n (zlen l).
Proof. intros Hn. unfold last_n, zlen. rewrite length_drop. lia. Qed.

(** ** The latency histogram after a list of samples *)

Definition total (xs : list Z) : Z := foldr Z.add 0 xs.

Lemma total_snoc xs x : total (xs ++ [x]) = total xs + x.
Proof. unfold total. induction xs as [|y xs IH]; cbn; [lia|]. rewrite IH. lia. Qed.

Lemma total_app xs ys : total (xs ++ ys) = total xs + total ys.
Proof. unfold total. induction xs as [|y xs IH]; cbn; [lia|]. rewrite IH. lia. Qed.

Lemma total_nonneg xs : Forall (fun x => 0 <= x) xs -> 0 <= total xs.
Proof. unfold total. induction 1; cbn; lia. Qed.

Lemma total_between lo hi xs :
  Forall (fun x => lo <= x <= hi) xs -> lo * zlen xs <= total xs <= hi * zlen xs.
Proof. unfold total. induction 1; [rewrite zlen_nil; cbn; lia|]. rewrite zlen_cons. cbn [foldr]. lia. Qed.

(** The extremes of the samples, or their initial values. *)
Definition extremes (xs : list Z) (lo hi : Z) : Prop :=
  match xs with
  | [] => lo = DURATION_MAX /\ hi = 0
  | _ => lo ∈ xs /\ hi ∈ xs /\ Forall (fun x => lo <= x <= hi) xs
  end.

Lemma extremes_snoc xs lo hi x : 0 <= x <= DURATION_MAX ->
  extremes xs lo hi -> extremes (xs ++ [x]) (Z.min lo x) (Z.max hi x).
Proof.
  intros Hx He. destruct xs as [|y xs].
  - destruct He as [-> ->]. cbn. rewrite Z.min_r, Z.max_r by lia.
    split_and!; [constructor..|]. constructor; [lia|constructor].
  - destruct He as (Hlo & Hhi & Hf). cbn [app extremes].
    change (y :: xs ++ [x]) with ((y :: xs) ++ [x]). rewrite !elem_of_app. split_and!.
    + destruct (Z.min_spec lo x) as [[_ ->]|[_ ->]]; [by left|right; constructor].
    + destruct (Z.max_spec hi x) as [[_ ->]|[_ ->]]; [right; constructor|by left].
    + apply Forall_app. split; [|constructor; [lia|constructor]].
      eapply list.Forall_impl; [exact Hf|]. cbn. lia.
Qed.

Definition latency_of (cap : Z) (xs : list Z) (h : LatencyHistogram) : Prop :=
  ring_capacity h = cap /\ ring_of cap xs (samples h) (cursor h) /\ count h = zlen xs /\
  sum h = total xs /\ extremes xs (min h) (max h).

Lemma ring_of_nil {A} cap : 0 < cap -> ring_of (A:=A) cap [] [] 0.
Proof.
  intros H. unfold ring_of. change (zlen (@nil A)) with 0. rewrite Z.mod_0_l by lia.
  by destruct (Z.leb_spec 0 cap); [|lia].
Qed.

Lemma record_all_spec cap xs :
  0 < cap -> Forall (fun x => 0 <= x) xs -> total xs <= DURATION_MAX -> zlen xs < 2 ^ 64 ->
  exists h, record_all (with_capacity cap) xs = Some h /\ latency_of cap xs h.
Proof.
  intros Hcap Hpos Htot Hlen. unfold record_all. apply foldM_ind.
  - split_and!; try done. by apply ring_of_nil.
  - intros done x rest h -> (Hc & Hr & Hn & Hs & He).
    apply Forall_app in Hpos as [Hp1 Hp2]. inversion Hp2 as [|? ? Hx Hp3]; subst.
    rewrite total_app in Htot. change (total (x :: rest)) with (x + total rest) in Htot.
    pose proof (total_nonneg _ Hp1). pose proof (total_nonneg _ Hp3).
    rewrite zlen_app, zlen_cons in Hlen. pose proof (zlen_nonneg done). pose proof (zlen_nonneg rest).
    destruct (ring_store_spec _ _ _ _ x Hcap Hr) as (s' & c' & Est & Hr').
    unfold record. rewrite Est. cbn [mbind option_bind]. unfold dur_add.
    rewrite Hs, (proj2 (Z.leb_le _ _)) by lia. cbn [mbind option_bind].
    eexists. split; [reflexivity|]. split_and!; cbn; [done|done| | |apply extremes_snoc; [lia|done]].
    + rewrite Hn, zlen_app, zlen_cons, zlen_nil. rewrite wrap_small by width_lia. lia.
    + by rewrite total_snoc.
Qed.

#[local] Instance Zle_total : Total Z.le.
Proof. intros x y. lia. Qed.

Lemma sorted_get (l : list Z) i : 0 <= i < zlen l ->
  exists x, get l i = Some x /\ l !! Z.to_nat i = Some x /\ x ∈ l.
Proof.
  intros Hi. destruct (get_Some l i Hi) as [x Hx]. exists x. split; [done|].
  unfold get in Hx. rewrite decide_True in Hx by lia. split; [done|]. by eapply list_elem_of_lookup_2.
Qed.

Lemma sorted_lookup_le (l : list Z) i j x y : StronglySorted Z.le l -> (i <= j)%nat ->
  l !! i = Some x -> l !! j = Some y -> x <= y.
Proof.
  intros Hs. revert i j. induction Hs as [|z l Hs IH Hf]; intros i j Hij Hi Hj; [done|].
  destruct i as [|i], j as [|j]; cbn in Hi, Hj; try lia.
  - simplify_eq. lia.
  - simplify_eq. rewrite list.Forall_forall in Hf. apply Hf. by eapply list_elem_of_lookup_2.
  - by apply (IH i j); [lia| |].
Qed.

(** The percentiles of any non-empty histogram. *)
Lemma percentiles_spec h : samples h <> [] -> zlen (samples h) * 99 < 2 ^ 64 ->
  exists sorted p50 p99,
    percentiles h = Some (p50, p99) /\ sorted ≡ₚ samples h /\ StronglySorted Z.le sorted /\
    sorted !! Z.to_nat (zlen (samples h) / 2) = Some p50 /\
    sorted !! Z.to_nat (Z.min (zlen (samples h) * 99 / 100) (zlen (samples h) - 1)) = Some p99 /\
    p50 ∈ samples h /\ p99 ∈ samples h /\ p50 <= p99.
Proof.
  intros Hne Hb. unfold percentiles. rewrite decide_False by done.
  assert (HP : merge_sort Z.le (samples h) ≡ₚ samples h) by apply merge_sort_Permutation.
  assert (HS : StronglySorted Z.le (merge_sort Z.le (samples h))) by (apply (StronglySorted_merge_sort Z.le)).
  set (sorted := merge_sort Z.le (samples h)) in *. clearbody sorted.
  pose proof (zlen_pos _ Hne) as Hpos.
  assert (El : zlen sorted = zlen (samples h)) by (unfold zlen; by rewrite HP).
  rewrite El, wrap_small by width_lia. set (n := zlen (samples h)) in *.
  destruct (sorted_get sorted (n / 2)) as (p50 & E50 & L50 & I50).
  { rewrite El. split; [apply Z.div_pos; lia|]. apply Z.div_lt; lia. }
  assert (H99 : n / 2 <= Z.min (n * 99 / 100) (n - 1)).
  { apply Z.min_glb.
    - destruct (decide (n = 1)) as [->|]; [by vm_compute|]. apply Z.div_le_lower_bound; [lia|].
      pose proof (Z.mul_div_le n 2). lia.
    - pose proof (Z.div_lt n 2). lia. }
  destruct (sorted_get sorted (Z.min (n * 99 / 100) (n - 1))) as (p99 & E99 & L99 & I99).
  { rewrite El. pose proof (Z.div_pos n 2). lia. }
  rewrite E50, E99. cbn [mbind option_bind]. exists sorted, p50, p99. split_and!; try done.
  - by rewrite <- HP.
  - by rewrite <- HP.
  - eapply (sorted_lookup_le sorted (Z.to_nat (n / 2))); [done| |done|done]. lia.
Qed.

(** After any non-empty list of samples whose sum is a
    [Duration], the histogram has not panicked and its snapshot counts them all;
    minimum, maximum and mean are those of all the samples, the percentiles are
    the elements of rank [n/2] and [99n/100] of the last [cap] ones, and
    [min <= p50 <= p99 <= max]. *)
Theorem latency_stats_summarise cap xs :
  0 < cap < 2 ^ 56 -> xs <> [] -> Forall (fun x => 0 <= x) xs -> total xs <= DURATION_MAX ->
  zlen xs < 2 ^ 32 ->
  exists h st sorted, record_all (with_capacity cap) xs = Some h /\ stats h = Some st /\
    st_count st = zlen xs /\ extremes xs (st_min st) (st_max st) /\
    st_avg st = total xs / zlen xs /\ st_min st <= st_avg st <= st_max st /\
    sorted ≡ₚ last_n cap xs /\ StronglySorted Z.le sorted /\
    (let n := Z.min cap (zlen xs) in
     sorted !! Z.to_nat (n / 2) = Some (st_p50 st) /\
     sorted !! Z.to_nat (Z.min (n * 99 / 100) (n - 1)) = Some (st_p99 st)) /\
    st_min st <= st_p50 st <= st_p99 st /\ st_p99 st <= st_max st.
Proof.
  intros Hcap Hne Hpos Htot Hlen. pose proof (zlen_pos _ Hne) as Hn.
  destruct (record_all_spec cap xs) as (h & Er & _ & Hr & Hc & Hs & He);
    [lia|done|done|width_lia|]. exists h.
  assert (Hf : Forall (fun x => min h <= x <= max h) xs) by (destruct xs; [done|apply He]).
  pose proof (ring_perm _ _ _ _ Hr) as HP.
  assert (El : zlen (samples h) = Z.min cap (zlen xs)).
  { rewrite <- last_n_zlen by lia. unfold zlen. by rewrite HP. }
  destruct (percentiles_spec h) as (sorted & p50 & p99 & Ep & HPs & HS & L50 & L99 & I50 & I99 & Hle).
  { intros E. rewrite E, zlen_nil in El. lia. }
  { rewrite El. change (2 ^ 56) with 72057594037927936 in Hcap. width_lia. }
  unfold stats, average. rewrite Ep, Hc, (proj2 (Z.ltb_lt _ _)) by done.
  rewrite wrap_small by width_lia. rewrite (proj2 (Z.eqb_neq _ _)) by lia. cbn [mbind option_bind].
  eexists _, sorted. split; [done|]. split; [reflexivity|]. cbn [st_count st_min st_max st_avg st_p50 st_p99].
  rewrite Hs. rewrite <- El. pose proof (total_between _ _ _ Hf).
  assert (Hin : forall x, x ∈ samples h -> min h <= x <= max h).
  { intros x Hx. rewrite HP in Hx. rewrite list.Forall_forall in Hf. apply Hf.
    unfold last_n in Hx. by apply (subseteq_drop _ xs) in Hx. }
  pose proof (Hin _ I50). pose proof (Hin _ I99).
  split_and!; try done; try lia.
  - apply Z.div_le_lower_bound; lia.
  - apply Z.div_le_upper_bound; lia.
  - by rewrite HPs.
Qed.

(** Two overwritten samples, and the order of the rest. *)
Lemma latency_stats_summarise_witness :
  exists h st, record_all (with_capacity 3) [50; 10; 40; 20; 30] = Some h /\ stats h = Some st /\
    st_min st <= st_p50 st <= st_p99 st /\ st_p99 st <= st_max st.
Proof.
  destruct (latency_stats_summarise 3 [50; 10; 40; 20; 30])
    as (h & st & _ & Er & Es & _ & _ & _ & _ & _ & _ & _ & H1 & H2).
  - by vm_compute.
  - done.
  - apply (bool_decide_unpack _). vm_compute. exact I.
  - by vm_compute.
  - by vm_compute.
  - exists h, st. split_and!; [done|done|lia..].
Defined.

(** [count as u32] of [2^32] samples is zero, and the division panics. *)
Example average_divides_by_zero :
  average (mkLatencyHistogram [1] 1 0 (2 ^ 32) (2 ^ 32) 1 1) = None.
Proof. reflexivity. Qed.

(** ** The bandwidth window *)

Definition record_all_at (w : Z) (xs : list (Z * Z)) : option BandwidthMeter :=
  foldM (fun m x => record_at m x.1 x.2) (with_window w) xs.

Lemma record_all_at_spec w xs :
  exists m, record_all_at w xs = Some m /\ ring_of BW_CAPACITY xs (bw_samples m) (bw_cursor m) /\
    window m = w /\ window_bytes m = wrap 64 (total (snd <$> xs)).
Proof.
  unfold record_all_at.
  apply (foldM_ind (fun ys m => ring_of BW_CAPACITY ys (bw_samples m) (bw_cursor m) /\
    window m = w /\ window_bytes m = wrap 64 (total (snd <$> ys)))).
  - done.
  - intros done [now b] rest m -> (Hr & Hw & Hb).
    destruct (ring_store_spec BW_CAPACITY _ _ _ (now, b) ltac:(done) Hr) as (s' & c' & E & Hr').
    unfold record_at. cbn [fst snd]. rewrite E. cbn [mbind option_bind]. eexists. split; [reflexivity|].
    split_and!; cbn; [done|done|]. rewrite Hb, fmap_app. cbn. rewrite total_snoc.
    unfold wrap. by rewrite Zplus_mod_idemp_l.
Qed.

Lemma foldl_wrap_sum acc l : foldl (fun acc b => wrap 64 (acc + b)) (wrap 64 acc) l = wrap 64 (acc + total l).
Proof.
  revert acc. induction l as [|b l IH]; intros acc; cbn; [by rewrite Z.add_0_r|].
  change (foldr Z.add 0 l) with (total l).
  replace (wrap 64 (wrap 64 acc + b)) with (wrap 64 (acc + b)); [rewrite IH; f_equal; lia|].
  unfold wrap. by rewrite Zplus_mod_idemp_l.
Qed.

Lemma total_perm l k : l ≡ₚ k -> total l = total k.
Proof. unfold total. induction 1; cbn; lia. Qed.

Lemma filter_none {A} (P : A -> Prop) `{forall x, Decision (P x)} l :
  Forall (fun x => ~ P x) l -> filter P l = [].
Proof. induction 1; [done|]. rewrite filter_cons_False; done. Qed.

(** After any transfers, [total_bytes] is their sum and
    the rate is taken over every transfer inside the window, as long as those the
    256-entry ring has forgotten lie before the window. *)
Theorem bandwidth_counts_window w xs now :
  0 <= w <= now -> Forall (fun x => 0 <= x.2) xs -> total (snd <$> xs) < 2 ^ 64 ->
  Forall (fun x => x.1 < now - w) (take (Z.to_nat (zlen xs - BW_CAPACITY)) xs) ->
  exists m, record_all_at w xs = Some m /\
    total_bytes (bandwidth_stats m now) = total (snd <$> xs) /\
    bytes_in_window m now = total (snd <$> filter (fun x => now - w <= x.1) xs).
Proof.
  intros Hw Hpos Htot Hold.
  destruct (record_all_at_spec w xs) as (m & E & Hr & Hwin & Hb). exists m.
  assert (Hp : forall ys : list (Z * Z), ys ⊆ xs -> 0 <= total (snd <$> ys)).
  { intros ys Hys. apply total_nonneg, Forall_fmap, list.Forall_forall. intros y Hy.
    rewrite list.Forall_forall in Hpos. by apply Hpos, Hys. }
  split; [done|]. split.
  { cbn. rewrite Hb. apply wrap_small. unfold fits. pose proof (Hp xs ltac:(done)). lia. }
  unfold bytes_in_window. rewrite Hwin, (proj2 (Z.leb_le _ _)) by lia.
  change 0 with (wrap 64 0) at 1. rewrite foldl_wrap_sum, Z.add_0_l.
  assert (EP : total (snd <$> filter (fun s => now - w <= s.1) (bw_samples m)) =
               total (snd <$> filter (fun x => now - w <= x.1) xs)).
  { apply total_perm. rewrite (ring_perm _ _ _ _ Hr). unfold last_n.
    rewrite <- (take_drop (Z.to_nat (zlen xs - BW_CAPACITY)) xs) at 3.
    rewrite list.filter_app, (filter_none _ (take _ _)); [done|].
    eapply list.Forall_impl; [exact Hold|]. cbn. lia. }
  rewrite EP. apply wrap_small. unfold fits.
  set (inw := filter (fun x : Z * Z => now - w <= x.1) xs).
  set (out := filter (fun x : Z * Z => ~ now - w <= x.1) xs).
  assert (Hsplit : inw ++ out ≡ₚ xs) by apply filter_app_complement.
  assert (Es : total (snd <$> xs) = total (snd <$> inw) + total (snd <$> out)).
  { rewrite <- total_app, <- fmap_app. apply total_perm. by rewrite Hsplit. }
  pose proof (Hp inw ltac:(intros y Hy; by apply list_elem_of_filter in Hy as [])).
  pose proof (Hp out ltac:(intros y Hy; by apply list_elem_of_filter in Hy as [])). lia.
Qed.

Lemma bandwidth_counts_window_witness :
  exists m, record_all_at 100 [(10, 5); (150, 7); (190, 11)] = Some m /\
    total_bytes (bandwidth_stats m 200) = 23 /\ bytes_in_window m 200 = 18.
Proof.
  apply (bandwidth_counts_window 100 [(10, 5); (150, 7); (190, 11)] 200).
  - lia.
  - apply (bool_decide_unpack _). vm_compute. exact I.
  - by vm_compute.
  - constructor.
Defined.
