(* ===== verification/CaptureThread.v ===== *)
(** The capture thread and its ring
    ([crates/remoteway-capture/src/{thread,error}.rs]), and what its ring owes
    the compress loop.

    The thread's loop and the consumer's calls are the events of one shared
    state.  The loop has one event for each access to what it shares: the load
    of the stop flag, the push of a frame (with the backend's call and the rate
    limiter before it, which touch nothing shared), the store of the dropped
    flag after a push that failed, and the store of the finished flag; the
    consumer's calls may come between any two of them.  An [Instant] is a number
    of nanoseconds. *)

From Stdlib Require Import SpecFloat.
From S2P Require Import Prelude Queue Floats Delta Compress Scaling ServerPipeline Session.

(** ** Errors *)

Inductive CaptureError :=
  | WaylandConnect | WaylandDispatch | NoBackend | NoOutputs
  | ShmPool (what : list Z) | BufferPoolExhausted | SessionEnded
  | OutputNotFound (name : list Z) | UnsupportedFormat (format : Z)
  | ThreadSpawn | CaptureFailed (what : list Z) | Protocol (what : list Z).

#[export] Instance CaptureError_eq_dec : EqDecision CaptureError.
Proof. solve_decision. Defined.

Definition is_retriable (e : CaptureError) : bool :=
  match e with CaptureFailed _ => true | _ => false end.

(** ** Configuration *)

Record CaptureThreadConfig := mkCaptureThreadConfig {
  core_id : Z; sched_priority : Z; ring_capacity : Z; capture_fps : Z
}.

Definition CaptureThreadConfig_default : CaptureThreadConfig := mkCaptureThreadConfig 1 90 4 100.

(** [Duration::from_secs_f64] of a non-negative float: nanoseconds, rounded to
    nearest, ties to even; [None] is its panic. *)
Definition from_secs_f64 (x : f64) : option Z :=
  match x with
  | S754_zero _ => Some 0
  | S754_finite false m e =>
      let n := Zpos m * 10 ^ 9 in
      let d := if 0 <=? e
        then n * 2 ^ e
        else
          let q := n / 2 ^ (- e) in
          let r := 2 * (n mod 2 ^ (- e)) in
          if r <? 2 ^ (- e) then q else if 2 ^ (- e) <? r then q + 1
          else if Z.even q then q else q + 1 in
      if d <? 2 ^ 64 * 10 ^ 9 then Some d else None
  | _ => None
  end.

(** [1.0 / capture_fps.clamp(10, 500) as f64] seconds. *)
Definition min_interval_of (fps : Z) : option Z :=
  from_secs_f64 (f64_div (f64_of_int 1) (f64_of_int (Z.max 10 (Z.min 500 fps)))).

Section Thread.
Context {Q : Type -> Type} `{FifoLaws Q}.

(** ** The thread *)

(** Where [capture_loop] is: at the head of its [loop], at [next_frame] (the
    flag was down), between a push that failed and the store of the flag (the
    clock then read [now]), past the [loop] with its result, and returned. *)
Inductive loop_at :=
  | AtLoop | AtBackend | AtFlag (now : Z) | AtEnd (r : option CaptureError) | AtDone (r : option CaptureError).

Record CaptureThread := mkCaptureThread {
  ct_ring : Q CapturedFrame;
  ct_capacity : Z;
  ct_min_interval : Z;
  ct_last_push : Z;
  stop_flag : bool;
  frames_dropped : bool;
  finished : bool;
  ct_at : loop_at;
  backend_stopped : bool
}.

Definition spawn (config : CaptureThreadConfig) (now : Z) : option CaptureThread :=
  mi ← min_interval_of (capture_fps config);
  Some (mkCaptureThread fifo_new (ring_capacity config) mi (now - mi) false false false AtLoop false).

(** What [next_frame] returns. *)
Inductive next_result := NextFrame (f : CapturedFrame) | NextErr (e : CaptureError).

(** What an observer of the thread and its consumer sees of an event. *)
Inductive ct_obs :=
  | Pushed (f : CapturedFrame) | Dropped (f : CapturedFrame) | Limited (f : CapturedFrame) | Flagged
  | Received (f : CapturedFrame) | RecvEmpty | TookFlag (b : bool) | Quiet.

(** The loop's steps; [now] is read by [last_push.elapsed()], [after] by the
    [Instant::now] at the end of an iteration. *)
Inductive loop_step :=
  | CheckStop | TakeFrame (r : next_result) (now after : Z) | RaiseFlag (after : Z) | Finish.

Definition go (st : CaptureThread) (pc : loop_at) : CaptureThread :=
  mkCaptureThread (ct_ring st) (ct_capacity st) (ct_min_interval st) (ct_last_push st)
    (stop_flag st) (frames_dropped st) (finished st) pc (backend_stopped st).

(** A step of [capture_loop]; one that is not next changes nothing. *)
Definition capture_iter (st : CaptureThread) (s : loop_step) : CaptureThread * ct_obs :=
  match s, ct_at st with
  | CheckStop, AtLoop =>
      (if stop_flag st
       then mkCaptureThread (ct_ring st) (ct_capacity st) (ct_min_interval st) (ct_last_push st)
              (stop_flag st) (frames_dropped st) (finished st) (AtEnd None) true
       else go st AtBackend, Quiet)
  | TakeFrame (NextErr SessionEnded) _ _, AtBackend => (go st (AtEnd None), Quiet)
  | TakeFrame (NextErr e) _ _, AtBackend => (go st (AtEnd (Some e)), Quiet)
  | TakeFrame (NextFrame f) now after, AtBackend =>
      if Z.max 0 (now - ct_last_push st) <? ct_min_interval st then (go st AtLoop, Limited f)
      else
        let '(ring, ok) := try_send (ct_capacity st) (ct_ring st) f in
        (mkCaptureThread ring (ct_capacity st) (ct_min_interval st)
           (if ok : bool then after else ct_last_push st) (stop_flag st) (frames_dropped st) (finished st)
           (if ok then AtLoop else AtFlag now) (backend_stopped st),
         if ok then Pushed f else Dropped f)
  | RaiseFlag after, AtFlag _ =>
      (mkCaptureThread (ct_ring st) (ct_capacity st) (ct_min_interval st) after
         (stop_flag st) true (finished st) AtLoop (backend_stopped st), Flagged)
  | Finish, AtEnd r =>
      (mkCaptureThread (ct_ring st) (ct_capacity st) (ct_min_interval st) (ct_last_push st)
         (stop_flag st) (frames_dropped st) true (AtDone r) (backend_stopped st), Quiet)
  | _, _ => (st, Quiet)
  end.

Definition set_ring (st : CaptureThread) (q : Q CapturedFrame) : CaptureThread :=
  mkCaptureThread q (ct_capacity st) (ct_min_interval st) (ct_last_push st) (stop_flag st)
    (frames_dropped st) (finished st) (ct_at st) (backend_stopped st).

Definition try_recv (st : CaptureThread) : CaptureThread * option CapturedFrame :=
  match fifo_pop (ct_ring st) with
  | Some (f, q) => (set_ring st q, Some f)
  | None => (st, None)
  end.

Definition buffered_frames (st : CaptureThread) : Z := fifo_len (ct_ring st).

(** An atomic swap. *)
Definition take_dropped_flag (st : CaptureThread) : CaptureThread * bool :=
  (mkCaptureThread (ct_ring st) (ct_capacity st) (ct_min_interval st) (ct_last_push st)
     (stop_flag st) false (finished st) (ct_at st) (backend_stopped st), frames_dropped st).

Definition is_finished (st : CaptureThread) : bool := finished st.

(** The flag [stop] and [drop] store. *)
Definition stop (st : CaptureThread) : CaptureThread :=
  mkCaptureThread (ct_ring st) (ct_capacity st) (ct_min_interval st) (ct_last_push st) true
    (frames_dropped st) (finished st) (ct_at st) (backend_stopped st).

Inductive ct_event := EvLoop (s : loop_step) | EvRecv | EvTakeDropped | EvStop.

Definition ct_step (st : CaptureThread) (ev : ct_event) : CaptureThread * ct_obs :=
  match ev with
  | EvLoop s => capture_iter st s
  | EvRecv => let '(st, o) := try_recv st in
      (st, match o with Some f => Received f | None => RecvEmpty end)
  | EvTakeDropped => let '(st, b) := take_dropped_flag st in (st, TookFlag b)
  | EvStop => (stop st, Quiet)
  end.

Fixpoint ct_run (st : CaptureThread) (evs : list ct_event) : CaptureThread * list ct_obs :=
  match evs with
  | [] => (st, [])
  | ev :: evs =>
      let '(st, o) := ct_step st ev in
      let '(st, os) := ct_run st evs in (st, o :: os)
  end.

(** *** Views of a trace *)

Definition pushed_of (o : ct_obs) : list CapturedFrame := match o with Pushed f => [f] | _ => [] end.
Definition received_of (o : ct_obs) : list CapturedFrame := match o with Received f => [f] | _ => [] end.

(** Every frame the backend delivered. *)
Definition delivered_of (o : ct_obs) : list CapturedFrame :=
  match o with Pushed f | Dropped f | Limited f => [f] | _ => [] end.

Definition attempt_of (o : ct_obs) : list CapturedFrame :=
  match o with Pushed f | Dropped f => [f] | _ => [] end.

(** The flag: raised since the last [take_dropped_flag]. *)
Definition flag_after (b : bool) (o : ct_obs) : bool :=
  match o with Flagged => true | TookFlag _ => false | _ => b end.

(** A frame was refused and the flag not raised for it yet. *)
Definition unflagged_after (b : bool) (o : ct_obs) : bool :=
  match o with Dropped _ => true | Flagged => false | _ => b end.

Definition unflagged (st : CaptureThread) : bool := match ct_at st with AtFlag _ => true | _ => false end.
Definition done (st : CaptureThread) : bool := match ct_at st with AtDone _ => true | _ => false end.

Definition ct_view (view : ct_obs -> list CapturedFrame) (os : list ct_obs) : list CapturedFrame :=
  mjoin (view <$> os).

(** ** One step *)

Lemma ct_view_cons view o os : ct_view view (o :: os) = view o ++ ct_view view os.
Proof. reflexivity. Qed.

Lemma ct_step_spec st ev st' o :
  ct_step st ev = (st', o) ->
  received_of o ++ fifo_items (ct_ring st') = fifo_items (ct_ring st) ++ pushed_of o /\
  frames_dropped st' = flag_after (frames_dropped st) o /\
  unflagged st' = unflagged_after (unflagged st) o /\
  ((exists f, o = Dropped f) -> unflagged st = false) /\ (o = Flagged -> unflagged st = true) /\
  (forall b, o = TookFlag b -> b = frames_dropped st) /\
  (fifo_len (ct_ring st) <= ct_capacity st -> fifo_len (ct_ring st') <= ct_capacity st') /\
  ct_capacity st' = ct_capacity st /\ ct_min_interval st' = ct_min_interval st /\
  (finished st = done st -> finished st' = done st') /\
  (done st = true -> done st' = true /\ delivered_of o = []).
Proof.
  assert (Keep : forall st1 : CaptureThread, ct_ring st1 = ct_ring st -> frames_dropped st1 = frames_dropped st ->
    unflagged st1 = unflagged st -> ct_capacity st1 = ct_capacity st -> ct_min_interval st1 = ct_min_interval st ->
    (finished st = done st -> finished st1 = done st1) -> (done st = true -> done st1 = true) ->
    received_of Quiet ++ fifo_items (ct_ring st1) = fifo_items (ct_ring st) ++ pushed_of Quiet /\
    frames_dropped st1 = flag_after (frames_dropped st) Quiet /\
    unflagged st1 = unflagged_after (unflagged st) Quiet /\
    ((exists f, Quiet = Dropped f) -> unflagged st = false) /\ (Quiet = Flagged -> unflagged st = true) /\
    (forall b, Quiet = TookFlag b -> b = frames_dropped st) /\
    (fifo_len (ct_ring st) <= ct_capacity st -> fifo_len (ct_ring st1) <= ct_capacity st1) /\
    ct_capacity st1 = ct_capacity st /\ ct_min_interval st1 = ct_min_interval st /\
    (finished st = done st -> finished st1 = done st1) /\
    (done st = true -> done st1 = true /\ delivered_of Quiet = [])).
  { intros st1 E1 E2 E3 E4 E5 E6 E7. rewrite E1, E2, E3, E4, E5. cbn. rewrite app_nil_r.
    split_and!; try done; [by intros [? [=]]|by intros ?; split; auto]. }
  destruct ev as [s| | |]; cbn [ct_step].
  - destruct s as [|r now after|after|]; cbn [capture_iter].
    + destruct (ct_at st) eqn:Ea; intros [= <- <-]; try (by apply Keep).
      destruct (stop_flag st); apply Keep; unfold go, unflagged, done; cbn; by rewrite ?Ea.
    + destruct (ct_at st) eqn:Ea; try (destruct r as [f|[]]; intros [= <- <-]; by apply Keep).
      destruct r as [f|e].
      2: { destruct e; intros [= <- <-]; apply Keep; unfold go, unflagged, done; cbn; by rewrite ?Ea. }
      destruct (_ <? _).
      { intros [= <- <-]. unfold go, unflagged, done. cbn. rewrite Ea, app_nil_r. split_and!; try done; by intros [? [=]]. }
      pose proof (try_send_items (ct_capacity st) (ct_ring st) f) as Ei.
      pose proof (try_send_len (ct_capacity st) (ct_ring st) f) as Hl.
      destruct (try_send (ct_capacity st) (ct_ring st) f) as [ring ok]. cbn in Ei, Hl.
      intros [= <- <-]. unfold unflagged, done. cbn. rewrite Ea. destruct ok; cbn; rewrite Ei, ?app_nil_r;
        split_and!; try done; by intros [? [=]].
    + destruct (ct_at st) eqn:Ea; intros [= <- <-]; try (by apply Keep).
      unfold unflagged, done. cbn. rewrite Ea, app_nil_r. split_and!; try done. by intros [? [=]].
    + destruct (ct_at st) eqn:Ea; intros [= <- <-]; try (by apply Keep).
      apply Keep; unfold unflagged, done; cbn; by rewrite ?Ea.
  - unfold try_recv. destruct (fifo_pop (ct_ring st)) as [[f q]|] eqn:E; intros [= <- <-]; cbn.
    + rewrite app_nil_r, (fifo_pop_Some _ _ _ E). unfold unflagged, done. cbn.
      split_and!; try done; [by intros [? [=]]|]. intros Hl. rewrite (fifo_len_pop _ _ _ E) in Hl. lia.
    + rewrite app_nil_r. split_and!; try done. by intros [? [=]].
  - intros [= <- <-]. unfold unflagged, done. cbn. rewrite app_nil_r.
    split_and!; try done; [by intros [? [=]]|by intros b [= ->]].
  - intros [= <- <-]. by apply Keep.
Qed.

(** A refusal is followed by one raising of the flag before the next refusal. *)
Definition drops (os : list ct_obs) : nat := length (List.filter (fun o => match o with Dropped _ => true | _ => false end) os).
Definition flags (os : list ct_obs) : nat := length (List.filter (fun o => match o with Flagged => true | _ => false end) os).

(** C17. The capture thread and its consumer, with the consumer's calls between
    any two accesses of the thread: what the consumer receives, followed by what
    is still in the ring, is exactly the sequence of frames pushed; the ring never
    holds more than its capacity; the dropped flag is up exactly when it was
    raised since it was last taken, and it is raised once for each frame refused,
    after the refusal and before the next one, so that at any time at most one
    refusal has not raised it yet; and nothing is delivered after the thread has
    said that it finished. *)
Theorem capture_ring_faithful config now st0 evs st os :
  spawn config now = Some st0 -> 0 <= ring_capacity config -> ct_run st0 evs = (st, os) ->
  ct_view received_of os ++ fifo_items (ct_ring st) = ct_view pushed_of os /\
  fifo_len (ct_ring st) <= ring_capacity config /\
  frames_dropped st = foldl flag_after false os /\
  (drops os = flags os + if unflagged st then 1 else 0)%nat /\
  (forall pre post, os = pre ++ post -> (flags pre <= drops pre <= S (flags pre))%nat) /\
  (forall evs', finished st = true -> ct_view delivered_of (ct_run st evs').2 = []).
Proof.
  unfold spawn. destruct (min_interval_of _) as [mi|]; [|done]. cbn [mbind option_bind].
  intros [= <-] Hcap Hr.
  match type of Hr with ct_run ?s _ = _ => set (st0 := s) in * end.
  assert (Hi0 : fifo_items (ct_ring st0) = []) by apply fifo_items_new.
  assert (Hl0 : fifo_len (ct_ring st0) <= ct_capacity st0) by (cbn; by rewrite fifo_len_new).
  enough (G : forall evs st0 st os, ct_run st0 evs = (st, os) ->
    ct_view received_of os ++ fifo_items (ct_ring st) = fifo_items (ct_ring st0) ++ ct_view pushed_of os /\
    (fifo_len (ct_ring st0) <= ct_capacity st0 -> fifo_len (ct_ring st) <= ct_capacity st) /\
    ct_capacity st = ct_capacity st0 /\
    frames_dropped st = foldl flag_after (frames_dropped st0) os /\
    (drops os + (if unflagged st0 then 1 else 0) = flags os + if unflagged st then 1 else 0)%nat /\
    (forall pre post, os = pre ++ post ->
       (flags pre <= drops pre + (if unflagged st0 then 1 else 0) <= S (flags pre))%nat) /\
    (finished st0 = done st0 -> finished st = done st) /\
    (done st0 = true -> done st = true /\ ct_view delivered_of os = [])).
  { destruct (G _ _ _ _ Hr) as (G1 & G2 & G3 & G4 & G5 & G6 & G7 & _). rewrite Hi0 in G1.
    change (unflagged st0) with false in *. cbn in G5, G4. rewrite Nat.add_0_r in G5.
    specialize (G2 Hl0). cbn in G3. split_and!; [done|lia|done|done| |].
    - intros pre post Eo. specialize (G6 pre post Eo). cbn in G6. lia.
    - intros evs' Hf. rewrite (G7 eq_refl) in Hf. destruct (ct_run st evs') as [st' os'] eqn:E. by apply (G _ _ _ _ E). }
  clear - H0. induction evs as [|ev evs IH]; intros st0 st os.
  { intros [= <- <-]. cbn. rewrite app_nil_r. split_and!; try done.
    intros pre post Eo. symmetry in Eo. apply app_eq_nil in Eo as [-> _]. cbn. destruct (unflagged st0); lia. }
  cbn [ct_run]. destruct (ct_step st0 ev) as [st1 o] eqn:Es.
  destruct (ct_run st1 evs) as [st2 os2] eqn:Er. intros [= <- <-].
  destruct (ct_step_spec _ _ _ _ Es) as (S1 & S2 & Su & Sd & Sf & _ & S4 & S5 & _ & S6 & S7).
  destruct (IH _ _ _ Er) as (R1 & R2 & R3 & R4 & Rc & Rp & R5 & R6). rewrite !ct_view_cons.
  assert (Hc : forall l, (drops (o :: l) + (if unflagged st0 then 1 else 0) + flags l =
                          drops l + (if unflagged st1 then 1 else 0) + flags (o :: l))%nat).
  { intros l. unfold drops, flags. rewrite Su. destruct o; cbn [unflagged_after List.filter length];
      try rewrite (Sd (ex_intro _ _ eq_refl)); try rewrite (Sf eq_refl); lia. }
  split_and!.
  - rewrite <- app_assoc, R1, app_assoc, S1. by rewrite app_assoc.
  - intros Hl. by apply R2, S4.
  - congruence.
  - cbn [foldl]. by rewrite <- S2.
  - specialize (Hc os2). lia.
  - intros [|o' pre] post Eo; [cbn; destruct (unflagged st0); lia|].
    injection Eo as <- Eo. specialize (Rp pre post Eo). specialize (Hc pre). lia.
  - auto.
  - intros Hf. destruct (S7 Hf) as [Hf' ->]. by destruct (R6 Hf') as [? ->].
Qed.
End Thread.

(** ** The rate limiter *)

Definition interval_good (fps : Z) : bool :=
  match min_interval_of fps with
  | Some mi => (2000000 <=? mi) && (mi <=? 100000000) && (Z.abs (mi * fps - 10 ^ 9) <=? fps)
  | None => false
  end.

Lemma intervals_good : forallb (fun k => interval_good (k + 10)) (zrange 491) = true.
Proof. vm_compute. reflexivity. Qed.

Lemma interval_good_clamped fps : interval_good (Z.max 10 (Z.min 500 fps)) = true.
Proof.
  pose proof intervals_good as G. rewrite forallb_forall in G.
  replace (Z.max 10 (Z.min 500 fps)) with (Z.max 10 (Z.min 500 fps) - 10 + 10) by lia.
  apply G, list_elem_of_In, elem_of_zrange. lia.
Qed.

(** For every configured rate the interval is the period to the nanosecond, after
    clamping the rate to 10..500. *)
Lemma min_interval_spec fps :
  exists mi, min_interval_of fps = Some mi /\ 2000000 <= mi <= 100000000 /\
    Z.abs (mi * Z.max 10 (Z.min 500 fps) - 10 ^ 9) <= Z.max 10 (Z.min 500 fps).
Proof.
  pose proof (interval_good_clamped fps) as G. unfold interval_good, min_interval_of in *.
  replace (Z.max 10 (Z.min 500 (Z.max 10 (Z.min 500 fps)))) with (Z.max 10 (Z.min 500 fps)) in G by lia.
  set (c := Z.max 10 (Z.min 500 fps)) in *.
  destruct (from_secs_f64 _) as [mi|]; [|done]. exists mi.
  apply andb_true_iff in G as [[G1%Z.leb_le G2%Z.leb_le]%andb_true_iff G3%Z.leb_le]. by split_and!.
Qed.

Section Rate.
Context {Q : Type -> Type} `{FifoLaws Q}.

(** The clock readings of an iteration are in order and not after [T]. *)
Definition timed (T : Z) (st : CaptureThread (Q:=Q)) (ev : ct_event) : Prop :=
  match ev, ct_at st with
  | EvLoop (TakeFrame _ now after), _ => now <= after <= T
  | EvLoop (RaiseFlag after), AtFlag now => now <= after <= T
  | _, _ => True
  end.

Fixpoint timed_run (T : Z) (st : CaptureThread (Q:=Q)) (evs : list ct_event) : Prop :=
  match evs with [] => True | ev :: evs => timed T st ev /\ timed_run T (ct_step st ev).1 evs end.

(** An attempt whose iteration is not over yet took its interval already. *)
Definition pending (st : CaptureThread (Q:=Q)) : Z := if unflagged st then 1 else 0.
Definition waited (T : Z) (st : CaptureThread (Q:=Q)) : Prop :=
  match ct_at st with AtFlag now => ct_last_push st + ct_min_interval st <= now <= T | _ => True end.

(** The attempts of a step, and those of the iteration it is in, take their intervals. *)
Lemma attempt_spaced (T : Z) ev (st st' : CaptureThread (Q:=Q)) o :
  0 < ct_min_interval st -> timed T st ev -> ct_step st ev = (st', o) -> waited T st -> ct_last_push st <= T ->
  (zlen (attempt_of o) + pending st - pending st') * ct_min_interval st <= ct_last_push st' - ct_last_push st /\
  ct_last_push st' <= T /\ waited T st'.
Proof.
  intros Hmi Ht Es Hw HT.
  assert (Same : forall st1, ct_last_push st1 = ct_last_push st -> pending st1 = pending st -> waited T st1 ->
    (zlen (@nil CapturedFrame) + pending st - pending st1) * ct_min_interval st <= ct_last_push st1 - ct_last_push st /\
    ct_last_push st1 <= T /\ waited T st1).
  { intros st1 E1 E2 W. rewrite E1, E2. change (zlen []) with 0. split_and!; [lia|done|done]. }
  revert Es. destruct ev as [s| | |]; cbn [ct_step].
  - destruct s as [|r now after|after|]; cbn [capture_iter].
    + destruct (ct_at st) eqn:Ea; intros [= <- <-]; try (by apply Same).
      destruct (stop_flag st); apply Same; unfold pending, unflagged, waited, go; cbn; by rewrite ?Ea.
    + cbn in Ht. destruct (ct_at st) eqn:Ea; try (destruct r as [f|[]]; intros [= <- <-]; by apply Same).
      destruct r as [f|e].
      2: { destruct e; intros [= <- <-]; apply Same; unfold pending, unflagged, waited, go; cbn; by rewrite ?Ea. }
      case_match eqn:El.
      { intros [= <- <-]. apply Same; unfold pending, unflagged, waited, go; cbn; by rewrite ?Ea. }
      apply Z.ltb_ge in El. destruct (try_send _ _ _) as [ring ok]. intros [= <- <-].
      unfold pending, unflagged, waited. rewrite Ea. destruct ok; cbn; change (zlen [_]) with 1; split_and!; (done || lia).
    + destruct (ct_at st) as [| |now| |] eqn:Ea; intros [= <- <-]; try (by apply Same).
      cbn in Ht. rewrite Ea in Ht. unfold waited in Hw. rewrite Ea in Hw.
      unfold pending, unflagged, waited. rewrite Ea. cbn. change (zlen []) with 0. split_and!; (done || lia).
    + destruct (ct_at st) eqn:Ea; intros [= <- <-]; try (by apply Same).
      apply Same; unfold pending, unflagged, waited; cbn; by rewrite ?Ea.
  - unfold try_recv. destruct (fifo_pop _) as [[f q]|]; intros [= <- <-]; by apply Same.
  - intros [= <- <-]. by apply Same.
  - intros [= <- <-]. by apply Same.
Qed.

Lemma attempts_spaced (T : Z) evs (st st' : CaptureThread (Q:=Q)) os :
  0 < ct_min_interval st -> timed_run T st evs -> ct_run st evs = (st', os) -> waited T st -> ct_last_push st <= T ->
  (zlen (ct_view attempt_of os) + pending st - pending st') * ct_min_interval st <= ct_last_push st' - ct_last_push st /\
  ct_last_push st' <= T /\ waited T st' /\ ct_min_interval st' = ct_min_interval st.
Proof.
  revert st st' os. induction evs as [|ev evs IH]; intros st st' os Hmi Ht Hr Hw HT.
  { injection Hr as <- <-. cbn. change (zlen []) with 0. split_and!; [lia|done..]. }
  destruct Ht as [Hev Ht]. cbn [ct_run] in Hr.
  destruct (ct_step st ev) as [st1 o] eqn:Es. cbn [fst] in Ht.
  destruct (ct_run st1 evs) as [st2 os2] eqn:Er. injection Hr as <- <-.
  destruct (ct_step_spec _ _ _ _ Es) as (_ & _ & _ & _ & _ & _ & _ & _ & Emi & _).
  destruct (attempt_spaced _ _ _ _ _ Hmi Hev Es Hw HT) as (H1 & H2 & H3).
  destruct (IH st1 st2 os2) as (I1 & I2 & I3 & I4); [lia|done..|]. rewrite Emi in I1.
  rewrite ct_view_cons, zlen_app. split_and!; [lia|done|done|congruence].
Qed.

(** For every configured [capture_fps] the thread starts, and
    whatever the backend delivers, between start and [T] it makes at most one
    push attempt per interval, and one more; the interval is the period of the
    rate clamped to 10..500 frames a second, to the nanosecond. *)
Theorem capture_rate_bounded config now :
  let fps := Z.max 10 (Z.min 500 (capture_fps config)) in
  exists st0 : CaptureThread (Q:=Q), spawn config now = Some st0 /\
    Z.abs (ct_min_interval st0 * fps - 10 ^ 9) <= fps /\
    forall T evs st os, now <= T -> timed_run T st0 evs -> ct_run st0 evs = (st, os) ->
      (zlen (ct_view attempt_of os) - 1) * ct_min_interval st0 <= T - now.
Proof.
  intros fps. destruct (min_interval_spec (capture_fps config)) as (mi & E & Hmi & Ha).
  unfold spawn. rewrite E. cbn [mbind option_bind]. eexists. split; [reflexivity|]. cbn [ct_min_interval].
  split; [exact Ha|]. intros T evs st os HT Ht Hr.
  apply (attempts_spaced T) in Hr as (H1 & H2 & H3 & H4); [|cbn; lia|done|done|cbn; lia].
  unfold waited, pending, unflagged in *. cbn [ct_at ct_last_push ct_min_interval] in *.
  destruct (ct_at st); lia.
Qed.
End Rate.

(** ** What the ring owes the compress loop *)

(** The passes of the compress loop in a trace: [try_recv] until a frame comes,
    more of them while the ring has frames, then [take_dropped_flag]. *)
Fixpoint polls_of (cur : option (CapturedFrame * list CapturedFrame)) (os : list ct_obs)
    : list (CapturedFrame * list CapturedFrame * bool) :=
  match os with
  | [] => []
  | Received f :: os =>
      polls_of (Some match cur with None => (f, []) | Some (a, l) => (a, l ++ [f]) end) os
  | TookFlag b :: os =>
      match cur with Some (a, l) => (a, l, b) :: polls_of None os | None => polls_of None os end
  | _ :: os => polls_of cur os
  end.

Definition turn_poll (t : turn) : CapturedFrame * list CapturedFrame * bool :=
  (t_first t, t_newer t, t_dropped t).

(** What a backend delivers: frames of the session's geometry ... *)
Definition frame_fits (g : geom) (f : CapturedFrame) : Prop :=
  fr_width f = g_w g /\ fr_height f = g_h g /\ fr_stride f = g_stride g /\
  zlen (fr_data f) = g_bytes g /\ bytes_ok (fr_data f) /\ fits 64 (fr_timestamp_ns f) /\
  Forall (rect_in g) (fr_damage f) /\ zlen (fr_damage f) < 2 ^ 17.

(** ... whose damage is accurate with respect to the frame it delivered before. *)
Fixpoint delivered_ok (g : geom) (last : option (list Z)) (fs : list CapturedFrame) : Prop :=
  match fs with
  | [] => True
  | f :: fs =>
      frame_fits g f /\
      match last with
      | Some L => fr_damage f <> [] -> accurate g (fr_damage f) (fr_data f) L
      | None => True
      end /\ delivered_ok g (Some (fr_data f)) fs
  end.

Definition last_data (last : option (list Z)) (fs : list CapturedFrame) : option (list Z) :=
  foldl (fun _ f => Some (fr_data f)) last fs.

Lemma delivered_ok_app g last fs gs :
  delivered_ok g last (fs ++ gs) <-> delivered_ok g last fs /\ delivered_ok g (last_data last fs) gs.
Proof.
  revert last. induction fs as [|f fs IH]; intros last; cbn; [tauto|].
  rewrite IH. unfold last_data. cbn [foldl]. tauto.
Qed.

Lemma last_data_snoc last a l : last_data last (a :: l) = Some (fr_data (List.last l a)).
Proof.
  revert last a. induction l as [|b l IH]; intros last a; [done|].
  change (last_data (Some (fr_data a)) (b :: l) = Some (fr_data (List.last (b :: l) a))).
  rewrite IH. f_equal. f_equal. clear. revert a b.
  induction l as [|c l IH]; intros a b; [done|].
  change (List.last (c :: l) b = List.last (c :: l) a). by rewrite <- !IH.
Qed.

Lemma delivered_fits g last fs : delivered_ok g last fs -> Forall (frame_fits g) fs.
Proof. revert last. induction fs as [|f fs IH]; intros last; [constructor|]. intros (?&_&?). constructor; eauto. Qed.

Lemma last_in (a : CapturedFrame) l : List.last l a ∈ a :: l.
Proof.
  revert a. induction l as [|b l IH]; intros a; [constructor|].
  destruct l as [|c l]; [cbn; set_solver|]. specialize (IH a). cbn [List.last] in *. set_solver.
Qed.

Definition cur_frames (cur : option (CapturedFrame * list CapturedFrame)) : list CapturedFrame :=
  match cur with Some (a, l) => a :: l | None => [] end.

Lemma turn_image_plain cfg t :
  do_downscale cfg = false -> turn_image cfg t = fr_data (turn_frame t).
Proof. intros E. unfold turn_image, prepare_frame. by rewrite E. Qed.

Lemma turn_ok_plain cfg g t :
  do_downscale cfg = false -> frame_fits g (turn_frame t) -> turn_ok cfg g t.
Proof.
  intros E (Ew & Eh & Es & El & Hb & Ht & Hd & Hn). unfold turn_ok. rewrite turn_image_plain by done.
  split_and!; try done. intros sc. exists sc. unfold prepare_frame. rewrite E. by rewrite Ew, Eh, Es.
Qed.

Lemma polls_ok cfg g os cur last ts :
  do_downscale cfg = false -> turn_poll <$> ts = polls_of cur os ->
  delivered_ok g last (cur_frames cur ++ ct_view received_of os) -> capture_ok cfg g last ts.
Proof.
  intros E. revert cur last ts. induction os as [|o os IH]; intros cur last ts Hts Hd.
  { by destruct ts. }
  rewrite ct_view_cons in Hd.
  destruct o as [f|f|f| |f| |b|]; cbn [polls_of received_of app] in *; try (by eapply IH).
  - eapply IH; [exact Hts|]. destruct cur as [[a l]|]; cbn in *; [|done]. by rewrite <- app_assoc.
  - destruct cur as [[a l]|]; [|by eapply IH]. destruct ts as [|t ts]; [done|].
    cbn in Hts. injection Hts as Ef En _ Hts. subst a l.
    apply delivered_ok_app in Hd as [Hd Hrest].
    assert (Hfit : frame_fits g (turn_frame t)).
    { apply delivered_fits in Hd. rewrite list.Forall_forall in Hd. apply Hd, last_in. }
    cbn [capture_ok]. split; [by apply turn_ok_plain|]. split.
    + destruct last as [L|]; [|done]. intros Hnew _ Hdam _. rewrite turn_image_plain by done.
      unfold turn_frame in *. rewrite Hnew in *. cbn in Hd, Hdam |- *. by apply Hd.
    + eapply (IH None); [exact Hts|]. rewrite turn_image_plain by done.
      cbn [cur_frames app]. cbn [cur_frames] in Hrest. by rewrite last_data_snoc in Hrest.
Qed.

Lemma delivered_pushed os :
  Forall (fun o => match o with Dropped _ | Limited _ => False | _ => True end) os ->
  ct_view delivered_of os = ct_view pushed_of os.
Proof. induction 1 as [|o os Ho _ IH]; [done|]. rewrite !ct_view_cons, IH. by destruct o. Qed.

Section Contract.
Context {Q : Type -> Type} `{FifoLaws Q}.

Lemma ct_run_fifo evs (st0 st : CaptureThread (Q:=Q)) os : ct_run st0 evs = (st, os) ->
  ct_view received_of os ++ fifo_items (ct_ring st) = fifo_items (ct_ring st0) ++ ct_view pushed_of os.
Proof.
  revert st0 st os. induction evs as [|ev evs IH]; intros st0 st os.
  { intros [= <- <-]. cbn. by rewrite app_nil_r. }
  cbn [ct_run]. destruct (ct_step st0 ev) as [st1 o] eqn:Es.
  destruct (ct_run st1 evs) as [st2 os2] eqn:Er. intros [= <- <-].
  destruct (ct_step_spec _ _ _ _ Es) as (S1 & _). rewrite !ct_view_cons.
  rewrite <- app_assoc, (IH _ _ _ Er), app_assoc, S1. by rewrite app_assoc.
Qed.

(** C9. When no frame is lost to the rate limiter or to a full ring
    and the server does not downscale (a server that does takes no account of
    damage), a backend whose damage is accurate from frame to frame gives the compress
    loop turns that meet the contract of the session, however the loop's passes
    and the capture thread interleave and however many frames a pass drains. *)
Theorem capture_meets_contract config now (st0 : CaptureThread (Q:=Q)) evs st os cfg g ts :
  spawn config now = Some st0 -> ct_run st0 evs = (st, os) ->
  Forall (fun o => match o with Dropped _ | Limited _ => False | _ => True end) os ->
  do_downscale cfg = false -> delivered_ok g None (ct_view delivered_of os) ->
  turn_poll <$> ts = polls_of None os -> capture_ok cfg g None ts.
Proof.
  unfold spawn. destruct (min_interval_of _) as [mi|]; [|done]. cbn [mbind option_bind].
  intros [= <-] Hr Hno E Hd Hts. apply ct_run_fifo in Hr. cbn [ct_ring] in Hr.
  rewrite fifo_items_new in Hr. rewrite delivered_pushed in Hd by done.
  cbn [app] in Hr. rewrite <- Hr in Hd. apply delivered_ok_app in Hd as [Hd _].
  by eapply polls_ok.
Qed.
End Contract.

(** *** Runs *)

(** An iteration of the loop undisturbed. *)
Definition iter (r : next_result) (now after : Z) : list ct_event :=
  [EvLoop CheckStop; EvLoop (TakeFrame r now after); EvLoop (RaiseFlag after); EvLoop Finish].

Definition cam (px : list Z) (damage : list DamageRect) : next_result := NextFrame (demo_frame px damage).
Definition left_px : list DamageRect := [mkDamageRect 0 0 1 1].
Definition right_px : list DamageRect := [mkDamageRect 1 0 1 1].
Definition ms : Z := 10 ^ 6.

(** Two frames in one pass, one in the next; 20 ms apart, nothing is lost. *)
Definition calm_events : list ct_event :=
  [EvRecv] ++
  iter (cam [1; 1; 1; 1; 1; 1; 1; 1] []) 0 0 ++
  iter (cam [2; 2; 2; 2; 1; 1; 1; 1] left_px) (20 * ms) (20 * ms) ++
  [EvRecv; EvRecv; EvRecv; EvTakeDropped] ++
  iter (cam [2; 2; 2; 2; 3; 3; 3; 3] right_px) (40 * ms) (40 * ms) ++
  [EvRecv; EvRecv; EvTakeDropped; EvStop] ++
  iter (cam [4; 4; 4; 4; 3; 3; 3; 3] left_px) (60 * ms) (60 * ms).

Definition trace (config : CaptureThreadConfig) (evs : list ct_event) : list ct_obs :=
  match spawn (Q:=list) config 0 with Some st => (ct_run st evs).2 | None => [] end.

Definition turns (os : list ct_obs) : list turn :=
  (fun p => mkTurn p.1.1 p.1.2 p.2 true 0 0) <$> polls_of None os.

Lemma turns_polls os : turn_poll <$> turns os = polls_of None os.
Proof.
  unfold turns. rewrite <- list_fmap_compose. rewrite <- (list_fmap_id (polls_of None os)) at 2.
  apply list_fmap_ext. by intros i [[a l] b] _.
Qed.

Definition start : CaptureThread (Q:=list) :=
  mkCaptureThread [] 4 (10 * ms) (- (10 * ms)) false false false AtLoop false.

Lemma start_spawn : spawn CaptureThreadConfig_default 0 = Some start.
Proof. vm_compute. reflexivity. Qed.

Ltac demo_fits := unfold frame_fits; split_and!; [done|done|done|done|demo_bytes|done|demo_rects|done].

Ltac demo_accurate := let k := fresh in let Hk := fresh in let Hc := fresh in
  intros _ k Hk Hc; apply in_view_bound in Hk; [|by vm_compute]; change (g_bytes demo_geom) with 8 in Hk;
  do 8 (destruct k as [|k]; [vm_compute in Hc; vm_compute; done|]); lia.

Lemma calm_delivered : delivered_ok demo_geom None (ct_view delivered_of (trace CaptureThreadConfig_default calm_events)).
Proof.
  change (ct_view delivered_of (trace CaptureThreadConfig_default calm_events)) with
    [demo_frame [1; 1; 1; 1; 1; 1; 1; 1] []; demo_frame [2; 2; 2; 2; 1; 1; 1; 1] left_px;
     demo_frame [2; 2; 2; 2; 3; 3; 3; 3] right_px].
  cbn [delivered_ok]. split; [demo_fits|]. split; [done|].
  split; [demo_fits|]. split; [demo_accurate|]. split; [demo_fits|]. split; [demo_accurate|done].
Qed.

Lemma capture_ring_faithful_witness :
  ct_view received_of (ct_run start calm_events).2 ++ ct_ring (ct_run start calm_events).1
    = ct_view pushed_of (ct_run start calm_events).2 /\
  zlen (ct_view delivered_of (ct_run start calm_events).2) = 3.
Proof.
  split; [|reflexivity].
  assert (Hcap : 0 <= ring_capacity CaptureThreadConfig_default) by by vm_compute.
  pose proof (capture_ring_faithful (Q:=list) CaptureThreadConfig_default 0 start calm_events _ _
    start_spawn Hcap (surjective_pairing _)) as [H _].
  exact H.
Defined.

Lemma capture_meets_contract_witness :
  capture_ok demo_server demo_geom None (turns (ct_run start calm_events).2) /\
  zlen (turns (ct_run start calm_events).2) = 2.
Proof.
  split; [|reflexivity].
  apply (capture_meets_contract (Q:=list) CaptureThreadConfig_default 0 start calm_events
           (ct_run start calm_events).1 (ct_run start calm_events).2).
  - exact start_spawn.
  - by destruct (ct_run start calm_events).
  - vm_compute. repeat constructor.
  - reflexivity.
  - exact calm_delivered.
  - apply turns_polls.
Defined.

(** The rate limiter drops the second frame, 4 ms after the first, and flags
    nothing: the third frame's damage is relative to a picture the compress loop
    never saw, and the contract fails. *)
Definition hasty_events : list ct_event :=
  iter (cam [1; 1; 1; 1; 1; 1; 1; 1] []) 0 0 ++
  [EvRecv; EvRecv; EvTakeDropped] ++
  iter (cam [2; 2; 2; 2; 1; 1; 1; 1] left_px) (4 * ms) (4 * ms) ++
  iter (cam [2; 2; 2; 2; 3; 3; 3; 3] right_px) (20 * ms) (20 * ms) ++
  [EvRecv; EvRecv; EvTakeDropped].

Lemma capture_rate_bounded_witness :
  (zlen (ct_view attempt_of (ct_run start hasty_events).2) - 1) * ct_min_interval start <= 20 * ms - 0 /\
  zlen (ct_view attempt_of (ct_run start hasty_events).2) = 2.
Proof.
  split; [|by vm_compute].
  destruct (capture_rate_bounded (Q:=list) CaptureThreadConfig_default 0) as (st0 & E & _ & Hb).
  rewrite start_spawn in E. injection E as <-.
  apply (Hb (20 * ms) hasty_events (ct_run start hasty_events).1).
  - by vm_compute.
  - vm_compute. repeat apply conj; (exact I || discriminate).
  - by destruct (ct_run start hasty_events).
Defined.

Definition hasty_trace : list ct_obs := Eval vm_compute in (ct_run start hasty_events).2.

Lemma not_accurate_left F L : take 1 F <> take 1 L -> ~ accurate demo_geom right_px F L.
Proof.
  intros Hne Ha. specialize (Ha 0%nat). apply Hne.
  assert (E : F !! 0%nat = L !! 0%nat).
  { apply Ha; [|by vm_compute]. exists 0. cbn. lia. }
  destruct F as [|a F], L as [|b L]; [done|done|done|]. injection E as ->. reflexivity.
Qed.

Example rate_limit_breaks_contract :
  (ct_run start hasty_events).2 = hasty_trace /\
  delivered_ok demo_geom None (ct_view delivered_of hasty_trace) /\
  ~ capture_ok demo_server demo_geom None (turns hasty_trace).
Proof.
  split; [reflexivity|]. split.
  - change (ct_view delivered_of hasty_trace) with
      [demo_frame [1; 1; 1; 1; 1; 1; 1; 1] []; demo_frame [2; 2; 2; 2; 1; 1; 1; 1] left_px;
       demo_frame [2; 2; 2; 2; 3; 3; 3; 3] right_px].
    cbn [delivered_ok]. split; [demo_fits|]. split; [done|].
    split; [demo_fits|]. split; [demo_accurate|]. split; [demo_fits|]. split; [demo_accurate|done].
  - intros (_ & _ & _ & Ha & _). by eapply not_accurate_left, Ha.
Qed.

(** The ring is full when the fifth frame comes; the loop drains the four older
    ones and takes the flag with them.  The sixth frame, whose damage is relative
    to the fifth, is then sent as if nothing had been lost. *)
Definition full_events : list ct_event :=
  iter (cam [1; 1; 1; 1; 1; 1; 1; 1] []) 0 0 ++
  iter (cam [1; 1; 1; 1; 1; 1; 1; 1] []) (20 * ms) (20 * ms) ++
  iter (cam [1; 1; 1; 1; 1; 1; 1; 1] []) (40 * ms) (40 * ms) ++
  iter (cam [1; 1; 1; 1; 1; 1; 1; 1] []) (60 * ms) (60 * ms) ++
  iter (cam [2; 2; 2; 2; 1; 1; 1; 1] left_px) (80 * ms) (80 * ms) ++
  [EvRecv; EvRecv; EvRecv; EvRecv; EvRecv; EvTakeDropped] ++
  iter (cam [2; 2; 2; 2; 3; 3; 3; 3] right_px) (100 * ms) (100 * ms) ++
  [EvRecv; EvRecv; EvTakeDropped].

Definition full_trace : list ct_obs := Eval vm_compute in (ct_run start full_events).2.

Example ring_drop_breaks_contract :
  (ct_run start full_events).2 = full_trace /\
  delivered_ok demo_geom None (ct_view delivered_of full_trace) /\
  foldl flag_after false full_trace = false /\
  ~ capture_ok demo_server demo_geom None (turns full_trace).
Proof.
  split; [reflexivity|]. split; [|split; [reflexivity|]].
  - set (one := demo_frame [1; 1; 1; 1; 1; 1; 1; 1] []).
    change (ct_view delivered_of full_trace) with
      [one; one; one; one; demo_frame [2; 2; 2; 2; 1; 1; 1; 1] left_px;
       demo_frame [2; 2; 2; 2; 3; 3; 3; 3] right_px].
    assert (F1 : frame_fits demo_geom one) by (unfold one; demo_fits).
    cbn [delivered_ok]. do 4 (split; [exact F1|]; split; [done|]).
    split; [demo_fits|]. split; [demo_accurate|]. split; [demo_fits|]. split; [demo_accurate|done].
  - intros (_ & _ & _ & Ha & _). by eapply not_accurate_left, Ha.
Qed.
