(* ===== verification/CaptureSelect.v ===== *)
(** Choosing and creating the capture backend
    ([crates/remoteway-capture/src/detect.rs], and
    [crates/remoteway-server/src/{main,pipeline}.rs]).

    The backends' constructors talk to the compositor: they are parameters, as
    functions from what they are asked for to a backend or an error.  [anyhow]'s
    errors are a chain whose root is a [CaptureError] or something else. *)

From S2P Require Import Prelude DesktopDetect ServerPipeline CaptureThread.

(** ** Errors *)

Inductive AnyError :=
  | FromCapture (e : CaptureError)
  | Message                          (** [bail!] *)
  | InContext (e : AnyError).        (** [.context(..)] *)

(** The [#[from]] variants have a source: it, not they, ends the chain. *)
Definition has_source (e : CaptureError) : bool :=
  match e with WaylandConnect | WaylandDispatch | ThreadSpawn => true | _ => false end.

(** [e.root_cause().downcast_ref::<CaptureError>()]. *)
Fixpoint root_capture_error (e : AnyError) : option CaptureError :=
  match e with
  | FromCapture ce => if has_source ce then None else Some ce
  | Message => None
  | InContext e => root_capture_error e
  end.

(** ** Retrying *)

(** Never returned by a run of at least one attempt: [unreachable!()]. *)
Inductive retry_result (B : Type) := Created (b : B) | Gave (e : AnyError) | Unreachable.
Arguments Created {B} b.
Arguments Gave {B} e.
Arguments Unreachable {B}.

Definition permanent (e : AnyError) : bool :=
  match root_capture_error e with Some ce => negb (is_retriable ce) | None => false end.

(** The loop from [attempt] on, [attempts_left] attempts before it ends; [try_fn] gives
    the result of its call number [attempt].  The second component counts the
    calls. *)
Fixpoint retry_loop {B} (attempts_left : nat) (try_fn : Z -> B + AnyError) (attempt max_retries : Z)
    : retry_result B * Z :=
  match attempts_left with
  | O => (Unreachable, attempt - 1)
  | S attempts_left =>
      match try_fn attempt with
      | inl backend => (Created backend, attempt)
      | inr e =>
          if permanent e then (Gave e, attempt)
          else if attempt =? max_retries then (Gave (InContext e), attempt)
          else retry_loop attempts_left try_fn (attempt + 1) max_retries
      end
  end.

Definition retry_capture_backend_with_params {B} (try_fn : Z -> B + AnyError) (max_retries : Z)
    : retry_result B * Z :=
  retry_loop (Z.to_nat max_retries) try_fn 1 max_retries.

Definition retry_capture_backend {B} (try_fn : Z -> B + AnyError) : retry_result B * Z :=
  retry_capture_backend_with_params try_fn 50.

Definition determine_capture_mode (app_id : option text) (command : list text) : bool * bool :=
  let auto_detect_child := bool_decide (app_id = None) && negb (bool_decide (command = [])) in
  let explicit_app_id_launch := negb (bool_decide (app_id = None)) && negb (bool_decide (command = [])) in
  (auto_detect_child, explicit_app_id_launch).

(** ** Backends *)

Inductive CaptureSource :=
  | Output (name : option text)
  | Toplevel (app_id : text)
  | NewToplevel (known_identifiers : list text).

Section Select.
(** A backend, the constructors of the three kinds, whether the build has the
    [portal] feature, and the listing of toplevels. *)
Context {B : Type}.
Context (ExtImageCaptureBackend_new : CaptureSource -> B + CaptureError).
Context (WlrScreencopyBackend_new : option text -> B + CaptureError).
Context (PortalBackend_new : B + CaptureError).
Context (feature_portal : bool).

Definition detect_backend (desktop : DesktopEnvironment) (output_name : option text)
    : B + CaptureError :=
  match ExtImageCaptureBackend_new (Output output_name) with
  | inl backend => inl backend
  | inr _ =>
      match (if feature_portal && needs_portal desktop then PortalBackend_new else inr NoBackend) with
      | inl backend => inl backend
      | inr _ =>
          match WlrScreencopyBackend_new output_name with
          | inl backend => inl backend
          | inr _ => inr NoBackend
          end
      end
  end.

Definition detect_toplevel_backend (app_id : text) : B + CaptureError :=
  ExtImageCaptureBackend_new (Toplevel app_id).

Definition detect_new_toplevel_backend (known_identifiers : list text) : B + CaptureError :=
  ExtImageCaptureBackend_new (NewToplevel known_identifiers).

(** [r.context(..)]. *)
Definition with_context (r : B + CaptureError) : B + AnyError :=
  match r with inl b => inl b | inr e => inr (InContext (FromCapture e)) end.

Definition create_capture_backend (desktop : DesktopEnvironment) (arg : CaptureBackendArg)
    (output app_id : option text) : B + AnyError :=
  match app_id with
  | Some app_id =>
      match arg with
      | CapWlrScreencopy => inr Message
      | CapPortal => with_context PortalBackend_new
      | CapAuto | CapExtImageCapture => with_context (detect_toplevel_backend app_id)
      end
  | None =>
      match arg with
      | CapAuto => with_context (detect_backend desktop output)
      | CapWlrScreencopy => with_context (WlrScreencopyBackend_new output)
      | CapExtImageCapture => with_context (ExtImageCaptureBackend_new (Output output))
      | CapPortal => with_context PortalBackend_new
      end
  end.

Definition create_capture_backend_for_child (arg : CaptureBackendArg) (known : list text)
    : B + AnyError :=
  match arg with
  | CapWlrScreencopy => inr Message
  | CapPortal => with_context PortalBackend_new
  | CapAuto | CapExtImageCapture => with_context (detect_new_toplevel_backend known)
  end.
End Select.

(** The choice of [run]: [creators] are the constructors as they answer at each
    attempt, [known] the snapshot of the toplevels before the child started.
    [None] is the [unreachable!]. *)
Record creators (B : Type) := mkCreators {
  new_ext : CaptureSource -> B + CaptureError;
  new_wlr : option text -> B + CaptureError;
  new_portal : B + CaptureError
}.
Arguments new_ext {B} c _.
Arguments new_wlr {B} c _.
Arguments new_portal {B} c.

Section Run.
Context {B : Type} (at_attempt : Z -> creators B) (feature_portal : bool).
Context (desktop : DesktopEnvironment).

Definition create_at (n : Z) (arg : CaptureBackendArg) (output app_id : option text) : B + AnyError :=
  let c := at_attempt n in
  create_capture_backend (new_ext c) (new_wlr c) (new_portal c) feature_portal desktop arg output app_id.

Definition create_child_at (n : Z) (arg : CaptureBackendArg) (known : list text) : B + AnyError :=
  let c := at_attempt n in create_capture_backend_for_child (new_ext c) (new_portal c) arg known.

Definition of_retry (r : retry_result B) : option (B + AnyError) :=
  match r with Created b => Some (inl b) | Gave e => Some (inr e) | Unreachable => None end.

Definition select_backend (arg : CaptureBackendArg) (output app_id : option text)
    (command : list text) (known : option (list text)) : option (B + AnyError) :=
  let '(auto_detect_child, explicit_app_id_launch) := determine_capture_mode app_id command in
  if auto_detect_child then
    match known with
    | Some ids =>
        let '(r, n) := retry_capture_backend (fun n => create_child_at n arg ids) in
        match r with
        | Created backend => Some (inl backend)
        | Gave _ => Some (create_at (n + 1) arg output None)
        | Unreachable => None
        end
    | None => Some (create_at 1 arg output None)
    end
  else if explicit_app_id_launch then
    of_retry (retry_capture_backend (fun n => create_at n arg None app_id)).1
  else Some (create_at 1 arg output app_id).
End Run.

(** ** The retry loop *)

(** How a run of attempts ended. *)
Definition retry_ended {B} (try_fn : Z -> B + AnyError) (max : Z) (r : retry_result B) (n : Z) : Prop :=
  match r with
  | Created b => try_fn n = inl b
  | Gave e => (try_fn n = inr e /\ permanent e = true) \/
              (exists e', e = InContext e' /\ try_fn n = inr e' /\ n = max)
  | Unreachable => False
  end.

Lemma retry_loop_spec {B} (try_fn : Z -> B + AnyError) attempts_left attempt max r n :
  0 < attempt -> attempt + Z.of_nat attempts_left = max + 1 -> attempt <= max ->
  retry_loop attempts_left try_fn attempt max = (r, n) ->
  attempt <= n <= max /\ retry_ended try_fn max r n /\
  (forall k, attempt <= k < n -> exists e, try_fn k = inr e /\ permanent e = false).
Proof.
  revert attempt. induction attempts_left as [|attempts_left IH]; intros attempt Ha Hl Hm; [lia|].
  cbn [retry_loop]. destruct (try_fn attempt) as [b|e] eqn:E.
  { intros [= <- <-]. split; [lia|]. split; [done|]. intros k Hk. lia. }
  destruct (permanent e) eqn:Ep.
  { intros [= <- <-]. split; [lia|]. split; [by left|]. intros k Hk. lia. }
  destruct (Z.eqb_spec attempt max) as [->|Hne].
  { intros [= <- <-]. split; [lia|]. split; [right; by exists e|]. intros k Hk. lia. }
  intros (H1 & H2 & H3)%IH; [|lia..]. split; [lia|]. split; [done|].
  intros k Hk. destruct (decide (k = attempt)) as [->|]; [by exists e|]. apply H3. lia.
Qed.

(** With at least one attempt allowed, the retry loop returns (the
    [unreachable!] is never reached) after at most that many calls: with the first
    backend created, or the first permanent error, or, all attempts spent, the
    last error; every earlier call failed with an error that is not permanent. *)
Theorem retry_stops_right {B} (try_fn : Z -> B + AnyError) max :
  0 < max ->
  exists r n, retry_capture_backend_with_params try_fn max = (r, n) /\ 1 <= n <= max /\
    retry_ended try_fn max r n /\
    forall k, 1 <= k < n -> exists e, try_fn k = inr e /\ permanent e = false.
Proof.
  intros Hm. unfold retry_capture_backend_with_params.
  destruct (retry_loop (Z.to_nat max) try_fn 1 max) as [r n] eqn:E.
  apply retry_loop_spec in E as (H1 & H2 & H3); [|lia..]. by exists r, n.
Qed.

(** A window that appears at the third attempt. *)
Definition third_time (n : Z) : Z + AnyError :=
  if n <? 3 then inr (InContext (FromCapture (CaptureFailed []))) else inl n.

Lemma retry_stops_right_witness :
  exists r n, retry_capture_backend_with_params third_time 5 = (r, n) /\ 1 <= n <= 5 /\
    retry_ended third_time 5 r n /\
    forall k, 1 <= k < n -> exists e, third_time k = inr e /\ permanent e = false.
Proof. apply (retry_stops_right third_time 5). lia. Defined.

Example third_time_created : retry_capture_backend_with_params third_time 5 = (Created 3, 3).
Proof. reflexivity. Qed.

(** [NoBackend] ends the loop at once; a lost compositor connection, documented
    as permanent with it, is retried fifty times, because its own source is the
    root cause. *)
Example no_backend_bails :
  retry_capture_backend (B:=unit) (fun _ => inr (InContext (FromCapture NoBackend)))
  = (Gave (InContext (FromCapture NoBackend)), 1).
Proof. reflexivity. Qed.

Example connect_error_is_retried :
  is_retriable WaylandConnect = false /\
  retry_capture_backend (B:=unit) (fun _ => inr (InContext (FromCapture WaylandConnect)))
  = (Gave (InContext (InContext (FromCapture WaylandConnect))), 50).
Proof. split; reflexivity. Qed.

(** ** The choice *)

(** The last launch of [run] (when neither mode launched the command) never
    happens: a command selects one of the two. *)
Lemma modes_exclusive app_id command :
  let '(auto, explicit) := determine_capture_mode app_id command in
  andb auto explicit = false /\ orb auto explicit = negb (bool_decide (command = [])).
Proof.
  unfold determine_capture_mode. repeat case_bool_decide; done.
Qed.

(** What [select_backend] may return: a backend one of the constructors made. *)
Definition made_by {B} (at_attempt : Z -> creators B) (b : B) : Prop :=
  exists n, let c := at_attempt n in
    (exists src, new_ext c src = inl b) \/ (exists out, new_wlr c out = inl b) \/ new_portal c = inl b.

Lemma create_at_made {B} (at_attempt : Z -> creators B) portal desktop n arg output app_id b :
  create_at at_attempt portal desktop n arg output app_id = inl b -> made_by at_attempt b.
Proof.
  unfold create_at, create_capture_backend, detect_backend, detect_toplevel_backend, with_context.
  intros E. exists n. repeat case_match; simplify_eq; eauto.
Qed.

Lemma create_child_at_made {B} (at_attempt : Z -> creators B) n arg known b :
  create_child_at at_attempt n arg known = inl b -> made_by at_attempt b.
Proof.
  unfold create_child_at, create_capture_backend_for_child, detect_new_toplevel_backend, with_context.
  intros E. exists n. repeat case_match; simplify_eq; eauto.
Qed.

(** Whatever the command line, the compositor's answers and how
    they change between attempts, the server's choice of a backend does not
    panic; a backend it returns was made by one of the constructors; and in
    automatic mode without command or window it fails only when
    ext-image-capture and wlr-screencopy both do, and so does the portal on the
    desktops that need it. *)
Theorem select_backend_total {B} (at_attempt : Z -> creators B) portal desktop arg output app_id command known :
  exists r, select_backend at_attempt portal desktop arg output app_id command known = Some r /\
    match r with
    | inl b => made_by at_attempt b
    | inr _ => True
    end /\
    (arg = CapAuto -> app_id = None -> command = [] ->
     let c := at_attempt 1 in
     (exists e, r = inr e) <->
     (exists e, new_ext c (Output output) = inr e) /\ (exists e, new_wlr c output = inr e) /\
     (portal = true -> needs_portal desktop = true -> exists e, new_portal c = inr e)).
Proof.
  unfold select_backend. pose proof (modes_exclusive app_id command) as Hm.
  destruct (determine_capture_mode app_id command) as [auto explicit]. destruct Hm as [Hm1 Hm2].
  destruct auto; [|destruct explicit].
  - assert (Hc : command <> []) by (intros ->; cbn in Hm2; by destruct explicit).
    destruct known as [ids|].
    + destruct (retry_capture_backend _) as [r n] eqn:E. unfold retry_capture_backend, retry_capture_backend_with_params in E.
      apply retry_loop_spec in E as (_ & He & _); [|lia..].
      destruct r as [b|e|]; [| |done]; (eexists; split; [reflexivity|]; split; [|done]).
      * exact (create_child_at_made _ _ _ _ _ He).
      * destruct (create_at _ _ _ _ _ _ _) eqn:Ec; [|done]. by eapply create_at_made.
    + eexists. split; [reflexivity|]. split; [|done].
      destruct (create_at _ _ _ _ _ _ _) eqn:Ec; [|done]. by eapply create_at_made.
  - assert (Hc : command <> []) by (intros ->; cbn in Hm2; done).
    destruct (retry_capture_backend _) as [r n] eqn:E. unfold retry_capture_backend, retry_capture_backend_with_params in E.
    apply retry_loop_spec in E as (_ & He & _); [|lia..].
    destruct r as [b|e|]; [| |done]; (eexists; split; [reflexivity|]; split; [|done]); [|done].
    exact (create_at_made _ _ _ _ _ _ _ _ He).
  - eexists. split; [reflexivity|]. split.
    + destruct (create_at _ _ _ _ _ _ _) eqn:Ec; [|done]. by eapply create_at_made.
    + intros -> -> ->. cbn. unfold create_at, create_capture_backend, detect_backend, with_context.
      destruct (new_ext (at_attempt 1) (Output output)), (new_wlr (at_attempt 1) output),
        (new_portal (at_attempt 1)), portal, (needs_portal desktop); cbn; naive_solver.
Qed.
