(* ===== verification/CaptureIo.v ===== *)
(** What the Wayland capture backends share
    ([crates/remoteway-capture/src/{shm,wayland_io}.rs]): the pair of shared-memory
    buffers, and waiting for the compositor's events with a deadline.

    An operation runs in a world: the backend's state, the mapped memory, and the
    answers the outside still has to give, dispatch attempts, round trips and memory
    system calls.  The compositor acts by sending events and by writing into shared
    buffers; the log is everything both sides did, in order. *)

From stdpp Require Import strings.
From S2P Require Import Prelude Delta Floats FpsOverlay DesktopDetect ServerPipeline CaptureThread.

(** ** Requests *)

(** Client objects are named by their ids; globals by the registry's name. *)
Inductive cap_req :=
  | BindGlobal (name : Z) (interface : text) (version : Z)
  | CreatePool (pool size : Z)
  | CreateBuffer (buffer pool offset width height stride format : Z)
  | DestroyBuffer (buffer : Z)
  | DestroyPool (pool : Z)
  | CaptureOutput (frame overlay_cursor output : Z)
  | CopyFrame (frame buffer : Z)
  | CreateSource (source manager target : Z)
  | CreateSession (session manager source options : Z)
  | CreateFrame (frame session : Z)
  | AttachBuffer (frame buffer : Z)
  | DamageBuffer (frame x y width height : Z)
  | CaptureFrame (frame : Z)
  | DestroyFrame (frame : Z)
  | GetXdgOutput (manager output : Z).

(** The compositor's side: an event of type [E], or a new content of a buffer. *)
Inductive action (E : Type) := Ev (e : E) | WriteBuffer (buffer : Z) (bytes : list Z).
Arguments Ev {E} e.
Arguments WriteBuffer {E} buffer bytes.

(** The log: requests, the other side's actions, reads of shared memory, and the
    frames handed out. *)
Inductive obs (E : Type) :=
  | Req (r : cap_req) | Act (a : action E) | ReadBuffer (buffer : Z) | Gave (f : CapturedFrame).
Arguments Req {E} r.
Arguments Act {E} a.
Arguments ReadBuffer {E} buffer.
Arguments Gave {E} f.

(** ** Answers *)

(** [Some e]: the call fails, and [e] is how the error prints. *)
Definition io_result : Type := option text.

(** [poll]: readable, timed out, or an errno, of which [EINTR] is one. *)
Inductive poll_answer := PollIn | PollTimeout | PollEintr | PollErrno (n : Z).

(** One pass of the loop in [dispatch_with_deadline]: what [dispatch_pending] handles
    and whether it fails, the flush, whether [prepare_read] gives a guard, the time
    left, the poll and the read. *)
Record attempt (E : Type) := mkAttempt {
  at_acts : list (action E); at_ok : bool; at_flush : io_result; at_guard : bool;
  at_left : Z; at_poll : poll_answer; at_read : io_result }.
Arguments mkAttempt {E}.
Arguments at_acts {E}. Arguments at_ok {E}. Arguments at_flush {E}. Arguments at_guard {E}.
Arguments at_left {E}. Arguments at_poll {E}. Arguments at_read {E}.

Record trip (E : Type) := mkTrip { tr_acts : list (action E); tr_ok : bool }.
Arguments mkTrip {E}. Arguments tr_acts {E}. Arguments tr_ok {E}.

(** [memfd_create], [ftruncate], [mmap]. *)
Inductive mem_answer := MemOk | MemfdFails (e : text) | TruncateFails (e : text) | MmapFails (e : text).

(** ** The monad *)

Record world (S E : Type) := mkWorld {
  w_st : S; w_mem : gmap Z (list Z); w_next : Z;
  w_attempts : list (attempt E); w_trips : list (trip E); w_calls : list mem_answer;
  w_log : list (obs E) }.
Arguments mkWorld {S E}.
Arguments w_st {S E}. Arguments w_mem {S E}. Arguments w_next {S E}. Arguments w_attempts {S E}.
Arguments w_trips {S E}. Arguments w_calls {S E}. Arguments w_log {S E}.

(** The end of an operation: a value or an error; still waiting for the outside; or
    a panic or undefined behaviour. *)
Inductive outcome (S E A : Type) :=
  | Done (w : world S E) (r : A + CaptureError)
  | Waiting (w : world S E)
  | Crash (w : world S E).
Arguments Done {S E A} w r.
Arguments Waiting {S E A} w.
Arguments Crash {S E A} w.

Definition cap (S E A : Type) : Type := world S E -> outcome S E A.

#[export] Instance cap_ret S E : MRet (cap S E) := fun A a w => Done w (inl a).
#[export] Instance cap_bind S E : MBind (cap S E) := fun A B f m w =>
  match m w with
  | Done w (inl a) => f a w
  | Done w (inr e) => Done w (inr e)
  | Waiting w => Waiting w
  | Crash w => Crash w
  end.

Section Ops.
Context {S E : Type} (handle : S -> E -> S * list cap_req).

Definition throw {A} (e : CaptureError) : cap S E A := fun w => Done w (inr e).
Definition crash {A} : cap S E A := fun w => Crash w.
Definition get_st : cap S E S := fun w => Done w (inl (w_st w)).
Definition put_st (s : S) : cap S E unit := fun w =>
  Done (mkWorld s (w_mem w) (w_next w) (w_attempts w) (w_trips w) (w_calls w) (w_log w)) (inl tt).
Definition log (os : list (obs E)) : cap S E unit := fun w =>
  Done (mkWorld (w_st w) (w_mem w) (w_next w) (w_attempts w) (w_trips w) (w_calls w)
          (w_log w ++ os)) (inl tt).
Definition tell (rs : list cap_req) : cap S E unit := log (Req <$> rs).
Definition fresh : cap S E Z := fun w =>
  Done (mkWorld (w_st w) (w_mem w) (w_next w + 1) (w_attempts w) (w_trips w) (w_calls w) (w_log w))
    (inl (w_next w)).
Definition set_mem (mem : gmap Z (list Z)) : cap S E unit := fun w =>
  Done (mkWorld (w_st w) mem (w_next w) (w_attempts w) (w_trips w) (w_calls w) (w_log w)) (inl tt).
Definition get_mem : cap S E (gmap Z (list Z)) := fun w => Done w (inl (w_mem w)).

(** [.ok_or(e)?]. *)
Definition ok_or {A} (o : option A) (e : CaptureError) : cap S E A :=
  match o with Some a => mret a | None => throw e end.

(** ** The compositor acts *)

(** A write shows in the client's mapping if there is one and it has that size. *)
Definition write_mem (mem : gmap Z (list Z)) (buffer : Z) (bytes : list Z) : gmap Z (list Z) :=
  match mem !! buffer with
  | Some old => if zlen bytes =? zlen old then <[buffer := bytes]> mem else mem
  | None => mem
  end.

Definition act (a : action E) : cap S E unit :=
  log [Act a];;
  match a with
  | Ev e => s ← get_st; (let '(s, rs) := handle s e in put_st s;; tell rs)
  | WriteBuffer b bytes => mem ← get_mem; set_mem (write_mem mem b bytes)
  end.

Fixpoint acts (l : list (action E)) : cap S E unit :=
  match l with
  | [] => mret tt
  | a :: l => act a;; acts l
  end.

(** [event_queue.roundtrip(&mut state)?]. *)
Definition roundtrip : cap S E unit := fun w =>
  match w_trips w with
  | [] => Waiting w
  | t :: ts =>
      (acts (tr_acts t);; (if tr_ok t then mret tt else throw WaylandDispatch))
        (mkWorld (w_st w) (w_mem w) (w_next w) (w_attempts w) ts (w_calls w) (w_log w))
  end.

Inductive DispatchOutcome := Dispatched | TimedOut.

Definition is_event (a : action E) : bool := match a with Ev _ => true | _ => false end.

(** One pass: [None] goes around the loop again. *)
Definition dispatch_attempt (a : attempt E) : cap S E (option DispatchOutcome) :=
  acts (at_acts a);;
  if negb (at_ok a) then throw WaylandDispatch
  else if existsb is_event (at_acts a) then mret (Some Dispatched)
  else match at_flush a with
  | Some e => throw (CaptureFailed (str "wl flush: " ++ e))
  | None =>
      if negb (at_guard a) then mret None
      else if at_left a =? 0 then mret (Some TimedOut)
      else match at_poll a with
      | PollEintr => mret None
      | PollErrno n => throw (CaptureFailed (str "poll on wayland fd: errno " ++ digits 20 n))
      | PollTimeout => mret (Some TimedOut)
      | PollIn =>
          match at_read a with
          | Some e => throw (CaptureFailed (str "wl read: " ++ e))
          | None => mret None
          end
      end
  end.

(** The loop takes one attempt a pass; the fuel is their number. *)
Fixpoint dispatch_loop (fuel : nat) : cap S E DispatchOutcome := fun w =>
  match fuel, w_attempts w with
  | Datatypes.S fuel, a :: rest =>
      (r ← dispatch_attempt a;
       match r with Some o => mret o | None => dispatch_loop fuel end)
        (mkWorld (w_st w) (w_mem w) (w_next w) rest (w_trips w) (w_calls w) (w_log w))
  | _, _ => Waiting w
  end.

Definition dispatch_with_deadline : cap S E DispatchOutcome := fun w =>
  dispatch_loop (length (w_attempts w)) w.

(** [while busy { match dispatch_with_deadline(..)? { Dispatched => {}, TimedOut => .. } }];
    a dispatch takes an attempt at least, so their number, plus one, is fuel enough. *)
Fixpoint wait_loop (fuel : nat) (busy : S -> bool) (timed_out : cap S E unit) : cap S E unit :=
  match fuel with
  | O => fun w => Waiting w
  | Datatypes.S fuel =>
      s ← get_st;
      if busy s then
        r ← dispatch_with_deadline;
        (match r with Dispatched => mret tt | TimedOut => timed_out end);;
        wait_loop fuel busy timed_out
      else mret tt
  end.

Definition wait_while (busy : S -> bool) (timed_out : cap S E unit) : cap S E unit := fun w =>
  wait_loop (1 + length (w_attempts w)) busy timed_out w.
End Ops.

(** ** The buffer pool *)

(** [as i32]. *)
Definition i32 (n : Z) : Z := to_signed 32 n.

Record ShmSlot := mkSlot { sl_pool : Z; sl_buffer : Z; sl_size : Z }.

(** [sp_slots] is the array of two. *)
Record ShmBufferPool := mkPool {
  sp_slots : ShmSlot * ShmSlot; sp_active : Z;
  sp_width : Z; sp_height : Z; sp_stride : Z; sp_format : Z }.

Definition checked_mul (a b : Z) : option Z := if a * b <? 2 ^ 64 then Some (a * b) else None.

Section Pool.
Context {S E : Type}.

(** The next memory call's answer. *)
Definition mem_call : cap S E mem_answer := fun w =>
  match w_calls w with
  | [] => Waiting w
  | a :: rest =>
      Done (mkWorld (w_st w) (w_mem w) (w_next w) (w_attempts w) (w_trips w) rest (w_log w)) (inl a)
  end.

(** [ShmSlot::new]; fresh memory is zero. *)
Definition ShmSlot_new (width height stride format size : Z) : cap S E ShmSlot :=
  a ← mem_call;
  match a with
  | MemfdFails e => throw (ShmPool (str "memfd_create failed: " ++ e))
  | TruncateFails e => throw (ShmPool (str "ftruncate failed: " ++ e))
  | MmapFails e => throw (ShmPool (str "mmap fd failed: " ++ e))
  | MemOk =>
      pool ← fresh;
      buffer ← fresh;
      tell [CreatePool pool (i32 size);
            CreateBuffer buffer pool 0 (i32 width) (i32 height) (i32 stride) format];;
      mem ← get_mem;
      set_mem (<[buffer := replicate (Z.to_nat size) 0]> mem);;
      mret (mkSlot pool buffer size)
  end.

(** [Drop for ShmSlot]. *)
Definition ShmSlot_drop (s : ShmSlot) : cap S E unit :=
  tell [DestroyBuffer (sl_buffer s); DestroyPool (sl_pool s)];;
  mem ← get_mem;
  set_mem (delete (sl_buffer s) mem).

Definition ShmBufferPool_drop (p : ShmBufferPool) : cap S E unit :=
  ShmSlot_drop p.(sp_slots).1;; ShmSlot_drop p.(sp_slots).2.

(** An error of [m] runs [h] on its way out. *)
Definition on_error {A} (m : cap S E A) (h : cap S E unit) : cap S E A := fun w =>
  match m w with
  | Done w (inr e) => (h;; throw e) w
  | o => o
  end.

(** [ShmBufferPool::new]; when the second slot fails the first is dropped. *)
Definition ShmBufferPool_new (width height stride format : Z) : cap S E ShmBufferPool :=
  min_stride ← ok_or (checked_mul width 4) (ShmPool (str "stride overflow: width * 4 exceeds usize"));
  if stride <? min_stride
  then throw (ShmPool (str "stride (" ++ digits 20 stride ++ str ") < width * 4 (" ++
                       digits 20 min_stride ++ str ")"))
  else
    buf_size ← ok_or (checked_mul stride height)
                 (ShmPool (str "buffer size overflow: stride * height exceeds usize"));
    if buf_size =? 0 then throw (ShmPool (str "zero-size buffer"))
    else
      slot0 ← ShmSlot_new width height stride format buf_size;
      slot1 ← on_error (ShmSlot_new width height stride format buf_size) (ShmSlot_drop slot0);
      mret (mkPool (slot0, slot1) 0 width height stride format).

(** [self.slots[self.active]]. *)
Definition active_slot (p : ShmBufferPool) : option ShmSlot :=
  if sp_active p =? 0 then Some (sp_slots p).1
  else if sp_active p =? 1 then Some (sp_slots p).2 else None.

(** [buffer_size]. *)
Definition pool_buffer_size (p : ShmBufferPool) : Z := wrap 64 (sp_stride p * sp_height p).

(** [active_buffer]. *)
Definition active_buffer (p : ShmBufferPool) : cap S E Z :=
  match active_slot p with Some s => mret (sl_buffer s) | None => crash end.

(** [active_data().to_vec()]; the raw slice must lie inside the mapping. *)
Definition active_data (p : ShmBufferPool) : cap S E (list Z) :=
  match active_slot p with
  | None => crash
  | Some s =>
      mem ← get_mem;
      match mem !! sl_buffer s ≫= (fun m => slice m 0 (pool_buffer_size p)) with
      | None => crash
      | Some data => log [ReadBuffer (sl_buffer s)];; mret data
      end
  end.

(** [swap]; [usize] arithmetic. *)
Definition pool_swap (p : ShmBufferPool) : ShmBufferPool :=
  mkPool (sp_slots p) (wrap 64 (1 - sp_active p)) (sp_width p) (sp_height p) (sp_stride p) (sp_format p).
End Pool.
