(* ===== verification/CaptureLogic.v ===== *)
(** Reasoning about the capture backends: a judge reads the log as it grows, knows
    what the protocol and the memory allow each side, and says who broke it first.

    A triple says of an operation: it only extends the log; the client is never the
    first at fault; it neither panics nor touches memory it does not own; and its
    results satisfy the postcondition, as long as the compositor plays by the rules. *)

From S2P Require Import Prelude Delta ServerPipeline CaptureThread CaptureIo.

Inductive verdict (M : Type) := Fine (m : M) | ClientWrong | CompWrong.
Arguments Fine {M} m.
Arguments ClientWrong {M}.
Arguments CompWrong {M}.

Section Logic.
Context {S E M : Type} (rules : M -> obs E -> verdict M) (start : M).

Definition judge_step (v : verdict M) (o : obs E) : verdict M :=
  match v with Fine m => rules m o | _ => v end.

Definition judge (os : list (obs E)) : verdict M := foldl judge_step (Fine start) os.

Definition judged (w : world S E) : verdict M := judge (w_log w).

Lemma judge_stuck_comp os : foldl judge_step CompWrong os = CompWrong.
Proof. by induction os. Qed.

Lemma judge_app os os' : judge (os ++ os') = foldl judge_step (judge os) os'.
Proof. unfold judge. by rewrite foldl_app. Qed.

(** Nobody is at fault and [K] holds, or the compositor is. *)
Definition fair (w : world S E) (K : M -> Prop) : Prop :=
  match judged w with Fine m => K m | ClientWrong => False | CompWrong => True end.

Definition final {A} (o : outcome S E A) : world S E :=
  match o with Done w _ | Waiting w | Crash w => w end.

(** The log only grows. *)
Definition growing {A} (m : cap S E A) : Prop :=
  forall w, exists os, w_log (final (m w)) = w_log w ++ os.

Definition triple (P : world S E -> M -> Prop) {A} (m : cap S E A)
    (Post : A -> world S E -> M -> Prop) (Err : world S E -> M -> Prop) : Prop :=
  growing m /\
  forall w mn, judged w = Fine mn -> P w mn ->
    match m w with
    | Done w' (inl a) => fair w' (Post a w')
    | Done w' (inr _) => fair w' (Err w')
    | Waiting w' => fair w' (fun _ => True)
    | Crash w' => fair w' (fun _ => False)
    end.

Lemma fair_grown w w' K os :
  judged w = CompWrong -> w_log w' = w_log w ++ os -> fair w' K.
Proof. intros E1 E2. unfold fair, judged in *. by rewrite E2, judge_app, E1, judge_stuck_comp. Qed.

Lemma fair_mono w (K K' : M -> Prop) : (forall m, judged w = Fine m -> K m -> K' m) -> fair w K -> fair w K'.
Proof. unfold fair. destruct (judged w); auto. Qed.

(** ** Growing *)

Lemma growing_ret {A} (a : A) : growing (mret a).
Proof. intros w. exists []. by rewrite app_nil_r. Qed.

Lemma growing_bind {A B} (m : cap S E A) (f : A -> cap S E B) :
  growing m -> (forall a, growing (f a)) -> growing (m ≫= f).
Proof.
  intros Hm Hf w. destruct (Hm w) as [os E1]. unfold mbind, cap_bind.
  destruct (m w) as [w1 [a|e]|w1|w1]; try (by exists os).
  destruct (Hf a w1) as [os' E2]. exists (os ++ os'). cbn in E1. by rewrite E2, E1, app_assoc.
Qed.

Lemma growing_silent {A} (m : cap S E A) : (forall w, w_log (final (m w)) = w_log w) -> growing m.
Proof. intros H w. exists []. by rewrite app_nil_r, H. Qed.

Lemma growing_log os : growing (log (S:=S) (E:=E) os).
Proof. intros w. by exists os. Qed.

Lemma growing_ok_or {A} (o : option A) e : growing (ok_or (S:=S) (E:=E) o e).
Proof. destruct o; by apply growing_silent. Qed.

Lemma growing_on_error {A} (m : cap S E A) h : growing m -> growing h -> growing (on_error m h).
Proof.
  intros Gm Gh w. destruct (Gm w) as [os E1]. unfold on_error.
  destruct (m w) as [w1 [a|e]|w1|w1]; try (by exists os). cbn in E1.
  destruct (Gh w1) as [os' E2]. exists (os ++ os'). unfold mbind, cap_bind.
  destruct (h w1) as [w2 [[]|e']|w2|w2]; cbn in *; by rewrite E2, E1, app_assoc.
Qed.

(** ** The rules *)

Lemma triple_bind P {A B} (m : cap S E A) (f : A -> cap S E B) R Post Err :
  triple P m R Err -> (forall a, triple (R a) (f a) Post Err) -> triple P (m ≫= f) Post Err.
Proof.
  intros [Gm Hm] Hf. split; [apply growing_bind; [done|intros a; apply Hf]|].
  intros w mn Hj HP. specialize (Hm w mn Hj HP). unfold mbind, cap_bind.
  destruct (m w) as [w1 [a|e]|w1|w1]; try done.
  destruct (Hf a) as [Gf Hfa]. unfold fair in Hm. destruct (judged w1) as [m1| |] eqn:E1; [|done|].
  - by apply (Hfa w1 m1).
  - destruct (Gf w1) as [os E2]. destruct (f a w1) as [w2 [b|e]|w2|w2]; by eapply fair_grown.
Qed.

Lemma triple_conseq (P P' : world S E -> M -> Prop) {A} (m : cap S E A) Post Post' (Err Err' : world S E -> M -> Prop) :
  triple P' m Post' Err' -> (forall w mn, P w mn -> P' w mn) ->
  (forall a w mn, Post' a w mn -> Post a w mn) -> (forall w mn, Err' w mn -> Err w mn) ->
  triple P m Post Err.
Proof.
  intros [G H] HP HQ HE. split; [done|]. intros w mn Hj Hw. specialize (H w mn Hj (HP _ _ Hw)).
  destruct (m w) as [w1 [a|e]|w1|w1]; try done; (eapply fair_mono; [|exact H]); auto.
Qed.

Lemma triple_pre (P P' : world S E -> M -> Prop) {A} (m : cap S E A) Post Err :
  triple P' m Post Err -> (forall w mn, P w mn -> P' w mn) -> triple P m Post Err.
Proof. intros H HP. by eapply triple_conseq. Qed.

Lemma triple_ret P {A} (a : A) (Post : A -> world S E -> M -> Prop) Err :
  (forall w mn, P w mn -> Post a w mn) -> triple P (mret a) Post Err.
Proof.
  intros H. split; [apply growing_ret|]. intros w mn Hj HP. cbn. unfold fair. rewrite Hj. by apply H.
Qed.

Lemma triple_ret_bind P {A B} (a : A) (f : A -> cap S E B) Post Err :
  triple P (f a) Post Err -> triple P (mret a ≫= f) Post Err.
Proof. exact id. Qed.

Lemma triple_throw_bind P {A B} e (f : A -> cap S E B) Post (Err : world S E -> M -> Prop) :
  (forall w mn, P w mn -> Err w mn) -> triple P (throw e ≫= f) Post Err.
Proof.
  intros H. split; [intros w; exists []; by rewrite app_nil_r|].
  intros w mn Hj HP. change (fair w (Err w)). unfold fair. rewrite Hj. by apply H.
Qed.

Lemma triple_exists {X} (P : X -> world S E -> M -> Prop) {A} (m : cap S E A) Post Err :
  growing m -> (forall x, triple (P x) m Post Err) -> triple (fun w mn => exists x, P x w mn) m Post Err.
Proof. intros G H. split; [done|]. intros w mn Hj [x HP]. exact (proj2 (H x) w mn Hj HP). Qed.

(** A fact that does not depend on the world moves out of the assertion. *)
Lemma triple_pure (phi : Prop) P {A} (m : cap S E A) Post Err :
  growing m -> (phi -> triple P m Post Err) -> triple (fun w mn => phi /\ P w mn) m Post Err.
Proof.
  intros G H. split; [done|]. intros w mn Hj [Hphi HP]. exact (proj2 (H Hphi) w mn Hj HP).
Qed.

Lemma triple_throw P {A} e (Post : A -> world S E -> M -> Prop) (Err : world S E -> M -> Prop) :
  (forall w mn, P w mn -> Err w mn) -> triple P (throw e) Post Err.
Proof.
  intros H. split; [intros w; exists []; by rewrite app_nil_r|].
  intros w mn Hj HP. cbn. unfold fair. rewrite Hj. by apply H.
Qed.

(** Nothing reaches here. *)
Lemma triple_false P {A} (m : cap S E A) Post Err :
  growing m -> (forall w mn, P w mn -> False) -> triple P m Post Err.
Proof. intros G H. split; [done|]. intros w mn _ HP. by destruct (H w mn HP). Qed.

(** An operation that changes the world but not the log. *)
Lemma triple_silent P {A} (m : cap S E A) (Post : A -> world S E -> M -> Prop) Err :
  (forall w, exists w' a, m w = Done w' (inl a) /\ w_log w' = w_log w /\
     forall mn, P w mn -> Post a w' mn) -> triple P m Post Err.
Proof.
  intros H. split.
  - intros w. destruct (H w) as (w' & a & -> & E1 & _). exists []. cbn. by rewrite E1, app_nil_r.
  - intros w mn Hj HP. destruct (H w) as (w' & a & -> & E1 & HQ). unfold fair, judged in *.
    rewrite E1, Hj. by apply HQ.
Qed.

Lemma triple_get_st P {A} (f : S -> cap S E A) Post Err :
  (forall st, triple (fun w mn => P w mn /\ w_st w = st) (f st) Post Err) ->
  triple P (get_st ≫= f) Post Err.
Proof.
  intros H. eapply (triple_bind _ _ _ (fun st w mn => P w mn /\ w_st w = st)); [|done].
  apply triple_silent. intros w. by exists w, (w_st w).
Qed.

Lemma triple_get_mem P {A} (f : gmap Z (list Z) -> cap S E A) Post Err :
  (forall mem, triple (fun w mn => P w mn /\ w_mem w = mem) (f mem) Post Err) ->
  triple P (get_mem ≫= f) Post Err.
Proof.
  intros H. eapply (triple_bind _ _ _ (fun st w mn => P w mn /\ w_mem w = st)); [|done].
  apply triple_silent. intros w. by exists w, (w_mem w).
Qed.

Definition with_st (s : S) (w : world S E) : world S E :=
  mkWorld s (w_mem w) (w_next w) (w_attempts w) (w_trips w) (w_calls w) (w_log w).
Definition with_mem (mem : gmap Z (list Z)) (w : world S E) : world S E :=
  mkWorld (w_st w) mem (w_next w) (w_attempts w) (w_trips w) (w_calls w) (w_log w).
Definition with_log (os : list (obs E)) (w : world S E) : world S E :=
  mkWorld (w_st w) (w_mem w) (w_next w) (w_attempts w) (w_trips w) (w_calls w) (w_log w ++ os).

Lemma triple_put_st P s (Post : unit -> world S E -> M -> Prop) Err :
  (forall w mn, P w mn -> Post tt (with_st s w) mn) -> triple P (put_st s) Post Err.
Proof. intros H. apply triple_silent. intros w. exists (with_st s w), tt. split_and!; [done..|]. apply H. Qed.

Lemma triple_set_mem P mem (Post : unit -> world S E -> M -> Prop) Err :
  (forall w mn, P w mn -> Post tt (with_mem mem w) mn) -> triple P (set_mem mem) Post Err.
Proof. intros H. apply triple_silent. intros w. exists (with_mem mem w), tt. split_and!; [done..|]. apply H. Qed.

(** Something is logged: the judge looks. *)
Lemma triple_log P os (Post : unit -> world S E -> M -> Prop) Err :
  (forall w mn, P w mn ->
     match foldl judge_step (Fine mn) os with
     | Fine mn' => Post tt (with_log os w) mn'
     | ClientWrong => False
     | CompWrong => True
     end) -> triple P (log os) Post Err.
Proof.
  intros H. split; [intros w; by exists os|]. intros w mn Hj HP. cbn. unfold fair, judged. cbn.
  unfold judged in Hj. rewrite judge_app, Hj. specialize (H w mn HP).
  by destruct (foldl _ _ _).
Qed.

Lemma triple_ok_or P {A} (o : option A) e (Post : A -> world S E -> M -> Prop) (Err : world S E -> M -> Prop) :
  (forall a w mn, o = Some a -> P w mn -> Post a w mn) ->
  (forall w mn, o = None -> P w mn -> Err w mn) -> triple P (ok_or o e) Post Err.
Proof.
  intros HS HN. destruct o as [a|]; [apply triple_ret|apply triple_throw]; intros w mn; auto.
Qed.

Lemma triple_on_error P {A} (m : cap S E A) h Post Err Err' :
  triple P m Post Err' -> triple Err' h (fun _ => Err) Err -> triple P (on_error m h) Post Err.
Proof.
  intros [Gm Hm] [Gh Hh]. split.
  - by apply growing_on_error.
  - intros w mn Hj HP. specialize (Hm w mn Hj HP). unfold on_error.
    destruct (m w) as [w1 [a|e]|w1|w1]; try done. unfold fair in Hm. unfold mbind, cap_bind.
    destruct (judged w1) as [m1| |] eqn:E1; [|done|].
    + specialize (Hh w1 m1 E1 Hm). by destruct (h w1) as [w2 [[]|e']|w2|w2].
    + destruct (Gh w1) as [os' E2]. destruct (h w1) as [w2 [[]|e']|w2|w2]; by eapply fair_grown.
Qed.

(** ** Waiting for the compositor *)

Section Waits.
Context (handle : S -> E -> S * list cap_req).

(** An assertion that does not look at the answers to come. *)
Definition on (Inv : S -> gmap Z (list Z) -> Z -> M -> Prop) (w : world S E) (mn : M) : Prop :=
  Inv (w_st w) (w_mem w) (w_next w) mn.

Context (Inv : S -> gmap Z (list Z) -> Z -> M -> Prop).

(** Every action of the compositor keeps the invariant. *)
Definition kept : Prop :=
  forall a Err, triple (on Inv) (act handle a) (fun _ => on Inv) Err.

(** It is enough to look at the handler and at the judge. *)
Lemma kept_intro :
  (forall st mem next mn a mn', Inv st mem next mn -> rules mn (Act a) = Fine mn' ->
     match a with
     | Ev e => foldl judge_step (Fine mn') (Req <$> (handle st e).2) = Fine mn' /\
               Inv (handle st e).1 mem next mn'
     | WriteBuffer b bytes => Inv st (write_mem mem b bytes) next mn'
     end) ->
  (forall mn a, rules mn (Act a) <> ClientWrong) -> kept.
Proof.
  intros H HC a Err. unfold act. apply (triple_bind _ _ _ (fun _ w mn' =>
    exists mn, Inv (w_st w) (w_mem w) (w_next w) mn /\ rules mn (Act a) = Fine mn')).
  { apply triple_log. intros w mn HI. cbn. pose proof (HC mn a).
    destruct (rules mn (Act a)) as [mn'| |] eqn:Er; [|done..]. by exists mn. }
  intros []. destruct a as [e|b bytes].
  - apply triple_get_st. intros st. destruct (handle st e) as [st' rs] eqn:Eh.
    apply (triple_bind _ _ _ (fun _ w mn' => exists mn st0, handle st0 e = (st', rs) /\
      Inv st0 (w_mem w) (w_next w) mn /\ rules mn (Act (Ev e)) = Fine mn' /\ w_st w = st')).
    + apply triple_put_st. intros w mn' [(mn & HI & Er) <-]. by exists mn, (w_st w).
    + intros []. apply triple_log. intros w mn' (mn & st0 & E1 & HI & Er & E2).
      destruct (H _ _ _ _ _ _ HI Er) as [E3 HI']. rewrite E1 in E3, HI'. cbn in E3, HI'. rewrite E3.
      unfold on. cbn. by rewrite E2.
  - apply triple_get_mem. intros mem. apply triple_set_mem.
    intros w mn' [(mn & HI & Er) <-]. exact (H _ _ _ _ _ _ HI Er).
Qed.

Context (Hkept : kept).

Lemma triple_acts l Err : triple (on Inv) (acts handle l) (fun _ => on Inv) Err.
Proof.
  induction l as [|a l IH]; cbn [acts]; [by apply triple_ret|].
  eapply triple_bind; [apply Hkept|]. intros []. exact IH.
Qed.

Lemma triple_roundtrip : triple (on Inv) (roundtrip handle) (fun _ => on Inv) (on Inv).
Proof.
  assert (G : forall ok : bool, triple (on Inv) ((if ok then mret tt else throw WaylandDispatch) : cap S E unit)
    (fun _ => on Inv) (on Inv)).
  { intros []; [by apply triple_ret|by apply triple_throw]. }
  assert (H : forall t, triple (on Inv) (acts handle (tr_acts t);; if tr_ok t then mret tt else throw WaylandDispatch)
    (fun _ => on Inv) (on Inv)).
  { intros t. eapply triple_bind; [apply triple_acts|]. intros []. apply G. }
  split.
  - intros w. unfold roundtrip. destruct (w_trips w) as [|t ts]; [exists []; by rewrite app_nil_r|].
    destruct (H t) as [Gt _]. apply (Gt (mkWorld _ _ _ _ ts _ _)).
  - intros w mn Hj HP. unfold roundtrip. destruct (w_trips w) as [|t ts]; [unfold fair; by rewrite Hj|].
    destruct (H t) as [_ Ht]. by apply (Ht (mkWorld _ _ _ _ ts _ _) mn).
Qed.

Lemma triple_attempt a : triple (on Inv) (dispatch_attempt handle a) (fun _ => on Inv) (on Inv).
Proof.
  unfold dispatch_attempt. eapply triple_bind; [apply triple_acts|]. intros [].
  repeat match goal with
  | |- triple _ (if ?c then _ else _) _ _ => destruct c
  | |- triple _ (match ?c with _ => _ end) _ _ => destruct c
  end; first [by apply triple_ret|by apply triple_throw].
Qed.

Lemma triple_dispatch_loop n :
  triple (on Inv) (dispatch_loop handle n) (fun _ => on Inv) (on Inv).
Proof.
  induction n as [|n IH]; cbn [dispatch_loop].
  { split; [intros w; exists []; by rewrite app_nil_r|]. intros w mn Hj _. unfold fair. by rewrite Hj. }
  assert (H : forall a, triple (on Inv) (r ← dispatch_attempt handle a;
      match r with Some o => mret o | None => dispatch_loop handle n end) (fun _ => on Inv) (on Inv)).
  { intros a. eapply triple_bind; [apply triple_attempt|]. intros [o|]; [by apply triple_ret|exact IH]. }
  split.
  - intros w. destruct (w_attempts w) as [|a rest]; [exists []; by rewrite app_nil_r|].
    destruct (H a) as [Ga _]. apply (Ga (mkWorld _ _ _ rest _ _ _)).
  - intros w mn Hj HP. destruct (w_attempts w) as [|a rest]; [unfold fair; by rewrite Hj|].
    destruct (H a) as [_ Ha]. by apply (Ha (mkWorld _ _ _ rest _ _ _) mn).
Qed.

Lemma triple_dispatch : triple (on Inv) (dispatch_with_deadline handle) (fun _ => on Inv) (on Inv).
Proof.
  split; [intros w; apply triple_dispatch_loop|].
  intros w mn. exact (proj2 (triple_dispatch_loop (length (w_attempts w))) w mn).
Qed.

(** The invariant holds around the loop, and its condition is false after it. *)
Lemma triple_wait_loop busy timed_out (Err : world S E -> M -> Prop) n :
  (forall w mn, on Inv w mn -> Err w mn) ->
  triple (on Inv) timed_out (fun _ => on Inv) Err ->
  triple (on Inv) (wait_loop handle n busy timed_out)
    (fun _ w mn => on Inv w mn /\ busy (w_st w) = false) Err.
Proof.
  intros HE HT. induction n as [|n IH]; cbn [wait_loop].
  { split; [intros w; exists []; by rewrite app_nil_r|]. intros w mn Hj _. unfold fair. by rewrite Hj. }
  apply triple_get_st. intros st. destruct (busy st) eqn:Eb.
  - eapply (triple_bind _ _ _ (fun _ => on Inv)).
    { eapply triple_conseq; [apply triple_dispatch|by intros w mn []|auto|exact HE]. }
    intros r. apply (triple_bind _ _ _ (fun _ => on Inv)); [|intros []; exact IH].
    destruct r; [by apply triple_ret|exact HT].
  - apply triple_ret. by intros w mn [? ->].
Qed.

Lemma triple_wait_while busy timed_out (Err : world S E -> M -> Prop) :
  (forall w mn, on Inv w mn -> Err w mn) ->
  triple (on Inv) timed_out (fun _ => on Inv) Err ->
  triple (on Inv) (wait_while handle busy timed_out)
    (fun _ w mn => on Inv w mn /\ busy (w_st w) = false) Err.
Proof.
  intros HE HT. split; [intros w; by apply (triple_wait_loop busy timed_out Err)|].
  intros w mn. exact (proj2 (triple_wait_loop busy timed_out Err _ HE HT) w mn).
Qed.
End Waits.
End Logic.

(** Operations made of the primitives only extend the log. *)
Ltac growing_tac :=
  repeat match goal with
  | |- growing (_ ≫= _) => apply growing_bind; [|intros ?]
  | |- growing (log _) => apply growing_log
  | |- growing (tell _) => apply growing_log
  | |- growing (on_error _ _) => apply growing_on_error
  | |- growing (if ?c then _ else _) => destruct c
  | |- growing (match ?c with _ => _ end) => destruct c
  | |- growing (ok_or _ _) => apply growing_ok_or
  | |- growing _ => by apply growing_silent
  end.

(** ** Runs *)

Section Runs.
Context {S E : Type} (handle : S -> E -> S * list cap_req).

Lemma run_bind {A B} (m : cap S E A) (f : A -> cap S E B) w a w' :
  m w = Done w' (inl a) -> (m ≫= f) w = f a w'.
Proof. intros H. unfold mbind, cap_bind. by rewrite H. Qed.

(** The steps of the primitives. *)
Lemma run_get {A} (f : S -> cap S E A) w : (get_st ≫= f) w = f (w_st w) w.
Proof. reflexivity. Qed.

Lemma run_put {A} s (f : unit -> cap S E A) w : (put_st s ≫= f) w = f tt (with_st s w).
Proof. reflexivity. Qed.

Lemma run_tell {A} rs (f : unit -> cap S E A) w : (tell rs ≫= f) w = f tt (with_log (Req <$> rs) w).
Proof. reflexivity. Qed.

Lemma run_log {A} os (f : unit -> cap S E A) w : (log os ≫= f) w = f tt (with_log os w).
Proof. reflexivity. Qed.

Lemma run_fresh {A} (f : Z -> cap S E A) w : (fresh ≫= f) w =
  f (w_next w) (mkWorld (w_st w) (w_mem w) (w_next w + 1) (w_attempts w) (w_trips w) (w_calls w) (w_log w)).
Proof. reflexivity. Qed.

Lemma run_ok_or {A B} (a : A) e (f : A -> cap S E B) w : (ok_or (Some a) e ≫= f) w = f a w.
Proof. reflexivity. Qed.

Definition with_attempts (l : list (attempt E)) (w : world S E) : world S E :=
  mkWorld (w_st w) (w_mem w) (w_next w) l (w_trips w) (w_calls w) (w_log w).

(** A pass that goes round the loop: another thread had the guard, a signal, or bytes
    that complete no event. *)
Definition idle_pass (a : attempt E) : Prop :=
  at_acts a = [] /\ at_ok a = true /\ at_flush a = None /\
  (at_guard a = false \/
   (at_left a <> 0 /\ (at_poll a = PollEintr \/ (at_poll a = PollIn /\ at_read a = None)))).

Definition brings (a : attempt E) : Prop := existsb is_event (at_acts a) = true /\ at_ok a = true.

Lemma idle_attempt a w : idle_pass a -> dispatch_attempt handle a w = Done w (inl None).
Proof.
  intros (E1 & E2 & E3 & E4). unfold dispatch_attempt, mbind, cap_bind. rewrite E1, E2, E3. cbn.
  destruct E4 as [-> |(H1 & H2)]; [done|]. destruct (at_guard a); [|done]. cbn.
  destruct (Z.eqb_spec (at_left a) 0); [done|]. by destruct H2 as [-> |[-> ->]].
Qed.

(** Idle passes are skipped, up to the first that decides. *)
Lemma dispatch_first idles a rest w w' o :
  Forall idle_pass idles -> w_attempts w = idles ++ a :: rest ->
  dispatch_attempt handle a (with_attempts rest w) = Done w' (inl (Some o)) ->
  dispatch_with_deadline handle w = Done w' (inl o).
Proof.
  intros Hi Ew Ha. unfold dispatch_with_deadline.
  assert (H : forall fuel w, (length idles < fuel)%nat -> w_attempts w = idles ++ a :: rest ->
    dispatch_attempt handle a (with_attempts rest w) = Done w' (inl (Some o)) ->
    dispatch_loop handle fuel w = Done w' (inl o)).
  { clear w Ew Ha. induction Hi as [|i idles Hi His IH]; intros fuel w Hf Ew Ha;
      (destruct fuel as [|fuel]; [cbn in Hf; lia|]); cbn [dispatch_loop]; rewrite Ew; cbn [app].
    - fold (with_attempts rest w). unfold mbind, cap_bind. by rewrite Ha.
    - erewrite run_bind; [|by apply idle_attempt]. cbn. apply IH; [cbn in Hf; lia|done..]. }
  apply (H _ w); [|done..]. rewrite Ew, length_app. cbn. lia.
Qed.

Lemma dispatch_idle idles a rest w w' :
  Forall idle_pass idles -> brings a -> w_attempts w = idles ++ a :: rest ->
  acts handle (at_acts a) (with_attempts rest w) = Done w' (inl tt) ->
  dispatch_with_deadline handle w = Done w' (inl Dispatched).
Proof.
  intros Hi [Ha Hok] Ew Hacts. eapply dispatch_first; [exact Hi|exact Ew|].
  unfold dispatch_attempt, mbind, cap_bind. by rewrite Hacts, Ha, Hok.
Qed.

(** A pass that ends the dispatch: nothing came before the deadline. *)
Definition silent_pass (a : attempt E) : Prop :=
  at_acts a = [] /\ at_ok a = true /\ at_flush a = None /\ at_guard a = true /\
  (at_left a = 0 \/ at_poll a = PollTimeout).

Lemma dispatch_silent idles a rest w :
  Forall idle_pass idles -> silent_pass a -> w_attempts w = idles ++ a :: rest ->
  dispatch_with_deadline handle w = Done (with_attempts rest w) (inl TimedOut).
Proof.
  intros Hi (E1 & E2 & E3 & E4 & E5) Ew. eapply dispatch_first; [exact Hi|exact Ew|].
  unfold dispatch_attempt, mbind, cap_bind. rewrite E1, E2, E3, E4. cbn.
  destruct (Z.eqb_spec (at_left a) 0); [done|]. by destruct E5 as [? | ->].
Qed.

(** A wait that one batch of events ends. *)
Lemma wait_once busy timed_out idles a rest w w' :
  busy (w_st w) = true -> Forall idle_pass idles -> brings a -> w_attempts w = idles ++ a :: rest ->
  acts handle (at_acts a) (with_attempts rest w) = Done w' (inl tt) -> busy (w_st w') = false ->
  wait_while handle busy timed_out w = Done w' (inl tt).
Proof.
  intros Hb Hi Ha Ew Hacts Hb'. unfold wait_while. rewrite Ew, length_app. cbn [length].
  rewrite Nat.add_succ_r. cbn [Nat.add wait_loop]. erewrite run_bind; [|done]. rewrite Hb.
  erewrite run_bind; [|by eapply dispatch_idle]. cbn [wait_loop].
  erewrite run_bind; [|done]. erewrite run_bind; [|done]. by rewrite Hb'.
Qed.
(** A wait that goes on after a timeout: any number of silent deadlines and of idle
    passes, then a batch of events that ends it. *)
Definition quiet_pass (a : attempt E) : Prop := idle_pass a \/ silent_pass a.

Lemma quiet_split quiet : Forall quiet_pass quiet ->
  Forall idle_pass quiet \/ exists idles a rest, quiet = idles ++ a :: rest /\
    Forall idle_pass idles /\ silent_pass a /\ Forall quiet_pass rest.
Proof.
  induction 1 as [|a quiet [Ha|Ha] Hq IH]; [by left|..].
  - destruct IH as [IH|(idles & b & rest & -> & Hi & Hb & Hr)]; [left; by constructor|].
    right. exists (a :: idles), b, rest. split_and!; [done|by constructor|done..].
  - right. by exists [], a, quiet.
Qed.

Lemma wait_patient busy quiet a rest w w' :
  busy (w_st w) = true -> Forall quiet_pass quiet -> brings a -> w_attempts w = quiet ++ a :: rest ->
  acts handle (at_acts a) (with_attempts rest w) = Done w' (inl tt) -> busy (w_st w') = false ->
  wait_while handle busy (mret tt) w = Done w' (inl tt).
Proof.
  intros Hb Hq Ha Ew Hacts Hb'. unfold wait_while. rewrite Ew, length_app. cbn [length Nat.add].
  assert (H : forall fuel w, (1 + length quiet < fuel)%nat -> busy (w_st w) = true ->
    w_attempts w = quiet ++ a :: rest ->
    acts handle (at_acts a) (with_attempts rest w) = Done w' (inl tt) ->
    wait_loop handle fuel busy (mret tt) w = Done w' (inl tt)).
  2: { apply H; [lia|done..]. }
  clear w Hb Ew Hacts. remember (length quiet) as n eqn:En. revert quiet Hq En.
  induction (Nat.lt_wf_0 n) as [n _ IH]. intros quiet Hq -> fuel w Hf Hb Ew Hacts.
  destruct fuel as [|fuel]; [lia|]. cbn [wait_loop]. erewrite run_bind; [|done]. rewrite Hb.
  destruct (quiet_split quiet Hq) as [Hi|(idles & b & later & -> & Hi & Hs & Hr)].
  - erewrite run_bind; [|by eapply dispatch_idle]. erewrite run_bind; [|done].
    destruct fuel as [|fuel]; [lia|]. cbn [wait_loop]. erewrite run_bind; [|done]. by rewrite Hb'.
  - rewrite <- app_assoc in Ew. cbn [app] in Ew.
    erewrite run_bind; [|by eapply dispatch_silent]. erewrite run_bind; [|done].
    rewrite length_app in IH, Hf. cbn in IH, Hf.
    apply (IH (length later)) with later; [lia|done|done|lia|done|done|done].
Qed.

(** Events whose handling asks for nothing. *)
Fixpoint acts_st (st : S) (l : list (action E)) : S :=
  match l with
  | [] => st
  | Ev e :: l => acts_st (handle st e).1 l
  | WriteBuffer _ _ :: l => acts_st st l
  end.

Fixpoint acts_mem (mem : gmap Z (list Z)) (l : list (action E)) : gmap Z (list Z) :=
  match l with
  | [] => mem
  | Ev _ :: l => acts_mem mem l
  | WriteBuffer b bytes :: l => acts_mem (write_mem mem b bytes) l
  end.

Lemma acts_app_st st l l' : acts_st st (l ++ l') = acts_st (acts_st st l) l'.
Proof. revert st. induction l as [|[e|b bs] l IH]; intros st; [done|apply IH..]. Qed.

Lemma acts_app_mem mem l l' : acts_mem mem (l ++ l') = acts_mem (acts_mem mem l) l'.
Proof. revert mem. induction l as [|[e|b bs] l IH]; intros mem; [done|apply IH..]. Qed.

Definition asks_nothing (a : action E) : Prop :=
  match a with Ev e => forall st, (handle st e).2 = [] | WriteBuffer _ _ => True end.

Lemma run_acts l w : Forall asks_nothing l ->
  acts handle l w = Done (mkWorld (acts_st (w_st w) l) (acts_mem (w_mem w) l) (w_next w) (w_attempts w)
    (w_trips w) (w_calls w) (w_log w ++ (Act <$> l))) (inl tt).
Proof.
  intros Hl. revert w. induction Hl as [|a l Ha Hl IH]; intros [st mem next atts trips calls lg].
  { cbn. by rewrite app_nil_r. }
  cbn [acts]. destruct a as [e|b bytes]; cbn [asks_nothing] in Ha.
  - specialize (Ha st). destruct (handle st e) as [st' rs] eqn:Eh. cbn in Ha. subst rs.
    erewrite run_bind.
    2: { unfold act. rewrite run_log, run_get. cbn [with_log w_st]. rewrite Eh, run_put. reflexivity. }
    rewrite IH. cbn. rewrite Eh, app_nil_r, <- app_assoc. done.
  - erewrite run_bind; [|reflexivity]. rewrite IH. cbn. by rewrite <- app_assoc.
Qed.
End Runs.
