(* ===== verification/CaptureMem.v ===== *)
(** Shared buffers of the capture backends, and the judge that watches them.

    The judge knows every pool and buffer the client has created and the bytes in
    each; the protocol on top of it, a parameter, says which buffer the compositor may
    write, which the client may read, and which it may not destroy. *)

From S2P Require Import Prelude Delta Floats ServerPipeline CaptureThread CaptureIo CaptureLogic.

(** ** The judge *)

Record shape := mkShape { sh_width : Z; sh_height : Z; sh_stride : Z; sh_format : Z }.

#[export] Instance shape_eq_dec : EqDecision shape.
Proof. solve_decision. Defined.

Definition sh_bytes (s : shape) : Z := sh_stride s * sh_height s.

(** A shape a shared-memory buffer can have: a pool's size is an [i32]. *)
Definition shape_ok (s : shape) : Prop :=
  0 < sh_width s /\ 0 < sh_height s /\ 0 < sh_stride s /\
  sh_width s < 2 ^ 31 /\ sh_bytes s < 2 ^ 31.

#[export] Instance shape_ok_dec s : Decision (shape_ok s).
Proof. unfold shape_ok. apply _. Defined.

Record buffer := mkBuf { b_shape : shape; b_bytes : list Z }.

(** [m_pools] gives sizes; [F] is the protocol's state. *)
Record Mon (F : Type) := mkMon { m_pools : gmap Z Z; m_bufs : gmap Z buffer; m_proto : F }.
Arguments mkMon {F}. Arguments m_pools {F}. Arguments m_bufs {F}. Arguments m_proto {F}.

Definition with_proto {F} (m : Mon F) (f : F) : Mon F := mkMon (m_pools m) (m_bufs m) f.

(** A protocol: who may touch a buffer, and its own rules for the rest of the log. *)
Class Protocol (F E : Type) := {
  writable : F -> Z -> bool;
  readable : F -> Z -> bool;
  held : F -> Z -> bool;
  proto_rules : Mon F -> obs E -> verdict (Mon F)
}.

Section Judge.
Context {F E : Type} `{Protocol F E}.

Definition mem_rules (m : Mon F) (o : obs E) : verdict (Mon F) :=
  match o with
  | Req (CreatePool p size) =>
      if decide (m_pools m !! p = None /\ 0 < size)
      then Fine (mkMon (<[p := size]> (m_pools m)) (m_bufs m) (m_proto m)) else ClientWrong
  | Req (CreateBuffer b p off w h stride format) =>
      match m_pools m !! p with
      | Some size =>
          if decide (m_bufs m !! b = None /\ 0 <= off /\ 0 < w /\ 0 < h /\ w * 4 <= stride /\
                     off + stride * h <= size)
          then Fine (mkMon (m_pools m)
                 (<[b := mkBuf (mkShape w h stride format) (replicate (Z.to_nat (stride * h)) 0)]> (m_bufs m))
                 (m_proto m))
          else ClientWrong
      | None => ClientWrong
      end
  | Req (DestroyBuffer b) =>
      if decide (is_Some (m_bufs m !! b) /\ held (m_proto m) b = false)
      then Fine (mkMon (m_pools m) (delete b (m_bufs m)) (m_proto m)) else ClientWrong
  | Req (DestroyPool p) =>
      if decide (is_Some (m_pools m !! p))
      then Fine (mkMon (delete p (m_pools m)) (m_bufs m) (m_proto m)) else ClientWrong
  | Act (WriteBuffer b bytes) =>
      match m_bufs m !! b with
      | Some buf =>
          if decide (writable (m_proto m) b = true /\ zlen bytes = zlen (b_bytes buf) /\
                     Forall (fits 8) bytes)
          then Fine (mkMon (m_pools m) (<[b := mkBuf (b_shape buf) bytes]> (m_bufs m)) (m_proto m))
          else CompWrong
      | None => CompWrong
      end
  | ReadBuffer b => if readable (m_proto m) b then Fine m else ClientWrong
  | _ => proto_rules m o
  end.

(** ** The invariant of the memory *)

(** The client's mappings are the buffers; ids not yet given out name nothing. *)
Definition mem_inv (mem : gmap Z (list Z)) (next : Z) (m : Mon F) : Prop :=
  mem = b_bytes <$> m_bufs m /\
  (forall k, is_Some (m_bufs m !! k) -> k < next) /\ (forall k, is_Some (m_pools m !! k) -> k < next).

Definition pool_shape (p : ShmBufferPool) : shape :=
  mkShape (sp_width p) (sp_height p) (sp_stride p) (sp_format p).

(** A buffer of that shape, holding bytes. *)
Definition buf_ok (s : shape) (b : option buffer) : Prop :=
  exists bytes, b = Some (mkBuf s bytes) /\ zlen bytes = sh_bytes s /\ bytes_ok bytes.

(** The pool's objects live, its two buffers distinct. *)
Definition pool_live (p : ShmBufferPool) (m : Mon F) : Prop :=
  let '(s0, s1) := sp_slots p in
  shape_ok (pool_shape p) /\ (sp_active p = 0 \/ sp_active p = 1) /\
  sl_buffer s0 <> sl_buffer s1 /\ sl_pool s0 <> sl_pool s1 /\
  buf_ok (pool_shape p) (m_bufs m !! sl_buffer s0) /\
  buf_ok (pool_shape p) (m_bufs m !! sl_buffer s1) /\
  is_Some (m_pools m !! sl_pool s0) /\ is_Some (m_pools m !! sl_pool s1).

(** Nothing else is alive. *)
Definition pool_only (p : option ShmBufferPool) (m : Mon F) : Prop :=
  match p with
  | None => m_bufs m = ∅ /\ m_pools m = ∅
  | Some p =>
      dom (m_bufs m) = {[sl_buffer (sp_slots p).1; sl_buffer (sp_slots p).2]} /\
      dom (m_pools m) = {[sl_pool (sp_slots p).1; sl_pool (sp_slots p).2]}
  end.

Definition pool_inv (p : option ShmBufferPool) (m : Mon F) : Prop :=
  pool_only p m /\ match p with Some p => pool_live p m | None => True end.

Lemma pool_live_active p m : pool_live p m ->
  exists s, active_slot p = Some s /\ buf_ok (pool_shape p) (m_bufs m !! sl_buffer s) /\
    shape_ok (pool_shape p).
Proof.
  unfold pool_live, active_slot. destruct (sp_slots p) as [s0 s1] eqn:E1. cbn.
  intros (Hs & [-> | ->] & _ & _ & H0 & H1 & _); eexists; split_and!; try done.
Qed.

Lemma pool_live_swap p m : pool_live p m -> pool_live (pool_swap p) m.
Proof.
  unfold pool_live, pool_swap. destruct (sp_slots p) as [s0 s1]. cbn.
  intros (Hs & Ha & ?&?&?&?&?&?). split_and!; try done. destruct Ha as [-> | ->]; [right|left]; done.
Qed.

Lemma pool_inv_swap p m : pool_inv (Some p) m -> pool_inv (Some (pool_swap p)) m.
Proof. intros [Ho Hl]. split; [exact Ho|by apply pool_live_swap]. Qed.

Lemma pool_inv_proto p m f : pool_inv p m -> pool_inv p (with_proto m f).
Proof. done. Qed.

(** A write by the compositor keeps both. *)
Lemma write_kept mem next (m : Mon F) b bytes m' :
  mem_inv mem next m -> mem_rules m (Act (WriteBuffer b bytes)) = Fine m' ->
  mem_inv (write_mem mem b bytes) next m' /\ m_proto m' = m_proto m /\
  (forall p, pool_inv p m -> pool_inv p m').
Proof.
  intros (-> & Hb & Hp). cbn. destruct (m_bufs m !! b) as [buf|] eqn:Eb; [|done].
  case_decide as Hd; [|done]. destruct Hd as (_ & Hl & Hbytes). intros [= <-]. split_and!.
  - unfold mem_inv, write_mem. rewrite lookup_fmap, Eb. cbn. rewrite Hl, Z.eqb_refl.
    split_and!; [by rewrite fmap_insert| |done].
    intros k. destruct (decide (k = b)) as [->|]; [intros _; apply Hb; by eexists|].
    rewrite lookup_insert_ne by done. apply Hb.
  - done.
  - intros p [Ho Hv]. destruct p as [p|].
    + split.
      * destruct Ho as [Ho1 Ho2]. split; [|done]. cbn. rewrite dom_insert_L, <- Ho1.
        assert (b ∈ dom (m_bufs m)) by (apply elem_of_dom; by eexists). set_solver.
      * unfold pool_live in *. destruct (sp_slots p) as [s0 s1]. cbn.
        destruct Hv as (?&?&?&?&H0&H1&?&?). split_and!; try done.
        -- destruct (decide (sl_buffer s0 = b)) as [<-|]; [|by rewrite lookup_insert_ne].
           destruct H0 as (x & E1 & Hx & _). rewrite E1 in Eb. injection Eb as <-.
           rewrite lookup_insert_eq. exists bytes. split_and!; [done|by rewrite Hl|done].
        -- destruct (decide (sl_buffer s1 = b)) as [<-|]; [|by rewrite lookup_insert_ne].
           destruct H1 as (x & E1 & Hx & _). rewrite E1 in Eb. injection Eb as <-.
           rewrite lookup_insert_eq. exists bytes. split_and!; [done|by rewrite Hl|done].
    + destruct Ho as [Ho _]. by rewrite Ho, lookup_empty in Eb.
Qed.
End Judge.

(** ** Making and dropping pools *)

Section Pools.
Context {S F E : Type} `{Protocol F E} (start : Mon F).
Abbreviation trip := (triple (S:=S) (mem_rules (F:=F) (E:=E)) start).

(** The world and the judge, but for the fresh ids: the state, the buffers, the pools
    and the protocol's state, and a lower bound of the next id. *)
Definition frozen (st : S) (bufs : gmap Z buffer) (pools : gmap Z Z) (f : F) (n : Z)
    (w : world S E) (m : Mon F) : Prop :=
  on (fun st' mem next m => st' = st /\ m_bufs m = bufs /\ m_pools m = pools /\ m_proto m = f /\
        n <= next /\ mem_inv mem next m) w m.

Lemma triple_frozen_pure st bufs pools f n {A} (o : option A) e (Post : A -> world S E -> Mon F -> Prop) :
  (forall a, o = Some a -> forall w m, frozen st bufs pools f n w m -> Post a w m) ->
  trip (frozen st bufs pools f n) (ok_or o e) Post (frozen st bufs pools f n).
Proof. intros H1. apply triple_ok_or; [intros a w m Ha; by apply H1|done]. Qed.

(** Ids are given out once. *)
Lemma triple_fresh st bufs pools f n Err :
  trip (frozen st bufs pools f n) fresh
    (fun i w m => frozen st bufs pools f (i + 1) w m /\ n <= i /\ bufs !! i = None /\ pools !! i = None)
    Err.
Proof.
  apply triple_silent. intros w. eexists _, _. split_and!; [done|done|].
  intros m (Est & <- & <- & <- & Hn & Hmem & Hb & Hp).
  assert (Hnone : forall A (g : gmap Z A), (forall k, is_Some (g !! k) -> k < w_next w) -> g !! w_next w = None).
  { intros A g Hg. apply eq_None_not_Some. intros Hs. specialize (Hg _ Hs). lia. }
  split_and!; [|done|by apply Hnone|by apply Hnone].
  unfold frozen, on, mem_inv. cbn. split_and!; try done.
  - intros k Hk. specialize (Hb k Hk). lia.
  - intros k Hk. specialize (Hp k Hk). lia.
Qed.

Lemma i32_small n : 0 <= n < 2 ^ 31 -> i32 n = n.
Proof.
  intros Hn. unfold i32, to_signed. change (2 ^ 31) with 2147483648 in *.
  rewrite wrap_small by (unfold fits; change (2 ^ 32) with 4294967296; lia).
  change (2 ^ (32 - 1)) with 2147483648. destruct (Z.ltb_spec n 2147483648); lia.
Qed.

Definition zeroed (s : shape) : buffer := mkBuf s (replicate (Z.to_nat (sh_bytes s)) 0).

Lemma triple_slot_new st bufs pools f n (s : shape) :
  shape_ok s -> sh_width s * 4 <= sh_stride s ->
  trip (frozen st bufs pools f n)
    (ShmSlot_new (sh_width s) (sh_height s) (sh_stride s) (sh_format s) (sh_bytes s))
    (fun sl w m => bufs !! sl_buffer sl = None /\ pools !! sl_pool sl = None /\ n <= sl_buffer sl /\
       n <= sl_pool sl /\
       frozen st (<[sl_buffer sl := zeroed s]> bufs) (<[sl_pool sl := sh_bytes s]> pools) f
         (Z.max (sl_buffer sl) (sl_pool sl) + 1) w m)
    (frozen st bufs pools f n).
Proof.
  intros (Hw & Hh & Hs & Hw31 & Hb31) Hstride. unfold ShmSlot_new.
  assert (Hpos : 0 < sh_bytes s) by (unfold sh_bytes; nia).
  assert (Hh31 : sh_height s < 2 ^ 31 /\ sh_stride s < 2 ^ 31) by (unfold sh_bytes in *; nia).
  assert (Hcall : trip (frozen st bufs pools f n) mem_call (fun _ => frozen st bufs pools f n)
    (frozen st bufs pools f n)).
  { split.
    - intros w. unfold mem_call. exists []. destruct (w_calls w); by rewrite app_nil_r.
    - intros w m Hj HP. unfold mem_call. unfold judged in Hj.
      destruct (w_calls w); unfold fair, judged; cbn [w_log]; rewrite Hj; [done|exact HP]. }
  eapply triple_bind; [exact Hcall|]. intros []; [|by apply triple_throw..].
  eapply triple_bind; [apply triple_fresh|]. intros p. cbn beta.
  eapply (triple_bind _ _ _ _ _ (fun b w m => frozen st bufs pools f (b + 1) w m /\ p < b /\ n <= p /\
    bufs !! b = None /\ pools !! p = None)).
  { split; [apply (triple_fresh st bufs pools f 0 (fun _ _ => True))|].
    intros w m Hj (HP & Hn & _ & Hp).
    pose proof (proj2 (triple_fresh st bufs pools f (p + 1) (fun _ _ => True)) w m Hj HP) as Hf.
    destruct (fresh w) as [w' [b|e]|w'|w'] eqn:Ef; try done.
    eapply fair_mono; [|exact Hf]. intros m' _ (? & ? & ? & ?). split_and!; try done; lia. }
  intros b. eapply (triple_bind _ _ _ _ _ (fun _ w m => exists m0,
    frozen st bufs pools f (b + 1) (mkWorld (w_st w) (w_mem w) (w_next w) [] [] [] []) m0 /\ p < b /\ n <= p /\
    bufs !! b = None /\ pools !! p = None /\
    m = mkMon (<[p := sh_bytes s]> pools) (<[b := zeroed s]> bufs) f)).
  { apply triple_log. intros w m (HP & Hpb & Hn & Hb & Hp). rewrite !i32_small by lia.
    pose proof HP as (_ & Eb & Ep & Ef & _).
    assert (E1 : mem_rules (E:=E) m (Req (CreatePool p (sh_bytes s))) =
                 Fine (mkMon (<[p := sh_bytes s]> pools) bufs f)).
    { cbn. rewrite Ep, decide_True by done. by rewrite Eb, Ef. }
    assert (E2 : mem_rules (E:=E) (mkMon (<[p := sh_bytes s]> pools) bufs f)
        (Req (CreateBuffer b p 0 (sh_width s) (sh_height s) (sh_stride s) (sh_format s))) =
      Fine (mkMon (<[p := sh_bytes s]> pools) (<[b := zeroed s]> bufs) f)).
    { cbn. rewrite lookup_insert_eq. fold (sh_bytes s). rewrite decide_True by (split_and!; try done; lia).
      unfold zeroed. by destruct s. }
    cbn [fmap list_fmap foldl judge_step]. rewrite E1. cbn [judge_step]. rewrite E2.
    exists m. by split_and!. }
  intros []. apply triple_get_mem. intros mem.
  eapply triple_bind; [eapply (triple_set_mem _ _ _ _ (fun _ w m =>
     bufs !! b = None /\ pools !! p = None /\ n <= b /\ n <= p /\
     frozen st (<[b := zeroed s]> bufs) (<[p := sh_bytes s]> pools) f (Z.max b p + 1) w m))|].
  - intros w m [(m0 & (Est & Eb & Ep & Ef & Hn0 & Hmem & Hbi & Hpi) & Hpb & Hn & Hb & Hp & ->) Ew].
    cbn in *. split_and!; try done; [lia|]. unfold frozen, on, mem_inv. cbn. rewrite Z.max_l by lia.
    split_and!; try done.
    + rewrite fmap_insert. f_equal. by rewrite <- Ew, Hmem, Eb.
    + intros k. destruct (decide (k = b)) as [->|]; [lia|]. rewrite lookup_insert_ne, <- Eb by done. apply Hbi.
    + intros k. destruct (decide (k = p)) as [->|]; [lia|]. rewrite lookup_insert_ne, <- Ep by done. apply Hpi.
  - intros []. by apply triple_ret.
Qed.

Lemma frozen_weaken st bufs pools f n n' w m :
  n <= n' -> frozen st bufs pools f n' w m -> frozen st bufs pools f n w m.
Proof. intros Hn (?&?&?&?&?&?). split_and!; try done. unfold on in *. lia. Qed.

Lemma triple_slot_drop st bufs pools f n sl Err :
  is_Some (bufs !! sl_buffer sl) -> is_Some (pools !! sl_pool sl) -> held f (sl_buffer sl) = false ->
  trip (frozen st bufs pools f n) (ShmSlot_drop sl)
    (fun _ => frozen st (delete (sl_buffer sl) bufs) (delete (sl_pool sl) pools) f n) Err.
Proof.
  intros Hb Hp Hh. unfold ShmSlot_drop.
  eapply (triple_bind _ _ _ _ _ (fun _ w m => exists m0, frozen st bufs pools f n
      (mkWorld (w_st w) (w_mem w) (w_next w) [] [] [] []) m0 /\
    m = mkMon (delete (sl_pool sl) pools) (delete (sl_buffer sl) bufs) f)).
  { apply triple_log. intros w m HP. pose proof HP as (_ & Eb & Ep & Ef & _).
    assert (E1 : mem_rules (E:=E) m (Req (DestroyBuffer (sl_buffer sl))) =
                 Fine (mkMon pools (delete (sl_buffer sl) bufs) f)).
    { cbn. rewrite Eb, Ef, Ep, decide_True by done. done. }
    assert (E2 : mem_rules (E:=E) (mkMon pools (delete (sl_buffer sl) bufs) f)
                   (Req (DestroyPool (sl_pool sl))) =
                 Fine (mkMon (delete (sl_pool sl) pools) (delete (sl_buffer sl) bufs) f)).
    { cbn. by rewrite decide_True. }
    cbn [fmap list_fmap foldl judge_step]. rewrite E1. cbn [judge_step]. rewrite E2.
    by exists m. }
  intros []. apply triple_get_mem. intros mem. apply triple_set_mem.
  intros w m [(m0 & (Est & Eb & Ep & Ef & Hn & Hmem & Hbi & Hpi) & ->) Ew]. cbn in *.
  unfold frozen, on, mem_inv. cbn. split_and!; try done.
  - by rewrite fmap_delete, <- Ew, Hmem, Eb.
  - intros k Hk. apply Hbi. rewrite Eb. destruct (decide (k = sl_buffer sl)) as [->|]; [done|].
    by rewrite lookup_delete_ne in Hk.
  - intros k Hk. apply Hpi. rewrite Ep. destruct (decide (k = sl_pool sl)) as [->|]; [done|].
    by rewrite lookup_delete_ne in Hk.
Qed.

Lemma zeroed_ok s : shape_ok s -> buf_ok s (Some (zeroed s)).
Proof.
  intros (Hw & Hh & Hs & _). eexists. split_and!; [done| |].
  - unfold zlen, sh_bytes. rewrite length_replicate. nia.
  - apply list.Forall_replicate. by unfold fits.
Qed.

Lemma growing_slot_new w h stride format size :
  growing (ShmSlot_new (S:=S) (E:=E) w h stride format size).
Proof.
  unfold ShmSlot_new, mem_call. apply growing_bind.
  { apply growing_silent. intros wd. by destruct (w_calls wd). }
  intros a. growing_tac.
Qed.

Lemma growing_slot_drop sl : growing (ShmSlot_drop (S:=S) (E:=E) sl).
Proof. unfold ShmSlot_drop. growing_tac. Qed.

(** [ShmBufferPool::new] leaves exactly its pool, or, failing, nothing. *)
Lemma triple_pool_new st f n w h stride format :
  shape_ok (mkShape w h stride format) -> (forall b, held f b = false) ->
  trip (frozen st ∅ ∅ f n) (ShmBufferPool_new w h stride format)
    (fun p wd m => pool_shape p = mkShape w h stride format /\ pool_inv (Some p) m /\
       exists bufs pools, frozen st bufs pools f n wd m)
    (frozen st ∅ ∅ f n).
Proof.
  intros Hok Hheld. unfold ShmBufferPool_new, checked_mul.
  destruct (Z.ltb_spec (w * 4) (2 ^ 64)); [|by apply triple_throw_bind]. apply triple_ret_bind.
  destruct (Z.ltb_spec stride (w * 4)); [by apply triple_throw|].
  destruct (Z.ltb_spec (stride * h) (2 ^ 64)); [|by apply triple_throw_bind]. apply triple_ret_bind.
  destruct (Z.eqb_spec (stride * h) 0); [by apply triple_throw|].
  set (s := mkShape w h stride format) in *.
  eapply triple_bind; [by apply (triple_slot_new st ∅ ∅ f n s)|]. intros s0. cbn beta.
  eapply (triple_bind _ _ _ _ _ (fun s1 wd m => (sl_buffer s0 <> sl_buffer s1 /\ sl_pool s0 <> sl_pool s1) /\
    frozen st (<[sl_buffer s1 := zeroed s]> {[sl_buffer s0 := zeroed s]})
      (<[sl_pool s1 := sh_bytes s]> {[sl_pool s0 := sh_bytes s]}) f n wd m)).
  - apply triple_on_error with (Err' := frozen st {[sl_buffer s0 := zeroed s]} {[sl_pool s0 := sh_bytes s]} f n).
    + eapply triple_pre with (P' := fun wd m => (n <= sl_buffer s0 /\ n <= sl_pool s0) /\
        frozen st {[sl_buffer s0 := zeroed s]} {[sl_pool s0 := sh_bytes s]} f
          (Z.max (sl_buffer s0) (sl_pool s0) + 1) wd m).
      * apply triple_pure; [apply growing_slot_new|]. intros [Hb0 Hp0].
        eapply triple_conseq; [by apply triple_slot_new with (s := s)|done|..].
        -- intros s1 wd m (Hb & Hp & Hb1 & Hp1 & HF). split.
           ++ by rewrite lookup_singleton_None in Hb; rewrite lookup_singleton_None in Hp.
           ++ eapply frozen_weaken; [|exact HF]. lia.
        -- intros wd m. apply frozen_weaken. lia.
      * intros wd m (_ & _ & ? & ? & ?). by split.
    + eapply triple_conseq; [apply triple_slot_drop with (bufs := {[sl_buffer s0 := zeroed s]})
        (pools := {[sl_pool s0 := sh_bytes s]})|..].
      * rewrite lookup_singleton_eq. by eexists.
      * rewrite lookup_singleton_eq. by eexists.
      * apply Hheld.
      * done.
      * intros [] wd m. by rewrite !delete_singleton_eq.
      * done.
  - intros s1. apply triple_ret. intros wd m [[Hb Hp] HF]. split; [done|].
    pose proof HF as (_ & Eb & Ep & _). split; [|by eexists _, _]. split.
    + cbn. rewrite Eb, Ep. set_solver.
    + unfold pool_live. cbn. rewrite Eb, Ep. split_and!; try done; [by left|..].
      * rewrite lookup_insert_ne, lookup_singleton_eq by done. by apply zeroed_ok.
      * rewrite lookup_insert_eq. by apply zeroed_ok.
      * rewrite lookup_insert_ne, lookup_singleton_eq by done. by eexists.
      * rewrite lookup_insert_eq. by eexists.
Qed.

Lemma delete_two {A} (m : gmap Z A) a b : dom m = {[a; b]} -> delete b (delete a m) = ∅.
Proof.
  intros Hd. apply map_empty. intros k. destruct (decide (k = b)) as [->|]; [by rewrite lookup_delete_eq|].
  rewrite lookup_delete_ne by done. destruct (decide (k = a)) as [->|]; [by rewrite lookup_delete_eq|].
  rewrite lookup_delete_ne by done. apply not_elem_of_dom. rewrite Hd. set_solver.
Qed.

(** Dropping a pool leaves nothing. *)
Lemma triple_pool_drop st bufs pools f n p Err :
  (forall b, held f b = false) -> pool_inv (Some p) (mkMon pools bufs f) ->
  trip (frozen st bufs pools f n) (ShmBufferPool_drop p) (fun _ => frozen st ∅ ∅ f n) Err.
Proof.
  intros Hheld [[Hdb Hdp] Hl]. unfold pool_live in Hl. unfold ShmBufferPool_drop.
  destruct (sp_slots p) as [s0 s1] eqn:E1. cbn in *.
  destruct Hl as (_ & _ & Hb & Hp & (x0 & H0 & _) & (x1 & H1 & _) & P0 & P1).
  eapply triple_bind; [by apply triple_slot_drop; rewrite ?H0|]. intros [].
  eapply triple_conseq; [apply (triple_slot_drop st (delete (sl_buffer s0) bufs)
    (delete (sl_pool s0) pools) f n s1 Err)|done| |done].
  - rewrite lookup_delete_ne by done. by eexists.
  - by rewrite lookup_delete_ne.
  - apply Hheld.
  - intros [] w m. by rewrite (delete_two bufs), (delete_two pools).
Qed.

Lemma growing_active_data p : growing (active_data (S:=S) (E:=E) p).
Proof. unfold active_data. growing_tac. Qed.

(** Reading the active buffer gives its content. *)
Lemma triple_active_data p (P : world S E -> Mon F -> Prop) Err :
  (forall w m, P w m -> mem_inv (w_mem w) (w_next w) m /\ pool_live p m /\
     forall sl, active_slot p = Some sl -> readable (m_proto m) (sl_buffer sl) = true) ->
  (forall w m os, P w m -> P (with_log os w) m) ->
  trip P (active_data p)
    (fun data w m => P w m /\ exists sl, active_slot p = Some sl /\
       m_bufs m !! sl_buffer sl = Some (mkBuf (pool_shape p) data) /\
       zlen data = sh_bytes (pool_shape p) /\ bytes_ok data) Err.
Proof.
  intros HP HL. unfold active_data. destruct (active_slot p) as [sl|] eqn:Es.
  2: { apply triple_false; [by apply growing_silent|]. intros w m Hw.
       destruct (HP w m Hw) as (_ & Hl & _). apply pool_live_active in Hl as (sl & E1 & _). congruence. }
  apply triple_get_mem. intros mem.
  eapply triple_pre with (P' := fun w m => (exists data, mem !! sl_buffer sl = Some data /\
    slice data 0 (pool_buffer_size p) = Some data /\ zlen data = sh_bytes (pool_shape p) /\ bytes_ok data) /\
    (P w m /\ w_mem w = mem)).
  2: { intros w m [Hw <-]. split; [|done]. destruct (HP w m Hw) as ((-> & _) & Hl & _).
       apply pool_live_active in Hl as (sl' & E1 & (x & E2 & Hx & Hb) & Hok).
       rewrite Es in E1. injection E1 as <-. exists x. rewrite lookup_fmap, E2. split_and!; try done.
       unfold pool_buffer_size. change (sp_stride p * sp_height p) with (sh_bytes (pool_shape p)).
       destruct Hok as (Hw0 & Hh & Hs & _ & Hb31). change (2 ^ 31) with 2147483648 in Hb31.
       assert (0 <= sh_bytes (pool_shape p)) by (unfold sh_bytes; nia).
       rewrite wrap_small by width_lia. unfold slice. rewrite decide_True by lia.
       change (Z.to_nat 0) with 0%nat. rewrite drop_0, Z.sub_0_r.
       rewrite <- Hx. unfold zlen. by rewrite Nat2Z.id, firstn_all. }
  apply triple_pure; [destruct (_ ≫= _); growing_tac; by apply growing_silent|].
  intros (data & E1 & E2 & Hlen & Hb). rewrite E1. cbn [mbind option_bind]. rewrite E2.
  apply (triple_bind _ _ _ _ _ (fun _ w m => P w m /\ w_mem w = mem)).
  - apply triple_log. intros w m [Hw Ew]. destruct (HP w m Hw) as (_ & _ & Hr). cbn.
    rewrite (Hr sl eq_refl). split; [by apply HL|done].
  - intros []. apply triple_ret. intros w m [Hw <-]. split; [done|]. exists sl. split; [done|].
    destruct (HP w m Hw) as ((Em & _) & Hl & _).
    apply pool_live_active in Hl as (sl' & E3 & (x & E4 & Hx & _) & _).
    rewrite Es in E3. injection E3 as <-. rewrite Em, lookup_fmap, E4 in E1. injection E1 as ->. done.
Qed.
End Pools.
