(* ===== verification/Screencopy.v ===== *)
(** The wlr-screencopy backend ([crates/remoteway-capture/src/screencopy.rs]): its
    event handlers, its constructor and [next_frame]. *)

From stdpp Require Import strings.
From S2P Require Import Prelude Delta DesktopDetect ServerPipeline CaptureThread CaptureIo.

(** ** State *)

Record DiscoveredOutput := mkDiscoveredOutput { do_wl_output : Z; do_name : text; do_global : Z }.

Record ScreencopyState := mkScreencopy {
  sc_shm : option Z; sc_pool : option ShmBufferPool; sc_manager : option Z;
  sc_discovered : list DiscoveredOutput; sc_output : option Z;
  sc_ready : bool; sc_failed : bool; sc_buffer_done : bool;
  sc_damage : list DamageRect; sc_format : option PixelFormat;
  sc_width : Z; sc_height : Z; sc_stride : Z; sc_format_raw : Z; sc_wl_format : option Z;
  sc_timestamp : Z; sc_attached : bool; sc_stopped : bool }.

Definition ScreencopyState_empty : ScreencopyState :=
  mkScreencopy None None None [] None false false false [] None 0 0 0 0 None 0 false false.

(** ** Events *)

(** Of the registry, of an output by its global, and of the frame; a format the
    library does not know is [None]. *)
Inductive sc_event :=
  | ScGlobal (name : Z) (interface : text) (version : Z)
  | ScOutputName (global : Z) (name : text)
  | ScBuffer (format : option Z) (width height stride : Z)
  | ScBufferDone
  | ScDamage (x y width height : Z)
  | ScReady (tv_sec_hi tv_sec_lo tv_nsec : Z)
  | ScFailed
  | ScOther.

Definition screencopy_manager_v1 : text := str "zwlr_screencopy_manager_v1".

(** [iter_mut().find(global)]: the first output of that global gets the name. *)
Fixpoint name_output (global : Z) (name : text) (l : list DiscoveredOutput) : list DiscoveredOutput :=
  match l with
  | [] => []
  | o :: l =>
      if do_global o =? global then mkDiscoveredOutput (do_wl_output o) name global :: l
      else o :: name_output global name l
  end.

Definition registry_global (st : ScreencopyState) (name : Z) (interface : text) (version : Z)
    : ScreencopyState * list cap_req :=
  let with_globals shm manager outputs :=
    mkScreencopy shm (sc_pool st) manager outputs (sc_output st) (sc_ready st) (sc_failed st)
      (sc_buffer_done st) (sc_damage st) (sc_format st) (sc_width st) (sc_height st) (sc_stride st)
      (sc_format_raw st) (sc_wl_format st) (sc_timestamp st) (sc_attached st) (sc_stopped st) in
  if bool_decide (interface = str "wl_shm") then
    (with_globals (Some name) (sc_manager st) (sc_discovered st),
     [BindGlobal name interface (Z.min version 2)])
  else if bool_decide (interface = str "wl_output") then
    (with_globals (sc_shm st) (sc_manager st) (sc_discovered st ++ [mkDiscoveredOutput name [] name]),
     [BindGlobal name interface (Z.min version 4)])
  else if bool_decide (interface = screencopy_manager_v1) then
    (with_globals (sc_shm st) (Some name) (sc_discovered st),
     [BindGlobal name interface (Z.min version 3)])
  else (st, []).

(** The per-frame fields, all at once. *)
Definition with_frame (st : ScreencopyState) (ready failed done_ : bool) (damage : list DamageRect)
    (timestamp : Z) (attached : bool) : ScreencopyState :=
  mkScreencopy (sc_shm st) (sc_pool st) (sc_manager st) (sc_discovered st) (sc_output st) ready failed
    done_ damage (sc_format st) (sc_width st) (sc_height st) (sc_stride st) (sc_format_raw st)
    (sc_wl_format st) timestamp attached (sc_stopped st).

Definition with_pool (st : ScreencopyState) (pool : option ShmBufferPool) : ScreencopyState :=
  mkScreencopy (sc_shm st) pool (sc_manager st) (sc_discovered st) (sc_output st) (sc_ready st)
    (sc_failed st) (sc_buffer_done st) (sc_damage st) (sc_format st) (sc_width st) (sc_height st)
    (sc_stride st) (sc_format_raw st) (sc_wl_format st) (sc_timestamp st) (sc_attached st) (sc_stopped st).

(** [((hi as u64) << 32 | lo as u64) * 1_000_000_000 + nsec]. *)
Definition timestamp_of (hi lo nsec : Z) : Z :=
  wrap 64 (wrap 64 (Z.lor (wrap 64 (Z.shiftl hi 32)) lo * 10 ^ 9) + nsec).

Definition sc_handle (st : ScreencopyState) (ev : sc_event) : ScreencopyState * list cap_req :=
  match ev with
  | ScGlobal name interface version => registry_global st name interface version
  | ScOutputName global name =>
      (mkScreencopy (sc_shm st) (sc_pool st) (sc_manager st)
         (name_output global name (sc_discovered st)) (sc_output st) (sc_ready st) (sc_failed st)
         (sc_buffer_done st) (sc_damage st) (sc_format st) (sc_width st) (sc_height st) (sc_stride st)
         (sc_format_raw st) (sc_wl_format st) (sc_timestamp st) (sc_attached st) (sc_stopped st), [])
  | ScBuffer None _ _ _ =>
      (with_frame st (sc_ready st) true (sc_buffer_done st) (sc_damage st) (sc_timestamp st)
         (sc_attached st), [])
  | ScBuffer (Some format) width height stride =>
      (mkScreencopy (sc_shm st) (sc_pool st) (sc_manager st) (sc_discovered st) (sc_output st)
         (sc_ready st) (sc_failed st) (sc_buffer_done st) (sc_damage st) (from_wl_shm format) width
         height stride format (Some format) (sc_timestamp st) (sc_attached st) (sc_stopped st), [])
  | ScBufferDone =>
      (with_frame st (sc_ready st) (sc_failed st) true (sc_damage st) (sc_timestamp st)
         (sc_attached st), [])
  | ScDamage x y width height =>
      (with_frame st (sc_ready st) (sc_failed st) (sc_buffer_done st)
         (sc_damage st ++ [DamageRect_new x y width height]) (sc_timestamp st) (sc_attached st), [])
  | ScReady hi lo nsec =>
      (with_frame st true (sc_failed st) (sc_buffer_done st) (sc_damage st)
         (timestamp_of hi lo nsec) (sc_attached st), [])
  | ScFailed =>
      (with_frame st (sc_ready st) true (sc_buffer_done st) (sc_damage st) (sc_timestamp st)
         (sc_attached st), [])
  | ScOther => (st, [])
  end.

(** ** Operations *)

(** [Vec::swap_remove]: the last element takes the place of the one removed. *)
Definition swap_remove {A} (l : list A) (i : nat) : option (A * list A) :=
  x ← l !! i;
  y ← list.last l;
  Some (x, if decide (S i = length l) then take i l else take i l ++ [y] ++ take (length l - i - 2) (drop (S i) l)).

(** [.iter().position(|o| o.name == name)]. *)
Definition output_position (name : text) (l : list DiscoveredOutput) : option nat :=
  fst <$> list_find (fun o => do_name o = name) l.

Definition WlrScreencopyBackend_new (connected : bool) (output_name : option text) : cap ScreencopyState sc_event unit :=
  if negb connected then throw WaylandConnect
  else
    roundtrip sc_handle;;
    st ← get_st;
    if negb (bool_decide (is_Some (sc_manager st))) then throw NoBackend
    else if negb (bool_decide (is_Some (sc_shm st))) then throw (CaptureFailed (str "wl_shm not available"))
    else if bool_decide (sc_discovered st = []) then throw NoOutputs
    else
      roundtrip sc_handle;;
      st ← get_st;
      idx ← match output_name with
        | Some name => ok_or (output_position name (sc_discovered st)) (OutputNotFound name)
        | None => mret 0%nat
        end;
      match swap_remove (sc_discovered st) idx with
      | None => crash
      | Some (selected, rest) =>
          put_st (mkScreencopy (sc_shm st) (sc_pool st) (sc_manager st) rest
                    (Some (do_wl_output selected)) (sc_ready st) (sc_failed st) (sc_buffer_done st)
                    (sc_damage st) (sc_format st) (sc_width st) (sc_height st) (sc_stride st)
                    (sc_format_raw st) (sc_wl_format st) (sc_timestamp st) (sc_attached st)
                    (sc_stopped st))
      end.

Definition compositor_failed : CaptureError := CaptureFailed (str "compositor reported capture failure").

(** A timeout destroys the frame and gives up. *)
Definition on_timeout (frame : Z) (why : string) : cap ScreencopyState sc_event unit :=
  tell [DestroyFrame frame];; throw (CaptureFailed (str why)).

Definition needs_new_pool (st : ScreencopyState) (prev_pool_format : option Z) (wl_format : Z) : bool :=
  match sc_pool st with
  | Some pool =>
      negb (sp_width pool =? sc_width st) || negb (sp_height pool =? sc_height st) ||
      negb (sp_stride pool =? sc_stride st) || negb (bool_decide (prev_pool_format = Some wl_format))
  | None => true
  end.

(** Between the phases: a pool of the announced shape. *)
Definition ensure_pool (prev_pool_format : option Z) (wl_format : Z) : cap ScreencopyState sc_event unit :=
  st ← get_st;
  if needs_new_pool st prev_pool_format wl_format then
    ok_or (sc_shm st) (CaptureFailed (str "wl_shm not available"));;
    put_st (with_pool st None);;
    (match sc_pool st with Some old => ShmBufferPool_drop old | None => mret tt end);;
    pool ← ShmBufferPool_new (sc_width st) (sc_height st) (sc_stride st) wl_format;
    put_st (with_pool st (Some pool))
  else mret tt.

(** Phase one: until the compositor has announced the buffer. *)
Definition phase1 (frame : Z) : cap ScreencopyState sc_event unit :=
  wait_while sc_handle
    (fun st => negb (sc_buffer_done st) && negb (sc_failed st) && negb (sc_stopped st))
    (on_timeout frame "phase1 timeout: BufferDone not received within 1s").

(** Phase two: until the frame is ready. *)
Definition phase2 (frame : Z) : cap ScreencopyState sc_event unit :=
  wait_while sc_handle
    (fun st => negb (sc_ready st) && negb (sc_failed st) && negb (sc_stopped st))
    (on_timeout frame "phase2 timeout: frame not Ready within 1s").

Definition attach_and_copy (frame : Z) : cap ScreencopyState sc_event unit :=
  st ← get_st;
  pool ← ok_or (sc_pool st) (CaptureFailed (str "SHM pool not initialized"));
  buffer ← active_buffer pool;
  tell [CopyFrame frame buffer];;
  put_st (with_frame st (sc_ready st) (sc_failed st) (sc_buffer_done st) (sc_damage st)
            (sc_timestamp st) true).

(** The end of [next_frame]: the copy out of the buffer, the swap, the frame. *)
Definition take_frame : cap ScreencopyState sc_event CapturedFrame :=
  st ← get_st;
  let damage := if bool_decide (sc_damage st = [])
    then [DamageRect_new 0 0 (sc_width st) (sc_height st)] else sc_damage st in
  put_st (with_frame st (sc_ready st) (sc_failed st) (sc_buffer_done st) damage (sc_timestamp st)
            (sc_attached st));;
  format ← ok_or (sc_format st) (UnsupportedFormat (sc_format_raw st));
  pool ← ok_or (sc_pool st)
    (CaptureFailed (str "SHM pool not initialized (no Buffer event received)"));
  data ← active_data pool;
  put_st (with_frame (with_pool st (Some (pool_swap pool))) (sc_ready st) (sc_failed st)
            (sc_buffer_done st) [] (sc_timestamp st) (sc_attached st));;
  let f := mkCapturedFrame data damage format (sc_width st) (sc_height st) (sc_stride st)
             (sc_timestamp st) in
  log [Gave f];;
  mret f.

Definition sc_next_frame : cap ScreencopyState sc_event CapturedFrame :=
  st ← get_st;
  if sc_stopped st then throw SessionEnded
  else
    put_st (with_frame st false false false [] (sc_timestamp st) false);;
    let prev_pool_format := sp_format <$> sc_pool st in
    ok_or (sc_manager st) NoBackend;;
    output ← ok_or (sc_output st) NoOutputs;
    frame ← fresh;
    tell [CaptureOutput frame 0 output];;
    phase1 frame;;
    st ← get_st;
    if sc_failed st then tell [DestroyFrame frame];; throw compositor_failed
    else
      wl_format ← ok_or (sc_wl_format st) (CaptureFailed (str "no buffer format received"));
      ensure_pool prev_pool_format wl_format;;
      roundtrip sc_handle;;
      attach_and_copy frame;;
      phase2 frame;;
      st ← get_st;
      tell [DestroyFrame frame];;
      if sc_stopped st then throw SessionEnded
      else if sc_failed st then throw compositor_failed
      else take_frame.

(** [ScreencopyProbe], and [is_available]: no error leaves it. *)
Definition probe_handle (found : bool) (ev : sc_event) : bool * list cap_req :=
  match ev with
  | ScGlobal _ interface _ => (found || bool_decide (interface = screencopy_manager_v1), [])
  | _ => (found, [])
  end.

Definition sc_is_available : cap bool sc_event bool := fun w =>
  match roundtrip probe_handle w with
  | Done w (inl tt) => Done w (inl (w_st w))
  | Done w (inr _) => Done w (inl false)
  | Waiting w => Waiting w
  | Crash w => Crash w
  end.

(** [stop]. *)
Definition sc_stop (st : ScreencopyState) : ScreencopyState :=
  mkScreencopy (sc_shm st) (sc_pool st) (sc_manager st) (sc_discovered st) (sc_output st) (sc_ready st)
    (sc_failed st) (sc_buffer_done st) (sc_damage st) (sc_format st) (sc_width st) (sc_height st)
    (sc_stride st) (sc_format_raw st) (sc_wl_format st) (sc_timestamp st) (sc_attached st) true.

(** The capture thread's calls, until the first error. *)
Fixpoint sc_run (n : nat) : cap ScreencopyState sc_event unit :=
  match n with
  | O => mret tt
  | S n => sc_next_frame;; sc_run n
  end.
