(* ===== verification/ScreencopySafety.v ===== *)
(** The screencopy backend against the protocol: the client is never the first to
    break it, and every frame it hands out is the picture the compositor wrote for
    that capture.

    The judge's protocol follows one frame object at a time, through the phases of
    wlr-screencopy.  What a compositor may do is what the protocol documents:
    a buffer is announced once, a frame is written only while it is being copied, damage
    lies inside it. *)

From stdpp Require Import strings.
From S2P Require Import Prelude Delta Floats DesktopDetect ServerPipeline CaptureThread.
From S2P Require Import CaptureIo CaptureLogic CaptureMem Screencopy.

(** ** The protocol *)

Inductive phase :=
  | Announcing (s : option shape)
  | Announced (s : option shape)
  | Copying (s : shape) (b : Z) (damage : list DamageRect)
  | Completed (s : shape) (b : Z) (damage : list DamageRect) (ts : Z)
  | Refused.

(** [p_done]: a finished frame, not yet handed out; [p_seen]: a buffer has been
    announced before. *)
Record Proto := mkProto {
  p_frame : option (Z * phase); p_done : option (shape * Z * list DamageRect * Z); p_seen : bool }.

#[export] Instance CapturedFrame_eq_dec : EqDecision CapturedFrame.
Proof. solve_decision. Defined.

(** The picture the compositor wrote. *)
Definition picture (s : shape) (damage : list DamageRect) (ts : Z) (bytes : list Z)
    : option CapturedFrame :=
  format ← from_wl_shm (sh_format s);
  Some (mkCapturedFrame bytes
          (match damage with [] => [mkDamageRect 0 0 (sh_width s) (sh_height s)] | _ => damage end)
          format (sh_width s) (sh_height s) (sh_stride s) ts).

Definition damage_in (s : shape) (x y w h : Z) : Prop :=
  0 <= x /\ 0 <= y /\ 0 <= w /\ 0 <= h /\ x + w <= sh_width s /\ y + h <= sh_height s.

#[export] Instance damage_in_dec s x y w h : Decision (damage_in s x y w h).
Proof. unfold damage_in. apply _. Defined.

(** A [timespec] whose nanoseconds fit 64 bits. *)
Definition time_ok (hi lo nsec : Z) : Prop :=
  fits 32 hi /\ fits 32 lo /\ fits 32 nsec /\ (hi * 2 ^ 32 + lo) * 10 ^ 9 + nsec < 2 ^ 64.

#[export] Instance time_ok_dec hi lo nsec : Decision (time_ok hi lo nsec).
Proof. unfold time_ok. apply _. Defined.

(** The compositor's events. *)
Definition event_rules (p : Proto) (ev : sc_event) : option Proto :=
  let at_phase f ph := mkProto (Some (f, ph)) (p_done p) (p_seen p) in
  match ev with
  | ScGlobal _ _ _ | ScOutputName _ _ | ScOther => Some p
  | _ =>
      match p_frame p with
      | None => None
      | Some (f, Refused) =>
          Some (mkProto (p_frame p) (p_done p) (match ev with ScBuffer (Some _) _ _ _ => true | _ => p_seen p end))
      | Some (f, ph) =>
          match ev, ph with
          | ScBuffer None _ _ _, Announcing None => Some (at_phase f Refused)
          | ScBuffer (Some format) w h stride, Announcing None =>
              let s := mkShape w h stride format in
              if decide (shape_ok s)
              then Some (mkProto (Some (f, Announcing (Some s))) (p_done p) true) else None
          | ScBufferDone, Announcing (Some s) => Some (at_phase f (Announced (Some s)))
          | ScBufferDone, Announcing None =>
              if p_seen p then None else Some (at_phase f (Announced None))
          | ScDamage x y w h, Copying s b damage =>
              if decide (damage_in s x y w h)
              then Some (at_phase f (Copying s b (damage ++ [mkDamageRect x y w h]))) else None
          | ScReady hi lo nsec, Copying s b damage =>
              if decide (time_ok hi lo nsec)
              then Some (at_phase f (Completed s b damage ((hi * 2 ^ 32 + lo) * 10 ^ 9 + nsec)))
              else None
          | ScFailed, Completed _ _ _ _ => None
          | ScFailed, _ => Some (at_phase f Refused)
          | _, _ => None
          end
      end
  end.

(** The client's requests and the frames it hands out. *)
Definition sc_proto_rules (m : Mon Proto) (o : obs sc_event) : verdict (Mon Proto) :=
  let p := m_proto m in
  match o with
  | Req (BindGlobal _ _ _) => Fine m
  | Req (CaptureOutput f _ _) =>
      match p_frame p with
      | None => Fine (with_proto m (mkProto (Some (f, Announcing None)) None (p_seen p)))
      | Some _ => ClientWrong
      end
  | Req (CopyFrame f b) =>
      match p_frame p with
      | Some (f', Announced (Some s)) =>
          if decide (f' = f /\ b_shape <$> m_bufs m !! b = Some s)
          then Fine (with_proto m (mkProto (Some (f, Copying s b [])) (p_done p) (p_seen p)))
          else ClientWrong
      | Some (f', Refused) =>
          if decide (f' = f /\ is_Some (m_bufs m !! b)) then Fine m else ClientWrong
      | _ => ClientWrong
      end
  | Req (DestroyFrame f) =>
      match p_frame p with
      | Some (f', ph) =>
          if decide (f' = f)
          then Fine (with_proto m (mkProto None
                 (match ph with Completed s b damage ts => Some (s, b, damage, ts) | _ => None end)
                 (p_seen p)))
          else ClientWrong
      | None => ClientWrong
      end
  | Act (Ev ev) =>
      match event_rules p ev with Some p => Fine (with_proto m p) | None => CompWrong end
  | Gave f =>
      match p_done p with
      | Some (s, b, damage, ts) =>
          if decide ((buf ← m_bufs m !! b;
                      if decide (b_shape buf = s) then picture s damage ts (b_bytes buf) else None) = Some f)
          then Fine m else ClientWrong
      | None => ClientWrong
      end
  | _ => ClientWrong
  end.

(** The compositor writes the buffer being copied; the client reads a finished one,
    and destroys neither. *)
Definition busy_buffer (p : Proto) (b : Z) : bool :=
  match p_frame p with
  | Some (_, Copying _ b' _) | Some (_, Completed _ b' _ _) => b' =? b
  | _ => false
  end.

#[export] Instance sc_protocol : Protocol Proto sc_event := {
  writable p b := match p_frame p with Some (_, Copying _ b' _) => b' =? b | _ => false end;
  readable p b := match p_done p with Some (_, b', _, _) => b' =? b | None => false end;
  held := busy_buffer;
  proto_rules := sc_proto_rules }.

Definition sc_start : Mon Proto := mkMon ∅ ∅ (mkProto None None false).

(** ** The invariant *)

(** What the client has noted of the announced shape. *)
Definition noted (st : ScreencopyState) (s : shape) : Prop :=
  sc_width st = sh_width s /\ sc_height st = sh_height s /\ sc_stride st = sh_stride s /\
  sc_wl_format st = Some (sh_format s) /\ sc_format st = from_wl_shm (sh_format s) /\
  sc_format_raw st = sh_format s /\ shape_ok s.

(** The copy goes into the active buffer of a pool of the frame's shape. *)
Definition into_active (st : ScreencopyState) (s : shape) (b : Z) : Prop :=
  exists p sl, sc_pool st = Some p /\ pool_shape p = s /\ active_slot p = Some sl /\ sl_buffer sl = b.

Definition rect_within (s : shape) (r : DamageRect) : Prop :=
  damage_in s (dr_x r) (dr_y r) (dr_width r) (dr_height r).

Definition phase_inv (st : ScreencopyState) (ph : phase) : Prop :=
  match ph with
  | Announcing None => sc_buffer_done st = false /\ sc_ready st = false /\ sc_damage st = []
  | Announcing (Some s) =>
      sc_buffer_done st = false /\ sc_ready st = false /\ sc_damage st = [] /\ noted st s
  | Announced None => sc_ready st = false /\ sc_damage st = [] /\ sc_wl_format st = None
  | Announced (Some s) => sc_ready st = false /\ sc_damage st = [] /\ noted st s
  | Copying s b damage =>
      sc_ready st = false /\ sc_damage st = damage /\ noted st s /\ into_active st s b /\
      Forall (rect_within s) damage
  | Completed s b damage ts =>
      sc_damage st = damage /\ sc_timestamp st = ts /\ noted st s /\ into_active st s b /\
      Forall (rect_within s) damage /\ fits 64 ts
  | Refused => sc_failed st = true
  end.

(** Where the call is: between frames, waiting for the announcement, holding a pool of
    the announced shape, or waiting for the picture. *)
Inductive stage := Idle | Asking (f : Z) | Armed (f : Z) | Waiting_ (f : Z).

Definition staged (g : stage) (st : ScreencopyState) (p : Proto) : Prop :=
  match g with
  | Idle => p_frame p = None
  | Asking f =>
      exists ph, p_frame p = Some (f, ph) /\
        match ph with Announcing _ | Announced _ | Refused => True | _ => False end
  | Armed f =>
      exists ph, p_frame p = Some (f, ph) /\
        match ph with
        | Announced (Some s) => exists q, sc_pool st = Some q /\ pool_shape q = s
        | Refused => is_Some (sc_pool st)
        | _ => False
        end
  | Waiting_ f =>
      exists ph, p_frame p = Some (f, ph) /\
        match ph with Copying _ _ _ | Completed _ _ _ _ | Refused => True | _ => False end
  end.

Definition sc_inv (g : stage) (st : ScreencopyState) (mem : gmap Z (list Z)) (next : Z)
    (m : Mon Proto) : Prop :=
  mem_inv mem next m /\ pool_inv (sc_pool st) m /\ sc_stopped st = false /\
  (p_seen (m_proto m) = false -> sc_wl_format st = None) /\
  staged g st (m_proto m) /\
  match p_frame (m_proto m) with Some (_, ph) => phase_inv st ph | None => True end.

(** ** The compositor's actions *)

Lemma lor_shifted hi lo : 0 <= hi -> fits 32 lo -> Z.lor (Z.shiftl hi 32) lo = hi * 2 ^ 32 + lo.
Proof.
  intros Hh Hl. rewrite <- Z.shiftl_mul_pow2 by lia.
  assert (Hland : Z.land (Z.shiftl hi 32) lo = 0).
  { apply Z.bits_inj'. intros n Hn. rewrite Z.land_spec, Z.bits_0.
    destruct (decide (n < 32)); [by rewrite Z.shiftl_spec_low|].
    rewrite <- (wrap_small 32 lo) by done. unfold wrap. rewrite Z.mod_pow2_bits_high by lia.
    apply andb_false_r. }
  rewrite <- Z.lxor_lor by done. symmetry. by apply Z.add_nocarry_lxor.
Qed.

Lemma timestamp_exact hi lo nsec : time_ok hi lo nsec ->
  timestamp_of hi lo nsec = (hi * 2 ^ 32 + lo) * 10 ^ 9 + nsec /\
  fits 64 ((hi * 2 ^ 32 + lo) * 10 ^ 9 + nsec).
Proof.
  intros (Hh & Hl & Hn & Ht). unfold timestamp_of.
  rewrite (wrap_small 64 (Z.shiftl hi 32)).
  2: { rewrite Z.shiftl_mul_pow2 by lia. width_lia. }
  rewrite lor_shifted by (done || apply Hh).
  assert (fits 64 ((hi * 2 ^ 32 + lo) * 10 ^ 9 + nsec)) by width_lia.
  rewrite (wrap_small 64 (_ * 10 ^ 9)) by width_lia. by rewrite wrap_small.
Qed.

(** The handler does not touch what the judge does not see. *)
Lemma sc_handle_frame st ev :
  sc_pool (sc_handle st ev).1 = sc_pool st /\ sc_stopped (sc_handle st ev).1 = sc_stopped st /\
  exists rs, Req <$> (sc_handle st ev).2 = rs /\
    forall m : Mon Proto, foldl (judge_step mem_rules) (Fine m) rs = Fine m.
Proof.
  destruct ev as [name interface version| |[]| | | | |]; cbn; try (by split_and!; [..|exists []]).
  unfold registry_global.
  repeat case_bool_decide; split_and!; cbn; try done; eexists; split; try done; done.
Qed.

(** What the state and the protocol say of each other. *)
Definition agrees (g : stage) (st : ScreencopyState) (p : Proto) : Prop :=
  (p_seen p = false -> sc_wl_format st = None) /\ staged g st p /\
  match p_frame p with Some (_, ph) => phase_inv st ph | None => True end.

(** Events that are not about the frame. *)
Lemma agrees_globals g st p shm manager discovered :
  agrees g st p ->
  agrees g (mkScreencopy shm (sc_pool st) manager discovered (sc_output st) (sc_ready st) (sc_failed st)
      (sc_buffer_done st) (sc_damage st) (sc_format st) (sc_width st) (sc_height st) (sc_stride st)
      (sc_format_raw st) (sc_wl_format st) (sc_timestamp st) (sc_attached st) (sc_stopped st)) p.
Proof. by destruct st. Qed.

(** The phase an event may lead to. *)
Definition follows (ph ph' : phase) : Prop :=
  match ph, ph' with
  | Announcing _, (Announcing _ | Announced _) => True
  | Copying _ _ _, (Copying _ _ _ | Completed _ _ _ _) => True
  | _, Refused => True
  | _, _ => False
  end.

Lemma staged_follows g st st' p p' f ph ph' :
  staged g st p -> p_frame p = Some (f, ph) -> p_frame p' = Some (f, ph') ->
  sc_pool st' = sc_pool st -> follows ph ph' -> staged g st' p'.
Proof.
  intros Hg E1 E2 Ep Hf. destruct g; cbn in *; rewrite E1 in Hg; [done|..]; rewrite E2;
    destruct Hg as (ph0 & [= <- <-] & Hph); exists ph'; (split; [done|]);
    destruct ph, ph'; try done; cbn in *.
  - destruct s as [s|]; [|done]. rewrite Ep. destruct Hph as (q & -> & _). by eexists.
  - by rewrite Ep.
Qed.

Lemma follows_refused ph : follows ph Refused.
Proof. by destruct ph. Qed.

(** A frame event, once the phases fit. *)
Lemma agrees_step g st st' p f ph ph' seen :
  agrees g st p -> p_frame p = Some (f, ph) -> sc_pool st' = sc_pool st -> follows ph ph' ->
  (seen = false -> p_seen p = false /\ sc_wl_format st' = sc_wl_format st) ->
  phase_inv st' ph' -> agrees g st' (mkProto (Some (f, ph')) (p_done p) seen).
Proof.
  intros (Hseen & Hg & _) E1 Ep Hf Hs Hph. split_and!; [|by eapply staged_follows|done].
  cbn. intros E2. destruct (Hs E2) as [Es ->]. by apply Hseen.
Qed.

Lemma event_agrees g st p ev p' :
  agrees g st p -> event_rules p ev = Some p' -> agrees g (sc_handle st ev).1 p'.
Proof.
  intros Ha He. destruct ev as [name interface version|o name|format w h stride| |x y w h|hi lo nsec| |].
  1: { injection He as <-. unfold sc_handle, registry_global.
       repeat case_bool_decide; cbn [fst]; [by apply agrees_globals..|done]. }
  1: { injection He as <-. by apply agrees_globals. }
  6: by injection He as <-.
  all: cbn in He; destruct (p_frame p) as [[f ph]|] eqn:Ef; [|done].
  all: pose proof Ha as (_ & _ & Hph); rewrite Ef in Hph.
  all: assert (Hstep : forall st' ph' seen, sc_pool st' = sc_pool st -> follows ph ph' ->
         (seen = false -> p_seen p = false /\ sc_wl_format st' = sc_wl_format st) ->
         phase_inv st' ph' -> agrees g st' (mkProto (Some (f, ph')) (p_done p) seen))
         by (intros st' ph' seen; by eapply agrees_step).
  all: destruct ph as [s|s|s b d|s b d ts|]; try done; cbn in Hph.
  - destruct s as [s|]; [by destruct format|].
    destruct format as [format|]; [case_decide; [|done]|]; injection He as <-; apply Hstep; try done.
    cbn. destruct Hph as (? & ? & ?). by split_and!.
  - by destruct format.
  - by destruct format.
  - by destruct format.
  - destruct format as [format|]; injection He as <-; apply Hstep; done.
  - destruct s as [s|].
    + injection He as <-. apply Hstep; try done. cbn. tauto.
    + destruct (p_seen p) eqn:Es; [done|]. injection He as <-. apply Hstep; try done. cbn.
      destruct Hph as (? & ? & ?). split_and!; try done. by apply Ha.
  - injection He as <-. by apply Hstep.
  - case_decide as Hin; [|done]. injection He as <-. apply Hstep; try done. cbn.
    destruct Hph as (? & -> & ? & ? & ?). split_and!; try done.
    apply list.Forall_app. split; [done|]. by apply list.Forall_singleton.
  - injection He as <-. by apply Hstep.
  - case_decide as Hin; [|done]. destruct (timestamp_exact _ _ _ Hin) as [Et Hts].
    injection He as <-. apply Hstep; try done. cbn. destruct Hph as (? & ? & ? & ? & ?). by split_and!.
  - injection He as <-. by apply Hstep.
  - injection He as <-. by apply Hstep.
  - injection He as <-. by apply Hstep.
  - injection He as <-. by apply Hstep.
  - injection He as <-. by apply Hstep.
Qed.

(** The invariant with the pool named: only the calls between the phases change it. *)
Definition sc_inv_at (g : stage) (pl : option ShmBufferPool) (st : ScreencopyState)
    (mem : gmap Z (list Z)) (next : Z) (m : Mon Proto) : Prop :=
  sc_inv g st mem next m /\ sc_pool st = pl.

Lemma sc_act_kept g pl st mem next m a m' :
  sc_inv_at g pl st mem next m -> mem_rules m (Act a) = Fine m' ->
  match a with
  | Ev e => foldl (judge_step mem_rules) (Fine m') (Req <$> (sc_handle st e).2) = Fine m' /\
            sc_inv_at g pl (sc_handle st e).1 mem next m'
  | WriteBuffer b bytes => sc_inv_at g pl st (write_mem mem b bytes) next m'
  end.
Proof.
  intros [(Hm & Hp & Hs & Ha) Epl] Er. destruct a as [ev|b bytes].
  - cbn in Er. destruct (event_rules (m_proto m) ev) as [p|] eqn:Ee; [|done]. injection Er as <-.
    destruct (sc_handle_frame st ev) as (E1 & E2 & rs & <- & E3). split; [apply E3|].
    pose proof (event_agrees g st _ ev p Ha Ee) as (A1 & A2 & A3).
    unfold sc_inv_at, sc_inv. rewrite E1, E2. by split_and!.
  - destruct (write_kept mem next m b bytes m' Hm Er) as (Hm' & Ep & Hp').
    unfold sc_inv_at, sc_inv. rewrite Ep. by split_and!; try apply Hp'; try apply Ha.
Qed.

Lemma sc_acts_allowed (m : Mon Proto) (a : action sc_event) : mem_rules m (Act a) <> ClientWrong.
Proof.
  destruct a as [ev|b bytes]; cbn; [by destruct (event_rules _ _)|].
  destruct (m_bufs m !! b); [by case_decide|done].
Qed.

Lemma sc_kept g pl : kept mem_rules sc_start sc_handle (sc_inv_at g pl).
Proof. apply kept_intro; [intros st mem next m a m'; apply sc_act_kept|apply sc_acts_allowed]. Qed.

(** Outputs are never forgotten. *)
Lemma name_output_length global name l : length (name_output global name l) = length l.
Proof. induction l as [|o l IH]; [done|]. cbn. destruct (_ =? _); cbn; congruence. Qed.

Lemma sc_handle_discovered st e : sc_discovered st <> [] -> sc_discovered (sc_handle st e).1 <> [].
Proof.
  intros Hne. destruct e as [name interface version|o name|[]| | | | |]; cbn; try done.
  - unfold registry_global. repeat case_bool_decide; cbn; try done. by destruct (sc_discovered st).
  - intros E1. apply Hne. apply length_zero_iff_nil. rewrite <- (name_output_length o name), E1. done.
Qed.

Lemma sc_kept_found g pl :
  kept mem_rules sc_start sc_handle
    (fun st mem next m => sc_inv_at g pl st mem next m /\ sc_discovered st <> []).
Proof.
  apply kept_intro; [|apply sc_acts_allowed]. intros st mem next m a m' [HI Hne] Er.
  pose proof (sc_act_kept g pl st mem next m a m' HI Er) as H. destruct a as [e|b bytes]; [|done].
  destruct H as [E1 H]. split_and!; [done|done|by apply sc_handle_discovered].
Qed.

(** ** The calls *)

Abbreviation safe P m Q :=
  (triple (S:=ScreencopyState) (E:=sc_event) mem_rules sc_start P m Q (fun _ _ => True)).

Abbreviation at_stage g pl := (on (E:=sc_event) (sc_inv_at g pl)).

(** Whatever the stage of the frame, it may be destroyed. *)
Lemma safe_destroy {A} (P : world ScreencopyState sc_event -> Mon Proto -> Prop) f e
    (Q : A -> world ScreencopyState sc_event -> Mon Proto -> Prop) :
  (forall w m, P w m -> exists ph, p_frame (m_proto m) = Some (f, ph)) ->
  safe P (tell [DestroyFrame f];; throw e) Q.
Proof.
  intros HP. apply (triple_bind _ _ _ _ _ (fun _ _ _ => True)); [|intros []; by apply triple_throw].
  apply triple_log. intros w m Hw. destruct (HP w m Hw) as [ph E1]. cbn. rewrite E1. by rewrite decide_True.
Qed.

Lemma staged_frame g f pl (w : world ScreencopyState sc_event) m : (g = Asking f \/ g = Armed f \/ g = Waiting_ f) ->
  at_stage g pl w m -> exists ph, p_frame (m_proto m) = Some (f, ph).
Proof.
  intros Hg [(_ & _ & _ & _ & Hs & _) _]. destruct Hg as [-> |[-> | ->]]; destruct Hs as (ph & E1 & _); eauto.
Qed.

Lemma safe_phase1 f pl :
  safe (at_stage (Asking f) pl) (phase1 f)
    (fun _ w m => at_stage (Asking f) pl w m /\
       negb (sc_buffer_done (w_st w)) && negb (sc_failed (w_st w)) && negb (sc_stopped (w_st w)) = false).
Proof.
  apply (triple_wait_while _ _ _ _ (sc_kept (Asking f) pl)); [done|].
  apply safe_destroy. intros w m. apply staged_frame. by left.
Qed.

Lemma safe_phase2 f pl :
  safe (at_stage (Waiting_ f) pl) (phase2 f)
    (fun _ w m => at_stage (Waiting_ f) pl w m /\
       negb (sc_ready (w_st w)) && negb (sc_failed (w_st w)) && negb (sc_stopped (w_st w)) = false).
Proof.
  apply (triple_wait_while _ _ _ _ (sc_kept (Waiting_ f) pl)); [done|].
  apply safe_destroy. intros w m. apply staged_frame. by right; right.
Qed.

Lemma safe_roundtrip g pl :
  safe (at_stage g pl) (roundtrip sc_handle) (fun _ => at_stage g pl).
Proof.
  eapply triple_conseq; [apply (triple_roundtrip _ _ _ _ (sc_kept g pl))|done..].
Qed.

(** ** Between the phases *)

Lemma growing_pool_drop p : growing (ShmBufferPool_drop (S:=ScreencopyState) (E:=sc_event) p).
Proof. unfold ShmBufferPool_drop. apply growing_bind; [apply growing_slot_drop|intros []; apply growing_slot_drop]. Qed.

Lemma growing_pool_new w h s fmt : growing (ShmBufferPool_new (S:=ScreencopyState) (E:=sc_event) w h s fmt).
Proof.
  unfold ShmBufferPool_new. growing_tac; try apply growing_slot_new; try apply growing_slot_drop.
Qed.

(** The invariant with the announced shape in hand, as the pool's lemmas want it. *)
Definition announced (f : Z) (s : shape) (pr : Proto) : Prop := p_frame pr = Some (f, Announced (Some s)).

Lemma announced_not_held f s pr b : announced f s pr -> held pr b = false.
Proof. intros E1. cbn. unfold busy_buffer. by rewrite E1. Qed.

Lemma needs_new_pool_shape st s pl :
  noted st s -> sc_pool st = pl -> needs_new_pool st (sp_format <$> pl) (sh_format s) = false ->
  exists p, pl = Some p /\ pool_shape p = s.
Proof.
  intros (Hw & Hh & Hs & _) Epl. unfold needs_new_pool. rewrite Epl. destruct pl as [p|]; [|done].
  cbn [fmap option_fmap option_map]. rewrite !orb_false_iff, !negb_false_iff, !Z.eqb_eq, bool_decide_eq_true.
  intros [[[E1 E2] E3] [= E4]]. exists p. split; [done|]. unfold pool_shape. destruct s. cbn in *. congruence.
Qed.

Lemma armed_inv f s p st pr pools bufs mem next :
  noted st s -> sc_stopped st = false -> sc_ready st = false -> sc_damage st = [] ->
  announced f s pr -> (p_seen pr = false -> sc_wl_format st = None) -> sc_pool st = Some p ->
  pool_shape p = s -> mem_inv mem next (mkMon pools bufs pr) -> pool_inv (Some p) (mkMon pools bufs pr) ->
  sc_inv_at (Armed f) (Some p) st mem next (mkMon pools bufs pr).
Proof.
  intros Hn Hs Hr Hd Ha Hseen Ep Hsh Hm Hp. split; [|done]. unfold sc_inv. rewrite Ep. cbn [m_proto].
  split_and!; try done.
  - exists (Announced (Some s)). split; [done|]. by exists p.
  - rewrite Ha. by split_and!.
Qed.

Lemma safe_ensure_pool f s pl st pr bufs pools n :
  announced f s pr -> noted st s -> sc_stopped st = false -> sc_ready st = false -> sc_damage st = [] ->
  (p_seen pr = false -> sc_wl_format st = None) ->
  sc_pool st = pl -> pool_inv pl (mkMon pools bufs pr) ->
  safe (frozen st bufs pools pr n) (ensure_pool (sp_format <$> pl) (sh_format s))
    (fun _ w m => exists p, at_stage (Armed f) (Some p) w m).
Proof.
  intros Ha Hn Hs Hr Hd Hseen Epl Hpl. unfold ensure_pool. apply triple_get_st. intros st'.
  eapply triple_pre with (P' := fun w m => st' = st /\ frozen st bufs pools pr n w m).
  2: { intros w m [HF <-]. split; [|done]. apply HF. }
  apply triple_pure.
  { destruct (needs_new_pool _ _ _); [|apply growing_ret].
    apply growing_bind; [growing_tac|intros _]. apply growing_bind; [growing_tac|intros _].
    apply growing_bind; [destruct (sc_pool st'); [apply growing_pool_drop|apply growing_ret]|intros _].
    apply growing_bind; [apply growing_pool_new|intros p]. growing_tac. }
  intros ->. pose proof Hn as (Hw & Hh & Hstr & _ & _ & _ & Hok).
  destruct (needs_new_pool st (sp_format <$> pl) (sh_format s)) eqn:En.
  - apply (triple_bind _ _ _ _ _ (fun _ => frozen st bufs pools pr n)); [by apply triple_ok_or|intros _].
    eapply (triple_bind _ _ _ _ _ (fun _ => frozen (with_pool st None) bufs pools pr n)).
    { apply triple_put_st. intros w m (_ & HF). by split. }
    intros []. rewrite Epl.
    eapply (triple_bind _ _ _ _ _ (fun _ => frozen (with_pool st None) ∅ ∅ pr n)).
    { destruct pl as [old|]; [apply triple_pool_drop; [intros b; by eapply announced_not_held|done]|].
      destruct Hpl as [[Eb Ep] _]. cbn in Eb, Ep. subst. by apply triple_ret. }
    intros []. rewrite Hw, Hh, Hstr.
    eapply triple_bind.
    { eapply triple_conseq; [apply triple_pool_new; [by destruct s|intros b; by eapply announced_not_held]|done| |done].
      intros p w m HQ. exact HQ. }
    intros p. apply triple_put_st. intros w m (Hsh & Hpi & bufs' & pools' & HF).
    destruct HF as (_ & Eb & Ep & Epr & _ & Hm). exists p. destruct m as [mp mb mpr]. cbn in *. subst mpr.
    apply armed_inv with (s := s); try done. rewrite Hsh. by destruct s.
  - destruct (needs_new_pool_shape st s pl Hn Epl En) as (p & -> & Hsh).
    apply triple_ret. intros w m (Est & Eb & Ep & Epr & _ & Hm). exists p.
    destruct m as [mp mb mpr]. cbn in *. subst. by apply armed_inv with (s := pool_shape p).
Qed.

(** ** Copying *)

Lemma safe_attach f p :
  safe (at_stage (Armed f) (Some p)) (attach_and_copy f) (fun _ => at_stage (Waiting_ f) (Some p)).
Proof.
  unfold attach_and_copy. apply triple_get_st. intros st.
  apply triple_pre with (P' := fun w m => sc_pool st = Some p /\ (at_stage (Armed f) (Some p) w m /\ w_st w = st)).
  2: { intros w m [HI <-]. split; [apply HI|done]. }
  apply triple_pure; [unfold active_buffer; growing_tac|]. intros ->. apply triple_ret_bind. unfold active_buffer.
  destruct (active_slot p) as [sl|] eqn:Es.
  2: { apply triple_false; [by apply growing_silent|]. intros w m [[(_ & Hp & _) Epl] _].
       rewrite Epl in Hp. apply proj2, pool_live_active in Hp as (sl & E1 & _). congruence. }
  apply triple_ret_bind.
  eapply (triple_bind _ _ _ _ _ (fun _ w m => at_stage (Waiting_ f) (Some p) w m /\ w_st w = st)).
  - apply triple_log. intros w m [[(Hm & Hp & Hs & Hseen & (ph & Ef & Hph) & Hphi) Epl] Est].
    pose proof Hp as Hp'. rewrite Epl in Hp'. apply proj2, pool_live_active in Hp' as (sl' & E1 & (x & E2 & Hx & Hxb) & Hok).
    rewrite Es in E1. injection E1 as <-. rewrite Ef in Hphi. cbn. rewrite Ef.
    destruct ph as [|[s|]| | |]; try done.
    + destruct Hph as (q & Eq & Hsh). rewrite Epl in Eq. injection Eq as <-.
      rewrite decide_True by (rewrite E2; by rewrite <- Hsh). cbn in Hphi. destruct Hphi as (Hr & Hd & Hn).
      split; [|done]. split; [|done]. split_and!; try done; cbn.
      * by eexists.
      * split_and!; try done. by exists p, sl.
    + rewrite decide_True by (split; [done|by rewrite E2]). split; [|done]. split; [|done].
      split_and!; try done; cbn; [by eexists|by rewrite Ef].
  - intros []. apply triple_put_st. intros w m [HI <-]. destruct HI as [(Hm & Hp & Hs & Hseen & Hst & Hphi) Epl].
    split; [|done]. split_and!; try done.
Qed.

(** ** The picture *)

(** The stage at which the frame is destroyed and the picture not taken yet. *)
Definition finished_inv (p : ShmBufferPool) (s : shape) (b : Z) (damage : list DamageRect) (ts : Z)
    (st : ScreencopyState) (mem : gmap Z (list Z)) (next : Z) (m : Mon Proto) : Prop :=
  sc_inv_at Idle (Some p) st mem next m /\ p_done (m_proto m) = Some (s, b, damage, ts) /\
  sc_damage st = damage /\ sc_timestamp st = ts /\ noted st s /\ into_active st s b.

Lemma with_frame_idle pl st ready failed done_ damage ts attached mem next m :
  sc_inv_at Idle pl st mem next m ->
  sc_inv_at Idle pl (with_frame st ready failed done_ damage ts attached) mem next m.
Proof.
  intros [(Hm & Hp & Hs & Hseen & Hst & Hphi) Epl]. split; [|done]. split_and!; try done.
  cbn in *. by rewrite Hst.
Qed.

Lemma safe_take_frame p s b damage ts :
  safe (on (finished_inv p s b damage ts)) take_frame
    (fun _ w m => exists q, at_stage Idle (Some q) w m).
Proof.
  unfold take_frame. apply triple_get_st. intros st.
  set (dmg := if bool_decide (sc_damage st = []) then _ else _).
  set (st1 := with_frame st _ _ _ dmg _ _).
  set (P := fun (w : world ScreencopyState sc_event) (m : Mon Proto) =>
    at_stage Idle (Some p) w m /\ p_done (m_proto m) = Some (s, b, damage, ts) /\ w_st w = st1 /\
    sc_damage st = damage /\ sc_timestamp st = ts /\ noted st s /\ into_active st s b).
  apply (triple_bind _ _ _ _ _ (fun _ => P)).
  { apply triple_put_st. intros w m [(HI & Hd & Hdm & Hts & Hn & Hia) <-]. split_and!; try done.
    by apply with_frame_idle. }
  assert (HPg : forall w m, P w m -> sc_pool st = Some p /\ sc_format st = from_wl_shm (sh_format s)).
  { intros w m ([_ Epl] & _ & Est & _ & _ & Hn & _). rewrite Est in Epl. split; [exact Epl|apply Hn]. }
  intros []. apply (triple_bind _ _ _ _ _ (fun format w m => from_wl_shm (sh_format s) = Some format /\ P w m)).
  { apply triple_ok_or; [|done]. intros format w m Hf Hw. split; [|done].
    by rewrite <- Hf, (proj2 (HPg w m Hw)). }
  intros format. apply triple_pure; [growing_tac; by apply growing_active_data|]. intros Hformat.
  apply (triple_bind _ _ _ _ _ (fun pool w m => pool = p /\ P w m)).
  { apply triple_ok_or; [|done]. intros pool w m Hpl Hw. split; [|done].
    rewrite (proj1 (HPg w m Hw)) in Hpl. by injection Hpl. }
  intros pool. apply triple_pure; [growing_tac; by apply growing_active_data|]. intros ->.
  eapply triple_bind.
  { apply (triple_active_data sc_start p P).
    - intros w m ([(Hm & Hp & _) Epl] & Hd & Est & _ & _ & Hn & (p' & sl & Epl' & _ & Es & Eb)).
      rewrite Epl in Hp. rewrite Est in Epl. cbn in Epl. rewrite Epl in Epl'. injection Epl' as <-.
      split_and!; [done|apply Hp|]. intros sl' E1. rewrite Es in E1. injection E1 as <-. cbn.
      rewrite Hd. by apply Z.eqb_eq.
    - done. }
  intros data.
  eapply (triple_bind _ _ _ _ _ (fun _ w m => exists q, at_stage Idle (Some q) w m /\
    p_done (m_proto m) = Some (s, b, damage, ts) /\
    m_bufs m !! b = Some (mkBuf s data) /\ sc_damage st = damage /\ sc_timestamp st = ts /\ noted st s)).
  - apply triple_put_st. intros w m [([HI Epl] & Hd & Est & Hdm & Hts & Hn & (p' & sl & Epl' & Hsh & Es & Eb))
      (sl' & E1 & E2 & _)].
    rewrite Est in Epl. cbn in Epl. rewrite Epl in Epl'. injection Epl' as <-.
    rewrite Es in E1. injection E1 as <-. rewrite Hsh, Eb in E2. exists (pool_swap p).
    split_and!; try done. destruct HI as (Hm & Hp & Hs & Hseen & Hst & _). rewrite Est in *. cbn in *.
    rewrite Epl in Hp. split; [|done]. unfold sc_inv. cbn.
    rewrite Hst. split_and!; try done. by apply pool_inv_swap.
  - intros []. apply (triple_bind _ _ _ _ _ (fun _ w m => exists q, at_stage Idle (Some q) w m));
      [|intros []; by apply triple_ret].
    apply triple_log. intros w m (q & HI & Hd & Eb & Hdm & Hts & Hn). cbn. rewrite Hd, Eb. cbn.
    rewrite (decide_True (P:=s = s)) by done. rewrite decide_True; [by exists q|]. unfold picture. rewrite Hformat. cbn.
    unfold dmg. destruct Hn as (-> & -> & -> & _). rewrite Hts, Hdm.
    by destruct damage; case_bool_decide.
Qed.

(** ** One frame, and all of them *)

Lemma safe_finish f p :
  safe (fun w m => at_stage (Waiting_ f) (Some p) w m /\
          negb (sc_ready (w_st w)) && negb (sc_failed (w_st w)) && negb (sc_stopped (w_st w)) = false)
    (st ← get_st; tell [DestroyFrame f];;
     if sc_stopped st then throw SessionEnded
     else if sc_failed st then throw compositor_failed else take_frame)
    (fun _ w m => exists q, at_stage Idle (Some q) w m).
Proof.
  apply triple_get_st. intros st.
  apply (triple_bind _ _ _ _ _ (fun _ w m => sc_stopped st = false /\ (sc_failed st = false ->
    exists s b damage ts, on (finished_inv p s b damage ts) w m))).
  - apply triple_log. intros w m [[[(Hm & Hp & Hs & Hseen & (ph & Ef & Hph) & Hphi) Epl] Hb] <-].
    rewrite Ef in Hphi. cbn. rewrite Ef, decide_True by done. split; [done|]. intros Hf.
    rewrite Hf, Hs in Hb. cbn in Hb. rewrite !andb_true_r, negb_false_iff in Hb.
    destruct ph as [| |s b d|s b d ts|]; try done; cbn in Hphi; [exfalso| |congruence].
    { destruct Hphi as [Hr _]. congruence. }
    destruct Hphi as (Hd & Hts & Hn & Hia & _). exists s, b, d, ts.
    by split_and!.
  - intros []. destruct (sc_stopped st); [by apply triple_throw|].
    destruct (sc_failed st); [by apply triple_throw|].
    eapply triple_pre with (P' := fun w m => exists x : shape * Z * list DamageRect * Z,
      on (finished_inv p x.1.1.1 x.1.1.2 x.1.2 x.2) w m).
    2: { intros w m [_ H]. destruct (H eq_refl) as (s & b & d & ts & HF). by exists (s, b, d, ts). }
    apply triple_exists; [|intros x; apply safe_take_frame]. unfold take_frame.
    growing_tac; by apply growing_active_data.
Qed.

(** What follows once the pool is there ... *)
Definition copy_and_take (f : Z) : cap ScreencopyState sc_event CapturedFrame :=
  roundtrip sc_handle;;
  attach_and_copy f;;
  phase2 f;;
  st ← get_st;
  tell [DestroyFrame f];;
  if sc_stopped st then throw SessionEnded
  else if sc_failed st then throw compositor_failed
  else take_frame.

Lemma safe_copy_and_take f p :
  safe (at_stage (Armed f) (Some p)) (copy_and_take f) (fun _ w m => exists q, at_stage Idle q w m).
Proof.
  unfold copy_and_take.
  apply (triple_bind _ _ _ _ _ (fun _ => at_stage (Armed f) (Some p))); [apply safe_roundtrip|intros []].
  apply (triple_bind _ _ _ _ _ (fun _ => at_stage (Waiting_ f) (Some p))); [apply safe_attach|intros []].
  eapply triple_bind; [apply safe_phase2|intros []].
  eapply triple_conseq; [apply (safe_finish f p)|done| |done]. intros fr w m [q Hq]. by eexists.
Qed.

(** ... once the announcement is in ... *)
Definition arm_and_take (f : Z) (prev : option Z) (st : ScreencopyState)
    : cap ScreencopyState sc_event CapturedFrame :=
  if sc_failed st then tell [DestroyFrame f];; throw compositor_failed
  else
    wl_format ← ok_or (sc_wl_format st) (CaptureFailed (str "no buffer format received"));
    ensure_pool prev wl_format;;
    copy_and_take f.

Lemma growing_copy_and_take f : growing (copy_and_take f).
Proof. apply (proj1 (safe_copy_and_take f (mkPool (mkSlot 0 0 0, mkSlot 0 0 0) 0 0 0 0 0))). Qed.

Lemma growing_ensure_pool prev fmt : growing (ensure_pool prev fmt).
Proof.
  unfold ensure_pool. growing_tac; first [apply growing_pool_drop|apply growing_pool_new].
Qed.

Lemma safe_armed f st s pl pr bufs pools n :
  announced f s pr /\ noted st s /\ sc_stopped st = false /\ sc_ready st = false /\
  sc_damage st = [] /\ (p_seen pr = false -> sc_wl_format st = None) /\ sc_pool st = pl /\
  pool_inv pl (mkMon pools bufs pr) ->
  safe (frozen st bufs pools pr n) (ensure_pool (sp_format <$> pl) (sh_format s);; copy_and_take f)
    (fun _ w m => exists q, at_stage Idle q w m).
Proof.
  intros (Ha & Hn & Hs & Hr & Hd & Hseen & Epl & Hp).
  eapply triple_bind; [by eapply safe_ensure_pool|]. intros [].
  apply triple_exists; [apply growing_copy_and_take|]. intros p. apply safe_copy_and_take.
Qed.

Lemma safe_arm_and_take f pl st :
  safe (fun w m => (at_stage (Asking f) pl w m /\
          negb (sc_buffer_done (w_st w)) && negb (sc_failed (w_st w)) && negb (sc_stopped (w_st w)) = false) /\
          w_st w = st)
    (arm_and_take f (sp_format <$> pl) st) (fun _ w m => exists q, at_stage Idle q w m).
Proof.
  unfold arm_and_take. destruct (sc_failed st) eqn:Hf.
  { apply safe_destroy. intros w m [[HI _] _]. eapply staged_frame; [|exact HI]. by left. }
  apply (triple_bind _ _ _ _ _ (fun fmt w m => exists x : Proto * gmap Z buffer * gmap Z Z * Z * shape,
    (announced f x.2 x.1.1.1.1 /\ noted st x.2 /\ sc_stopped st = false /\ sc_ready st = false /\
     sc_damage st = [] /\ (p_seen x.1.1.1.1 = false -> sc_wl_format st = None) /\ sc_pool st = pl /\
     pool_inv pl (mkMon x.1.1.2 x.1.1.1.2 x.1.1.1.1) /\ fmt = sh_format x.2) /\
    frozen st x.1.1.1.2 x.1.1.2 x.1.1.1.1 x.1.2 w m)).
  { apply triple_ok_or; [|done]. intros fmt w m Hfmt [[[(Hm & Hp & Hs & Hseen & (ph & Ef & Hph) & Hphi) Epl] Hb] <-].
    rewrite Ef in Hphi. rewrite Hf, Hs, !andb_true_r, negb_false_iff in Hb.
    destruct ph as [[s|]|[s|]| | |]; try done; cbn in Hphi; [by destruct Hphi as (? & _); congruence..| | |congruence].
    - destruct Hphi as (Hr & Hd & Hn). destruct m as [pools bufs pr]. exists (pr, bufs, pools, w_next w, s).
      rewrite Epl in Hp. split_and!; try done. all: cbn; try lia. destruct Hn as (_ & _ & _ & E1 & _). congruence.
    - destruct Hphi as (_ & _ & Hn). congruence. }
  intros fmt. assert (G : growing (ensure_pool (sp_format <$> pl) fmt;; copy_and_take f)).
  { apply growing_bind; [apply growing_ensure_pool|intros []; apply growing_copy_and_take]. }
  apply triple_exists; [exact G|]. intros [[[[pr bufs] pools] n] s]. apply triple_pure; [exact G|].
  intros (? & ? & ? & ? & ? & ? & ? & ? & ->). by apply safe_armed.
Qed.

Lemma sc_next_frame_eq : sc_next_frame =
  (st ← get_st;
   if sc_stopped st then throw SessionEnded
   else
     put_st (with_frame st false false false [] (sc_timestamp st) false);;
     ok_or (sc_manager st) NoBackend;;
     output ← ok_or (sc_output st) NoOutputs;
     frame ← fresh;
     tell [CaptureOutput frame 0 output];;
     phase1 frame;;
     st' ← get_st;
     arm_and_take frame (sp_format <$> sc_pool st) st').
Proof. reflexivity. Qed.

(** From one call boundary to the next. *)
Lemma safe_next_frame :
  safe (fun w m => exists pl, at_stage Idle pl w m) sc_next_frame (fun _ w m => exists pl, at_stage Idle pl w m).
Proof.
  rewrite sc_next_frame_eq. apply triple_get_st. intros st.
  destruct (sc_stopped st); [by apply triple_throw|].
  set (pl := sc_pool st).
  set (reset := fun s => sc_ready s = false /\ sc_buffer_done s = false /\ sc_damage s = []).
  set (P := fun (w : world ScreencopyState sc_event) m => at_stage Idle pl w m /\ reset (w_st w)).
  apply (triple_bind _ _ _ _ _ (fun _ => P)).
  { apply triple_put_st. intros w m [[pl' [HI Epl]] <-]. split; [|done]. apply with_frame_idle. by split. }
  intros []. apply (triple_bind _ _ _ _ _ (fun _ => P)); [by apply triple_ok_or|intros _].
  apply (triple_bind _ _ _ _ _ (fun _ => P)); [by apply triple_ok_or|intros output].
  apply (triple_bind _ _ _ _ _ (fun _ => P)).
  { apply triple_silent. intros w. eexists _, _. split_and!; [done|done|].
    intros m [[((Em & Hb & Hp) & Hrest) Epl] Hr]. split; [|done]. split; [|done]. split; [|done].
    split_and!; [done|..]; intros k Hk; [specialize (Hb k Hk)|specialize (Hp k Hk)]; cbn; lia. }
  intros f. apply (triple_bind _ _ _ _ _ (fun _ => at_stage (Asking f) pl)).
  { apply triple_log. intros w m [[(Hm & Hp & Hs & Hseen & Hst & Hphi) Epl] (Hr & Hd & Hdm)].
    cbn in Hst. cbn. rewrite Hst. split; [|done]. split_and!; try done. by eexists. }
  intros []. eapply triple_bind; [apply safe_phase1|]. intros []. apply triple_get_st. intros st'.
  apply safe_arm_and_take.
Qed.

Lemma safe_run n :
  safe (fun w m => exists pl, at_stage Idle pl w m) (sc_run n) (fun _ w m => exists pl, at_stage Idle pl w m).
Proof.
  induction n as [|n IH]; cbn [sc_run]; [by apply triple_ret|].
  eapply triple_bind; [apply safe_next_frame|]. intros f. exact IH.
Qed.

(** *** The constructor *)

Lemma swap_remove_some {A} (l : list A) i : (i < length l)%nat -> exists x r, swap_remove l i = Some (x, r).
Proof.
  intros Hi. unfold swap_remove. destruct (lookup_lt_is_Some_2 l i Hi) as [x ->]. cbn.
  destruct (list.last l) as [y|] eqn:El; [by do 2 eexists|]. apply last_None in El. subst. cbn in Hi. lia.
Qed.

Lemma safe_new connected output_name :
  safe (at_stage Idle None) (WlrScreencopyBackend_new connected output_name) (fun _ => at_stage Idle None).
Proof.
  unfold WlrScreencopyBackend_new. destruct connected; [|by apply triple_throw]. cbn [negb].
  apply (triple_bind _ _ _ _ _ (fun _ => at_stage Idle None)); [apply safe_roundtrip|intros []].
  apply triple_get_st. intros st.
  case_bool_decide; [|by apply triple_throw]. case_bool_decide; [|by apply triple_throw].
  case_bool_decide as Hne; [by apply triple_throw|]. cbn [negb].
  set (found := on (E:=sc_event) (fun st mem next m => sc_inv_at Idle None st mem next m /\ sc_discovered st <> [])).
  apply triple_pre with (P' := found); [|by intros w m [HI <-]].
  apply (triple_bind _ _ _ _ _ (fun _ => found)).
  { eapply triple_conseq; [apply (triple_roundtrip _ _ _ _ (sc_kept_found Idle None))|done..]. }
  intros []. apply triple_get_st. intros st'.
  apply (triple_bind _ _ _ _ _ (fun idx w m => (idx < length (sc_discovered st'))%nat /\ found w m /\ w_st w = st')).
  { destruct output_name as [name|].
    - apply triple_ok_or; [|done]. intros idx w m Hi Hw. split; [|done].
      unfold output_position in Hi. apply fmap_Some in Hi as ([i o] & Hi & ->).
      apply list_find_Some in Hi as (Hi & _). by eapply lookup_lt_Some.
    - apply triple_ret. intros w m [[HI Hne'] Est]. subst st'. split; [|done].
      destruct (sc_discovered (w_st w)); [done|cbn; lia]. }
  intros idx. apply triple_pure.
  { destruct (swap_remove _ _) as [[]|]; by apply growing_silent. }
  intros Hi. destruct (swap_remove_some _ _ Hi) as (o & rest & ->). apply triple_put_st.
  intros w m [[[(Hm & Hp & Hs & Hseen & Hst & Hphi) Epl] _] <-]. split; [|done]. split_and!; try done.
Qed.

(** *** The backend's life *)

(** The capture thread's use of the backend: it is made, then asked for [n] frames, or
    until the first error. *)
Definition sc_life (connected : bool) (output_name : option text) (n : nat)
    : cap ScreencopyState sc_event unit :=
  WlrScreencopyBackend_new connected output_name;; sc_run n.

(** Nothing exists yet; what the outside will answer is arbitrary. *)
Definition sc_world attempts trips calls : world ScreencopyState sc_event :=
  mkWorld ScreencopyState_empty ∅ 0 attempts trips calls [].

Lemma sc_life_fair connected output_name n attempts trips calls :
  let o := sc_life connected output_name n (sc_world attempts trips calls) in
  judge mem_rules sc_start (w_log (final o)) <> ClientWrong /\
  forall w, o = Crash w -> judge mem_rules sc_start (w_log w) = CompWrong.
Proof.
  cbn zeta. set (w0 := sc_world attempts trips calls).
  assert (H : safe (at_stage Idle None) (sc_life connected output_name n) (fun _ _ _ => True)).
  { eapply triple_bind; [apply safe_new|intros []].
    eapply triple_conseq; [apply (safe_run n)| |done|done]. intros w m Hw. by exists None. }
  destruct H as [_ H]. specialize (H w0 sc_start eq_refl).
  assert (H0 : at_stage Idle None w0 sc_start).
  { split; [|done]. split_and!; try done. split_and!; [by cbn; rewrite fmap_empty|..];
      intros k [? Hk]; cbn in Hk; by rewrite lookup_empty in Hk. }
  specialize (H H0). unfold fair, judged in H.
  destruct (sc_life connected output_name n w0) as [w [a|e]|w|w]; cbn [final].
  all: destruct (judge mem_rules sc_start (w_log w)) eqn:Ej; try done; split; try done.
  intros w' [= <-]. exact Ej.
Qed.

(** C35. Used as the capture thread uses it, from its construction through
    calls of [next_frame] up to the first that fails, and whatever the compositor and the
    system answer, errors and timeouts included, the screencopy backend is never the first to break the protocol: it
    captures one frame at a time; copies only an announced frame, and only into a live
    buffer of exactly the announced shape; never destroys a buffer that is being
    written; reads a buffer only after the compositor has finished it; and every frame
    it hands out is the picture the compositor wrote for that capture, with its damage,
    time and format.  It neither panics nor reads outside its mappings unless the
    compositor has broken the protocol. *)
Theorem screencopy_safe connected output_name n attempts trips calls :
  let o := sc_life connected output_name n (sc_world attempts trips calls) in
  judge mem_rules sc_start (w_log (final o)) <> ClientWrong /\
  forall w, o = Crash w -> judge mem_rules sc_start (w_log w) = CompWrong.
Proof.
  apply sc_life_fair.
Qed.
