(* ===== verification/ScreencopyFrames.v ===== *)
(** What a frame of the screencopy backend is worth to the pipeline: as long as the
    compositor keeps to the protocol every frame fits the geometry it declares, which is
    what [Session] asks of a captured frame.  The proof looks at the judge alone. *)

From stdpp Require Import strings.
From S2P Require Import Prelude Delta Floats DesktopDetect ServerPipeline Session CaptureThread.
From S2P Require Import CaptureIo CaptureLogic CaptureMem Screencopy ScreencopySafety.

Definition frame_geom (f : CapturedFrame) : geom := mkGeom (fr_width f) (fr_height f) (fr_stride f).

(** Rows hold their pixels, the data is the whole image, the damage lies inside and is
    not empty. *)
Definition frame_sound (f : CapturedFrame) : Prop :=
  let g := frame_geom f in
  0 < g_w g /\ 0 < g_h g /\ g_w g * 4 <= g_stride g /\
  zlen (fr_data f) = g_bytes g /\ bytes_ok (fr_data f) /\ fits 64 (fr_timestamp_ns f) /\
  Forall (rect_in g) (fr_damage f) /\ fr_damage f <> [].

(** ** What the judge knows of buffers and frames *)

Definition buffer_sound (b : buffer) : Prop :=
  let s := b_shape b in
  0 < sh_width s /\ 0 < sh_height s /\ sh_width s * 4 <= sh_stride s /\
  zlen (b_bytes b) = sh_bytes s /\ bytes_ok (b_bytes b).

Definition proto_sound (p : Proto) : Prop :=
  match p_frame p with
  | Some (_, Copying s _ d) => Forall (rect_within s) d
  | Some (_, Completed s _ d ts) => Forall (rect_within s) d /\ fits 64 ts
  | _ => True
  end /\
  match p_done p with Some (s, _, d, ts) => Forall (rect_within s) d /\ fits 64 ts | None => True end.

Definition judge_sound (m : Mon Proto) : Prop :=
  map_Forall (fun _ => buffer_sound) (m_bufs m) /\ proto_sound (m_proto m).

Lemma event_sound p ev p' : proto_sound p -> event_rules p ev = Some p' -> proto_sound p'.
Proof.
  destruct p as [[[f ph]|] dn seen]; unfold proto_sound, event_rules; cbn; intros [Hf Hd] He.
  2: { destruct ev; try done; by injection He as <-. }
  destruct ev as [| |[format|] w h stride| |x y w h|hi lo nsec| |], ph as [[s|]|[s|]|s b d|s b d ts|];
    cbn in He; repeat case_decide; repeat case_match; simplify_eq/=; try done.
  all: split; [|done].
  1, 2: apply list.Forall_app; (split; [done|]); by apply list.Forall_singleton.
  all: split; [done|]; by apply timestamp_exact.
Qed.

Lemma picture_sound s d ts bytes f :
  buffer_sound (mkBuf s bytes) -> Forall (rect_within s) d -> fits 64 ts ->
  picture s d ts bytes = Some f -> frame_sound f.
Proof.
  intros (Hw & Hh & Hs & Hl & Hb) Hd Hts. unfold picture. cbn in *.
  destruct (from_wl_shm (sh_format s)) as [format|]; [|done]. cbn. intros [= <-].
  unfold frame_sound, frame_geom. cbn. split_and!; try done.
  - destruct d as [|r d].
    + apply list.Forall_singleton. unfold rect_in. cbn. lia.
    + eapply list.Forall_impl; [exact Hd|]. intros r0 (?&?&?&?&?&?). unfold rect_in. cbn. lia.
  - by destruct d.
Qed.

(** Every step the judge accepts keeps it, and the frames it accepts are sound. *)
Lemma rules_sound m o m' :
  judge_sound m -> mem_rules m o = Fine m' ->
  judge_sound m' /\ match o with Gave f => frame_sound f | _ => True end.
Proof.
  intros [Hb Hp]. destruct o as [r|a|b|f].
  - intros E1. split; [|done]. destruct r; cbn in E1; repeat case_match; simplify_eq/=; try done.
    all: repeat match goal with H : decide _ = _ |- _ => clear H end.
    + match goal with H : _ /\ _ |- _ => destruct H as (_ & _ & Hw & Hh & Hs & _) end.
      split; [|done]. apply map_Forall_insert_2; [|done]. split_and!; cbn; try done; [|by apply list.Forall_replicate].
      unfold zlen, sh_bytes. cbn. rewrite length_replicate. nia.
    + split; [|done]. by apply map_Forall_delete.
    + split; [done|]. split; [by constructor|apply Hp].
    + split; [done|]. split; [done|]. cbn. destruct Hp as [Hp _].
      match goal with H : p_frame _ = Some _ |- _ => rewrite H in Hp end. exact Hp.
  - destruct a as [ev|b bytes]; cbn; intros E1; (split; [|done]).
    + destruct (event_rules _ ev) as [p|] eqn:Ee; [|done]. injection E1 as <-.
      split; [done|]. by eapply event_sound.
    + destruct (m_bufs m !! b) as [buf|] eqn:Eb; [|done]. case_decide as Hd; [|done].
      injection E1 as <-. split; [|done]. apply map_Forall_insert_2; [|done].
      destruct (map_Forall_lookup_1 _ _ _ _ Hb Eb) as (?&?&?&?&_). destruct Hd as (_ & Hl & Hbytes).
      split_and!; try done. cbn; congruence.
  - cbn. destruct (match p_done (m_proto m) with Some _ => _ | None => _ end); [|done]. by intros [= <-].
  - cbn. destruct (p_done (m_proto m)) as [[[[s b] d] ts]|] eqn:Ed; [|done].
    case_decide as Hg; [|done]. intros [= <-]. split; [done|].
    destruct (m_bufs m !! b) as [buf|] eqn:Eb; [|done]. cbn in Hg. case_decide as Hs; [|done].
    destruct Hp as [_ Hp]. rewrite Ed in Hp. destruct Hp as [Hd Hts].
    pose proof (map_Forall_lookup_1 _ _ _ _ Hb Eb) as Hbuf. destruct buf as [s' bytes]. cbn in *. subst s'.
    by eapply picture_sound.
Qed.

Lemma judge_run_sound m os m' :
  judge_sound m -> foldl (judge_step mem_rules) (Fine m) os = Fine m' ->
  judge_sound m' /\ forall f, Gave f ∈ os -> frame_sound f.
Proof.
  revert m. induction os as [|o os IH]; intros m Hm; cbn [foldl].
  { intros [= <-]. split; [done|]. intros f Hf. by apply elem_of_nil in Hf. }
  cbn [judge_step]. destruct (mem_rules m o) as [m1| |] eqn:E1.
  - destruct (rules_sound m o m1 Hm E1) as [Hm1 Ho]. intros E2. destruct (IH m1 Hm1 E2) as [Hm' Hos].
    split; [done|]. intros f Hf. apply elem_of_cons in Hf as [<-|Hf]; [exact Ho|by apply Hos].
  - intros E2. exfalso. clear -E2. by induction os.
  - rewrite judge_stuck_comp. done.
Qed.

Lemma start_sound : judge_sound sc_start.
Proof. split; [apply map_Forall_empty|by split]. Qed.

(** C36. Every frame the screencopy backend hands out to the capture thread, from its
    construction to the first call that fails, after which the thread asks for no more,
    fits the geometry it declares: rows long enough for their pixels, data of exactly the
    image's size and made of bytes, a time that fits, damage that is not empty and lies
    inside the image.  The compositor only has to keep to the protocol.  (A caller that
    went on after an error would not be safe: [call_after_failure_unsound].) *)
Theorem screencopy_frames connected output_name n attempts trips calls f :
  let log := w_log (final (sc_life connected output_name n (sc_world attempts trips calls))) in
  judge mem_rules sc_start log <> CompWrong -> Gave f ∈ log -> frame_sound f.
Proof.
  cbn zeta. intros Hc Hf.
  pose proof (proj1 (sc_life_fair connected output_name n attempts trips calls)) as Hs.
  set (log := w_log _) in *. unfold judge in *.
  destruct (foldl _ _ log) as [m| |] eqn:E1; [|done|done].
  apply (judge_run_sound sc_start log m start_sound E1). exact Hf.
Qed.

(** ** Runs *)

Definition answer (acts : list (action sc_event)) : attempt sc_event :=
  mkAttempt acts true None true 1 PollIn None.

(** Nothing arrives for a second. *)
Definition silence : attempt sc_event := mkAttempt [] true None true 1 PollTimeout None.

Definition demo_globals : trip sc_event :=
  mkTrip [Ev (ScGlobal 1 (str "wl_shm") 2); Ev (ScGlobal 2 (str "wl_output") 4);
          Ev (ScGlobal 3 screencopy_manager_v1 3)] true.

Definition demo_trips : list (trip sc_event) :=
  [demo_globals; mkTrip [Ev (ScOutputName 2 (str "HDMI-A-1"))] true; mkTrip [] true; mkTrip [] true].

(** Two frames of two pixels, the second with damage on the right. *)
Definition demo_attempts : list (attempt sc_event) :=
  [answer [Ev (ScBuffer (Some 1) 2 1 8)]; answer [Ev ScBufferDone];
   answer [WriteBuffer 2 [1; 2; 3; 4; 5; 6; 7; 8]; Ev (ScReady 0 5 7)];
   answer [Ev (ScBuffer (Some 1) 2 1 8); Ev ScBufferDone];
   answer [Ev ScOther; WriteBuffer 4 [1; 2; 3; 4; 9; 9; 9; 9]; Ev (ScDamage 1 0 1 1)];
   answer [Ev (ScReady 0 6 0)]].

Definition gave (l : list (obs sc_event)) : list CapturedFrame :=
  omap (fun o => match o with Gave f => Some f | _ => None end) l.

Definition is_fine {M} (v : verdict M) : bool := match v with Fine _ => true | _ => false end.

Definition demo_log : list (obs sc_event) :=
  w_log (final (sc_life true (Some (str "HDMI-A-1")) 2 (sc_world demo_attempts demo_trips [MemOk; MemOk]))).

(** The two buffers alternate, and each frame is what was written for it. *)
Example two_frames :
  is_fine (judge mem_rules sc_start demo_log) = true /\
  gave demo_log =
    [mkCapturedFrame [1; 2; 3; 4; 5; 6; 7; 8] [mkDamageRect 0 0 2 1] Xrgb8888 2 1 8 (5 * 10 ^ 9 + 7);
     mkCapturedFrame [1; 2; 3; 4; 9; 9; 9; 9] [mkDamageRect 1 0 1 1] Xrgb8888 2 1 8 (6 * 10 ^ 9)].
Proof. split; vm_compute; reflexivity. Qed.

Lemma screencopy_frames_witness :
  frame_sound (mkCapturedFrame [1; 2; 3; 4; 9; 9; 9; 9] [mkDamageRect 1 0 1 1] Xrgb8888 2 1 8 (6 * 10 ^ 9)).
Proof.
  apply (screencopy_frames true (Some (str "HDMI-A-1")) 2 demo_attempts demo_trips [MemOk; MemOk]).
  - intros E1. apply (f_equal is_fine) in E1. vm_compute in E1. discriminate E1.
  - apply list_elem_of_lookup. exists 30%nat. vm_compute. reflexivity.
Defined.

(** A compositor of version 1 or 2 never sends [BufferDone], but the version bound is
    only a maximum: every frame times out. *)
Example old_version_times_out :
  let trips := [mkTrip [Ev (ScGlobal 1 (str "wl_shm") 1); Ev (ScGlobal 2 (str "wl_output") 4);
                        Ev (ScGlobal 3 screencopy_manager_v1 1)] true; mkTrip [] true] in
  match sc_life true None 1 (sc_world [answer [Ev (ScBuffer (Some 1) 2 1 8)]; silence] trips []) with
  | Done w (inr e) =>
      e = CaptureFailed (str "phase1 timeout: BufferDone not received within 1s") /\
      Req (BindGlobal 3 screencopy_manager_v1 1) ∈ w_log w
  | _ => False
  end.
Proof.
  vm_compute. split; [reflexivity|]. do 5 (try (apply elem_of_list_here)); repeat constructor.
Qed.

(** ** Delivery *)

(** The buffer the next frame of shape [s] is copied into: the active one of the pool,
    if it has that shape, or the first of a new pool, when there is none or it has
    another; memory is to be had for the new one. *)
Definition copies_into (w : world ScreencopyState sc_event) (s : shape) (b : Z) : Prop :=
  (exists p sl old, sc_pool (w_st w) = Some p /\ pool_shape p = s /\ active_slot p = Some sl /\
     sl_buffer sl = b /\ w_mem w !! b = Some old /\ zlen old = sh_bytes s) \/
  ((forall p, sc_pool (w_st w) = Some p -> pool_shape p <> s) /\ is_Some (sc_shm (w_st w)) /\
     sh_width s * 4 <= sh_stride s /\ (exists cs, w_calls w = MemOk :: MemOk :: cs) /\ b = w_next w + 1).

Definition damage_event (r : DamageRect) : action sc_event :=
  Ev (ScDamage (dr_x r) (dr_y r) (dr_width r) (dr_height r)).

Lemma shape_checks s : shape_ok s ->
  sh_width s * 4 < 2 ^ 64 /\ sh_bytes s < 2 ^ 64 /\ 0 < sh_bytes s.
Proof.
  intros (Hw & Hh & Hs & Hw31 & Hb). change (2 ^ 31) with 2147483648 in *.
  change (2 ^ 64) with 18446744073709551616. unfold sh_bytes in *. split_and!; [lia|lia|nia].
Qed.

(** A new pool, when the memory calls succeed. *)
Lemma pool_new_runs s (w : world ScreencopyState sc_event) cs :
  shape_ok s -> sh_width s * 4 <= sh_stride s -> w_calls w = MemOk :: MemOk :: cs ->
  exists w' p sl old,
    ShmBufferPool_new (sh_width s) (sh_height s) (sh_stride s) (sh_format s) w = Done w' (inl p) /\
    pool_shape p = s /\ active_slot p = Some sl /\ sl_buffer sl = w_next w + 1 /\
    w_mem w' !! (w_next w + 1) = Some old /\ zlen old = sh_bytes s /\
    w_st w' = w_st w /\ w_attempts w' = w_attempts w /\ w_trips w' = w_trips w.
Proof.
  intros Hok Hstride Ecs. destruct (shape_checks s Hok) as (C1 & C2 & C3).
  unfold ShmBufferPool_new, checked_mul. rewrite (proj2 (Z.ltb_lt _ _) C1).
  erewrite run_bind; [|done]. rewrite (proj2 (Z.ltb_ge _ _) Hstride).
  change (sh_stride s * sh_height s) with (sh_bytes s).
  rewrite (proj2 (Z.ltb_lt _ _) C2). erewrite run_bind; [|done].
  rewrite (proj2 (Z.eqb_neq (sh_bytes s) 0)) by lia.
  destruct w as [st mem next atts trips calls lg]. cbn in Ecs. subst calls.
  unfold ShmSlot_new, mem_call, on_error, mbind, cap_bind. cbn.
  eexists _, _, _, (replicate (Z.to_nat (sh_bytes s)) 0). split_and!; try done.
  - by destruct s.
  - cbn. rewrite lookup_insert_ne by lia. by rewrite lookup_insert_eq.
  - unfold zlen. by rewrite length_replicate, Z2Nat.id by lia.
Qed.

(** The world when the pool that does not fit is gone. *)
Lemma pool_drop_runs (o : option ShmBufferPool) (w : world ScreencopyState sc_event) : exists mem lg,
  match o with Some old => ShmBufferPool_drop old | None => mret tt end w =
  Done (mkWorld (w_st w) mem (w_next w) (w_attempts w) (w_trips w) (w_calls w) lg) (inl tt).
Proof.
  destruct w as [st mem next atts trips calls lg]. destruct o as [p|]; eexists _, _; [|reflexivity].
  unfold ShmBufferPool_drop, ShmSlot_drop. cbv. reflexivity.
Qed.

Lemma another_shape_needs_pool st p s :
  noted st s -> sc_pool st = Some p -> pool_shape p <> s ->
  needs_new_pool st (Some (sp_format p)) (sh_format s) = true.
Proof.
  intros (Hw & Hh & Hs & _) Ep Hne. unfold needs_new_pool. rewrite Ep, Hw, Hh, Hs.
  destruct (Z.eqb_spec (sp_width p) (sh_width s)) as [E1|]; [|done].
  destruct (Z.eqb_spec (sp_height p) (sh_height s)) as [E2|]; [|done].
  destruct (Z.eqb_spec (sp_stride p) (sh_stride s)) as [E3|]; [|done].
  case_bool_decide as E4; [|done]. injection E4 as E4. destruct Hne. unfold pool_shape.
  rewrite E1, E2, E3, E4. by destruct s.
Qed.

(** The world after the pool is there. *)
Lemma ensure_pool_runs w s b :
  noted (w_st w) s -> copies_into w s b ->
  exists w' p sl old, ensure_pool (sp_format <$> sc_pool (w_st w)) (sh_format s) w = Done w' (inl tt) /\
    w_st w' = with_pool (w_st w) (Some p) /\ pool_shape p = s /\ active_slot p = Some sl /\
    sl_buffer sl = b /\ w_mem w' !! b = Some old /\ zlen old = sh_bytes s /\
    w_attempts w' = w_attempts w /\ w_trips w' = w_trips w.
Proof.
  intros Hn Hc. pose proof Hn as (Hw & Hh & Hs & _ & _ & _ & Hok). unfold ensure_pool.
  erewrite run_bind; [|done].
  destruct Hc as [(p & sl & old & Ep & Hsh & Es & Eb & Em & El)|(Hne & [shm Eshm] & Hstride & (cs & Ecs) & ->)].
  - unfold needs_new_pool. rewrite Ep. rewrite <- Hsh in Hw, Hh, Hs. cbn in Hw, Hh, Hs.
    cbn [fmap option_fmap option_map]. rewrite Hw, Hh, Hs, !Z.eqb_refl. cbn [negb orb].
    rewrite bool_decide_eq_true_2 by (rewrite <- Hsh; done). cbn [negb].
    exists w, p, sl, old. split_and!; try done. rewrite <- Ep. by destruct (w_st w).
  - assert (needs_new_pool (w_st w) (sp_format <$> sc_pool (w_st w)) (sh_format s) = true) as ->.
    { destruct (sc_pool (w_st w)) as [p|] eqn:Ep; [|by unfold needs_new_pool; rewrite Ep].
      by apply another_shape_needs_pool; [| |apply Hne]. }
    erewrite run_bind; [|by rewrite Eshm]. erewrite run_bind; [|done].
    destruct (pool_drop_runs (sc_pool (w_st w)) (mkWorld (with_pool (w_st w) None) (w_mem w) (w_next w)
      (w_attempts w) (w_trips w) (w_calls w) (w_log w))) as (mem & lg & Hd).
    erewrite run_bind; [|exact Hd]. cbn [w_st w_mem w_next w_attempts w_trips w_calls]. rewrite Hw, Hh, Hs.
    destruct (pool_new_runs s (mkWorld (with_pool (w_st w) None) mem (w_next w) (w_attempts w)
      (w_trips w) (w_calls w) lg) cs Hok Hstride Ecs) as (w' & p & sl & old & E1 & E2 & E3 & E4 & E5 & E6 & E7 & E8 & E9).
    erewrite run_bind; [|exact E1].
    by exists (with_st (with_pool (w_st w) (Some p)) w'), p, sl, old.
Qed.

(** The events of the two phases. *)
Definition announcement (s : shape) : list (action sc_event) :=
  [Ev (ScBuffer (Some (sh_format s)) (sh_width s) (sh_height s) (sh_stride s)); Ev ScBufferDone].

Definition delivery (b : Z) (bytes : list Z) (damage : list DamageRect) (hi lo nsec : Z)
    : list (action sc_event) :=
  WriteBuffer b bytes :: (damage_event <$> damage) ++ [Ev (ScReady hi lo nsec)].

Lemma acts_app l l' w w1 :
  acts sc_handle l w = Done w1 (inl tt) -> acts sc_handle (l ++ l') w = acts sc_handle l' w1.
Proof.
  revert w. induction l as [|a l IH]; intros w; cbn [acts app]; [by intros [= <-]|].
  unfold mbind, cap_bind. destruct (act sc_handle a w) as [w2 [[]|e]|w2|w2]; try done. apply IH.
Qed.

Lemma acts_damage damage w : exists lg,
  acts sc_handle (damage_event <$> damage) w =
  Done (mkWorld (with_frame (w_st w) (sc_ready (w_st w)) (sc_failed (w_st w)) (sc_buffer_done (w_st w))
          (sc_damage (w_st w) ++ damage) (sc_timestamp (w_st w)) (sc_attached (w_st w)))
        (w_mem w) (w_next w) (w_attempts w) (w_trips w) (w_calls w) lg) (inl tt).
Proof.
  revert w. induction damage as [|r damage IH]; intros [st mem next atts trips calls lg].
  - exists lg. cbn. rewrite app_nil_r. by destruct st.
  - rewrite fmap_cons. cbn [acts]. erewrite run_bind; [|reflexivity].
    edestruct IH as [lg' ->]. exists lg'. cbn. rewrite <- app_assoc. by destruct r.
Qed.

(** What the announcement leaves in the state. *)
Definition told (st : ScreencopyState) (s : shape) : ScreencopyState :=
  mkScreencopy (sc_shm st) (sc_pool st) (sc_manager st) (sc_discovered st) (sc_output st) (sc_ready st)
    (sc_failed st) true (sc_damage st) (from_wl_shm (sh_format s)) (sh_width s) (sh_height s)
    (sh_stride s) (sh_format s) (Some (sh_format s)) (sc_timestamp st) (sc_attached st) (sc_stopped st).

Lemma phase1_runs f w s i a rest :
  sc_stopped (w_st w) = false -> sc_failed (w_st w) = false -> sc_buffer_done (w_st w) = false ->
  w_attempts w = i ++ a :: rest -> Forall idle_pass i -> brings a -> at_acts a = announcement s ->
  exists lg, phase1 f w = Done (mkWorld (told (w_st w) s) (w_mem w) (w_next w) rest (w_trips w)
    (w_calls w) lg) (inl tt).
Proof.
  intros Hs Hf Hd Ew Hi Ha Ea. unfold phase1. eexists.
  eapply wait_once; [by rewrite Hs, Hf, Hd|exact Hi|exact Ha|exact Ew| |].
  - rewrite Ea. destruct w as [[] mem next atts trips calls lg]. cbn. reflexivity.
  - cbn. done.
Qed.

Lemma delivery_runs b bytes damage hi lo nsec w old :
  w_mem w !! b = Some old -> zlen bytes = zlen old ->
  exists lg, acts sc_handle (delivery b bytes damage hi lo nsec) w =
    Done (mkWorld (with_frame (w_st w) true (sc_failed (w_st w)) (sc_buffer_done (w_st w))
            (sc_damage (w_st w) ++ damage) (timestamp_of hi lo nsec) (sc_attached (w_st w)))
          (<[b := bytes]> (w_mem w)) (w_next w) (w_attempts w) (w_trips w) (w_calls w) lg) (inl tt).
Proof.
  intros Em El. destruct w as [st mem next atts trips calls lg]. cbn in Em.
  unfold delivery. cbn [acts].
  assert (H : act sc_handle (WriteBuffer b bytes) (mkWorld st mem next atts trips calls lg) =
    Done (mkWorld st (<[b := bytes]> mem) next atts trips calls (lg ++ [Act (WriteBuffer b bytes)])) (inl tt)).
  { unfold act, write_mem. rewrite run_log. unfold mbind, cap_bind. cbn. by rewrite Em, El, Z.eqb_refl. }
  rewrite (run_bind _ _ _ _ _ H).
  edestruct (acts_damage damage) as [lg' H2]. rewrite (acts_app _ _ _ _ H2). eexists. cbn. reflexivity.
Qed.

Lemma phase2_runs f w i a rest b bytes damage hi lo nsec old :
  sc_stopped (w_st w) = false -> sc_failed (w_st w) = false -> sc_ready (w_st w) = false ->
  w_attempts w = i ++ a :: rest -> Forall idle_pass i -> brings a ->
  at_acts a = delivery b bytes damage hi lo nsec -> w_mem w !! b = Some old -> zlen bytes = zlen old ->
  exists lg, phase2 f w =
    Done (mkWorld (with_frame (w_st w) true (sc_failed (w_st w)) (sc_buffer_done (w_st w))
            (sc_damage (w_st w) ++ damage) (timestamp_of hi lo nsec) (sc_attached (w_st w)))
          (<[b := bytes]> (w_mem w)) (w_next w) rest (w_trips w) (w_calls w) lg) (inl tt).
Proof.
  intros Hs Hf Hr Ew Hi Ha Ea Em El.
  destruct (delivery_runs b bytes damage hi lo nsec (with_attempts rest w) old Em El) as [lg Hd].
  exists lg. unfold phase2.
  eapply wait_once; [by rewrite Hs, Hf, Hr|exact Hi|exact Ha|exact Ew| |done].
  rewrite Ea. exact Hd.
Qed.

(** The damage of a frame without any is the whole frame. *)
Definition or_whole (s : shape) (damage : list DamageRect) : list DamageRect :=
  match damage with [] => [mkDamageRect 0 0 (sh_width s) (sh_height s)] | _ => damage end.

Lemma active_data_runs p sl bytes data (w : world ScreencopyState sc_event) :
  active_slot p = Some sl -> w_mem w !! sl_buffer sl = Some bytes ->
  slice bytes 0 (pool_buffer_size p) = Some data ->
  active_data p w = Done (with_log [ReadBuffer (sl_buffer sl)] w) (inl data).
Proof.
  intros E1 E2 E3. unfold active_data, mbind, cap_bind, option_bind. rewrite E1. cbn.
  by rewrite E2, E3.
Qed.

Lemma take_frame_runs w s p sl bytes format :
  noted (w_st w) s -> from_wl_shm (sh_format s) = Some format -> sc_pool (w_st w) = Some p ->
  pool_shape p = s -> active_slot p = Some sl -> w_mem w !! sl_buffer sl = Some bytes ->
  zlen bytes = sh_bytes s ->
  exists w', take_frame w = Done w' (inl (mkCapturedFrame bytes (or_whole s (sc_damage (w_st w))) format
      (sh_width s) (sh_height s) (sh_stride s) (sc_timestamp (w_st w)))) /\
    w_attempts w' = w_attempts w /\ w_trips w' = w_trips w /\ sc_stopped (w_st w') = sc_stopped (w_st w) /\
    sc_pool (w_st w') = Some (pool_swap p).
Proof.
  intros (Hw & Hh & Hs & _ & Hf & _ & Hok) Efmt Ep Esh Esl Em El. pose proof (shape_checks s Hok) as (_ & C2 & C3).
  assert (Esz : slice bytes 0 (pool_buffer_size p) = Some bytes).
  { unfold pool_buffer_size. replace (sp_stride p * sp_height p) with (sh_bytes s) by (by rewrite <- Esh).
    rewrite wrap_small by (unfold fits; lia). unfold slice. rewrite decide_True by lia.
    rewrite drop_0, take_ge; [done|]. unfold zlen in El. lia. }
  destruct w as [st mem next atts trips calls lg]. cbn in *. unfold take_frame.
  rewrite run_get. cbn [w_st]. rewrite run_put, Hf, Efmt, run_ok_or, Ep, run_ok_or.
  erewrite run_bind; [|eapply active_data_runs; [exact Esl|exact Em|exact Esz]].
  rewrite run_put, run_log, Hw, Hh, Hs.
  replace (if bool_decide (sc_damage st = []) then _ else _) with (or_whole s (sc_damage st))
    by (by destruct (sc_damage st)).
  by eexists.
Qed.

(** From the armed buffer to the frame. *)
Lemma copy_and_take_runs f w s p sl old bytes format damage hi lo nsec i a rest ts :
  noted (w_st w) s -> from_wl_shm (sh_format s) = Some format -> time_ok hi lo nsec ->
  sc_stopped (w_st w) = false -> sc_failed (w_st w) = false -> sc_ready (w_st w) = false ->
  sc_damage (w_st w) = [] -> sc_pool (w_st w) = Some p -> pool_shape p = s ->
  active_slot p = Some sl -> w_mem w !! sl_buffer sl = Some old -> zlen old = sh_bytes s ->
  zlen bytes = sh_bytes s -> w_trips w = mkTrip [] true :: ts -> w_attempts w = i ++ a :: rest ->
  Forall idle_pass i -> brings a -> at_acts a = delivery (sl_buffer sl) bytes damage hi lo nsec ->
  exists w', copy_and_take f w = Done w' (inl (mkCapturedFrame bytes (or_whole s damage) format
      (sh_width s) (sh_height s) (sh_stride s) ((hi * 2 ^ 32 + lo) * 10 ^ 9 + nsec))) /\
    w_attempts w' = rest /\ w_trips w' = ts /\ sc_stopped (w_st w') = false /\
    sc_pool (w_st w') = Some (pool_swap p).
Proof.
  intros Hn Efmt Ht Hs Hf Hr Hd Ep Esh Esl Em Eold El Etr Eat Hi Ha Ea.
  destruct (timestamp_exact _ _ _ Ht) as [Ets _].
  destruct w as [st mem next atts trips calls lg]. cbn in *. subst trips.
  unfold copy_and_take. erewrite run_bind; [|reflexivity].
  unfold attach_and_copy. erewrite run_bind.
  2: { rewrite run_get. cbn [w_st]. rewrite Ep, run_ok_or. unfold active_buffer. rewrite Esl.
       erewrite run_bind; [|reflexivity]. rewrite run_tell. reflexivity. }
  edestruct (phase2_runs f) as [lg' H2]; [..|erewrite run_bind; [|exact H2]].
  1-9: cbn; try done; first [exact Eat|exact Em|congruence].
  rewrite run_get, run_tell. cbn. rewrite Hs, Hf, Hd. cbn.
  edestruct (take_frame_runs) as (w' & E1 & E2 & E3 & E4 & E5); [..|exists w'; rewrite E1].
  1: cbn; exact Hn.
  1: exact Efmt.
  1: cbn; exact Ep.
  1: exact Esh. 1: exact Esl. 1: cbn; apply lookup_insert_eq. 1: exact El.
  cbn in *. rewrite Ets, E4. by split_and!.
Qed.

(** The world once the frame object has its id. *)
Definition frame_named (w : world ScreencopyState sc_event) : world ScreencopyState sc_event :=
  mkWorld (w_st w) (w_mem w) (w_next w + 1) (w_attempts w) (w_trips w) (w_calls w) (w_log w).

(** C37. A capture that the compositor answers succeeds: from any state between
    frames, whether there is no pool, one of the announced shape or one of another shape
    (which is dropped and replaced), with the announcement in one batch and the picture in
    another, each after any number of fruitless wake-ups, and with memory to be had when
    a pool is to be made ([copies_into]), [next_frame] returns exactly the picture, its
    damage (the whole frame when none was reported), time and format, and leaves the
    backend ready for the next frame, on the other buffer. *)
Theorem screencopy_delivers w s b format bytes damage hi lo nsec manager output i1 a1 i2 a2 rest ts :
  sc_stopped (w_st w) = false -> sc_manager (w_st w) = Some manager -> sc_output (w_st w) = Some output ->
  shape_ok s -> from_wl_shm (sh_format s) = Some format -> time_ok hi lo nsec ->
  copies_into (frame_named w) s b -> zlen bytes = sh_bytes s ->
  w_attempts w = i1 ++ a1 :: i2 ++ a2 :: rest -> w_trips w = mkTrip [] true :: ts ->
  Forall idle_pass i1 -> Forall idle_pass i2 -> brings a1 -> brings a2 ->
  at_acts a1 = announcement s -> at_acts a2 = delivery b bytes damage hi lo nsec ->
  exists w' p sl, sc_next_frame w = Done w' (inl (mkCapturedFrame bytes (or_whole s damage)
      format (sh_width s) (sh_height s) (sh_stride s) ((hi * 2 ^ 32 + lo) * 10 ^ 9 + nsec))) /\
    w_attempts w' = rest /\ w_trips w' = ts /\ sc_stopped (w_st w') = false /\
    pool_shape p = s /\ active_slot p = Some sl /\ sl_buffer sl = b /\
    sc_pool (w_st w') = Some (pool_swap p).
Proof.
  intros Hstop Hman Hout Hok Hfmt Htime Hcopy Hbytes Eatt Etrip Hi1 Hi2 Hb1 Hb2 Ea1 Ea2.
  destruct w as [st mem next atts trips calls lg]. cbn in *. subst atts trips.
  rewrite sc_next_frame_eq, run_get. cbn [w_st]. rewrite Hstop, run_put, Hman, run_ok_or, Hout, run_ok_or.
  rewrite run_fresh, run_tell.
  edestruct (phase1_runs next) as [lg' H1]; [..|erewrite run_bind; [|exact H1]].
  1-7: cbn; try done; first [exact Ea1].
  rewrite run_get. unfold arm_and_take. cbn [w_st told sc_failed sc_wl_format with_frame with_log with_st].
  rewrite run_ok_or.
  match goal with |- context [(ensure_pool _ _ ≫= _) ?w] =>
    destruct (ensure_pool_runs w s b) as (w1 & p & sl & old & E1 & E2 & E3 & E4 & E5 & E6 & E7 & E8 & E9);
      [by split_and!|exact Hcopy|]
  end.
  erewrite run_bind; [|exact E1].
  cbn in E2, E8, E9. subst b.
  edestruct (copy_and_take_runs next w1 s p sl old bytes format damage hi lo nsec i2 a2 rest ts)
    as (w' & R1 & R2 & R3 & R4 & R5); rewrite ?E2; cbn; try done.
  exists w', p, sl. by split_and!.
Qed.

(** A backend whose pool is for pictures of one pixel when the next has two; the
    compositor keeps it waiting through a signal and a lost race for the socket. *)
Definition demo_fresh : world ScreencopyState sc_event :=
  mkWorld (mkScreencopy (Some 1) (Some (mkPool (mkSlot 5 6 4, mkSlot 7 8 4) 0 1 1 4 1)) (Some 3) [] (Some 2)
       false false false [] None 0 0 0 0 None 0 false false)
    {[6 := [0; 0; 0; 0]; 8 := [0; 0; 0; 0]]} 10
    [mkAttempt [] true None true 1 PollEintr None; answer (announcement (mkShape 2 1 8 1));
     mkAttempt [] true None false 1 PollIn None; mkAttempt [] true None true 1 PollIn None;
     answer (delivery 12 [1; 2; 3; 4; 5; 6; 7; 8] [mkDamageRect 1 0 1 1] 0 6 5); silence]
    [mkTrip [] true] [MemOk; MemOk] [].

Lemma screencopy_delivers_witness :
  exists w' p sl, sc_next_frame demo_fresh = Done w' (inl (mkCapturedFrame [1; 2; 3; 4; 5; 6; 7; 8]
      [mkDamageRect 1 0 1 1] Xrgb8888 2 1 8 (6 * 10 ^ 9 + 5))) /\
    w_attempts w' = [silence] /\ w_trips w' = [] /\ sc_stopped (w_st w') = false /\
    pool_shape p = mkShape 2 1 8 1 /\ active_slot p = Some sl /\ sl_buffer sl = 12 /\
    sc_pool (w_st w') = Some (pool_swap p).
Proof.
  apply (screencopy_delivers demo_fresh (mkShape 2 1 8 1) 12 Xrgb8888 [1; 2; 3; 4; 5; 6; 7; 8]
    [mkDamageRect 1 0 1 1] 0 6 5 3 2
    [mkAttempt [] true None true 1 PollEintr None] (answer (announcement (mkShape 2 1 8 1)))
    [mkAttempt [] true None false 1 PollIn None; mkAttempt [] true None true 1 PollIn None]
    (answer (delivery 12 [1; 2; 3; 4; 5; 6; 7; 8] [mkDamageRect 1 0 1 1] 0 6 5)) [silence] []);
    try reflexivity.
  - unfold shape_ok, sh_bytes. cbn. lia.
  - unfold time_ok, fits. cbn. lia.
  - right. split_and!; [by intros p [= <-]|by exists 1|cbn; lia|by exists []|reflexivity].
  - apply list.Forall_singleton. split_and!; [done..|]. right. split; [done|by left].
  - repeat apply list.Forall_cons_2; [..|by apply list.Forall_nil_2];
      (split_and!; [done..|]); [by left|right; split; [done|by right]].
  - by split.
  - by split.
Defined.

(** A call that fails in its second phase leaves its frame object, and the next call
    takes the late events of that frame for its own: it hands out a buffer nothing was
    copied to, with the damage of the other picture. *)
Example call_after_failure_unsound :
  let atts := [answer (announcement (mkShape 2 1 8 1)); mkAttempt [] true None true 1 (PollErrno 4) None;
               answer ([Ev (ScDamage 1 0 1 1); Ev (ScReady 0 5 7)] ++ announcement (mkShape 1 1 4 1))] in
  let w := mkWorld (w_st demo_fresh) (w_mem demo_fresh) 10 atts [mkTrip [] true; mkTrip [] true]
             [MemOk; MemOk; MemOk; MemOk] [] in
  match sc_next_frame w with
  | Done w (inr _) =>
      match sc_next_frame w with
      | Done _ (inl f) => f = mkCapturedFrame [0; 0; 0; 0] [mkDamageRect 1 0 1 1] Xrgb8888 1 1 4 (5 * 10 ^ 9 + 7)
      | _ => False
      end
  | _ => False
  end.
Proof. vm_compute. reflexivity. Qed.
