(* ===== verification/ExtCapture.v ===== *)
(** The ext-image-copy-capture backend ([crates/remoteway-capture/src/ext_capture.rs]):
    the event handlers, the constructor with its choice of what to capture,
    [next_frame], and the listing of toplevels.

    [DiscoveredOutput], its [Name] handler, the time stamp and the failure message are
    repeated in this file from [screencopy.rs]; the definitions of [Screencopy] serve. *)

From stdpp Require Import strings.
From S2P Require Import Prelude Delta DesktopDetect ServerPipeline CaptureThread CaptureSelect.
From S2P Require Import CaptureIo Screencopy.

(** ** State *)

Record ToplevelInfo := mkToplevelInfo { ti_app_id : text; ti_title : text; ti_identifier : text }.

Record DiscoveredToplevel := mkDiscoveredToplevel { dt_handle : Z; dt_info : ToplevelInfo }.

Record ExtCaptureState := mkExt {
  ex_shm : option Z; ex_output_manager : option Z; ex_toplevel_manager : option Z;
  ex_copy_manager : option Z; ex_toplevel_list : option Z;
  ex_outputs : list DiscoveredOutput; ex_toplevels : list DiscoveredToplevel;
  ex_source : option Z; ex_session : option Z; ex_pool : option ShmBufferPool;
  ex_width : Z; ex_height : Z; ex_format : option Z; ex_session_ready : bool;
  ex_ready : bool; ex_transform : Z; ex_failed : bool; ex_damage : list DamageRect;
  ex_timestamp : Z; ex_stopped : bool }.

Definition ExtCaptureState_empty : ExtCaptureState :=
  mkExt None None None None None [] [] None None None 0 0 None false false 0 false [] 0 false.

(** The fields that change together. *)
Definition with_globals (st : ExtCaptureState) (shm om tm cm tl : option Z) (outputs : list DiscoveredOutput)
    : ExtCaptureState :=
  mkExt shm om tm cm tl outputs (ex_toplevels st) (ex_source st) (ex_session st) (ex_pool st)
    (ex_width st) (ex_height st) (ex_format st) (ex_session_ready st) (ex_ready st) (ex_transform st)
    (ex_failed st) (ex_damage st) (ex_timestamp st) (ex_stopped st).

Definition with_toplevels (st : ExtCaptureState) (l : list DiscoveredToplevel) : ExtCaptureState :=
  mkExt (ex_shm st) (ex_output_manager st) (ex_toplevel_manager st) (ex_copy_manager st)
    (ex_toplevel_list st) (ex_outputs st) l (ex_source st) (ex_session st) (ex_pool st)
    (ex_width st) (ex_height st) (ex_format st) (ex_session_ready st) (ex_ready st) (ex_transform st)
    (ex_failed st) (ex_damage st) (ex_timestamp st) (ex_stopped st).

Definition with_objects (st : ExtCaptureState) (source session : option Z) (pool : option ShmBufferPool)
    : ExtCaptureState :=
  mkExt (ex_shm st) (ex_output_manager st) (ex_toplevel_manager st) (ex_copy_manager st)
    (ex_toplevel_list st) (ex_outputs st) (ex_toplevels st) source session pool
    (ex_width st) (ex_height st) (ex_format st) (ex_session_ready st) (ex_ready st) (ex_transform st)
    (ex_failed st) (ex_damage st) (ex_timestamp st) (ex_stopped st).

Definition with_params (st : ExtCaptureState) (width height : Z) (format : option Z) (ready : bool)
    : ExtCaptureState :=
  mkExt (ex_shm st) (ex_output_manager st) (ex_toplevel_manager st) (ex_copy_manager st)
    (ex_toplevel_list st) (ex_outputs st) (ex_toplevels st) (ex_source st) (ex_session st) (ex_pool st)
    width height format ready (ex_ready st) (ex_transform st) (ex_failed st) (ex_damage st)
    (ex_timestamp st) (ex_stopped st).

Definition with_capture (st : ExtCaptureState) (ready : bool) (transform : Z) (failed : bool)
    (damage : list DamageRect) (timestamp : Z) (stopped : bool) : ExtCaptureState :=
  mkExt (ex_shm st) (ex_output_manager st) (ex_toplevel_manager st) (ex_copy_manager st)
    (ex_toplevel_list st) (ex_outputs st) (ex_toplevels st) (ex_source st) (ex_session st) (ex_pool st)
    (ex_width st) (ex_height st) (ex_format st) (ex_session_ready st) ready transform failed damage
    timestamp stopped.

(** ** Events *)

(** Of the registry, of an output by its global, of the session, of the frame, and of
    a toplevel by its handle; a format the library does not know is [None]. *)
Inductive ext_event :=
  | ExGlobal (name : Z) (interface : text) (version : Z)
  | ExOutputName (global : Z) (name : text)
  | ExBufferSize (width height : Z)
  | ExShmFormat (format : option Z)
  | ExDone
  | ExStopped
  | ExDamage (x y width height : Z)
  | ExPresentationTime (tv_sec_hi tv_sec_lo tv_nsec : Z)
  | ExTransform (transform : Z)
  | ExReady
  | ExFailed
  | ExAppId (handle : Z) (app_id : text)
  | ExTitle (handle : Z) (title : text)
  | ExIdentifier (handle : Z) (identifier : text)
  | ExClosed (handle : Z)
  | ExOther.

Definition wl_shm_format_xrgb8888 : Z := 1.

Definition output_source_manager_v1 : text := str "ext_output_image_capture_source_manager_v1".
Definition toplevel_source_manager_v1 : text :=
  str "ext_foreign_toplevel_image_capture_source_manager_v1".
Definition copy_capture_manager_v1 : text := str "ext_image_copy_capture_manager_v1".
Definition toplevel_list_v1 : text := str "ext_foreign_toplevel_list_v1".

Definition ext_registry_global (st : ExtCaptureState) (name : Z) (interface : text) (version : Z)
    : ExtCaptureState * list cap_req :=
  let bind_to v shm om tm cm tl outputs :=
    (with_globals st shm om tm cm tl outputs, [BindGlobal name interface (Z.min version v)]) in
  let '(shm, om, tm, cm, tl) := (ex_shm st, ex_output_manager st, ex_toplevel_manager st,
                                 ex_copy_manager st, ex_toplevel_list st) in
  if bool_decide (interface = str "wl_shm") then bind_to 1 (Some name) om tm cm tl (ex_outputs st)
  else if bool_decide (interface = str "wl_output") then
    bind_to 4 shm om tm cm tl (ex_outputs st ++ [mkDiscoveredOutput name [] name])
  else if bool_decide (interface = output_source_manager_v1) then
    bind_to 1 shm (Some name) tm cm tl (ex_outputs st)
  else if bool_decide (interface = toplevel_source_manager_v1) then
    bind_to 1 shm om (Some name) cm tl (ex_outputs st)
  else if bool_decide (interface = copy_capture_manager_v1) then
    bind_to 1 shm om tm (Some name) tl (ex_outputs st)
  else if bool_decide (interface = toplevel_list_v1) then
    bind_to 1 shm om tm cm (Some name) (ex_outputs st)
  else (st, []).

(** [iter_mut().find(handle)]: [None] when no toplevel has that handle. *)
Fixpoint change_toplevel (handle : Z) (f : ToplevelInfo -> ToplevelInfo) (l : list DiscoveredToplevel)
    : option (list DiscoveredToplevel) :=
  match l with
  | [] => None
  | t :: l =>
      if dt_handle t =? handle then Some (mkDiscoveredToplevel handle (f (dt_info t)) :: l)
      else cons t <$> change_toplevel handle f l
  end.

(** The handler of a toplevel's events. *)
Definition toplevel_event (l : list DiscoveredToplevel) (ev : ext_event) : list DiscoveredToplevel :=
  match ev with
  | ExAppId handle app_id =>
      default (l ++ [mkDiscoveredToplevel handle (mkToplevelInfo app_id [] [])])
        (change_toplevel handle (fun t => mkToplevelInfo app_id (ti_title t) (ti_identifier t)) l)
  | ExTitle handle title =>
      default l (change_toplevel handle (fun t => mkToplevelInfo (ti_app_id t) title (ti_identifier t)) l)
  | ExIdentifier handle identifier =>
      default l (change_toplevel handle (fun t => mkToplevelInfo (ti_app_id t) (ti_title t) identifier) l)
  | ExClosed handle => filter (fun t => dt_handle t <> handle) l
  | _ => l
  end.

(** [x as u32] of an [i32]. *)
Definition u32 (n : Z) : Z := wrap 32 n.

Definition ext_handle (st : ExtCaptureState) (ev : ext_event) : ExtCaptureState * list cap_req :=
  let '(ready, transform, failed, damage, ts, stopped) :=
    (ex_ready st, ex_transform st, ex_failed st, ex_damage st, ex_timestamp st, ex_stopped st) in
  match ev with
  | ExGlobal name interface version => ext_registry_global st name interface version
  | ExOutputName global name =>
      (with_globals st (ex_shm st) (ex_output_manager st) (ex_toplevel_manager st) (ex_copy_manager st)
         (ex_toplevel_list st) (name_output global name (ex_outputs st)), [])
  | ExBufferSize width height => (with_params st width height (ex_format st) (ex_session_ready st), [])
  | ExShmFormat format =>
      let is_xrgb := bool_decide (format = Some wl_shm_format_xrgb8888) in
      (with_params st (ex_width st) (ex_height st)
         (if bool_decide (ex_format st = None) || is_xrgb
          then match format with Some f => Some f | None => ex_format st end else ex_format st)
         (ex_session_ready st), [])
  | ExDone => (with_params st (ex_width st) (ex_height st) (ex_format st) true, [])
  | ExStopped => (with_capture st ready transform failed damage ts true, [])
  | ExDamage x y width height =>
      (with_capture st ready transform failed
         (damage ++ [DamageRect_new (u32 x) (u32 y) (u32 width) (u32 height)]) ts stopped, [])
  | ExPresentationTime hi lo nsec =>
      (with_capture st ready transform failed damage (timestamp_of hi lo nsec) stopped, [])
  | ExTransform t => (with_capture st ready t failed damage ts stopped, [])
  | ExReady => (with_capture st true transform failed damage ts stopped, [])
  | ExFailed => (with_capture st ready transform true damage ts stopped, [])
  | ExAppId _ _ | ExTitle _ _ | ExIdentifier _ _ | ExClosed _ =>
      (with_toplevels st (toplevel_event (ex_toplevels st) ev), [])
  | ExOther => (st, [])
  end.

(** ** The choice of the source *)

(** [{:?}] of a string: the escapes of [char::escape_debug]; printable text beyond ASCII
    is written as it is. *)
Definition hex_digit (n : Z) : Z := if n <? 10 then 48 + n else 87 + n.

Definition escape_debug (c : Z) : text :=
  if c =? 0 then str "\0" else if c =? 9 then str "\t" else if c =? 10 then str "\n"
  else if c =? 13 then str "\r" else if c =? 34 then [92; 34] else if c =? 92 then [92; 92]
  else if (c <? 32) || (c =? 127) then
    str "\u{" ++ (if c <? 16 then [hex_digit c] else [hex_digit (c / 16); hex_digit (c mod 16)]) ++ str "}"
  else [c].

Definition debug_str (s : text) : text := [34] ++ mjoin (escape_debug <$> s) ++ [34].

Fixpoint comma_separated (l : list text) : text :=
  match l with
  | [] => []
  | [s] => s
  | s :: l => s ++ str ", " ++ comma_separated l
  end.

Definition debug_list (l : list text) : text := str "[" ++ comma_separated (debug_str <$> l) ++ str "]".

Definition toplevel_not_found (app_id : text) (l : list DiscoveredToplevel) : CaptureError :=
  CaptureFailed (str "toplevel '" ++ app_id ++ str "' not found; available: " ++
                 debug_list ((fun t => ti_app_id (dt_info t)) <$> l)).

(** The toplevel that is not known: one with an identifier outside the known ones, and,
    when nothing was known, the first there is. *)
Definition new_toplevel (known : list text) (l : list DiscoveredToplevel) : option DiscoveredToplevel :=
  match list_find (fun t => ti_identifier (dt_info t) <> [] /\ ti_identifier (dt_info t) ∉ known) l with
  | Some (_, t) => Some t
  | None => if bool_decide (known = []) then head l else None
  end.

(** The manager that makes the source, and the object it is made of. *)
Definition choose_source (st : ExtCaptureState) (source : CaptureSource) : (Z * Z) + CaptureError :=
  match source with
  | Output name =>
      match ex_output_manager st with
      | None => inr NoBackend
      | Some manager =>
          match name with
          | Some name =>
              match list_find (fun o => do_name o = name) (ex_outputs st) with
              | Some (_, o) => inl (manager, do_wl_output o)
              | None => inr (OutputNotFound name)
              end
          | None =>
              match head (ex_outputs st) with
              | Some o => inl (manager, do_wl_output o)
              | None => inr NoOutputs
              end
          end
      end
  | Toplevel app_id =>
      match ex_toplevel_manager st with
      | None => inr NoBackend
      | Some manager =>
          match list_find (fun t => ti_app_id (dt_info t) = app_id) (ex_toplevels st) with
          | Some (_, t) => inl (manager, dt_handle t)
          | None => inr (toplevel_not_found app_id (ex_toplevels st))
          end
      end
  | NewToplevel known =>
      match ex_toplevel_manager st with
      | None => inr NoBackend
      | Some manager =>
          match new_toplevel known (ex_toplevels st) with
          | Some t => inl (manager, dt_handle t)
          | None => inr (CaptureFailed (str "no new toplevel found"))
          end
      end
  end.

(** ** Operations *)

Definition ext_cap (A : Type) : Type := cap ExtCaptureState ext_event A.

(** [Options::PaintCursors]. *)
Definition PaintCursors : Z := 1.

Definition ext_stride (st : ExtCaptureState) : Z := wrap 32 (ex_width st * 4).

Definition from_result {A} (r : A + CaptureError) : ext_cap A :=
  match r with inl a => mret a | inr e => throw e end.

Definition create_session (source : CaptureSource) : ext_cap unit :=
  st ← get_st;
  p ← from_result (choose_source st source);
  src ← fresh;
  tell [CreateSource src p.1 p.2];;
  put_st (with_objects st (Some src) (ex_session st) (ex_pool st));;
  manager ← ok_or (ex_copy_manager st)
    (CaptureFailed (str "BUG: copy_capture_manager not initialized"));
  session ← fresh;
  tell [CreateSession session manager src PaintCursors];;
  st ← get_st;
  put_st (with_objects st (ex_source st) (Some session) (ex_pool st)).

Definition create_pool : ext_cap unit :=
  st ← get_st;
  if negb (ex_session_ready st) then throw (CaptureFailed (str "session setup incomplete"))
  else
    format ← ok_or (ex_format st) (CaptureFailed (str "no supported SHM format"));
    (match ex_shm st with Some _ => mret tt | None => crash end);;
    pool ← ShmBufferPool_new (ex_width st) (ex_height st) (ext_stride st) format;
    put_st (with_objects st (ex_source st) (ex_session st) (Some pool)).

Definition ExtImageCaptureBackend_new (connected : bool) (source : CaptureSource) : ext_cap unit :=
  if negb connected then throw WaylandConnect
  else
    roundtrip ext_handle;;
    st ← get_st;
    if negb (bool_decide (is_Some (ex_copy_manager st))) then throw NoBackend
    else if negb (bool_decide (is_Some (ex_shm st))) then throw (CaptureFailed (str "wl_shm not available"))
    else
      roundtrip ext_handle;;
      create_session source;;
      roundtrip ext_handle;;
      create_pool.

(** *** Undoing a transform *)

(** [l.swap(i, j)]. *)
Definition swap_at {A} (l : list A) (i j : Z) : option (list A) :=
  x ← get l i; y ← get l j; l ← set l i y; set l j x.

(** Two rows change places. *)
Definition swap_rows (stride : Z) (data : list Z) (top bottom : Z) : option (list Z) :=
  a ← slice data (top * stride) ((top + 1) * stride);
  b ← slice data (bottom * stride) (bottom * stride + stride);
  data ← splice data (top * stride) b;
  splice data (bottom * stride) a.

(** Every pass brings the rows two closer. *)
Fixpoint flip_loop (fuel : nat) (stride : Z) (data : list Z) (top bottom : Z) : option (list Z) :=
  if top <? bottom then
    match fuel with
    | O => None
    | S fuel => data ← swap_rows stride data top bottom; flip_loop fuel stride data (top + 1) (bottom - 1)
    end
  else Some data.

(** A zero stride is a division by zero. *)
Definition flip_rows (data : list Z) (stride : Z) : option (list Z) :=
  if stride =? 0 then None
  else
    let height := zlen data / stride in
    flip_loop (Z.to_nat height) stride data 0 (sat_sub height 1).

Definition mirror_row (pixels : Z) (row : list Z) : option (list Z) :=
  foldM (fun row i => foldM (fun row k => swap_at row (i * 4 + k) ((pixels - 1 - i) * 4 + k)) row (zrange 4))
    row (zrange (pixels / 2)).

(** [chunks_exact_mut] leaves a shorter last piece alone, and panics on a zero size. *)
Definition mirror_rows (data : list Z) (stride : Z) : option (list Z) :=
  rows ← chunks_exact_or_last stride data;
  mjoin <$> mapM (fun row => if zlen row =? stride then mirror_row (stride / 4) row else Some row) rows.

(** The [match] on the transform: whether the damage becomes the full frame. *)
Definition undo_transform (transform : Z) (data : list Z) (stride : Z) : option (list Z * bool) :=
  if transform =? 0 then Some (data, false)
  else if transform =? 2 then data ← flip_rows data stride; data ← mirror_rows data stride; Some (data, true)
  else if transform =? 4 then data ← mirror_rows data stride; Some (data, true)
  else if transform =? 6 then data ← flip_rows data stride; Some (data, true)
  else Some (data, true).

(** *** A frame *)

(** No frame yet is no error: the wait goes on. *)
Definition ext_wait : ext_cap unit :=
  wait_while ext_handle (fun st => negb (ex_ready st) && negb (ex_failed st) && negb (ex_stopped st)) (mret tt).

Definition ext_request (frame : Z) (st : ExtCaptureState) : ext_cap unit :=
  pool ← ok_or (ex_pool st) (CaptureFailed (str "no SHM pool"));
  buffer ← active_buffer pool;
  tell [AttachBuffer frame buffer;
        DamageBuffer frame 0 0 (i32 (ex_width st)) (i32 (ex_height st));
        CaptureFrame frame].

Definition ext_take : ext_cap CapturedFrame :=
  st ← get_st;
  let full := [DamageRect_new 0 0 (ex_width st) (ex_height st)] in
  let damage := if bool_decide (ex_damage st = []) then full else ex_damage st in
  put_st (with_capture st (ex_ready st) (ex_transform st) (ex_failed st) damage (ex_timestamp st)
            (ex_stopped st));;
  let stride := ext_stride st in
  let format_raw := default 0 (ex_format st) in
  format ← ok_or (from_wl_shm format_raw) (UnsupportedFormat format_raw);
  pool ← match ex_pool st with Some pool => mret pool | None => crash end;
  data ← active_data pool;
  match undo_transform (ex_transform st) data stride with
  | None => crash
  | Some (data, whole) =>
      let damage := if whole : bool then full else damage in
      put_st (with_capture (with_objects st (ex_source st) (ex_session st) (Some (pool_swap pool)))
                (ex_ready st) (ex_transform st) (ex_failed st) [] (ex_timestamp st) (ex_stopped st));;
      let f := mkCapturedFrame data damage format (ex_width st) (ex_height st) stride (ex_timestamp st) in
      log [Gave f];;
      mret f
  end.

Definition ext_next_frame : ext_cap CapturedFrame :=
  st ← get_st;
  if ex_stopped st then throw SessionEnded
  else
    let st := with_capture st false (ex_transform st) false [] (ex_timestamp st) (ex_stopped st) in
    put_st st;;
    session ← ok_or (ex_session st) NoBackend;
    frame ← fresh;
    tell [CreateFrame frame session];;
    ext_request frame st;;
    ext_wait;;
    tell [DestroyFrame frame];;
    st ← get_st;
    if ex_stopped st then throw SessionEnded
    else if ex_failed st then throw compositor_failed
    else ext_take.

(** [stop]. *)
Definition ext_stop (st : ExtCaptureState) : ExtCaptureState :=
  with_capture st (ex_ready st) (ex_transform st) (ex_failed st) (ex_damage st) (ex_timestamp st) true.

(** ** Listings *)

Definition enumerate_toplevels (connected : bool) : ext_cap (list ToplevelInfo) :=
  if negb connected then throw WaylandConnect
  else
    roundtrip ext_handle;;
    st ← get_st;
    if negb (bool_decide (is_Some (ex_toplevel_list st))) then throw NoBackend
    else
      roundtrip ext_handle;;
      st ← get_st;
      mret (dt_info <$> ex_toplevels st).

(** [ExtCaptureProbe], and [is_available]: no error leaves it. *)
Definition ext_probe_handle (found : bool) (ev : ext_event) : bool * list cap_req :=
  match ev with
  | ExGlobal _ interface _ => (found || bool_decide (interface = copy_capture_manager_v1), [])
  | _ => (found, [])
  end.

Definition ext_is_available : cap bool ext_event bool := fun w =>
  match roundtrip ext_probe_handle w with
  | Done w (inl tt) => Done w (inl (w_st w))
  | Done w (inr _) => Done w (inl false)
  | Waiting w => Waiting w
  | Crash w => Crash w
  end.
