(* ===== verification/ExtPixels.v ===== *)
(** The transforms [ext_capture.rs] undoes: rows flipped, pixels mirrored.  Both are loops
    of swaps; a loop that swaps every index of one half with its mirror image computes
    the mirror image of the whole. *)

From S2P Require Import Prelude ServerPipeline ExtCapture.

(** ** Loops of swaps *)

Lemma swap_at_spec {A} (l : list A) i j : (i < length l)%nat -> (j < length l)%nat ->
  exists l', swap_at l (Z.of_nat i) (Z.of_nat j) = Some l' /\ length l' = length l /\
    forall n, (n < length l)%nat -> l' !! n = l !! (if decide (n = j) then i else if decide (n = i) then j else n).
Proof.
  intros Hi Hj. destruct (lookup_lt_is_Some_2 l i Hi) as [x Ex]. destruct (lookup_lt_is_Some_2 l j Hj) as [y Ey].
  unfold swap_at. rewrite !get_lookup, Ex, Ey. cbn. rewrite set_ok by (unfold zlen; lia). cbn.
  rewrite set_ok by (unfold zlen; rewrite length_insert; lia). eexists. split; [reflexivity|].
  rewrite !Nat2Z.id, !length_insert. split; [done|]. intros n Hn.
  destruct (decide (n = j)) as [->|Hj']; [by rewrite list_lookup_insert_eq by (rewrite length_insert; lia)|].
  rewrite list_lookup_insert_ne by done. destruct (decide (n = i)) as [->|Hi'].
  - by rewrite list_lookup_insert_eq by lia.
  - by rewrite list_lookup_insert_ne by done.
Qed.

Section Mirror.
Context {A : Type} (m : nat -> nat).
Hypothesis (Hm : forall n, m (m n) = n).

(** Whether an index was swapped already. *)
Definition moved (idx : list nat) (n : nat) : nat :=
  if decide (n ∈ idx \/ m n ∈ idx) then m n else n.

Lemma swap_all (l : list A) idx :
  NoDup idx -> (forall a, a ∈ idx -> m a ∉ idx) ->
  (forall a, a ∈ idx -> (a < length l)%nat /\ (m a < length l)%nat) ->
  exists l', foldM (fun l a => swap_at l (Z.of_nat a) (Z.of_nat (m a))) l idx = Some l' /\
    length l' = length l /\ forall n, (n < length l)%nat -> l' !! n = l !! moved idx n.
Proof.
  induction idx as [|a idx IH] using rev_ind; intros Hnd Hdis Hlt.
  { exists l. split_and!; [done..|]. intros n _. unfold moved. rewrite decide_False; [done|].
    intros [H|H]; by apply not_elem_of_nil in H. }
  assert (Ha : a ∈ idx ++ [a]) by set_solver. apply list.NoDup_app in Hnd as (Hnd & Hna & _).
  destruct IH as (l1 & E1 & L1 & H1).
  { done. } { intros b Hb Hmb. apply (Hdis b); set_solver. } { intros b Hb. apply Hlt. set_solver. }
  destruct (Hlt a Ha) as [La Lma]. rewrite <- L1 in La, Lma.
  destruct (swap_at_spec l1 a (m a) La Lma) as (l2 & E2 & L2 & H2).
  exists l2. rewrite foldM_app, E1. cbn. rewrite E2. split_and!; [done|congruence|].
  intros n Hn. rewrite H2 by lia. unfold moved in *.
  assert (Nma : forall b, b ∈ idx -> b <> a /\ m b <> a).
  { intros b Hb. split; [intros ->; apply (Hna a); set_solver|]. intros Eb.
    apply (Hdis b); [set_solver|]. rewrite Eb. set_solver. }
  assert (Hidx : forall b, b = a \/ b = m a -> ~ (b ∈ idx \/ m b ∈ idx)).
  { intros b [-> | ->] [Hb|Hb]; try (by destruct (Nma _ Hb)).
    - destruct (Nma _ Hb) as [_ H]. by rewrite Hm in H.
    - destruct (Nma _ Hb) as [_ H]. by rewrite Hm in H.
    - rewrite Hm in Hb. by destruct (Nma _ Hb). }
  destruct (decide (n = m a)) as [->|N1].
  { rewrite H1 by lia. rewrite decide_False by (apply Hidx; by left).
    rewrite decide_True by (right; rewrite Hm; set_solver). by rewrite Hm. }
  destruct (decide (n = a)) as [->|N2].
  { rewrite H1 by lia. rewrite decide_False by (apply Hidx; by right).
    rewrite decide_True by (left; set_solver). done. }
  rewrite H1 by lia. f_equal. apply decide_ext. rewrite !elem_of_app, !list_elem_of_singleton.
  split; [tauto|]. intros [[H|H]|[H|H]]; [tauto|congruence|tauto|].
  exfalso. apply N1. by rewrite <- H, Hm.
Qed.

(** When the swaps meet every index, all are mirrored. *)
Lemma swap_mirrors (l : list A) idx :
  NoDup idx -> (forall a, a ∈ idx -> m a ∉ idx) ->
  (forall a, a ∈ idx -> (a < length l)%nat /\ (m a < length l)%nat) ->
  (forall n, (n < length l)%nat -> n ∈ idx \/ m n ∈ idx \/ m n = n) ->
  exists l', foldM (fun l a => swap_at l (Z.of_nat a) (Z.of_nat (m a))) l idx = Some l' /\
    length l' = length l /\ forall n, (n < length l)%nat -> l' !! n = l !! m n.
Proof.
  intros Hnd Hdis Hlt Hall. destruct (swap_all l idx Hnd Hdis Hlt) as (l' & E1 & E2 & E3).
  exists l'. split_and!; [done..|]. intros n Hn. rewrite E3 by done. unfold moved.
  case_decide as Hd; [done|]. destruct (Hall n Hn) as [H|[H|H]]; [tauto|tauto|congruence].
Qed.
End Mirror.

(** ** Mirrored rows *)

(** The byte of pixel [x] mirrored in a row of [p] pixels. *)
Definition mirror_index (p n : nat) : nat :=
  if decide (n < 4 * p)%nat then (4 * (p - 1 - n / 4) + n mod 4)%nat else n.

Lemma mirror_index_pixel p x k : (x < p)%nat -> (k < 4)%nat ->
  mirror_index p (4 * x + k) = (4 * (p - 1 - x) + k)%nat.
Proof.
  intros Hx Hk. unfold mirror_index. rewrite decide_True by lia.
  rewrite (Nat.mul_comm 4 x), Nat.div_add_l, Nat.div_small, Nat.add_0_r by lia.
  by rewrite (Nat.add_comm (x * 4)), Nat.Div0.mod_add, Nat.mod_small by lia.
Qed.

Lemma pixel_of p n : (n < 4 * p)%nat -> exists x k, (x < p)%nat /\ (k < 4)%nat /\ n = (4 * x + k)%nat.
Proof.
  intros Hn. exists (n / 4)%nat, (n mod 4)%nat. pose proof (Nat.div_mod_eq n 4).
  pose proof (Nat.mod_upper_bound n 4). split_and!; lia.
Qed.

Lemma mirror_index_invol p n : mirror_index p (mirror_index p n) = n.
Proof.
  destruct (decide (n < 4 * p)%nat) as [H|H].
  - destruct (pixel_of p n H) as (x & k & Hx & Hk & ->). rewrite !mirror_index_pixel by lia. lia.
  - unfold mirror_index. rewrite (decide_False (P := (n < 4 * p)%nat)) by done. by rewrite decide_False.
Qed.

(** The indices of the first half of the pixels. *)
Definition half_pixels (p : nat) : list nat :=
  seq 0 (p / 2) ≫= fun x => (fun k => 4 * x + k)%nat <$> seq 0 4.

Lemma elem_of_half p n : n ∈ half_pixels p <-> exists x k, (x < p / 2)%nat /\ (k < 4)%nat /\ n = (4 * x + k)%nat.
Proof.
  unfold half_pixels. rewrite list_elem_of_bind. setoid_rewrite list_elem_of_fmap.
  setoid_rewrite elem_of_seq. split.
  - intros (x & (k & -> & Hk) & Hx). exists x, k. lia.
  - intros (x & k & Hx & Hk & ->). exists x. split; [|lia]. exists k. lia.
Qed.

Lemma half_NoDup p : NoDup (half_pixels p).
Proof.
  unfold half_pixels. generalize (p / 2)%nat. intros n.
  assert (G : forall ks a, NoDup ks -> (forall k, k ∈ ks -> (k < 4)%nat) ->
    NoDup (seq a n ≫= fun x => (fun k => 4 * x + k)%nat <$> ks)).
  2: { apply G; [apply NoDup_seq|]. intros k. rewrite elem_of_seq. lia. }
  intros ks a Hks Hk4. revert a.
  induction n as [|n IH]; intros a; [constructor|]. cbn [seq mbind list_bind]. apply list.NoDup_app. split_and!.
  - apply NoDup_fmap_2; [intros ? ? ?; lia|done].
  - intros y (k & -> & Hk)%list_elem_of_fmap. apply Hk4 in Hk.
    rewrite list_elem_of_bind. intros (x & (k' & E1 & Hk')%list_elem_of_fmap & Hx).
    apply Hk4 in Hk'. apply elem_of_seq in Hx. lia.
  - apply IH.
Qed.

(** The loops over pixels and bytes are one loop of swaps. *)
Lemma mirror_row_swaps (p : nat) row :
  mirror_row (Z.of_nat p) row =
  foldM (fun l a => swap_at l (Z.of_nat a) (Z.of_nat (mirror_index p a))) row (half_pixels p).
Proof.
  unfold mirror_row, half_pixels. rewrite foldM_bind.
  assert (E2 : Z.to_nat (Z.of_nat p / 2) = (p / 2)%nat).
  { rewrite <- (Nat2Z.id (p / 2)), Nat2Z.inj_div. done. }
  unfold zrange. rewrite E2, foldM_fmap. apply foldM_ext. intros l x Hx. apply elem_of_seq in Hx.
  assert (x < p)%nat by (pose proof (Nat.div_mod_eq p 2); lia).
  rewrite !foldM_fmap. apply foldM_ext. intros l' k Hk. apply elem_of_seq in Hk.
  rewrite mirror_index_pixel by lia. f_equal; lia.
Qed.

Lemma mirror_row_spec (p : nat) row : length row = (4 * p)%nat ->
  exists row', mirror_row (Z.of_nat p) row = Some row' /\ length row' = length row /\ forall n, (n < length row)%nat -> row' !! n = row !! mirror_index p n.
Proof.
  intros Hl. rewrite mirror_row_swaps.
  assert (Hh : (2 * (p / 2) <= p <= 2 * (p / 2) + 1)%nat).
  { pose proof (Nat.div_mod_eq p 2). pose proof (Nat.mod_upper_bound p 2). lia. }
  apply swap_mirrors; [apply mirror_index_invol|apply half_NoDup|..].
  - intros a (x & k & Hx & Hk & ->)%elem_of_half. rewrite mirror_index_pixel by lia.
    rewrite elem_of_half. intros (x' & k' & ? & ? & ?). lia.
  - intros a (x & k & Hx & Hk & ->)%elem_of_half. rewrite mirror_index_pixel by lia. lia.
  - intros n Hn. destruct (pixel_of p n) as (x & k & Hx & Hk & ->); [lia|].
    rewrite mirror_index_pixel by lia. rewrite !elem_of_half.
    destruct (decide (x < p / 2)%nat); [left; by exists x, k|].
    destruct (decide (p - 1 - x < p / 2)%nat); [right; left; by exists (p - 1 - x)%nat, k|right; right; lia].
Qed.

(** ** Images as rows *)

Section Rows.
Context (s : nat).

Definition is_rows (rows : list (list Z)) : Prop := Forall (fun r => length r = s) rows.

Lemma rows_length rows : is_rows rows -> length (mjoin rows) = (length rows * s)%nat.
Proof.
  induction 1 as [|r rows Hr _ IH]; [done|]. change (mjoin (r :: rows)) with (r ++ mjoin rows).
  rewrite length_app, IH, Hr. cbn [length]. lia.
Qed.

Lemma rows_split rows i r : is_rows rows -> rows !! i = Some r ->
  mjoin rows = mjoin (take i rows) ++ r ++ mjoin (drop (S i) rows) /\
  length (mjoin (take i rows)) = (i * s)%nat /\ length r = s.
Proof.
  intros Hr Hi. split_and!.
  - by rewrite <- (take_drop_middle rows i r Hi) at 1; rewrite join_app.
  - rewrite rows_length by (by apply list.Forall_take). rewrite length_take.
    apply lookup_lt_Some in Hi. f_equal. lia.
  - unfold is_rows in Hr. rewrite list.Forall_forall in Hr. apply Hr. by apply list_elem_of_lookup_2 with i.
Qed.

Lemma slice_row rows i r : is_rows rows -> rows !! i = Some r ->
  slice (mjoin rows) (Z.of_nat i * Z.of_nat s) (Z.of_nat i * Z.of_nat s + Z.of_nat s) = Some r.
Proof.
  intros Hr Hi. destruct (rows_split rows i r Hr Hi) as (-> & L1 & L2).
  rewrite <- L2 at 3. replace (Z.of_nat i * Z.of_nat s) with (zlen (mjoin (take i rows))) by (unfold zlen; lia).
  apply slice_app_mid.
Qed.

Lemma splice_row rows i r r' : is_rows rows -> rows !! i = Some r -> length r' = s ->
  splice (mjoin rows) (Z.of_nat i * Z.of_nat s) r' = Some (mjoin (<[i := r']> rows)).
Proof.
  intros Hr Hi Hl. destruct (rows_split rows i r Hr Hi) as (E1 & L1 & L2).
  assert (Hlt : (i < length rows)%nat) by (by apply lookup_lt_Some in Hi).
  unfold splice. rewrite decide_True.
  2: { unfold zlen. rewrite rows_length by done. nia. }
  f_equal. rewrite E1, insert_take_drop, join_app by done.
  change (mjoin (r' :: ?l)) with (r' ++ mjoin l).
  f_equal; [|f_equal].
  - replace (Z.to_nat _) with (length (mjoin (take i rows))) by lia. by rewrite take_app_length.
  - rewrite app_assoc, drop_app_length'; [done|]. rewrite length_app. lia.
Qed.

Lemma is_rows_insert rows i r : is_rows rows -> length r = s -> is_rows (<[i := r]> rows).
Proof. intros Hr Hl. by apply list.Forall_insert. Qed.

(** Swapping two rows of the image is swapping them in the list of its rows. *)
Lemma swap_rows_rows rows t b rows' : is_rows rows ->
  swap_at rows (Z.of_nat t) (Z.of_nat b) = Some rows' -> (t < b)%nat ->
  swap_rows (Z.of_nat s) (mjoin rows) (Z.of_nat t) (Z.of_nat b) = Some (mjoin rows') /\ is_rows rows'.
Proof.
  intros Hr. unfold swap_at, swap_rows. rewrite !get_lookup.
  destruct (rows !! t) as [x|] eqn:Et; [|done]. destruct (rows !! b) as [y|] eqn:Eb; [|done]. cbn.
  destruct (rows_split _ _ _ Hr Et) as (_ & _ & Lx). destruct (rows_split _ _ _ Hr Eb) as (_ & _ & Ly).
  pose proof (lookup_lt_Some _ _ _ Et). pose proof (lookup_lt_Some _ _ _ Eb).
  rewrite set_ok by (unfold zlen; lia). cbn. rewrite set_ok by (unfold zlen; rewrite length_insert; lia).
  intros [= <-] Htb. rewrite !Nat2Z.id.
  assert (Hr1 : is_rows (<[t := y]> rows)) by (by apply is_rows_insert).
  replace ((Z.of_nat t + 1) * Z.of_nat s) with (Z.of_nat t * Z.of_nat s + Z.of_nat s) by lia.
  rewrite (slice_row _ _ _ Hr Et), (slice_row _ _ _ Hr Eb). cbn.
  rewrite (splice_row _ _ _ _ Hr Et Ly). cbn. split; [|by apply is_rows_insert].
  apply (splice_row _ _ y); [done| |done]. by rewrite list_lookup_insert_ne by lia.
Qed.

(** The index a row goes to. *)
Definition flip_index (h y : nat) : nat := if decide (y < h)%nat then (h - 1 - y)%nat else y.

Lemma flip_index_invol h y : flip_index h (flip_index h y) = y.
Proof. unfold flip_index. repeat case_decide; lia. Qed.

Lemma flip_loop_swaps fuel h k rows top :
  (2 * k <= h <= 2 * k + 1)%nat ->
  is_rows rows -> length rows = h -> (k - top <= fuel)%nat -> (top <= k)%nat ->
  forall rows', foldM (fun l a => swap_at l (Z.of_nat a) (Z.of_nat (flip_index h a))) rows (seq top (k - top)) = Some rows' ->
  flip_loop fuel (Z.of_nat s) (mjoin rows) (Z.of_nat top) (Z.of_nat h - 1 - Z.of_nat top) = Some (mjoin rows').
Proof.
  intros Hh. revert rows top. induction fuel as [|fuel IH]; intros rows top Hr Hl Hf Ht rows'; cbn [flip_loop].
  - replace (k - top)%nat with 0%nat by lia. cbn. intros [= <-].
    by rewrite (proj2 (Z.ltb_ge _ _)) by lia.
  - destruct (decide (top = k)%nat) as [->|Hne].
    + rewrite Nat.sub_diag. cbn [seq foldM]. intros [= <-]. by rewrite (proj2 (Z.ltb_ge _ _)) by lia.
    + replace (k - top)%nat with (S (k - S top)) by lia. cbn [seq foldM].
      rewrite (proj2 (Z.ltb_lt _ _)) by lia. 
      assert (Ef : flip_index h top = (h - 1 - top)%nat) by (unfold flip_index; case_decide; lia).
      rewrite Ef.
      destruct (swap_at rows (Z.of_nat top) (Z.of_nat (h - 1 - top))) as [rows1|] eqn:E1; [|done].
      destruct (swap_rows_rows rows _ _ rows1 Hr E1) as [E2 Hr1]; [lia|].
      replace (Z.of_nat (h - 1 - top)) with (Z.of_nat h - 1 - Z.of_nat top) in E2 by lia. rewrite E2.
      cbn [mbind option_bind].
      intros E3. assert (L1 : length rows1 = h).
      { destruct (swap_at_spec rows top (h - 1 - top)) as (l & El & Ll & _); [lia..|]. rewrite El in E1.
        injection E1 as <-. congruence. }
      replace (Z.of_nat top + 1) with (Z.of_nat (S top)) by lia.
      replace (Z.of_nat h - 1 - Z.of_nat top - 1) with (Z.of_nat h - 1 - Z.of_nat (S top)) by lia.
      apply IH; [done|done|lia|lia|done].
Qed.

(** Flipping reverses the rows. *)
Lemma flip_rows_spec rows : (0 < s)%nat -> is_rows rows ->
  flip_rows (mjoin rows) (Z.of_nat s) = Some (mjoin (reverse rows)).
Proof.
  intros Hs Hr. unfold flip_rows. rewrite (proj2 (Z.eqb_neq _ _)) by lia.
  set (h := length rows). assert (Eh : zlen (mjoin rows) / Z.of_nat s = Z.of_nat h).
  { unfold zlen. rewrite rows_length by done. rewrite Nat2Z.inj_mul. apply Z.div_mul. lia. }
  rewrite Eh, Nat2Z.id.
  assert (Hh : (2 * (h / 2) <= h <= 2 * (h / 2) + 1)%nat).
  { pose proof (Nat.div_mod_eq h 2). pose proof (Nat.mod_upper_bound h 2). lia. }
  destruct (swap_mirrors (flip_index h) (flip_index_invol h) rows (seq 0 (h / 2))) as (rows' & E1 & L1 & H1).
  { apply NoDup_seq. }
  { intros a Ha. rewrite elem_of_seq in *. unfold flip_index. case_decide; lia. }
  { intros a Ha. rewrite elem_of_seq in Ha. unfold flip_index. case_decide; lia. }
  { intros y Hy. rewrite !elem_of_seq. unfold flip_index. case_decide; lia. }
  assert (E2 : rows' = reverse rows).
  { apply list_eq_same_length with (length rows); [by rewrite length_reverse|done|].
    intros i x y Hi E2 E3. rewrite H1 in E2 by done. rewrite reverse_lookup in E3 by lia.
    unfold flip_index in E2. rewrite decide_True in E2 by lia.
    replace (h - 1 - i)%nat with (length rows - S i)%nat in E2 by lia. congruence. }
  rewrite <- E2. destruct (decide (h = 0%nat)) as [Hz|Hz].
  { rewrite Hz in *. cbn in E1. injection E1 as <-. done. }
  replace (sat_sub (Z.of_nat h) 1) with (Z.of_nat h - 1 - Z.of_nat 0) by (unfold sat_sub; lia).
  apply (flip_loop_swaps h h (h / 2) rows 0 Hh Hr); [done|lia|lia|by rewrite Nat.sub_0_r].
Qed.

Lemma as_rows data h : length data = (h * s)%nat ->
  exists rows, data = mjoin rows /\ is_rows rows /\ length rows = h.
Proof.
  revert data. induction h as [|h IH]; intros data Hl.
  { exists []. apply nil_length_inv in Hl as ->. split_and!; [done|constructor|done]. }
  cbn in Hl. destruct (IH (drop s data)) as (rows & E1 & Hr & L1); [rewrite length_drop; lia|].
  exists (take s data :: rows). split_and!; [|constructor; [rewrite length_take; lia|done]|cbn; lia].
  change (mjoin (take s data :: rows)) with (take s data ++ mjoin rows). by rewrite <- E1, take_drop.
Qed.

Lemma lookup_rows rows y i : is_rows rows -> (i < s)%nat ->
  mjoin rows !! (y * s + i)%nat = rows !! y ≫= fun r => r !! i.
Proof.
  intros Hr Hi. revert y. induction Hr as [|r rows Hl Hr IH]; intros y; [done|].
  change (mjoin (r :: rows)) with (r ++ mjoin rows). destruct y as [|y].
  - rewrite lookup_app_l by (cbn; lia). done.
  - rewrite lookup_app_r by (cbn; lia). cbn. rewrite <- IH. f_equal. rewrite Hl. lia.
Qed.

Lemma chunk_rows rows fuel : (0 < s)%nat -> is_rows rows -> (length (mjoin rows) <= fuel)%nat ->
  chunk_list fuel s (mjoin rows) = rows.
Proof.
  intros Hs Hr. revert fuel. induction Hr as [|r rows Hl Hr IH]; intros fuel Hf; [by destruct fuel|].
  change (mjoin (r :: rows)) with (r ++ mjoin rows) in *. rewrite length_app in Hf.
  destruct fuel as [|fuel]; [lia|]. destruct r as [|b r]; [cbn in Hl; lia|].
  change (chunk_list (S fuel) s ((b :: r) ++ mjoin rows)) with
    (take s ((b :: r) ++ mjoin rows) :: chunk_list fuel s (drop s ((b :: r) ++ mjoin rows))).
  rewrite take_app_length', drop_app_length' by done. f_equal. apply IH. cbn in Hf. lia.
Qed.

(** Every row is mirrored on its own. *)
Lemma mirror_rows_spec (p : nat) rows : s = (4 * p)%nat -> (0 < p)%nat -> is_rows rows ->
  exists rows', mirror_rows (mjoin rows) (Z.of_nat s) = Some (mjoin rows') /\ is_rows rows' /\
    length rows' = length rows /\
    forall y i, (i < s)%nat -> (rows' !! y ≫= fun r => r !! i) = rows !! y ≫= fun r => r !! mirror_index p i.
Proof.
  intros Es Hp Hr. unfold mirror_rows, chunks_exact_or_last. rewrite decide_True by lia. cbn [mbind option_bind].
  rewrite Nat2Z.id, chunk_rows by (done || lia).
  replace (Z.of_nat s / 4) with (Z.of_nat p) by (apply Z.div_unique with 0; lia).
  assert (H : exists rows', mapM (fun row => if zlen row =? Z.of_nat s then mirror_row (Z.of_nat p) row else Some row) rows
      = Some rows' /\ is_rows rows' /\ length rows' = length rows /\
      forall y i, (i < s)%nat -> (rows' !! y ≫= fun r => r !! i) = rows !! y ≫= fun r => r !! mirror_index p i).
  { induction Hr as [|r rows Hl Hr (rows' & E1 & Hr' & L1 & H1)]; [exists []; split_and!; [done|constructor|done..]|].
    destruct (mirror_row_spec p r) as (r' & E2 & L2 & H2); [lia|].
    exists (r' :: rows'). cbn [mapM]. rewrite (proj2 (Z.eqb_eq _ _)) by (unfold zlen; lia). rewrite E2. cbn.
    rewrite E1. split_and!; [done|constructor; [lia|done]|cbn; lia|].
    intros [|y] i Hi; [cbn; apply H2; lia|by apply H1]. }
  destruct H as (rows' & -> & H). by exists rows'.
Qed.
End Rows.

(** ** Upright pictures *)

(** The transforms of [wl_output]: 1, 2 and 3 turn the picture by 90, 180 and 270
    degrees against the clock, 4 mirrors it, 5, 6 and 7 mirror it and then turn it.
    [turned]: width and height change places. *)
Definition turned (transform : Z) : bool := existsb (Z.eqb transform) [1; 3; 5; 7].

(** Where the pixel [(x, y)] of a source of [w] by [h] pixels is in the buffer. *)
Definition transformed (transform : Z) (w h x y : nat) : nat * nat :=
  let x' := (w - 1 - x)%nat in
  let y' := (h - 1 - y)%nat in
  if transform =? 1 then (y, x')
  else if transform =? 2 then (x', y')
  else if transform =? 3 then (y', x)
  else if transform =? 4 then (x', y)
  else if transform =? 5 then (y, x)
  else if transform =? 6 then (x, y')
  else if transform =? 7 then (y', x')
  else (x, y).

(** The transforms that are undone; a buffer with another is handed out as it is. *)
Definition undone (transform : Z) : bool := existsb (Z.eqb transform) [0; 2; 4; 6].

(** Byte [k] of the pixel [p] in rows of [w] pixels. *)
Definition pixel_byte (w : nat) (data : list Z) (p : nat * nat) (k : nat) : option Z :=
  data !! (p.2 * (4 * w) + (4 * p.1 + k))%nat.

Lemma undo_upright transform (w h : nat) data :
  (0 < w)%nat -> length data = (h * (4 * w))%nat ->
  exists data' whole, undo_transform transform data (Z.of_nat (4 * w)) = Some (data', whole) /\
    length data' = length data /\ whole = negb (transform =? 0) /\
    if undone transform
    then forall x y k, (x < w)%nat -> (y < h)%nat -> (k < 4)%nat ->
      pixel_byte w data' (x, y) k = pixel_byte w data (transformed transform w h x y) k
    else data' = data.
Proof.
  intros Hw Hl. destruct (as_rows (4 * w) data h Hl) as (rows & -> & Hr & Lr).
  assert (Hrev : is_rows (4 * w) (reverse rows)) by (by apply list.Forall_reverse).
  assert (Hrl : forall y, (y < h)%nat -> reverse rows !! y = rows !! (h - 1 - y)%nat).
  { intros y Hy. rewrite reverse_lookup by lia. f_equal. lia. }
  unfold undo_transform, pixel_byte.
  destruct (Z.eqb_spec transform 0) as [->|?]; [by exists (mjoin rows), false|].
  destruct (Z.eqb_spec transform 2) as [->|?]; [|destruct (Z.eqb_spec transform 4) as [->|?];
    [|destruct (Z.eqb_spec transform 6) as [->|?]]].
  - rewrite (flip_rows_spec _ rows) by (done || lia). cbn [mbind option_bind].
    destruct (mirror_rows_spec (4 * w) w (reverse rows)) as (rows' & -> & Hr' & L' & H'); [done..|].
    exists (mjoin rows'), true. split_and!; [done| |done|].
    + rewrite !(rows_length (4 * w)) by done. rewrite L', length_reverse. done.
    + intros x y k Hx Hy Hk. unfold transformed. cbn [fst snd Z.eqb Pos.eqb]. rewrite !lookup_rows by (done || lia). rewrite H' by lia.
      by rewrite mirror_index_pixel, Hrl by lia.
  - destruct (mirror_rows_spec (4 * w) w rows) as (rows' & -> & Hr' & L' & H'); [done..|].
    exists (mjoin rows'), true. split_and!; [done| |done|].
    + rewrite !(rows_length (4 * w)) by done. by rewrite L'.
    + intros x y k Hx Hy Hk. unfold transformed. cbn [fst snd Z.eqb Pos.eqb]. rewrite !lookup_rows by (done || lia). rewrite H' by lia.
      by rewrite mirror_index_pixel by lia.
  - rewrite (flip_rows_spec _ rows) by (done || lia). cbn [mbind option_bind].
    exists (mjoin (reverse rows)), true. split_and!; [done| |done|].
    + rewrite !(rows_length (4 * w)) by done. by rewrite length_reverse.
    + intros x y k Hx Hy Hk. unfold transformed. cbn [fst snd Z.eqb Pos.eqb]. rewrite !lookup_rows by (done || lia). by rewrite Hrl by lia.
  - exists (mjoin rows), true. split_and!; [done..|]. unfold undone. cbn.
    by rewrite !(proj2 (Z.eqb_neq _ _)) by done.
Qed.
