(* ===== verification/ExtFrames.v ===== *)
(** What the ext-image-copy-capture backend hands out: one frame from the request to the
    upright picture, over any number of silent seconds; what the constructor captures; and
    what the list of windows says. *)

From stdpp Require Import strings.
From S2P Require Import Prelude Delta DesktopDetect ServerPipeline CaptureThread CaptureSelect.
From S2P Require Import CaptureIo CaptureLogic CaptureMem Screencopy ScreencopySafety ScreencopyFrames.
From S2P Require Import ExtCapture ExtPixels.

(** ** A frame *)

Definition rect_u32 (r : DamageRect) : DamageRect :=
  DamageRect_new (u32 (dr_x r)) (u32 (dr_y r)) (u32 (dr_width r)) (u32 (dr_height r)).

Definition ext_damage_event (r : DamageRect) : action ext_event :=
  Ev (ExDamage (dr_x r) (dr_y r) (dr_width r) (dr_height r)).

(** What the compositor sends for a frame: the pixels are in the buffer, then what it
    says of them. *)
Definition ext_delivery (b : Z) (bytes : list Z) (damage : list DamageRect) (transform hi lo nsec : Z)
    : list (action ext_event) :=
  WriteBuffer b bytes :: (ext_damage_event <$> damage) ++
  [Ev (ExTransform transform); Ev (ExPresentationTime hi lo nsec); Ev ExReady].

Lemma damage_st damage st : acts_st ext_handle st (ext_damage_event <$> damage) =
  with_capture st (ex_ready st) (ex_transform st) (ex_failed st) (ex_damage st ++ (rect_u32 <$> damage))
    (ex_timestamp st) (ex_stopped st).
Proof.
  revert st. induction damage as [|r damage IH]; intros st.
  - cbn. rewrite app_nil_r. by destruct st.
  - rewrite !fmap_cons, (cons_middle _ (ex_damage st)), app_assoc. exact (IH _).
Qed.

Lemma damage_mem damage mem : acts_mem mem (ext_damage_event <$> damage) = mem.
Proof. by induction damage. Qed.

Lemma delivery_asks_nothing b bytes damage transform hi lo nsec :
  Forall (asks_nothing ext_handle) (ext_delivery b bytes damage transform hi lo nsec).
Proof.
  apply list.Forall_cons_2; [done|]. apply list.Forall_app. split; [|by repeat constructor].
  induction damage; by constructor.
Qed.

Lemma ext_wait_runs w quiet a rest b bytes damage transform hi lo nsec old :
  ex_stopped (w_st w) = false -> ex_failed (w_st w) = false -> ex_ready (w_st w) = false ->
  w_attempts w = quiet ++ a :: rest -> Forall quiet_pass quiet -> brings a ->
  at_acts a = ext_delivery b bytes damage transform hi lo nsec ->
  w_mem w !! b = Some old -> zlen bytes = zlen old ->
  ext_wait w = Done (mkWorld (with_capture (w_st w) true transform false
      (ex_damage (w_st w) ++ (rect_u32 <$> damage)) (timestamp_of hi lo nsec) false)
    (<[b := bytes]> (w_mem w)) (w_next w) rest (w_trips w) (w_calls w)
    (w_log w ++ (Act <$> at_acts a))) (inl tt).
Proof.
  intros Hs Hf Hr Ew Hq Ha Ea Em El. unfold ext_wait.
  eapply wait_patient; [by rewrite Hs, Hf, Hr|exact Hq|exact Ha|exact Ew| |done].
  rewrite Ea, run_acts by apply delivery_asks_nothing. unfold ext_delivery. cbn [acts_st acts_mem].
  rewrite acts_app_st, acts_app_mem, damage_st, damage_mem. destruct w as [st mem next atts trips calls lg].
  cbn in *. unfold write_mem. by rewrite Em, El, Z.eqb_refl, Hs, Hf.
Qed.

(** [data] shows the source of which [bytes] are the transformed picture, in a buffer of
    shape [s], the right way up. *)
Definition upright (transform : Z) (s : shape) (bytes data : list Z) : Prop :=
  let (w, h) := if turned transform then (sh_height s, sh_width s) else (sh_width s, sh_height s) in
  zlen data = zlen bytes /\
  forall x y k, 0 <= x < w -> 0 <= y < h -> 0 <= k < 4 ->
    pixel_byte (Z.to_nat w) data (Z.to_nat x, Z.to_nat y) (Z.to_nat k) =
    pixel_byte (Z.to_nat (sh_width s)) bytes
      (transformed transform (Z.to_nat w) (Z.to_nat h) (Z.to_nat x) (Z.to_nat y)) (Z.to_nat k).

(** What is handed out. *)
Definition shows (transform : Z) (s : shape) (bytes data : list Z) : Prop :=
  if undone transform then upright transform s bytes data else data = bytes.

(** A transform makes the whole frame damaged. *)
Definition ext_damage_of (transform : Z) (s : shape) (damage : list DamageRect) : list DamageRect :=
  if transform =? 0 then or_whole s (rect_u32 <$> damage)
  else [mkDamageRect 0 0 (sh_width s) (sh_height s)].

Lemma undo_shape transform s bytes : shape_ok s -> sh_stride s = sh_width s * 4 -> zlen bytes = sh_bytes s ->
  exists data, undo_transform transform bytes (sh_stride s) = Some (data, negb (transform =? 0)) /\
    shows transform s bytes data.
Proof.
  intros (Hw & Hh & Hs & _ & Hb) Est El. unfold sh_bytes in *.
  destruct (undo_upright transform (Z.to_nat (sh_width s)) (Z.to_nat (sh_height s)) bytes)
    as (data & whole & E1 & E2 & -> & H); [lia| |].
  { unfold zlen in El. nia. }
  exists data. split.
  { replace (sh_stride s) with (Z.of_nat (4 * Z.to_nat (sh_width s))) by lia. exact E1. }
  unfold shows. destruct (undone transform) eqn:Eu; [|exact H].
  assert (turned transform = false) as Et.
  { unfold undone, turned in *. cbn in *. destruct (Z.eqb_spec transform 0) as [->|];
      [done|destruct (Z.eqb_spec transform 2) as [->|]; [done|destruct (Z.eqb_spec transform 4) as [->|];
      [done|destruct (Z.eqb_spec transform 6) as [->|]; done]]]. }
  unfold upright. rewrite Et. split; [unfold zlen; lia|]. intros x y k Hx Hy Hk. apply H; lia.
Qed.

(** The requests of one capture, in order. *)
Definition ext_requests (st : ExtCaptureState) (frame session buffer : Z) : list cap_req :=
  [CreateFrame frame session; AttachBuffer frame buffer;
   DamageBuffer frame 0 0 (i32 (ex_width st)) (i32 (ex_height st)); CaptureFrame frame].

Lemma run_active_buffer {A} p sl (f : Z -> ext_cap A) w : active_slot p = Some sl ->
  (active_buffer p ≫= f) w = f (sl_buffer sl) w.
Proof. intros E1. unfold active_buffer. by rewrite E1. Qed.

Lemma ext_request_runs frame st p sl w : ex_pool st = Some p -> active_slot p = Some sl ->
  ext_request frame st w = Done (with_log (Req <$> [AttachBuffer frame (sl_buffer sl);
    DamageBuffer frame 0 0 (i32 (ex_width st)) (i32 (ex_height st)); CaptureFrame frame]) w) (inl tt).
Proof. intros Ep Es. unfold ext_request. by rewrite Ep, run_ok_or, (run_active_buffer _ _ _ _ Es). Qed.

Lemma active_data_reads {T F : Type} p sl s bytes (w : world T F) : shape_ok s ->
  pool_shape p = s -> active_slot p = Some sl -> w_mem w !! sl_buffer sl = Some bytes ->
  zlen bytes = sh_bytes s ->
  active_data p w = Done (with_log [ReadBuffer (sl_buffer sl)] w) (inl bytes).
Proof.
  intros Hok Esh Esl Em El. pose proof (shape_checks s Hok) as (_ & C2 & C3).
  assert (Esz : slice bytes 0 (pool_buffer_size p) = Some bytes).
  { unfold pool_buffer_size. replace (sp_stride p * sp_height p) with (sh_bytes s) by (by rewrite <- Esh).
    rewrite wrap_small by (unfold fits; lia). rewrite <- El. apply slice_full. }
  unfold active_data, mbind, cap_bind, option_bind. rewrite Esl. cbn. by rewrite Em, Esz.
Qed.

Lemma ext_take_runs w s p sl bytes format :
  shape_ok s -> sh_stride s = sh_width s * 4 -> fits 32 (sh_stride s) ->
  ex_width (w_st w) = sh_width s -> ex_height (w_st w) = sh_height s ->
  ex_format (w_st w) = Some (sh_format s) -> from_wl_shm (sh_format s) = Some format ->
  ex_pool (w_st w) = Some p -> pool_shape p = s -> active_slot p = Some sl ->
  w_mem w !! sl_buffer sl = Some bytes -> zlen bytes = sh_bytes s ->
  exists w' data f, ext_take w = Done w' (inl f) /\
    f = mkCapturedFrame data
      (if ex_transform (w_st w) =? 0 then or_whole s (ex_damage (w_st w))
       else [mkDamageRect 0 0 (sh_width s) (sh_height s)])
      format (sh_width s) (sh_height s) (sh_stride s) (ex_timestamp (w_st w)) /\
    shows (ex_transform (w_st w)) s bytes data /\
    w_st w' = with_capture (with_objects (w_st w) (ex_source (w_st w)) (ex_session (w_st w)) (Some (pool_swap p)))
                (ex_ready (w_st w)) (ex_transform (w_st w)) (ex_failed (w_st w)) [] (ex_timestamp (w_st w))
                (ex_stopped (w_st w)) /\
    w_attempts w' = w_attempts w /\
    w_log w' = w_log w ++ [ReadBuffer (sl_buffer sl); Gave f].
Proof.
  intros Hok Est Hfit Hw Hh Hf Hfmt Hp Hsh Hsl Hm Hl.
  destruct (undo_shape (ex_transform (w_st w)) s bytes Hok Est Hl) as (data & Hundo & Hup).
  destruct w as [st mem next atts trips calls lg]. cbn in *.
  assert (Estr : ext_stride st = sh_stride s).
  { unfold ext_stride. rewrite Hw, <- Est. by apply wrap_small. }
  unfold ext_take. rewrite run_get. cbn [w_st]. rewrite run_put, Hf. 
  change (default 0 (Some (sh_format s))) with (sh_format s). rewrite Hfmt, run_ok_or, Hp.
  erewrite run_bind; [|reflexivity].
  erewrite run_bind; [|eapply active_data_reads; [exact Hok|exact Hsh|exact Hsl|exact Hm|exact Hl]].
  rewrite Estr, Hundo, run_put, run_log, Hw, Hh.
  eexists _, data, _. split; [reflexivity|split; [|split; [exact Hup|split_and!; [reflexivity|reflexivity|]]]].
  - f_equal. destruct (Z.eqb_spec (ex_transform st) 0); [|done]. cbn.
    unfold or_whole. by destruct (ex_damage st).
  - cbn. by rewrite <- app_assoc.
Qed.

(** C38. A capture the compositor answers, however long nothing changes on the
    screen: after any mixture of silent deadlines and idle wake-ups, [next_frame] returns
    the buffer's picture with its damage (the whole frame under a transform, or when none
    was reported), time and format.  Under the transforms 0, 2, 4 and 6 the picture is the
    source upright: each pixel is the one the announced transform put elsewhere.  Under
    the others, which the source calls unsupported, it is the buffer's bytes as they are:
    1, 3, 5 and 7 turn by a right angle, and the frame lies on its side
    ([turned_frame_not_upright]).  It asked for exactly one capture, into the active buffer
    of its session, read that buffer once after the frame was ready and destroyed the
    frame object; the next capture goes into the other buffer. *)
Theorem ext_delivers w s p sl old session format bytes damage transform hi lo nsec quiet a rest :
  ex_stopped (w_st w) = false -> ex_session (w_st w) = Some session ->
  ex_width (w_st w) = sh_width s -> ex_height (w_st w) = sh_height s ->
  ex_format (w_st w) = Some (sh_format s) -> from_wl_shm (sh_format s) = Some format ->
  shape_ok s -> sh_stride s = sh_width s * 4 -> fits 32 (sh_stride s) ->
  ex_pool (w_st w) = Some p -> pool_shape p = s -> active_slot p = Some sl ->
  w_mem w !! sl_buffer sl = Some old -> zlen old = sh_bytes s -> zlen bytes = sh_bytes s ->
  time_ok hi lo nsec ->
  w_attempts w = quiet ++ a :: rest -> Forall quiet_pass quiet -> brings a ->
  at_acts a = ext_delivery (sl_buffer sl) bytes damage transform hi lo nsec ->
  exists w' data f, ext_next_frame w = Done w' (inl f) /\
    f = mkCapturedFrame data (ext_damage_of transform s damage) format (sh_width s) (sh_height s)
          (sh_stride s) ((hi * 2 ^ 32 + lo) * 10 ^ 9 + nsec) /\
    shows transform s bytes data /\
    w_attempts w' = rest /\ ex_stopped (w_st w') = false /\ ex_pool (w_st w') = Some (pool_swap p) /\
    w_log w' = w_log w ++ (Req <$> ext_requests (w_st w) (w_next w) session (sl_buffer sl)) ++
      (Act <$> at_acts a) ++ [Req (DestroyFrame (w_next w)); ReadBuffer (sl_buffer sl); Gave f].
Proof.
  intros Hstop Hses Hw Hh Hf Hfmt Hok Est Hfit Hp Hsh Hsl Hm Hlo Hl Ht Ew Hq Ha Ea.
  destruct (timestamp_exact _ _ _ Ht) as [Ets _].
  destruct w as [st mem next atts trips calls lg]. cbn in *.
  unfold ext_next_frame. rewrite run_get. cbn [w_st]. rewrite Hstop, run_put.
  cbn [ex_session with_capture]. rewrite Hses, run_ok_or, run_fresh, run_tell.
  erewrite run_bind; [|eapply ext_request_runs; [exact Hp|exact Hsl]].
  erewrite run_bind.
  2: { eapply ext_wait_runs; [done|done|done|exact Ew|exact Hq|exact Ha|exact Ea|exact Hm|congruence]. }
  rewrite run_tell, run_get. cbn [w_st with_log with_capture ex_stopped ex_failed].
  match goal with |- context [ext_take ?w] =>
    destruct (ext_take_runs w s p sl bytes format) as (w' & data & f & E1 & Ef & Hup & E2 & E3 & E4) end;
    try done; [by apply lookup_insert_eq|].
  exists w', data, f. rewrite E1, E2, E4, Ef. cbn. rewrite Ets. split_and!; try done.
  by rewrite <- !app_assoc.
Qed.

(** A capture of two by one pixels, upside down and mirrored, after two silent seconds
    and a wake-up for nothing. *)
Definition demo_ext : world ExtCaptureState ext_event :=
  mkWorld
    (mkExt (Some 1) (Some 2) None (Some 4) None [] [] (Some 5) (Some 6)
       (Some (mkPool (mkSlot 7 8 8, mkSlot 9 10 8) 1 2 1 8 1)) 2 1 (Some 1) true false 0 false [] 0 false)
    {[8 := replicate 8 0; 10 := replicate 8 0]} 11
    [mkAttempt [] true None true 1 PollTimeout None; mkAttempt [] true None true 1 PollEintr None;
     mkAttempt [] true None true 0 PollIn None;
     mkAttempt (ext_delivery 10 [1; 2; 3; 4; 5; 6; 7; 8] [] 2 0 6 5) true None true 1 PollIn None]
    [] [] [].

Lemma ext_delivers_witness :
  exists w' data f, ext_next_frame demo_ext = Done w' (inl f) /\
    f = mkCapturedFrame data [mkDamageRect 0 0 2 1] Xrgb8888 2 1 8 (6 * 10 ^ 9 + 5) /\
    shows 2 (mkShape 2 1 8 1) [1; 2; 3; 4; 5; 6; 7; 8] data /\
    w_attempts w' = [] /\ ex_stopped (w_st w') = false /\
    ex_pool (w_st w') = Some (pool_swap (mkPool (mkSlot 7 8 8, mkSlot 9 10 8) 1 2 1 8 1)) /\
    w_log w' = (Req <$> ext_requests (w_st demo_ext) 11 6 10) ++
      (Act <$> ext_delivery 10 [1; 2; 3; 4; 5; 6; 7; 8] [] 2 0 6 5) ++
      [Req (DestroyFrame 11); ReadBuffer 10; Gave f].
Proof.
  apply (ext_delivers demo_ext (mkShape 2 1 8 1) (mkPool (mkSlot 7 8 8, mkSlot 9 10 8) 1 2 1 8 1)
    (mkSlot 9 10 8) (replicate 8 0) 6 Xrgb8888 [1; 2; 3; 4; 5; 6; 7; 8] [] 2 0 6 5
    [mkAttempt [] true None true 1 PollTimeout None; mkAttempt [] true None true 1 PollEintr None;
     mkAttempt [] true None true 0 PollIn None]
    (mkAttempt (ext_delivery 10 [1; 2; 3; 4; 5; 6; 7; 8] [] 2 0 6 5) true None true 1 PollIn None) []);
    try reflexivity.
  - unfold shape_ok, sh_bytes. cbn. lia.
  - unfold fits. cbn. lia.
  - unfold time_ok, fits. cbn. lia.
  - repeat apply list.Forall_cons_2; [..|by apply list.Forall_nil_2].
    + right. split_and!; [done..|by right].
    + left. split_and!; [done..|]. right. split; [done|by left].
    + right. split_and!; [done..|by left].
  - by split.
Defined.

(** The picture came the right way round. *)
Example mirrored_pixels :
  match ext_next_frame demo_ext with Done _ (inl f) => fr_data f = [5; 6; 7; 8; 1; 2; 3; 4] | _ => False end.
Proof. vm_compute. reflexivity. Qed.

(** A picture that was turned is handed out turned. *)
Definition turned_result : option CapturedFrame :=
  let a := mkAttempt (ext_delivery 10 [1; 2; 3; 4; 5; 6; 7; 8] [] 3 0 6 5) true None true 1 PollIn None in
  match ext_next_frame (mkWorld (w_st demo_ext) (w_mem demo_ext) 11 [a] [] [] []) with
  | Done _ (inl f) => Some f
  | _ => None
  end.

Example turned_frame_not_upright :
  turned_result = Some (mkCapturedFrame [1; 2; 3; 4; 5; 6; 7; 8] [mkDamageRect 0 0 2 1] Xrgb8888 2 1 8 (6 * 10 ^ 9 + 5)) /\
  ~ upright 3 (mkShape 2 1 8 1) [1; 2; 3; 4; 5; 6; 7; 8] [1; 2; 3; 4; 5; 6; 7; 8].
Proof.
  split; [by vm_compute|]. intros [_ H].
  assert (E := H 0 0 0 ltac:(cbn; lia) ltac:(cbn; lia) ltac:(lia)). vm_compute in E. discriminate E.
Qed.

(** The compositor announces another size during the session: the pool is the old one,
    and the frame that is ready has the old bytes under the new geometry. *)
Example resized_frame_unsound :
  let a := mkAttempt ([Ev (ExBufferSize 4 1); Ev ExDone] ++ ext_delivery 10 [1; 2; 3; 4; 5; 6; 7; 8] [] 0 0 6 5)
             true None true 1 PollIn None in
  match ext_next_frame (mkWorld (w_st demo_ext) (w_mem demo_ext) 11 [a] [] [] []) with
  | Done _ (inl f) => fr_width f = 4 /\ fr_stride f = 16 /\ zlen (fr_data f) = 8
  | _ => False
  end.
Proof. vm_compute. by split_and!. Qed.
