(* ===== verification/ExtSetup.v ===== *)
(** What the constructor of the ext-image-copy-capture backend sets up, and which window
    [NewToplevel] finds. *)

From stdpp Require Import strings.
From S2P Require Import Prelude Delta DesktopDetect ServerPipeline CaptureThread CaptureSelect.
From S2P Require Import CaptureIo CaptureLogic CaptureMem Screencopy ExtCapture.

(** ** Inverting runs *)

Lemma bind_inv {S E A B} (m : cap S E A) (f : A -> cap S E B) w w' b :
  (m ≫= f) w = Done w' (inl b) -> exists a w1, m w = Done w1 (inl a) /\ f a w1 = Done w' (inl b).
Proof.
  unfold mbind, cap_bind. destruct (m w) as [w1 [a|e]|w1|w1]; try done. intros H. by exists a, w1.
Qed.

Lemma ok_or_inv {S E A} (o : option A) e (w w' : world S E) a :
  ok_or o e w = Done w' (inl a) -> o = Some a /\ w' = w.
Proof. destruct o; cbn; [|done]. by intros [= -> ->]. Qed.

Ltac run_inv :=
  repeat match goal with
  | H : (_ ≫= _) _ = Done _ (inl _) |- _ =>
      let a := fresh "a" in let w := fresh "w" in
      apply bind_inv in H as (a & w & ? & H)
  | H : get_st _ = Done _ _ |- _ => first [injection H as <- <- | injection H as <-]
  | H : put_st _ _ = Done _ _ |- _ => first [injection H as <- <- | injection H as <-]
  | H : fresh _ = Done _ _ |- _ => first [injection H as <- <- | injection H as <-]
  | H : tell _ _ = Done _ _ |- _ => first [injection H as <- <- | injection H as <-]
  | H : log _ _ = Done _ _ |- _ => first [injection H as <- <- | injection H as <-]
  | H : get_mem _ = Done _ _ |- _ => first [injection H as <- <- | injection H as <-]
  | H : set_mem _ _ = Done _ _ |- _ => first [injection H as <- <- | injection H as <-]
  | H : mret _ _ = Done _ _ |- _ => first [injection H as <- <- | injection H as <-]
  | H : throw _ _ = Done _ (inl _) |- _ => discriminate H
  | H : crash _ = Done _ _ |- _ => discriminate H
  | H : ok_or _ _ _ = Done _ (inl _) |- _ => apply ok_or_inv in H as [? ->]
  | H : (if ?c then _ else _) _ = Done _ (inl _) |- _ => let E := fresh "Hc" in destruct c eqn:E
  end.

(** A slot is a buffer of that size, mapped. *)
Lemma slot_new_inv {S E} width height stride format size (w w' : world S E) s :
  ShmSlot_new width height stride format size w = Done w' (inl s) ->
  sl_size s = size /\ w_st w' = w_st w /\ w_mem w' = <[sl_buffer s := replicate (Z.to_nat size) 0]> (w_mem w) /\
  sl_buffer s = w_next w + 1 /\ w_next w' = w_next w + 2 /\
  w_log w' = w_log w ++ (Req <$> [CreatePool (sl_pool s) (i32 size);
    CreateBuffer (sl_buffer s) (sl_pool s) 0 (i32 width) (i32 height) (i32 stride) format]).
Proof.
  destruct w as [st mem next atts trips calls lg]. unfold ShmSlot_new. intros H. run_inv.
  unfold mem_call in H0. cbn in H0. destruct calls as [|c calls]; [done|]. injection H0 as <- <-.
  destruct c; run_inv; try done. cbn. split_and!; [done..|lia|lia|done].
Qed.

Lemma on_error_inv {S E A} (m : cap S E A) h w w' a :
  on_error m h w = Done w' (inl a) -> m w = Done w' (inl a).
Proof.
  unfold on_error. destruct (m w) as [w1 [b|e]|w1|w1] eqn:E1; try done.
  unfold mbind, cap_bind. by destruct (h w1) as [w2 [[]|e']|w2|w2].
Qed.

(** A new pool: its shape, and a zeroed active buffer of that size. *)
Lemma pool_new_inv {S E} width height stride format (w w' : world S E) p :
  ShmBufferPool_new width height stride format w = Done w' (inl p) ->
  pool_shape p = mkShape width height stride format /\ w_st w' = w_st w /\ width * 4 <= stride /\
  0 <> stride * height /\ stride * height < 2 ^ 64 /\
  (exists lg, w_log w' = w_log w ++ lg) /\
  exists sl, active_slot p = Some sl /\ w_mem w' !! sl_buffer sl = Some (replicate (Z.to_nat (stride * height)) 0).
Proof.
  unfold ShmBufferPool_new, checked_mul. intros H.
  apply bind_inv in H as (m & w1 & Hm & H). destruct (width * 4 <? 2 ^ 64); [|done]. injection Hm as <- <-.
  destruct (Z.ltb_spec stride (width * 4)); [done|].
  apply bind_inv in H as (m & w1 & Hm & H).
  destruct (Z.ltb_spec (stride * height) (2 ^ 64)); [|done]. injection Hm as <- <-.
  destruct (Z.eqb_spec (stride * height) 0) as [|Hz]; [done|].
  apply bind_inv in H as (s0 & w1 & K1 & H). apply bind_inv in H as (s1 & w2 & K2 & H).
  apply on_error_inv in K2. injection H as <- <-.
  apply slot_new_inv in K1 as (_ & S1 & M1 & B1 & N1 & L1). apply slot_new_inv in K2 as (_ & S2 & M2 & B2 & N2 & L2).
  split_and!; [done|congruence|lia|congruence|lia|rewrite L2, L1, <- app_assoc; by eexists|].
  exists s0. split; [done|]. rewrite M2, lookup_insert_ne by lia. by rewrite M1, lookup_insert_eq.
Qed.

(** ** The constructor *)

(** What a source of that kind is made of. *)
Definition targets (st : ExtCaptureState) (source : CaptureSource) (target : Z) : Prop :=
  match source with
  | Output (Some name) => exists o, o ∈ ex_outputs st /\ do_name o = name /\ do_wl_output o = target
  | Output None => exists o l, ex_outputs st = o :: l /\ do_wl_output o = target
  | Toplevel app_id => exists t, t ∈ ex_toplevels st /\ ti_app_id (dt_info t) = app_id /\ dt_handle t = target
  | NewToplevel known => exists t, t ∈ ex_toplevels st /\ (ti_identifier (dt_info t) ∉ known) /\ dt_handle t = target
  end.

Lemma new_toplevel_new known l t : new_toplevel known l = Some t ->
  t ∈ l /\ (ti_identifier (dt_info t) ∉ known).
Proof.
  unfold new_toplevel. destruct (list_find _ l) as [[i u]|] eqn:E1.
  - intros [= <-]. apply list_find_Some in E1 as (E1 & [_ E2] & _). split; [|done].
    by apply list_elem_of_lookup_2 with i.
  - case_bool_decide as E2; [|done]. destruct l as [|u l]; [done|]. cbn. intros [= <-]. rewrite E2.
    split; [by apply list_elem_of_here|by apply not_elem_of_nil].
Qed.

Lemma choose_targets st source manager target :
  choose_source st source = inl (manager, target) -> targets st source target.
Proof.
  destruct source as [[name|]|app_id|known]; cbn;
    match goal with |- context [match ?m with Some _ => _ | None => inr NoBackend end] => destruct m end; try done.
  - destruct (list_find _ _) as [[i o]|] eqn:E1; [|done]. intros [= _ <-].
    apply list_find_Some in E1 as (E1 & E2 & _). exists o. split_and!; [by apply list_elem_of_lookup_2 with i|done..].
  - destruct (ex_outputs st) as [|o l]; [done|]. cbn. intros [= _ <-]. by exists o, l.
  - destruct (list_find _ _) as [[i t]|] eqn:E1; [|done]. intros [= _ <-].
    apply list_find_Some in E1 as (E1 & E2 & _). exists t. split_and!; [by apply list_elem_of_lookup_2 with i|done..].
  - destruct (new_toplevel _ _) as [t|] eqn:E1; [|done]. intros [= _ <-].
    apply new_toplevel_new in E1 as [E1 E2]. by exists t.
Qed.

(** Events do not touch the objects. *)
Definition objects (st : ExtCaptureState) : option Z * option Z * option ShmBufferPool :=
  (ex_source st, ex_session st, ex_pool st).

Lemma handle_objects st ev : objects (ext_handle st ev).1 = objects st.
Proof.
  destruct ev; try done. unfold ext_handle, ext_registry_global. cbn. by repeat case_bool_decide.
Qed.

(** What a list of actions leaves: the state its events lead to, the answers to come. *)
Lemma acts_leave l w w' : acts ext_handle l w = Done w' (inl tt) ->
  w_st w' = acts_st ext_handle (w_st w) l /\ w_trips w' = w_trips w /\ exists lg, w_log w' = w_log w ++ lg.
Proof.
  revert w. induction l as [|a l IH]; intros w; cbn [acts].
  { intros [= <-]. split_and!; [done|done|]. exists []. by rewrite app_nil_r. }
  intros H. apply bind_inv in H as ([] & w1 & H1 & H). apply IH in H as (-> & -> & lg & ->).
  destruct w as [st mem next atts trips calls lg0]. unfold act in H1. run_inv.
  destruct a as [e|b bytes]; run_inv.
  - cbn [w_st] in H1. destruct (ext_handle st e) as [st' rs] eqn:Eh. run_inv. cbn [acts_st w_st w_trips w_log with_log fst]. rewrite ?Eh. cbn [fst].
    split_and!; [done|done|]. exists (([Act (Ev e)] ++ (Req <$> rs)) ++ lg). by rewrite <- !app_assoc.
  - cbn. split_and!; [done|done|]. exists ([Act (WriteBuffer b bytes)] ++ lg). by rewrite <- app_assoc.
Qed.

Lemma acts_st_objects st l : objects (acts_st ext_handle st l) = objects st.
Proof. revert st. induction l as [|[e|b bytes] l IH]; intros st; cbn [acts_st]; [done|by rewrite IH, handle_objects|done]. Qed.

Lemma roundtrip_leaves w w' : roundtrip ext_handle w = Done w' (inl tt) ->
  exists t, w_trips w = t :: w_trips w' /\ w_st w' = acts_st ext_handle (w_st w) (tr_acts t) /\
    exists lg, w_log w' = w_log w ++ lg.
Proof.
  unfold roundtrip. destruct (w_trips w) as [|t ts]; [done|]. intros H. exists t.
  apply bind_inv in H as ([] & w1 & H1 & H). apply acts_leave in H1 as (H1 & H2 & H3).
  destruct (tr_ok t); [|done]. injection H as <-. cbn in *. by rewrite H2.
Qed.

Lemma create_session_inv source w w' : create_session source w = Done w' (inl tt) ->
  exists manager target src copy session, choose_source (w_st w) source = inl (manager, target) /\
    w_log w' = w_log w ++ [Req (CreateSource src manager target);
                           Req (CreateSession session copy src PaintCursors)] /\
    ex_source (w_st w') = Some src /\ ex_session (w_st w') = Some session.
Proof.
  destruct w as [st mem next atts trips calls lg]. unfold create_session. intros H.
  apply bind_inv in H as (st' & w1 & H1 & H). run_inv. cbn [w_st] in H0.
  unfold from_result in H0. destruct (choose_source st source) as [[manager target]|e] eqn:Ec; [|done].
  run_inv. cbn. eexists manager, target, _, _, _. split_and!; [done| |done..].
  by rewrite <- app_assoc.
Qed.

Lemma create_pool_inv w w' : create_pool w = Done w' (inl tt) ->
  exists p sl fmt, ex_pool (w_st w') = Some p /\ ex_format (w_st w') = Some fmt /\
    ex_width (w_st w') = ex_width (w_st w) /\ ex_height (w_st w') = ex_height (w_st w) /\
    ex_source (w_st w') = ex_source (w_st w) /\ ex_session (w_st w') = ex_session (w_st w) /\
    pool_shape p = mkShape (ex_width (w_st w')) (ex_height (w_st w')) (ext_stride (w_st w')) fmt /\
    ex_width (w_st w') * 4 <= ext_stride (w_st w') /\ active_slot p = Some sl /\
    w_mem w' !! sl_buffer sl = Some (replicate (Z.to_nat (sh_bytes (pool_shape p))) 0) /\
    exists lg, w_log w' = w_log w ++ lg.
Proof.
  destruct w as [st mem next atts trips calls lg]. unfold create_pool. intros H.
  apply bind_inv in H as (st' & w1 & H1 & H). injection H1 as <- <-. cbn [w_st] in H.
  destruct (negb (ex_session_ready st)); [done|].
  apply bind_inv in H as (fmt & w1 & H1 & H). apply ok_or_inv in H1 as [Ef ->].
  apply bind_inv in H as ([] & w1 & H1 & H). destruct (ex_shm st); [|done]. injection H1 as <-.
  apply bind_inv in H as (p & w1 & H1 & H). injection H as <-.
  apply pool_new_inv in H1 as (Esh & Est & Hs & _ & _ & [lg1 L1] & sl & Esl & Em).
  exists p, sl, fmt. cbn in *. split_and!; try done; [by rewrite Esh|by exists lg1].
Qed.

(** C39. When the constructor succeeds, the compositor answered two round trips before
    the source was made, and the session captures what was asked for among what those
    announced: in the state their events lead to, the source is made of the output of the
    name asked for (or the first one), of a window of the application, or of a window
    that is not among the known ones.  Cursors are painted; and the pool has the announced
    size and format, with rows that hold their pixels and a zeroed active buffer of
    exactly one image, so that captures can start. *)
Theorem ext_opens connected source w w' :
  ExtImageCaptureBackend_new connected source w = Done w' (inl tt) ->
  exists t1 t2 trips manager target src copy session,
    w_trips w = t1 :: t2 :: trips /\
    targets (acts_st ext_handle (w_st w) (tr_acts t1 ++ tr_acts t2)) source target /\
    (exists lg lg', w_log w' = lg ++ [Req (CreateSource src manager target);
                                      Req (CreateSession session copy src PaintCursors)] ++ lg') /\
    ex_source (w_st w') = Some src /\ ex_session (w_st w') = Some session /\
    exists p sl fmt, ex_pool (w_st w') = Some p /\ ex_format (w_st w') = Some fmt /\
      pool_shape p = mkShape (ex_width (w_st w')) (ex_height (w_st w')) (ext_stride (w_st w')) fmt /\
      ex_width (w_st w') * 4 <= ext_stride (w_st w') /\
      active_slot p = Some sl /\
      w_mem w' !! sl_buffer sl = Some (replicate (Z.to_nat (sh_bytes (pool_shape p))) 0).
Proof.
  unfold ExtImageCaptureBackend_new. destruct connected; [|done]. cbn [negb]. intros H.
  apply bind_inv in H as ([] & w1 & H1 & H). apply bind_inv in H as (st & w2 & H2 & H). injection H2 as <- <-.
  destruct (negb _); [done|]. destruct (negb _); [done|].
  apply bind_inv in H as ([] & w3 & H3 & H). apply bind_inv in H as ([] & w4 & Hs & H).
  apply bind_inv in H as ([] & w5 & Hr & H).
  apply roundtrip_leaves in H1 as (t1 & T1 & S1 & _). apply roundtrip_leaves in H3 as (t2 & T2 & S2 & _).
  apply roundtrip_leaves in Hr as (t3 & _ & S3 & lg1 & L1).
  apply create_session_inv in Hs as (manager & target & src & copy & session & Hch & Ls & Es & Ess).
  apply create_pool_inv in H as (p & sl & fmt & Ep & Ef & Ew & Eh & Eo1 & Eo2 & Esh & Hstr & Esl & Em & lg2 & L2).
  pose proof (acts_st_objects (w_st w4) (tr_acts t3)) as Ho. rewrite <- S3 in Ho.
  unfold objects in Ho. injection Ho as Ho1 Ho2 _.
  exists t1, t2, (w_trips w3), manager, target, src, copy, session. split; [by rewrite T1, T2|].
  rewrite acts_app_st, <- S1, <- S2. split; [by eapply choose_targets|]. split_and!.
  - rewrite L2, L1, Ls, <- !app_assoc. by eexists _, _.
  - congruence.
  - congruence.
  - by exists p, sl, fmt.
Qed.

(** A compositor with one output and two windows, of which one is known. *)
Definition demo_setup : world ExtCaptureState ext_event :=
  mkWorld ExtCaptureState_empty ∅ 100 []
    [mkTrip [Ev (ExGlobal 1 (str "wl_shm") 2); Ev (ExGlobal 2 (str "wl_output") 4);
             Ev (ExGlobal 3 toplevel_source_manager_v1 1); Ev (ExGlobal 4 copy_capture_manager_v1 1);
             Ev (ExGlobal 5 toplevel_list_v1 1)] true;
     mkTrip [Ev (ExAppId 20 (str "term")); Ev (ExIdentifier 20 (str "w1"));
             Ev (ExAppId 21 (str "term")); Ev (ExIdentifier 21 (str "w2"))] true;
     mkTrip [Ev (ExBufferSize 2 1); Ev (ExShmFormat (Some 0)); Ev (ExShmFormat (Some 1)); Ev ExDone] true]
    [MemOk; MemOk] [].

Definition demo_opened : world ExtCaptureState ext_event :=
  final (ExtImageCaptureBackend_new true (NewToplevel [str "w1"]) demo_setup).

Lemma ext_opens_witness :
  exists t1 t2 trips manager target src copy session,
    w_trips demo_setup = t1 :: t2 :: trips /\
    targets (acts_st ext_handle (w_st demo_setup) (tr_acts t1 ++ tr_acts t2)) (NewToplevel [str "w1"]) target /\
    (exists lg lg', w_log demo_opened = lg ++ [Req (CreateSource src manager target);
                                      Req (CreateSession session copy src PaintCursors)] ++ lg') /\
    ex_source (w_st demo_opened) = Some src /\ ex_session (w_st demo_opened) = Some session /\
    exists p sl fmt, ex_pool (w_st demo_opened) = Some p /\ ex_format (w_st demo_opened) = Some fmt /\
      pool_shape p = mkShape (ex_width (w_st demo_opened)) (ex_height (w_st demo_opened))
                       (ext_stride (w_st demo_opened)) fmt /\
      ex_width (w_st demo_opened) * 4 <= ext_stride (w_st demo_opened) /\
      active_slot p = Some sl /\
      w_mem demo_opened !! sl_buffer sl = Some (replicate (Z.to_nat (sh_bytes (pool_shape p))) 0).
Proof. apply (ext_opens true (NewToplevel [str "w1"]) demo_setup demo_opened). vm_compute. reflexivity. Defined.

(** The second window is captured, in the preferred format. *)
Example second_window :
  Req (CreateSource 100 3 21) ∈ w_log demo_opened /\ ex_format (w_st demo_opened) = Some 1.
Proof.
  split; [|vm_compute; reflexivity]. apply list_elem_of_lookup. exists 14%nat. vm_compute. reflexivity.
Qed.

(** ** The list of windows *)

(** What a compositor's events say is open: a window is there from its first [AppId]. *)
Definition window_event (m : gmap Z ToplevelInfo) (ev : ext_event) : gmap Z ToplevelInfo :=
  match ev with
  | ExAppId h a =>
      let old := default (mkToplevelInfo [] [] []) (m !! h) in
      <[h := mkToplevelInfo a (ti_title old) (ti_identifier old)]> m
  | ExTitle h t => alter (fun i => mkToplevelInfo (ti_app_id i) t (ti_identifier i)) h m
  | ExIdentifier h d => alter (fun i => mkToplevelInfo (ti_app_id i) (ti_title i) d) h m
  | ExClosed h => delete h m
  | _ => m
  end.

Definition pairs (l : list DiscoveredToplevel) : list (Z * ToplevelInfo) :=
  (fun t => (dt_handle t, dt_info t)) <$> l.

(** The list is the map: no handle twice, the same windows. *)
Definition lists (l : list DiscoveredToplevel) (m : gmap Z ToplevelInfo) : Prop :=
  NoDup (dt_handle <$> l) /\ list_to_map (pairs l) = m.

Lemma change_spec h f l : NoDup (dt_handle <$> l) ->
  match change_toplevel h f l with
  | Some l' => dt_handle <$> l' = dt_handle <$> l /\ h ∈ dt_handle <$> l /\
      (list_to_map (pairs l') : gmap Z ToplevelInfo) = alter f h (list_to_map (pairs l))
  | None => h ∉ dt_handle <$> l
  end.
Proof.
  induction l as [|[h' i] l IH]; cbn; [intros _; by apply not_elem_of_nil|].
  intros [Hn Hd]%list.NoDup_cons. destruct (Z.eqb_spec h' h) as [->|Hne]; cbn.
  - split_and!; [done|by apply list_elem_of_here|]. by rewrite alter_insert_eq.
  - specialize (IH Hd). destruct (change_toplevel h f l) as [l'|]; cbn.
    + destruct IH as (-> & H & E1). split_and!; [done|by apply list_elem_of_further|].
      fold (pairs l') (pairs l). rewrite E1. by rewrite alter_insert_ne.
    + rewrite not_elem_of_cons. by split.
Qed.

Lemma listed_iff l m h : lists l m -> h ∈ dt_handle <$> l <-> is_Some (m !! h).
Proof.
  intros [Hd <-]. unfold pairs. rewrite <- elem_of_dom, dom_list_to_map.
  rewrite <- list_fmap_compose. cbn. by rewrite elem_of_list_to_set.
Qed.

Lemma default_change l m h f : lists l m ->
  lists (default l (change_toplevel h f l)) (alter f h m).
Proof.
  intros Hl. pose proof Hl as [Hd <-]. pose proof (change_spec h f l Hd) as H.
  destruct (change_toplevel h f l) as [l'|]; cbn.
  - destruct H as (E1 & _ & E2). split; [by rewrite E1|done].
  - rewrite (listed_iff _ _ _ Hl), <- eq_None_not_Some in H.
    split; [done|]. symmetry. apply map_eq. intros k. destruct (decide (k = h)) as [->|Hk].
    + by rewrite lookup_alter_eq, H.
    + by rewrite lookup_alter_ne.
Qed.

Lemma filter_lists l m h : lists l m -> lists (filter (fun t => dt_handle t <> h) l) (delete h m).
Proof.
  intros [Hd <-]. induction l as [|t l IH]; [split; [by apply NoDup_nil_2|cbn; by rewrite delete_empty]|].
  cbn in Hd. apply list.NoDup_cons in Hd as [Hn Hd]. destruct (IH Hd) as [H1 H2].
  rewrite filter_cons. case_decide as Hc; (split; [|cbn]).
  - cbn. apply list.NoDup_cons. split; [|done]. intros (u & Eu & Hu)%list_elem_of_fmap.
    apply list_elem_of_filter in Hu as [_ Hu]. apply Hn. rewrite Eu. by apply list_elem_of_fmap_2.
  - rewrite delete_insert_ne by done. f_equal. exact H2.
  - done.
  - rewrite Hc, delete_insert_eq. exact H2.
Qed.

Lemma window_step l m ev : lists l m -> lists (toplevel_event l ev) (window_event m ev).
Proof.
  intros Hl. pose proof Hl as [Hd Hm]. destruct ev; try done; cbn [toplevel_event window_event].
  - pose proof (change_spec handle (fun t => mkToplevelInfo app_id (ti_title t) (ti_identifier t)) l Hd) as H.
    destruct (change_toplevel _ _ l) as [l'|]; cbn.
    + destruct H as (E1 & Hin & E2). split; [by rewrite E1|]. rewrite E2, Hm.
      apply (listed_iff _ _ _ Hl) in Hin as [i Ei]. rewrite Ei. cbn.
      apply map_eq. intros k. destruct (decide (k = handle)) as [->|Hk].
      * by rewrite lookup_alter_eq, lookup_insert_eq, Ei.
      * by rewrite lookup_alter_ne, lookup_insert_ne by done.
    + assert (Hn : m !! handle = None).
      { rewrite (listed_iff _ _ _ Hl) in H. by rewrite eq_None_not_Some. }
      rewrite Hn. cbn. split.
      * rewrite fmap_app. apply list.NoDup_app. split_and!; [done| |apply NoDup_singleton].
        intros h Hh Hh'. apply list_elem_of_singleton in Hh' as ->. by apply H.
      * unfold pairs in *. rewrite fmap_app, list_to_map_app, Hm. cbn. symmetry.
        rewrite insert_empty. by apply insert_union_singleton_r.
  - by apply default_change.
  - by apply default_change.
  - by apply filter_lists.
Qed.

(** However the events come, the listing is what is open, each window once. *)
Lemma toplevels_refine evs l m : lists l m ->
  lists (foldl toplevel_event l evs) (foldl window_event m evs).
Proof. revert l m. induction evs as [|ev evs IH]; intros l m Hl; [done|]. by apply IH, window_step. Qed.

(** C40. Whatever the events of the windows and however they interleave, the
    list the backend keeps is the map of what is open (a window is open from its first
    application id until it is closed, with the last title and identifier sent since),
    each window exactly once. *)
Theorem windows_listed evs :
  lists (foldl toplevel_event [] evs) (foldl window_event ∅ evs).
Proof. apply toplevels_refine. split; [by apply NoDup_nil_2|done]. Qed.

(** An identifier (or a title) that comes before the application's id is lost. *)
Example early_identifier_lost :
  foldl toplevel_event [] [ExIdentifier 7 (str "w7"); ExTitle 7 (str "doc"); ExAppId 7 (str "edit")] =
  [mkDiscoveredToplevel 7 (mkToplevelInfo (str "edit") [] [])] /\
  new_toplevel [str "w1"] [mkDiscoveredToplevel 7 (mkToplevelInfo (str "edit") [] [])] = None.
Proof. split; vm_compute; reflexivity. Qed.
