(* ===== verification/Outputs.v ===== *)
(** Listing the displays and the windows of a compositor
    ([crates/remoteway-capture/src/{output,toplevel}.rs]): the handlers and the two
    enumerations, what they list when the events come in the usual order, and what
    happens when they do not. *)

From stdpp Require Import strings.
From S2P Require Import Prelude DesktopDetect CaptureThread CaptureIo CaptureLogic.

Module Outputs.
(** ** Displays *)

Record OutputInfo := mkOutputInfo {
  oi_name : text; oi_description : text; oi_x : Z; oi_y : Z; oi_width : Z; oi_height : Z;
  oi_refresh_mhz : Z; oi_scale : Z; oi_global_name : Z }.

Definition OutputInfo_new (global_name : Z) : OutputInfo := mkOutputInfo [] [] 0 0 0 0 0 1 global_name.

(** [os_pending] pairs an index with a bound output. *)
Record OutputState := mkOutputState {
  os_outputs : list OutputInfo; os_manager : option Z; os_pending : list (nat * Z) }.

(** Of the registry; of an output, by its global; of an [xdg_output], which says nothing
    of the output it belongs to.  Unknown mode flags are [None]. *)
Inductive out_event :=
  | OuGlobal (name : Z) (interface : text) (version : Z)
  | OuGeometry (global x y : Z)
  | OuMode (global : Z) (flags : option Z) (width height refresh : Z)
  | OuScale (global factor : Z)
  | OuName (global : Z) (name : text)
  | OuDescription (global : Z) (description : text)
  | OuXdgName (name : text)
  | OuXdgDescription (description : text)
  | OuXdgPosition (x y : Z)
  | OuXdgSize (width height : Z)
  | OuOther.

(** [iter_mut().find(..)] on the outputs. *)
Fixpoint update_global (global : Z) (f : OutputInfo -> OutputInfo) (l : list OutputInfo) : list OutputInfo :=
  match l with
  | [] => []
  | o :: l => if oi_global_name o =? global then f o :: l else o :: update_global global f l
  end.

(** [last_mut]. *)
Definition update_last (f : OutputInfo -> OutputInfo) (l : list OutputInfo) : list OutputInfo :=
  alter f (pred (length l)) l.

Definition set_position (x y : Z) (o : OutputInfo) : OutputInfo :=
  mkOutputInfo (oi_name o) (oi_description o) x y (oi_width o) (oi_height o) (oi_refresh_mhz o)
    (oi_scale o) (oi_global_name o).
Definition set_size (w h refresh : Z) (o : OutputInfo) : OutputInfo :=
  mkOutputInfo (oi_name o) (oi_description o) (oi_x o) (oi_y o) w h refresh (oi_scale o) (oi_global_name o).
Definition set_scale (s : Z) (o : OutputInfo) : OutputInfo :=
  mkOutputInfo (oi_name o) (oi_description o) (oi_x o) (oi_y o) (oi_width o) (oi_height o)
    (oi_refresh_mhz o) s (oi_global_name o).
Definition set_name (n : text) (o : OutputInfo) : OutputInfo :=
  mkOutputInfo n (oi_description o) (oi_x o) (oi_y o) (oi_width o) (oi_height o) (oi_refresh_mhz o)
    (oi_scale o) (oi_global_name o).
Definition set_description (d : text) (o : OutputInfo) : OutputInfo :=
  mkOutputInfo (oi_name o) d (oi_x o) (oi_y o) (oi_width o) (oi_height o) (oi_refresh_mhz o)
    (oi_scale o) (oi_global_name o).

(** [Mode::Current]. *)
Definition is_current (flags : option Z) : bool :=
  match flags with Some f => Z.testbit f 0 | None => false end.

(** What an event of the outputs does to the list. *)
Definition output_event (l : list OutputInfo) (ev : out_event) : list OutputInfo :=
  match ev with
  | OuGeometry g x y => update_global g (set_position x y) l
  | OuMode g flags w h refresh => if is_current flags then update_global g (set_size w h refresh) l else l
  | OuScale g factor => update_global g (set_scale factor) l
  | OuName g name => update_global g (set_name name) l
  | OuDescription g d => update_global g (set_description d) l
  | OuXdgName name => update_last (set_name name) l
  | OuXdgDescription d => update_last (set_description d) l
  | OuXdgPosition x y => update_last (set_position x y) l
  | OuXdgSize w h => update_last (fun o => set_size w h (oi_refresh_mhz o) o) l
  | OuGlobal _ _ _ | OuOther => l
  end.

Definition out_handle (st : OutputState) (ev : out_event) : OutputState * list cap_req :=
  match ev with
  | OuGlobal name interface version =>
      if bool_decide (interface = str "wl_output") then
        (mkOutputState (os_outputs st ++ [OutputInfo_new name]) (os_manager st)
           (os_pending st ++ [(length (os_outputs st), name)]), [BindGlobal name interface (Z.min version 4)])
      else if bool_decide (interface = str "zxdg_output_manager_v1") then
        (mkOutputState (os_outputs st) (Some name) (os_pending st), [BindGlobal name interface (Z.min version 3)])
      else (st, [])
  | _ => (mkOutputState (output_event (os_outputs st) ev) (os_manager st) (os_pending st), [])
  end.

Definition enumerate : cap OutputState out_event (list OutputInfo) :=
  roundtrip out_handle;;
  st ← get_st;
  (match os_manager st with
   | Some manager =>
       tell ((fun p => GetXdgOutput manager p.2) <$> os_pending st);;
       roundtrip out_handle
   | None => mret tt
   end);;
  st ← get_st;
  mret (os_outputs st).

(** [find_by_name]. *)
Definition find_by_name (name : text) (l : list OutputInfo) : option OutputInfo :=
  snd <$> list_find (fun o => oi_name o = name) l.

(** *** One display *)

(** An event for a display changes that display and no other. *)
Lemma update_global_other g f l i o :
  l !! i = Some o -> oi_global_name o <> g -> (forall o, oi_global_name (f o) = oi_global_name o) ->
  update_global g f l !! i = Some o.
Proof.
  intros Hi Hg Hf. revert i Hi. induction l as [|o' l IH]; intros i Hi; [done|]. cbn.
  destruct (Z.eqb_spec (oi_global_name o') g) as [E1|E1]; destruct i as [|i]; cbn in *; simplify_eq; try done.
  by apply IH.
Qed.

(** The name, place and size from [xdg_output] all land on the display announced last. *)
Example xdg_events_hit_last :
  foldl output_event [OutputInfo_new 1; OutputInfo_new 2]
    [OuName 1 (str "DP-1"); OuName 2 (str "DP-2"); OuXdgName (str "DP-1"); OuXdgPosition 0 0; OuXdgSize 1920 1080;
     OuXdgName (str "DP-2"); OuXdgPosition 1920 0; OuXdgSize 2560 1440] =
  [mkOutputInfo (str "DP-1") [] 0 0 0 0 0 1 1; mkOutputInfo (str "DP-2") [] 1920 0 2560 1440 0 1 2].
Proof. vm_compute. reflexivity. Qed.
End Outputs.

Module Toplevels.
(** ** Windows, by the wlr protocol *)

Record WindowInfo := mkWindowInfo { tl_title : text; tl_app_id : text; tl_activated : bool; tl_minimized : bool }.

Record ToplevelState := mkToplevelState {
  ts_toplevels : list WindowInfo; ts_manager : option Z; ts_current : option WindowInfo }.

(** The handlers look at no proxy: an event of any window is an event. *)
Inductive tl_event :=
  | TlGlobal (name : Z) (interface : text) (version : Z)
  | TlFinished
  | TlTitle (title : text)
  | TlAppId (app_id : text)
  | TlState (st : list Z)
  | TlDone
  | TlClosed
  | TlOther.

(** [as_chunks::<4>().0]: a shorter rest is left out. *)
Fixpoint words (fuel : nat) (bytes : list Z) : list Z :=
  match fuel, bytes with
  | S fuel, a :: b :: c :: d :: rest => le_dec [a; b; c; d] :: words fuel rest
  | _, _ => []
  end.

(** One value of the state array; the byte order is that of a little-endian machine. *)
Definition apply_state (t : WindowInfo) (val : Z) : WindowInfo :=
  if val =? 0 then mkWindowInfo (tl_title t) (tl_app_id t) true (tl_minimized t)
  else if val =? 1 then mkWindowInfo (tl_title t) (tl_app_id t) (tl_activated t) true
  else t.

(** [current.take()], pushed. *)
Definition finalize (st : ToplevelState) : ToplevelState :=
  match ts_current st with
  | Some t => mkToplevelState (ts_toplevels st ++ [t]) (ts_manager st) None
  | None => st
  end.

Definition with_current (st : ToplevelState) (t : option WindowInfo) : ToplevelState :=
  mkToplevelState (ts_toplevels st) (ts_manager st) t.

Definition tl_handle (st : ToplevelState) (ev : tl_event) : ToplevelState * list cap_req :=
  match ev with
  | TlGlobal name interface version =>
      if bool_decide (interface = str "zwlr_foreign_toplevel_manager_v1") then
        (mkToplevelState (ts_toplevels st) (Some name) (ts_current st), [BindGlobal name interface (Z.min version 3)])
      else (st, [])
  | TlFinished | TlDone => (finalize st, [])
  | TlTitle title =>
      let t := default (mkWindowInfo [] [] false false) (ts_current st) in
      (with_current st (Some (mkWindowInfo title (tl_app_id t) (tl_activated t) (tl_minimized t))), [])
  | TlAppId app_id =>
      (with_current st
         ((fun t => mkWindowInfo (tl_title t) app_id (tl_activated t) (tl_minimized t)) <$> ts_current st), [])
  | TlState bytes =>
      (with_current st ((fun t => foldl apply_state t (words (length bytes) bytes)) <$> ts_current st), [])
  | TlClosed => (with_current st None, [])
  | TlOther => (st, [])
  end.

Definition tl_enumerate : cap ToplevelState tl_event (list WindowInfo) :=
  roundtrip tl_handle;;
  st ← get_st;
  (match ts_manager st with Some _ => roundtrip tl_handle | None => mret tt end);;
  st ← get_st;
  mret (ts_toplevels (finalize st)).

(** [find_by_app_id]. *)
Definition find_by_app_id (app_id : text) (l : list WindowInfo) : option WindowInfo :=
  snd <$> list_find (fun t => tl_app_id t = app_id) l.

(** *** Windows one after the other *)

(** What a compositor sends for a window, title first. *)
Definition announce (t : WindowInfo) (states : list Z) : list tl_event :=
  [TlTitle (tl_title t); TlAppId (tl_app_id t); TlState (mjoin (le_enc 4 <$> states)); TlDone].

Definition shown (t : WindowInfo) (states : list Z) : WindowInfo :=
  mkWindowInfo (tl_title t) (tl_app_id t) (bool_decide (0 ∈ states)) (bool_decide (1 ∈ states)).

Lemma words_join states fuel : Forall (fits 32) states -> (length (mjoin (le_enc 4 <$> states)) <= fuel)%nat ->
  words fuel (mjoin (le_enc 4 <$> states)) = states.
Proof.
  intros Hs. revert fuel. induction Hs as [|v states Hv Hs IH]; intros fuel Hf; [by destruct fuel|].
  change (mjoin (le_enc 4 <$> v :: states)) with (le_enc 4 v ++ mjoin (le_enc 4 <$> states)) in *.
  rewrite length_app, le_enc_length in Hf. destruct fuel as [|fuel]; [lia|].
  change (words (S fuel) (le_enc 4 v ++ mjoin (le_enc 4 <$> states))) with
    (le_dec (le_enc 4 v) :: words fuel (mjoin (le_enc 4 <$> states))).
  rewrite (le_dec_enc_fits 4) by done. f_equal. apply IH. lia.
Qed.

Lemma apply_states t states : foldl apply_state t states =
  mkWindowInfo (tl_title t) (tl_app_id t) (tl_activated t || bool_decide (0 ∈ states))
    (tl_minimized t || bool_decide (1 ∈ states)).
Proof.
  revert t. induction states as [|v states IH]; intros t; cbn [foldl].
  { rewrite !bool_decide_eq_false_2 by apply not_elem_of_nil. rewrite !orb_false_r. by destruct t. }
  rewrite IH. assert (H : forall k, bool_decide (k ∈ v :: states) = (v =? k) || bool_decide (k ∈ states)).
  { intros k. destruct (Z.eqb_spec v k) as [->|]; cbn; repeat case_bool_decide; try done; set_solver. }
  rewrite !H. unfold apply_state. destruct (Z.eqb_spec v 0) as [->|H0]; cbn; [by rewrite orb_true_r|].
  destruct (Z.eqb_spec v 1) as [->|H1]; cbn; [by rewrite orb_true_r|done].
Qed.

Lemma announce_spec st t states : ts_current st = None -> Forall (fits 32) states ->
  foldl (fun st ev => (tl_handle st ev).1) st (announce t states) =
  mkToplevelState (ts_toplevels st ++ [shown t states]) (ts_manager st) None.
Proof.
  intros Hc Hs. cbn. unfold finalize. cbn. rewrite Hc. cbn.
  rewrite (words_join states) by (done || lia). by rewrite apply_states.
Qed.

(** Windows announced one after the other are all listed, in order. *)
Lemma windows_listed_in_order ws st : ts_current st = None -> Forall (fun p => Forall (fits 32) p.2) ws ->
  foldl (fun st ev => (tl_handle st ev).1) st (ws ≫= fun p => announce p.1 p.2) =
  mkToplevelState (ts_toplevels st ++ ((fun p => shown p.1 p.2) <$> ws)) (ts_manager st) None.
Proof.
  intros Hc Hw. revert st Hc. induction Hw as [|[t states] ws Hs Hw IH]; intros st Hc.
  { cbn. rewrite app_nil_r, <- Hc. by destruct st. }
  cbn [mbind list_bind]. rewrite foldl_app, announce_spec by done. rewrite IH by done. cbn.
  by rewrite <- app_assoc.
Qed.

(** The protocol numbers maximized 0, minimized 1, activated 2: the focused window is not
    the one listed as activated. *)
Example focused_is_not_activated :
  ts_toplevels (foldl (fun st ev => (tl_handle st ev).1) (mkToplevelState [] None None)
    (announce (mkWindowInfo (str "a") (str "a") false false) [2] ++
     announce (mkWindowInfo (str "b") (str "b") false false) [0])) =
  [mkWindowInfo (str "a") (str "a") false false; mkWindowInfo (str "b") (str "b") true false].
Proof. vm_compute. reflexivity. Qed.

(** An application's id that comes before the title is dropped. *)
Example early_app_id_lost :
  ts_toplevels (foldl (fun st ev => (tl_handle st ev).1) (mkToplevelState [] None None)
    [TlAppId (str "a"); TlTitle (str "t"); TlDone]) = [mkWindowInfo (str "t") [] false false].
Proof. reflexivity. Qed.

(** Closing one window while another is being announced forgets the other. *)
Example close_forgets_another :
  ts_toplevels (foldl (fun st ev => (tl_handle st ev).1) (mkToplevelState [] None None)
    [TlTitle (str "new"); TlAppId (str "new"); TlClosed; TlDone]) = [].
Proof. reflexivity. Qed.
End Toplevels.
