(* ===== verification/Portal.v ===== *)
(** The portal capture backend ([crates/remoteway-capture/src/portal.rs]).

    The D-Bus portal and GStreamer are libraries: what they answer is a value
    ([portal_answers], [gst_answers], a [sample] for each pull), and an error is
    its printed text.  The file system is a map from paths to contents.  The
    capture thread and its consumer share a channel of two frames: their
    interleaving is a sequence of [portal_event]s.

    [token_roundtrip]: a saved restore token is read back.  [ready_once]: the set-up
    sends one verdict, the one it returns.  [portal_delivers]: what the consumer
    receives. *)

From stdpp Require Import strings gmap.
From S2P Require Import Prelude Delta FpsOverlay DesktopDetect ServerPipeline CaptureThread.

(** ** The restore token *)

Definition TOKEN_DIR : text := str "remoteway".
Definition TOKEN_FILE : text := str "portal-token".

(** [Path::join] with a relative path. *)
Definition join_path (base part : text) : text :=
  if decide (base = []) then part
  else if ends_with base (str "/") then base ++ part else base ++ str "/" ++ part.

Definition env_var (env : env_map) (name : text) : option text :=
  v ← env !! name; if utf8_valid v then Some v else None.

Definition token_path (env : env_map) : text :=
  let base :=
    match env_var env (str "XDG_CACHE_HOME") with
    | Some b => b
    | None => join_path (default (str "/tmp") (env_var env (str "HOME"))) (str ".cache")
    end in
  join_path (join_path base TOKEN_DIR) TOKEN_FILE.

(** [fs_mkdir] and [fs_write]: whether the parent directory of a path can be made, and
    the path written. *)
Record Files := mkFiles {
  fs_content : gmap text text; fs_mkdir : text -> bool; fs_write : text -> bool }.

Definition load_restore_token (env : env_map) (fs : Files) : option text :=
  content ← fs_content fs !! token_path env;
  if utf8_valid content then
    let trimmed := trim content in if decide (trimmed = []) then None else Some trimmed
  else None.

Definition save_restore_token (env : env_map) (fs : Files) (token : text) : Files :=
  let path := token_path env in
  if negb (fs_mkdir fs path) then fs
  else if fs_write fs path then mkFiles (<[path := token]> (fs_content fs)) (fs_mkdir fs) (fs_write fs)
  else fs.

(** ** The portal handshake *)

(** A call that fails gives its error's text. *)
Definition answer : Type := option text.

Record portal_answers := mkPortalAnswers {
  pa_connect : answer; pa_create : answer; pa_select : answer; pa_start : answer; pa_response : answer;
  pa_streams : list Z;               (** the node of each stream *)
  pa_remote : Z + text;              (** the PipeWire descriptor *)
  pa_token : option text }.

(** The request that matters: what the sources are selected with. *)
Inductive portal_call := SelectSources (restore_token : option text).

Definition failed {A} (what : string) (e : text) : A + CaptureError := inr (CaptureFailed (str what ++ e)).

Definition portal_handshake (env : env_map) (fs : Files) (p : portal_answers)
    : Files * list portal_call * ((Z * Z) + CaptureError) :=
  match pa_connect p with
  | Some e => (fs, [], failed "screencast connect: " e)
  | None =>
      let saved_token := load_restore_token env fs in
      match pa_create p with
      | Some e => (fs, [], failed "create session: " e)
      | None =>
          let calls := [SelectSources saved_token] in
          match pa_select p, pa_start p, pa_response p, pa_streams p, pa_remote p with
          | Some e, _, _, _, _ => (fs, calls, failed "select sources: " e)
          | None, Some e, _, _, _ => (fs, calls, failed "start: " e)
          | None, None, Some e, _, _ => (fs, calls, failed "start result: " e)
          | None, None, None, [], _ => (fs, calls, failed "no streams in portal response" [])
          | None, None, None, _ :: _, inr e => (fs, calls, failed "open_pipe_wire_remote: " e)
          | None, None, None, node :: _, inl fd =>
              let fs := match pa_token p with Some t => save_restore_token env fs t | None => fs end in
              (fs, calls, inl (fd, node))
          end
      end
  end.

(** ** The pipeline *)

Record gst_answers := mkGstAnswers {
  ga_init : answer; ga_runtime : answer;
  ga_src : answer; ga_convert : answer; ga_caps : answer; ga_sink : answer; ga_add : answer; ga_link : answer;
  ga_finds_sink : bool; ga_plays : bool; ga_bus : bool }.

Definition build_pipeline (g : gst_answers) : unit + CaptureError :=
  match ga_src g, ga_convert g, ga_caps g, ga_sink g, ga_add g, ga_link g with
  | Some e, _, _, _, _, _ => failed "failed to create pipewiresrc (is gst-plugin-pipewire installed?): " e
  | None, Some e, _, _, _, _ => failed "failed to create videoconvert: " e
  | None, None, Some e, _, _, _ => failed "failed to create capsfilter: " e
  | None, None, None, Some e, _, _ => failed "failed to create appsink: " e
  | None, None, None, None, Some e, _ => failed "failed to add elements to pipeline: " e
  | None, None, None, None, None, Some e => failed "failed to link elements: " e
  | None, None, None, None, None, None => inl tt
  end.

(** How a [CaptureFailed] prints; the set-up makes no other error. *)
Definition display_error (e : CaptureError) : text :=
  match e with CaptureFailed m => str "capture failed: " ++ m | _ => [] end.

(** [fail]: the verdict sent on the ready channel, and the error returned. *)
Definition fail (e : CaptureError) : list (unit + CaptureError) * CaptureError :=
  let e := CaptureFailed (display_error e) in ([inr e], e).

(** [run_capture] up to the capture loop: the verdicts sent, and whether the loop is
    entered. *)
Definition start_capture (env : env_map) (fs : Files) (p : portal_answers) (g : gst_answers)
    : Files * list (unit + CaptureError) * (unit + CaptureError) :=
  let stop fs e := let '(sent, e) := fail e in (fs, sent, inr e) in
  match portal_handshake env fs p with
  | (fs, _, inr e) => stop fs e
  | (fs, _, inl _) =>
      match build_pipeline g with
      | inr e => stop fs e
      | inl _ =>
          if negb (ga_finds_sink g) then stop fs (CaptureFailed (str "appsink element not found in GStreamer pipeline"))
          else if negb (ga_plays g) then stop fs (CaptureFailed (str "failed to start GStreamer pipeline"))
          else if negb (ga_bus g) then stop fs (CaptureFailed (str "no pipeline bus"))
          else (fs, [inl tt], inl tt)
      end
  end.

(** The thread: a failure before [run_capture] sends nothing. *)
Definition portal_thread (env : env_map) (fs : Files) (p : portal_answers) (g : gst_answers)
    : Files * list (unit + CaptureError) * (unit + CaptureError) :=
  match ga_init g, ga_runtime g with
  | Some e, _ => (fs, [], failed "gstreamer init: " e)
  | None, Some e => (fs, [], failed "tokio runtime: " e)
  | None, None => start_capture env fs p g
  end.

(** [ready_rx.recv_timeout]: the first verdict if it comes in time; when the thread
    ends without one, the channel is disconnected. *)
Definition recv_ready (sent : list (unit + CaptureError)) (in_time : bool) : (unit + CaptureError) + text :=
  match in_time, sent with
  | false, _ => inr (str "timed out waiting on channel")
  | true, v :: _ => inl v
  | true, [] => inr (str "channel is empty and sending half is closed")
  end.

(** [PortalBackend::new]. *)
Definition Portal_new (env : env_map) (fs : Files) (p : portal_answers) (g : gst_answers) (in_time : bool)
    : Files * (unit + CaptureError) :=
  let '(fs, sent, _) := portal_thread env fs p g in
  (fs, match recv_ready sent in_time with
       | inl v => v
       | inr e => failed "portal setup timed out: " e
       end).

(** [PortalBackend::setup_restore_token]. *)
Definition setup_restore_token (env : env_map) (fs : Files) (p : portal_answers) (runtime : answer) (in_time : bool)
    : Files * (unit + CaptureError) :=
  match runtime with
  | Some e => (fs, failed "setup rt: " e)
  | None =>
      let '(fs, _, r) := portal_handshake env fs p in
      (fs, if negb in_time then failed "token setup timed out" []
           else match r with inl _ => inl tt | inr e => inr (CaptureFailed (display_error e)) end)
  end.

(** ** Frames *)

(** [VideoInfo]: the width, the height and the strides of the planes. *)
Record sample := mkSample {
  sm_buffer : option (option (list Z)); (** the buffer, and its bytes if it can be mapped *)
  sm_info : option (Z * Z * list Z);
  sm_pts : option Z }.

Definition sample_to_frame (s : sample) : CapturedFrame + CaptureError :=
  match sm_buffer s with
  | None => failed "sample has no buffer" []
  | Some None => failed "gst buffer map_readable failed" []
  | Some (Some data) =>
      let buf_size := wrap 32 (zlen data) in
      let '(width, height, stride) :=
        match sm_info s with
        | Some (w, h, strides) =>
            (w, h, wrap 32 (Z.max (default (to_signed 32 (wrap 32 (w * 4))) (head strides)) 0))
        | None => (buf_size / 4, 1, buf_size)
        end in
      inl (mkCapturedFrame data [mkDamageRect 0 0 width height] Xbgr8888 width height stride (default 0 (sm_pts s)))
  end.

(** ** The capture loop and its consumer *)

(** Where the capture thread is: at the test of the stop flag, waiting for a
    sample, or gone. *)
Inductive loop_at := AtTest | Pulling | Gone.

#[export] Instance loop_at_eq_dec : EqDecision loop_at.
Proof. solve_decision. Defined.

Record PortalState := mkPortalState {
  po_queue : list CapturedFrame; po_closed : bool; po_stop : bool; po_at : loop_at }.

Definition Portal_start : PortalState := mkPortalState [] false false AtTest.

Definition CHANNEL : nat := 2.

Inductive portal_event :=
  | LoopTest                              (** [stop_flag.load] *)
  | LoopPull (pulled : option sample)     (** [try_pull_sample] and what follows *)
  | NextFrameCall                         (** [next_frame], by the consumer *)
  | StopCall.                             (** [stop], by the consumer *)

(** What the consumer sees; [Waiting]: [blocking_recv] goes on waiting. *)
Inductive portal_obs := Got (f : CapturedFrame) | Ended | Waiting.

(** [try_send] and the rest of the turn: a full channel drops the frame, a closed one
    ends the loop. *)
Definition loop_pull (st : PortalState) (pulled : option sample) : PortalState :=
  let back := mkPortalState (po_queue st) (po_closed st) (po_stop st) AtTest in
  match pulled with
  | None => back
  | Some s =>
      match sample_to_frame s with
      | inr _ => back
      | inl f =>
          if po_closed st then mkPortalState (po_queue st) true (po_stop st) Gone
          else if decide (CHANNEL <= length (po_queue st))%nat then back
          else mkPortalState (po_queue st ++ [f]) false (po_stop st) AtTest
      end
  end.

Definition next_frame (st : PortalState) : PortalState * portal_obs :=
  match po_queue st with
  | f :: q => (mkPortalState q (po_closed st) (po_stop st) (po_at st), Got f)
  | [] => (st, if po_closed st || bool_decide (po_at st = Gone) then Ended else Waiting)
  end.

(** [stop]: the flag is set and the channel closed; what waits in it stays. *)
Definition stop (st : PortalState) : PortalState := mkPortalState (po_queue st) true true (po_at st).

Definition portal_step (st : PortalState) (ev : portal_event) : PortalState * list portal_obs :=
  match ev with
  | LoopTest =>
      match po_at st with
      | AtTest => (mkPortalState (po_queue st) (po_closed st) (po_stop st) (if po_stop st then Gone else Pulling), [])
      | _ => (st, [])
      end
  | LoopPull pulled => (match po_at st with Pulling => loop_pull st pulled | _ => st end, [])
  | NextFrameCall => let '(st, o) := next_frame st in (st, [o])
  | StopCall => (stop st, [])
  end.

Fixpoint portal_run (st : PortalState) (evs : list portal_event) : PortalState * list portal_obs :=
  match evs with
  | [] => (st, [])
  | ev :: evs =>
      let '(st, os) := portal_step st ev in
      let '(st, os') := portal_run st evs in
      (st, os ++ os')
  end.

(** ** Tokens *)

(** A restore token of UTF-8 text with no space at its ends, saved where
    the directory can be made and the file written, is the one the next session
    reads; one that cannot be saved changes nothing. *)
Theorem token_roundtrip (env : env_map) (fs : Files) (token : text) :
  utf8_valid token = true -> trim token = token -> token <> [] ->
  load_restore_token env (save_restore_token env fs token) =
    if fs_mkdir fs (token_path env) && fs_write fs (token_path env) then Some token
    else load_restore_token env fs.
Proof.
  intros Hu Ht Hn. unfold save_restore_token.
  destruct (fs_mkdir fs _); [|done]. destruct (fs_write fs _); [|done]. cbn.
  unfold load_restore_token. cbn [fs_content]. rewrite lookup_insert_eq. cbn. by rewrite Hu, Ht, decide_False.
Qed.

Definition demo_files : Files := mkFiles ∅ (fun _ => true) (fun _ => true).

Lemma token_roundtrip_witness :
  let env : env_map := {[str "HOME" := str "/home/u"]} in
  token_path env = str "/home/u/.cache/remoteway/portal-token" /\
  load_restore_token env (save_restore_token env demo_files (str "abc")) = Some (str "abc").
Proof.
  split; [vm_compute; reflexivity|].
  exact (token_roundtrip {[str "HOME" := str "/home/u"]} demo_files (str "abc") eq_refl eq_refl ltac:(done)).
Defined.

(** ** Set-up *)

Lemma start_capture_ready env fs p g :
  let '(_, sent, r) := start_capture env fs p g in sent = [r].
Proof.
  unfold start_capture, fail. destruct (portal_handshake env fs p) as [[fs' calls] [[fd node]|e]]; [|done].
  destruct (build_pipeline g) as [[]|e]; [|done].
  by destruct (ga_finds_sink g), (ga_plays g), (ga_bus g).
Qed.

(** Once GStreamer and the runtime are up, the set-up sends exactly one verdict
    on the ready channel, the one it returns, so that [new] answers with it when it comes in
    time; a thread that fails before sends none, and [new] then reports a
    time-out although nothing timed out. *)
Theorem ready_once (env : env_map) (fs : Files) (p : portal_answers) (g : gst_answers) :
  let '(fs', sent, r) := portal_thread env fs p g in
  if bool_decide (ga_init g = None /\ ga_runtime g = None)
  then sent = [r] /\ Portal_new env fs p g true = (fs', r)
  else sent = [] /\ (exists e, r = inr e) /\
    Portal_new env fs p g true =
      (fs, failed "portal setup timed out: " (str "channel is empty and sending half is closed")).
Proof.
  unfold Portal_new. destruct (portal_thread env fs p g) as [[fs' sent] r] eqn:E. unfold portal_thread in E.
  destruct (ga_init g) as [e|]; [|destruct (ga_runtime g) as [e|]].
  - simplify_eq. rewrite bool_decide_false by naive_solver. unfold failed. eauto.
  - simplify_eq. rewrite bool_decide_false by naive_solver. unfold failed. eauto.
  - rewrite bool_decide_true by done. pose proof (start_capture_ready env fs p g) as H. rewrite E in H. subst sent. done.
Qed.

(** ** Delivery *)

Definition got (os : list portal_obs) : list CapturedFrame :=
  omap (fun o => match o with Got f => Some f | _ => None end) os.

(** The frames of the samples pulled, in order. *)
Definition converted (evs : list portal_event) : list CapturedFrame :=
  omap (fun ev => match ev with
    | LoopPull (Some s) => match sample_to_frame s with inl f => Some f | inr _ => None end
    | _ => None
    end) evs.

Lemma portal_run_app st evs evs' :
  portal_run st (evs ++ evs') =
    let '(st, os) := portal_run st evs in let '(st, os') := portal_run st evs' in (st, os ++ os').
Proof.
  revert st. induction evs as [|ev evs IH]; intros st; cbn; [by destruct (portal_run st evs')|].
  destruct (portal_step st ev) as [st1 os1]. rewrite IH.
  destruct (portal_run st1 evs) as [st2 os2]. destruct (portal_run st2 evs'). by rewrite app_assoc.
Qed.

Lemma step_delivers st ev :
  let '(st', os) := portal_step st ev in
  exists new, po_queue st ++ new = got os ++ po_queue st' /\ new `sublist_of` converted [ev] /\
    ((length (po_queue st) <= CHANNEL)%nat -> (length (po_queue st') <= CHANNEL)%nat) /\
    (po_closed st = true -> new = [] /\ po_closed st' = true).
Proof.
  assert (Hkeep : forall st' os, po_queue st' = po_queue st -> po_closed st' = po_closed st -> got os = [] ->
    exists new, po_queue st ++ new = got os ++ po_queue st' /\ new `sublist_of` converted [ev] /\
    ((length (po_queue st) <= CHANNEL)%nat -> (length (po_queue st') <= CHANNEL)%nat) /\
    (po_closed st = true -> new = [] /\ po_closed st' = true)).
  { intros st' os -> -> ->. exists []. rewrite app_nil_r. split_and!; try done. apply sublist_nil_l. }
  destruct ev as [|pulled| |]; cbn [portal_step].
  - destruct (po_at st); by apply Hkeep.
  - destruct (po_at st); try by apply Hkeep.
    unfold loop_pull. destruct pulled as [s|]; [|by apply Hkeep].
    destruct (sample_to_frame s) as [f|e] eqn:E; [|by apply Hkeep].
    destruct (po_closed st) eqn:Ec; [by apply Hkeep|].
    destruct (decide _) as [Hl|Hl]; [by apply Hkeep|].
    exists [f]. cbn. rewrite E. split_and!; try done. rewrite length_app. cbn in *. lia.
  - unfold next_frame. destruct (po_queue st) as [|f q] eqn:E.
    + apply Hkeep; [done|done|]. by case_match.
    + exists []. cbn. rewrite app_nil_r. split_and!; try done; lia.
  - exists []. cbn. rewrite app_nil_r. by split_and!.
Qed.

Lemma converted_app evs evs' : converted (evs ++ evs') = converted evs ++ converted evs'.
Proof. apply omap_app. Qed.

Lemma run_delivers evs : forall st,
  let '(st', os) := portal_run st evs in
  exists new, po_queue st ++ new = got os ++ po_queue st' /\ new `sublist_of` converted evs /\
    ((length (po_queue st) <= CHANNEL)%nat -> (length (po_queue st') <= CHANNEL)%nat) /\
    (po_closed st = true -> new = [] /\ po_closed st' = true).
Proof.
  induction evs as [|ev evs IH]; intros st; cbn [portal_run].
  - exists []. rewrite app_nil_r. split_and!; done.
  - pose proof (step_delivers st ev) as H1. destruct (portal_step st ev) as [st1 os1].
    specialize (IH st1). destruct (portal_run st1 evs) as [st2 os2].
    destruct H1 as (new1 & E1 & S1 & L1 & C1). destruct IH as (new2 & E2 & S2 & L2 & C2).
    exists (new1 ++ new2). split_and!.
    + unfold got in *. rewrite app_assoc, E1, <- app_assoc, E2, omap_app, app_assoc. done.
    + change (ev :: evs) with ([ev] ++ evs). rewrite converted_app. by apply sublist_app.
    + auto.
    + intros Hc. destruct (C1 Hc) as [-> Hc1]. destruct (C2 Hc1) as [-> Hc2]. done.
Qed.

(** C33. However the capture thread and the consumer interleave: the frames
    received and those waiting are frames of the samples pulled, in the order
    they were pulled, none twice; at most two wait; and after [stop] the consumer
    gets the frames that waited, no later one, and never waits. *)
Theorem portal_delivers (evs evs' : list portal_event) :
  let '(st, os) := portal_run Portal_start evs in
  got os ++ po_queue st `sublist_of` converted evs /\ (length (po_queue st) <= CHANNEL)%nat /\
  let '(st', os') := portal_run (stop st) evs' in
  got os' ++ po_queue st' = po_queue st /\ Waiting ∉ os'.
Proof.
  pose proof (run_delivers evs Portal_start) as H. destruct (portal_run Portal_start evs) as [st os].
  destruct H as (new & E & S & L & _). cbn in E. subst new. split; [done|]. split; [apply L; cbn; lia|].
  pose proof (run_delivers evs' (stop st)) as H.
  assert (Hw : forall st0, po_closed st0 = true -> Waiting ∉ (portal_run st0 evs').2).
  { clear. induction evs' as [|ev evs IH]; intros st Hc; cbn; [set_solver|].
    pose proof (step_delivers st ev) as H.
    assert (Hs : Waiting ∉ (portal_step st ev).2).
    { clear H IH. destruct ev; cbn; try apply not_elem_of_nil; unfold next_frame.
      - destruct (po_at st); apply not_elem_of_nil.
      - destruct (po_queue st); cbn; [rewrite Hc; cbn|]; apply not_elem_of_cons; split; try done; apply not_elem_of_nil. }
    destruct (portal_step st ev) as [st1 os1]. destruct H as (? & _ & _ & _ & Hk).
    destruct (Hk Hc) as [_ Hc1]. specialize (IH st1 Hc1). destruct (portal_run st1 evs).
    cbn in *. rewrite elem_of_app. by intros [?|?]. }
  specialize (Hw (stop st) eq_refl). destruct (portal_run (stop st) evs') as [st' os'].
  destruct H as (new & E & _ & _ & C). destruct (C eq_refl) as [-> _]. rewrite app_nil_r in E. by split.
Qed.

(** At the end of the stream every pull answers at once with nothing, and the loop
    goes round: it neither waits nor ends. *)
Lemma end_of_stream_spins n :
  portal_run Portal_start (concat (replicate n [LoopTest; LoopPull None])) = (Portal_start, []).
Proof. induction n as [|n IH]; [done|]. cbn [replicate concat]. rewrite portal_run_app.
  change (portal_run Portal_start [LoopTest; LoopPull None]) with (Portal_start, @nil portal_obs). cbv iota beta.
  by rewrite IH.
Qed.

(** The pipeline delivers BGRx, bytes blue first; the frames say [Xbgr8888], whose
    first byte is red. *)
Lemma format_label s f : sample_to_frame s = inl f -> fr_format f = Xbgr8888.
Proof. unfold sample_to_frame. intros. by repeat case_match; simplify_eq. Qed.

(** A portal that answers without a token leaves the file as it was, and the set-up
    reports success all the same. *)
Lemma setup_without_token env fs p fd :
  pa_connect p = None -> pa_create p = None -> pa_select p = None -> pa_start p = None -> pa_response p = None ->
  pa_streams p <> [] -> pa_remote p = inl fd -> pa_token p = None ->
  setup_restore_token env fs p None true = (fs, inl tt).
Proof.
  intros H1 H2 H3 H4 H5 H6 H7 H8. unfold setup_restore_token, portal_handshake.
  rewrite H1, H2, H3, H4, H5, H7, H8. by destruct (pa_streams p).
Qed.
