(* ===== verification/InputPipeline.v ===== *)
(** Input, from the client's seat to the server's virtual devices
    ([crates/remoteway-input/src/{capture,capture_thread,inject,inject_thread}.rs],
    with the sender of [crates/remoteway-client/src/pipeline.rs] and the
    dispatch of [crates/remoteway-server/src/pipeline.rs]).

    The compositors are the environment: the events the client's compositor
    delivers are given, and the requests to the server's compositor are the
    result.  The connections' own errors are outcomes. *)

From Stdlib Require Import QArith_base.
From S2P Require Import Prelude Wire Proto ChunkSender Multiplexer Queue Transport Floats Casts.
From S2P Require Import ServerPipeline ClientPipeline.
Import Header Input.

(** ** Capturing *)

Inductive InputError :=
  | InWaylandConnect | InWaylandDispatch | NoVirtualPointer | NoVirtualKeyboard | NoSeat
  | Keymap | UnknownInputKind (kind : Z) | InThreadSpawn | InjectFailed | InSessionEnded | InProtocol.

(** A protocol enum value the source matches, or another one of the enum. *)
Inductive press := Released | Pressed_ | OtherState.
Inductive axis := VerticalScroll | HorizontalScroll | OtherAxis.

(** The events of the seat's devices; [None] is a value outside the protocol's
    enum ([WEnum::Unknown]). *)
Inductive wl_event :=
  | PtrMotion (surface_x surface_y : f64)
  | PtrButton (button : Z) (state : option press)
  | PtrAxis (a : option axis) (value : f64)
  | PtrOther
  | KbdKey (key : Z) (state : option press)
  | KbdOther.

Record CaptureState := mkCaptureState { pending_events : list InputEvent; cs_surface_id : Z }.

(** [pending_events.push(e)], where building [e] can panic. *)
Definition push_event (st : CaptureState) (e : option InputEvent) : option CaptureState :=
  e ← e; Some (mkCaptureState (pending_events st ++ [e]) (cs_surface_id st)).

Definition press_val (s : press) : option Z :=
  match s with Released => Some 0 | Pressed_ => Some 1 | OtherState => None end.

Definition axis_val (a : axis) : option Z :=
  match a with VerticalScroll => Some 0 | HorizontalScroll => Some 1 | OtherAxis => None end.

(** [Dispatch<WlPointer>::event] and [Dispatch<WlKeyboard>::event]. *)
Definition on_event (st : CaptureState) (ev : wl_event) : option CaptureState :=
  match ev with
  | PtrMotion x y =>
      push_event st (InputEvent_pointer_motion
        (mkPointerMotion (cs_surface_id st) 0 (f32_to_bits (f32_of_f64 x)) (f32_to_bits (f32_of_f64 y))))
  | PtrButton button (Some s) =>
      match press_val s with
      | Some v => push_event st (InputEvent_pointer_button (mkPointerButton button v))
      | None => Some st
      end
  | PtrAxis (Some a) value =>
      match axis_val a with
      | Some v => push_event st (InputEvent_pointer_axis
                    (mkPointerAxis v 0 0 0 (f32_to_bits (f32_of_f64 value))))
      | None => Some st
      end
  | KbdKey key (Some s) =>
      match press_val s with
      | Some v => push_event st (InputEvent_key (mkKeyEvent key v))
      | None => Some st
      end
  | _ => Some st
  end.

(** A dispatch of queued events, or its error. *)
Definition dispatched : Type := list wl_event + InputError.

(** The read behind the guard of [prepare_read]: it succeeds, and the second
    dispatch goes as given; it would block; or it fails. *)
Inductive read_outcome := ReadEvents (d : dispatched) | ReadWouldBlock | ReadFails.

Definition dispatch_pending (st : CaptureState) (d : dispatched) : run InputError CaptureState :=
  match d with
  | inl evs => or_panic (foldM on_event st evs)
  | inr e => Fail e
  end.

(** [poll_events]; without a guard there is no read. *)
Definition poll_events (st : CaptureState) (queued : dispatched) (guard : option read_outcome)
    : run InputError CaptureState :=
  st ← dispatch_pending (mkCaptureState [] (cs_surface_id st)) queued;
  match guard with
  | Some (ReadEvents d) => dispatch_pending st d
  | Some ReadWouldBlock | None => Ret st
  | Some ReadFails => Fail InjectFailed
  end.

(** One pass of [capture_loop]: whether the stop flag was up, and what the
    compositor brought. *)
Record capture_pass := mkCapturePass {
  cp_stop : bool; cp_queued : dispatched; cp_guard : option read_outcome }.

Inductive capture_end := CapRunning | CapStopped | CapClosed | CapFailed (e : InputError) | CapPanicked.

(** The [for event in events] loop: [false] once the sender refuses. *)
Fixpoint send_events {S} (sender : S -> InputEvent -> S * bool) (s : S) (evs : list InputEvent) : S * bool :=
  match evs with
  | [] => (s, true)
  | e :: evs => let '(s, ok) := sender s e in if ok : bool then send_events sender s evs else (s, false)
  end.

Fixpoint input_capture_loop {S} (sender : S -> InputEvent -> S * bool) (s : S) (st : CaptureState)
    (passes : list capture_pass) : S * capture_end :=
  match passes with
  | [] => (s, CapRunning)
  | p :: passes =>
      if cp_stop p then (s, CapStopped)
      else match poll_events st (cp_queued p) (cp_guard p) with
      | Panic => (s, CapPanicked)
      | Fail e => (s, CapFailed e)
      | Ret st =>
          let '(s, ok) := send_events sender s (pending_events st) in
          if ok : bool then input_capture_loop sender s st passes else (s, CapClosed)
      end
  end.

(** [make_input_sender]: the link is the sender's state. *)
Definition input_sender {Q} `{FifoLaws Q} (l : Link Q) (e : InputEvent) : Link Q * bool :=
  send_input l (input_wire e).

(** ** Injecting *)

(** Requests on the virtual pointer and keyboard. *)
Inductive vreq :=
  | MotionAbsolute (time x y x_extent y_extent : Z)
  | Button (time button : Z) (pressed : bool)
  | AxisScroll (time : Z) (vertical : bool) (value : f64)
  | PtrFrame
  | Key (time key state : Z).

Definition POINTER_EXTENT : Z := 0xFFFF.

(** The globals found, and the devices created from them. *)
Record InjectState := mkInjectState {
  seat : bool; vp_manager : bool; vk_manager : bool; virtual_pointer : bool; virtual_keyboard : bool }.

Inductive global := GlobalSeat | GlobalVirtualPointer | GlobalVirtualKeyboard | GlobalOther.

(** [Dispatch<WlRegistry>::event]. *)
Definition on_global (st : InjectState) (g : global) : InjectState :=
  match g with
  | GlobalSeat => mkInjectState true (vp_manager st) (vk_manager st) (virtual_pointer st) (virtual_keyboard st)
  | GlobalVirtualPointer => mkInjectState (seat st) true (vk_manager st) (virtual_pointer st) (virtual_keyboard st)
  | GlobalVirtualKeyboard => mkInjectState (seat st) (vp_manager st) true (virtual_pointer st) (virtual_keyboard st)
  | GlobalOther => st
  end.

(** [VirtualInput::new], the compositor announcing [globals] and [keymap_ok]
    telling whether the keymap's file could be made. *)
Definition VirtualInput_new (globals : list global) (keymap_ok : bool) : run InputError InjectState :=
  let st := foldl on_global (mkInjectState false false false false false) globals in
  _ ← ensure (seat st) NoSeat;
  _ ← ensure (vp_manager st) NoVirtualPointer;
  _ ← ensure (vk_manager st) NoVirtualKeyboard;
  let st := mkInjectState (seat st) (vp_manager st) (vk_manager st) true (virtual_keyboard st) in
  _ ← ensure keymap_ok Keymap;
  Ret (mkInjectState (seat st) (vp_manager st) (vk_manager st) (virtual_pointer st) true).

Definition inject_pointer_motion (st : InjectState) (time : Z) (motion : PointerMotion) : list vreq :=
  if virtual_pointer st then
    let x := f32_as_u32 (f32_from_bits (pm_x motion)) in
    let y := f32_as_u32 (f32_from_bits (pm_y motion)) in
    [MotionAbsolute time x y POINTER_EXTENT POINTER_EXTENT; PtrFrame]
  else [].

Definition inject_pointer_button (st : InjectState) (time : Z) (btn : PointerButton) : list vreq :=
  if virtual_pointer st
  then [Button time (pb_button btn) (negb (pb_state btn =? 0)); PtrFrame]
  else [].

Definition inject_pointer_axis (st : InjectState) (time : Z) (a : PointerAxis) : list vreq :=
  if virtual_pointer st
  then [AxisScroll time (pa_axis a =? 0) (f64_of_f32 (f32_from_bits (pa_value a))); PtrFrame]
  else [].

Definition inject_key (st : InjectState) (time : Z) (key : KeyEvent) : list vreq :=
  if virtual_keyboard st then [Key time (ke_key key) (ke_state key)] else [].

(** [T::ref_from_bytes(&event.payload[..size_of::<T>()])]. *)
Definition payload_as (A : Type) `{PackedLaws A} (event : InputEvent) : run InputError A :=
  bytes ← or_panic (slice (ie_payload event) 0 (size_of A));
  match ref_from_bytes bytes with Some a => Ret a | None => Fail InjectFailed end.

(** [VirtualInput::dispatch_event]; [time] is [timestamp_ms()]. *)
Definition dispatch_event (st : InjectState) (time : Z) (event : InputEvent)
    : run InputError (list vreq) :=
  match InputEvent_kind event with
  | inr k => Fail (UnknownInputKind k)
  | inl KPointerMotion => m ← payload_as PointerMotion event; Ret (inject_pointer_motion st time m)
  | inl KPointerButton => b ← payload_as PointerButton event; Ret (inject_pointer_button st time b)
  | inl KPointerAxis => a ← payload_as PointerAxis event; Ret (inject_pointer_axis st time a)
  | inl KKey => k ← payload_as KeyEvent event; Ret (inject_key st time k)
  end.

Record InputInjectConfig := mkInputInjectConfig {
  inj_core_id : Z; inj_sched_priority : Z; inj_ring_capacity : Z }.

Definition InputInjectConfig_default : InputInjectConfig := mkInputInjectConfig 0 99 256.

(** [InputInjectThread::buffered_events] is [producer.slots()]. *)
Definition buffered_events {Q} `{FifoLaws Q} (capacity : Z) (ring : Q InputEvent) : Z :=
  capacity - fifo_len ring.

(** One pass of [inject_loop]: whether the stop flag was up, and the time.
    [None] when it ends; the requests made, if an event was dispatched. *)
Definition inject_pass {Q} `{FifoLaws Q} (st : InjectState) (ring : Q InputEvent) (stop : bool) (time : Z)
    : option (Q InputEvent * run InputError (list vreq)) :=
  if stop then None
  else match fifo_pop ring with
  | Some (event, ring) => Some (ring, dispatch_event st time event)
  | None => Some (ring, Ret [])
  end.

(** *** The server's side as a whole *)

(** Messages the receive loop has still to dispatch, the inject ring, what the
    inject thread did with each event, and how many events the full ring
    refused. *)
Record InputServer (Q : Type -> Type) := mkInputServer {
  is_inbox : list IncomingMessage;
  is_ring : Q InputEvent;
  is_injected : list (run InputError (list vreq));
  is_drops : nat
}.
Arguments mkInputServer {Q} _ _ _ _.
Arguments is_inbox {Q} _.
Arguments is_ring {Q} _.
Arguments is_injected {Q} _.
Arguments is_drops {Q} _.

(** A pass of [recv_dispatch_loop] or of [inject_loop]. *)
Inductive server_pass := PassReceive | PassInject (time : Z).

Definition input_server_step {Q} `{FifoLaws Q} (dev : InjectState) (sv : InputServer Q) (p : server_pass)
    : InputServer Q :=
  match p with
  | PassReceive =>
      match is_inbox sv with
      | [] => sv
      | m :: ms =>
          let '(ring, dropped) := dispatch_message (inj_ring_capacity InputInjectConfig_default) (is_ring sv) m in
          mkInputServer ms ring (is_injected sv) (if dropped : bool then S (is_drops sv) else is_drops sv)
      end
  | PassInject time =>
      match inject_pass dev (is_ring sv) false time with
      | Some (ring, r) =>
          if fifo_len (is_ring sv) =? 0 then sv
          else mkInputServer (is_inbox sv) ring (is_injected sv ++ [r]) (is_drops sv)
      | None => sv
      end
  end.

Definition input_server_run {Q} `{FifoLaws Q} (dev : InjectState) (sv : InputServer Q)
    (ps : list server_pass) : InputServer Q := foldl (input_server_step dev) sv ps.

(** ** What a seat event comes to *)

(** Positions in whole pixels, wheel values through [f32]. *)
Definition pixel (x : f64) : Z := f32_as_u32 (f32_of_f64 x).
Definition wheel (v : f64) : f64 := f64_of_f32 (f32_of_f64 v).

(** The requests that replay an event at a given time; [None]: not forwarded. *)
Definition replay (ev : wl_event) : option (Z -> list vreq) :=
  match ev with
  | PtrMotion x y => Some (fun t => [MotionAbsolute t (pixel x) (pixel y) POINTER_EXTENT POINTER_EXTENT; PtrFrame])
  | PtrButton b (Some Released) => Some (fun t => [Button t b false; PtrFrame])
  | PtrButton b (Some Pressed_) => Some (fun t => [Button t b true; PtrFrame])
  | PtrAxis (Some VerticalScroll) v => Some (fun t => [AxisScroll t true (wheel v); PtrFrame])
  | PtrAxis (Some HorizontalScroll) v => Some (fun t => [AxisScroll t false (wheel v); PtrFrame])
  | KbdKey k (Some Released) => Some (fun t => [Key t k 0])
  | KbdKey k (Some Pressed_) => Some (fun t => [Key t k 1])
  | _ => None
  end.

Definition wl_ok (ev : wl_event) : Prop :=
  match ev with PtrButton b _ => fits 32 b | KbdKey k _ => fits 32 k | _ => True end.

Definition ready (dev : InjectState) : Prop := virtual_pointer dev = true /\ virtual_keyboard dev = true.

(** ** What the remote compositor makes of the requests *)

(** What happens at the remote seat; positions are in pixels of its output. *)
Inductive effect :=
  | PointerAt (x y : Q)
  | ButtonEffect (button : Z) (pressed : bool)
  | ScrollEffect (vertical : bool) (value : f64)
  | KeyEffect (key : Z) (pressed : bool).

(** The virtual-pointer protocol: an absolute position is a fraction of the extents
    given, of an output of [w] by [h] pixels. *)
Definition effect_of (w h : Z) (r : vreq) : option effect :=
  match r with
  | MotionAbsolute _ x y xe ye => Some (PointerAt (x * w # Z.to_pos xe) (y * h # Z.to_pos ye))
  | Button _ b p => Some (ButtonEffect b p)
  | AxisScroll _ v value => Some (ScrollEffect v value)
  | Key _ k s => Some (KeyEffect k (negb (s =? 0)))
  | PtrFrame => None
  end.

(** What the requests made do, in order. *)
Definition remote_effects (w h : Z) (rs : list (run InputError (list vreq))) : list effect :=
  rs ≫= fun r => match r with Ret reqs => omap (effect_of w h) reqs | _ => [] end.

(** What the user did: the pointer is over a whole pixel of the surface (its position
    rounded to [f32] and cut), a button or key goes down or up, the wheel turns. *)
Definition user_effect (ev : wl_event) : option effect :=
  match ev with
  | PtrMotion x y => Some (PointerAt (inject_Z (pixel x)) (inject_Z (pixel y)))
  | PtrButton b (Some Released) => Some (ButtonEffect b false)
  | PtrButton b (Some Pressed_) => Some (ButtonEffect b true)
  | PtrAxis (Some VerticalScroll) v => Some (ScrollEffect true (wheel v))
  | PtrAxis (Some HorizontalScroll) v => Some (ScrollEffect false (wheel v))
  | KbdKey k (Some Released) => Some (KeyEffect k false)
  | KbdKey k (Some Pressed_) => Some (KeyEffect k true)
  | _ => None
  end.

(** The same, with the pointer [w / 65535] and [h / 65535] of its way from the corner. *)
Definition shrunk (w h : Z) (e : effect) : effect :=
  match e with
  | PointerAt x y => PointerAt (x * (w # 65535)) (y * (h # 65535))
  | _ => e
  end.

Lemma replay_effect w h ev :
  match replay ev, user_effect ev with
  | Some r, Some e => forall t, omap (effect_of w h) (r t) = [shrunk w h e]
  | None, None => True
  | _, _ => False
  end.
Proof. by destruct ev as [x y|b [[]|]|[[]|] v| |k [[]|]|]. Qed.

Lemma replays_effects w h evs times :
  (length times <= length (omap replay evs))%nat ->
  remote_effects w h (zip_with (fun r t => Ret (r t)) (take (length times) (omap replay evs)) times) =
  shrunk w h <$> take (length times) (omap user_effect evs).
Proof.
  revert times. induction evs as [|ev evs IH]; intros times Hl; [by destruct times|].
  pose proof (replay_effect w h ev) as He. cbn [omap list_omap] in *.
  destruct (replay ev) as [r|], (user_effect ev) as [e|]; try done; [|by apply IH].
  destruct times as [|t times]; [done|]. cbn [length take zip_with fmap list_fmap].
  change (remote_effects w h (?x :: ?l)) with
    (match x with Ret reqs => omap (effect_of w h) reqs | _ => [] end ++ remote_effects w h l).
  cbv beta iota. rewrite He, IH by (cbn in Hl; lia). done.
Qed.

(** [e] carries the request [r]. *)
Definition carries (r : Z -> list vreq) (e : InputEvent) : Prop :=
  wf e /\ forall dev t, ready dev -> dispatch_event dev t e = Ret (r t).

Lemma payload_as_carried {A} `{PackedLaws A} e (a : A) :
  (slice (ie_payload e) 0 (size_of A) ≫= ref_from_bytes) = Some a -> payload_as A e = Ret a.
Proof.
  unfold payload_as. destruct (slice _ _ _) as [bs|]; [|done]. cbn [mbind option_bind or_panic run_bind].
  by intros ->.
Qed.

Lemma carried {A} `{PackedLaws A} k (a : A) r st :
  wf a -> size_of A <= 12 ->
  (forall dev t e, ready dev -> InputEvent_kind e = inl k -> payload_as A e = Ret a ->
     dispatch_event dev t e = Ret (r t)) ->
  exists e, push_event st (from_bytes_padded k (as_bytes a)) =
    Some (mkCaptureState (pending_events st ++ [e]) (cs_surface_id st)) /\ carries r e.
Proof.
  intros Hwf Hs Hd. destruct (from_bytes_padded_carries k a Hwf Hs) as (e & E & We & Ek & Ep).
  exists e. rewrite E. split; [done|]. split; [done|]. intros dev t Hr.
  apply Hd; [done|done|]. by apply payload_as_carried.
Qed.

Lemma on_event_replay st ev : fits 16 (cs_surface_id st) -> wl_ok ev ->
  match replay ev with
  | None => on_event st ev = Some st
  | Some r => exists e, on_event st ev =
      Some (mkCaptureState (pending_events st ++ [e]) (cs_surface_id st)) /\ carries r e
  end.
Proof.
  intros Hsid Hok. destruct ev as [x y|b s|a v| |k s|]; cbn [replay].
  - destruct (cast_bits_ok x) as [Fx Rx], (cast_bits_ok y) as [Fy Ry].
    apply (carried KPointerMotion); [by split_and!|done|].
    intros dev t e [Hp _] Hk Hpay. unfold dispatch_event. rewrite Hk, Hpay. cbn.
    unfold inject_pointer_motion. rewrite Hp. cbn [pm_x pm_y]. by rewrite Rx, Ry.
  - destruct s as [[]|]; [..|done]; try done;
      (apply (carried KPointerButton); [by split|done|];
       intros dev t e [Hp _] Hk Hpay; unfold dispatch_event; rewrite Hk, Hpay; cbn;
       unfold inject_pointer_button; by rewrite Hp).
  - destruct (cast_bits_ok v) as [Fv Rv]. destruct a as [[]|]; [..|done]; try done;
      (apply (carried KPointerAxis); [by split_and!|done|];
       intros dev t e [Hp _] Hk Hpay; unfold dispatch_event; rewrite Hk, Hpay; cbn;
       unfold inject_pointer_axis; rewrite Hp; cbn [pa_value pa_axis]; by rewrite Rv).
  - done.
  - destruct s as [[]|]; [..|done]; try done;
      (apply (carried KKey); [by split|done|];
       intros dev t e [_ Hp] Hk Hpay; unfold dispatch_event; rewrite Hk, Hpay; cbn;
       unfold inject_key; by rewrite Hp).
  - done.
Qed.

Lemma on_events_replay evs st : fits 16 (cs_surface_id st) -> Forall wl_ok evs ->
  exists es, foldM on_event st evs = Some (mkCaptureState (pending_events st ++ es) (cs_surface_id st)) /\
    Forall2 carries (omap replay evs) es.
Proof.
  intros Hs Hok. revert st Hs. induction Hok as [|ev evs Hev _ IH]; intros st Hs.
  { exists []. rewrite app_nil_r. split; [by destruct st|constructor]. }
  pose proof (on_event_replay st ev Hs Hev) as He. cbn [omap list_omap foldM].
  destruct (replay ev) as [r|] eqn:E.
  - destruct He as (e & He & Hc). rewrite He. cbn [mbind option_bind].
    destruct (IH (mkCaptureState (pending_events st ++ [e]) (cs_surface_id st)) Hs) as (es & Hf & Hall).
    exists (e :: es). split; [|by constructor]. rewrite Hf. cbn [pending_events cs_surface_id].
    by rewrite <- app_assoc.
  - rewrite He. cbn [mbind option_bind]. by apply IH.
Qed.

(** *** On the wire *)

Definition input_message (e : InputEvent) : out_message := mkOutMessage InputEvent_ 0 0 16 (as_bytes e).

Lemma input_wire_frames e : exists fs, input_wire e = encode_frames fs /\ cut_as 0 (input_message e) fs.
Proof.
  exists [(FrameHeader_new 0 InputEvent_ LAST_CHUNK 16 0, as_bytes e)]. split.
  - unfold encode_frames. cbn. by rewrite app_nil_r.
  - pose proof (chunks_last 0 InputEvent_ 0 0 16 (as_bytes e)) as C.
    rewrite as_bytes_zlen in C. apply C. done.
Qed.

Lemma input_message_ok e : fits 16 0 /\ out_message_ok (input_message e).
Proof.
  split; [by vm_compute|]. split_and!; [by vm_compute|done|by vm_compute|by vm_compute|by vm_compute|].
  apply as_bytes_ok.
Qed.

Lemma input_wires es : exists fss,
  mjoin (input_wire <$> es) = encode_frames (mjoin fss) /\
  in_pieces ((fun e => (0, input_message e)) <$> es) fss.
Proof.
  induction es as [|e es (fss & IH1 & IH2)]; [exists []; by split; constructor|].
  destruct (input_wire_frames e) as (fs & Ew & Hc). exists (fs :: fss). cbn [fmap list_fmap].
  change (mjoin (?x :: ?l)) with (x ++ mjoin l). rewrite encode_frames_app, <- IH1, Ew.
  split; [done|by constructor].
Qed.

Definition input_received (e : InputEvent) : IncomingMessage := as_received 0 (input_message e).

Section Server.
Context {Q : Type -> Type} `{FifoLaws Q}.

Lemma dispatch_input capacity (ring : Q InputEvent) e : wf e ->
  dispatch_message capacity ring (input_received e) =
    let '(ring, ok) := try_send capacity ring e in (ring, negb ok).
Proof.
  intros Hwf. unfold dispatch_message, input_received, as_received. cbn [im_header im_payload input_message om_payload om_type].
  rewrite FrameHeader_new_msg_type. pose proof (as_bytes_zlen e) as L. rewrite L, Z.leb_refl.
  rewrite <- L, slice_full. cbn [mbind option_bind]. by rewrite ref_from_as_bytes.
Qed.

(** The server part way through the events [es]. *)
Definition server_inv (dev : InjectState) (es : list InputEvent) (sv : InputServer Q) : Prop :=
  exists rest,
    is_inbox sv = input_received <$> rest /\ Forall wf rest /\
    fifo_len (is_ring sv) + zlen rest <= zlen es /\
    (zlen es <= 256 -> is_drops sv = 0%nat) /\
    (is_drops sv = 0%nat -> exists dn times,
       es = dn ++ fifo_items (is_ring sv) ++ rest /\ length times = length dn /\
       is_injected sv = zip_with (fun e t => dispatch_event dev t e) dn times).

Lemma server_inv_step dev es sv p : server_inv dev es sv -> server_inv dev es (input_server_step dev sv p).
Proof.
  intros (rest & Hin & Hwf & Hl & Hsmall & Hd). destruct p as [|t]; cbn [input_server_step].
  - rewrite Hin. destruct Hwf as [|e rest He Hwf]; cbn [fmap list_fmap]; [by exists []|].
    rewrite dispatch_input by done. rewrite zlen_cons in Hl. pose proof (zlen_nonneg rest).
    pose proof (try_send_items (inj_ring_capacity InputInjectConfig_default) (is_ring sv) e) as Hi.
    unfold try_send in *. change (inj_ring_capacity InputInjectConfig_default) with 256 in *.
    exists rest. destruct (Z.ltb_spec (fifo_len (is_ring sv)) 256) as [Hlt|Hge]; cbn [fst snd negb] in *;
      cbn [is_ring is_inbox is_injected is_drops].
    + rewrite fifo_len_push. split_and!; [done|done|lia|done|]. intros E0.
      destruct (Hd E0) as (dn & times & E1 & E2 & E3). exists dn, times.
      split_and!; [|done|done]. rewrite E1, Hi, <- app_assoc. done.
    + split_and!; [done|done|lia|lia|done].
  - unfold inject_pass. destruct (fifo_pop (is_ring sv)) as [[e q]|] eqn:Ep.
    + pose proof (fifo_len_pop _ _ _ Ep) as El. pose proof (fifo_len_nonneg q).
      rewrite (proj2 (Z.eqb_neq _ _)) by lia. exists rest. cbn [is_ring is_inbox is_injected is_drops].
      split_and!; [done|done|lia|done|]. intros E0. destruct (Hd E0) as (dn & times & E1 & E2 & E3).
      exists (dn ++ [e]), (times ++ [t]). split_and!.
      * rewrite E1, (fifo_pop_Some _ _ _ Ep), <- app_assoc. done.
      * rewrite !length_app. cbn. lia.
      * rewrite E3, zip_with_app by done. done.
    + assert (E : fifo_len (is_ring sv) = 0).
      { unfold fifo_len. by rewrite (proj1 (fifo_pop_None _) Ep). }
      rewrite E, Z.eqb_refl. by exists rest.
Qed.

Lemma server_inv_run dev es sv ps : server_inv dev es sv -> server_inv dev es (input_server_run dev sv ps).
Proof.
  revert sv. induction ps as [|p ps IH]; intros sv Hi; [done|]. cbn. by apply IH, server_inv_step.
Qed.

Lemma injected_replays dev rs dn es times :
  ready dev -> Forall2 carries rs (dn ++ es) -> length times = length dn ->
  zip_with (fun e t => dispatch_event dev t e) dn times =
  zip_with (fun r t => Ret (r t)) (take (length times) rs) times.
Proof.
  intros Hr. revert rs times. induction dn as [|e dn IH]; intros rs times HF Hlen.
  { destruct times; [by rewrite zip_with_nil_r|done]. }
  destruct times as [|t times]; [done|]. inversion HF as [|r ? rs' ? [_ Hc] HF']; subst.
  cbn. rewrite Hc by done. f_equal. apply IH; [done|]. by injection Hlen.
Qed.

(** C2. From the user's seat to the effects at the remote one, on an output of any size
    [w] by [h].  Whatever events the client's seat delivers (with codes that are [u32]),
    none makes the client panic; their wire, however the network cuts it, is received as
    one message per forwarded event; and however the server's receive loop and inject
    thread interleave, if the ring refused none (it cannot with 256 events or fewer), the
    requests made are the replays of the events, in order, and of all of them once inbox
    and ring are empty.  What they do is what the user did (buttons, keys and the wheel
    exactly, in order), except that the pointer does not go to the user's pixel: it goes
    only [w / 65535] and [h / 65535] of the way there, since pixels are sent as
    fractions of an extent of 65535 although the comments speak of a mapping onto it
    ([pointer_lands_short]). *)
Theorem input_end_to_end dev evs :
  ready dev -> Forall wl_ok evs ->
  exists st, foldM on_event (mkCaptureState [] 0) evs = Some st /\
    forall reads ps,
      Forall bytes_ok reads -> Forall (fun d => d <> []) reads ->
      mjoin reads = mjoin (input_wire <$> pending_events st) ->
      exists ms, read_loop StreamParser_new None (fmap ReadOk reads ++ [ReadOk []]) [] = Some (ms, Signalled) /\
        let sv := input_server_run dev (mkInputServer ms (fifo_new : Q InputEvent) [] 0) ps in
        let rs := omap replay evs in
        (zlen rs <= 256 -> is_drops sv = 0%nat) /\
        (is_drops sv = 0%nat -> exists times,
           is_injected sv = zip_with (fun r t => Ret (r t)) (take (length times) rs) times /\
           (length times <= length rs)%nat /\
           (is_inbox sv = [] -> fifo_items (is_ring sv) = [] -> length times = length rs) /\
           forall w h, remote_effects w h (is_injected sv) =
             shrunk w h <$> take (length times) (omap user_effect evs)).
Proof.
  intros Hr Hok. destruct (on_events_replay evs (mkCaptureState [] 0)) as (es & Hf & HF); [by vm_compute|done|].
  exists (mkCaptureState es 0). split; [exact Hf|]. intros reads ps Hb Hne Hj. cbn [pending_events] in Hj.
  destruct (input_wires es) as (fss & Ew & Hp).
  exists (input_received <$> es). split.
  { rewrite (read_loop_delivers_gen ((fun e => (0, input_message e)) <$> es) fss reads (ReadOk []));
      [by rewrite <- list_fmap_compose| |done|done|done|by rewrite Hj|by left].
    apply Forall_fmap, Forall_true. intros e. apply input_message_ok. }
  intros sv rs. assert (Hwf : Forall wf es) by (eapply Forall2_Forall_r; [exact HF|]; apply Forall_true; by intros ?? []).
  assert (Hlen : length rs = length es) by (by eapply Forall2_length).
  assert (HI : server_inv dev es sv).
  { apply server_inv_run. exists es. cbn [is_ring is_inbox is_injected is_drops].
    rewrite fifo_len_new, fifo_items_new. split_and!; [done|done|lia|done|].
    intros _. by exists [], []. }
  destruct HI as (rest & Hin & _ & _ & Hs & Hd). split; [intros; apply Hs; unfold zlen in *; lia|].
  intros E0. destruct (Hd E0) as (dn & times & E1 & E2 & E3). exists times.
  assert (Einj : is_injected sv = zip_with (fun r t => Ret (r t)) (take (length times) rs) times).
  { rewrite E3. apply (injected_replays dev rs dn (fifo_items (is_ring sv) ++ rest)); [done| |done].
    by rewrite <- E1. }
  assert (Hle : (length times <= length rs)%nat) by (rewrite Hlen, E1, E2, length_app; lia).
  split_and!; [done|done| |intros w h; rewrite Einj; by apply replays_effects].
  - intros Ei Er. rewrite Ei in Hin. destruct rest; [|done]. rewrite Er, !app_nil_r in E1. by rewrite E2, Hlen, E1.
Qed.
End Server.

(** *** A short gesture *)

Definition demo_dev : InjectState := mkInjectState true true true true true.

Lemma demo_dev_new : VirtualInput_new [GlobalOther; GlobalVirtualKeyboard; GlobalSeat; GlobalVirtualPointer] true = Ret demo_dev.
Proof. reflexivity. Qed.

Definition gesture : list wl_event :=
  [PtrMotion (f64_frac 21 2) (f64_of_int 20); PtrOther; PtrButton 272 (Some Pressed_);
   KbdKey 30 (Some Pressed_); KbdKey 30 None; PtrAxis (Some HorizontalScroll) (f64_of_int 15)].

Example gesture_replayed :
  (fun r => r 7) <$> omap replay gesture =
  [[MotionAbsolute 7 10 20 65535 65535; PtrFrame]; [Button 7 272 true; PtrFrame]; [Key 7 30 1];
   [AxisScroll 7 false (f64_of_int 15); PtrFrame]].
Proof. vm_compute. reflexivity. Qed.

Lemma input_end_to_end_witness :
  exists st, foldM on_event (mkCaptureState [] 0) gesture = Some st /\
    forall reads ps,
      Forall bytes_ok reads -> Forall (fun d => d <> []) reads ->
      mjoin reads = mjoin (input_wire <$> pending_events st) ->
      exists ms, read_loop StreamParser_new None (fmap ReadOk reads ++ [ReadOk []]) [] = Some (ms, Signalled) /\
        let sv := input_server_run demo_dev (mkInputServer ms (fifo_new : list InputEvent) [] 0) ps in
        let rs := omap replay gesture in
        (zlen rs <= 256 -> is_drops sv = 0%nat) /\
        (is_drops sv = 0%nat -> exists times,
           is_injected sv = zip_with (fun r t => Ret (r t)) (take (length times) rs) times /\
           (length times <= length rs)%nat /\
           (is_inbox sv = [] -> fifo_items (is_ring sv) = [] -> length times = length rs) /\
           forall w h, remote_effects w h (is_injected sv) =
             shrunk w h <$> take (length times) (omap user_effect gesture)).
Proof.
  apply (input_end_to_end (Q:=list) demo_dev gesture).
  - split; reflexivity.
  - repeat constructor; by vm_compute.
Defined.

(** Whole pixel positions arrive exactly, for every surface up to 4096 pixels. *)
Example pixels_exact : forallb (fun n => pixel (f64_of_int n) =? n) (zrange 4096) = true.
Proof. vm_compute. reflexivity. Qed.

(** From the corner of a surface of 1920 by 1080 pixels, with an output as large, the
    pointer lands at (56.2, 17.8): the request's coordinates are pixels, its extent is
    65535. *)
Example pointer_lands_short :
  let corner := PtrMotion (f64_of_int 1919) (f64_of_int 1079) in
  user_effect corner = Some (PointerAt (1919 # 1) (1079 # 1)) /\
  (r ← replay corner; head (omap (effect_of 1920 1080) (r 0))) =
    Some (PointerAt (1919 * 1920 # 65535) (1079 * 1080 # 65535)) /\
  (1919 * 1920 # 65535 < 57 /\ 1079 * 1080 # 65535 < 18)%Q.
Proof. by vm_compute. Qed.

(** [buffered_events] of an empty ring is its capacity. *)
Example buffered_events_is_free_space : buffered_events 256 (fifo_new : list InputEvent) = 256.
Proof. reflexivity. Qed.
