(* ===== verification/Keymap.v ===== *)
(** The keymap of the virtual keyboard ([crates/remoteway-input/src/keymap.rs]).

    [DEFAULT_KEYMAP] is the text given to the compositor; [key_codes] and [key_symbols] read
    its declarations back, and [default_keymap_consistent] says they fit together.
    [create_keymap_fd_spec] says what the file handed over holds. *)

From stdpp Require Import strings.
From S2P Require Import Prelude DesktopDetect.

(** ** The text *)

(** The source's string, its double quotes written as apostrophes. *)
Definition quoted (s : text) : text := (fun c => if c =? 39 then 34 else c) <$> s.

Definition DEFAULT_KEYMAP : text := quoted (str "xkb_keymap {
    xkb_keycodes 'evdev' {
        minimum = 8;
        maximum = 255;
        <ESC>  = 9;
        <AE01> = 10; <AE02> = 11; <AE03> = 12; <AE04> = 13;
        <AE05> = 14; <AE06> = 15; <AE07> = 16; <AE08> = 17;
        <AE09> = 18; <AE10> = 19; <AE11> = 20; <AE12> = 21;
        <BKSP> = 22;
        <TAB>  = 23;
        <AD01> = 24; <AD02> = 25; <AD03> = 26; <AD04> = 27;
        <AD05> = 28; <AD06> = 29; <AD07> = 30; <AD08> = 31;
        <AD09> = 32; <AD10> = 33; <AD11> = 34; <AD12> = 35;
        <RTRN> = 36;
        <LCTL> = 37;
        <AC01> = 38; <AC02> = 39; <AC03> = 40; <AC04> = 41;
        <AC05> = 42; <AC06> = 43; <AC07> = 44; <AC08> = 45;
        <AC09> = 46; <AC10> = 47; <AC11> = 48;
        <TLDE> = 49;
        <LFSH> = 50;
        <BKSL> = 51;
        <AB01> = 52; <AB02> = 53; <AB03> = 54; <AB04> = 55;
        <AB05> = 56; <AB06> = 57; <AB07> = 58; <AB08> = 59;
        <AB09> = 60; <AB10> = 61;
        <RTSH> = 62;
        <LALT> = 64;
        <SPCE> = 65;
        <CAPS> = 66;
        <FK01> = 67; <FK02> = 68; <FK03> = 69; <FK04> = 70;
        <FK05> = 71; <FK06> = 72; <FK07> = 73; <FK08> = 74;
        <FK09> = 75; <FK10> = 76;
        <FK11> = 95; <FK12> = 96;
        <RCTL> = 105;
        <RALT> = 108;
        <UP>   = 111; <LEFT> = 113; <DOWN> = 116; <RGHT> = 114;
        <HOME> = 110; <END>  = 115; <PGUP> = 112; <PGDN> = 117;
        <INS>  = 118; <DELE> = 119;
        <LWIN> = 133; <RWIN> = 134;
        <MENU> = 135;
    };
    xkb_types 'default' {
        type 'ONE_LEVEL' { modifiers = None; map[None] = Level1; };
        type 'TWO_LEVEL' {
            modifiers = Shift;
            map[None]  = Level1;
            map[Shift] = Level2;
        };
        type 'ALPHABETIC' {
            modifiers = Shift+Lock;
            map[None]       = Level1;
            map[Shift]      = Level2;
            map[Lock]       = Level2;
            map[Shift+Lock] = Level1;
        };
    };
    xkb_compatibility 'default' {
        interpret Any+AnyOf(all) { action = SetMods(modifiers=modMapMods,clearLocks); };
        interpret Shift_L+AnyOf(all) { action = SetMods(modifiers=Shift,clearLocks); };
        interpret Caps_Lock+AnyOf(all) { action = LockMods(modifiers=Lock); };
        interpret Control_L+AnyOf(all) { action = SetMods(modifiers=Control,clearLocks); };
        interpret Alt_L+AnyOf(all) { action = SetMods(modifiers=Mod1,clearLocks); };
    };
    xkb_symbols 'us' {
        key <ESC>  { [ Escape ] };
        key <AE01> { [ 1, exclam ] };
        key <AE02> { [ 2, at ] };
        key <AE03> { [ 3, numbersign ] };
        key <AE04> { [ 4, dollar ] };
        key <AE05> { [ 5, percent ] };
        key <AE06> { [ 6, asciicircum ] };
        key <AE07> { [ 7, ampersand ] };
        key <AE08> { [ 8, asterisk ] };
        key <AE09> { [ 9, parenleft ] };
        key <AE10> { [ 0, parenright ] };
        key <AE11> { [ minus, underscore ] };
        key <AE12> { [ equal, plus ] };
        key <BKSP> { [ BackSpace ] };
        key <TAB>  { [ Tab, ISO_Left_Tab ] };
        key <AD01> { [ q, Q ] }; key <AD02> { [ w, W ] };
        key <AD03> { [ e, E ] }; key <AD04> { [ r, R ] };
        key <AD05> { [ t, T ] }; key <AD06> { [ y, Y ] };
        key <AD07> { [ u, U ] }; key <AD08> { [ i, I ] };
        key <AD09> { [ o, O ] }; key <AD10> { [ p, P ] };
        key <AD11> { [ bracketleft, braceleft ] };
        key <AD12> { [ bracketright, braceright ] };
        key <RTRN> { [ Return ] };
        key <LCTL> { [ Control_L ] };
        key <AC01> { [ a, A ] }; key <AC02> { [ s, S ] };
        key <AC03> { [ d, D ] }; key <AC04> { [ f, F ] };
        key <AC05> { [ g, G ] }; key <AC06> { [ h, H ] };
        key <AC07> { [ j, J ] }; key <AC08> { [ k, K ] };
        key <AC09> { [ l, L ] }; key <AC10> { [ semicolon, colon ] };
        key <AC11> { [ apostrophe, quotedbl ] };
        key <TLDE> { [ grave, asciitilde ] };
        key <LFSH> { [ Shift_L ] };
        key <BKSL> { [ backslash, bar ] };
        key <AB01> { [ z, Z ] }; key <AB02> { [ x, X ] };
        key <AB03> { [ c, C ] }; key <AB04> { [ v, V ] };
        key <AB05> { [ b, B ] }; key <AB06> { [ n, N ] };
        key <AB07> { [ m, M ] }; key <AB08> { [ comma, less ] };
        key <AB09> { [ period, greater ] }; key <AB10> { [ slash, question ] };
        key <RTSH> { [ Shift_R ] };
        key <LALT> { [ Alt_L ] };
        key <SPCE> { [ space ] };
        key <CAPS> { [ Caps_Lock ] };
        key <FK01> { [ F1 ] }; key <FK02> { [ F2 ] };
        key <FK03> { [ F3 ] }; key <FK04> { [ F4 ] };
        key <FK05> { [ F5 ] }; key <FK06> { [ F6 ] };
        key <FK07> { [ F7 ] }; key <FK08> { [ F8 ] };
        key <FK09> { [ F9 ] }; key <FK10> { [ F10 ] };
        key <FK11> { [ F11 ] }; key <FK12> { [ F12 ] };
        key <RCTL> { [ Control_R ] };
        key <RALT> { [ Alt_R ] };
        key <UP>   { [ Up ] }; key <DOWN> { [ Down ] };
        key <LEFT> { [ Left ] }; key <RGHT> { [ Right ] };
        key <HOME> { [ Home ] }; key <END>  { [ End ] };
        key <PGUP> { [ Prior ] }; key <PGDN> { [ Next ] };
        key <INS>  { [ Insert ] }; key <DELE> { [ Delete ] };
        key <LWIN> { [ Super_L ] }; key <RWIN> { [ Super_R ] };
        key <MENU> { [ Menu ] };
        modifier_map Shift { <LFSH>, <RTSH> };
        modifier_map Lock  { <CAPS> };
        modifier_map Control { <LCTL>, <RCTL> };
        modifier_map Mod1 { <LALT>, <RALT> };
        modifier_map Mod4 { <LWIN>, <RWIN> };
    };
};
").

(** ** The file *)

(** The errors of the four calls, as text; a write fails after some of its bytes. *)
Inductive keymap_answer := KmOk | KmMemfd (e : text) | KmWrite (done : nat) (e : text) | KmNul (e : text).

(** What the memfd holds and the size returned, or the error. *)
Definition create_keymap_fd (keymap : text) (sys : keymap_answer) : (text * Z) + text :=
  match sys with
  | KmMemfd e => inr (str "memfd_create: " ++ e)
  | KmWrite _ e => inr (str "write: " ++ e)
  | KmNul e => inr (str "write NUL: " ++ e)
  | KmOk =>
      let contents := keymap ++ [0] in
      let size := wrap 32 (wrap 32 (zlen keymap) + 1) in
      inl (contents, size)
  end.

(** ** Reading the text *)

Definition is_punct (c : Z) : bool := existsb (Z.eqb c) (str "{}[];=,").

(** Spaces separate, punctuation stands alone; [w] is the word being read, backwards. *)
Fixpoint tokens (w : text) (s : text) : list text :=
  let out := match w with [] => [] | _ => [rev w] end in
  match s with
  | [] => out
  | c :: s =>
      if is_space c then out ++ tokens [] s
      else if is_punct c then out ++ [c] :: tokens [] s
      else tokens (c :: w) s
  end.

Definition is_key (t : text) : bool := starts_with t (str "<") && ends_with t (str ">").

Definition number (t : text) : option Z :=
  if is_digits t then Some (foldl (fun n d => 10 * n + (d - 48)) 0 t) else None.

(** [<NAME> = code;]. *)
Fixpoint key_codes (ts : list text) : list (text * Z) :=
  match ts with
  | [] => []
  | n :: ts' =>
      match ts' with
      | e :: d :: _ =>
          match number d with
          | Some k => if is_key n && bool_decide (e = str "=") then (n, k) :: key_codes ts' else key_codes ts'
          | None => key_codes ts'
          end
      | _ => key_codes ts'
      end
  end.

(** [key <NAME> { ..]. *)
Fixpoint key_symbols (ts : list text) : list text :=
  match ts with
  | [] => []
  | k :: ts' =>
      match ts' with
      | n :: _ => if bool_decide (k = str "key") && is_key n then n :: key_symbols ts' else key_symbols ts'
      | [] => []
      end
  end.

(** The keys between the braces of a [modifier_map]; [inside] is whether one is open. *)
Fixpoint modifier_keys (inside : bool) (ts : list text) : list text :=
  match ts with
  | [] => []
  | t :: ts =>
      if bool_decide (t = str "modifier_map") then modifier_keys true ts
      else if bool_decide (t = str "}") then modifier_keys false ts
      else if inside && is_key t then t :: modifier_keys inside ts
      else modifier_keys inside ts
  end.

(** Braces and brackets close in order; [open] is what is to be closed. *)
Fixpoint balanced (open : list text) (ts : list text) : bool :=
  match ts with
  | [] => bool_decide (open = [])
  | t :: ts =>
      if bool_decide (t = str "{") then balanced (str "}" :: open) ts
      else if bool_decide (t = str "[") then balanced (str "]" :: open) ts
      else if bool_decide (t = str "}") || bool_decide (t = str "]") then
        match open with o :: open => bool_decide (t = o) && balanced open ts | [] => false end
      else balanced open ts
  end.

Definition default_tokens : list text := tokens [] DEFAULT_KEYMAP.

Definition subset (a b : list text) : bool := forallb (fun x => bool_decide (x ∈ b)) a.

(** The default keymap's declarations fit together: its braces match;
    every key has one code, between the declared minimum and maximum, and no two
    keys share one; exactly the keys with a code have symbols, each once; every
    key of a modifier has a code. *)
Theorem default_keymap_consistent :
  let codes := key_codes default_tokens in
  let names := fst <$> codes in
  let symbols := key_symbols default_tokens in
  balanced [] default_tokens = true /\
  NoDup names /\ NoDup (snd <$> codes) /\ Forall (fun k => 8 <= k.2 <= 255) codes /\
  NoDup symbols /\ (forall n, n ∈ names <-> n ∈ symbols) /\
  (forall n, n ∈ modifier_keys false default_tokens -> n ∈ names).
Proof.
  assert (Hs : forall a b, subset a b = true -> forall n, n ∈ a -> n ∈ b).
  { intros a b H n Hn. unfold subset in H. rewrite forallb_forall in H.
    apply list_elem_of_In in Hn. by apply H, bool_decide_eq_true in Hn. }
  cbv zeta. split_and!.
  - vm_compute. reflexivity.
  - apply (bool_decide_unpack _). vm_compute. exact I.
  - apply (bool_decide_unpack _). vm_compute. exact I.
  - apply (bool_decide_unpack _). vm_compute. exact I.
  - apply (bool_decide_unpack _). vm_compute. exact I.
  - intros n. split; apply Hs; vm_compute; reflexivity.
  - apply Hs. vm_compute. reflexivity.
Qed.

(** The key a client sends by its evdev code is eight below its code here: A, the
    space bar and the up arrow. *)
Example some_codes :
  filter (fun k => k.1 ∈ [str "<AC01>"; str "<SPCE>"; str "<UP>"]) (key_codes default_tokens) =
    [(str "<AC01>", 30 + 8); (str "<SPCE>", 57 + 8); (str "<UP>", 103 + 8)].
Proof. vm_compute. reflexivity. Qed.

(** On success the file holds the text and one NUL, the size returned is the length
    of the file, and the text is what a reader up to the first NUL gets. *)
Fixpoint c_string (s : text) : text :=
  match s with [] => [] | c :: s => if c =? 0 then [] else c :: c_string s end.

Lemma create_keymap_fd_spec keymap contents size :
  zlen keymap < 2 ^ 32 - 1 -> Forall (fun c => c <> 0) keymap ->
  create_keymap_fd keymap KmOk = inl (contents, size) ->
  size = zlen contents /\ c_string contents = keymap.
Proof.
  intros Hl Hz [= <- <-]. pose proof (zlen_nonneg keymap). split.
  - rewrite (wrap_small 32 (zlen keymap)), wrap_small, zlen_app by (unfold fits; lia). done.
  - clear Hl. induction Hz as [|c s Hc Hs IH]; [done|]. cbn.
    rewrite (proj2 (Z.eqb_neq c 0)) by done. f_equal. apply IH. apply zlen_nonneg.
Qed.

Lemma default_keymap_handed_over :
  match create_keymap_fd DEFAULT_KEYMAP KmOk with
  | inl (contents, size) => size = zlen contents /\ c_string contents = DEFAULT_KEYMAP
  | inr _ => False
  end.
Proof.
  apply (create_keymap_fd_spec DEFAULT_KEYMAP); [by vm_compute| |reflexivity].
  apply (bool_decide_unpack _). vm_compute. exact I.
Qed.
