(* ===== verification/InputThreads.v ===== *)
(** The two input threads whole
    ([crates/remoteway-input/src/{capture,capture_thread,inject,inject_thread}.rs],
    with the receive loop of [crates/remoteway-server/src/pipeline.rs]).

    [InputPipeline] has what an event becomes on its way.  Here are the
    connections it comes and goes by: what each constructor binds and makes in
    its roundtrips, the devices a seat gives and takes back, and the threads
    that poll and inject, as [Worker]s with their handles. *)

From stdpp Require Import strings.
From S2P Require Import Prelude Wire Proto ChunkSender Multiplexer Queue Transport Floats Casts.
From S2P Require Import DesktopDetect Keymap Worker ServerPipeline ClientPipeline InputPipeline.
Import Header Input.

(** ** Requests and events of the connections *)

Inductive in_req :=
  | GetRegistry
  | Bind (name : Z) (interface : text) (version id : Z)
  | GetPointer (seat id : Z)
  | GetKeyboard (seat id : Z)
  | CreateVirtualPointer (manager seat id : Z)
  | CreateVirtualKeyboard (manager seat id : Z)
  | SetKeymap (keyboard format : Z) (contents : text) (size : Z).

Inductive registry_event := Global (name : Z) (interface : text) (version : Z) | RegistryOther.

Definition WL_SEAT : text := str "wl_seat".
Definition VIRTUAL_POINTER_MANAGER : text := str "zwlr_virtual_pointer_manager_v1".
Definition VIRTUAL_KEYBOARD_MANAGER : text := str "zwp_virtual_keyboard_manager_v1".
Arguments WL_SEAT : simpl never.
Arguments VIRTUAL_POINTER_MANAGER : simpl never.
Arguments VIRTUAL_KEYBOARD_MANAGER : simpl never.

(** ** The capture connection *)

(** What the capture queue dispatches; [None] is a capability set outside the
    enum. *)
Inductive capture_event :=
  | OnRegistry (e : registry_event)
  | OnCapabilities (seat : Z) (caps : option Z)
  | OnSeatOther
  | OnDevice (e : wl_event).

(** [CaptureState] with its objects (their ids), next to the part [InputPipeline]
    follows; [ic_next] is the next id, [ic_log] what was requested. *)
Record InputCapture := mkInputCapture {
  ic_seat : option Z;
  ic_pointer : option Z;
  ic_keyboard : option Z;
  ic_core : CaptureState;
  ic_capabilities_received : bool;
  ic_next : Z;
  ic_log : list in_req
}.

Definition has_pointer (caps : Z) : bool := Z.testbit caps 0.
Definition has_keyboard (caps : Z) : bool := Z.testbit caps 1.
Arguments has_pointer : simpl never.
Arguments has_keyboard : simpl never.

Definition request (c : InputCapture) (r : Z -> in_req) : InputCapture * Z :=
  (mkInputCapture (ic_seat c) (ic_pointer c) (ic_keyboard c) (ic_core c) (ic_capabilities_received c)
     (ic_next c + 1) (ic_log c ++ [r (ic_next c)]), ic_next c).

(** [Dispatch<WlRegistry>] of the capture. *)
Definition capture_global (c : InputCapture) (e : registry_event) : InputCapture :=
  match e with
  | Global name interface version =>
      if decide (interface = WL_SEAT) then
        let '(c, id) := request c (Bind name interface (Z.min version 8)) in
        mkInputCapture (Some id) (ic_pointer c) (ic_keyboard c) (ic_core c)
          (ic_capabilities_received c) (ic_next c) (ic_log c)
      else c
  | RegistryOther => c
  end.

(** [Dispatch<WlSeat>] of the capture; [seat] sent the event. *)
Definition capture_capabilities (c : InputCapture) (seat : Z) (caps : option Z) : InputCapture :=
  match caps with
  | Some caps =>
      let c := match ic_pointer c with
        | None => if has_pointer caps then
            let '(c, id) := request c (GetPointer seat) in
            mkInputCapture (ic_seat c) (Some id) (ic_keyboard c) (ic_core c)
              (ic_capabilities_received c) (ic_next c) (ic_log c)
          else c
        | Some _ => c
        end in
      let c := match ic_keyboard c with
        | None => if has_keyboard caps then
            let '(c, id) := request c (GetKeyboard seat) in
            mkInputCapture (ic_seat c) (ic_pointer c) (Some id) (ic_core c)
              (ic_capabilities_received c) (ic_next c) (ic_log c)
          else c
        | Some _ => c
        end in
      mkInputCapture (ic_seat c) (ic_pointer c) (ic_keyboard c) (ic_core c) true (ic_next c) (ic_log c)
  | None => c
  end.

Definition with_core (c : InputCapture) (core : CaptureState) : InputCapture :=
  mkInputCapture (ic_seat c) (ic_pointer c) (ic_keyboard c) core (ic_capabilities_received c) (ic_next c) (ic_log c).

(** An event of the queue; building an input event could panic. *)
Definition on_capture (c : InputCapture) (e : capture_event) : option InputCapture :=
  match e with
  | OnRegistry e => Some (capture_global c e)
  | OnCapabilities seat caps => Some (capture_capabilities c seat caps)
  | OnSeatOther => Some c
  | OnDevice e => core ← on_event (ic_core c) e; Some (with_core c core)
  end.

(** A dispatch or a roundtrip: what it brings, or its error. *)
Definition brought : Type := list capture_event + InputError.

Definition dispatch_all (c : InputCapture) (d : brought) : run InputError InputCapture :=
  match d with inl evs => or_panic (foldM on_capture c evs) | inr e => Fail e end.

(** What the world answers to [InputCapture::new]. *)
Record capture_world := mkCaptureWorld { cw_connects : bool; cw_first : brought; cw_second : brought }.

Definition capture_start : InputCapture :=
  mkInputCapture None None None (mkCaptureState [] 0) false 1 [GetRegistry].

Definition InputCapture_new (w : capture_world) : run InputError InputCapture :=
  _ ← ensure (cw_connects w) InWaylandConnect;
  c ← dispatch_all capture_start (cw_first w);
  _ ← ensure (bool_decide (is_Some (ic_seat c))) NoSeat;
  dispatch_all c (cw_second w).

Definition clear_pending (c : InputCapture) : InputCapture := with_core c (mkCaptureState [] (cs_surface_id (ic_core c))).

(** What a poll's read behind the guard brings. *)
Inductive read_brings := BringsEvents (d : brought) | BringsNothing | BringsError.

(** [InputCapture::poll_events]. *)
Definition capture_poll (c : InputCapture) (queued : brought) (guard : option read_brings) : run InputError InputCapture :=
  c ← dispatch_all (clear_pending c) queued;
  match guard with
  | Some (BringsEvents d) => dispatch_all c d
  | Some BringsNothing | None => Ret c
  | Some BringsError => Fail InjectFailed
  end.

(** [InputCapture::poll_events_blocking]. *)
Definition poll_events_blocking (c : InputCapture) (d : brought) : run InputError InputCapture :=
  dispatch_all (clear_pending c) d.

(** *** Its thread *)

Record InputCaptureConfig := mkInputCaptureConfig { icc_core_id : Z; icc_sched_priority : Z }.
Definition InputCaptureConfig_default : InputCaptureConfig := mkInputCaptureConfig 0 99.

Definition exit_of {E A} (r : run E A) : A + thread_exit E :=
  match r with Ret a => inl a | Fail e => inr (ExitErr e) | Panic => inr ExitPanic end.

(** The body of [capture_loop]; the sender's state is shared with the transport. *)
Definition capture_body {S} (sender : S -> InputEvent -> S * bool)
    : worker_body InputError capture_world InputCapture (brought * option read_brings) S :=
  mkBody (fun w => exit_of (InputCapture_new w))
    (fun s c '(queued, guard) =>
       match exit_of (capture_poll c queued guard) with
       | inr r => (s, inr r)
       | inl c =>
           let '(s, ok) := send_events sender s (pending_events (ic_core c)) in
           (s, if ok : bool then inl c else inr ExitOk)
       end).

(** [InputCaptureThread::spawn]: the thread's name and priority are the
    configuration's. *)
Definition capture_spawn {S} (config : InputCaptureConfig) (s : S) (builder : bool)
    : Worker InputError InputCapture S + ThreadConfigError :=
  spawn_thread (ThreadConfig_new (icc_core_id config) (icc_sched_priority config) (str "input-capture"))
    (if builder then Some (Worker_new s) else None).

(** ** The injecting connection *)

(** [InjectState]'s objects. *)
Record VirtualInput := mkVirtualInput {
  vi_seat : option Z;
  vi_vp_manager : option Z;
  vi_vk_manager : option Z;
  vi_virtual_pointer : option Z;
  vi_virtual_keyboard : option Z;
  vi_next : Z;
  vi_log : list in_req
}.

Definition ask (v : VirtualInput) (r : Z -> in_req) : VirtualInput * Z :=
  (mkVirtualInput (vi_seat v) (vi_vp_manager v) (vi_vk_manager v) (vi_virtual_pointer v) (vi_virtual_keyboard v)
     (vi_next v + 1) (vi_log v ++ [r (vi_next v)]), vi_next v).

(** [Dispatch<WlRegistry>] of the injector. *)
Definition inject_global (v : VirtualInput) (e : registry_event) : VirtualInput :=
  match e with
  | Global name interface version =>
      if decide (interface = WL_SEAT) then
        let '(v, id) := ask v (Bind name interface (Z.min version 1)) in
        mkVirtualInput (Some id) (vi_vp_manager v) (vi_vk_manager v) (vi_virtual_pointer v) (vi_virtual_keyboard v) (vi_next v) (vi_log v)
      else if decide (interface = VIRTUAL_POINTER_MANAGER) then
        let '(v, id) := ask v (Bind name interface (Z.min version 2)) in
        mkVirtualInput (vi_seat v) (Some id) (vi_vk_manager v) (vi_virtual_pointer v) (vi_virtual_keyboard v) (vi_next v) (vi_log v)
      else if decide (interface = VIRTUAL_KEYBOARD_MANAGER) then
        let '(v, id) := ask v (Bind name interface (Z.min version 1)) in
        mkVirtualInput (vi_seat v) (vi_vp_manager v) (Some id) (vi_virtual_pointer v) (vi_virtual_keyboard v) (vi_next v) (vi_log v)
      else v
  | RegistryOther => v
  end.

Record inject_world := mkInjectWorld {
  iw_connects : bool;
  iw_first : list registry_event + InputError;
  iw_keymap : keymap_answer;
  iw_second : list registry_event + InputError
}.

Definition globals (v : VirtualInput) (d : list registry_event + InputError) : run InputError VirtualInput :=
  match d with inl evs => Ret (foldl inject_global v evs) | inr e => Fail e end.

Definition found {A} (o : option A) (e : InputError) : run InputError A :=
  match o with Some a => Ret a | None => Fail e end.

Definition inject_start : VirtualInput := mkVirtualInput None None None None None 1 [GetRegistry].

(** [VirtualInput::new]. *)
Definition virtual_input_new (w : inject_world) : run InputError VirtualInput :=
  _ ← ensure (iw_connects w) InWaylandConnect;
  v ← globals inject_start (iw_first w);
  seat ← found (vi_seat v) NoSeat;
  vp_mgr ← found (vi_vp_manager v) NoVirtualPointer;
  vk_mgr ← found (vi_vk_manager v) NoVirtualKeyboard;
  let '(v, vp) := ask v (CreateVirtualPointer vp_mgr seat) in
  let v := mkVirtualInput (vi_seat v) (vi_vp_manager v) (vi_vk_manager v) (Some vp) (vi_virtual_keyboard v) (vi_next v) (vi_log v) in
  let '(v, vk) := ask v (CreateVirtualKeyboard vk_mgr seat) in
  match create_keymap_fd DEFAULT_KEYMAP (iw_keymap w) with
  | inr _ => Fail Keymap
  | inl (contents, size) =>
      let v := mkVirtualInput (vi_seat v) (vi_vp_manager v) (vi_vk_manager v) (vi_virtual_pointer v) (Some vk)
                 (vi_next v) (vi_log v ++ [SetKeymap vk 1 contents size]) in
      globals v (iw_second w)
  end.

(** The part [InputPipeline.dispatch_event] looks at. *)
Definition devices (v : VirtualInput) : InjectState :=
  let there (o : option Z) := bool_decide (is_Some o) in
  mkInjectState (there (vi_seat v)) (there (vi_vp_manager v)) (there (vi_vk_manager v))
    (there (vi_virtual_pointer v)) (there (vi_virtual_keyboard v)).

(** [timestamp_ms]: milliseconds since the epoch, cut to 32 bits; 0 before it. *)
Definition timestamp_ms (since_epoch_ns : option Z) : Z := wrap 32 (default 0 since_epoch_ns / 10 ^ 6).

(** *** Its thread *)

(** The ring, what became of each event dispatched, and whether each flush went
    through; a failed one is logged and nothing else. *)
Record Inject (Q : Type -> Type) := mkInject {
  ij_ring : Q InputEvent; ij_done : list (InputEvent * run InputError (list vreq)); ij_flushes : list bool }.
Arguments mkInject {Q} _ _ _.
Arguments ij_ring {Q} _.
Arguments ij_done {Q} _.
Arguments ij_flushes {Q} _.

Section Inject.
Context {Q : Type -> Type} `{FifoLaws Q}.

(** A pass of [inject_loop]: the clock and the flush's answer come with it. *)
Definition inject_work (sh : Inject Q) (v : VirtualInput) (i : option Z * bool)
    : Inject Q * (VirtualInput + thread_exit InputError) :=
  match fifo_pop (ij_ring sh) with
  | Some (event, ring) =>
      (mkInject ring (ij_done sh ++ [(event, dispatch_event (devices v) (timestamp_ms i.1) event)])
         (ij_flushes sh ++ [i.2]),
       match dispatch_event (devices v) (timestamp_ms i.1) event with Panic => inr ExitPanic | _ => inl v end)
  | None => (sh, inl v)
  end.

Definition inject_body : worker_body InputError inject_world VirtualInput (option Z * bool) (Inject Q) :=
  mkBody (fun w => exit_of (virtual_input_new w)) inject_work.

(** [InputInjectThread::spawn]. *)
Definition inject_spawn (config : InputInjectConfig) (builder : bool)
    : Worker InputError VirtualInput (Inject Q) + ThreadConfigError :=
  spawn_thread (ThreadConfig_new (inj_core_id config) (inj_sched_priority config) (str "input-inject"))
    (if builder then Some (Worker_new (mkInject fifo_new [] [])) else None).

(** [InputInjectThread::send] on a ring of that capacity: also once nobody pops. *)
Definition inject_send (capacity : Z) (sh : Inject Q) (event : InputEvent) : Inject Q * bool :=
  let '(q, ok) := try_send capacity (ij_ring sh) event in (mkInject q (ij_done sh) (ij_flushes sh), ok).

Definition inject_buffered_events (capacity : Z) (sh : Inject Q) : Z := buffered_events capacity (ij_ring sh).

(** *** The server's receive loop *)

(** A turn of [recv_dispatch_loop]: whether the shutdown flag was up, and what
    [recv] gave. *)
Inductive recv_turn := ShutDown | TurnMessage (m : IncomingMessage) | TurnClosed.

(** The turns until one ends the loop: the ring's side, the flag raised or not,
    and whether the loop is over, which stops the inject thread. *)
Fixpoint recv_dispatch_loop (capacity : Z) (sh : Inject Q) (turns : list recv_turn) : Inject Q * bool * bool :=
  match turns with
  | [] => (sh, false, false)
  | ShutDown :: _ => (sh, true, true)
  | TurnClosed :: _ => (sh, true, true)
  | TurnMessage m :: turns =>
      recv_dispatch_loop capacity (mkInject (dispatch_message capacity (ij_ring sh) m).1 (ij_done sh) (ij_flushes sh)) turns
  end.
End Inject.

(** ** What the connections make *)

(** The events of the devices, which is all that [InputPipeline] looks at. *)
Definition device_events (evs : list capture_event) : list wl_event :=
  omap (fun e => match e with OnDevice e => Some e | _ => None end) evs.

Definition devices_of (d : brought) : dispatched :=
  match d with inl evs => inl (device_events evs) | inr e => inr e end.

Definition read_of_guard (g : read_brings) : read_outcome :=
  match g with BringsEvents d => ReadEvents (devices_of d) | BringsNothing => ReadWouldBlock | BringsError => ReadFails end.

Lemma global_core c e : ic_core (capture_global c e) = ic_core c.
Proof. destruct e; cbn; [|done]. by destruct (decide _). Qed.

Lemma capabilities_core c seat caps : ic_core (capture_capabilities c seat caps) = ic_core c.
Proof.
  unfold capture_capabilities. destruct caps as [caps|]; [|done].
  destruct (ic_pointer c) eqn:Ep; [|destruct (has_pointer caps)]; cbn;
    (destruct (ic_keyboard c) eqn:Ek; [|destruct (has_keyboard caps)]); try done.
Qed.

Lemma on_capture_core evs c :
  ic_core <$> foldM on_capture c evs = foldM on_event (ic_core c) (device_events evs).
Proof.
  revert c. induction evs as [|e evs IH]; intros c; [done|]. destruct e as [e|seat caps| |e]; cbn.
  - by rewrite IH, global_core.
  - by rewrite IH, capabilities_core.
  - apply IH.
  - destruct (on_event (ic_core c) e) as [core|]; cbn; [|done]. apply IH.
Qed.

Definition run_map {E A B} (f : A -> B) (r : run E A) : run E B :=
  match r with Ret a => Ret (f a) | Fail e => Fail e | Panic => Panic end.

Lemma dispatch_all_core c d : run_map ic_core (dispatch_all c d) = dispatch_pending (ic_core c) (devices_of d).
Proof.
  destruct d as [evs|e]; [|done]. cbn. rewrite <- on_capture_core.
  by destruct (foldM on_capture c evs).
Qed.

(** A poll, whatever else its events say, is the poll of [InputPipeline]. *)
Theorem capture_poll_core c queued guard :
  run_map ic_core (capture_poll c queued guard) =
  poll_events (ic_core c) (devices_of queued) (read_of_guard <$> guard).
Proof.
  unfold capture_poll, poll_events.
  pose proof (dispatch_all_core (clear_pending c) queued) as D. unfold clear_pending, with_core in D. cbn in D.
  rewrite <- D. fold (with_core c (mkCaptureState [] (cs_surface_id (ic_core c)))). fold (clear_pending c).
  destruct (dispatch_all (clear_pending c) queued) as [c'|e|]; cbn; [|done..].
  destruct guard as [[d| |]|]; cbn; [apply dispatch_all_core|done..].
Qed.

(** *** The devices of a seat *)

Definition pointers (log : list in_req) : list Z := log ≫= fun r => match r with GetPointer seat _ => [seat] | _ => [] end.
Definition keyboards (log : list in_req) : list Z := log ≫= fun r => match r with GetKeyboard seat _ => [seat] | _ => [] end.
Definition binds (log : list in_req) : list (Z * Z) := log ≫= fun r => match r with Bind name _ version _ => [(name, version)] | _ => [] end.

(** The seats of the registry, and the first one to announce a device. *)
Definition seats_of (e : capture_event) : list (Z * Z) :=
  match e with
  | OnRegistry (Global name interface version) => if decide (interface = WL_SEAT) then [(name, Z.min version 8)] else []
  | _ => []
  end.

Definition announces (has : Z -> bool) (e : capture_event) : list Z :=
  match e with OnCapabilities seat (Some caps) => if has caps then [seat] else [] | _ => [] end.

Definition first_with (has : Z -> bool) (evs : list capture_event) : list Z := take 1 (evs ≫= announces has).

(** What is asked for a device of which [o] says whether it is there. *)
Definition wanted (o : option Z) (l : list Z) : list Z := match o with Some _ => [] | None => l end.

Lemma on_capture_step c e c' : on_capture c e = Some c' ->
  pointers (ic_log c') = pointers (ic_log c) ++ wanted (ic_pointer c) (announces has_pointer e) /\
  keyboards (ic_log c') = keyboards (ic_log c) ++ wanted (ic_keyboard c) (announces has_keyboard e) /\
  binds (ic_log c') = binds (ic_log c) ++ seats_of e /\
  (is_Some (ic_pointer c') <-> is_Some (ic_pointer c) \/ announces has_pointer e <> []) /\
  (is_Some (ic_keyboard c') <-> is_Some (ic_keyboard c) \/ announces has_keyboard e <> []) /\
  (is_Some (ic_seat c') <-> is_Some (ic_seat c) \/ seats_of e <> []).
Proof.
  assert (W : forall o, wanted o [] = []) by (by intros []).
  destruct e as [[name interface version|]|seat [caps|]| |e];
    cbn [on_capture capture_global announces seats_of].
  - destruct (decide (interface = WL_SEAT)); intros [= <-]; cbn; rewrite ?W;
      unfold pointers, keyboards, binds; rewrite ?bind_app; cbn; rewrite ?app_nil_r;
      split_and!; try done; split; eauto; naive_solver.
  - intros [= <-]. rewrite !W, !app_nil_r. split_and!; try done; naive_solver.
  - unfold capture_capabilities.
    destruct (ic_pointer c) eqn:Ep, (ic_keyboard c) eqn:Ek, (has_pointer caps), (has_keyboard caps); cbn; rewrite ?Ep, ?Ek;
      intros [= <-]; cbn; rewrite ?Ep, ?Ek; unfold pointers, keyboards, binds; rewrite ?bind_app; cbn;
      rewrite ?app_nil_r; split_and!; try done; split; eauto; naive_solver.
  - intros [= <-]. rewrite !W, !app_nil_r. split_and!; try done; naive_solver.
  - intros [= <-]. rewrite !W, !app_nil_r. split_and!; try done; naive_solver.
  - destruct (on_event (ic_core c) e); [|done]. intros [= <-]. cbn. rewrite !W, !app_nil_r. split_and!; try done; naive_solver.
Qed.

Lemma wanted_first o has e evs o' :
  (is_Some o' <-> is_Some o \/ announces has e <> []) ->
  wanted o (announces has e) ++ wanted o' (first_with has evs) = wanted o (first_with has (e :: evs)).
Proof.
  intros Ho. unfold first_with. change ((e :: evs) ≫= announces has) with (announces has e ++ (evs ≫= announces has)).
  assert (L : announces has e = [] \/ exists s, announces has e = [s]).
  { destruct e as [| ? [caps|]| |]; cbn; auto. destruct (has caps); eauto. }
  destruct o as [p|]; cbn [wanted].
  - destruct o'; [done|]. destruct (proj2 Ho (or_introl (mk_is_Some (Some p) p eq_refl))) as [? [=]].
  - destruct L as [Es|[s Es]]; rewrite Es in *; cbn [app].
    + destruct o' as [p|]; [|done]. destruct (proj1 Ho (mk_is_Some (Some p) p eq_refl)) as [[? [=]]|Hn]; by destruct Hn.
    + destruct o' as [p|]; [done|].
      assert (Hn : [s] <> []) by done. by destruct (proj2 Ho (or_intror Hn)).
Qed.

Lemma first_with_cons has e evs : first_with has (e :: evs) <> [] <-> announces has e <> [] \/ first_with has evs <> [].
Proof.
  unfold first_with. change ((e :: evs) ≫= announces has) with (announces has e ++ (evs ≫= announces has)).
  destruct (announces has e); cbn; [by naive_solver|]. split; [by left|done].
Qed.

Lemma on_capture_run evs c c' : foldM on_capture c evs = Some c' ->
  pointers (ic_log c') = pointers (ic_log c) ++ wanted (ic_pointer c) (first_with has_pointer evs) /\
  keyboards (ic_log c') = keyboards (ic_log c) ++ wanted (ic_keyboard c) (first_with has_keyboard evs) /\
  binds (ic_log c') = binds (ic_log c) ++ (evs ≫= seats_of) /\
  (is_Some (ic_pointer c') <-> is_Some (ic_pointer c) \/ first_with has_pointer evs <> []) /\
  (is_Some (ic_keyboard c') <-> is_Some (ic_keyboard c) \/ first_with has_keyboard evs <> []) /\
  (is_Some (ic_seat c') <-> is_Some (ic_seat c) \/ evs ≫= seats_of <> []).
Proof.
  revert c. induction evs as [|e evs IH]; intros c Hf; cbn [foldM] in Hf.
  - injection Hf as <-. assert (W : forall o, wanted o [] = []) by (by intros []).
    cbn. rewrite !W, !app_nil_r.
    assert (N : forall (P : Prop) (A : Type), P <-> P \/ ([] : list A) <> []).
    { intros P A. split; [by left|]. by intros [?|[]]. }
    split_and!; (done || apply N).
  - destruct (on_capture c e) as [c1|] eqn:E1; [|done]. cbn in Hf.
    destruct (on_capture_step _ _ _ E1) as (P1 & K1 & B1 & SP & SK & SS).
    destruct (IH c1 Hf) as (P2 & K2 & B2 & SP2 & SK2 & SS2).
    change ((e :: evs) ≫= seats_of) with (seats_of e ++ (evs ≫= seats_of)).
    rewrite P2, P1, K2, K1, B2, B1, <- !app_assoc.
    rewrite (wanted_first _ _ _ _ _ SP), (wanted_first _ _ _ _ _ SK). rewrite !first_with_cons.
    split_and!; [done..| | |].
    + rewrite SP2, SP. symmetry. apply (assoc or).
    + rewrite SK2, SK. symmetry. apply (assoc or).
    + rewrite SS2, SS. destruct (seats_of e); cbn [app].
      * split; [intros [[?|Hn]|?]; [by left|by destruct Hn|by right]|intros [?|?]; [by left; left|by right]].
      * split; intros _; [by right|by left; right].
Qed.

(** What a connection that opened has asked for, in its whole life: it bound
    every seat announced, and asked for one pointer and one keyboard at most, of
    the first seat to announce one. *)
Definition asked (evs : list capture_event) (c : InputCapture) : Prop :=
  binds (ic_log c) = evs ≫= seats_of /\
  pointers (ic_log c) = first_with has_pointer evs /\
  keyboards (ic_log c) = first_with has_keyboard evs /\
  (is_Some (ic_pointer c) <-> first_with has_pointer evs <> []) /\
  (is_Some (ic_keyboard c) <-> first_with has_keyboard evs <> []).

Lemma capture_asked evs c : foldM on_capture capture_start evs = Some c -> asked evs c.
Proof.
  intros (P & K & B & SP & SK & _)%on_capture_run. unfold asked. rewrite P, K, B, SP, SK. cbn.
  split_and!; try done; split; try (by intros [[? [=]]|]); by right.
Qed.

(** [InputCapture::new] opens exactly on a connection whose roundtrips go
    through, the first of them bringing a seat. *)
Theorem input_capture_opens w c :
  InputCapture_new w = Ret c ->
  exists first second, cw_connects w = true /\ cw_first w = inl first /\ cw_second w = inl second /\
    first ≫= seats_of <> [] /\ asked (first ++ second) c.
Proof.
  unfold InputCapture_new. destruct (cw_connects w); [|done]. cbn.
  destruct (cw_first w) as [first|]; [|done]. cbn.
  destruct (foldM on_capture capture_start first) as [c1|] eqn:E1; [|done]. cbn.
  destruct (bool_decide_reflect (is_Some (ic_seat c1))) as [Hs|]; [|done]. cbn.
  destruct (cw_second w) as [second|]; [|done]. cbn.
  destruct (foldM on_capture c1 second) as [c2|] eqn:E2; [|done]. intros [= <-].
  exists first, second. split_and!; [done..| |].
  - apply on_capture_run in E1 as (_ & _ & _ & _ & _ & SS). apply SS in Hs as [[? [=]]|]; done.
  - apply capture_asked. rewrite foldM_app, E1. done.
Qed.

Lemma first_with_app has a b : first_with has (a ++ b) = match first_with has a with [] => first_with has b | l => l end.
Proof.
  unfold first_with. rewrite bind_app. by destruct (a ≫= announces has) as [|s l].
Qed.

(** Later polls are more events of the same life. *)
Lemma poll_asked evs c c' queued guard :
  asked evs c -> capture_poll c queued guard = Ret c' -> exists more, asked (evs ++ more) c'.
Proof.
  intros (B & P & K & SP & SK) Hp.
  assert (Hr : exists more, foldM on_capture (clear_pending c) more = Some c').
  { unfold capture_poll in Hp. destruct queued as [q|]; [|done]. cbn [dispatch_all] in Hp.
    destruct (foldM on_capture (clear_pending c) q) as [c1|] eqn:Eq; [|done]. cbn in Hp.
    destruct guard as [[[d|]| |]|]; cbn in Hp; try done; try (injection Hp as <-; by exists q).
    destruct (foldM on_capture c1 d) as [c2|] eqn:Ed; [|done]. injection Hp as <-.
    exists (q ++ d). rewrite foldM_app, Eq. done. }
  destruct Hr as [more Hr]. exists more.
  destruct (on_capture_run _ _ _ Hr) as (P' & K' & B' & SP' & SK' & _).
  unfold clear_pending, with_core in *. cbn [ic_log ic_pointer ic_keyboard] in *. unfold asked. rewrite P', K', B', B, P, K, SP', SK', SP, SK, !first_with_app, bind_app.
  assert (G : forall o has, (is_Some o <-> first_with has evs <> []) ->
    first_with has evs ++ wanted o (first_with has more) =
    match first_with has evs with [] => first_with has more | l => l end).
  { intros o has Ho. destruct o as [x|]; cbn [wanted].
    - rewrite app_nil_r. destruct (first_with has evs); [|done]. by destruct (proj1 Ho (mk_is_Some _ x eq_refl)).
    - destruct (first_with has evs); [done|]. destruct (proj2 Ho ltac:(done)) as [? [=]]. }
  rewrite (G _ _ SP), (G _ _ SK). split_and!; try done.
  - destruct (first_with has_pointer evs); naive_solver.
  - destruct (first_with has_keyboard evs); naive_solver.
Qed.

(** ** Injecting *)

Definition to_global (e : registry_event) : global :=
  match e with
  | Global _ interface _ =>
      if decide (interface = WL_SEAT) then GlobalSeat
      else if decide (interface = VIRTUAL_POINTER_MANAGER) then GlobalVirtualPointer
      else if decide (interface = VIRTUAL_KEYBOARD_MANAGER) then GlobalVirtualKeyboard
      else GlobalOther
  | RegistryOther => GlobalOther
  end.

Lemma inject_global_devices v e : devices (inject_global v e) = on_global (devices v) (to_global e).
Proof.
  destruct e as [name interface version|]; [|done]. cbn [inject_global to_global].
  destruct (decide (interface = WL_SEAT)); [done|].
  destruct (decide (interface = VIRTUAL_POINTER_MANAGER)); [done|].
  by destruct (decide (interface = VIRTUAL_KEYBOARD_MANAGER)).
Qed.

Lemma inject_globals_devices evs v :
  devices (foldl inject_global v evs) = foldl on_global (devices v) (to_global <$> evs).
Proof.
  revert v. induction evs as [|e evs IH]; intros v; [done|]. cbn. by rewrite IH, inject_global_devices.
Qed.

(** A set of devices that is complete stays so. *)
Definition all_devices : InjectState := mkInjectState true true true true true.

Lemma globals_complete gs : foldl on_global all_devices gs = all_devices.
Proof. induction gs as [|[] gs IH]; [done|exact IH..]. Qed.

Lemma found_devices {A} (o : option A) e {B} (k : A -> run InputError B) (k' : run InputError B) :
  (forall a, o = Some a -> k a = k') -> (a ← found o e; k a) = (_ ← ensure (bool_decide (is_Some o)) e; k').
Proof. intros Hk. destruct o as [a|]; [|done]. cbn. by apply Hk. Qed.

Definition keymap_made (a : keymap_answer) : bool := match a with KmOk => true | _ => false end.

(** On a connection whose roundtrips go through, the constructor is the one of
    [InputPipeline]: it succeeds exactly when the three globals are there and
    the keymap's file can be made, and then both devices are. *)
Theorem virtual_input_devices w first second :
  iw_connects w = true -> iw_first w = inl first -> iw_second w = inl second ->
  run_map devices (virtual_input_new w) = VirtualInput_new (to_global <$> first) (keymap_made (iw_keymap w)).
Proof.
  intros Hc H1 H2. unfold virtual_input_new, VirtualInput_new. generalize DEFAULT_KEYMAP as km. intros km. rewrite Hc, H1, H2. cbn [ensure run_bind mbind globals].
  set (v := foldl inject_global inject_start first).
  assert (Ev : foldl on_global (mkInjectState false false false false false) (to_global <$> first) = devices v).
  { subst v. by rewrite inject_globals_devices. }
  assert (Hp : virtual_pointer (devices v) = false /\ virtual_keyboard (devices v) = false).
  { rewrite <- Ev. generalize (to_global <$> first). clear. intros gs.
    assert (G : forall st, virtual_pointer st = false -> virtual_keyboard st = false ->
      virtual_pointer (foldl on_global st gs) = false /\ virtual_keyboard (foldl on_global st gs) = false).
    { induction gs as [|[] gs IH]; intros st ? ?; [done|by apply IH..]. }
    by apply G. }
  rewrite Ev. clear Ev. clearbody v. destruct v as [s vpm vkm vp vk n log]. unfold devices in *. cbn in *.
  destruct s as [s|]; [|done]. destruct vpm as [vpm|]; [|done]. destruct vkm as [vkm|]; [|done]. cbn.
  destruct (iw_keymap w); try done. cbn [create_keymap_fd keymap_made ensure mbind run_bind globals run_map].
  f_equal. etransitivity; [apply inject_globals_devices|]. apply globals_complete.
Qed.

Lemma payload_as_total A `{PackedLaws A} e : zlen (ie_payload e) = 12 -> size_of A <= 12 ->
  payload_as A e <> (Panic : run InputError A).
Proof.
  intros Hl Hs. unfold payload_as. rewrite slice_ok by (unfold size_of in *; lia). cbn.
  by destruct (ref_from_bytes _).
Qed.

Lemma bind_total {E A B} (m : run E A) (f : A -> B) : m <> Panic -> (a ← m; Ret (f a)) <> (Panic : run E B).
Proof. intros Hm. by destruct m. Qed.

(** An event of the wire is injected or refused; it never brings the thread down. *)
Lemma dispatch_event_total st t e : wf e -> dispatch_event st t e <> Panic.
Proof.
  intros (_ & _ & _ & _ & Hl). unfold dispatch_event.
  destruct (InputEvent_kind e) as [[]|]; [..|done]; by apply bind_total, payload_as_total.
Qed.

(** *** The thread in its owner's hands *)

(** A step of the thread, or a call of its owner. *)
Inductive inject_act :=
  | ThreadSetUp (w : inject_world) | ThreadCheck | ThreadWork (clock : option Z) (flushed : bool)
  | OwnerStop | OwnerStopped | OwnerDrop | OwnerSend (e : InputEvent).

Section InjectThread.
Context {Q : Type -> Type} `{FifoLaws Q} (capacity : Z).

Definition worker_act_of (a : inject_act) : worker_act (W := inject_world) (In := option Z * bool) (Sh := Inject Q) :=
  match a with
  | ThreadSetUp w => SetUp w
  | ThreadCheck => CheckFlag
  | ThreadWork clock flushed => Work (clock, flushed)
  | OwnerStop => StopCalled
  | OwnerStopped => StopReturned
  | OwnerDrop => DropCalled
  | OwnerSend e => Owner (fun sh => (inject_send capacity sh e).1)
  end.

(** The events [send] accepted. *)
Definition accepts (t : Worker InputError VirtualInput (Inject Q)) (a : inject_act) : list InputEvent :=
  match a with OwnerSend e => if (inject_send capacity (wk_shared t) e).2 then [e] else [] | _ => [] end.

Fixpoint inject_run (t : Worker InputError VirtualInput (Inject Q)) (acts : list inject_act) (sent : list InputEvent)
    : option (Worker InputError VirtualInput (Inject Q) * list InputEvent) :=
  match acts with
  | [] => Some (t, sent)
  | a :: acts => t' ← worker_step inject_body t (worker_act_of a); inject_run t' acts (sent ++ accepts t a)
  end.

(** What a pass did with an event: the requests that replay it, made on two
    devices at some time, or the error that was logged. *)
Definition replayed (p : InputEvent * run InputError (list vreq)) : Prop :=
  exists clock, p.2 = dispatch_event all_devices (timestamp_ms clock) p.1.

Record inject_inv (t : Worker InputError VirtualInput (Inject Q)) (sent : list InputEvent) : Prop := {
  ii_order : sent = (ij_done (wk_shared t)).*1 ++ fifo_items (ij_ring (wk_shared t));
  ii_room : fifo_len (ij_ring (wk_shared t)) <= capacity;
  ii_done : Forall replayed (ij_done (wk_shared t));
  ii_flushes : length (ij_flushes (wk_shared t)) = length (ij_done (wk_shared t));
  ii_wf : Forall wf sent;
  ii_phase : match wk_phase t with
    | Starting => ij_done (wk_shared t) = []
    | Checking v | Working v => devices v = all_devices
    | Ended ExitOk => wk_stop t = true
    | Ended (ExitErr _) => ij_done (wk_shared t) = []
    | Ended ExitPanic => False
    end
}.

Lemma virtual_input_cases w :
  match virtual_input_new w with
  | Ret _ => iw_connects w = true /\ (exists first, iw_first w = inl first) /\ (exists second, iw_second w = inl second)
  | Fail _ => True
  | Panic => False
  end.
Proof.
  unfold virtual_input_new. generalize DEFAULT_KEYMAP as km. intros km.
  destruct (iw_connects w); [|done]. destruct (iw_first w) as [first|]; [|done]. cbn [ensure mbind run_bind globals].
  destruct (foldl _ _ _) as [[s|] [vpm|] [vkm|] vp vk n log]; try done. cbn.
  destruct (create_keymap_fd km (iw_keymap w)) as [[contents size]|]; [|done].
  destruct (iw_second w); [|done]. split_and!; by eexists.
Qed.

Lemma virtual_input_ready w v : virtual_input_new w = Ret v -> devices v = all_devices.
Proof.
  intros E. pose proof (virtual_input_cases w) as C. rewrite E in C.
  destruct C as (Hc & [first H1] & [second H2]).
  pose proof (virtual_input_devices w first second Hc H1 H2) as D. rewrite E in D. cbn [run_map] in D. revert D.
  unfold VirtualInput_new. destruct (foldl on_global _ _) as [[] [] [] vp vk]; try done.
  cbn [seat vp_manager vk_manager ensure mbind run_bind]. destruct (keymap_made (iw_keymap w)); [|done].
  intros D. exact (f_equal (fun r => match r with Ret d => d | _ => all_devices end) D).
Qed.

Lemma inject_inv_new : 0 <= capacity -> inject_inv (Worker_new (mkInject fifo_new [] [])) [].
Proof.
  intros Hc. split; cbn; rewrite ?fifo_items_new, ?fifo_len_new; try done; by constructor.
Qed.

(** The owner's calls that leave ring and thread alone. *)
Lemma inject_inv_keep t t' sent :
  inject_inv t sent -> wk_shared t' = wk_shared t -> wk_phase t' = wk_phase t -> (wk_stop t = true -> wk_stop t' = true) ->
  inject_inv t' sent.
Proof.
  intros [] Es Ep Hs. split; rewrite ?Es; [done..|]. rewrite Ep. destruct (wk_phase t) as [| | |[]]; auto.
Qed.

Lemma inject_inv_send t sent e : inject_inv t sent -> wf e ->
  inject_inv (mkWorker (inject_send capacity (wk_shared t) e).1 (wk_phase t) (wk_stop t) (wk_handle t))
    (sent ++ accepts t (OwnerSend e)).
Proof.
  intros [Ho Hr Hd Hf Hw Hp] He. unfold accepts, inject_send in *.
  pose proof (try_send_len capacity (ij_ring (wk_shared t)) e Hr) as Hl.
  pose proof (try_send_items capacity (ij_ring (wk_shared t)) e) as Hi.
  destruct (try_send capacity (ij_ring (wk_shared t)) e) as [q ok]. cbn [fst snd] in *.
  split; cbn; [|done|done|done| |by destruct (wk_phase t) as [| | |[]]].
  - rewrite Hi, Ho. destruct ok; by rewrite ?app_nil_r, <- ?app_assoc.
  - destruct ok; [|by rewrite app_nil_r]. apply Forall_app. split; [done|by constructor].
Qed.

Lemma inject_inv_step t sent a t' :
  inject_inv t sent -> (forall e, a = OwnerSend e -> wf e) ->
  worker_step inject_body t (worker_act_of a) = Some t' -> inject_inv t' (sent ++ accepts t a).
Proof.
  intros Hi Ha. destruct a as [w| |clock fl| | | |e]; cbn [worker_act_of worker_step accepts]; rewrite ?app_nil_r.
  - destruct (wk_phase t) eqn:Ep; try done. intros [= <-]. destruct Hi as [Ho Hr Hd Hf Hw Hp]. rewrite Ep in Hp.
    split; try done. cbn [set_phase wk_phase wk_shared wb_setup inject_body].
    pose proof (virtual_input_cases w) as C. pose proof (virtual_input_ready w) as Rd.
    destruct (virtual_input_new w) as [v|e|]; cbn [exit_of]; [by apply Rd|done|done].
  - destruct (wk_phase t) eqn:Ep; try done. intros [= <-]. destruct Hi as [Ho Hr Hd Hf Hw Hp]. rewrite Ep in Hp.
    split; try done. cbn. by destruct (wk_stop t) eqn:Es.
  - destruct (wk_phase t) as [| |v|] eqn:Ep; try done. destruct Hi as [Ho Hr Hd Hf Hw Hp]. rewrite Ep in Hp.
    cbn [wb_work inject_body]. unfold inject_work.
    pose proof (fifo_pop_spec (ij_ring (wk_shared t))) as Hpop.
    destruct (fifo_pop (ij_ring (wk_shared t))) as [[e q]|] eqn:Eq.
    + cbn [fst]. assert (He : wf e).
      { rewrite Ho, Hpop in Hw. apply Forall_app in Hw as [_ Hw]. by inversion Hw. }
      pose proof (dispatch_event_total (devices v) (timestamp_ms clock) e He) as Hnp.
      intros E. assert (E' : t' = mkWorker (mkInject q (ij_done (wk_shared t) ++ [(e, dispatch_event (devices v) (timestamp_ms clock) e)])
          (ij_flushes (wk_shared t) ++ [fl])) (Checking v) (wk_stop t) (wk_handle t)).
      { cbn [snd] in E. by destruct (dispatch_event (devices v) (timestamp_ms clock) e); injection E as <-. }
      subst t'. pose proof (fifo_len_pop _ _ _ Eq). split; cbn.
      * by rewrite Ho, Hpop, fmap_app, <- app_assoc.
      * lia.
      * apply Forall_app. split; [done|]. constructor; [|constructor]. exists clock. by rewrite Hp.
      * rewrite !length_app. cbn. lia.
      * done.
      * done.
    + intros [= <-]. split; done.
  - destruct (wk_handle t); try done; intros [= <-]; by apply (inject_inv_keep t).
  - destruct (wk_phase t) eqn:Ep; try done. destruct (wk_handle t); try done. intros [= <-]. by apply (inject_inv_keep t).
  - destruct (wk_handle t); try done; intros [= <-]; by apply (inject_inv_keep t).
  - pose proof (inject_inv_send t sent e Hi (Ha e eq_refl)) as Hs.
    destruct (wk_handle t); try done; intros [= <-]; by apply (inject_inv_keep _ _ _ Hs).
Qed.

Definition sends_ok (acts : list inject_act) : Prop := Forall (fun a => forall e, a = OwnerSend e -> wf e) acts.

Lemma inject_inv_run acts t sent t' sent' :
  inject_inv t sent -> sends_ok acts -> inject_run t acts sent = Some (t', sent') -> inject_inv t' sent'.
Proof.
  revert t sent. induction acts as [|a acts IH]; intros t sent Hi Hok Hr; cbn [inject_run] in Hr.
  - by injection Hr as <- <-.
  - destruct (worker_step _ t _) as [t1|] eqn:Es; [|done]. inversion Hok; subst.
    eapply IH; [by eapply inject_inv_step|done|exact Hr].
Qed.

(** Once the thread has ended no step of it is left; with the flag up it is at
    most two steps away, one event at most. *)
Lemma inject_run_worker acts t sent t' sent' :
  inject_run t acts sent = Some (t', sent') ->
  worker_run inject_body t (worker_act_of <$> acts) = Some t'.
Proof.
  revert t sent. unfold worker_run. induction acts as [|a acts IH]; intros t sent Hr; cbn [inject_run] in Hr.
  - by injection Hr as <- <-.
  - destruct (worker_step _ t _) as [t1|] eqn:Es; [|done]. cbn [fmap list_fmap foldM]. rewrite Es. by eapply IH.
Qed.

Definition takes_event (a : inject_act) : bool := match a with ThreadWork _ _ => true | _ => false end.

(** C29. The inject thread in its owner's hands, whatever the order
    of their steps, whether its connection opens or not, and whatever fails later, for
    events whose fields fit their widths: the events [send] accepted are those the thread took, in order, and those still in the
    ring, which never holds more than its capacity; each one taken was replayed
    on both virtual devices, or refused with an error that was only logged, and
    then flushed; nothing was taken on a connection that had not opened, and no
    event brings the thread down; it returns without an error only once it was
    told to stop; and once it was told, it takes one event more at most. *)
Theorem inject_thread_serves acts t sent :
  0 <= capacity -> sends_ok acts ->
  inject_run (Worker_new (mkInject fifo_new [] [])) acts [] = Some (t, sent) ->
  sent = (ij_done (wk_shared t)).*1 ++ fifo_items (ij_ring (wk_shared t)) /\
  fifo_len (ij_ring (wk_shared t)) <= capacity /\
  Forall replayed (ij_done (wk_shared t)) /\
  length (ij_flushes (wk_shared t)) = length (ij_done (wk_shared t)) /\
  match wk_phase t with
  | Starting => ij_done (wk_shared t) = []
  | Checking _ | Working _ => True
  | Ended ExitOk => wk_stop t = true
  | Ended (ExitErr _) => ij_done (wk_shared t) = []
  | Ended ExitPanic => False
  end /\
  (wk_stop t = true -> forall later t' sent', inject_run t later sent = Some (t', sent') ->
     (length (filter takes_event later) <= 1)%nat).
Proof.
  intros Hc Hok Hr. pose proof (inject_inv_run _ _ _ _ _ (inject_inv_new Hc) Hok Hr) as [Ho Hl Hd Hf _ Hp].
  split_and!; [done..| |].
  - destruct (wk_phase t) as [| | |[]]; done.
  - intros Hs later t' sent' Hrun%inject_run_worker.
    destruct (worker_stops inject_body _ _ _ Hs Hrun) as (_ & _ & H1 & H2 & _).
    assert (E : length (filter takes_event later) = count (@is_work _ _ _) (worker_act_of <$> later)).
    { clear. unfold count. induction later as [|a later IH]; [done|]. cbn [fmap list_fmap].
      rewrite !filter_cons. assert (E : is_work (worker_act_of a) = takes_event a) by (by destruct a). rewrite E.
      destruct (decide (takes_event a)); cbn [length]; by rewrite IH. }
    lia.
Qed.
End InjectThread.
Arguments inject_run {Q H} capacity t acts sent.

(** *** Runs *)

Definition demo_globals : list registry_event :=
  [RegistryOther; Global 1 (str "wl_compositor") 6; Global 2 WL_SEAT 9;
   Global 3 VIRTUAL_POINTER_MANAGER 2; Global 4 VIRTUAL_KEYBOARD_MANAGER 1].

Definition demo_inject_world : inject_world := mkInjectWorld true (inl demo_globals) KmOk (inl []).

Definition demo_key : InputEvent := mkInputEvent 3 [0; 0; 0] [30; 0; 0; 0; 1; 0; 0; 0; 0; 0; 0; 0].

Definition demo_inject_acts : list inject_act :=
  [OwnerSend demo_key; ThreadSetUp demo_inject_world; ThreadCheck; ThreadWork (Some (7 * 10 ^ 6)) true; OwnerSend demo_key;
   ThreadCheck; OwnerStop; ThreadWork None false; ThreadCheck; OwnerStopped].

Lemma demo_sends_ok : sends_ok demo_inject_acts.
Proof.
  assert (He : wf demo_key).
  { split_and!; [by vm_compute|repeat constructor; by vm_compute|repeat constructor; by vm_compute|done|done]. }
  repeat (constructor; [by intros e [= <-]|]). constructor.
Qed.

Lemma inject_thread_serves_witness :
  exists t sent,
    inject_run 256 (Worker_new (mkInject (fifo_new : list InputEvent) [] [])) demo_inject_acts [] = Some (t, sent) /\
    sent = (ij_done (wk_shared t)).*1 ++ fifo_items (ij_ring (wk_shared t)) /\
    fifo_len (ij_ring (wk_shared t)) <= 256 /\
    Forall replayed (ij_done (wk_shared t)) /\
    length (ij_flushes (wk_shared t)) = length (ij_done (wk_shared t)) /\
    match wk_phase t with
    | Starting => ij_done (wk_shared t) = []
    | Checking _ | Working _ => True
    | Ended ExitOk => wk_stop t = true
    | Ended (ExitErr _) => ij_done (wk_shared t) = []
    | Ended ExitPanic => False
    end /\
    (wk_stop t = true -> forall later t' sent', inject_run 256 t later sent = Some (t', sent') ->
       (length (filter takes_event later) <= 1)%nat).
Proof.
  destruct (inject_run 256 (Worker_new (mkInject (fifo_new : list InputEvent) [] [])) demo_inject_acts []) as [[t sent]|] eqn:E.
  - exists t, sent. split; [done|].
    apply (inject_thread_serves 256 demo_inject_acts t sent); [done|exact demo_sends_ok|exact E].
  - exfalso. apply (f_equal (fun o => bool_decide (is_Some o))) in E. vm_compute in E. discriminate E.
Defined.

(** Both events were injected, at their times. *)
Example demo_injected :
  (fun p => ((ij_done (wk_shared p.1)).*2, wk_phase p.1)) <$>
    inject_run 256 (Worker_new (mkInject (fifo_new : list InputEvent) [] [])) demo_inject_acts [] =
  Some ([Ret [Key 7 30 1]; Ret [Key 0 30 1]], Ended ExitOk).
Proof. vm_compute. reflexivity. Qed.

(** A compositor without the virtual pointer ends the thread, and nobody
    notices: [send] goes on accepting events until the ring is full. *)
Example dead_thread_accepts :
  exists t sent,
    inject_run 256 (Worker_new (mkInject (fifo_new : list InputEvent) [] []))
      [ThreadSetUp (mkInjectWorld true (inl [Global 2 WL_SEAT 9]) KmOk (inl [])); OwnerSend demo_key] [] = Some (t, sent) /\
    wk_phase t = Ended (ExitErr NoVirtualPointer) /\ sent = [demo_key].
Proof. eexists _, _. split; [vm_compute; reflexivity|]. by vm_compute. Qed.

(** A pointer that comes back after it was taken away is not asked for again,
    and the object the capture keeps is a dead one. *)
Example replugged_pointer_lost :
  exists c,
    foldM on_capture capture_start
      [OnRegistry (Global 2 WL_SEAT 9); OnCapabilities 1 (Some 3); OnCapabilities 1 (Some 2); OnCapabilities 1 (Some 3)] = Some c /\
    pointers (ic_log c) = [1] /\ ic_pointer c = Some 2.
Proof. eexists. split; [vm_compute; reflexivity|]. by vm_compute. Qed.

(** With two seats the last one announced is kept as the seat and the devices
    are those of the first to speak. *)
Example two_seats_mixed :
  exists c,
    foldM on_capture capture_start
      [OnRegistry (Global 2 WL_SEAT 9); OnRegistry (Global 3 WL_SEAT 9); OnCapabilities 1 (Some 3); OnCapabilities 2 (Some 3)] = Some c /\
    ic_seat c = Some 2 /\ pointers (ic_log c) = [1] /\ keyboards (ic_log c) = [1].
Proof. eexists. split; [vm_compute; reflexivity|]. by vm_compute. Qed.
