(* ===== verification/EiInput.v ===== *)
(** The libei backend for input injection
    ([crates/remoteway-input/src/libei.rs]).

    The EI connection is a library: the events it brings, its serials and whether a
    flush succeeds are arguments; the requests made are returned in order.
    [Router] is what injecting ought to do, an event going to a device that can
    take it; [ei_injects] says the backend does so with one device, and
    [second_device_hides_first] that it does not with two. *)

From stdpp Require Import list.
From S2P Require Import Prelude Wire Proto Floats Casts InputPipeline.
Import Header Input.

(** ** Devices *)

(** What a device can take; a capability comes with its interface. *)
Record EiDevice := mkEiDevice {
  dv_id : Z; dv_pointer : bool; dv_absolute : bool; dv_button : bool; dv_scroll : bool; dv_keyboard : bool }.

Inductive ei_event :=
  | DeviceAdded (d : EiDevice) | DeviceRemoved (id : Z) | EiOther | EiEventError.

Inductive ei_req :=
  | StartEmulating (device serial sequence : Z)
  | EiMotionAbsolute (device x y : Z) | EiMotionRelative (device x y : Z)
  | EiButton (device button : Z) (pressed : bool)
  | EiScroll (device dx dy : Z)
  | EiKey (device key : Z) (pressed : bool)
  | EiFrame (device serial timestamp : Z)
  | EiFlush.

Record EiState := mkEi { ei_device : option EiDevice }.

(** The requests, the state, and the error if any. *)
Definition ei_result : Type := (list ei_req * EiState * option InputError)%type.

(** [EiInput::new]: the context and the handshake. *)
Definition EiInput_new (context_ok handshake_ok : bool) : EiState + InputError :=
  if context_ok && handshake_ok then inl (mkEi None) else inr InProtocol.

(** [dispatch]; [serial] and [flushes] answer each added device. *)
Fixpoint ei_dispatch (st : EiState) (evs : list (ei_event * Z * bool)) : ei_result :=
  match evs with
  | [] => ([], st, None)
  | (ev, serial, flushes) :: evs =>
      match ev with
      | EiEventError => ([], st, Some InProtocol)
      | DeviceAdded dev =>
          if dv_pointer dev || dv_absolute dev || dv_keyboard dev then
            let reqs := [StartEmulating (dv_id dev) serial 0; EiFlush] in
            if flushes : bool then
              let '(reqs', st, r) := ei_dispatch (mkEi (Some dev)) evs in (reqs ++ reqs', st, r)
            else (reqs, st, Some InProtocol)
          else ei_dispatch st evs
      | DeviceRemoved _ => ei_dispatch (mkEi None) evs
      | EiOther => ei_dispatch st evs
      end
  end.

(** [T::ref_from_bytes], an [InputError::Protocol] when it fails. *)
Definition ei_payload (A : Type) `{PackedLaws A} (event : InputEvent) : run InputError A :=
  bytes ← or_panic (slice (ie_payload event) 0 (size_of A));
  match ref_from_bytes bytes with Some a => Ret a | None => Fail InProtocol end.

(** What [inject] sends to a device; floats are their bits. *)
Definition inject_reqs (dev : EiDevice) (serial : Z) (event : InputEvent) : run InputError (list ei_req) :=
  let id := dv_id dev in
  let frame := EiFrame id serial 0 in
  match InputEvent_kind event with
  | inr k => Fail (UnknownInputKind k)
  | inl KPointerMotion =>
      m ← ei_payload PointerMotion event;
      Ret ((if dv_absolute dev then [EiMotionAbsolute id (pm_x m) (pm_y m)]
            else if dv_pointer dev then [EiMotionRelative id (pm_x m) (pm_y m)] else []) ++ [frame])
  | inl KPointerButton =>
      b ← ei_payload PointerButton event;
      Ret (if dv_button dev then [EiButton id (pb_button b) (negb (pb_state b =? 0)); frame] else [])
  | inl KPointerAxis =>
      a ← ei_payload PointerAxis event;
      let '(dx, dy) := if pa_axis a =? 0 then (0, pa_value a) else (pa_value a, 0) in
      Ret (if dv_scroll dev then [EiScroll id dx dy; frame] else [])
  | inl KKey =>
      k ← ei_payload KeyEvent event;
      Ret (if dv_keyboard dev then [EiKey id (ke_key k) (negb (ke_state k =? 0)); frame] else [])
  end.

(** [inject]. *)
Definition ei_inject (st : EiState) (event : InputEvent) (serial : Z) (flushes : bool)
    : run InputError (list ei_req * option InputError) :=
  match ei_device st with
  | None => Fail InProtocol
  | Some dev =>
      reqs ← inject_reqs dev serial event;
      Ret (reqs ++ [EiFlush], if flushes then None else Some InProtocol)
  end.

(** [inject_batch]: up to the first error. *)
Fixpoint inject_batch (st : EiState) (events : list (InputEvent * Z * bool))
    : run InputError (list ei_req * option InputError) :=
  match events with
  | [] => Ret ([], None)
  | (e, serial, flushes) :: events =>
      '(reqs, r) ← ei_inject st e serial flushes;
      match r with
      | Some err => Ret (reqs, Some err)
      | None => '(reqs', r) ← inject_batch st events; Ret (reqs ++ reqs', r)
      end
  end.

(** ** What it ought to do *)

(** The input of an event. *)
Inductive wanted := WMotion (x y : Z) | WButton (button : Z) (pressed : bool) | WScroll (vertical : bool) (value : Z) | WKey (key : Z) (pressed : bool).

Definition takes (d : EiDevice) (w : wanted) : bool :=
  match w with
  | WMotion _ _ => dv_absolute d
  | WButton _ _ => dv_button d
  | WScroll _ _ => dv_scroll d
  | WKey _ _ => dv_keyboard d
  end.

Definition as_request (d : EiDevice) (w : wanted) : ei_req :=
  match w with
  | WMotion x y => EiMotionAbsolute (dv_id d) x y
  | WButton b p => EiButton (dv_id d) b p
  | WScroll vertical v => if vertical then EiScroll (dv_id d) 0 v else EiScroll (dv_id d) v 0
  | WKey k p => EiKey (dv_id d) k p
  end.

(** The devices there are, by the events so far. *)
Definition present (ds : list EiDevice) (ev : ei_event) : list EiDevice :=
  match ev with
  | DeviceAdded d => ds ++ [d]
  | DeviceRemoved id => filter (fun d => dv_id d <> id) ds
  | _ => ds
  end.

Definition present_after (evs : list ei_event) : list EiDevice := foldl present [] evs.

Definition event_of (w : wanted) : option InputEvent :=
  match w with
  | WMotion x y => InputEvent_pointer_motion (mkPointerMotion 0 0 x y)
  | WButton b p => InputEvent_pointer_button (mkPointerButton b (if p then 1 else 0))
  | WScroll vertical v => InputEvent_pointer_axis (mkPointerAxis (if vertical then 0 else 1) 0 0 0 v)
  | WKey k p => InputEvent_key (mkKeyEvent k (if p then 1 else 0))
  end.

Definition wanted_ok (w : wanted) : Prop :=
  match w with
  | WMotion x y => fits 32 x /\ fits 32 y
  | WButton b _ => fits 32 b
  | WScroll _ v => fits 32 v
  | WKey k _ => fits 32 k
  end.

Lemma ei_payload_carried {A} `{PackedLaws A} e (a : A) :
  (slice (ie_payload e) 0 (size_of A) ≫= ref_from_bytes) = Some a -> ei_payload A e = Ret a.
Proof.
  unfold ei_payload. destruct (slice _ _ _) as [bs|]; [|done]. cbn [mbind option_bind or_panic run_bind].
  by intros ->.
Qed.

(** An event whose payload decodes to [a]. *)
Lemma ei_carried {A} `{PackedLaws A} k (a : A) d w serial flushes :
  wf a -> size_of A <= 12 -> takes d w = true ->
  (forall e, InputEvent_kind e = inl k -> ei_payload A e = Ret a ->
     inject_reqs d serial e = Ret [as_request d w; EiFrame (dv_id d) serial 0]) ->
  exists e, from_bytes_padded k (as_bytes a) = Some e /\
    ei_inject (mkEi (Some d)) e serial flushes =
      Ret ([as_request d w; EiFrame (dv_id d) serial 0; EiFlush], if flushes then None else Some InProtocol).
Proof.
  intros Hwf Hs Ht Hd. destruct (from_bytes_padded_carries k a Hwf Hs) as (e & E & _ & Ek & Ep).
  exists e. split; [done|]. unfold ei_inject. cbn [ei_device].
  rewrite (Hd e Ek) by (by apply ei_payload_carried). done.
Qed.

(** An event built for an input and injected through a device that takes it becomes
    that input on the device, ended by a frame and flushed. *)
Lemma ei_injects d w serial flushes : wanted_ok w -> takes d w = true ->
  exists e, event_of w = Some e /\
    ei_inject (mkEi (Some d)) e serial flushes =
      Ret ([as_request d w; EiFrame (dv_id d) serial 0; EiFlush], if flushes then None else Some InProtocol).
Proof.
  intros Hok Ht. destruct w as [x y|b p|vertical v|k p]; cbn [event_of takes wanted_ok] in *.
  - destruct Hok. apply (ei_carried KPointerMotion); [by split_and!|done|done|].
    intros e Hk Hp. unfold inject_reqs. rewrite Hk, Hp. cbn. by rewrite Ht.
  - apply (ei_carried KPointerButton); [split; [done|by destruct p]|done|done|].
    intros e Hk Hp. unfold inject_reqs. rewrite Hk, Hp. cbn. rewrite Ht. by destruct p.
  - apply (ei_carried KPointerAxis); [split_and!; try done; by destruct vertical|done|done|].
    intros e Hk Hp. unfold inject_reqs. rewrite Hk, Hp. cbn. by destruct vertical; cbn; rewrite Ht.
  - apply (ei_carried KKey); [split; [done|by destruct p]|done|done|].
    intros e Hk Hp. unfold inject_reqs. rewrite Hk, Hp. cbn. rewrite Ht. by destruct p.
Qed.

(** A compositor that offers the pointer and the keyboard as two devices: the
    keyboard, added last, hides the pointer, and a motion is lost without an
    error though a device that takes it is there. *)
Lemma second_device_hides_first :
  let pointer := mkEiDevice 1 true true true true false in
  let keyboard := mkEiDevice 2 false false false false true in
  let '(_, st, r) := ei_dispatch (mkEi None) [(DeviceAdded pointer, 5, true); (DeviceAdded keyboard, 6, true)] in
  r = None /\
  existsb (fun d => takes d (WButton 272 true)) (present_after [DeviceAdded pointer; DeviceAdded keyboard]) = true /\
  exists e, event_of (WButton 272 true) = Some e /\ ei_inject st e 7 true = Ret ([EiFlush], None).
Proof. vm_compute. split_and!; [done..|]. eexists. split; reflexivity. Qed.

(** Removing any device forgets the one in use. *)
Lemma removal_forgets_other :
  let pointer := mkEiDevice 1 true true true true false in
  let '(_, st, _) := ei_dispatch (mkEi None) [(DeviceAdded pointer, 5, true); (DeviceRemoved 9, 6, true)] in
  ei_device st = None /\ present_after [DeviceAdded pointer; DeviceRemoved 9] = [pointer].
Proof. vm_compute. by split. Qed.

(** A device with a relative pointer only is moved by the absolute position, as if
    it were a distance. *)
Lemma absolute_sent_as_relative x y serial : fits 32 x -> fits 32 y ->
  let d := mkEiDevice 1 true false true true false in
  exists e, event_of (WMotion x y) = Some e /\
    ei_inject (mkEi (Some d)) e serial true = Ret ([EiMotionRelative 1 x y; EiFrame 1 serial 0; EiFlush], None).
Proof.
  intros Hx Hy d. destruct (from_bytes_padded_carries KPointerMotion (mkPointerMotion 0 0 x y)) as (e & E & _ & Ek & Ep);
    [by split_and!|done|].
  exists e. split; [done|]. unfold ei_inject, inject_reqs. cbn [ei_device]. rewrite Ek, (ei_payload_carried _ _ Ep). done.
Qed.
