(* ===== verification/Launch.v ===== *)
(** The client's command line ([crates/remoteway-client/src/cli.rs]): the ssh
    command that starts the server.

    ssh joins the words that follow the host with spaces and the remote shell
    splits the line again.  [read_args] is how the server's command line is read
    (an option, then its value; what follows [--] is the command);
    [ssh_command_read] says that the server reads what the client was asked for,
    for texts the shell leaves alone, and [words_merge] that other texts do not
    survive. *)

From stdpp Require Import strings.
From S2P Require Import Prelude Compress Floats Scaling Interpolate FpsOverlay DesktopDetect ServerPipeline.

(** ** [Cli] *)

Record ClientCli := mkClientCli {
  cl_host : text; cl_capture : CaptureBackendArg; cl_compress : CompressArg;
  cl_no_interpolate : bool; cl_debug : bool; cl_interpolation_backend : option BackendKind;
  cl_server_scale : f64; cl_upscale : f64; cl_app_id : option text; cl_capture_fps : Z;
  cl_server_bin : text; cl_ssh_opt : list text; cl_command : list text }.

Definition client_to_kind (a : CompressArg) : CompressorKind :=
  match a with CompNone => KNone | CompLz4 => KLz4 | CompZstd => KZstd end.

Definition compress_server_arg (a : CompressArg) : text :=
  str match a with CompNone => "none" | CompLz4 => "lz4" | CompZstd => "zstd" end.

Definition capture_server_arg (a : CaptureBackendArg) : text :=
  str match a with
      | CapAuto => "auto" | CapWlrScreencopy => "wlr-screencopy"
      | CapExtImageCapture => "ext-image-capture" | CapPortal => "portal"
      end.

Section Ssh.
(** How an [f64] is printed. *)
Context (f64_to_string : f64 -> text).

(** What follows the host and the server's path. *)
Definition server_args (cli : ClientCli) : list text :=
  match cl_capture cli with CapAuto => [] | c => [str "--capture"; capture_server_arg c] end ++
  match cl_app_id cli with Some id => [str "--app-id"; id] | None => [] end ++
  [str "--capture-fps"; digits 20 (cl_capture_fps cli)] ++
  match cl_compress cli with CompLz4 => [] | c => [str "--compress"; compress_server_arg c] end ++
  (if differs_from_one (cl_server_scale cli) then [str "--scale"; f64_to_string (cl_server_scale cli)] else []) ++
  match cl_command cli with [] => [] | c => str "--" :: c end.

Definition ssh_command (cli : ClientCli) : list text :=
  [str "ssh"] ++ cl_ssh_opt cli ++ [cl_host cli] ++ [cl_server_bin cli] ++ server_args cli.

(** ** What reaches the server *)

Fixpoint join_words (ws : list text) : text :=
  match ws with
  | [] => []
  | [w] => w
  | w :: ws => w ++ [32] ++ join_words ws
  end.

(** The line ssh sends: the words after the host. *)
Definition remote_line (cli : ClientCli) : text :=
  join_words (drop (length (cl_ssh_opt cli) + 2) (ssh_command cli)).

Record ServerArgs := mkServerArgs {
  sa_capture : CaptureBackendArg; sa_app_id : option text; sa_capture_fps : Z;
  sa_compress : CompressArg; sa_scale : option text; sa_command : list text }.

Definition ServerArgs_default : ServerArgs := mkServerArgs CapAuto None 100 CompLz4 None [].

(** The name clap derives from an identifier of the server's [cli.rs]: kebab
    case. *)
Definition is_upper (c : Z) : bool := (65 <=? c) && (c <=? 90).
Definition kebab_char (c : Z) : text := if is_upper c then [45; lower c] else if c =? 95 then [45] else [c].
Definition kebab (ident : text) : text :=
  match ident with [] => [] | c :: ident => lower c :: (ident ≫= kebab_char) end.

(** The [ValueEnum]s of the server: variants and what the program takes them for;
    [Portal] is there only in a build with that feature. *)
Definition server_captures (portal : bool) : list (string * CaptureBackendArg) :=
  [("Auto", CapAuto); ("WlrScreencopy", CapWlrScreencopy); ("ExtImageCapture", CapExtImageCapture)]%string ++
  (if portal then [("Portal", CapPortal)]%string else []).

Definition server_compressions : list (string * CompressArg) :=
  [("None", CompNone); ("Lz4", CompLz4); ("Zstd", CompZstd)]%string.

(** The variant whose name a value is. *)
Definition read_variant {A} (variants : list (string * A)) (v : text) : option A :=
  first_some (fun '(ident, a) => if decide (v = kebab (str ident)) then Some a else None) variants.

(** The option of a field of the server's [Cli]. *)
Definition long (field : string) : text := str "--" ++ kebab (str field).

(** [str::parse::<u32>]. *)
Definition read_u32 (v : text) : option Z :=
  if negb (bool_decide (v = [])) && is_digits v then
    let n := foldl (fun n d => 10 * n + (d - 48)) 0 v in
    if n <? 2 ^ 32 then Some n else None
  else None.

Definition set_option (portal : bool) (a : ServerArgs) (name v : text) : option ServerArgs :=
  if decide (name = long "capture") then
    c ← read_variant (server_captures portal) v;
    Some (mkServerArgs c (sa_app_id a) (sa_capture_fps a) (sa_compress a) (sa_scale a) (sa_command a))
  else if decide (name = long "app_id") then
    Some (mkServerArgs (sa_capture a) (Some v) (sa_capture_fps a) (sa_compress a) (sa_scale a) (sa_command a))
  else if decide (name = long "capture_fps") then
    n ← read_u32 v;
    Some (mkServerArgs (sa_capture a) (sa_app_id a) n (sa_compress a) (sa_scale a) (sa_command a))
  else if decide (name = long "compress") then
    c ← read_variant server_compressions v;
    Some (mkServerArgs (sa_capture a) (sa_app_id a) (sa_capture_fps a) c (sa_scale a) (sa_command a))
  else if decide (name = long "scale") then
    Some (mkServerArgs (sa_capture a) (sa_app_id a) (sa_capture_fps a) (sa_compress a) (Some v) (sa_command a))
  else None.

(** A value may not look like an option. *)
Definition hyphened (v : text) : bool := match v with c :: _ => c =? 45 | [] => false end.

Fixpoint read_args (portal : bool) (a : ServerArgs) (ws : list text) : option ServerArgs :=
  match ws with
  | [] => Some a
  | w :: ws =>
      if decide (w = str "--") then
        Some (mkServerArgs (sa_capture a) (sa_app_id a) (sa_capture_fps a) (sa_compress a) (sa_scale a) ws)
      else match ws with
        | v :: ws => if hyphened v then None else a ← set_option portal a w v; read_args portal a ws
        | [] => None
        end
  end.

(** The server's path and the options read from a line, split at its spaces, by
    a server built with the portal or without. *)
Definition read_line (portal : bool) (line : text) : option (text * ServerArgs) :=
  match split_on 32 line with
  | bin :: ws => a ← read_args portal ServerArgs_default ws; Some (bin, a)
  | [] => None
  end.

(** What the client was asked for. *)
Definition asked (cli : ClientCli) : ServerArgs :=
  mkServerArgs (cl_capture cli) (cl_app_id cli) (cl_capture_fps cli) (cl_compress cli)
    (if differs_from_one (cl_server_scale cli) then Some (f64_to_string (cl_server_scale cli)) else None)
    (cl_command cli).

(** ** Texts the shell leaves alone *)

(** Letters, digits and [_ - . / : , @ % +]. *)
Definition plain_char (c : Z) : bool :=
  ((48 <=? c) && (c <=? 57)) || ((65 <=? c) && (c <=? 90)) || ((97 <=? c) && (c <=? 122)) ||
  existsb (Z.eqb c) [95; 45; 46; 47; 58; 44; 64; 37; 43].

Definition plain (w : text) : bool := negb (bool_decide (w = [])) && forallb plain_char w.

Definition plain_cli (cli : ClientCli) : bool :=
  plain (cl_server_bin cli) && forallb plain (cl_command cli) &&
  match cl_app_id cli with Some id => plain id && negb (hyphened id) | None => true end &&
  (plain (f64_to_string (cl_server_scale cli)) && negb (hyphened (f64_to_string (cl_server_scale cli)))).

Lemma plain_no_space w : plain w = true -> Forall (fun c => c <> 32) w.
Proof.
  unfold plain. intros [_ H]%andb_true_iff. rewrite forallb_forall in H. apply Forall_forall. intros c Hc ->.
  by apply H in Hc.
Qed.

Lemma split_on_word w rest : Forall (fun c => c <> 32) w -> split_on 32 (w ++ 32 :: rest) = w :: split_on 32 rest.
Proof.
  induction 1 as [|c w Hc Hw IH]; cbn; [done|]. rewrite (proj2 (Z.eqb_neq c 32)) by done. by rewrite IH.
Qed.

Lemma split_on_last w : Forall (fun c => c <> 32) w -> split_on 32 w = [w].
Proof. induction 1 as [|c w Hc Hw IH]; cbn; [done|]. rewrite (proj2 (Z.eqb_neq c 32)) by done. by rewrite IH. Qed.

Lemma split_join ws : ws <> [] -> Forall (fun w => plain w = true) ws -> split_on 32 (join_words ws) = ws.
Proof.
  intros Hne H. induction H as [|w ws Hw Hws IH]; [done|].
  apply plain_no_space in Hw. destruct ws as [|w' ws]; [by apply split_on_last|].
  change (join_words (w :: w' :: ws)) with (w ++ 32 :: join_words (w' :: ws)).
  rewrite split_on_word by done. by rewrite IH.
Qed.

(** ** Reading it back *)

Definition digits_value (ds : text) (n : Z) : Z := foldl (fun n d => 10 * n + (d - 48)) n ds.

Lemma digits_read fuel : forall n, 0 <= n < 10 ^ Z.of_nat fuel -> digits_value (digits fuel n) 0 = n /\
  forallb (fun b => (48 <=? b) && (b <=? 57)) (digits fuel n) = true /\ (fuel <> O -> digits fuel n <> []).
Proof.
  induction fuel as [|fuel IH]; intros n Hn; [cbn in *; split; [lia|done]|].
  cbn [digits]. destruct (n <? 10) eqn:E; [cbn; split_and!; [lia| |done]; rewrite andb_true_r; lia|].
  rewrite Nat2Z.inj_succ, Z.pow_succ_r in Hn by lia.
  destruct (IH (n / 10)) as (IH1 & IH2 & _); [Z.to_euclidean_division_equations; lia|].
  unfold digits_value in *. rewrite foldl_app, IH1, forallb_app, IH2. cbn.
  split_and!; [Z.to_euclidean_division_equations; lia| |by intros _ [_ H]%app_nil].
  rewrite andb_true_r. Z.to_euclidean_division_equations; lia.
Qed.

Lemma read_u32_digits n : fits 32 n -> read_u32 (digits 20 n) = Some n.
Proof.
  intros Hn. destruct (digits_read 20 n) as (H1 & H2 & H3); [unfold fits in Hn; split; [lia|]; cbn; lia|].
  unfold read_u32, is_digits. rewrite bool_decide_false, H2 by (by apply H3). cbn [negb andb].
  unfold digits_value in H1. rewrite H1. unfold fits in Hn. case_match eqn:E; [done|lia].
Qed.

Lemma digits_plain n : fits 32 n -> plain (digits 20 n) = true /\ hyphened (digits 20 n) = false.
Proof.
  intros Hn. destruct (digits_read 20 n) as (_ & H2 & H3); [unfold fits in Hn; split; [lia|]; cbn; lia|].
  specialize (H3 ltac:(done)). destruct (digits 20 n) as [|d ds]; [done|].
  unfold plain. cbn [negb bool_decide]. rewrite bool_decide_false by done. cbn [negb andb].
  split; [|cbn in *; lia]. rewrite forallb_forall in H2 |- *. intros c Hc%H2. unfold plain_char. by rewrite Hc.
Qed.

Lemma read_args_option portal a name v ws a' : name <> str "--" -> hyphened v = false ->
  set_option portal a name v = Some a' -> read_args portal a (name :: v :: ws) = read_args portal a' ws.
Proof. intros H1 H2 H3. cbn [read_args]. rewrite decide_False, H2, H3 by done. done. Qed.

(** The client spells its choices the way the server's parser names them. *)
Lemma capture_spelled portal c : (c = CapPortal -> portal = true) ->
  read_variant (server_captures portal) (capture_server_arg c) = Some c /\ hyphened (capture_server_arg c) = false.
Proof. intros Hp. destruct c; [..|rewrite Hp by done]; [by destruct portal..|done]. Qed.

Lemma compress_spelled c :
  read_variant server_compressions (compress_server_arg c) = Some c /\ hyphened (compress_server_arg c) = false.
Proof. by destruct c. Qed.

Lemma remote_words cli :
  drop (length (cl_ssh_opt cli) + 2) (ssh_command cli) = cl_server_bin cli :: server_args cli.
Proof.
  unfold ssh_command. rewrite <- app_comm_cons, app_nil_l. replace (length (cl_ssh_opt cli) + 2)%nat
    with (S (length (cl_ssh_opt cli) + 1)) by lia. cbn [drop]. rewrite <- drop_drop, drop_app_length. done.
Qed.

Lemma plain_cli_inv cli : plain_cli cli = true ->
  plain (cl_server_bin cli) = true /\ Forall (fun w => plain w = true) (cl_command cli) /\
  (forall id, cl_app_id cli = Some id -> plain id = true /\ hyphened id = false) /\
  plain (f64_to_string (cl_server_scale cli)) = true /\ hyphened (f64_to_string (cl_server_scale cli)) = false.
Proof.
  unfold plain_cli. intros [[[H1 H2]%andb_true_iff H3]%andb_true_iff [H4 H5%negb_true_iff]%andb_true_iff]%andb_true_iff.
  split_and!; try done.
  - by apply Forall_forall, forallb_forall.
  - intros id E. rewrite E in H3. apply andb_true_iff in H3 as [? ?%negb_true_iff]. done.
Qed.

Lemma server_args_plain cli : plain_cli cli = true -> fits 32 (cl_capture_fps cli) ->
  Forall (fun w => plain w = true) (server_args cli).
Proof.
  intros (H1 & H2 & H3 & H4 & _)%plain_cli_inv Hf. destruct (digits_plain _ Hf) as [H6 _].
  unfold server_args. rewrite !Forall_app. split_and!.
  - by destruct (cl_capture cli); repeat constructor.
  - destruct (cl_app_id cli) as [id|]; [|done]. destruct (H3 id eq_refl). by repeat constructor.
  - by repeat constructor.
  - by destruct (cl_compress cli); repeat constructor.
  - destruct (differs_from_one _); by repeat constructor.
  - destruct (cl_command cli); [done|]. by constructor.
Qed.

Definition can_portal (portal : bool) (cli : ClientCli) : Prop := cl_capture cli = CapPortal -> portal = true.

Lemma set_capture portal a v : set_option portal a (str "--capture") v =
  (c ← read_variant (server_captures portal) v;
   Some (mkServerArgs c (sa_app_id a) (sa_capture_fps a) (sa_compress a) (sa_scale a) (sa_command a))).
Proof. reflexivity. Qed.

Lemma set_fps portal a v : set_option portal a (str "--capture-fps") v =
  (n ← read_u32 v; Some (mkServerArgs (sa_capture a) (sa_app_id a) n (sa_compress a) (sa_scale a) (sa_command a))).
Proof. reflexivity. Qed.

Lemma set_compress portal a v : set_option portal a (str "--compress") v =
  (c ← read_variant server_compressions v;
   Some (mkServerArgs (sa_capture a) (sa_app_id a) (sa_capture_fps a) c (sa_scale a) (sa_command a))).
Proof. reflexivity. Qed.

Lemma server_args_read portal cli : plain_cli cli = true -> fits 32 (cl_capture_fps cli) -> can_portal portal cli ->
  read_args portal ServerArgs_default (server_args cli) = Some (asked cli).
Proof.
  intros (_ & _ & H3 & _ & H5)%plain_cli_inv Hf Hport. destruct (digits_plain _ Hf) as [_ H7].
  pose proof (read_u32_digits _ Hf) as H8. unfold server_args, asked, ServerArgs_default.
  set (fps := digits 20 _) in *. set (sc := f64_to_string _) in *.
  assert (Hcap : forall ws, read_args portal (mkServerArgs CapAuto None 100 CompLz4 None [])
      (match cl_capture cli with CapAuto => [] | c => [str "--capture"; capture_server_arg c] end ++ ws) =
    read_args portal (mkServerArgs (cl_capture cli) None 100 CompLz4 None []) ws).
  { intros ws. destruct (capture_spelled portal (cl_capture cli) Hport) as [Hs Hh].
    destruct (cl_capture cli); [done|..]; by apply read_args_option; [|exact Hh|rewrite set_capture, Hs]. }
  rewrite Hcap. clear Hcap.
  assert (Happ : forall ws, read_args portal (mkServerArgs (cl_capture cli) None 100 CompLz4 None [])
      (match cl_app_id cli with Some id => [str "--app-id"; id] | None => [] end ++ ws) =
    read_args portal (mkServerArgs (cl_capture cli) (cl_app_id cli) 100 CompLz4 None []) ws).
  { intros ws. destruct (cl_app_id cli) as [id|]; [|done]. by apply read_args_option; [|apply H3|]. }
  rewrite Happ. clear Happ. cbn [app].
  rewrite (read_args_option _ _ _ _ _ (mkServerArgs (cl_capture cli) (cl_app_id cli) (cl_capture_fps cli) CompLz4 None []));
    [|done|done|by rewrite set_fps, H8].
  assert (Hcomp : forall ws, read_args portal (mkServerArgs (cl_capture cli) (cl_app_id cli) (cl_capture_fps cli) CompLz4 None [])
      (match cl_compress cli with CompLz4 => [] | c => [str "--compress"; compress_server_arg c] end ++ ws) =
    read_args portal (mkServerArgs (cl_capture cli) (cl_app_id cli) (cl_capture_fps cli) (cl_compress cli) None []) ws).
  { intros ws. destruct (compress_spelled (cl_compress cli)) as [Hs Hh].
    destruct (cl_compress cli); [|done|]; by apply read_args_option; [|exact Hh|rewrite set_compress, Hs]. }
  rewrite Hcomp. clear Hcomp.
  destruct (differs_from_one _); cbn [app]; [rewrite (read_args_option _ _ _ _ _
    (mkServerArgs (cl_capture cli) (cl_app_id cli) (cl_capture_fps cli) (cl_compress cli) (Some sc) [])) by done|];
    by destruct (cl_command cli).
Qed.

(** C32. For texts of letters, digits and the shell's plain punctuation: the line
    that ssh sends, split at its spaces and read by the names that the server's
    own options and variants have (the portal's only in a server built with it),
    gives the server's path and exactly the capture backend, window, frame rate,
    compression, scale and command the client was started with, those left out
    being the server's defaults. *)
Theorem ssh_command_read (portal : bool) (cli : ClientCli) :
  plain_cli cli = true -> fits 32 (cl_capture_fps cli) -> can_portal portal cli ->
  read_line portal (remote_line cli) = Some (cl_server_bin cli, asked cli).
Proof.
  intros Hp Hf Hport. unfold read_line, remote_line. rewrite remote_words, split_join; [|done|].
  - by rewrite server_args_read.
  - constructor; [by apply plain_cli_inv|by apply server_args_plain].
Qed.
End Ssh.

(** Printing half a unit. *)
Definition demo_print (x : f64) : text := str "0.5".

Definition demo_client (command : list text) : ClientCli :=
  mkClientCli (str "user@host") CapPortal CompZstd false false None (f64_frac 1 2) (f64_of_int 1)
    (Some (str "org.mozilla.firefox")) 60 (str "/usr/bin/remoteway-server") [str "-p 2222"] command.

Lemma ssh_command_read_witness :
  plain_cli demo_print (demo_client [str "firefox"; str "-P"]) = true /\
  read_line true (remote_line demo_print (demo_client [str "firefox"; str "-P"])) =
    Some (str "/usr/bin/remoteway-server",
          mkServerArgs CapPortal (Some (str "org.mozilla.firefox")) 60 CompZstd (Some (str "0.5")) [str "firefox"; str "-P"]).
Proof.
  split; [vm_compute; reflexivity|].
  exact (ssh_command_read demo_print true (demo_client [str "firefox"; str "-P"]) eq_refl ltac:(by vm_compute) ltac:(done)).
Defined.

(** A word with a space is two words to the server: nothing in the line tells them
    apart. *)
Lemma words_merge :
  let cli1 := demo_client [str "sh -c"; str "ls"] in
  let cli2 := demo_client [str "sh"; str "-c"; str "ls"] in
  ssh_command demo_print cli1 <> ssh_command demo_print cli2 /\
  remote_line demo_print cli1 = remote_line demo_print cli2.
Proof. split; [by vm_compute|reflexivity]. Qed.

(** A server built without the portal refuses the client's choice of it. *)
Example portal_needs_feature :
  read_line false (remote_line demo_print (demo_client [str "firefox"])) = None.
Proof. vm_compute. reflexivity. Qed.
