(* ===== verification/ClientRun.v ===== *)
(** The client's [run] ([crates/remoteway-client/src/main.rs]) and the creation of
    an interpolation backend
    ([crates/remoteway-interpolate/src/backend.rs], [BackendDetector]).

    What the system answers is a [client_world]; [run_client] returns what the
    client did, in order, and how it ended. *)

From stdpp Require Import strings.
From S2P Require Import Prelude Wire Proto Multiplexer Compress Floats Scaling Interpolate FpsOverlay DesktopDetect ServerPipeline ClientPipeline DisplayThread Launch.
Import Header.

(** ** [BackendDetector] *)

(** The compiled-in features, whether a Vulkan device is there, and the
    constructors of the backends. *)
Record gpu_world (I : Type) := mkGpuWorld {
  gw_fsr2 : bool; gw_fsr3 : bool; gw_fsr2_rife : bool; gw_vulkan : bool;
  gw_linear : I; gw_new_fsr2 : I + InterpolateError; gw_new_fsr3 : I + InterpolateError;
  gw_new_rife : I + InterpolateError }.
Arguments mkGpuWorld {I}. Arguments gw_fsr2 {I}. Arguments gw_fsr3 {I}. Arguments gw_fsr2_rife {I}.
Arguments gw_vulkan {I}. Arguments gw_linear {I}. Arguments gw_new_fsr2 {I}. Arguments gw_new_fsr3 {I}.
Arguments gw_new_rife {I}.

Section Client.
Context {I : Type}.

Definition check_fsr3 (g : gpu_world I) : bool := gw_fsr3 g && gw_vulkan g.
Definition check_fsr2 (g : gpu_world I) : bool := gw_fsr2 g && gw_vulkan g.

Definition create_backend (g : gpu_world I) (kind : BackendKind) : I + InterpolateError :=
  match kind with
  | LinearBlend => inl (gw_linear g)
  | Fsr2 => if gw_fsr2 g then gw_new_fsr2 g else inr (InitFailed "fsr2 feature not enabled")
  | Fsr3 =>
      if gw_fsr3 g then
        match gw_new_fsr3 g with
        | inl backend => inl backend
        | inr e => if gw_fsr2 g then gw_new_fsr2 g else inr e
        end
      else inr (InitFailed "fsr3 feature not enabled")
  | Fsr2Rife => if gw_fsr2_rife g then gw_new_rife g else inr (InitFailed "fsr2-rife feature not enabled")
  end.

Definition select_best_backend (g : gpu_world I) : I + InterpolateError :=
  create_backend g (select_best (check_fsr3 g) (check_fsr2 g)).

(** ** [run] *)

Inductive client_ending := Interrupted | ReceiveEnded | SshExited.

(** [cw_anchor_sent]: the transport took the handshake. *)
Record client_world := mkClientWorld {
  cw_spawns_ssh : bool; cw_has_stdin : bool; cw_has_stdout : bool; cw_anchor_sent : bool;
  cw_first : option IncomingMessage; cw_gpu : gpu_world I;
  cw_spawns_display : bool; cw_spawns_input : bool; cw_ending : client_ending }.

Inductive client_act :=
  | SpawnSsh (args : list text)
  | SendHandshake (bytes : list Z) | ServerHello
  | SpawnDisplay (config : DisplayThreadConfig) | SpawnInput (core_id sched_priority : Z)
  | SpawnReceiveLoop (config : ClientConfig) (interpolation : option I)
  | ClientShutdown | KillSsh.

Inductive client_error :=
  | LaunchSshFailed | NoPipe (what : string) | NotHandshake (msg_type : Z) | TransportClosedEarly
  | DisplayFailed | InputFailed.

Definition client_run_result : Type := (list client_act * option client_error)%type.

(** The manager's backend, if there is one. *)
Definition choose_interpolation (cli : ClientCli) (g : gpu_world I) : option I :=
  let created r := match r with inl backend => Some backend | inr _ => None end in
  if cl_no_interpolate cli then None
  else match cl_interpolation_backend cli with
    | Some kind => created (create_backend g kind)
    | None => created (select_best_backend g)
    end.

(** From the handshake on: the acts and the error, if any. *)
Definition after_handshake (cli : ClientCli) (w : client_world) : client_run_result :=
  let interpolation := choose_interpolation cli (cw_gpu w) in
  if negb (cw_spawns_display w) then ([], Some DisplayFailed)
  else
    let acts := [SpawnDisplay DisplayThreadConfig_default] in
    if negb (cw_spawns_input w) then (acts, Some InputFailed)
    else
      (acts ++ [SpawnInput 0 99;
        SpawnReceiveLoop (mkClientConfig (cl_upscale cli) (cl_debug cli) (client_to_kind (cl_compress cli))) interpolation;
        ClientShutdown; KillSsh], None).

Definition run_client (f64_to_string : f64 -> text) (cli : ClientCli) (w : client_world) : client_run_result :=
  if negb (cw_spawns_ssh w) then ([], Some LaunchSshFailed)
  else
    let acts := [SpawnSsh (ssh_command f64_to_string cli)] in
    if negb (cw_has_stdin w) then (acts, Some (NoPipe "stdin"))
    else if negb (cw_has_stdout w) then (acts, Some (NoPipe "stdout"))
    else
      let acts := acts ++ (if cw_anchor_sent w then [SendHandshake client_handshake] else []) in
      match cw_first w with
      | None => (acts, Some TransportClosedEarly)
      | Some m =>
          match FrameHeader_msg_type (im_header m) with
          | inl Handshake =>
              let '(acts', r) := after_handshake cli w in (acts ++ [ServerHello] ++ acts', r)
          | _ => (acts, Some (NotHandshake (msg_type (im_header m))))
          end
      end.
End Client.
Arguments client_world : clear implicits.
Arguments client_act : clear implicits.
Arguments KillSsh {I}.

(** ** Backends *)

(** The backend kinds a creation may try, in order: FSR 3 falls back to FSR 2. *)
Definition attempts {I} (g : gpu_world I) (kind : BackendKind) : list (I + InterpolateError) :=
  match kind with
  | LinearBlend => [inl (gw_linear g)]
  | Fsr2 => if gw_fsr2 g then [gw_new_fsr2 g] else []
  | Fsr3 => if gw_fsr3 g then gw_new_fsr3 g :: (if gw_fsr2 g then [gw_new_fsr2 g] else []) else []
  | Fsr2Rife => if gw_fsr2_rife g then [gw_new_rife g] else []
  end.

Definition succeeded {I} (r : I + InterpolateError) : option I :=
  match r with inl b => Some b | inr _ => None end.

Lemma create_backend_first {I} (g : gpu_world I) kind :
  succeeded (create_backend g kind) = first_some succeeded (attempts g kind).
Proof.
  destruct kind; cbn; try done.
  - by destruct (gw_fsr2 g), (gw_new_fsr2 g).
  - by destruct (gw_fsr3 g), (gw_fsr2 g), (gw_new_fsr3 g), (gw_new_fsr2 g).
  - by destruct (gw_fsr2_rife g), (gw_new_rife g).
Qed.

(** The best kind detected is the only one the automatic choice creates: when the
    device is there and its backend does not start, the client goes without
    interpolation, though the CPU blend is always available. *)
Lemma automatic_choice_gives_up {I} (cli : ClientCli) (g : gpu_world I) e :
  cl_no_interpolate cli = false -> cl_interpolation_backend cli = None ->
  gw_vulkan g = true -> gw_fsr3 g = false -> gw_fsr2 g = true -> gw_new_fsr2 g = inr e ->
  list.last (detect_available (check_fsr3 g) (check_fsr2 g)) = Some LinearBlend /\
  choose_interpolation cli g = None.
Proof.
  intros H1 H2 H3 H4 H5 H6. unfold choose_interpolation, select_best_backend, check_fsr3, check_fsr2.
  rewrite H1, H2, H3, H4, H5. cbn. by rewrite H5, H6.
Qed.

(** ** Runs *)

Section Runs.
Context {I : Type} (f64_to_string : f64 -> text).

(** Everything a client does, from the ssh process to its end. *)
Definition full_run (cli : ClientCli) (w : client_world I) : list (client_act I) :=
  [SpawnSsh (ssh_command f64_to_string cli)] ++
  (if cw_anchor_sent w then [SendHandshake client_handshake] else []) ++
  [ServerHello; SpawnDisplay DisplayThreadConfig_default; SpawnInput 0 99;
   SpawnReceiveLoop (mkClientConfig (cl_upscale cli) (cl_debug cli) (client_to_kind (cl_compress cli)))
     (choose_interpolation cli (cw_gpu w));
   ClientShutdown; KillSsh].

Definition greeted (first : option IncomingMessage) : bool :=
  match first with
  | Some m => match FrameHeader_msg_type (im_header m) with inl Handshake => true | _ => false end
  | None => false
  end.

Definition all_well (w : client_world I) : bool :=
  cw_spawns_ssh w && cw_has_stdin w && cw_has_stdout w && greeted (cw_first w) && cw_spawns_display w && cw_spawns_input w.

(** Whatever the system answers: the client starts ssh with the command of
    the options, greets the server, waits for its handshake, and only then opens
    the display, the input capture and the receive loop, with the upscale factor,
    the compression and the interpolation backend asked for; a run in which
    everything answers goes to the end, killing ssh; any other run is a proper
    beginning of that one, ends with an error, and leaves ssh to itself. *)
Theorem client_run_order (cli : ClientCli) (w : client_world I) :
  if all_well w then run_client f64_to_string cli w = (full_run cli w, None)
  else exists acts e, run_client f64_to_string cli w = (acts, Some e) /\
    acts `prefix_of` full_run cli w /\ KillSsh ∉ acts.
Proof.
  unfold all_well, run_client, after_handshake, full_run, greeted.
  destruct (cw_spawns_ssh w); cbn [negb andb]; [|eexists _, _; split; [reflexivity|]; split; [apply prefix_nil|set_solver]].
  assert (Hstep : forall (acts rest : list (client_act I)) (e : client_error), KillSsh ∉ acts ->
    exists acts' e', (acts, Some e) = (acts', Some e') /\ acts' `prefix_of` acts ++ rest /\ KillSsh ∉ acts').
  { intros acts rest e Hk. exists acts, e. split; [done|]. split; [by apply prefix_app_r|done]. }
  destruct (cw_has_stdin w); cbn [negb andb]; [|apply (Hstep [_]); set_solver].
  destruct (cw_has_stdout w); cbn [negb andb]; [|apply (Hstep [_]); set_solver].
  destruct (cw_first w) as [m|]; [|rewrite app_assoc; apply Hstep; destruct (cw_anchor_sent w); set_solver].
  destruct (FrameHeader_msg_type _) as [[]|]; try (rewrite app_assoc; apply Hstep; destruct (cw_anchor_sent w); set_solver).
  destruct (cw_spawns_display w); cbn [negb andb].
  2:{ rewrite !app_assoc. change [ServerHello; ?a; ?b; ?c; ?d; ?e] with ([ServerHello] ++ [a; b; c; d; e]).
      rewrite !app_assoc, app_nil_r. apply Hstep. destruct (cw_anchor_sent w); set_solver. }
  destruct (cw_spawns_input w); cbn [negb].
  2:{ change [ServerHello; ?a; ?b; ?c; ?d; ?e] with ([ServerHello] ++ [a] ++ [b; c; d; e]).
      rewrite !app_assoc. apply Hstep. destruct (cw_anchor_sent w); set_solver. }
  by destruct (cw_anchor_sent w).
Qed.
End Runs.
