(* ===== verification/ServerRun.v ===== *)
(** The server's [run] ([crates/remoteway-server/src/main.rs]): from the command
    line to the end of the process.

    What the system answers is a [serve_world]; [run_server] returns what the
    server did, in order, and how it ended.  [life_step] is the life cycle the
    steps must follow, [server_lifecycle] that every run does, and
    [server_serves] when a run comes to serve its client. *)

From stdpp Require Import strings gmap.
From S2P Require Import Prelude Wire Proto Multiplexer Floats InputPipeline DesktopDetect ServerPipeline CaptureThread CaptureSelect.
Import Header.

#[export] Instance CompressArg_eq_dec : EqDecision CompressArg.
Proof. solve_decision. Defined.
#[export] Instance DownscaleFilterArg_eq_dec : EqDecision DownscaleFilterArg.
Proof. solve_decision. Defined.
#[export] Instance f64_eq_dec : EqDecision f64.
Proof. unfold EqDecision, f64. solve_decision. Defined.

(** ** Command line *)

Record Cli := mkCli {
  cli_capture : CaptureBackendArg; cli_compress : CompressArg; cli_output : option text;
  cli_app_id : option text; cli_command : list text; cli_capture_fps : Z; cli_scale : f64;
  cli_downscale_filter : DownscaleFilterArg;
  cli_select_source : bool (** with the [portal] feature only *) }.

(** ** What the system answers *)

(** Which branch of the final [select!] is ready first. *)
Inductive ending := CtrlC | TransportClosed | ChildExited.

Record serve_world (B : Type) := mkServeWorld {
  sw_portal : bool;                        (** built with the feature *)
  sw_token_saved : bool;                   (** [setup_restore_token] succeeds *)
  sw_first : option IncomingMessage;       (** the first message, if any *)
  sw_system : System; sw_env : env_map;
  sw_toplevels : option (list text);       (** [enumerate_toplevels], the identifiers *)
  sw_spawns_child : bool;
  sw_creators : Z -> creators B;           (** the backends, at each attempt *)
  sw_spawns_capture : bool; sw_spawns_inject : bool; sw_spawns_compress : bool;
  sw_ending : ending }.
Arguments mkServeWorld {B}. Arguments sw_portal {B}. Arguments sw_token_saved {B}. Arguments sw_first {B}.
Arguments sw_system {B}. Arguments sw_env {B}. Arguments sw_toplevels {B}. Arguments sw_spawns_child {B}.
Arguments sw_creators {B}. Arguments sw_spawns_capture {B}. Arguments sw_spawns_inject {B}.
Arguments sw_spawns_compress {B}. Arguments sw_ending {B}.

Inductive serve_act (B : Type) :=
  | SetupToken
  | SendAnchor (bytes : list Z) | ReceiveFirst
  | EnsureEnv | SnapshotToplevels
  | LaunchChild (command : list text) (wayland_display : option text)
  | BackendReady (b : B)
  | SpawnCapture (config : CaptureThreadConfig) | SpawnInject (config : InputInjectConfig)
  | SpawnCompress (compress : CompressArg) (scale : f64) (filter : DownscaleFilterArg)
  | SpawnReceive
  | SetShutdown | JoinCompress | KillChild | WaitChild.
Arguments SetupToken {B}. Arguments SendAnchor {B}. Arguments ReceiveFirst {B}. Arguments EnsureEnv {B}.
Arguments SnapshotToplevels {B}. Arguments LaunchChild {B}. Arguments BackendReady {B}. Arguments SpawnCapture {B}.
Arguments SpawnInject {B}. Arguments SpawnCompress {B}. Arguments SpawnReceive {B}. Arguments SetShutdown {B}.
Arguments JoinCompress {B}. Arguments KillChild {B}. Arguments WaitChild {B}.

Inductive RunError :=
  | TokenFailed | UnexpectedMessage (msg_type : Z) | ClosedBeforeHandshake | NoWaylandDisplay
  | LaunchFailed | BackendFailed (e : AnyError) | ThreadFailed (name : string).

(** [Blocked]: the [select!] never ends, for it waits for a child there is not. *)
Inductive run_end (A : Type) := Went (a : A) | Failed (e : RunError) | Panicked | Blocked.
Arguments Went {A}. Arguments Failed {A}. Arguments Panicked {A}. Arguments Blocked {A}.

Section Serve.
Context {B : Type}.

Definition serve (A : Type) : Type := (list (serve_act B) * run_end A)%type.

#[export] Instance serve_ret : MRet serve := fun A a => ([], Went a).
#[export] Instance serve_bind : MBind serve := fun A C f m =>
  match m with
  | (acts, Went a) => let '(acts', r) := f a in (acts ++ acts', r)
  | (acts, Failed e) => (acts, Failed e)
  | (acts, Panicked) => (acts, Panicked)
  | (acts, Blocked) => (acts, Blocked)
  end.

Definition did (a : serve_act B) : serve unit := ([a], Went tt).
Definition bail {A} (e : RunError) : serve A := ([], Failed e).
Definition check (b : bool) (e : RunError) : serve unit := if b then mret tt else bail e.

(** ** [launch_child] *)

(** [env::var] fails on text that is not UTF-8. *)
Definition var (env : env_map) (name : text) : option text :=
  v ← env !! name; if utf8_valid v then Some v else None.

Definition launch_child (env : env_map) (spawns : bool) (command : list text) : serve unit :=
  match command with
  | [] => ([], Panicked)
  | _ => check spawns LaunchFailed;; did (LaunchChild command (var env WAYLAND_DISPLAY))
  end.

(** ** [run] *)

Definition receive_first (first : option IncomingMessage) : serve unit :=
  match first with
  | None => bail ClosedBeforeHandshake
  | Some m =>
      match FrameHeader_msg_type (im_header m) with
      | inl Handshake => did ReceiveFirst
      | _ => bail (UnexpectedMessage (msg_type (im_header m)))
      end
  end.

Definition of_selected (r : option (B + AnyError)) : serve B :=
  match r with
  | Some (inl b) => did (BackendReady b);; mret b
  | Some (inr e) => bail (BackendFailed e)
  | None => ([], Panicked)
  end.

(** What comes before the backend: the windows listed and the child started, as
    the mode asks. *)
Definition prepare (cli : Cli) (w : serve_world B) (env : env_map) : serve (option (list text) * bool) :=
  let '(auto_detect_child, explicit_app_id_launch) :=
    determine_capture_mode (cli_app_id cli) (cli_command cli) in
  known ← (if auto_detect_child then did SnapshotToplevels;; mret (sw_toplevels w) else mret None : serve _);
  child ← (if auto_detect_child || explicit_app_id_launch
           then launch_child env (sw_spawns_child w) (cli_command cli);; mret true
           else mret false : serve _);
  mret (known, child).

(** The three threads of the server. *)
Definition spawn_threads (cli : Cli) (w : serve_world B) : serve unit :=
  let d := CaptureThreadConfig_default in
  check (sw_spawns_capture w) (ThreadFailed "capture");;
  did (SpawnCapture (mkCaptureThreadConfig (core_id d) (sched_priority d) (ring_capacity d) (cli_capture_fps cli)));;
  check (sw_spawns_inject w) (ThreadFailed "input inject");;
  did (SpawnInject InputInjectConfig_default);;
  check (sw_spawns_compress w) (ThreadFailed "compress-send");;
  did (SpawnCompress (cli_compress cli) (cli_scale cli) (cli_downscale_filter cli)).

(** The end of [run]: [child] is whether one was launched. *)
Definition wait_and_stop (e : ending) (child : bool) : serve unit :=
  match e, child with
  | ChildExited, false => ([], Blocked)
  | _, _ => did SetShutdown
  end;;
  did SetShutdown;; did JoinCompress;;
  (if child then did KillChild;; did WaitChild else mret tt).

Definition run_server (cli : Cli) (w : serve_world B) : serve unit :=
  if sw_portal w && cli_select_source cli then
    did EnsureEnv;; check (sw_token_saved w) TokenFailed;; did SetupToken
  else
    did (SendAnchor (build_handshake (cli_capture cli) (cli_compress cli)));;
    receive_first (sw_first w);;
    let '(env, found) := ensure_wayland_env (sw_system w) (sw_env w) in
    did EnsureEnv;;
    check found NoWaylandDisplay;;
    '(known, child) ← prepare cli w env;
    _ ← of_selected (select_backend (sw_creators w) (sw_portal w) (detect_desktop (sw_system w) env)
          (cli_capture cli) (cli_output cli) (cli_app_id cli) (cli_command cli) known);
    spawn_threads cli w;;
    let '(auto_detect_child, explicit_app_id_launch) :=
      determine_capture_mode (cli_app_id cli) (cli_command cli) in
    child ← (if negb auto_detect_child && negb explicit_app_id_launch && negb (bool_decide (cli_command cli = []))
             then launch_child env (sw_spawns_child w) (cli_command cli);; mret true
             else mret child);
    did SpawnReceive;;
    wait_and_stop (sw_ending w) child.

(** ** The life cycle *)

Inductive phase :=
  | Fresh | Choosing | Greeted | Met | EnvFound | Snapped | Ready | Capturing | Injecting | Compressing
  | Serving | Stopping | TokenDone.

#[export] Instance phase_eq_dec : EqDecision phase.
Proof. solve_decision. Defined.

(** [l_child]: a child runs; [l_killed]: it was sent the signal; [l_compress]: the
    compress thread runs. *)
Record Life := mkLife { l_phase : phase; l_child : bool; l_killed : bool; l_compress : bool }.

Definition Life_new : Life := mkLife Fresh false false false.

Definition move (l : Life) (from to : phase) : option Life :=
  if decide (l_phase l = from) then Some (mkLife to (l_child l) (l_killed l) (l_compress l)) else None.

(** With a command and no window named ([auto]), the windows are listed before the
    child starts, so that its own is not among the known ones; the backend is
    looked for once the child runs. *)
Definition life_step (cli : Cli) (l : Life) (a : serve_act B) : option Life :=
  let auto := (determine_capture_mode (cli_app_id cli) (cli_command cli)).1 in
  let with_child := negb (bool_decide (cli_command cli = [])) in
  match a with
  | SetupToken => move l Choosing TokenDone
  | SendAnchor bs => if decide (bs = build_handshake (cli_capture cli) (cli_compress cli)) then move l Fresh Greeted else None
  | ReceiveFirst => move l Greeted Met
  | EnsureEnv => match l_phase l with Fresh => move l Fresh Choosing | _ => move l Met EnvFound end
  | SnapshotToplevels => if auto && negb (l_child l) then move l EnvFound Snapped else None
  | LaunchChild command _ =>
      if decide (command = cli_command cli /\ l_phase l = (if auto then Snapped else EnvFound) /\ l_child l = false)
      then Some (mkLife (l_phase l) true false (l_compress l)) else None
  | BackendReady _ =>
      if Bool.eqb (l_child l) with_child then move l (if auto then Snapped else EnvFound) Ready else None
  | SpawnCapture c => if decide (capture_fps c = cli_capture_fps cli) then move l Ready Capturing else None
  | SpawnInject _ => move l Capturing Injecting
  | SpawnCompress c s f =>
      if decide (c = cli_compress cli /\ s = cli_scale cli /\ f = cli_downscale_filter cli)
      then match move l Injecting Compressing with
           | Some l => Some (mkLife (l_phase l) (l_child l) (l_killed l) true)
           | None => None
           end
      else None
  | SpawnReceive => move l Compressing Serving
  | SetShutdown =>
      match l_phase l with
      | Serving | Stopping => Some (mkLife Stopping (l_child l) (l_killed l) (l_compress l))
      | _ => None
      end
  | JoinCompress =>
      if decide (l_phase l = Stopping /\ l_compress l = true)
      then Some (mkLife Stopping (l_child l) (l_killed l) false) else None
  | KillChild =>
      if decide (l_phase l = Stopping /\ l_child l = true /\ l_compress l = false)
      then Some (mkLife Stopping true true false) else None
  | WaitChild =>
      if decide (l_phase l = Stopping /\ l_child l = true /\ l_killed l = true)
      then Some (mkLife Stopping false true false) else None
  end.

Definition life_run (cli : Cli) (l : Life) (acts : list (serve_act B)) : option Life := foldM (life_step cli) l acts.
End Serve.

(** ** Reasoning about runs *)

Section Laws.
Context {B : Type} (cli : Cli).

(** [m], begun in [l], follows the life cycle; what holds when it goes on, and
    when it has failed or waits for ever. *)
Definition follows {A} (l : Life) (m : serve (B:=B) A) (Post : A -> Life -> Prop) (Err Wait : Life -> Prop) : Prop :=
  exists l', life_run cli l m.1 = Some l' /\
    match m.2 with Went a => Post a l' | Failed _ => Err l' | Panicked => False | Blocked => Wait l' end.

Lemma follows_bind {A C} l (m : serve A) (f : A -> serve C) (Mid : A -> Life -> Prop) Post Err Wait :
  follows l m Mid Err Wait -> (forall a l', Mid a l' -> follows l' (f a) Post Err Wait) ->
  follows l (m ≫= f) Post Err Wait.
Proof.
  intros (l' & Hrun & Hm) Hf. destruct m as [acts [a|e| |]]; cbn in *;
    [|by exists l'|done|by exists l'].
  destruct (Hf a l' Hm) as (l'' & Hrun' & Hpost). destruct (f a) as [acts' r]. cbn in *.
  exists l''. cbn. split; [|done]. unfold life_run in *. rewrite foldM_app, Hrun. done.
Qed.

Lemma follows_ret {A} l (a : A) (Post : A -> Life -> Prop) Err Wait : Post a l -> follows l (mret a) Post Err Wait.
Proof. intros. by exists l. Qed.

Lemma follows_did l a l' (Post : unit -> Life -> Prop) Err Wait :
  life_step cli l a = Some l' -> Post tt l' -> follows l (did a) Post Err Wait.
Proof. intros Hs HP. exists l'. unfold life_run. cbn. by rewrite Hs. Qed.

Lemma follows_check l b e (Post : unit -> Life -> Prop) (Err : Life -> Prop) Wait :
  (b = true -> Post tt l) -> Err l -> follows l (check b e) Post Err Wait.
Proof. intros. destruct b; exists l; cbn; auto. Qed.

Lemma follows_receive l first (Post : unit -> Life -> Prop) (Err : Life -> Prop) Wait :
  l_phase l = Greeted -> Err l -> Post tt (mkLife Met (l_child l) (l_killed l) (l_compress l)) ->
  follows l (receive_first first) Post Err Wait.
Proof.
  intros Hp He HP. unfold receive_first. destruct first as [m|]; [|by exists l].
  destruct (FrameHeader_msg_type _) as [[]|]; try (by exists l).
  eapply follows_did; [|exact HP]. cbn. unfold move. by rewrite decide_True.
Qed.

Lemma follows_selected l r (Post : B -> Life -> Prop) (Err : Life -> Prop) Wait :
  r <> None -> Err l -> (forall b, follows l (did (BackendReady b)) (fun _ => Post b) Err Wait) ->
  follows l (of_selected r) Post Err Wait.
Proof.
  intros Hr He Hb. destruct r as [[b|e]|]; [| |done]; [|by exists l].
  eapply follows_bind; [apply Hb|]. intros [] l' HP. by apply follows_ret.
Qed.

Lemma follows_launch l env spawns (Post : unit -> Life -> Prop) (Err : Life -> Prop) Wait :
  cli_command cli <> [] -> Err l ->
  l_phase l = (if (determine_capture_mode (cli_app_id cli) (cli_command cli)).1 then Snapped else EnvFound) ->
  l_child l = false -> Post tt (mkLife (l_phase l) true false (l_compress l)) ->
  follows l (launch_child env spawns (cli_command cli)) Post Err Wait.
Proof.
  intros Hc He Hp Hn HP. unfold launch_child. destruct (cli_command cli) eqn:E; [done|].
  eapply follows_bind; [by apply (follows_check _ _ _ (fun _ l' => l' = l))|].
  intros [] l' ->. eapply follows_did; [|exact HP]. cbn. rewrite E. by rewrite decide_True.
Qed.

Lemma follows_stop l e (Err : Life -> Prop) :
  l_phase l = Serving -> l_compress l = true ->
  follows l (wait_and_stop e (l_child l))
    (fun _ l' => l_phase l' = Stopping /\ l_child l' = false /\ l_compress l' = false) Err
    (fun l' => l' = l /\ l_child l = false).
Proof.
  destruct l as [p c k t]. cbn. intros -> ->. unfold wait_and_stop.
  destruct e, c; cbn; eexists; split; try reflexivity; done.
Qed.
End Laws.

Section Runs.
Context {B : Type}.

(** How a run may end. *)
Definition ended_well (l : Life) (r : run_end unit) : Prop :=
  match r with
  | Went _ => l_child l = false /\ l_compress l = false /\ (l_phase l = Stopping \/ l_phase l = TokenDone)
  | Failed _ => l_compress l = false
  | Panicked => False
  | Blocked => l_phase l = Serving /\ l_child l = false /\ l_compress l = true
  end.

(** The threads, from a backend on. *)
Lemma follows_threads cli (w : serve_world B) (l : Life) :
  l_phase l = Ready -> l_compress l = false ->
  follows (B:=B) cli l (spawn_threads cli w)
    (fun _ l' => l' = mkLife Compressing (l_child l) (l_killed l) true) (fun l' => l_compress l' = false) (fun _ => False).
Proof.
  destruct l as [p c k t]. cbn. intros -> ->.
  eapply follows_bind; [by apply (follows_check _ _ _ _ (fun _ l' => l' = mkLife Ready c k false))|]. intros [] l' ->.
  eapply follows_bind; [apply (follows_did _ _ _ (mkLife Capturing c k false) (fun _ l' => l' = mkLife Capturing c k false))|].
  { cbn. by rewrite decide_True. } { done. }
  intros [] l' ->.
  eapply follows_bind; [by apply (follows_check _ _ _ _ (fun _ l' => l' = mkLife Capturing c k false))|]. intros [] l' ->.
  eapply follows_bind; [by apply (follows_did _ _ _ (mkLife Injecting c k false) (fun _ l' => l' = mkLife Injecting c k false))|].
  intros [] l' ->.
  eapply follows_bind; [by apply (follows_check _ _ _ _ (fun _ l' => l' = mkLife Injecting c k false))|]. intros [] l' ->.
  eapply follows_did; [|reflexivity]. cbn. by rewrite decide_True.
Qed.

Lemma selected_not_none cli (w : serve_world B) desktop known :
  select_backend (sw_creators w) (sw_portal w) desktop (cli_capture cli) (cli_output cli) (cli_app_id cli)
    (cli_command cli) known <> None.
Proof.
  destruct (select_backend_total (sw_creators w) (sw_portal w) desktop (cli_capture cli) (cli_output cli)
    (cli_app_id cli) (cli_command cli) known) as (r & -> & _). done.
Qed.

Definition mode_phase (cli : Cli) : phase :=
  if (determine_capture_mode (cli_app_id cli) (cli_command cli)).1 then Snapped else EnvFound.

Definition has_command (cli : Cli) : bool := negb (bool_decide (cli_command cli = [])).

Lemma follows_prepare cli (w : serve_world B) env :
  follows (B:=B) cli (mkLife EnvFound false false false) (prepare cli w env)
    (fun kc l => kc.2 = has_command cli /\ l = mkLife (mode_phase cli) (has_command cli) false false)
    (fun l => l_compress l = false) (fun _ => False).
Proof.
  unfold prepare, mode_phase, has_command.
  pose proof (modes_exclusive (cli_app_id cli) (cli_command cli)) as Hm.
  pose proof (follows_launch (B:=B) cli) as Hl.
  destruct (determine_capture_mode _ _) as [auto explicit] eqn:E. destruct Hm as [Hx <-].
  assert (Hc : auto || explicit = true -> cli_command cli <> []).
  { intros Ho Hnil. unfold determine_capture_mode in E. rewrite Hnil in E. rewrite !andb_false_r in E.
    by simplify_eq. }
  eapply follows_bind with (Mid := fun _ l => l = mkLife (if auto then Snapped else EnvFound) false false false).
  { destruct auto; [|by apply follows_ret].
    eapply follows_bind; [eapply (follows_did _ _ _ (mkLife Snapped false false false) (fun _ l => l = mkLife Snapped false false false))|].
    { unfold life_step. by rewrite E. } { done. }
    intros [] l ->. by apply follows_ret. }
  intros known l ->.
  eapply follows_bind with
    (Mid := fun c l => c = auto || explicit /\ l = mkLife (if auto then Snapped else EnvFound) (auto || explicit) false false).
  { destruct (auto || explicit) eqn:Eo; [|by apply follows_ret].
    eapply follows_bind; [apply (Hl _ _ _ (fun _ l => l = mkLife (if auto then Snapped else EnvFound) true false false))|];
      try done; [by apply Hc|].
    intros [] l ->. by apply follows_ret. }
  intros c l [-> ->]. by apply follows_ret.
Qed.

Lemma follows_end cli (l : Life) m Post Err Wait :
  follows (B:=B) (A:=unit) cli l m Post Err Wait ->
  (forall l', Post tt l' -> ended_well l' (Went tt)) -> (forall e l', Err l' -> ended_well l' (Failed e)) ->
  (forall l', Wait l' -> ended_well l' Blocked) ->
  exists l', life_run cli l m.1 = Some l' /\ ended_well l' m.2.
Proof.
  intros (l' & Hrun & Hm) H1 H2 H3. exists l'. split; [done|].
  destruct m as [acts [[]|e| |]]; cbn in *; [by apply H1|by eapply H2|done|by apply H3].
Qed.

(** The tail of [run], once the threads run. *)
Lemma follows_tail cli (w : serve_world B) env c : c = has_command cli ->
  follows (B:=B) cli (mkLife Compressing c false true)
    (let '(auto_detect_child, explicit_app_id_launch) :=
       determine_capture_mode (cli_app_id cli) (cli_command cli) in
     child ← (if negb auto_detect_child && negb explicit_app_id_launch && negb (bool_decide (cli_command cli = []))
              then launch_child env (sw_spawns_child w) (cli_command cli);; mret true
              else mret c);
     did SpawnReceive;; wait_and_stop (sw_ending w) child)
    (fun _ l => l_phase l = Stopping /\ l_child l = false /\ l_compress l = false) (fun l => l_compress l = false)
    (fun l => l_phase l = Serving /\ l_child l = false /\ l_compress l = true).
Proof.
  intros ->. pose proof (modes_exclusive (cli_app_id cli) (cli_command cli)) as Hm.
  destruct (determine_capture_mode _ _) as [auto explicit]. destruct Hm as [_ Hm].
  assert (negb auto && negb explicit && negb (bool_decide (cli_command cli = [])) = false) as ->
    by (rewrite <- Hm; by destruct auto, explicit).
  eapply follows_bind; [by apply (follows_ret _ _ _ (fun c l => c = has_command cli /\ l = mkLife Compressing (has_command cli) false true))|].
  intros c l [-> ->].
  eapply follows_bind; [by apply (follows_did _ _ _ (mkLife Serving (has_command cli) false true)
    (fun _ l => l = mkLife Serving (has_command cli) false true))|].
  intros [] l ->.
  destruct (follows_stop (B:=B) cli (mkLife Serving (has_command cli) false true) (sw_ending w)
    (fun l => l_compress l = false) eq_refl eq_refl) as (l' & H1 & H2).
  exists l'. split; [done|]. cbn in H2. case_match; try done. by destruct H2 as [-> ?].
Qed.

(** C31. Every run of the server, whatever it is asked and whatever the
    system answers, takes its steps in the order of the life cycle: handshake
    sent and the client's received, a compositor found, the windows listed before
    the child starts when its window is to be detected, the child started before
    the backend is looked for, then capture, injection, compression and the
    receive loop, each with the options of the command line; no run panics; one that ends
    normally has joined its compress thread, killed its child and reaped it; one
    that fails has no compress thread; and one waits for ever only to serve with
    no child to wait for. *)
Theorem server_lifecycle (cli : Cli) (w : serve_world B) :
  exists l, life_run cli Life_new (run_server cli w).1 = Some l /\ ended_well l (run_server cli w).2.
Proof.
  unfold run_server. destruct (sw_portal w && cli_select_source cli).
  { by destruct (sw_token_saved w); cbn; eexists; (split; [reflexivity|]); cbn; auto. }
  apply (follows_end cli Life_new _
    (fun _ l => l_phase l = Stopping /\ l_child l = false /\ l_compress l = false) (fun l => l_compress l = false)
    (fun l => l_phase l = Serving /\ l_child l = false /\ l_compress l = true)); [|by naive_solver..].
  eapply follows_bind; [apply (follows_did _ _ _ (mkLife Greeted false false false) (fun _ l => l = mkLife Greeted false false false))|].
  { cbn. by rewrite decide_True. } { done. }
  intros [] l ->.
  eapply follows_bind; [by apply (follows_receive _ _ _ (fun _ l => l = mkLife Met false false false))|]. intros [] l ->.
  destruct (ensure_wayland_env _ _) as [env found].
  eapply follows_bind; [by apply (follows_did _ _ _ (mkLife EnvFound false false false) (fun _ l => l = mkLife EnvFound false false false))|].
  intros [] l ->.
  eapply follows_bind; [by apply (follows_check _ _ _ _ (fun _ l => l = mkLife EnvFound false false false))|]. intros [] l ->.
  eapply follows_bind.
  { destruct (follows_prepare cli w env) as (l' & H1 & H2). exists l'. split; [done|].
    case_match; [exact H2|exact H2|done|done]. }
  intros [known c] l [Hc ->]. cbn in Hc. subst c.
  eapply follows_bind with (Mid := fun _ l => l = mkLife Ready (has_command cli) false false).
  { apply follows_selected; [apply selected_not_none|done|]. intros b.
    eapply follows_did; [|reflexivity]. cbn. unfold has_command, mode_phase. rewrite eqb_reflx.
    unfold move. by rewrite decide_True. }
  intros _ l ->.
  eapply follows_bind.
  { destruct (follows_threads cli w (mkLife Ready (has_command cli) false false) eq_refl eq_refl) as (l' & H1 & H2).
    exists l'. split; [done|]. case_match; [exact H2|exact H2|done|done]. }
  intros [] l ->. by apply follows_tail.
Qed.
End Runs.

(** ** When the server serves *)

Section Serves.
Context {B : Type}.

Definition says_hello (first : option IncomingMessage) : bool :=
  match first with
  | Some m => match FrameHeader_msg_type (im_header m) with inl Handshake => true | _ => false end
  | None => false
  end.

(** The backend the run looks for. *)
Definition chosen (cli : Cli) (w : serve_world B) : option (B + AnyError) :=
  let env := (ensure_wayland_env (sw_system w) (sw_env w)).1 in
  let auto := (determine_capture_mode (cli_app_id cli) (cli_command cli)).1 in
  select_backend (sw_creators w) (sw_portal w) (detect_desktop (sw_system w) env) (cli_capture cli)
    (cli_output cli) (cli_app_id cli) (cli_command cli) (if auto then sw_toplevels w else None).

Definition finds_backend (r : option (B + AnyError)) : bool :=
  match r with Some (inl _) => true | _ => false end.

Definition can_serve (cli : Cli) (w : serve_world B) : bool :=
  negb (sw_portal w && cli_select_source cli) && says_hello (sw_first w) &&
  (ensure_wayland_env (sw_system w) (sw_env w)).2 &&
  (sw_spawns_child w || negb (has_command cli)) && finds_backend (chosen cli w) &&
  sw_spawns_capture w && sw_spawns_inject w && sw_spawns_compress w.

Definition receives (a : serve_act B) : bool := match a with SpawnReceive => true | _ => false end.

Lemma launch_child_cases env spawns command : command <> [] ->
  launch_child (B:=B) env spawns command =
    if spawns then ([LaunchChild command (var env WAYLAND_DISPLAY)], Went tt) else ([], Failed LaunchFailed).
Proof. by destruct command, spawns. Qed.

Lemma prepare_cases cli (w : serve_world B) env :
  prepare cli w env =
    let auto := (determine_capture_mode (cli_app_id cli) (cli_command cli)).1 in
    let known := if auto then sw_toplevels w else None in
    let first := if auto then [SnapshotToplevels] else [] in
    if has_command cli then
      if sw_spawns_child w then (first ++ [LaunchChild (cli_command cli) (var env WAYLAND_DISPLAY)], Went (known, true))
      else (first, Failed LaunchFailed)
    else (first, Went (known, false)).
Proof.
  unfold prepare, has_command. pose proof (modes_exclusive (cli_app_id cli) (cli_command cli)) as Hm.
  destruct (determine_capture_mode _ _) as [auto explicit]. destruct Hm as [_ Hm]. rewrite <- Hm. cbn [fst].
  destruct (auto || explicit) eqn:Eo; [|by destruct auto].
  assert (cli_command cli <> []) by (intros E; rewrite E in Hm; done).
  rewrite launch_child_cases by done. by destruct auto, (sw_spawns_child w).
Qed.

Lemma existsb_bind {A C} (p : serve_act B -> bool) (m : serve A) (f : A -> serve C) :
  existsb p (m ≫= f).1 = existsb p m.1 || (match m.2 with Went a => existsb p (f a).1 | _ => false end).
Proof.
  destruct m as [acts [a|e| |]]; cbn; rewrite ?orb_false_r; try done.
  destruct (f a) as [acts' r]. cbn. apply existsb_app.
Qed.

Lemma receives_threads cli (w : serve_world B) :
  existsb receives (spawn_threads cli w).1 = false /\
  (match (spawn_threads cli w).2 with Went _ => true | _ => false end) =
    sw_spawns_capture w && sw_spawns_inject w && sw_spawns_compress w.
Proof. unfold spawn_threads, check. by destruct (sw_spawns_capture w), (sw_spawns_inject w), (sw_spawns_compress w). Qed.

Lemma receives_first first :
  existsb receives (receive_first (B:=B) first).1 = false /\
  (match (receive_first (B:=B) first).2 with Went _ => true | _ => false end) = says_hello first.
Proof. unfold receive_first, says_hello. destruct first as [m|]; [|done]. by destruct (FrameHeader_msg_type _) as [[]|]. Qed.

Lemma receives_prepare cli (w : serve_world B) env :
  existsb receives (prepare cli w env).1 = false /\
  match (prepare cli w env).2 with
  | Went (known, _) =>
      sw_spawns_child w || negb (has_command cli) = true /\
      known = if (determine_capture_mode (cli_app_id cli) (cli_command cli)).1 then sw_toplevels w else None
  | _ => sw_spawns_child w || negb (has_command cli) = false
  end.
Proof.
  rewrite prepare_cases. cbv zeta.
  by destruct (determine_capture_mode _ _).1, (has_command cli), (sw_spawns_child w).
Qed.

Lemma receives_tail cli (w : serve_world B) env (c : bool) :
  existsb receives
    (let '(auto_detect_child, explicit_app_id_launch) :=
       determine_capture_mode (cli_app_id cli) (cli_command cli) in
     child ← (if negb auto_detect_child && negb explicit_app_id_launch && negb (bool_decide (cli_command cli = []))
              then launch_child env (sw_spawns_child w) (cli_command cli);; mret true
              else mret c : serve bool);
     did SpawnReceive;; wait_and_stop (sw_ending w) child).1 = true.
Proof.
  pose proof (modes_exclusive (cli_app_id cli) (cli_command cli)) as Hm.
  destruct (determine_capture_mode _ _) as [auto explicit]. destruct Hm as [_ Hm].
  rewrite <- Hm. by destruct auto, explicit; cbn; destruct (wait_and_stop _ _).
Qed.

(** The server comes to receive its client's messages, and thus to
    forward its input, exactly when the source dialog was not asked for, the
    client's first message is a handshake, a compositor is found, the command (if
    any) starts, a capture backend is created, and the three threads start. *)
Theorem server_serves (cli : Cli) (w : serve_world B) :
  existsb receives (run_server cli w).1 = can_serve cli w.
Proof.
  unfold run_server, can_serve.
  destruct (sw_portal w && cli_select_source cli); [by destruct (sw_token_saved w)|].
  cbn [negb andb]. rewrite existsb_bind. cbn [did fst snd existsb receives orb].
  destruct (receives_first (sw_first w)) as [H1 H2]. rewrite existsb_bind, H1. cbn [orb].
  destruct (receive_first (B:=B) (sw_first w)).2 as [a|e| |]; cbn in H2; rewrite <- H2; try done. clear H1 H2 a.
  unfold chosen. destruct (ensure_wayland_env (sw_system w) (sw_env w)) as [env found]. cbn [fst snd].
  rewrite existsb_bind. cbn [did fst snd existsb receives orb].
  destruct found; [|done]. cbn [andb]. rewrite existsb_bind. cbn [check mret serve_ret fst snd existsb orb].
  destruct (receives_prepare cli w env) as [H1 H2]. rewrite existsb_bind, H1. cbn [orb].
  destruct (prepare cli w env).2 as [[known c]|e| |]; [destruct H2 as [-> ->]|by rewrite H2..]. cbn [andb].
  set (r := select_backend _ _ _ _ _ _ _ _). rewrite existsb_bind.
  destruct r as [[b|e]|]; try done. cbn [of_selected mbind serve_bind did mret serve_ret app fst snd existsb receives orb finds_backend andb].
  destruct (receives_threads cli w) as [H1' H2']. rewrite existsb_bind, H1', <- H2'. cbn [orb].
  destruct (spawn_threads cli w).2; try done. apply receives_tail.
Qed.
End Serves.

(** ** Runs *)

Definition demo_hello : IncomingMessage := mkIncomingMessage (mkFrameHeader 0 (MsgType_u8 Handshake) 1 8 0) [].

Definition demo_system : System := mkSystem None (fun _ => None) (fun _ => false) (fun _ => None).

Definition demo_env : env_map := {[WAYLAND_DISPLAY := str "wayland-1"]}.

Definition demo_world (made : bool) (first : option IncomingMessage) : serve_world Z :=
  let c := if made then mkCreators Z (fun _ => inl 1) (fun _ => inl 2) (inl 3)
           else mkCreators Z (fun _ => inr NoBackend) (fun _ => inr NoBackend) (inr NoBackend) in
  mkServeWorld false false first demo_system demo_env (Some []) true (fun _ => c) true true true TransportClosed.

Definition demo_cli : Cli := mkCli CapAuto CompLz4 None (Some (str "org.app")) [str "app"] 60 (f64_of_int 1) FilterBox false.

Definition act_name (a : serve_act Z) : string :=
  match a with
  | SetupToken => "token" | SendAnchor _ => "anchor" | ReceiveFirst => "hello" | EnsureEnv => "env"
  | SnapshotToplevels => "snapshot" | LaunchChild _ _ => "launch" | BackendReady _ => "backend"
  | SpawnCapture _ => "capture" | SpawnInject _ => "inject" | SpawnCompress _ _ _ => "compress"
  | SpawnReceive => "receive" | SetShutdown => "shutdown" | JoinCompress => "join" | KillChild => "kill"
  | WaitChild => "wait"
  end.

Example demo_run :
  act_name <$> (run_server demo_cli (demo_world true (Some demo_hello))).1 =
    ["anchor"; "hello"; "env"; "launch"; "backend"; "capture"; "inject"; "compress"; "receive"; "shutdown";
     "shutdown"; "join"; "kill"; "wait"]%string.
Proof. vm_compute. reflexivity. Qed.

(** A run that fails after the child was started leaves it running: its handle is
    dropped, which does not kill it. *)
Lemma failed_run_leaves_child :
  let r := run_server demo_cli (demo_world false (Some demo_hello)) in
  act_name <$> r.1 = ["anchor"; "hello"; "env"; "launch"]%string /\
  r.2 = Failed (BackendFailed (InContext (FromCapture NoBackend))) /\
  exists l, life_run demo_cli Life_new r.1 = Some l /\ l_child l = true.
Proof. split_and!; [vm_compute; reflexivity..|]. eexists. split; vm_compute; reflexivity. Qed.
